(* ===== verification/_CoqProject ===== *)
-Q . S2P
Prelude.v
GoText.v
GoJson.v
Sha256.v
ClaimDigest.v
ExecModel.v
ResultContract.v
ClaimStore.v
TargetAccess.v
QueryGuard.v
MysqlAttempt.v
MysqlEntries.v
MysqlDurable.v
Disclosure.v
PgLexer.v
TemplateCompiler.v
SavedLibrary.v
MysqlSaved.v
PgPagination.v
PgErrors.v
PgVerifier.v
PgDisclosure.v
PgParams.v
PgSession.v
PgPool.v
PgBinding.v
PgAudit.v
PgAttempt.v
PgClaimed.v
PgSaved.v
PgNavigate.v
PgEntries.v
ExplainPlan.v
Explain.v
Inventory.v
Topology.v
TopologyGraph.v
PgDsn.v
GoAny.v
Profiles.v
InventoryDb.v
ResourceStore.v
CollectorScan.v
Relations.v
InventoryInvariant.v
InventoryOps.v
Resources.v
Ingestion.v
IngestionStore.v
IngestionConfirm.v
EffectiveValues.v
InventoryRuns.v
CollectorRuns.v
Encoding.v
Auth.v
MachineAuth.v
AccessGate.v
