(* ===== verification/Prelude.v ===== *)
(** * ControlHub backend: verified model

    ControlHub keeps an inventory of infrastructure resources and lets people
    run governed queries on the MySQL, TiDB and PostgreSQL targets among them.
    The development models the core of that: what may run, under which identity
    and key, with which bounds, what is shown of the answer and what is recorded
    about it; and how the inventory is written, imported and read as a graph.

    ** The parts and their files

    Every path is under [src/]; [service] is [internal/service], [model] is
    [internal/model], [store] is [internal/repository/mysql], [pgsql] is
    [internal/pgsql].

    Shared:
    - Prelude, GoText, GoJson, GoAny, Sha256: error values, tactics and lemmas;
      Go's text, JSON, dynamic values and hash as the code uses them.

    Governed queries on MySQL and TiDB:
    - ExecModel: [model/query_execution.go], [query_execution_claim.go],
      [pagination.go]. ClaimDigest: [service/query_claim_digest.go].
      ResultContract: [service/query_result_contract.go].
    - ClaimStore: [store/query_execution_claim_repository.go] and the evidence
      writer of [query_execution_repository.go]. Tables are finite maps; each
      database call may fail and a commit may fail either way; a transaction is
      a step on a staged copy.
    - TargetAccess: [service/query_target_access.go] and the credential gates.
      QueryGuard: [service/query_guard.go].
    - MysqlAttempt, MysqlEntries, MysqlDurable, MysqlSaved: the keyed entries of
      [service/query_mysql_execution.go], [query_execution_service.go] and
      [query_template_execution_service.go], against the interface
      [EvidenceStore]; MysqlDurable shows that ClaimStore implements it.
    - TemplateCompiler: [service/query_template_compiler*.go]. PgLexer:
      [pgsql/template.go], [preview.go]. SavedLibrary:
      [service/query_saved_statement_service.go] with its model and store.
    - Disclosure: [service/query_disclosure_service.go] and
      [query_disclosure_projection.go], with the policy table.

    Governed queries on PostgreSQL:
    - PgDsn: [service/pg_dsn_binding.go], the binding of a connection string to its
      target.
    - PgPagination: [pgsql/pagination.go]. PgVerifier: the records of
      [pgsql/proof.go] and [service/pg_result_verifier.go]. PgDisclosure:
      [service/pg_disclosure.go]. PgParams: [service/pg_parameter_plan.go],
      [pg_navigation.go], [pgsql/parameters.go].
    - PgSession, PgPool, PgErrors: the transaction interface, its statement
      budget, the version-gated pool, the error classes. PgBinding:
      [service/pg_binding_gate.go]. PgAudit: [service/pg_lock_observer.go].
      PgAttempt: [service/pg_query_executor.go] and [pg_attempt_evidence.go],
      which compose all of these.
    - PgClaimed, PgSaved, PgNavigate: the keyed entries around an attempt,
      [service/query_pg_orchestration.go] and its saved-statement and navigation
      companions. PgEntries: what holds of all three, and the adapter that turns
      an outcome into the response.

    EXPLAIN: ExplainPlan has the plan normalizers, Explain the service of
    [service/query_explain_*.go] with its runners and audit.

    Inventory:
    - Inventory: the dictionaries of [model], [service/resource_health.go] and
      the relationship rules with their discovery. Topology, TopologyGraph:
      [service/topology_*.go] over the reads of [store].
    - Profiles: the typed profiles of [model] and [service].
    - InventoryDb: the tables, a state and error monad for transactions that can
      fail at every call, and its Hoare triples. ResourceStore, Relations: the
      statements and transactions of [store/resource_repository.go] and
      [relation_repository.go]. Resources: the services over them.
    - InventoryInvariant, InventoryOps: the invariant of the tables and its
      preservation by the transactions.
    - Ingestion: parsing, validation, matching, preview and fingerprint of an
      import. IngestionStore, IngestionConfirm: the confirming transaction, of a
      user or of a collector. EffectiveValues: overrides, observed values and
      health evidence, and what is read back of them. InventoryRuns: every
      history of the inventory's operations.
    - CollectorScan: [model/collector_scan.go] and
      [store/collector_scan_repository.go]. CollectorRuns: what the tables of
      collector scans hold after any history.

    Access:
    - Encoding: base64, HMAC and splitting, as the standard library has them.
    - Auth: [service/auth_service.go], [password_hasher.go],
      [store/user_repository.go] and the upsert of [cmd/bootstrap-admin].
    - MachineAuth: [model/machine_principal.go], [service/machine_credential.go],
      [machine_principal_service.go] and their repository.
    - AccessGate: the gates of [internal/api/auth_middleware.go] and
      [machine_credential_middleware.go], the route table of [router.go], and the
      bounded audit of [service/auth_audit_emitter.go].

    ** How the parts interact

    A MySQL entry is a state transformer over an [EvidenceStore]; a PostgreSQL
    attempt is a computation over a session and its driver ([PGSession],
    [PGDialer], [PGDriver]) that logs each call it makes with its answer, so that
    the order of calls, the single dispatch and the cleanup are statements about
    the log. The PostgreSQL entries are state transformers over the same store,
    so a key is one key for both engines. An inventory transaction is a
    computation over the tables whose every call consults a fault plan; the
    services read first, on a state that may be old, and then run one. Users and
    machine credentials are tables too, with histories of their own; a request
    reaches a handler through the gate of its route. A collector's confirmation
    claims its scan, applies its rows and moves its presence states in one
    transaction of the inventory. What one file promises another is a class
    ([EvidenceStore], [Quiescent]), a record of operations ([pg_frontend],
    [sql_parser]), a triple of [InventoryDb], or a lemma ([gate_spec],
    [dispatch_spec], [apply_ok]).

    ** What the theorems show

    - Keys and evidence: the tables stay linked whatever fails
      ([ClaimStore.evidence_invariant]), a key executes once, on either engine
      ([MysqlDurable.key_executes_once], [PgEntries.pg_key_executes_once]), and
      each entry leaves exactly the record its answer stands for
      ([MysqlEntries.execute_contract], [MysqlSaved.saved_contract],
      [PgClaimed.pg_execute_contract], [PgSaved.pg_saved_contract],
      [PgNavigate.pg_navigate_contract]).
    - What may run: the guard accepts read-only statements only, templates bind
      values and never text, access passes every gate, and a PostgreSQL
      connection string spells out the one host it reaches
      ([PgDsn.pg_access_bound]; its lexer reads back what a writer quotes,
      [conninfo_round_trip]). A request's window, rows and time are bounded
      whatever it asks for ([PgClaimed.pg_request_budget]).
    - What is shown: a released cell is governed by the stored policy of its own
      source, on MySQL ([Disclosure.released_cells_governed]) and on PostgreSQL
      ([PgEntries.pg_release_governed]), and the response is the released result
      text for text ([pg_http_faithful]).
    - PostgreSQL attempts: only a verified result is delivered
      ([PgAttempt.attempt_delivers]), at most one authorised statement is sent and
      the cleanup follows everything ([attempt_calls]), the recorded evidence is
      true of the calls ([attempt_evidence_truthful]), the bound relations are
      proved and the held locks explained ([PgBinding], [PgAudit]).
    - EXPLAIN: the normalized plan is the plan ([ExplainPlan.explain_plan_exact])
      and an attempt is audited once with its outcome
      ([Explain.explain_contract]).
    - The graph: an answer not marked truncated is the whole graph of the
      question ([TopologyGraph.topology_complete]), and every answer is bounded
      and closed whatever happens between its reads
      ([Topology.topology_bounded_closed]).
    - The inventory: its tables stay well formed over every history, with stale
      reads, failing calls and lost commits ([InventoryRuns.inventory_invariant]);
      the preview of an import decides by identities alone
      ([Ingestion.preview_exact]), a confirmation applies what was reviewed or
      nothing ([IngestionConfirm.confirm_reviewed]) and audits exactly its changes
      ([confirm_audited]); profile fields read back as validated
      ([Profiles.profile_round_trip]); a registration is well formed
      ([Resources.registered_well]). Two theorems state where the code departs
      from that: aliases dropped at registration
      ([Resources.registration_drops_aliases]) and imports that bypass the checks
      of a registration ([IngestionStore.imports_bypass_registration]). An
      override changes on the version its editor expects, on the record, or not at
      all ([EffectiveValues.override_exact]), and the health evidence kept of an
      observer is its newest in whatever order it arrives ([health_newest]).
    - Collectors: the tables record exactly the scans that counted, and a resource
      is missing from the third complete scan in a row without it
      ([CollectorRuns.collector_rows_exact]); a scan counts once
      ([scan_counts_once]); a collector's batch is reviewed and audited like a
      user's ([collector_confirmed]).
    - Access: a password is accepted exactly when its stored hash matches, a token
      stops working with the next change of its user and never starts again
      ([Auth.revocation_forever]); machine credentials stay hashed, scoped and
      bounded ([MachineAuth.machine_invariant]); who reaches a handler satisfies
      its route's gate ([AccessGate.access_control], [route_policy]), and audited
      rejections are bounded ([rejections_bounded]).

    ** Bounds and fuel

    Integers are [Z] with the wrap-around or the check the code has written out.
    [PgLexer] and [PgDsn] scan with the length of the text as fuel, which their
    theorems show is enough; an IPv6 address has at most 8 groups.
    [PgAttempt.poll_fuel] is the number of 50 ms polls in the probe's 2 s window
    and two more ([remote_state_settles]). The EXPLAIN normalizers recurse to the
    code's own depth limit of 64, and the walk up a replication chain has one
    step more than there are replication edges, each of which it follows at most
    once. Nothing else runs on fuel.

    ** Parameters

    Code that is not under [src/] is a parameter: the Vitess and PostgreSQL
    parsers and printers ([sql_parser], [pg_frontend]), the database drivers
    ([PGSession], [PGDialer], [PGDriver], the EXPLAIN runners' answers, the
    stores' fault plans), the MySQL and PostgreSQL drivers' and [net/url]'s
    parsing of a connection string, the decoders of CSV and JSON documents, the
    printing of a value with [%v], the conversion of floating-point numbers, the
    collation of MySQL's text columns and the rounding of its times, Argon2 and
    the random bytes, the router's choice among the registered routes, the
    environment, the clock, Unicode case mapping, and the order in which Go walks
    a map. HMAC and SHA-256 are defined, so that tokens evaluate; nothing is
    claimed about forging them. The test-only hooks of the
    PostgreSQL executor are nil, as in production. [pg_frontend] also stands for
    [pgsql/guard.go], [name_resolution.go], [inject.go] and [rewrite.go], which
    rewrite the parser's trees; of the rewriter it is only assumed that its own
    calls are catalog probes, and what it returns is checked by the modelled
    verifier.

    ** Not modelled

    The HTTP handlers' decoding and encoding ([internal/api] but its gates and
    routes), [serverboot], [config], [cmd] and [openapi]; database migrations and
    the cutover tool; the bulk edits; the listing, summary and named-view queries
    of the repositories, which are SQL text and row scanning; the schema browser with its inspectors and cache; the tree
    rewriting of [pgsql] named above. *)
From stdpp Require Export base tactics decidable countable gmap strings list sorting relations.
From Stdlib Require Export ZArith Lia.
From Stdlib Require Ascii.
Export Ascii.AsciiSyntax.
Delimit Scope char_scope with char.

(** ** Notations *)

(** Go's [string] and [[]byte] are both sequences of 8-bit bytes. *)
Abbreviation byte := Ascii.ascii (only parsing).
Abbreviation bytes := (list Ascii.ascii).

(** Text literals of the source, as bytes. *)
Definition gs (s : string) : bytes := String.list_ascii_of_string s.

(** The numeric value of a byte. *)
Definition bv (c : byte) : Z := Z.of_N (Ascii.N_of_ascii c).

(** The byte with a given value (taken modulo 256, as Go's [byte(x)]). *)
Definition bz (z : Z) : byte := Ascii.ascii_of_N (Z.to_N (z `mod` 256)).

Declare Scope controlhub_scope.
Delimit Scope controlhub_scope with chub.
Infix "=?b" := (λ x y, bool_decide (x = y)) (at level 70) : controlhub_scope.
#[global] Open Scope controlhub_scope.

(** ** Results

    A Go function returning [(T, error)] is a function to [result E T]: the
    error type [E] lists the sentinels and codes the callers distinguish. *)
Inductive result (E A : Type) : Type :=
  | Ok (a : A)
  | Err (e : E).
Arguments Ok {_ _} _.
Arguments Err {_ _} _.

#[export] Instance result_ret {E} : MRet (result E) := λ A a, Ok a.
#[export] Instance result_bind {E} : MBind (result E) := λ A B f m,
  match m with Ok a => f a | Err e => Err e end.
#[export] Instance result_fmap {E} : FMap (result E) := λ A B f m,
  match m with Ok a => Ok (f a) | Err e => Err e end.

#[export] Instance result_eq_dec {E A} `{EqDecision E, EqDecision A} :
  EqDecision (result E A).
Proof. solve_decision. Defined.

#[export] Instance ok_inj {E A} : Inj (=) (=) (@Ok E A).
Proof. by intros x y [= ->]. Qed.

(** The early return [if cond { return err }]. *)
Definition guard_err {E} (bad : bool) (e : E) : result E unit :=
  if bad then Err e else Ok tt.

Definition is_ok {E A} (r : result E A) : bool :=
  match r with Ok _ => true | Err _ => false end.

Definition map_err {E F A} (f : E → F) (r : result E A) : result F A :=
  match r with Ok a => Ok a | Err e => Err (f e) end.

(** Loops over a slice whose body may return early with an error. *)
Fixpoint for_each {E A} (f : A → result E unit) (l : list A) : result E unit :=
  match l with
  | [] => Ok tt
  | x :: l => _ ← f x; for_each f l
  end.

Fixpoint map_result {E A B} (f : A → result E B) (l : list A) : result E (list B) :=
  match l with
  | [] => Ok []
  | x :: l => y ← f x; ys ← map_result f l; Ok (y :: ys)
  end.

(** [time.Time{}], the first of January of the year 1, in nanoseconds of the Unix epoch. *)
Definition zero_time : Z := (- 62135596800 * 1000000000)%Z.
(** What a time becomes in a [datetime(6)] column. *)
Class DbTime : Type := store_time : Z → Z.

(** ** Go slices and sorting *)

(** [s[a:b]] for [a <= b <= len(s)]. *)
Definition slice {A} (a b : nat) (s : list A) : list A := take (b - a) (drop a s).

(** [sort.Slice]/[sort.SliceStable] with the source's [less]. Inserting from
    the right keeps equal elements in their original order. *)
Fixpoint sort_insert {A} (less : A → A → bool) (x : A) (l : list A) : list A :=
  match l with
  | [] => [x]
  | y :: l' => if less y x then y :: sort_insert less x l' else x :: l
  end.
Definition sort_slice {A} (less : A → A → bool) (l : list A) : list A :=
  foldr (sort_insert less) [] l.

(** What Go's sort needs from [less]: a strict weak order. *)
Class StrictLess {A} (less : A → A → bool) : Prop := {
  less_asym x y : less x y = true → less y x = false;
  less_cotrans x y z : less x y = false → less y z = false → less x z = false;
}.

(** A total [less]: incomparable elements are equal, so the sorted order of a
    slice is unique and does not depend on the sorting algorithm. *)
Class TotalLess {A} (less : A → A → bool) : Prop := {
  total_strict :: StrictLess less;
  less_total x y : less x y = false → less y x = false → x = y;
}.

(** Byte-wise lexicographic order, Go's [<] on strings. *)
Fixpoint bytes_less (s t : bytes) : bool :=
  match s, t with
  | _, [] => false
  | [], _ :: _ => true
  | a :: s, b :: t => (bv a <? bv b)%Z || ((bv a =? bv b)%Z && bytes_less s t)
  end.

(** ** Tactics *)

(** Split a successful chain of early returns into its steps. *)
Ltac res_step :=
  match goal with
  | H : mbind _ ?m = Ok _ |- _ =>
      let E := fresh "E" in destruct m eqn:E; cbn [mbind result_bind] in H; [|discriminate H]
  | H : fmap _ ?m = Ok _ |- _ =>
      let E := fresh "E" in destruct m eqn:E; cbn [fmap result_fmap] in H; [|discriminate H]
  | H : guard_err ?b _ = Ok _ |- _ =>
      let E := fresh "E" in destruct b eqn:E; cbn [guard_err] in H; [discriminate H|]; clear H
  | H : (if ?b then Err _ else _) = Ok _ |- _ =>
      let E := fresh "E" in destruct b eqn:E; [discriminate H|]
  | H : (if ?b then _ else Err _) = Ok _ |- _ =>
      let E := fresh "E" in destruct b eqn:E; [|discriminate H]
  | H : Ok _ = Ok _ |- _ => injection H as H; subst
  | H : mret _ = Ok _ |- _ => injection H as H; subst
  end.
Ltac res_inv := repeat res_step.
(** The same, with the units of the checks destructed. *)
Ltac unit_inv := repeat match goal with u : () |- _ => destruct u end.

(** Turn the boolean tests of the code into propositions. *)
Ltac bool_step :=
  match goal with
  | H : (_ && _)%bool = true |- _ => apply andb_prop in H as [? ?]
  | H : (_ || _)%bool = false |- _ => apply orb_false_elim in H as [? ?]
  | H : negb _ = true |- _ => apply negb_true_iff in H
  | H : negb _ = false |- _ => apply negb_false_iff in H
  | H : bool_decide _ = true |- _ => apply bool_decide_eq_true in H
  | H : bool_decide _ = false |- _ => apply bool_decide_eq_false in H
  | H : (_ <? _)%Z = true |- _ => apply Z.ltb_lt in H
  | H : (_ <? _)%Z = false |- _ => apply Z.ltb_ge in H
  | H : (_ <=? _)%Z = true |- _ => apply Z.leb_le in H
  | H : (_ <=? _)%Z = false |- _ => apply Z.leb_gt in H
  | H : (_ =? _)%Z = true |- _ => apply Z.eqb_eq in H
  | H : (_ =? _)%Z = false |- _ => apply Z.eqb_neq in H
  | H : (_ <? _)%nat = true |- _ => apply Nat.ltb_lt in H
  | H : (_ <? _)%nat = false |- _ => apply Nat.ltb_ge in H
  | H : (_ <=? _)%nat = true |- _ => apply Nat.leb_le in H
  | H : (_ <=? _)%nat = false |- _ => apply Nat.leb_gt in H
  | H : (_ =? _)%nat = true |- _ => apply Nat.eqb_eq in H
  | H : (_ =? _)%nat = false |- _ => apply Nat.eqb_neq in H
  end.
Ltac bool_inv := repeat bool_step.

(** Case on the first test of the goal, keeping it as [E]. *)
Tactic Notation "case_if" "as" ident(E) :=
  match goal with |- context [if ?b then _ else _] => destruct b eqn:E end.

(** Case on a test for the empty string or list in the goal, whatever its instance. *)
Ltac case_nil :=
  match goal with |- context [@bool_decide (?x = []) ?i] => destruct (@bool_decide (x = []) i) end.

(** Case on the test of the outermost [if] of a hypothesis, keeping its equation. *)
Tactic Notation "test_in" ident(H) "as" ident(E) :=
  match type of H with context [if ?b then _ else _] => destruct b eqn:E end.

(** The facts about bytes, slices and sorting that the components share. *)
Create HintDb chub discriminated.
Create Rewrite HintDb chub.

(** ** Results of loops *)

Lemma for_each_ok {E A} (f : A → result E unit) l : for_each f l = Ok tt ↔ Forall (λ x, f x = Ok tt) l.
Proof.
  induction l as [|x l IH]; cbn; [by split; [constructor|]|]. rewrite Forall_cons, <- IH.
  destruct (f x) as [[]|] eqn:E1; cbn; [tauto|]. split; [done|]. by intros [? _].
Qed.

Lemma for_each_err {E A} (f : A → result E unit) l e :
  for_each f l = Err e → ∃ x, x ∈ l ∧ f x = Err e.
Proof.
  induction l as [|x l IH]; cbn; [done|]. destruct (f x) as [[]|e'] eqn:E1; cbn.
  - intros (y & Hy & Hf)%IH. exists y. split; [by right|done].
  - intros [= ->]. exists x. split; [by left|done].
Qed.

Lemma map_result_ok {E A B} (f : A → result E B) l ys : map_result f l = Ok ys ↔ Forall2 (λ x y, f x = Ok y) l ys.
Proof.
  revert ys. induction l as [|x l IH]; intros ys; cbn.
  - split; [intros [= <-]; constructor|by inversion 1].
  - destruct (f x) as [y|] eqn:E1; cbn.
    + destruct (map_result f l) as [zs|] eqn:E2; cbn.
      * split; [intros [= <-]; constructor; [done|by apply IH]|].
        inversion 1 as [|? y' ? ys' Hy Hys]; subst. apply IH in Hys. congruence.
      * split; [done|]. inversion 1 as [|? y' ? ys' Hy Hys]; subst. apply IH in Hys. congruence.
    + split; [done|]. inversion 1; congruence.
Qed.

Lemma map_result_err {E A B} (f : A → result E B) l e :
  map_result f l = Err e → ∃ x, x ∈ l ∧ f x = Err e.
Proof.
  induction l as [|x l IH]; cbn; [done|]. destruct (f x) as [y|e'] eqn:E1; cbn.
  - destruct (map_result f l); cbn; [done|]. intros (z & Hz & Hf)%IH. exists z. split; [by right|done].
  - intros [= ->]. exists x. split; [by left|done].
Qed.

(** ** Bytes *)

Lemma bv_range c : (0 ≤ bv c < 256)%Z.
Proof. unfold bv. pose proof (Ascii.N_ascii_bounded c). lia. Qed.

Lemma bz_bv c : bz (bv c) = c.
Proof.
  unfold bz. rewrite Z.mod_small by apply bv_range.
  unfold bv. rewrite N2Z.id. apply Ascii.ascii_N_embedding.
Qed.

Lemma bv_bz z : bv (bz z) = (z `mod` 256)%Z.
Proof.
  unfold bz, bv. pose proof (Z.mod_pos_bound z 256 ltac:(lia)).
  rewrite Ascii.N_ascii_embedding by lia. lia.
Qed.

#[export] Instance bv_inj : Inj (=) (=) bv.
Proof. intros c d H. rewrite <- (bz_bv c), H. apply bz_bv. Qed.

(** A property of one byte, by running it on all 256 values. *)
Definition all_bytes : list byte := (λ n, bz (Z.of_nat n)) <$> seq 0 256.

Lemma all_bytes_spec (P : byte → bool) c : forallb P all_bytes = true → P c = true.
Proof.
  rewrite forallb_forall. intros H. apply H. apply list_elem_of_In.
  unfold all_bytes. apply list_elem_of_fmap. exists (Z.to_nat (bv c)).
  pose proof (bv_range c). split.
  - rewrite Z2Nat.id by lia. by rewrite bz_bv.
  - apply elem_of_seq. lia.
Qed.

Ltac byte_cases c :=
  pattern c; apply Is_true_eq_true, (all_bytes_spec (λ c, _) c); vm_compute; reflexivity.

(** ** Lists *)

Lemma nodup_fmap_inj {A B} (f : A → B) (l : list A) x y :
  NoDup (f <$> l) → x ∈ l → y ∈ l → f x = f y → x = y.
Proof.
  induction l as [|z l IH]; [by intros _ ?%elem_of_nil|]. rewrite fmap_cons, NoDup_cons. intros [Hz Hl] Hx Hy Hf.
  apply elem_of_cons in Hx as [->|Hx], Hy as [->|Hy]; [done|..|by apply IH].
  - destruct Hz. rewrite Hf. by apply list_elem_of_fmap_2.
  - destruct Hz. rewrite <- Hf. by apply list_elem_of_fmap_2.
Qed.

(** ** Slices *)

Section slices.
Context {A : Type}.
Implicit Types s t : list A.

Lemma slice_full s : slice 0 (length s) s = s.
Proof. unfold slice. rewrite drop_0, Nat.sub_0_r. apply firstn_all. Qed.

Lemma slice_empty a s : slice a a s = [].
Proof. unfold slice. by rewrite Nat.sub_diag. Qed.

Lemma slice_split a b c s : a ≤ b → b ≤ c → slice a b s ++ slice b c s = slice a c s.
Proof.
  intros Hab Hbc. unfold slice.
  replace (c - a) with ((b - a) + (c - b)) by lia.
  replace (drop b s) with (drop (b - a) (drop a s)).
  - by rewrite take_take_drop.
  - rewrite drop_drop. f_equal. lia.
Qed.

Lemma length_slice a b s : b ≤ length s → length (slice a b s) = b - a.
Proof. intros. unfold slice. rewrite length_take, length_drop. lia. Qed.

Lemma lookup_slice a b i s : i < b - a → slice a b s !! i = s !! (a + i).
Proof. intros. unfold slice. by rewrite lookup_take_lt, lookup_drop by lia. Qed.

Lemma slice_app_l a b s t : b ≤ length s → slice a b (s ++ t) = slice a b s.
Proof.
  intros. unfold slice. destruct (decide (a ≤ b)) as [Hab|Hab].
  - rewrite drop_app_le by lia. rewrite take_app_le; [done|]. rewrite length_drop. lia.
  - by replace (b - a) with 0 by lia.
Qed.

Lemma slice_tail a s : slice a (length s) s = drop a s.
Proof. unfold slice. apply take_ge. rewrite length_drop. lia. Qed.
End slices.
#[export] Hint Resolve bv_range : chub.
#[export] Hint Rewrite @slice_full @slice_empty @slice_tail : chub.

(** ** Sorting *)

Section sorting.
Context {A : Type} (less : A → A → bool).

Lemma sort_insert_perm x l : sort_insert less x l ≡ₚ x :: l.
Proof.
  induction l as [|y l IH]; cbn; [done|].
  destruct (less y x); [|done]. rewrite IH. apply Permutation_swap.
Qed.

Lemma sort_slice_perm l : sort_slice less l ≡ₚ l.
Proof.
  induction l as [|x l IH]; cbn; [done|].
  etrans; [apply sort_insert_perm|]. by f_equiv.
Qed.

Lemma sort_slice_length l : length (sort_slice less l) = length l.
Proof. by rewrite sort_slice_perm. Qed.

Lemma sort_slice_elem x l : x ∈ sort_slice less l ↔ x ∈ l.
Proof. by rewrite sort_slice_perm. Qed.

Definition not_after (x y : A) : Prop := less y x = false.

Lemma sort_insert_sorted `{!StrictLess less} x l :
  StronglySorted not_after l → StronglySorted not_after (sort_insert less x l).
Proof.
  induction 1 as [|y l Hl IH Hy]; cbn; [by repeat constructor|].
  destruct (less y x) eqn:E.
  - constructor; [done|]. rewrite sort_insert_perm. constructor; [|done].
    unfold not_after. by apply less_asym.
  - constructor; [by constructor|]. constructor; [done|].
    eapply Forall_impl; [exact Hy|]. unfold not_after.
    intros z Hz. by apply less_cotrans with y.
Qed.

Lemma sort_slice_sorted `{!StrictLess less} l :
  StronglySorted not_after (sort_slice less l).
Proof. induction l; cbn; [constructor|by apply sort_insert_sorted]. Qed.

Lemma sort_insert_sorted_id x l :
  Forall (not_after x) l → sort_insert less x l = x :: l.
Proof. intros H. destruct l as [|y l]; [done|]. cbn. by rewrite (Forall_inv H). Qed.

Lemma sort_slice_sorted_id l : StronglySorted not_after l → sort_slice less l = l.
Proof.
  induction 1 as [|x l Hl IH Hx]; [done|]. cbn.
  unfold sort_slice in IH. rewrite IH. by apply sort_insert_sorted_id.
Qed.

(** The order of the input does not matter. *)
Lemma sort_slice_permutation `{!TotalLess less} l1 l2 :
  l1 ≡ₚ l2 → sort_slice less l1 = sort_slice less l2.
Proof.
  intros H. pose proof (total_strict (less := less)).
  apply (StronglySorted_unique_strong not_after).
  - intros x y _ _ Hxy Hyx. by apply (less_total (less := less)).
  - apply sort_slice_sorted.
  - apply sort_slice_sorted.
  - by rewrite !sort_slice_perm.
Qed.
End sorting.

#[export] Instance bytes_less_total : TotalLess bytes_less.
Proof.
  split; [split|].
  - intros s. induction s as [|a s IH]; intros [|b t]; cbn; try done.
    pose proof (bv_range a). rewrite orb_true_iff, andb_true_iff.
    intros [Hlt|[Heq Hlt]]; bool_inv.
    + apply orb_false_intro; [apply Z.ltb_ge; lia|].
      apply andb_false_intro1, Z.eqb_neq. lia.
    + rewrite (IH _ Hlt), andb_false_r, orb_false_r. apply Z.ltb_ge. lia.
  - intros s. induction s as [|a s IH]; intros [|b t] [|c u]; cbn; try done.
    intros H1 H2. bool_inv. apply orb_false_intro.
    + apply Z.ltb_ge. lia.
    + destruct (bv a =? bv c)%Z eqn:E; [|done]. bool_inv.
      assert (bv a = bv b ∧ bv b = bv c)%Z as [Hab Hbc] by lia.
      rewrite (proj2 (Z.eqb_eq _ _) Hab) in *. rewrite (proj2 (Z.eqb_eq _ _) Hbc) in *.
      cbn in *. eauto.
  - intros s. induction s as [|a s IH]; intros [|b t]; cbn; try done.
    intros H1 H2. bool_inv. assert (bv a = bv b)%Z as Hab by lia.
    rewrite Hab, Z.eqb_refl in *. cbn in *. f_equal; [by apply bv_inj|auto].
Qed.
#[export] Instance bytes_less_strict : StrictLess bytes_less := total_strict.

(** Sorting by a key. *)
Definition less_by {A K} (key : A → K) (less : K → K → bool) (x y : A) : bool := less (key x) (key y).

#[export] Instance less_by_strict {A K} (key : A → K) less `{!StrictLess less} :
  StrictLess (less_by key less).
Proof.
  split; unfold less_by.
  - intros x y. apply less_asym.
  - intros x y z. apply less_cotrans.
Qed.

(** With distinct keys the sorted order does not depend on the input order. *)
Lemma sort_by_permutation {A K} (key : A → K) less `{!TotalLess less} l1 l2 :
  NoDup (key <$> l1) → l1 ≡ₚ l2 →
  sort_slice (less_by key less) l1 = sort_slice (less_by key less) l2.
Proof.
  intros Hnd H. pose proof (total_strict (less := less)).
  apply (StronglySorted_unique_strong (not_after (less_by key less))).
  - intros x y Hx Hy Hxy Hyx. rewrite sort_slice_elem in Hx, Hy. rewrite <- H in Hy.
    assert (key x = key y) as Hk by (by apply (less_total (less := less))).
    apply list_elem_of_lookup in Hx as [i Hi], Hy as [j Hj].
    assert (i = j) as <-; [|congruence].
    apply (NoDup_lookup (key <$> l1) i j (key x) Hnd); rewrite list_lookup_fmap.
    + by rewrite Hi.
    + rewrite Hj. cbn. by rewrite Hk.
  - apply sort_slice_sorted, _.
  - apply sort_slice_sorted, _.
  - by rewrite !sort_slice_perm.
Qed.
