(* ===== verification/GoText.v ===== *)
(** * Go's text primitives

    The parts of [unicode/utf8], [strings] and [strconv] the modelled code
    calls, on byte sequences. *)
From S2P Require Import Prelude.

(** ** UTF-8 *)

Definition in_range (lo hi : Z) (c : byte) : bool := (lo <=? bv c)%Z && (bv c <=? hi)%Z.

(** A continuation byte [10xxxxxx]. *)
Definition is_cont (c : byte) : bool := in_range 128 191 c.

(** [utf8.RuneStart]. *)
Definition rune_start (c : byte) : bool := negb (is_cont c).

(** The width of the valid encoding at the head of [s], if there is one
    (the accept ranges of [utf8.DecodeRune]). *)
Definition rune_width (s : bytes) : option nat :=
  match s with
  | [] => None
  | a :: s1 =>
    if in_range 0 127 a then Some 1 else
    match s1 with
    | [] => None
    | b :: s2 =>
      if in_range 194 223 a then (if is_cont b then Some 2 else None) else
      match s2 with
      | [] => None
      | c :: s3 =>
        if in_range 224 239 a then
          if (if (bv a =? 224)%Z then in_range 160 191 b
              else if (bv a =? 237)%Z then in_range 128 159 b else is_cont b)
             && is_cont c
          then Some 3 else None
        else
        match s3 with
        | [] => None
        | d :: _ =>
          if in_range 240 244 a
             && (if (bv a =? 240)%Z then in_range 144 191 b
                 else if (bv a =? 244)%Z then in_range 128 143 b else is_cont b)
             && is_cont c && is_cont d
          then Some 4 else None
        end
      end
    end
  end.

(** The step of a [range] loop over a string: an invalid byte is one rune. *)
Definition rune_step (s : bytes) : nat :=
  match rune_width s with Some n => n | None => 1 end.

(** [utf8.ValidString]: [skip] counts the remaining bytes of the current rune. *)
Fixpoint valid_from (skip : nat) (s : bytes) : bool :=
  match s with
  | [] => true
  | _ :: t =>
    match skip with
    | S k => valid_from k t
    | O => match rune_width s with Some n => valid_from (n - 1) t | None => false end
    end
  end.
Definition valid_string (s : bytes) : bool := valid_from 0 s.

(** [utf8.RuneCountInString]. *)
Fixpoint rune_count_from (skip : nat) (s : bytes) : nat :=
  match s with
  | [] => 0
  | _ :: t =>
    match skip with
    | S k => rune_count_from k t
    | O => S (rune_count_from (rune_step s - 1) t)
    end
  end.
Definition rune_count (s : bytes) : nat := rune_count_from 0 s.

(** The byte offset at which the [n]-th rune starts, or the length. *)
Fixpoint rune_offset_from (skip n : nat) (s : bytes) : nat :=
  match s with
  | [] => 0
  | _ :: t =>
    match skip with
    | S k => S (rune_offset_from k n t)
    | O => match n with
           | O => 0
           | S n => S (rune_offset_from (rune_step s - 1) n t)
           end
    end
  end.
Definition rune_offset (n : nat) (s : bytes) : nat := rune_offset_from 0 n s.

(** ** [strings] *)

Definition is_prefix (p s : bytes) : bool := (take (length p) s =?b p).

(** [strings.Index]. *)
Fixpoint index_of (p s : bytes) : option nat :=
  if is_prefix p s then Some 0
  else match s with [] => None | _ :: t => S <$> index_of p t end.

(** [strings.IndexByte(s, c) >= 0]. *)
Definition contains_byte (c : byte) (s : bytes) : bool := existsb (λ d, d =?b c) s.

Definition nul : byte := bz 0.

(** The encodings of the code points with [unicode.IsSpace]. *)
Definition space_encodings : list bytes :=
  (λ z, [bz z]) <$> [9; 10; 11; 12; 13; 32]%Z.
Definition wide_space_encodings : list bytes :=
  [ [bz 194; bz 133]; [bz 194; bz 160]; [bz 225; bz 154; bz 128];
    [bz 226; bz 128; bz 168]; [bz 226; bz 128; bz 169]; [bz 226; bz 128; bz 175];
    [bz 226; bz 129; bz 159]; [bz 227; bz 128; bz 128] ]
  ++ ((λ n, [bz 226; bz 128; bz (128 + Z.of_nat n)]) <$> seq 0 11).
Definition spaces : list bytes := space_encodings ++ wide_space_encodings.

(** Drop leading occurrences of the patterns ([skip] bytes are already matched). *)
Fixpoint trim_from (pats : list bytes) (skip : nat) (s : bytes) : bytes :=
  match s with
  | [] => []
  | _ :: t =>
    match skip with
    | S k => trim_from pats k t
    | O => match list_find (λ p, is_prefix p s = true) pats with
           | Some (_, p) => trim_from pats (length p - 1) t
           | None => s
           end
    end
  end.
Definition trim_left (s : bytes) : bytes := trim_from spaces 0 s.
Definition trim_right (s : bytes) : bytes :=
  reverse (trim_from (reverse <$> spaces) 0 (reverse s)).

(** [strings.TrimSpace]. *)
Definition trim_space (s : bytes) : bytes := trim_right (trim_left s).

(** ** [strconv] *)

Definition digit_char (d : Z) : byte := bz (48 + d).

(** Decimal digits, least significant last; [fuel] bounds their number. *)
Fixpoint digits (fuel : nat) (n : Z) (acc : bytes) : bytes :=
  match fuel with
  | O => acc
  | S f => let acc := digit_char (n `mod` 10) :: acc in
           if (n <? 10)%Z then acc else digits f (n / 10)%Z acc
  end.

(** [strconv.FormatUint(n, 10)]: 20 digits hold every 64-bit value. *)
Definition format_uint (n : Z) : bytes := digits 20 n [].

(** [strconv.FormatInt(n, 10)] and [strconv.Itoa]. *)
Definition format_int (n : Z) : bytes :=
  if (n <? 0)%Z then gs "-" ++ format_uint (- n) else format_uint n.

Definition is_digit (c : byte) : bool := in_range 48 57 c.

(** The value of a run of decimal digits. *)
Definition digits_value (s : bytes) : Z := foldl (λ acc c, acc * 10 + (bv c - 48))%Z 0%Z s.

Definition max_int64 : Z := (2 ^ 63 - 1)%Z.
Definition min_int64 : Z := (- 2 ^ 63)%Z.
Definition max_uint64 : Z := (2 ^ 64 - 1)%Z.
Definition int64_ok (z : Z) : bool := (min_int64 <=? z)%Z && (z <=? max_int64)%Z.

(** [strconv.ParseUint(s, 10, 64)]. *)
Definition parse_uint (s : bytes) : option Z :=
  if bool_decide (s = []) || negb (forallb is_digit s) then None
  else let v := digits_value s in if (v <=? max_uint64)%Z then Some v else None.

(** [strconv.ParseInt(s, 10, 64)]: an optional sign, then digits. *)
Definition parse_int (s : bytes) : option Z :=
  let '(neg, ds) := match s with
                    | c :: t => if c =?b "-"%char then (true, t)
                                else if c =?b "+"%char then (false, t) else (false, s)
                    | [] => (false, s)
                    end in
  if bool_decide (ds = []) || negb (forallb is_digit ds) then None
  else let v := if neg then (- digits_value ds)%Z else digits_value ds in
       if int64_ok v then Some v else None.

(** Go's conversions to [uint64] and [int64] wrap around. *)
Definition to_uint64 (z : Z) : Z := (z `mod` 2 ^ 64)%Z.
Definition to_int64 (z : Z) : Z := ((z + 2 ^ 63) `mod` 2 ^ 64 - 2 ^ 63)%Z.

(** Instants and durations are nanoseconds. *)

(** [Duration.Milliseconds], and [Time.Sub], which saturates. *)
Definition milliseconds (d : Z) : Z := (d ÷ 1000000)%Z.
Definition time_sub (t u : Z) : Z := Z.max min_int64 (Z.min max_int64 (t - u)).

(** ** Facts about UTF-8 *)

(** A single complete encoding. *)
Definition is_rune (r : bytes) : Prop := rune_width r = Some (length r).

Lemma rune_width_bounds s n : rune_width s = Some n → 1 ≤ n ≤ 4 ∧ n ≤ length s.
Proof.
  unfold rune_width. intros H. repeat case_match; simplify_eq; cbn; lia.
Qed.

Lemma rune_step_pos s : 1 ≤ rune_step s.
Proof. unfold rune_step. case_match eqn:E; [|lia]. apply rune_width_bounds in E. lia. Qed.

(** The width depends only on the bytes of the rune. *)
Lemma rune_width_app s t n : rune_width s = Some n → rune_width (s ++ t) = Some n.
Proof.
  destruct s as [|a [|b [|c [|d s]]]]; cbn; [done|..]; intros H;
    repeat (case_match; simplify_eq; try done).
Qed.

Lemma rune_width_take s n : rune_width s = Some n → rune_width (take n s) = Some n.
Proof.
  destruct s as [|a [|b [|c [|d s]]]]; cbn; [done|..]; intros H;
    repeat match type of H with context [if ?b then _ else _] => destruct b eqn:? end;
    simplify_eq; cbn; repeat match goal with E : ?b = _ |- context [?b] => rewrite E end; done.
Qed.

Lemma rune_width_is_rune s n : rune_width s = Some n → is_rune (take n s).
Proof.
  intros H. unfold is_rune. rewrite (rune_width_take _ _ H), length_take.
  apply rune_width_bounds in H. f_equal. lia.
Qed.

Lemma rune_offset_from_skip k n s : k ≤ length s → k ≤ rune_offset_from k n s.
Proof.
  revert s. induction k as [|k IH]; intros s Hk; [lia|]. destruct s as [|c s]; cbn in *; [lia|].
  specialize (IH s). lia.
Qed.

Lemma rune_step_take s n : rune_step s ≤ n → rune_step (take n s) = rune_step s.
Proof.
  unfold rune_step. destruct (rune_width s) as [w|] eqn:Ew; intros Hn.
  - replace (take n s) with (take w s ++ drop w (take n s)).
    + by rewrite (rune_width_app _ _ _ (rune_width_take _ _ Ew)).
    + rewrite <- (take_drop w (take n s)) at 2. by rewrite take_take, Nat.min_l.
  - destruct (rune_width (take n s)) as [w|] eqn:Et; [|done].
    apply (rune_width_app _ (drop n s)) in Et. rewrite take_drop in Et. congruence.
Qed.

(** Cutting at the [n]-th rune leaves at most [n] runes. *)
Lemma rune_count_offset_from k n s : rune_count_from k (take (rune_offset_from k n s) s) ≤ n.
Proof.
  revert k n. induction s as [|c s IH]; intros k n; [cbn; lia|]. cbn [rune_offset_from].
  destruct k as [|k]; [|cbn [take rune_count_from]; apply IH]. destruct n as [|n]; [cbn; lia|].
  cbn [take rune_count_from].
  assert (rune_step (c :: take (rune_offset_from (rune_step (c :: s) - 1) n s) s) = rune_step (c :: s)) as ->.
  { change (c :: take ?m s) with (take (S m) (c :: s)). apply rune_step_take.
    pose proof (rune_step_pos (c :: s)). assert (rune_step (c :: s) ≤ S (length s)) as Hl.
    { unfold rune_step. destruct (rune_width (c :: s)) as [w|] eqn:Ew; [|lia].
      apply rune_width_bounds in Ew. cbn in Ew. lia. }
    pose proof (rune_offset_from_skip (rune_step (c :: s) - 1) n s). lia. }
  specialize (IH (rune_step (c :: s) - 1) n). lia.
Qed.

Lemma rune_count_offset n s : rune_count (take (rune_offset n s) s) ≤ n.
Proof. apply rune_count_offset_from. Qed.

Lemma valid_from_skip k s t : length s = k → valid_from k (s ++ t) = valid_from 0 t.
Proof. revert k. induction s as [|c s IH]; intros [|k]; cbn; try done. intros. apply IH. lia. Qed.

Lemma valid_rune_app r s : is_rune r → valid_string (r ++ s) = valid_string s.
Proof.
  intros Hr. pose proof (rune_width_app r s _ Hr) as H. unfold valid_string.
  pose proof (rune_width_bounds _ _ Hr). destruct r as [|c r]; cbn in *; [lia|].
  rewrite H. apply valid_from_skip. lia.
Qed.

(** Induction over the runes of a valid string. *)
Lemma valid_string_ind (P : bytes → Prop) :
  P [] → (∀ r s, is_rune r → valid_string s = true → P s → P (r ++ s)) →
  ∀ s, valid_string s = true → P s.
Proof.
  intros Hnil Hcons s. remember (length s) as n eqn:Hn. revert s Hn.
  induction n as [n IH] using lt_wf_ind. intros s -> Hs. destruct s as [|c s]; [done|].
  destruct (rune_width (c :: s)) as [w|] eqn:E.
  - pose proof (rune_width_is_rune _ _ E) as Hr. pose proof (rune_width_bounds _ _ E).
    rewrite <- (take_drop w (c :: s)) in Hs |- *. rewrite valid_rune_app in Hs by done.
    apply Hcons; [done|done|]. eapply IH; [|reflexivity|done]. rewrite length_drop. cbn. lia.
  - unfold valid_string in Hs. cbn [valid_from] in Hs. by rewrite E in Hs.
Qed.

Lemma valid_string_app s t :
  valid_string s = true → valid_string (s ++ t) = valid_string t.
Proof.
  revert s. apply valid_string_ind; [done|]. intros r s Hr _ IH.
  by rewrite <- app_assoc, valid_rune_app.
Qed.

Lemma in_range_spec lo hi c : in_range lo hi c = true ↔ (lo ≤ bv c ≤ hi)%Z.
Proof. unfold in_range. rewrite andb_true_iff, !Z.leb_le. done. Qed.

Lemma rune_start_true c : (bv c < 128 ∨ 191 < bv c)%Z → rune_start c = true.
Proof.
  intros H. unfold rune_start, is_cont. destruct (in_range _ _ c) eqn:E; [|done].
  apply in_range_spec in E. lia.
Qed.

Lemma rune_start_false c : (128 ≤ bv c ≤ 191)%Z → rune_start c = false.
Proof. intros H. unfold rune_start, is_cont. by rewrite (proj2 (in_range_spec _ _ _) H). Qed.

(** The shape of a rune: one start byte, then continuation bytes. *)
Lemma is_rune_shape r :
  is_rune r → ∃ c t, r = c :: t ∧ rune_start c = true ∧ Forall (λ d, rune_start d = false) t.
Proof.
  unfold is_rune. destruct r as [|a t]; [done|]. intros H. exists a, t. split; [done|].
  destruct t as [|b [|c [|d [|e t]]]]; cbn in H;
    repeat match type of H with context [if ?b then _ else _] => destruct b eqn:? end;
    simplify_eq; bool_inv; unfold is_cont in *;
    repeat match goal with E : (if ?b then _ else _) = true |- _ => destruct b eqn:? end;
    repeat match goal with E : in_range _ _ _ = true |- _ => apply in_range_spec in E end;
    (split; [apply rune_start_true; lia|]);
    rewrite ?Forall_cons; repeat split; try apply Forall_nil_2; apply rune_start_false; lia.
Qed.

(** ** Facts about decimal text *)

Lemma digits_value_from s a :
  foldl (λ acc c, acc * 10 + (bv c - 48))%Z a s = (a * 10 ^ Z.of_nat (length s) + digits_value s)%Z.
Proof.
  unfold digits_value. revert a. induction s as [|c s IH]; intros a; cbn [foldl length].
  - cbn. lia.
  - rewrite IH, (IH (0 * 10 + _)%Z), Nat2Z.inj_succ, Z.pow_succ_r by lia. lia.
Qed.

Lemma digits_value_cons c s :
  digits_value (c :: s) = ((bv c - 48) * 10 ^ Z.of_nat (length s) + digits_value s)%Z.
Proof. unfold digits_value at 1. cbn [foldl]. rewrite digits_value_from. lia. Qed.

Lemma bv_digit_char d : (0 ≤ d < 10)%Z → bv (digit_char d) = (48 + d)%Z.
Proof. intros. unfold digit_char. rewrite bv_bz, Z.mod_small; lia. Qed.

Lemma is_digit_char d : (0 ≤ d < 10)%Z → is_digit (digit_char d) = true.
Proof. intros H. apply in_range_spec. rewrite bv_digit_char; lia. Qed.

Lemma digits_spec fuel n acc :
  (0 ≤ n < 10 ^ Z.of_nat fuel)%Z → 0 < fuel →
  digits_value (digits fuel n acc) = (n * 10 ^ Z.of_nat (length acc) + digits_value acc)%Z.
Proof.
  revert n acc. induction fuel as [|f IH]; intros n acc Hn Hf; [lia|].
  cbn [digits]. pose proof (Z.div_mod n 10 ltac:(lia)) as Hdm.
  pose proof (Z.mod_pos_bound n 10 ltac:(lia)).
  assert (digits_value (digit_char (n `mod` 10) :: acc)
          = n `mod` 10 * 10 ^ Z.of_nat (length acc) + digits_value acc)%Z as Hacc.
  { rewrite digits_value_cons, bv_digit_char by lia. lia. }
  destruct (n <? 10)%Z eqn:E; bool_inv.
  - rewrite Hacc, Z.mod_small; lia.
  - rewrite Nat2Z.inj_succ, Z.pow_succ_r in Hn by lia.
    assert (f ≠ 0) by (intros ->; change (10 ^ Z.of_nat 0)%Z with 1%Z in Hn; lia).
    rewrite IH, Hacc; [|split; [apply Z.div_pos; lia|apply Z.div_lt_upper_bound; lia]|lia].
    cbn [length]. rewrite Nat2Z.inj_succ, Z.pow_succ_r by lia. nia.
Qed.

Lemma digits_all_digits fuel n acc :
  forallb is_digit acc = true → forallb is_digit (digits fuel n acc) = true.
Proof.
  revert n acc. induction fuel as [|f IH]; intros n acc H; cbn [digits]; [done|].
  assert (forallb is_digit (digit_char (n `mod` 10) :: acc) = true).
  { cbn. rewrite is_digit_char, H; [done|]. apply Z.mod_pos_bound. lia. }
  case_match; eauto.
Qed.

Lemma digits_nonempty fuel n acc : 0 < fuel ∨ acc ≠ [] → digits fuel n acc ≠ [].
Proof.
  revert n acc. induction fuel as [|f IH]; intros n acc H; cbn [digits]; [by destruct H; [lia|]|].
  case_match; [done|]. apply IH. by right.
Qed.

Lemma digits_value_format n : (0 ≤ n ≤ max_uint64)%Z → digits_value (format_uint n) = n.
Proof.
  intros H. unfold format_uint. rewrite digits_spec.
  - change (digits_value []) with 0%Z. cbn [length]. lia.
  - unfold max_uint64 in H. lia.
  - lia.
Qed.

(** [ParseUint] reads back what [FormatUint] wrote. *)
Lemma parse_format_uint n : (0 ≤ n ≤ max_uint64)%Z → parse_uint (format_uint n) = Some n.
Proof.
  intros H. unfold parse_uint.
  rewrite bool_decide_eq_false_2 by (apply digits_nonempty; lia).
  replace (forallb is_digit (format_uint n)) with true by (symmetry; by apply digits_all_digits).
  rewrite digits_value_format by done. cbn. by rewrite (proj2 (Z.leb_le _ _) (proj2 H)).
Qed.

Lemma format_uint_inj n m :
  (0 ≤ n ≤ max_uint64)%Z → (0 ≤ m ≤ max_uint64)%Z → format_uint n = format_uint m → n = m.
Proof. intros Hn Hm H. apply digits_value_format in Hn as <-. rewrite H. by apply digits_value_format. Qed.

Lemma format_int_inj n m :
  int64_ok n = true → int64_ok m = true → format_int n = format_int m → n = m.
Proof.
  unfold int64_ok, min_int64, max_int64, format_int. intros Hn Hm H. bool_inv.
  assert (Hminus : ∀ k l, format_uint k ≠ gs "-" ++ l).
  { intros k l E. pose proof (digits_all_digits 20 k [] eq_refl) as D.
    change (digits 20 k []) with (format_uint k) in D. rewrite E in D. done. }
  destruct (n <? 0)%Z eqn:En, (m <? 0)%Z eqn:Em; bool_inv.
  - apply app_inv_head in H. apply format_uint_inj in H; unfold max_uint64; lia.
  - by edestruct Hminus.
  - by edestruct Hminus.
  - apply format_uint_inj in H; unfold max_uint64; lia.
Qed.
