(* ===== verification/GoJson.v ===== *)
(** * Go's JSON, as the saved entry uses it

    [encoding/json]: decoding a raw message into a scalar with [UseNumber],
    and the size of a marshalled map of raw messages (the compacting scanner
    with HTML escaping). A nil and an empty message are not told apart. *)
From S2P Require Import Prelude GoText.

Definition quote : byte := bz 34.
Definition backslash : byte := bz 92.

Definition is_json_space (c : byte) : bool := (bv c =? 32)%Z || (bv c =? 9)%Z || (bv c =? 13)%Z || (bv c =? 10)%Z.
Fixpoint skip_space (s : bytes) : bytes :=
  match s with
  | c :: r => if is_json_space c then skip_space r else s
  | [] => []
  end.

Definition is_hex (c : byte) : bool := is_digit c || in_range 97 102 c || in_range 65 70 c.
Definition hex_value (c : byte) : Z :=
  if is_digit c then bv c - 48 else if in_range 97 102 c then bv c - 87 else bv c - 55.
Definition hex4 (a b c d : byte) : Z := (((hex_value a * 16 + hex_value b) * 16 + hex_value c) * 16 + hex_value d)%Z.

(** The escapes other than [\u]. *)
Definition simple_escapes : list (byte * byte) :=
  [("b"%char, bz 8); ("f"%char, bz 12); ("n"%char, bz 10); ("r"%char, bz 13); ("t"%char, bz 9);
   (backslash, backslash); ("/"%char, "/"%char); (quote, quote)].
Definition simple_escape (c : byte) : option byte :=
  snd <$> find (λ p, p.1 =?b c) simple_escapes.

(** ** Decoding a scalar *)

(** What follows the opening quote: the body of the literal, and the rest. *)
Fixpoint scan_string (s : bytes) : option (bytes * bytes) :=
  match s with
  | [] => None
  | c :: r =>
    if c =?b quote then Some ([], r)
    else if c =?b backslash then
      match r with
      | e :: r1 =>
        match simple_escape e with
        | Some _ => '(body, rest) ← scan_string r1; Some (c :: e :: body, rest)
        | None =>
          if e =?b "u"%char then
            match r1 with
            | h1 :: h2 :: h3 :: h4 :: r2 =>
              if is_hex h1 && is_hex h2 && is_hex h3 && is_hex h4
              then '(body, rest) ← scan_string r2; Some (c :: e :: h1 :: h2 :: h3 :: h4 :: body, rest)
              else None
            | _ => None
            end
          else None
        end
      | [] => None
      end
    else if (bv c <? 32)%Z then None
    else '(body, rest) ← scan_string r; Some (c :: body, rest)
  end.

(** [utf8.AppendRune] for a code point that is not a surrogate. *)
Definition encode_rune (z : Z) : bytes :=
  if (z <? 128)%Z then [bz z]
  else if (z <? 2048)%Z then [bz (192 + z / 64); bz (128 + z mod 64)]
  else if (z <? 65536)%Z then [bz (224 + z / 4096); bz (128 + (z / 64) mod 64); bz (128 + z mod 64)]
  else [bz (240 + z / 262144); bz (128 + (z / 4096) mod 64); bz (128 + (z / 64) mod 64); bz (128 + z mod 64)].
Definition replacement_rune : bytes := encode_rune 65533.

Definition is_surrogate (z : Z) : bool := (55296 <=? z)%Z && (z <? 57344)%Z.
(** [utf16.DecodeRune]; [None] is the replacement character. *)
Definition decode_surrogates (a b : Z) : option Z :=
  if (55296 <=? a)%Z && (a <? 56320)%Z && (56320 <=? b)%Z && (b <? 57344)%Z
  then Some ((a - 55296) * 1024 + (b - 56320) + 65536)%Z else None.

(** [unquote] of a scanned body; [skip] bytes of a rune are still to copy. *)
Fixpoint unquote (skip : nat) (s : bytes) : bytes :=
  match s with
  | [] => []
  | c :: r =>
    match skip with
    | S k => c :: unquote k r
    | O =>
      if c =?b backslash then
        match r with
        | e :: r1 =>
          match simple_escape e with
          | Some b => b :: unquote 0 r1
          | None =>
            match r1 with
            | h1 :: h2 :: h3 :: h4 :: r2 =>
              let z := hex4 h1 h2 h3 h4 in
              if is_surrogate z then
                match r2 with
                | b :: u :: k1 :: k2 :: k3 :: k4 :: r3 =>
                  if (b =?b backslash) && (u =?b "u"%char) then
                    match decode_surrogates z (hex4 k1 k2 k3 k4) with
                    | Some d => encode_rune d ++ unquote 0 r3
                    | None => replacement_rune ++ unquote 0 r2
                    end
                  else replacement_rune ++ unquote 0 r2
                | _ => replacement_rune ++ unquote 0 r2
                end
              else encode_rune z ++ unquote 0 r2
            | _ => []
            end
          end
        | [] => []
        end
      else if (bv c <? 128)%Z then c :: unquote 0 r
      else match rune_width s with
      | Some n => c :: unquote (n - 1) r
      | None => replacement_rune ++ unquote 0 r
      end
    end
  end.

Fixpoint span_digits (s : bytes) : bytes * bytes :=
  match s with
  | c :: r => if is_digit c then let '(ds, rest) := span_digits r in (c :: ds, rest) else ([], s)
  | [] => ([], [])
  end.
Definition some_span (s : bytes) : option (bytes * bytes) :=
  let '(ds, rest) := span_digits s in if ds =?b [] then None else Some (ds, rest).

Definition scan_integer (s : bytes) : option (bytes * bytes) :=
  match s with
  | c :: r => if c =?b "0"%char then Some ([c], r) else some_span s
  | [] => None
  end.
Definition scan_fraction (s : bytes) : option (bytes * bytes) :=
  match s with
  | c :: r => if c =?b "."%char then '(ds, rest) ← some_span r; Some (c :: ds, rest) else Some ([], s)
  | [] => Some ([], s)
  end.
Definition scan_sign (accepted s : bytes) : bytes * bytes :=
  match s with
  | c :: r => if existsb (λ d, d =?b c) accepted then ([c], r) else ([], s)
  | [] => ([], s)
  end.
Definition scan_exponent (s : bytes) : option (bytes * bytes) :=
  match s with
  | c :: r =>
    if (c =?b "e"%char) || (c =?b "E"%char) then
      let '(sign, r) := scan_sign (gs "+-") r in '(ds, rest) ← some_span r; Some (c :: sign ++ ds, rest)
    else Some ([], s)
  | [] => Some ([], s)
  end.
Definition scan_number (s : bytes) : option (bytes * bytes) :=
  let '(sign, s) := scan_sign (gs "-") s in
  '(i, s) ← scan_integer s;
  '(f, s) ← scan_fraction s;
  '(e, s) ← scan_exponent s;
  Some (sign ++ i ++ f ++ e, s).

Inductive json_scalar : Type := JString (text : bytes) | JNumber (text : bytes) | JBool (b : bool).

(** The first value of the message, as [any]; what follows it is not read.
    [None]: no value, or one that is not a string, number or boolean. *)
Definition decode_scalar (raw : bytes) : option json_scalar :=
  match skip_space raw with
  | [] => None
  | (c :: r) as s =>
    if c =?b quote then '(body, _) ← scan_string r; Some (JString (unquote 0 body))
    else if (c =?b "-"%char) || is_digit c then '(text, _) ← scan_number s; Some (JNumber text)
    else if is_prefix (gs "true") s then Some (JBool true)
    else if is_prefix (gs "false") s then Some (JBool false)
    else None
  end.

(** ** The size of a marshalled map *)

(** The scanner's states, and its stack. *)
Inductive scan_state : Type :=
  | BeginValue | BeginValueOrEmpty | BeginStringOrEmpty | BeginString | EndValue | EndTop
  | InString | InStringEsc | InStringHex (more : nat)
  | Neg | Digits1 | Digits0 | Dot | Dot0 | ExpE | ExpSign | Exp0 | Literal (rest : bytes).
Inductive parse_state : Type := ParseObjectKey | ParseObjectValue | ParseArrayValue.
Definition maxNestingDepth : nat := 10000.

(** The state after a byte, and whether the byte is dropped; [None]: an error. *)
Abbreviation scanned := (option (scan_state * list parse_state * bool)).
Definition push (p : parse_state) (st : scan_state) (stack : list parse_state) : scanned :=
  if maxNestingDepth <? S (length stack) then None else Some (st, p :: stack, false).
Definition pop (stack : list parse_state) : scanned :=
  match stack with
  | _ :: (_ :: _) as rest => Some (EndValue, tail stack, false)
  | _ => Some (EndTop, [], false)
  end.

Definition step_begin_value (stack : list parse_state) (c : byte) : scanned :=
  if is_json_space c then Some (BeginValue, stack, true)
  else if c =?b "{"%char then push ParseObjectKey BeginStringOrEmpty stack
  else if c =?b "["%char then push ParseArrayValue BeginValueOrEmpty stack
  else if c =?b quote then Some (InString, stack, false)
  else if c =?b "-"%char then Some (Neg, stack, false)
  else if c =?b "0"%char then Some (Digits0, stack, false)
  else if c =?b "t"%char then Some (Literal (gs "rue"), stack, false)
  else if c =?b "f"%char then Some (Literal (gs "alse"), stack, false)
  else if c =?b "n"%char then Some (Literal (gs "ull"), stack, false)
  else if is_digit c then Some (Digits1, stack, false) else None.

Definition step_end_value (stack : list parse_state) (c : byte) : scanned :=
  match stack with
  | [] => if is_json_space c then Some (EndTop, [], true) else None
  | top :: below =>
    if is_json_space c then Some (EndValue, stack, true)
    else match top with
    | ParseObjectKey => if c =?b ":"%char then Some (BeginValue, ParseObjectValue :: below, false) else None
    | ParseObjectValue =>
      if c =?b ","%char then Some (BeginString, ParseObjectKey :: below, false)
      else if c =?b "}"%char then pop stack else None
    | ParseArrayValue =>
      if c =?b ","%char then Some (BeginValue, stack, false) else if c =?b "]"%char then pop stack else None
    end
  end.

Definition step_begin_string (stack : list parse_state) (c : byte) : scanned :=
  if is_json_space c then Some (BeginString, stack, true)
  else if c =?b quote then Some (InString, stack, false) else None.
Definition to_exponent (c : byte) : bool := (c =?b "e"%char) || (c =?b "E"%char).

Definition scan_step (st : scan_state) (stack : list parse_state) (c : byte) : scanned :=
  match st with
  | BeginValue => step_begin_value stack c
  | BeginValueOrEmpty =>
    if is_json_space c then Some (st, stack, true)
    else if c =?b "]"%char then step_end_value stack c else step_begin_value stack c
  | BeginStringOrEmpty =>
    if is_json_space c then Some (st, stack, true)
    else if c =?b "}"%char then step_end_value (ParseObjectValue :: tail stack) c else step_begin_string stack c
  | BeginString => step_begin_string stack c
  | EndValue => step_end_value stack c
  | EndTop => if is_json_space c then Some (EndTop, stack, true) else None
  | InString =>
    if c =?b quote then Some (EndValue, stack, false)
    else if c =?b backslash then Some (InStringEsc, stack, false)
    else if (bv c <? 32)%Z then None else Some (InString, stack, false)
  | InStringEsc =>
    match simple_escape c with
    | Some _ => Some (InString, stack, false)
    | None => if c =?b "u"%char then Some (InStringHex 3, stack, false) else None
    end
  | InStringHex more =>
    if negb (is_hex c) then None
    else Some (match more with O => InString | S k => InStringHex k end, stack, false)
  | Neg => if c =?b "0"%char then Some (Digits0, stack, false) else if is_digit c then Some (Digits1, stack, false) else None
  | Digits1 =>
    if is_digit c then Some (Digits1, stack, false)
    else if c =?b "."%char then Some (Dot, stack, false)
    else if to_exponent c then Some (ExpE, stack, false) else step_end_value stack c
  | Digits0 =>
    if c =?b "."%char then Some (Dot, stack, false)
    else if to_exponent c then Some (ExpE, stack, false) else step_end_value stack c
  | Dot => if is_digit c then Some (Dot0, stack, false) else None
  | Dot0 =>
    if is_digit c then Some (Dot0, stack, false)
    else if to_exponent c then Some (ExpE, stack, false) else step_end_value stack c
  | ExpE => if existsb (λ d, d =?b c) (gs "+-") then Some (ExpSign, stack, false)
            else if is_digit c then Some (Exp0, stack, false) else None
  | ExpSign => if is_digit c then Some (Exp0, stack, false) else None
  | Exp0 => if is_digit c then Some (Exp0, stack, false) else step_end_value stack c
  | Literal rest =>
    match rest with
    | [d] => if c =?b d then Some (EndValue, stack, false) else None
    | d :: rest => if c =?b d then Some (Literal rest, stack, false) else None
    | [] => None
    end
  end.

(** [scan.eof]: the value is complete, if need be after one more space. *)
Definition scan_eof (st : scan_state) (stack : list parse_state) : bool :=
  match st with
  | EndTop => true
  | _ => match scan_step st stack " "%char with Some (EndTop, _, _) => true | _ => false end
  end.

Definition html_escaped (c : byte) : bool := (c =?b "<"%char) || (c =?b ">"%char) || (c =?b "&"%char).
(** U+2028 and U+2029. *)
Definition line_separator (s : bytes) : bool := is_prefix [bz 226; bz 128; bz 168] s || is_prefix [bz 226; bz 128; bz 169] s.

(** The bytes [Compact] writes for a message, [skip] of them already written. *)
Fixpoint compact_from (st : scan_state) (stack : list parse_state) (skip : nat) (s : bytes) : option nat :=
  match s with
  | [] => if scan_eof st stack then Some 0 else None
  | c :: r =>
    '(st, stack, dropped) ← scan_step st stack c;
    let '(written, skip) :=
      match skip with
      | S k => (0, k)
      | O => if html_escaped c then (6, 0) else if line_separator s then (6, 2)
             else (if dropped : bool then 0 else 1, 0)
      end in
    Nat.add written <$> compact_from st stack skip r
  end.
Definition compact_size (raw : bytes) : option nat := compact_from BeginValue [] 0 raw.

(** The bytes of a key between its quotes. *)
Fixpoint string_size (skip : nat) (s : bytes) : nat :=
  match s with
  | [] => 0
  | c :: r =>
    match skip with
    | S k => string_size k r
    | O =>
      if (bv c <? 128)%Z then
        (if (c =?b quote) || (c =?b backslash) || existsb (λ z, (bv c =? z)%Z) [8; 12; 10; 13; 9]%Z then 2
         else if (bv c <? 32)%Z || html_escaped c then 6 else 1) + string_size 0 r
      else if line_separator s then 6 + string_size 2 r
      else match rune_width s with
      | Some n => n + string_size (n - 1) r
      | None => 6 + string_size 0 r
      end
    end
  end.

(** [len(json.Marshal(values))]; [None] when a message is not valid JSON. *)
Fixpoint members_size (members : list (bytes * bytes)) : option nat :=
  match members with
  | [] => Some 0
  | (name, raw) :: members =>
    size ← compact_size raw;
    rest ← members_size members;
    Some (2 + string_size 0 name + 1 + size + 1 + rest)
  end.
(** Every member is counted with a comma: one of them, or the one missing, is the second brace. *)
Definition marshal_size (values : gmap bytes bytes) : option nat :=
  if decide (values = ∅) then Some 2 else S <$> members_size (map_to_list values).

(** ** Samples *)

Example decode_examples :
  decode_scalar (gs " -12.5e3x") = Some (JNumber (gs "-12.5e3"))
  ∧ decode_scalar (gs "01") = Some (JNumber (gs "0"))
  ∧ decode_scalar (gs "1.") = None
  ∧ decode_scalar (gs "true") = Some (JBool true)
  ∧ decode_scalar (gs "null") = None ∧ decode_scalar (gs "[1]") = None
  ∧ decode_scalar ([quote] ++ gs "a\n\u00e9\ud83d\ude00\ud83dx" ++ [quote; bz 255])
    = Some (JString (gs "a" ++ [bz 10; bz 195; bz 169; bz 240; bz 159; bz 152; bz 128; bz 239; bz 191; bz 189] ++ gs "x"))
  ∧ decode_scalar ([quote; bz 255; bz 10; quote]) = None
  ∧ decode_scalar ([quote; bz 255; quote]) = Some (JString [bz 239; bz 191; bz 189]).
Proof. split_and!; vm_compute; reflexivity. Qed.

Example size_examples :
  compact_size (gs " [1 , {} , [ ] ] ") = Some 9
  ∧ compact_size ([quote] ++ gs "<a>" ++ [quote]) = Some 15
  ∧ compact_size ([quote; bz 226; bz 128; bz 168; quote]) = Some 8
  ∧ compact_size (gs "{") = None ∧ compact_size (gs "1 2") = None ∧ compact_size [] = None
  ∧ compact_size (gs "{" ++ [quote] ++ gs "a" ++ [quote] ++ gs " : -0.5e+1}") = Some 13
  ∧ marshal_size {[ gs "a" := gs "1"; gs "b" := gs "true" ]} = Some 16.
Proof. split_and!; vm_compute; reflexivity. Qed.
