(* ===== verification/Sha256.v ===== *)
(** * SHA-256 as [crypto/sha256] computes it

    The request digests and query hashes are hexadecimal SHA-256 sums; the
    function is defined here so that they evaluate. *)
From S2P Require Import Prelude GoText.

Definition w32 (z : Z) : Z := Z.land z (2 ^ 32 - 1).
Definition add32 (a b : Z) : Z := w32 (a + b).
Definition rotr (n x : Z) : Z := w32 (Z.lor (Z.shiftr x n) (Z.shiftl x (32 - n))).

(** FIPS 180-4 takes the constants from the first sixty-four primes: the
    leading 32 fractional bits of their cube roots, and of the square roots of
    the first eight. *)
Definition is_prime (n : nat) : bool :=
  (2 <=? n) && forallb (λ d, negb (n `mod` d =? 0)%nat) (seq 2 (n - 2)).
Definition primes : list Z := Z.of_nat <$> filter (λ n, is_prime n = true) (seq 2 310).

(** The integer cube root, one binary digit at a time from the top. *)
Fixpoint cube_root (bits : nat) (acc n : Z) : Z :=
  match bits with
  | O => acc
  | S b => let c := (acc + 2 ^ Z.of_nat b)%Z in cube_root b (if (c ^ 3 <=? n)%Z then c else acc) n
  end.

Definition round_constants : list Z :=
  Eval vm_compute in (λ p, w32 (cube_root 36 0 (p * 2 ^ 96))) <$> primes.

(** The eight chaining words. *)
Record sha_state : Type := ShaState { sA : Z; sB : Z; sC : Z; sD : Z; sE : Z; sF : Z; sG : Z; sH : Z }.

Definition initial_words : list Z :=
  Eval vm_compute in (λ p, w32 (Z.sqrt (p * 2 ^ 64))) <$> take 8 primes.

Definition sha_init : sha_state :=
  let w i := nth i initial_words 0%Z in ShaState (w 0) (w 1) (w 2) (w 3) (w 4) (w 5) (w 6) (w 7).

(** The message schedule; [win] holds the last sixteen words, oldest first. *)
Fixpoint schedule (n : nat) (win : list Z) : list Z :=
  match n with
  | O => []
  | S n =>
    let w i := nth i win 0%Z in
    let s0 := Z.lxor (Z.lxor (rotr 7 (w 1)) (rotr 18 (w 1))) (Z.shiftr (w 1) 3) in
    let s1 := Z.lxor (Z.lxor (rotr 17 (w 14)) (rotr 19 (w 14))) (Z.shiftr (w 14) 10) in
    let next := w32 (s1 + w 9%nat + s0 + w 0%nat) in
    w 0 :: schedule n (tail win ++ [next])
  end.

Definition sha_round (st : sha_state) (kw : Z * Z) : sha_state :=
  let '(k, w) := kw in
  let '(ShaState a b c d e f g h) := st in
  let e1 := Z.lxor (Z.lxor (rotr 6 e) (rotr 11 e)) (rotr 25 e) in
  let ch := Z.lxor (Z.land e f) (Z.land (Z.lxor e (2 ^ 32 - 1)) g) in
  let t1 := w32 (h + e1 + ch + k + w) in
  let e0 := Z.lxor (Z.lxor (rotr 2 a) (rotr 13 a)) (rotr 22 a) in
  let maj := Z.lxor (Z.lxor (Z.land a b) (Z.land a c)) (Z.land b c) in
  let t2 := w32 (e0 + maj) in
  ShaState (add32 t1 t2) a b c (add32 d t1) e f g.

Definition sha_block (st : sha_state) (words : list Z) : sha_state :=
  let r := foldl sha_round st (combine round_constants (schedule 64 words)) in
  ShaState (add32 (sA st) (sA r)) (add32 (sB st) (sB r)) (add32 (sC st) (sC r)) (add32 (sD st) (sD r))
           (add32 (sE st) (sE r)) (add32 (sF st) (sF r)) (add32 (sG st) (sG r)) (add32 (sH st) (sH r)).

(** Big-endian bytes of the low [n] bytes of [z]. *)
Definition be_bytes (n : nat) (z : Z) : bytes :=
  (λ i, bz (Z.shiftr z (8 * Z.of_nat i))) <$> reverse (seq 0 n).

Definition sha_pad (msg : bytes) : bytes :=
  msg ++ [bz 128] ++ repeat nul ((119 - length msg `mod` 64) `mod` 64)
      ++ be_bytes 8 (8 * Z.of_nat (length msg)).

Definition be_word (s : bytes) : Z := foldl (λ acc c, acc * 256 + bv c)%Z 0%Z s.

Fixpoint chunks {A} (n fuel : nat) (s : list A) : list (list A) :=
  match fuel with
  | O => []
  | S f => match s with [] => [] | _ => take n s :: chunks n f (drop n s) end
  end.

Definition sha_state_of (msg : bytes) : sha_state :=
  let padded := sha_pad msg in
  foldl (λ st blk, sha_block st (be_word <$> chunks 4 16 blk)) sha_init
        (chunks 64 (length padded) padded).

(** [sha256.Sum256]. *)
Definition sha256 (msg : bytes) : bytes :=
  let st := sha_state_of msg in
  concat (be_bytes 4 <$> [sA st; sB st; sC st; sD st; sE st; sF st; sG st; sH st]).

(** [fmt.Sprintf("%x", b)]. *)
Definition hex_digit (d : Z) : byte := if (d <? 10)%Z then bz (48 + d) else bz (87 + d).
Definition hex_of (s : bytes) : bytes :=
  concat ((λ c, [hex_digit (bv c / 16); hex_digit (bv c `mod` 16)]) <$> s).

Definition sha256_hex (msg : bytes) : bytes := hex_of (sha256 msg).

(** The FIPS 180-2 test vectors: the empty message, one block, two blocks. *)
Example sha256_empty :
  sha256_hex [] = gs "e3b0c44298fc1c149afbf4c8996fb92427ae41e4649b934ca495991b7852b855".
Proof. vm_compute. reflexivity. Qed.
Example sha256_abc :
  sha256_hex (gs "abc") = gs "ba7816bf8f01cfea414140de5dae2223b00361a396177a9cb410ff61f20015ad".
Proof. vm_compute. reflexivity. Qed.
Example sha256_two_blocks :
  sha256_hex (gs "abcdbcdecdefdefgefghfghighijhijkijkljklmklmnlmnomnopnopq")
  = gs "248d6a61d20638b8e5c026930c3e6039a33ce45964ff2167f6ecedd419db06c1".
Proof. vm_compute. reflexivity. Qed.

(** ** The shape of a digest *)

Definition is_lower_hex (c : byte) : bool := in_range 48 57 c || in_range 97 102 c.

Lemma hex_digit_lower d : (0 ≤ d < 16)%Z → is_lower_hex (hex_digit d) = true.
Proof.
  intros H. unfold is_lower_hex, hex_digit. apply orb_true_iff. destruct (d <? 10)%Z eqn:E; bool_inv.
  - left. apply in_range_spec. rewrite bv_bz, Z.mod_small; lia.
  - right. apply in_range_spec. rewrite bv_bz, Z.mod_small; lia.
Qed.

Lemma hex_of_lower s : forallb is_lower_hex (hex_of s) = true.
Proof.
  induction s as [|c s IH]; [done|]. unfold hex_of. cbn. pose proof (bv_range c).
  rewrite !hex_digit_lower; [exact IH|apply Z.mod_pos_bound; lia|].
  split; [apply Z.div_pos; lia|apply Z.div_lt_upper_bound; lia].
Qed.

Lemma length_hex_of s : length (hex_of s) = 2 * length s.
Proof. induction s as [|c s IH]; [done|]. cbn. unfold hex_of in IH. lia. Qed.

Lemma length_sha256 msg : length (sha256 msg) = 32.
Proof. reflexivity. Qed.

(** Opaque to unification: digests are compared, never unfolded. *)
Lemma length_sha256_hex msg : length (sha256_hex msg) = 64.
Proof. unfold sha256_hex. by rewrite length_hex_of, length_sha256. Qed.

Lemma sha256_hex_lower msg : forallb is_lower_hex (sha256_hex msg) = true.
Proof. apply hex_of_lower. Qed.
