(* ===== verification/ClaimDigest.v ===== *)
(** * Request digests of the execution claims

    [internal/service/query_claim_digest.go]: the v1 length-prefixed encoding
    of a resolved request and its SHA-256 fingerprint. A digest decides
    whether two requests under one client key are the same attempt, so the
    encoding must not identify different requests. *)
From S2P Require Import Prelude GoText Sha256.

(** [binary.PutUvarint]: seven bits per byte, low group first. *)
Fixpoint put_uvarint (fuel : nat) (v : Z) : bytes :=
  match fuel with
  | O => []
  | S f => if (v <? 128)%Z then [bz v] else bz (Z.lor v 128) :: put_uvarint f (Z.shiftr v 7)
  end.

(** [binary.MaxVarintLen64]. *)
Definition uvarint (v : Z) : bytes := put_uvarint 10 v.

Definition claimDigestTagExecute : bytes := gs "execute".
Definition claimDigestTagSavedStmt : bytes := gs "saved-statement".
Definition claimDigestTagNavigation : bytes := gs "related-records".

Definition claimDigestKindNull : byte := "n"%char.
Definition claimDigestKindString : byte := "s"%char.
Definition claimDigestKindDecimal : byte := "d"%char.
Definition claimDigestKindInteger : byte := "i"%char.
Definition claimDigestKindBoolean : byte := "b"%char.

Record ClaimDigestNamedValue : Type := NamedValue {
  nv_Name : bytes;
  nv_Kind : byte;
  nv_Text : bytes;
}.

#[export] Instance named_value_eq_dec : EqDecision ClaimDigestNamedValue.
Proof. solve_decision. Defined.

Definition ClaimDigestNull : ClaimDigestNamedValue := NamedValue [] claimDigestKindNull [].
Definition ClaimDigestString (v : bytes) : ClaimDigestNamedValue :=
  NamedValue [] claimDigestKindString v.
Definition ClaimDigestDecimal (v : bytes) : ClaimDigestNamedValue :=
  NamedValue [] claimDigestKindDecimal v.
Definition ClaimDigestInteger (v : Z) : ClaimDigestNamedValue :=
  NamedValue [] claimDigestKindInteger (format_int v).
Definition ClaimDigestBoolean (v : bool) : ClaimDigestNamedValue :=
  NamedValue [] claimDigestKindBoolean (if v then gs "1" else gs "0").

(** [int] fields are [Z] in the int64 range, [uint64] fields [Z] in the uint64 range. *)
Record OrdinaryExecuteDigestInput : Type := OrdinaryInput {
  oi_Database : bytes;
  oi_Schema : bytes;
  oi_Statement : bytes;
  oi_Page : Z;
  oi_PageSize : Z;
  oi_MaxRows : Z;
}.

Record SavedStatementDigestInput : Type := SavedInput {
  si_Database : bytes;
  si_Schema : bytes;
  si_StatementID : Z;
  si_Values : list ClaimDigestNamedValue;
  si_Page : Z;
  si_PageSize : Z;
  si_MaxRows : Z;
}.

Record RelatedRecordsDigestInput : Type := RelatedInput {
  ri_Database : bytes;
  ri_Schema : bytes;
  ri_SourceSchema : bytes;
  ri_SourceObject : bytes;
  ri_SourceColumns : list bytes;
  ri_ForeignKey : bytes;
  ri_LocalValues : list bytes;
  ri_Page : Z;
  ri_PageSize : Z;
  ri_MaxRows : Z;
}.

(** The writer's methods append to its buffer. *)
Definition w_str (buf s : bytes) : bytes := (buf ++ uvarint (Z.of_nat (length s))) ++ s.
Definition w_num (buf : bytes) (v : Z) : bytes := buf ++ uvarint (to_uint64 v).
Definition w_list (buf : bytes) (n : nat) : bytes := w_num buf (Z.of_nat n).
Definition w_value (buf : bytes) (v : ClaimDigestNamedValue) : bytes :=
  let buf := buf ++ [nv_Kind v] in
  if nv_Kind v =?b claimDigestKindNull then buf else w_str buf (nv_Text v).
Definition w_sum (buf : bytes) : bytes := sha256_hex buf.

Definition ordinary_stream (r : OrdinaryExecuteDigestInput) : bytes :=
  let w := w_str [] claimDigestTagExecute in
  let w := w_str w (oi_Database r) in
  let w := w_str w (oi_Schema r) in
  let w := w_str w (oi_Statement r) in
  let w := w_num w (oi_Page r) in
  let w := w_num w (oi_PageSize r) in
  w_num w (oi_MaxRows r).

Definition DigestOrdinaryExecute (r : OrdinaryExecuteDigestInput) : bytes := w_sum (ordinary_stream r).

(** [sort.SliceStable] by name. *)
Definition sort_values (vals : list ClaimDigestNamedValue) : list ClaimDigestNamedValue :=
  sort_slice (less_by nv_Name bytes_less) vals.

Definition saved_stream (r : SavedStatementDigestInput) : bytes :=
  let w := w_str [] claimDigestTagSavedStmt in
  let w := w_str w (si_Database r) in
  let w := w_str w (si_Schema r) in
  let w := w_num w (si_StatementID r) in
  let vals := sort_values (si_Values r) in
  let w := w_list w (length vals) in
  let w := foldl (λ w v, w_value (w_str w (nv_Name v)) v) w vals in
  let w := w_num w (si_Page r) in
  let w := w_num w (si_PageSize r) in
  w_num w (si_MaxRows r).

Definition DigestSavedStatement (r : SavedStatementDigestInput) : bytes := w_sum (saved_stream r).

Definition related_stream (r : RelatedRecordsDigestInput) : bytes :=
  let w := w_str [] claimDigestTagNavigation in
  let w := w_str w (ri_Database r) in
  let w := w_str w (ri_Schema r) in
  let w := w_str w (ri_SourceSchema r) in
  let w := w_str w (ri_SourceObject r) in
  let w := w_list w (length (ri_SourceColumns r)) in
  let w := foldl w_str w (ri_SourceColumns r) in
  let w := w_str w (ri_ForeignKey r) in
  let w := w_list w (length (ri_LocalValues r)) in
  let w := foldl w_str w (ri_LocalValues r) in
  let w := w_num w (ri_Page r) in
  let w := w_num w (ri_PageSize r) in
  w_num w (ri_MaxRows r).

Definition DigestRelatedRecords (r : RelatedRecordsDigestInput) : bytes := w_sum (related_stream r).

(** The three keyed entries share one claim table. *)
Inductive claim_request : Type :=
  | ReqOrdinary (r : OrdinaryExecuteDigestInput)
  | ReqSaved (r : SavedStatementDigestInput)
  | ReqRelated (r : RelatedRecordsDigestInput).

Definition request_stream (q : claim_request) : bytes :=
  match q with
  | ReqOrdinary r => ordinary_stream r
  | ReqSaved r => saved_stream r
  | ReqRelated r => related_stream r
  end.

Definition request_digest (q : claim_request) : bytes := w_sum (request_stream q).

(** ** Framing

    Every element of the stream is self-delimiting. [Framed dom enc] says so
    for one encoder: from [enc a ++ rest] both [a] and [rest] are determined. *)
Class Framed {A} (dom : A → Prop) (enc : A → bytes) : Prop :=
  frame_inj a b x y : dom a → dom b → enc a ++ x = enc b ++ y → a = b ∧ x = y.

Definition num_ok (v : Z) : Prop := (0 ≤ v ≤ max_uint64)%Z.
(** The length of a Go string is an [int]. *)
Definition str_ok (s : bytes) : Prop := (Z.of_nat (length s) ≤ max_int64)%Z.
Definition list_ok {A} (dom : A → Prop) (l : list A) : Prop :=
  (Z.of_nat (length l) ≤ max_int64)%Z ∧ Forall dom l.

Definition enc_num (v : Z) : bytes := uvarint (to_uint64 v).
Definition enc_str (s : bytes) : bytes := uvarint (Z.of_nat (length s)) ++ s.
Definition enc_value (v : ClaimDigestNamedValue) : bytes :=
  enc_str (nv_Name v) ++ nv_Kind v :: (if nv_Kind v =?b claimDigestKindNull then [] else enc_str (nv_Text v)).
Definition enc_list {A} (enc : A → bytes) (l : list A) : bytes :=
  enc_num (Z.of_nat (length l)) ++ concat (enc <$> l).

Lemma lor_128 v : (0 ≤ v)%Z → (Z.lor v 128 `mod` 256 = 128 + v `mod` 128)%Z.
Proof.
  intros Hv. change 256%Z with (2 ^ 8)%Z. change 128%Z with (2 ^ 7)%Z.
  rewrite <- !Z.land_ones by lia.
  assert (Z.land (2 ^ 7) (Z.land v (Z.ones 7)) = 0)%Z as Hdisj.
  { apply Z.bits_inj'. intros n Hn. rewrite !Z.land_spec, Z.bits_0, Z.pow2_bits_eqb by lia.
    destruct (7 =? n)%Z eqn:E; [|done]. apply Z.eqb_eq in E as <-.
    by rewrite Z.ones_spec_high, andb_false_r by lia. }
  rewrite (Z.add_nocarry_lxor _ _ Hdisj), Z.lxor_lor by done.
  apply Z.bits_inj'. intros n Hn. rewrite Z.land_spec, !Z.lor_spec, Z.land_spec, Z.pow2_bits_eqb by lia.
  rewrite !Z.testbit_ones_nonneg by lia.
  destruct (7 =? n)%Z eqn:E7, (n <? 8)%Z eqn:E8, (n <? 7)%Z eqn:E7'; bool_inv; try lia;
    destruct (Z.testbit v n); done.
Qed.

Lemma put_uvarint_frame fuel v v' x y :
  (0 ≤ v < 128 ^ Z.of_nat fuel)%Z → (0 ≤ v' < 128 ^ Z.of_nat fuel)%Z →
  put_uvarint fuel v ++ x = put_uvarint fuel v' ++ y → v = v' ∧ x = y.
Proof.
  revert v v'. induction fuel as [|f IH]; intros v v' Hv Hv' H.
  { change (128 ^ Z.of_nat 0)%Z with 1%Z in *. cbn in H. split; [lia|done]. }
  rewrite Nat2Z.inj_succ, Z.pow_succ_r in Hv, Hv' by lia.
  assert (Hshift : ∀ w, (0 ≤ w < 128 * 128 ^ Z.of_nat f → 0 ≤ Z.shiftr w 7 < 128 ^ Z.of_nat f)%Z).
  { intros w Hw. rewrite Z.shiftr_div_pow2 by lia. change (2 ^ 7)%Z with 128%Z.
    split; [apply Z.div_pos; lia|apply Z.div_lt_upper_bound; lia]. }
  cbn [put_uvarint] in H.
  destruct (v <? 128)%Z eqn:E, (v' <? 128)%Z eqn:E'; bool_inv;
    cbn [app] in H; injection H as Hhd Htl; apply (f_equal bv) in Hhd; rewrite !bv_bz in Hhd.
  - rewrite !Z.mod_small in Hhd by lia. done.
  - rewrite Z.mod_small, lor_128 in Hhd by lia. pose proof (Z.mod_pos_bound v' 128). lia.
  - rewrite (Z.mod_small v'), lor_128 in Hhd by lia. pose proof (Z.mod_pos_bound v 128). lia.
  - rewrite !lor_128 in Hhd by lia.
    apply IH in Htl as [Heq ->]; [|by apply Hshift..]. split; [|done].
    rewrite !Z.shiftr_div_pow2 in Heq by lia. change (2 ^ 7)%Z with 128%Z in Heq.
    pose proof (Z.div_mod v 128). pose proof (Z.div_mod v' 128). lia.
Qed.

#[export] Instance framed_uvarint : Framed num_ok uvarint.
Proof.
  intros v v' x y Hv Hv'. unfold num_ok, max_uint64 in *.
  apply put_uvarint_frame; change (128 ^ Z.of_nat 10)%Z with (2 ^ 70)%Z; lia.
Qed.

#[export] Instance framed_num : Framed num_ok enc_num.
Proof.
  intros v v' x y Hv Hv'. unfold enc_num, to_uint64. unfold num_ok, max_uint64 in *.
  rewrite !Z.mod_small by lia. by apply frame_inj.
Qed.

#[export] Instance framed_str : Framed str_ok enc_str.
Proof.
  intros s t x y Hs Ht. unfold enc_str. rewrite <- !app_assoc. intros H.
  unfold str_ok, max_int64 in *.
  apply (frame_inj (dom := num_ok)) in H as [Hlen H]; [|unfold num_ok, max_uint64; lia..].
  apply app_inj_1 in H; [done|lia].
Qed.

Lemma framed_concat {A} (dom : A → Prop) enc `{!Framed dom enc} l l' x y :
  Forall dom l → Forall dom l' → length l = length l' →
  concat (enc <$> l) ++ x = concat (enc <$> l') ++ y → l = l' ∧ x = y.
Proof.
  intros Hl. revert l'. induction Hl as [|a l Ha Hl IH]; intros [|b l'] Hl' Hlen H; try done.
  cbn in H. rewrite <- !app_assoc in H. apply Forall_cons in Hl' as [Hb Hl'].
  apply (frame_inj (dom := dom)) in H as [-> H]; [|done..].
  apply IH in H as [-> ->]; [done|done|]. cbn in Hlen. lia.
Qed.

#[export] Instance framed_list {A} (dom : A → Prop) enc `{!Framed dom enc} :
  Framed (list_ok dom) (enc_list enc).
Proof.
  intros l l' x y [Hn Hl] [Hn' Hl']. unfold enc_list. rewrite <- !app_assoc. intros H.
  unfold max_int64 in *.
  apply (frame_inj (dom := num_ok)) in H as [Hlen H]; [|unfold num_ok, max_uint64; lia..].
  apply (framed_concat dom) in H; [done|done..|lia].
Qed.

Arguments uvarint : simpl never.
Arguments enc_num : simpl never.
Arguments enc_str : simpl never.

(** Two values with a null kind carry the same information. *)
Definition canon_value (v : ClaimDigestNamedValue) : ClaimDigestNamedValue :=
  if nv_Kind v =?b claimDigestKindNull then NamedValue (nv_Name v) (nv_Kind v) [] else v.
Definition value_ok (v : ClaimDigestNamedValue) : Prop :=
  str_ok (nv_Name v) ∧ str_ok (nv_Text v) ∧ canon_value v = v.

#[export] Instance framed_value : Framed value_ok enc_value.
Proof.
  intros [n k t] [n' k' t'] x y (Hn & Ht & Hc) (Hn' & Ht' & Hc'). unfold enc_value, canon_value in *.
  cbn in *. rewrite <- !app_assoc. intros H.
  apply (frame_inj (dom := str_ok)) in H as [-> H]; [|done..]. cbn in H. injection H as <- H.
  destruct (bool_decide (k = claimDigestKindNull)) eqn:E.
  - by simplify_eq.
  - apply (frame_inj (dom := str_ok)) in H as [-> ->]; done.
Qed.

(** ** The streams as sequences of frames *)

Lemma w_str_frame w s : w_str w s = w ++ enc_str s.
Proof. unfold w_str, enc_str. by rewrite <- app_assoc. Qed.

Lemma w_num_frame w v : w_num w v = w ++ enc_num v.
Proof. done. Qed.

Lemma w_value_frame w v : w_value (w_str w (nv_Name v)) v = w ++ enc_value (canon_value v).
Proof.
  destruct v as [n k t]. unfold w_value, enc_value, canon_value. cbn.
  rewrite w_str_frame. destruct (k =?b claimDigestKindNull) eqn:E; rewrite ?E; cbn; rewrite ?E.
  - by rewrite <- app_assoc.
  - rewrite w_str_frame. by rewrite <- !app_assoc.
Qed.

Lemma fold_frames {A} (step : bytes → A → bytes) (enc : A → bytes) l w :
  (∀ w a, step w a = w ++ enc a) → foldl step w l = w ++ concat (enc <$> l).
Proof.
  intros Hstep. revert w. induction l as [|a l IH]; intros w; cbn.
  - by rewrite app_nil_r.
  - by rewrite IH, Hstep, app_assoc.
Qed.

(** What a request's stream records of it. *)
Definition canonical_values (vals : list ClaimDigestNamedValue) : list ClaimDigestNamedValue :=
  canon_value <$> sort_values vals.

Definition canonical (q : claim_request) : claim_request :=
  match q with
  | ReqSaved (SavedInput db sc id vals p ps mr) => ReqSaved (SavedInput db sc id (canonical_values vals) p ps mr)
  | _ => q
  end.

Lemma ordinary_frames r :
  ordinary_stream r = enc_str claimDigestTagExecute ++ enc_str (oi_Database r) ++ enc_str (oi_Schema r)
    ++ enc_str (oi_Statement r) ++ enc_num (oi_Page r) ++ enc_num (oi_PageSize r) ++ enc_num (oi_MaxRows r).
Proof. unfold ordinary_stream. by rewrite !w_num_frame, !w_str_frame, <- !app_assoc. Qed.

Lemma saved_frames r :
  saved_stream r = enc_str claimDigestTagSavedStmt ++ enc_str (si_Database r) ++ enc_str (si_Schema r)
    ++ enc_num (si_StatementID r) ++ enc_list enc_value (canonical_values (si_Values r))
    ++ enc_num (si_Page r) ++ enc_num (si_PageSize r) ++ enc_num (si_MaxRows r).
Proof.
  unfold saved_stream, w_list.
  rewrite (fold_frames _ (enc_value ∘ canon_value)) by (intros; apply w_value_frame).
  rewrite !w_num_frame, !w_str_frame. unfold enc_list, canonical_values.
  by rewrite list_fmap_compose, length_fmap, <- !app_assoc.
Qed.

Lemma related_frames r :
  related_stream r = enc_str claimDigestTagNavigation ++ enc_str (ri_Database r) ++ enc_str (ri_Schema r)
    ++ enc_str (ri_SourceSchema r) ++ enc_str (ri_SourceObject r) ++ enc_list enc_str (ri_SourceColumns r)
    ++ enc_str (ri_ForeignKey r) ++ enc_list enc_str (ri_LocalValues r)
    ++ enc_num (ri_Page r) ++ enc_num (ri_PageSize r) ++ enc_num (ri_MaxRows r).
Proof.
  unfold related_stream, w_list. rewrite !(fold_frames _ enc_str) by (intros; apply w_str_frame).
  rewrite !w_num_frame, !w_str_frame. unfold enc_list. by rewrite <- !app_assoc.
Qed.

(** The fields of a resolved request: [int]s are non-negative, lengths are [int]s. *)
Definition int_ok (v : Z) : Prop := (0 ≤ v ≤ max_int64)%Z.
Definition wf_request (q : claim_request) : Prop :=
  match q with
  | ReqOrdinary r =>
    str_ok (oi_Database r) ∧ str_ok (oi_Schema r) ∧ str_ok (oi_Statement r)
    ∧ int_ok (oi_Page r) ∧ int_ok (oi_PageSize r) ∧ int_ok (oi_MaxRows r)
  | ReqSaved r =>
    str_ok (si_Database r) ∧ str_ok (si_Schema r) ∧ num_ok (si_StatementID r)
    ∧ list_ok (λ v, str_ok (nv_Name v) ∧ str_ok (nv_Text v)) (si_Values r)
    ∧ int_ok (si_Page r) ∧ int_ok (si_PageSize r) ∧ int_ok (si_MaxRows r)
  | ReqRelated r =>
    str_ok (ri_Database r) ∧ str_ok (ri_Schema r) ∧ str_ok (ri_SourceSchema r) ∧ str_ok (ri_SourceObject r)
    ∧ list_ok str_ok (ri_SourceColumns r) ∧ str_ok (ri_ForeignKey r) ∧ list_ok str_ok (ri_LocalValues r)
    ∧ int_ok (ri_Page r) ∧ int_ok (ri_PageSize r) ∧ int_ok (ri_MaxRows r)
  end.

#[export] Instance wf_request_dec q : Decision (wf_request q).
Proof. destruct q; unfold wf_request, str_ok, num_ok, int_ok, list_ok; apply _. Defined.

Lemma int_num_ok v : int_ok v → num_ok v.
Proof. unfold int_ok, num_ok, max_int64, max_uint64. lia. Qed.

Lemma canon_value_fields v :
  nv_Name (canon_value v) = nv_Name v ∧ (nv_Text (canon_value v) = [] ∨ nv_Text (canon_value v) = nv_Text v)
  ∧ canon_value (canon_value v) = canon_value v.
Proof.
  destruct v as [n k t]. unfold canon_value.
  destruct (k =?b claimDigestKindNull) eqn:E; cbn; rewrite E; cbn; rewrite ?E; auto.
Qed.

Lemma canonical_values_ok vals :
  list_ok (λ v, str_ok (nv_Name v) ∧ str_ok (nv_Text v)) vals → list_ok value_ok (canonical_values vals).
Proof.
  intros [Hlen Hall]. unfold canonical_values, sort_values. split.
  - by rewrite length_fmap, sort_slice_length.
  - rewrite <- (sort_slice_perm (less_by nv_Name bytes_less) vals) in Hall.
    apply Forall_fmap. eapply Forall_impl; [exact Hall|]. intros v [Hn Ht].
    destruct (canon_value_fields v) as (Hname & Htext & Hidem).
    unfold compose, value_ok. rewrite Hname, Hidem. split_and!; [done| |done].
    destruct Htext as [->| ->]; [by vm_compute|done].
Qed.

#[export] Hint Resolve int_num_ok canonical_values_ok : chub.

(** Peel the leading frame of both sides of an equation between streams. *)
Ltac peel_frame :=
  match goal with
  | H : enc_str _ ++ _ = enc_str _ ++ _ |- _ =>
      apply (frame_inj (dom := str_ok)) in H as [? H]; [|done..]
  | H : enc_num _ ++ _ = enc_num _ ++ _ |- _ =>
      apply (frame_inj (dom := num_ok)) in H as [? H]; [|by auto with chub..]
  | H : enc_list enc_str _ ++ _ = _ |- _ =>
      apply (frame_inj (dom := list_ok str_ok)) in H as [? H]; [|done..]
  | H : enc_list enc_value _ ++ _ = _ |- _ =>
      apply (frame_inj (dom := list_ok value_ok)) in H as [? H]; [|by auto with chub..]
  end.

Lemma enc_num_inj v v' : num_ok v → num_ok v' → enc_num v = enc_num v' → v = v'.
Proof.
  intros Hv Hv' H. apply (f_equal (λ s, s ++ [])) in H.
  by apply (frame_inj (dom := num_ok)) in H as [? _].
Qed.

(** The domains' tags differ, so streams of two domains never meet. *)
Lemma tag_frames_differ t t' x y :
  str_ok t → str_ok t' → t ≠ t' → enc_str t ++ x ≠ enc_str t' ++ y.
Proof. intros Ht Ht' Hne H. by apply (frame_inj (dom := str_ok)) in H as [? _]. Qed.

Lemma claim_tags_ok : str_ok claimDigestTagExecute ∧ str_ok claimDigestTagSavedStmt ∧ str_ok claimDigestTagNavigation.
Proof. split_and!; by vm_compute. Qed.

Lemma claim_tags_distinct :
  claimDigestTagExecute ≠ claimDigestTagSavedStmt ∧ claimDigestTagExecute ≠ claimDigestTagNavigation
  ∧ claimDigestTagSavedStmt ≠ claimDigestTagNavigation.
Proof. split_and!; by intros ?. Qed.

Ltac peel_stream H :=
  repeat peel_frame; apply enc_num_inj in H; [|by auto with chub..].

Lemma ordinary_stream_inj r1 r2 :
  wf_request (ReqOrdinary r1) → wf_request (ReqOrdinary r2) →
  ordinary_stream r1 = ordinary_stream r2 → r1 = r2.
Proof.
  intros H1 H2 H. destruct H1 as (?&?&?&?&?&?), H2 as (?&?&?&?&?&?), claim_tags_ok as (?&_&_).
  rewrite !ordinary_frames in H. peel_stream H. destruct r1, r2; cbn in *; by subst.
Qed.

Lemma saved_stream_inj r1 r2 :
  wf_request (ReqSaved r1) → wf_request (ReqSaved r2) →
  saved_stream r1 = saved_stream r2 → canonical (ReqSaved r1) = canonical (ReqSaved r2).
Proof.
  intros H1 H2 H. destruct H1 as (?&?&?&?&?&?&?), H2 as (?&?&?&?&?&?&?), claim_tags_ok as (_&?&_).
  rewrite !saved_frames in H. peel_stream H. destruct r1, r2; cbn in *. by subst; f_equal; f_equal.
Qed.

Lemma related_stream_inj r1 r2 :
  wf_request (ReqRelated r1) → wf_request (ReqRelated r2) →
  related_stream r1 = related_stream r2 → r1 = r2.
Proof.
  intros H1 H2 H. destruct H1 as (?&?&?&?&?&?&?&?&?&?), H2 as (?&?&?&?&?&?&?&?&?&?), claim_tags_ok as (_&_&?).
  rewrite !related_frames in H. peel_stream H. destruct r1, r2; cbn in *; by subst.
Qed.

Lemma ordinary_saved_apart r r' : ordinary_stream r ≠ saved_stream r'.
Proof.
  destruct claim_tags_ok as (?&?&?), claim_tags_distinct as (?&?&?).
  rewrite ordinary_frames, saved_frames. by apply tag_frames_differ.
Qed.

Lemma ordinary_related_apart r r' : ordinary_stream r ≠ related_stream r'.
Proof.
  destruct claim_tags_ok as (?&?&?), claim_tags_distinct as (?&?&?).
  rewrite ordinary_frames, related_frames. by apply tag_frames_differ.
Qed.

Lemma saved_related_apart r r' : saved_stream r ≠ related_stream r'.
Proof.
  destruct claim_tags_ok as (?&?&?), claim_tags_distinct as (?&?&?).
  rewrite saved_frames, related_frames. by apply tag_frames_differ.
Qed.

Lemma saved_stream_canonical r1 r2 :
  canonical (ReqSaved r1) = canonical (ReqSaved r2) → saved_stream r1 = saved_stream r2.
Proof. rewrite !saved_frames. destruct r1, r2. cbn -[canonical_values]. by intros [= -> -> -> Hv -> -> ->]; rewrite Hv. Qed.

(** C5: Two well-formed requests, of the same or of different entries, are
    encoded to the same byte stream exactly when they record the same request
    (saved-statement values up to the order of distinct names and the ignored
    payload of nulls). No field or list boundary can be confused with another. *)
Theorem request_stream_injective q1 q2 :
  wf_request q1 → wf_request q2 →
  request_stream q1 = request_stream q2 ↔ canonical q1 = canonical q2.
Proof.
  intros H1 H2. split.
  - intros H. destruct q1 as [r1|r1|r1], q2 as [r2|r2|r2]; cbn [request_stream] in H;
      try (first [symmetry in H; by apply ordinary_saved_apart in H | by apply ordinary_saved_apart in H
                 | symmetry in H; by apply ordinary_related_apart in H | by apply ordinary_related_apart in H
                 | symmetry in H; by apply saved_related_apart in H | by apply saved_related_apart in H]).
    + by rewrite (ordinary_stream_inj r1 r2).
    + by apply saved_stream_inj.
    + by rewrite (related_stream_inj r1 r2).
  - intros H. destruct q1 as [r1|[]|r1], q2 as [r2|[]|r2]; try discriminate H;
      try (by injection H as ->). by apply saved_stream_canonical.
Qed.

Definition sample_saved (vals : list ClaimDigestNamedValue) : SavedStatementDigestInput :=
  SavedInput (gs "db") [] 7 vals 1 50 1000.
Definition sample_values : list ClaimDigestNamedValue :=
  [NamedValue (gs "b") claimDigestKindNull []; NamedValue (gs "a") claimDigestKindString (gs "5")].

Lemma request_stream_injective_witness :
  wf_request (ReqSaved (sample_saved sample_values)) ∧
  canonical (ReqSaved (sample_saved sample_values)) = canonical (ReqSaved (sample_saved (reverse sample_values))).
Proof.
  assert (wf_request (ReqSaved (sample_saved sample_values))) as Hwf by
    (apply (bool_decide_unpack _); by vm_compute).
  split; [exact Hwf|].
  apply (request_stream_injective (ReqSaved (sample_saved sample_values))
           (ReqSaved (sample_saved (reverse sample_values)))).
  - exact Hwf.
  - apply (bool_decide_unpack _). by vm_compute.
  - vm_compute. reflexivity.
Defined.

(** The fingerprint of a saved-statement request does not depend on the
    order in which the caller lists its (distinctly named) values: map
    iteration order cannot turn one attempt into two. *)
Theorem saved_digest_order_independent db sc id vals vals' p ps mr :
  NoDup (nv_Name <$> vals) → vals ≡ₚ vals' →
  DigestSavedStatement (SavedInput db sc id vals p ps mr)
  = DigestSavedStatement (SavedInput db sc id vals' p ps mr).
Proof.
  intros Hnd Hperm. unfold DigestSavedStatement, saved_stream, sort_values.
  cbn [si_Database si_Schema si_StatementID si_Values si_Page si_PageSize si_MaxRows].
  by rewrite (sort_by_permutation nv_Name bytes_less vals vals').
Qed.

Lemma saved_digest_order_independent_witness :
  NoDup (nv_Name <$> sample_values) ∧
  DigestSavedStatement (sample_saved sample_values) = DigestSavedStatement (sample_saved (reverse sample_values)).
Proof.
  assert (NoDup (nv_Name <$> sample_values)) as Hnd by (apply (bool_decide_unpack _); by vm_compute).
  split; [exact Hnd|]. apply (saved_digest_order_independent (gs "db") [] 7 sample_values _ 1 50 1000).
  - exact Hnd.
  - symmetry. apply reverse_Permutation.
Defined.

Lemma request_digest_shape q :
  length (request_digest q) = 64 ∧ forallb is_lower_hex (request_digest q) = true.
Proof. split; [apply length_sha256_hex|apply sha256_hex_lower]. Qed.
