(* ===== verification/ExecModel.v ===== *)
(** * Data model of the query executions

    [internal/model/query_execution.go], [query_execution_claim.go] and
    [pagination.go]: the records the execution service, the claim repository
    and the history read model exchange, and their validators. Go's string
    enumerations stay byte strings here, because the validators are what
    excludes the other strings. *)
From S2P Require Import Prelude GoText Sha256 ClaimDigest.

(** The sentinel or message a validator returns. *)
Inductive model_error : Type :=
  | EIdentityID | EActorKind
  | EStatementRequired | EStatementTooLong | EStatementUTF8 | EStatementNUL
  | EMaxRowsNegative | EPage | EPageSize | EOffsetOverflow
  | EKeyRequired | EKeyTooLong | EKeyUTF8 | EKeyNUL | EScopeNotAccepted
  | EStatus | ERemoteState | EPolicy | ECredentialRef | EConnectionIdentity
  | ETarget | EDatabaseName | ESchemaName | EDigestLength | EDigestChar (offset : nat)
  | EAttemptTimeout | EClaimedAt | ETimeWindow.

#[export] Instance model_error_eq_dec : EqDecision model_error.
Proof. solve_decision. Defined.

(** ** Statuses, actors, pagination *)

Definition QueryExecutionSuccess : bytes := gs "success".
Definition QueryExecutionRejected : bytes := gs "rejected".
Definition QueryExecutionFailed : bytes := gs "failed".
Definition QueryExecutionTimeout : bytes := gs "timeout".
Definition QueryExecutionCancelled : bytes := gs "cancelled".

Definition QueryExecutionActorUser : bytes := gs "user".
Definition QueryExecutionActorMachine : bytes := gs "machine".

Record QueryExecutionIdentity : Type := Identity {
  id_Kind : bytes;
  id_ID : Z;
}.
#[export] Instance identity_eq_dec : EqDecision QueryExecutionIdentity.
Proof. solve_decision. Defined.

Definition identity_Validate (i : QueryExecutionIdentity) : result model_error unit :=
  if (id_ID i =? 0)%Z then Err EIdentityID
  else if (id_Kind i =?b QueryExecutionActorUser) || (id_Kind i =?b QueryExecutionActorMachine) then Ok tt
  else Err EActorKind.

Definition AllowedPageSizes : list Z := [10; 25; 50; 100]%Z.

(** [math.MaxInt] on a 64-bit platform; [/] truncates, and both operands are positive here. *)
Definition ValidatePagination (page pageSize : Z) : result model_error unit :=
  if (page <=? 0)%Z then Err EPage
  else if negb (existsb (Z.eqb pageSize) AllowedPageSizes) then Err EPageSize
  else if (max_int64 ÷ pageSize <? page - 1)%Z then Err EOffsetOverflow
  else Ok tt.

Definition MaxClientExecutionIDLength : nat := 64.
Definition MaxStatementLength : Z := 65536%Z.
Definition MaxIdentifierLength : nat := 128.

Definition ValidateClientExecutionID (id : bytes) : result model_error unit :=
  guard_err (MaxClientExecutionIDLength <? rune_count id) EKeyTooLong.

Definition validateExecutionRequestKey (key : bytes) : result model_error unit :=
  if key =?b [] then Ok tt
  else
    _ ← ValidateClientExecutionID key;
    if negb (valid_string key) then Err EKeyUTF8
    else if contains_byte nul key then Err EKeyNUL
    else Ok tt.

Record QueryExecutePaginationRequest : Type := PaginationRequest { pr_Page : Z; pr_PageSize : Z }.

Record QueryExecuteRequest : Type := ExecuteRequest {
  rq_Statement : bytes;
  rq_MaxRows : Z;
  rq_Pagination : option QueryExecutePaginationRequest;
  rq_Database : bytes;
  rq_Schema : bytes;
  rq_ClientExecutionID : bytes;
  rq_Capabilities : list bytes;
}.

Definition ValidateShape (r : QueryExecuteRequest) : result model_error unit :=
  if trim_space (rq_Statement r) =?b [] then Err EStatementRequired
  else if (MaxStatementLength <? Z.of_nat (rune_count (rq_Statement r)))%Z then Err EStatementTooLong
  else if negb (valid_string (rq_Statement r)) then Err EStatementUTF8
  else if contains_byte nul (rq_Statement r) then Err EStatementNUL
  else if (rq_MaxRows r <? 0)%Z then Err EMaxRowsNegative
  else
    _ ← match rq_Pagination r with
        | Some p => ValidatePagination (pr_Page p) (pr_PageSize p)
        | None => Ok tt
        end;
    validateExecutionRequestKey (rq_ClientExecutionID r).

Definition request_Validate (r : QueryExecuteRequest) : result model_error unit :=
  _ ← ValidateShape r;
  if negb (rq_Database r =?b []) || negb (rq_Schema r =?b []) then Err EScopeNotAccepted else Ok tt.

(** ** Result pages *)

Definition ResultDisclosureRawCopyAllowed : bytes := gs "raw_copy_allowed".
Definition ResultDisclosureMaskedNoCopy : bytes := gs "masked_no_copy".
Definition ResultDisclosureBlocked : bytes := gs "blocked".

(** Only the two persisted modes validate; [blocked] is derived. *)
Definition disclosure_mode_Validate (m : bytes) : bool :=
  (m =?b ResultDisclosureRawCopyAllowed) || (m =?b ResultDisclosureMaskedNoCopy).

Record QueryResultColumn : Type := ResultColumn {
  col_Name : bytes;
  col_DatabaseType : bytes;
  col_Nullable : bool;
  col_DisplayMode : bytes;
  col_CopyAllowed : bool;
}.

(** The declared shapes of a materialised value; [CFloat64] holds the bits,
    [CTime] an instant, [COther] anything outside the declared shapes. *)
Inductive cell : Type :=
  | CNil
  | CString (s : bytes)
  | CBool (b : bool)
  | CInt64 (z : Z)
  | CFloat64 (bits : Z)
  | CTime (t : Z)
  | COther (tag : Z).
#[export] Instance cell_eq_dec : EqDecision cell.
Proof. solve_decision. Defined.

(** ** Remote state, policies, credential references *)

Definition QueryExecutionRemoteNone : bytes := [].
Definition QueryExecutionRemoteStopped : bytes := gs "stopped".
Definition QueryExecutionRemoteUnknown : bytes := gs "unknown".
Definition QueryExecutionRemoteCompleted : bytes := gs "completed".

Definition remote_Validate (s : bytes) : result model_error unit :=
  guard_err (negb (existsb (λ x, s =?b x)
    [QueryExecutionRemoteNone; QueryExecutionRemoteStopped; QueryExecutionRemoteUnknown; QueryExecutionRemoteCompleted]))
    ERemoteState.

Definition ValidateStatus (s : bytes) : result model_error unit :=
  guard_err (negb (existsb (λ x, s =?b x)
    [QueryExecutionSuccess; QueryExecutionRejected; QueryExecutionFailed; QueryExecutionTimeout; QueryExecutionCancelled]))
    EStatus.

Definition QueryEnvPolicyDisabled : bytes := gs "disabled".
Definition QueryEnvPolicyNonProdOnly : bytes := gs "non_prod_only".
Definition QueryEnvPolicyAllEnvironments : bytes := gs "all_environments".

Definition env_policy_Validate (p : bytes) : result model_error unit :=
  guard_err (negb (existsb (λ x, p =?b x)
    [QueryEnvPolicyDisabled; QueryEnvPolicyNonProdOnly; QueryEnvPolicyAllEnvironments])) EPolicy.

Definition MaxCredentialRefLength : nat := 64.

(** The loop ranges over runes; a rune inside the three ASCII ranges is one
    byte, and every byte of any other rune is outside them. *)
Definition ref_char (c : byte) : bool := in_range 65 90 c || in_range 48 57 c || (bv c =? 95)%Z.
Definition ValidateCredentialRef (ref : bytes) : result model_error unit :=
  if ref =?b [] then Err ECredentialRef
  else if MaxCredentialRefLength <? length ref then Err ECredentialRef
  else guard_err (negb (forallb ref_char ref)) ECredentialRef.

(** ** Execution and claim records

    [ID = 0] stands for SQL NULL in the actor columns, as in the source. *)
Record QueryExecutionRecord : Type := ExecutionRecord {
  er_ID : Z;
  er_TargetResourceID : Z;
  er_ActorUserID : Z;
  er_ActorMachinePrincipalID : Z;
  er_Engine : bytes;
  er_DatabaseName : bytes;
  er_SchemaName : bytes;
  er_StatementDigest : bytes;
  er_StatementPreview : bytes;
  er_FullStatement : bytes;
  er_Status : bytes;
  er_RowCount : Z;
  er_DurationMs : Z;
  er_ErrorCode : bytes;
  er_ErrorMessage : bytes;
  er_BackendPID : option Z;
  er_RemoteState : bytes;
  er_ClientExecutionID : option bytes;
  er_CreatedAt : option Z; (** [None] is the zero time *)
}.
#[export] Instance execution_record_eq_dec : EqDecision QueryExecutionRecord.
Proof. solve_decision. Defined.

Definition QueryExecutionClaimDigestLength : nat := 64.

Record QueryExecutionClaimInput : Type := ClaimInput {
  ci_TargetResourceID : Z;
  ci_ClientExecutionID : bytes;
  ci_Identity : QueryExecutionIdentity;
  ci_DatabaseName : bytes;
  ci_SchemaName : bytes;
  ci_RequestDigest : bytes;
  ci_AttemptTimeoutMs : Z;
  ci_ClaimedAt : option Z; (** [None] is Go's zero time *)
}.

Definition is_hex (c : byte) : bool := in_range 48 57 c || in_range 97 102 c || in_range 65 70 c.

Fixpoint first_non_hex (i : nat) (d : bytes) : result model_error unit :=
  match d with
  | [] => Ok tt
  | c :: d => if negb (is_hex c) then Err (EDigestChar i) else first_non_hex (S i) d
  end.

Definition validateClaimDigest (d : bytes) : result model_error unit :=
  if negb (length d =? QueryExecutionClaimDigestLength)%nat then Err EDigestLength
  else first_non_hex 0 d.

Definition claim_Validate (c : QueryExecutionClaimInput) : result model_error unit :=
  if (ci_TargetResourceID c =? 0)%Z then Err ETarget
  else if ci_ClientExecutionID c =?b [] then Err EKeyRequired
  else
    _ ← ValidateClientExecutionID (ci_ClientExecutionID c);
    if contains_byte nul (ci_ClientExecutionID c) then Err EKeyNUL
    else
      _ ← identity_Validate (ci_Identity c);
      if MaxIdentifierLength <? rune_count (ci_DatabaseName c) then Err EDatabaseName
      else if MaxIdentifierLength <? rune_count (ci_SchemaName c) then Err ESchemaName
      else
        _ ← validateClaimDigest (ci_RequestDigest c);
        if (ci_AttemptTimeoutMs c <=? 0)%Z then Err EAttemptTimeout
        else match ci_ClaimedAt c with None => Err EClaimedAt | Some _ => Ok tt end.

Record QueryExecutionClaim : Type := Claim {
  cl_TargetResourceID : Z;
  cl_ClientExecutionID : bytes;
  cl_ActorUserID : Z;
  cl_ActorMachinePrincipalID : Z;
  cl_DatabaseName : bytes;
  cl_SchemaName : bytes;
  cl_RequestDigest : bytes;
  cl_AttemptTimeoutMs : Z;
  cl_ExecutionID : Z;
  cl_ClaimedAt : Z;
}.
#[export] Instance claim_eq_dec : EqDecision QueryExecutionClaim.
Proof. solve_decision. Defined.

Record QueryExecutionClaimView : Type := ClaimView {
  cv_Claim : QueryExecutionClaim;
  cv_Execution : option QueryExecutionRecord;
}.

(** ** Time windows and list pagination *)

Definition ValidateTimeWindow (from to : option Z) : result model_error unit :=
  match from, to with
  | Some f, Some t => guard_err (negb (f <? t)%Z) ETimeWindow
  | _, _ => Ok tt
  end.

Definition DefaultPage : Z := 1%Z.
Definition DefaultPageSize : Z := 20%Z.
Definition MaxPageSize : Z := 500%Z.
Definition MaxPage : Z := 1000000000%Z.

Record PageInfo : Type := MkPageInfo {
  pi_Page : Z; pi_PageSize : Z; pi_TotalItems : Z; pi_TotalPages : Z;
  pi_HasNextPage : bool; pi_HasPreviousPage : bool;
}.

(** [int] arithmetic wraps; [/] truncates. *)
Definition ComputeTotalPages (totalItems pageSize : Z) : Z :=
  if (pageSize <=? 0)%Z then 0%Z
  else if (totalItems <=? 0)%Z then 0%Z
  else to_int64 (to_int64 (totalItems + pageSize) - 1) ÷ pageSize.

Definition NewPageInfo (page pageSize totalItems : Z) : PageInfo :=
  let totalPages := ComputeTotalPages totalItems pageSize in
  MkPageInfo page pageSize totalItems totalPages (page <? totalPages)%Z (1 <? page)%Z.

Definition NormalizePagination (page pageSize : Z) : Z * Z :=
  let page := if (page <? 1)%Z then DefaultPage else page in
  let pageSize := if (pageSize <? 1)%Z then DefaultPageSize else pageSize in
  let pageSize := if (MaxPageSize <? pageSize)%Z then MaxPageSize else pageSize in
  let page := if (MaxPage <? page)%Z then MaxPage else page in
  (page, pageSize).

Fixpoint dedup_from (seen : gset bytes) (s : list bytes) : list bytes :=
  match s with
  | [] => []
  | v :: s => if (v =?b []) || bool_decide (v ∈ seen) then dedup_from seen s
              else v :: dedup_from ({[v]} ∪ seen) s
  end.
(** A nil slice and an empty slice are both [[]] here. *)
Definition DedupStrings (s : list bytes) : list bytes := dedup_from ∅ s.

(** ** Lemmas *)

Lemma existsb_eqb_elem z l : existsb (Z.eqb z) l = true ↔ z ∈ l.
Proof.
  rewrite existsb_exists. setoid_rewrite Z.eqb_eq. split.
  - intros (x & Hx & ->). by apply list_elem_of_In.
  - intros H. exists z. split; [by apply list_elem_of_In|done].
Qed.

Lemma allowed_sizes_range z : z ∈ AllowedPageSizes → (10 ≤ z ≤ 100)%Z.
Proof. unfold AllowedPageSizes. rewrite !elem_of_cons, elem_of_nil. lia. Qed.

(** A page request is accepted exactly when the page is positive, the
    size is one of the allowed sizes and the row offset fits the [int] the
    executor computes it in: the overflow guard is neither too weak nor too
    strong. *)
Theorem pagination_offset_fits page pageSize :
  ValidatePagination page pageSize = Ok tt ↔
  (1 ≤ page)%Z ∧ pageSize ∈ AllowedPageSizes ∧ ((page - 1) * pageSize ≤ max_int64)%Z.
Proof.
  unfold ValidatePagination. rewrite <- existsb_eqb_elem.
  destruct (page <=? 0)%Z eqn:Ep; bool_inv; [split; [done|lia]|].
  destruct (existsb _ _) eqn:Es; cbn [negb]; [|split; [done|intros (_&?&_); congruence]].
  pose proof (allowed_sizes_range _ (proj1 (existsb_eqb_elem _ _) Es)) as Hs.
  assert (max_int64 ÷ pageSize < page - 1 ↔ max_int64 < (page - 1) * pageSize)%Z as Hq.
  { rewrite Z.quot_div_nonneg by (unfold max_int64; lia).
    pose proof (Z.div_mod max_int64 pageSize ltac:(lia)).
    pose proof (Z.mod_pos_bound max_int64 pageSize ltac:(lia)). nia. }
  destruct (_ <? _)%Z eqn:Eo; bool_inv; split; try done.
  - intros (_&_&?). lia.
  - intros _. split_and!; [lia|done|lia].
Qed.

Lemma normalize_pagination_clamp page pageSize :
  NormalizePagination page pageSize =
  (if decide (page < 1)%Z then DefaultPage else (page `min` MaxPage)%Z,
   if decide (pageSize < 1)%Z then DefaultPageSize else (pageSize `min` MaxPageSize)%Z).
Proof.
  unfold NormalizePagination, DefaultPage, DefaultPageSize, MaxPage, MaxPageSize.
  repeat case_decide; destruct (page <? 1)%Z eqn:?, (pageSize <? 1)%Z eqn:?; bool_inv; try lia;
    repeat match goal with |- context [if ?b then _ else _] => destruct b eqn:?; bool_inv end;
    f_equal; lia.
Qed.

(** List pagination is normalised into the documented bounds, is
    idempotent, keeps legal values, and its offset never leaves [int]. *)
Theorem normalize_pagination_bounds page pageSize :
  let '(p, s) := NormalizePagination page pageSize in
  (1 ≤ p ≤ MaxPage)%Z ∧ (1 ≤ s ≤ MaxPageSize)%Z ∧ (0 ≤ (p - 1) * s ≤ max_int64)%Z
  ∧ NormalizePagination p s = (p, s)
  ∧ ((1 ≤ page ≤ MaxPage)%Z → p = page) ∧ ((1 ≤ pageSize ≤ MaxPageSize)%Z → s = pageSize).
Proof.
  rewrite normalize_pagination_clamp. rewrite normalize_pagination_clamp.
  unfold DefaultPage, DefaultPageSize, MaxPage, MaxPageSize, max_int64.
  repeat case_decide; split_and!; try lia; try nia; f_equal; lia.
Qed.

Lemma to_int64_id z : int64_ok z = true → to_int64 z = z.
Proof.
  unfold int64_ok, to_int64, min_int64, max_int64. intros H. bool_inv.
  rewrite Z.mod_small by lia. lia.
Qed.

(** The page count is the ceiling of items over page size, for every
    total that does not overflow the addition; the navigation flags follow. *)
Theorem total_pages_ceiling page pageSize total :
  (0 < pageSize ≤ MaxPageSize)%Z → (0 ≤ total ≤ max_int64 - MaxPageSize)%Z →
  let info := NewPageInfo page pageSize total in
  ((pi_TotalPages info - 1) * pageSize < total ∨ total = 0)%Z ∧ (total ≤ pi_TotalPages info * pageSize)%Z
  ∧ (pi_HasNextPage info = true ↔ (page * pageSize < total)%Z).
Proof.
  intros Hs Ht. cbn. unfold ComputeTotalPages, MaxPageSize, max_int64 in *.
  rewrite (proj2 (Z.leb_gt pageSize 0)) by lia.
  destruct (total <=? 0)%Z eqn:E0; bool_inv.
  { replace total with 0%Z by lia. split; [by right|]. split; [lia|]. rewrite Z.ltb_lt. nia. }
  rewrite (to_int64_id (total + pageSize)), to_int64_id, Z.quot_div_nonneg
    by (try lia; unfold int64_ok, min_int64, max_int64; apply andb_true_intro; split; apply Z.leb_le; lia).
  pose proof (Z.div_mod (total + pageSize - 1) pageSize ltac:(lia)).
  pose proof (Z.mod_pos_bound (total + pageSize - 1) pageSize ltac:(lia)).
  rewrite Z.ltb_lt. split_and!; [left; nia|nia|nia].
Qed.

Lemma total_pages_ceiling_witness :
  (0 < 20 ≤ MaxPageSize)%Z ∧ (0 ≤ 41 ≤ max_int64 - MaxPageSize)%Z ∧ (41 ≤ pi_TotalPages (NewPageInfo 1 20 41) * 20)%Z.
Proof.
  assert (0 < 20 ≤ MaxPageSize)%Z as H1 by (unfold MaxPageSize; lia).
  assert (0 ≤ 41 ≤ max_int64 - MaxPageSize)%Z as H2 by (unfold max_int64, MaxPageSize; lia).
  split; [exact H1|]. split; [exact H2|]. apply (total_pages_ceiling 1 20 41 H1 H2).
Defined.

Lemma dedup_from_spec seen s :
  NoDup (dedup_from seen s) ∧ dedup_from seen s `sublist_of` s
  ∧ (∀ v, v ∈ dedup_from seen s ↔ v ∈ s ∧ v ≠ [] ∧ v ∉ seen).
Proof.
  revert seen. induction s as [|v s IH]; intros seen; cbn [dedup_from].
  { split_and!; [constructor|done|]. intros v. rewrite elem_of_nil. tauto. }
  match goal with |- context [if ?b then _ else _] => destruct b eqn:E end.
  - destruct (IH seen) as (Hnd & Hsub & Hel). split_and!; [done|by constructor 3|].
    intros w. rewrite Hel, elem_of_cons. apply orb_true_iff in E as [E|E]; bool_inv; clear IH Hnd Hsub.
    + subst v. split; [intros (?&?&?)|intros ([?|?]&?&?)]; done || auto.
    + split; [intros (?&?&?)|intros ([->|?]&?&?)]; done || auto.
  - destruct (IH ({[v]} ∪ seen)) as (Hnd & Hsub & Hel). bool_inv. split_and!.
    + constructor; [|done]. rewrite Hel. set_solver.
    + by constructor 2.
    + intros w. rewrite !elem_of_cons, Hel. destruct (decide (w = v)); set_solver.
Qed.

(** Deduplication keeps exactly the non-empty strings, once each, in
    their original order. *)
Theorem dedup_strings_spec s :
  NoDup (DedupStrings s) ∧ DedupStrings s `sublist_of` s ∧ (∀ v, v ∈ DedupStrings s ↔ v ∈ s ∧ v ≠ []).
Proof.
  destruct (dedup_from_spec ∅ s) as (?&?&Hel). split_and!; [done..|].
  intros v. unfold DedupStrings. rewrite Hel. set_solver.
Qed.

Lemma first_non_hex_lower i d : forallb is_lower_hex d = true → first_non_hex i d = Ok tt.
Proof.
  revert i. induction d as [|c d IH]; intros i; cbn; [done|]. intros H. bool_inv.
  assert (is_hex c = true) as ->; [|by apply IH].
  unfold is_hex. unfold is_lower_hex in *. by destruct (in_range 48 57 c), (in_range 97 102 c).
Qed.

Lemma request_digest_valid q : validateClaimDigest (request_digest q) = Ok tt.
Proof.
  destruct (request_digest_shape q) as [Hlen Hhex]. unfold validateClaimDigest.
  rewrite Hlen. by apply first_non_hex_lower.
Qed.

(** Every client key the request boundary accepts, with any computed
    digest and a valid actor and scope, is admitted by the claim validator:
    the two layers agree on what a key is. *)
Theorem accepted_key_is_claimable r target actor db sc q timeout now :
  ValidateShape r = Ok tt → rq_ClientExecutionID r ≠ [] →
  target ≠ 0%Z → identity_Validate actor = Ok tt →
  rune_count db ≤ MaxIdentifierLength → rune_count sc ≤ MaxIdentifierLength → (0 < timeout)%Z →
  claim_Validate (ClaimInput target (rq_ClientExecutionID r) actor db sc (request_digest q) timeout (Some now)) = Ok tt.
Proof.
  intros Hr Hkey Ht Hid Hdb Hsc Hto. unfold ValidateShape in Hr. res_inv.
  unfold validateExecutionRequestKey in Hr. rewrite bool_decide_eq_false_2 in Hr by done.
  destruct (ValidateClientExecutionID _) as [[]|] eqn:Ek; [|done]. cbn in Hr.
  destruct (valid_string (rq_ClientExecutionID r)); [|done]. cbn in Hr.
  destruct (contains_byte nul _) eqn:En in Hr; [done|].
  unfold claim_Validate. cbn [ci_TargetResourceID ci_ClientExecutionID ci_Identity ci_DatabaseName
    ci_SchemaName ci_RequestDigest ci_AttemptTimeoutMs ci_ClaimedAt].
  rewrite (proj2 (Z.eqb_neq _ _) Ht), bool_decide_eq_false_2, Ek by done. cbn [mbind result_bind].
  rewrite En, Hid. cbn [mbind result_bind].
  rewrite !(proj2 (Nat.ltb_ge _ _)), request_digest_valid by done. cbn [mbind result_bind].
  by rewrite (proj2 (Z.leb_gt timeout 0)).
Qed.

Definition sample_request : QueryExecuteRequest :=
  ExecuteRequest (gs "SELECT 1") 100 (Some (PaginationRequest 1 50)) [] [] (gs "key-1") [].
Definition sample_actor : QueryExecutionIdentity := Identity QueryExecutionActorUser 7.

Lemma accepted_key_is_claimable_witness :
  ValidateShape sample_request = Ok tt ∧
  claim_Validate (ClaimInput 3 (gs "key-1") sample_actor [] [] (request_digest (ReqSaved (sample_saved sample_values)))
                    30000 (Some 1%Z)) = Ok tt.
Proof.
  split; [by vm_compute|].
  apply (accepted_key_is_claimable sample_request 3 sample_actor [] [] _ 30000 1);
    try lia; try (by vm_compute); cbn; lia.
Defined.
