(* ===== verification/ResultContract.v ===== *)
(** * The result-delivery contract

    [internal/service/query_result_contract.go] and [query_disclosure_mask.go]:
    per-cell truncation on rune boundaries, the truncation matrix, the
    capability gate of the three governed result paths and CSV eligibility. *)
From S2P Require Import Prelude GoText ExecModel.

Inductive contract_error : Type :=
  | ErrResultContractInvalid
  | ErrResultContractUpgradeRequired
  | ErrCSVNoColumns
  | ErrCSVColumn (i : nat)
  | ErrCSVEvidence
  | ErrCSVTruncated
  | ErrUpstream (code : Z) (** the caller's error, passed through *)
  | IndexPanic. (** an out-of-range index; shown unreachable *)
#[export] Instance contract_error_eq_dec : EqDecision contract_error.
Proof. solve_decision. Defined.

Definition ResultCellMaxBytes : Z := 8192%Z.
Definition CapabilityCellTruncated : bytes := gs "cellTruncated".

(** ** Per-cell truncation *)

(** [for end > 0 && !utf8.RuneStart(s[end]) { end-- }]. *)
Fixpoint back_to_start (s : bytes) (e : nat) : option nat :=
  match e with
  | O => Some O
  | S e' => match s !! e with
            | None => None
            | Some c => if negb (rune_start c) then back_to_start s e' else Some e
            end
  end.

Definition TruncateCellText (s : bytes) (maxBytes : Z) : result contract_error (bytes * bool) :=
  if (maxBytes <=? 0)%Z then Err ErrResultContractInvalid
  else if negb (valid_string s) then Err ErrResultContractInvalid
  else if (Z.of_nat (length s) <=? maxBytes)%Z then Ok (s, false)
  else match back_to_start s (Z.to_nat maxBytes) with
       | None => Err IndexPanic
       | Some e => Ok (take e s, true)
       end.

Definition TruncateCellValue (v : cell) (maxBytes : Z) : result contract_error (cell * bool) :=
  match v with
  | CNil => Ok (CNil, false)
  | CString x => '(t, flag) ← TruncateCellText x maxBytes; Ok (CString t, flag)
  | CBool _ | CInt64 _ | CFloat64 _ | CTime _ => Ok (v, false)
  | COther _ => Err ErrResultContractInvalid
  end.

(** The loop of [TruncateRow]; [flag_at i] is [prior != nil && prior[i]]. *)
Fixpoint truncate_cells (i : nat) (values : list cell) (flag_at : nat → bool) (maxBytes : Z)
    : result contract_error (list cell * list bool) :=
  match values with
  | [] => Ok ([], [])
  | v :: values =>
    '(tv, truncated) ← TruncateCellValue v maxBytes;
    '(out, flags) ← truncate_cells (S i) values flag_at maxBytes;
    Ok (tv :: out, (truncated || flag_at i) :: flags)
  end.

(** [prior = None] is the nil slice. *)
Definition TruncateRow (values : list cell) (prior : option (list bool)) (maxBytes : Z)
    : result contract_error (list cell * list bool) :=
  match prior with
  | Some p => if negb (length p =? length values)%nat then Err ErrResultContractInvalid
              else truncate_cells 0 values (λ i, nth i p false) maxBytes
  | None => truncate_cells 0 values (λ _, false) maxBytes
  end.

(** ** The truncation matrix

    A nil outer slice carries meaning, so it is [None]; inner nil rows do not. *)
Abbreviation matrix := (option (list (list bool))).
Abbreviation page_rows := (option (list (list cell))).
Definition rows_of {A} (x : option (list A)) : list A := default [] x.

Definition CloneCellTruncated (m : matrix) : matrix :=
  match m with
  | None => None
  | Some m => Some ((λ row, [] ++ row) <$> m)
  end.

Definition AnyCellTruncated (m : matrix) : bool := existsb (existsb (λ t, t)) (rows_of m).

Definition validateCellTruncatedMatrix (columnCount : nat) (rows : page_rows) (m : matrix)
    : result contract_error unit :=
  if existsb (λ r, negb (length r =? columnCount)%nat) (rows_of rows) then Err ErrResultContractInvalid
  else match m with
  | None => guard_err (negb (length (rows_of rows) =? 0)%nat) ErrResultContractInvalid
  | Some mm =>
    if negb (length mm =? length (rows_of rows))%nat then Err ErrResultContractInvalid
    else guard_err (existsb (λ r, negb (length r =? columnCount)%nat) mm) ErrResultContractInvalid
  end.

Definition attachCellTruncated (columns : list QueryResultColumn) (rows : page_rows) (m : matrix)
    : result contract_error matrix :=
  _ ← validateCellTruncatedMatrix (length columns) rows m;
  Ok (CloneCellTruncated m).

(** ** The capability gate *)

Record ResultDeliveryInput : Type := DeliveryInput {
  di_UpstreamErr : option contract_error;
  di_Columns : list QueryResultColumn;
  di_Rows : page_rows;
  di_CellTruncated : matrix;
  di_Capabilities : list bytes;
}.

Record ResultDeliveryDecision : Type := DeliveryDecision {
  dd_Rows : page_rows;
  dd_CellTruncated : matrix;
}.

Definition hasCellTruncatedCapability (capabilities : list bytes) : bool :=
  existsb (λ c, c =?b CapabilityCellTruncated) capabilities.

Definition cloneRows (rows : page_rows) : page_rows :=
  match rows with
  | None => None
  | Some rows => Some ((λ r, [] ++ r) <$> rows)
  end.

Definition DecideResultDelivery (q : ResultDeliveryInput) : result contract_error ResultDeliveryDecision :=
  match di_UpstreamErr q with
  | Some e => Err e
  | None =>
    _ ← validateCellTruncatedMatrix (length (di_Columns q)) (di_Rows q) (di_CellTruncated q);
    if AnyCellTruncated (di_CellTruncated q) && negb (hasCellTruncatedCapability (di_Capabilities q))
    then Err ErrResultContractUpgradeRequired
    else Ok (DeliveryDecision (cloneRows (di_Rows q)) (CloneCellTruncated (di_CellTruncated q)))
  end.

(** ** CSV eligibility *)

Definition copyable (col : QueryResultColumn) : bool :=
  negb (negb (col_DisplayMode col =?b ResultDisclosureRawCopyAllowed) || negb (col_CopyAllowed col)).

Fixpoint check_columns (i : nat) (columns : list QueryResultColumn) : result contract_error unit :=
  match columns with
  | [] => Ok tt
  | col :: columns => if negb (copyable col) then Err (ErrCSVColumn i) else check_columns (S i) columns
  end.

Definition DecideCSVExport (columns : list QueryResultColumn) (rows : page_rows) (m : matrix)
    : result contract_error unit :=
  if (length columns =? 0)%nat then Err ErrCSVNoColumns
  else
    _ ← check_columns 0 columns;
    _ ← map_err (λ _, ErrCSVEvidence) (validateCellTruncatedMatrix (length columns) rows m);
    if AnyCellTruncated m then Err ErrCSVTruncated else Ok tt.

(** ** Disclosure masking *)

Definition maskedReplacement : bytes := gs "[MASKED]".

Definition applyDisclosureMask (value : cell) (mode : bytes) : cell :=
  if mode =?b ResultDisclosureMaskedNoCopy then
    match value with CNil => CNil | _ => CString maskedReplacement end
  else value.

(** ** Truncation: lemmas *)

Lemma rune_interior r e c :
  is_rune r → r !! e = Some c → rune_start c = true → e = 0.
Proof.
  intros Hr He Hc. apply is_rune_shape in Hr as (a & t & -> & _ & Ht).
  destruct e as [|e]; [done|]. cbn in He.
  rewrite Forall_lookup in Ht. apply Ht in He. congruence.
Qed.

Lemma rune_no_valid_prefix r e : is_rune r → 0 < e < length r → valid_string (take e r) = false.
Proof.
  intros Hr He. destruct (valid_string (take e r)) eqn:E; [|done]. exfalso.
  unfold valid_string in E. destruct (take e r) as [|a t] eqn:Et.
  { apply (f_equal length) in Et. rewrite length_take in Et. cbn in Et. lia. }
  cbn [valid_from] in E. rewrite <- Et in E.
  destruct (rune_width (take e r)) as [w|] eqn:Ew; [|done].
  pose proof (rune_width_bounds _ _ Ew) as [_ Hle]. rewrite length_take in Hle.
  apply (rune_width_app _ (drop e r)) in Ew. rewrite take_drop in Ew.
  unfold is_rune in Hr. rewrite Hr in Ew. injection Ew as Ew. lia.
Qed.

Lemma rune_length r : is_rune r → 1 ≤ length r.
Proof. intros Hr. apply rune_width_bounds in Hr. lia. Qed.

(** Cutting a valid string before a start byte keeps it valid, and every
    valid cut is one. *)
Lemma valid_cut s :
  valid_string s = true → ∀ e c, s !! e = Some c → valid_string (take e s) = rune_start c.
Proof.
  revert s. apply (valid_string_ind (λ s, ∀ e c, s !! e = Some c → valid_string (take e s) = rune_start c)).
  { intros e c. by rewrite lookup_nil. }
  intros r s Hr Hs IH e c Hc. pose proof (rune_length r Hr). destruct (decide (e < length r)) as [Hlt|Hge].
  - rewrite lookup_app_l in Hc by done. rewrite take_app_le by lia.
    destruct e as [|e].
    + destruct (is_rune_shape r Hr) as (a & t & -> & Ha & _). cbn in Hc. injection Hc as ->. by rewrite take_0.
    + rewrite rune_no_valid_prefix by (done || lia). symmetry.
      destruct (rune_start c) eqn:E; [|done]. by pose proof (rune_interior r (S e) c Hr Hc E).
  - rewrite lookup_app_r in Hc by lia. rewrite take_app_ge by lia.
    rewrite valid_rune_app by done. by apply IH.
Qed.

Lemma back_to_start_spec s e :
  e < length s → ∃ k, back_to_start s e = Some k ∧ k ≤ e
    ∧ (k = 0 ∨ ∃ c, s !! k = Some c ∧ rune_start c = true)
    ∧ (∀ j c, k < j ≤ e → s !! j = Some c → rune_start c = false).
Proof.
  induction e as [|e IH]; intros He; cbn.
  { exists 0. split_and!; [done|lia|by left|lia]. }
  destruct (lookup_lt_is_Some_2 s (S e) He) as [c Hc]. rewrite Hc.
  destruct (rune_start c) eqn:E; cbn.
  - exists (S e). split_and!; [done|lia|right; by exists c|lia].
  - destruct IH as (k & -> & Hk & Hs & Hall); [lia|]. exists k. split_and!; [done|lia|done|].
    intros j d Hj Hd. destruct (decide (j = S e)) as [->|]; [congruence|]. apply (Hall j); [lia|done].
Qed.

Lemma truncate_text_outcome s maxBytes :
  valid_string s = true → (0 < maxBytes)%Z →
  ∃ p flag, TruncateCellText s maxBytes = Ok (p, flag)
    ∧ p `prefix_of` s ∧ valid_string p = true ∧ (Z.of_nat (length p) ≤ maxBytes)%Z
    ∧ (∀ q, q `prefix_of` s → valid_string q = true → (Z.of_nat (length q) ≤ maxBytes)%Z → length q ≤ length p)
    ∧ (flag = true ↔ p ≠ s) ∧ (flag = true ↔ (maxBytes < Z.of_nat (length s))%Z).
Proof.
  intros Hs Hm. unfold TruncateCellText.
  rewrite (proj2 (Z.leb_gt maxBytes 0)), Hs by lia. cbn [negb].
  destruct (Z.of_nat (length s) <=? maxBytes)%Z eqn:El; bool_inv.
  { exists s, false. split_and!; try done.
    - intros q Hq _ _. by apply prefix_length.
    - split; [done|lia]. }
  destruct (back_to_start_spec s (Z.to_nat maxBytes)) as (k & -> & Hk & Hstart & Hall); [lia|].
  assert (k < length s) as Hks by lia. destruct (lookup_lt_is_Some_2 s k Hks) as [c Hc].
  assert (length (take k s) = k) as Hlen by (rewrite length_take; lia).
  exists (take k s), true. split_and!; try done.
  - apply prefix_take.
  - destruct Hstart as [->|(d & Hd & Hstart)]; [by rewrite take_0|].
    by rewrite (valid_cut s Hs k d Hd).
  - lia.
  - intros q [t ->] Hq Hle. rewrite Hlen. destruct (decide (length q ≤ k)); [done|exfalso].
    destruct (lookup_lt_is_Some_2 (q ++ t) (length q)) as [d Hd]; [lia|].
    pose proof (valid_cut _ Hs _ _ Hd) as Hv. rewrite take_app_length, Hq in Hv.
    rewrite (Hall (length q) d) in Hv by (done || lia). done.
  - split; [intros _ Heq|done]. rewrite Heq in Hlen. lia.
Qed.

(** On valid UTF-8 and a positive budget truncation always succeeds: the
    output is a valid prefix within the budget and the longest such prefix, it
    is the whole input when that fits, and the flag is set exactly when bytes
    were dropped. *)
Theorem truncate_text_longest_prefix s maxBytes :
  valid_string s = true → (0 < maxBytes)%Z →
  ∃ p flag, TruncateCellText s maxBytes = Ok (p, flag)
    ∧ p `prefix_of` s ∧ valid_string p = true ∧ (Z.of_nat (length p) ≤ maxBytes)%Z
    ∧ (∀ q, q `prefix_of` s → valid_string q = true → (Z.of_nat (length q) ≤ maxBytes)%Z → length q ≤ length p)
    ∧ (flag = true ↔ p ≠ s) ∧ (flag = true ↔ (maxBytes < Z.of_nat (length s))%Z).
Proof. apply truncate_text_outcome. Qed.

(** A budget that falls inside a three-byte rune. *)
Definition sample_text : bytes := gs "ab" ++ [bz 228; bz 184; bz 173] ++ gs "c".
Lemma truncate_text_longest_prefix_witness :
  valid_string sample_text = true ∧ TruncateCellText sample_text 4 = Ok (gs "ab", true).
Proof.
  assert (valid_string sample_text = true) as Hv by (vm_compute; reflexivity).
  split; [exact Hv|].
  destruct (truncate_text_longest_prefix sample_text 4 Hv ltac:(lia)) as (p & f & H & _).
  rewrite H. rewrite <- H. vm_compute. reflexivity.
Defined.

Lemma truncate_text_idem s m p f :
  TruncateCellText s m = Ok (p, f) → TruncateCellText p m = Ok (p, false).
Proof.
  intros H. assert ((0 < m)%Z ∧ valid_string s = true) as [Hm Hs].
  { unfold TruncateCellText in H. destruct (m <=? 0)%Z eqn:?, (valid_string s); bool_inv; done. }
  destruct (truncate_text_outcome s m Hs Hm) as (p' & f' & H' & _ & Hv & Hle & _).
  rewrite H in H'. injection H' as <- <-. unfold TruncateCellText.
  by rewrite (proj2 (Z.leb_gt m 0)), Hv, (proj2 (Z.leb_le _ _) Hle) by lia.
Qed.

Lemma truncate_value_idem v m w f :
  TruncateCellValue v m = Ok (w, f) → TruncateCellValue w m = Ok (w, false).
Proof.
  destruct v as [|s| | | | |]; cbn; intros H; try discriminate H; try (by injection H as <- <-).
  destruct (TruncateCellText s m) as [[t b]|] eqn:E; [|done]. cbn in H. injection H as <- <-.
  cbn. by rewrite (truncate_text_idem _ _ _ _ E).
Qed.

Lemma truncate_cells_spec i values fl m out flags :
  truncate_cells i values fl m = Ok (out, flags) →
  length out = length values ∧ length flags = length values
  ∧ (∀ j v, values !! j = Some v → ∃ w b, TruncateCellValue v m = Ok (w, b)
      ∧ out !! j = Some w ∧ flags !! j = Some (b || fl (i + j))).
Proof.
  revert i out flags. induction values as [|v values IH]; intros i out flags H; cbn in H.
  { injection H as <- <-. split_and!; [done..|]. intros j v. by rewrite lookup_nil. }
  destruct (TruncateCellValue v m) as [[w b]|] eqn:Ev; [|done].
  destruct (truncate_cells (S i) values fl m) as [[out' flags']|] eqn:Er; [|done].
  cbn in H. injection H as <- <-. destruct (IH _ _ _ Er) as (Ho & Hf & Hall). cbn.
  split_and!; [by f_equal..|]. intros [|j] u Hu; cbn in *.
  - injection Hu as ->. exists w, b. by rewrite Nat.add_0_r.
  - destruct (Hall j u Hu) as (w' & b' & ?&?&?). exists w', b'. by rewrite Nat.add_succ_r.
Qed.

(** Re-running the loop on its own output with its own flags changes nothing. *)
Lemma truncate_cells_idem i values fl fl' m out flags :
  truncate_cells i values fl m = Ok (out, flags) →
  (∀ j b, flags !! j = Some b → fl' (i + j) = b) →
  truncate_cells i out fl' m = Ok (out, flags).
Proof.
  revert i out flags. induction values as [|v values IH]; intros i out flags H Hfl; cbn in H.
  { by injection H as <- <-. }
  destruct (TruncateCellValue v m) as [[w b]|] eqn:Ev; [|done].
  destruct (truncate_cells (S i) values fl m) as [[out' flags']|] eqn:Er; [|done].
  cbn in H. injection H as <- <-. cbn. rewrite (truncate_value_idem _ _ _ _ Ev). cbn.
  rewrite (IH (S i) out' flags' Er).
  - cbn. pose proof (Hfl 0 _ eq_refl) as H0. rewrite Nat.add_0_r in H0. by rewrite H0.
  - intros j c Hj. rewrite Nat.add_succ_comm. by apply (Hfl (S j)).
Qed.

(** Row truncation keeps the row's width, truncates every cell by the
    cell rule, never clears an earlier flag, and is idempotent: feeding a
    delivered row and its flags back changes neither. *)
Theorem truncate_row_spec values prior m out flags :
  TruncateRow values prior m = Ok (out, flags) →
  length out = length values ∧ length flags = length values
  ∧ (∀ j v, values !! j = Some v → ∃ w b, TruncateCellValue v m = Ok (w, b) ∧ out !! j = Some w
      ∧ flags !! j = Some (b || match prior with Some p => nth j p false | None => false end))
  ∧ TruncateRow out (Some flags) m = Ok (out, flags).
Proof.
  intros H. assert (∃ fl, truncate_cells 0 values fl m = Ok (out, flags)
    ∧ ∀ j, fl j = match prior with Some p => nth j p false | None => false end) as (fl & Hfl & Hp).
  { unfold TruncateRow in H. destruct prior as [p|].
    - destruct (length p =? length values)%nat eqn:?; [|done]. cbn in H. by eexists.
    - by eexists. }
  destruct (truncate_cells_spec _ _ _ _ _ _ Hfl) as (Ho & Hf & Hall). split_and!; [done..| |].
  - intros j v Hv. destruct (Hall j v Hv) as (w & b & ?&?&Hfj). exists w, b. by rewrite Hfj, Hp.
  - unfold TruncateRow. rewrite Ho, Hf, Nat.eqb_refl. cbn [negb].
    apply (truncate_cells_idem _ _ _ _ _ _ _ Hfl). intros j b Hj. by apply nth_lookup_Some.
Qed.

Lemma truncate_row_spec_witness :
  TruncateRow [CString sample_text; CInt64 5] (Some [false; true]) 4 = Ok ([CString (gs "ab"); CInt64 5], [true; true])
  ∧ TruncateRow [CString (gs "ab"); CInt64 5] (Some [true; true]) 4 = Ok ([CString (gs "ab"); CInt64 5], [true; true]).
Proof.
  assert (TruncateRow [CString sample_text; CInt64 5] (Some [false; true]) 4
          = Ok ([CString (gs "ab"); CInt64 5], [true; true])) as H by (vm_compute; reflexivity).
  split; [exact H|]. apply (truncate_row_spec _ _ _ _ _ H).
Defined.

(** ** The matrix and the gate *)

(** The page and its evidence are aligned cell for cell. *)
Definition aligned (n : nat) (rows : page_rows) (m : matrix) : Prop :=
  Forall (λ r, length r = n) (rows_of rows)
  ∧ match m with
    | None => rows_of rows = []
    | Some mm => length mm = length (rows_of rows) ∧ Forall (λ r, length r = n) mm
    end.

Lemma existsb_width {A} n (l : list (list A)) :
  existsb (λ r, negb (length r =? n)%nat) l = false ↔ Forall (λ r, length r = n) l.
Proof.
  induction l as [|r l IH]; cbn; [by split|].
  rewrite orb_false_iff, negb_false_iff, Nat.eqb_eq, Forall_cons. by rewrite IH.
Qed.

Lemma matrix_valid n rows m : validateCellTruncatedMatrix n rows m = Ok tt ↔ aligned n rows m.
Proof.
  unfold validateCellTruncatedMatrix, aligned. rewrite <- existsb_width.
  destruct (existsb _ (rows_of rows)) eqn:Er; [by split; [|intros []]|].
  destruct m as [mm|].
  - rewrite <- existsb_width. destruct (length mm =? _)%nat eqn:El; cbn; bool_inv.
    + destruct (existsb _ mm); cbn; split; try done. by intros (_&_&?).
    + split; [done|]. by intros (_&?&_).
  - destruct (rows_of rows); cbn; split; try done. by intros [].
Qed.

Lemma clone_matrix m : CloneCellTruncated m = m.
Proof. destruct m as [m|]; [|done]. cbn. f_equal. induction m; cbn; by f_equal. Qed.

Lemma clone_rows r : cloneRows r = r.
Proof. destruct r as [r|]; [|done]. cbn. f_equal. induction r; cbn; by f_equal. Qed.

Definition no_cell_truncated (m : matrix) : Prop :=
  ∀ row t, row ∈ rows_of m → t ∈ row → t = false.

Lemma any_truncated_false m : AnyCellTruncated m = false ↔ no_cell_truncated m.
Proof.
  unfold AnyCellTruncated, no_cell_truncated. split.
  - intros H row t Hrow Ht. destruct t; [|done]. rewrite <- H. symmetry.
    apply existsb_exists. exists row. split; [by apply list_elem_of_In|].
    apply existsb_exists. exists true. split; [by apply list_elem_of_In|done].
  - intros H. apply not_true_is_false. intros (row & Hrow & Hr)%existsb_exists.
    apply existsb_exists in Hr as (t & Ht & ->).
    assert (true = false) by (apply (H row); by apply list_elem_of_In). done.
Qed.

Lemma capability_spec caps : hasCellTruncatedCapability caps = true ↔ CapabilityCellTruncated ∈ caps.
Proof.
  unfold hasCellTruncatedCapability. rewrite existsb_exists. setoid_rewrite bool_decide_eq_true. split.
  - intros (c & Hc & ->). by apply list_elem_of_In.
  - intros H. eexists. split; [by apply list_elem_of_In|done].
Qed.

Lemma delivery_gate_outcome q d :
  DecideResultDelivery q = Ok d ↔
  di_UpstreamErr q = None ∧ aligned (length (di_Columns q)) (di_Rows q) (di_CellTruncated q)
  ∧ (no_cell_truncated (di_CellTruncated q) ∨ CapabilityCellTruncated ∈ di_Capabilities q)
  ∧ d = DeliveryDecision (di_Rows q) (di_CellTruncated q).
Proof.
  unfold DecideResultDelivery. destruct (di_UpstreamErr q) as [e|]; [by split; [|intros []]|].
  rewrite <- matrix_valid, <- any_truncated_false, <- capability_spec.
  destruct (validateCellTruncatedMatrix _ _ _) as [[]|e]; cbn; [|by split; [|intros (_&?&_)]].
  rewrite clone_matrix, clone_rows.
  destruct (AnyCellTruncated _), (hasCellTruncatedCapability _); cbn; split; try done;
    try (intros [= <-]; auto); naive_solver.
Qed.

(** The gate releases a page exactly when nothing failed upstream, the
    page and its evidence are aligned, and either no cell was truncated or
    the client declared the capability; what it releases is the page and the
    evidence unchanged. *)
Theorem delivery_gate_spec q d :
  DecideResultDelivery q = Ok d ↔
  di_UpstreamErr q = None ∧ aligned (length (di_Columns q)) (di_Rows q) (di_CellTruncated q)
  ∧ (no_cell_truncated (di_CellTruncated q) ∨ CapabilityCellTruncated ∈ di_Capabilities q)
  ∧ d = DeliveryDecision (di_Rows q) (di_CellTruncated q).
Proof. apply delivery_gate_outcome. Qed.

(** A refusal never masks an earlier failure: the upstream error always
    comes back unchanged, corrupt evidence is reported as such even to a client
    without the capability, and the upgrade refusal is returned only for an
    aligned page with a truncated cell. *)
Theorem delivery_error_priority q e :
  DecideResultDelivery q = Err e →
  match di_UpstreamErr q with
  | Some up => e = up
  | None =>
    (e = ErrResultContractInvalid ∧ ¬ aligned (length (di_Columns q)) (di_Rows q) (di_CellTruncated q))
    ∨ (e = ErrResultContractUpgradeRequired ∧ aligned (length (di_Columns q)) (di_Rows q) (di_CellTruncated q)
       ∧ ¬ no_cell_truncated (di_CellTruncated q) ∧ CapabilityCellTruncated ∉ di_Capabilities q)
  end.
Proof.
  unfold DecideResultDelivery. destruct (di_UpstreamErr q) as [up|]; [by intros [= ->]|].
  rewrite <- matrix_valid, <- any_truncated_false, <- capability_spec.
  destruct (validateCellTruncatedMatrix _ _ _) as [[]|e'] eqn:Ev; cbn.
  - destruct (AnyCellTruncated _), (hasCellTruncatedCapability _); cbn; try done.
    intros [= <-]. right. by split_and!.
  - intros [= <-]. left. split; [|done]. unfold validateCellTruncatedMatrix in Ev.
    repeat case_match; unfold guard_err in *; repeat case_match; by simplify_eq.
Qed.

Definition sample_column : QueryResultColumn :=
  ResultColumn (gs "id") (gs "BIGINT") false ResultDisclosureRawCopyAllowed true.
Definition sample_delivery (caps : list bytes) : ResultDeliveryInput :=
  DeliveryInput None [sample_column] (Some [[CString (gs "ab")]]) (Some [[true]]) caps.

Lemma delivery_error_priority_witness :
  DecideResultDelivery (sample_delivery [gs "other"]) = Err ErrResultContractUpgradeRequired
  ∧ CapabilityCellTruncated ∉ [gs "other"].
Proof.
  assert (DecideResultDelivery (sample_delivery [gs "other"]) = Err ErrResultContractUpgradeRequired) as H
    by (vm_compute; reflexivity).
  split; [exact H|].
  destruct (delivery_error_priority _ _ H) as [[H' _]|(_&_&_&H')]; [discriminate H'|exact H'].
Defined.

Lemma check_columns_ok i cols : check_columns i cols = Ok tt ↔ Forall (λ c, copyable c = true) cols.
Proof.
  revert i. induction cols as [|c cols IH]; intros i; cbn; [by split|].
  rewrite Forall_cons. destruct (copyable c); cbn; [rewrite IH; naive_solver|by split; [|intros []]].
Qed.

Lemma copyable_spec c :
  copyable c = true ↔ col_DisplayMode c = ResultDisclosureRawCopyAllowed ∧ col_CopyAllowed c = true.
Proof.
  unfold copyable. rewrite negb_true_iff, orb_false_iff, !negb_false_iff, bool_decide_eq_true. done.
Qed.

(** A page may be exported as CSV exactly when it has columns, every
    column is raw and copyable, the evidence is complete and no delivered cell
    was truncated; such a page passes the delivery gate for every client. *)
Theorem csv_export_spec columns rows m :
  (DecideCSVExport columns rows m = Ok tt ↔
   columns ≠ [] ∧ Forall (λ c, col_DisplayMode c = ResultDisclosureRawCopyAllowed ∧ col_CopyAllowed c = true) columns
   ∧ aligned (length columns) rows m ∧ no_cell_truncated m)
  ∧ (DecideCSVExport columns rows m = Ok tt → ∀ caps,
     DecideResultDelivery (DeliveryInput None columns rows m caps) = Ok (DeliveryDecision rows m)).
Proof.
  assert (DecideCSVExport columns rows m = Ok tt ↔
   columns ≠ [] ∧ Forall (λ c, col_DisplayMode c = ResultDisclosureRawCopyAllowed ∧ col_CopyAllowed c = true) columns
   ∧ aligned (length columns) rows m ∧ no_cell_truncated m) as Hspec.
  { unfold DecideCSVExport. setoid_rewrite <- copyable_spec.
    rewrite <- (check_columns_ok 0), <- matrix_valid, <- any_truncated_false.
    destruct columns as [|c columns]; cbn [length Nat.eqb]; [naive_solver|].
    destruct (check_columns 0 (c :: columns)) as [[]|]; cbn; [|naive_solver].
    destruct (validateCellTruncatedMatrix _ _ _) as [[]|]; cbn; [|naive_solver].
    destruct (AnyCellTruncated m); naive_solver. }
  split; [done|]. intros (_&_&Ha&Hn)%Hspec caps. apply delivery_gate_outcome. cbn. auto.
Qed.

Lemma csv_export_spec_witness :
  DecideCSVExport [sample_column] (Some [[CInt64 1]]) (Some [[false]]) = Ok tt
  ∧ DecideResultDelivery (DeliveryInput None [sample_column] (Some [[CInt64 1]]) (Some [[false]]) [])
    = Ok (DeliveryDecision (Some [[CInt64 1]]) (Some [[false]])).
Proof.
  assert (DecideCSVExport [sample_column] (Some [[CInt64 1]]) (Some [[false]]) = Ok tt) as H
    by (vm_compute; reflexivity).
  split; [exact H|]. apply (csv_export_spec _ _ _), H.
Defined.
