(* ===== verification/ClaimStore.v ===== *)
(** * The execution-claim protocol store

    [internal/repository/mysql/query_execution_claim_repository.go] and the
    evidence-pair writer of [query_execution_repository.go]. The tables are
    finite maps with the keys the migrations declare; every database call can
    fail, and a commit can fail with either outcome. A transaction works on a
    staged copy: its locking read of the claim row makes concurrent finalizers
    of one key run one after the other, so a transaction is one step. *)
From S2P Require Import Prelude GoText ExecModel.

(** ** Tables *)

(** The two nullable actor columns. *)
Abbreviation actor_columns := (option Z * option Z)%type.

(** A row of [query_execution_claims]; its key is [(target, client_execution_id)]. *)
Record claim_row : Type := ClaimRow {
  cr_actor : actor_columns;
  cr_database : bytes;
  cr_schema : bytes;
  cr_digest : bytes;
  cr_timeout : option Z;
  cr_execution : option Z;
  cr_claimed_at : Z;
}.

(** A row of [query_executions]; its key is the auto-increment id. *)
Record execution_row : Type := ExecutionRow {
  xr_target : Z;
  xr_actor : actor_columns;
  xr_engine : bytes;
  xr_database : bytes;
  xr_schema : bytes;
  xr_statement_digest : bytes;
  xr_statement_preview : bytes;
  xr_full_statement : option bytes;
  xr_status : bytes;
  xr_row_count : Z;
  xr_duration : Z;
  xr_error_code : bytes;
  xr_error_message : bytes;
  xr_backend_pid : option Z;
  xr_remote_state : bytes;
  xr_key : option bytes;
  xr_created_at : Z;
}.

Record audit_row : Type := AuditRow {
  ar_actor : actor_columns;
  ar_target : Z;
  ar_event : bytes;
  ar_result : bytes;
}.

Record db : Type := Db {
  claims : gmap (Z * bytes) claim_row;
  executions : gmap Z execution_row;
  audits : list audit_row;
  next_id : Z;
  failures : Z; (** [QueryEvidencePersistenceFailures] *)
}.

Definition empty_db : db := Db ∅ ∅ [] 1 0.

(** ** Errors and faults *)

Inductive ctx_kind : Type := CtxCanceled | CtxDeadline.

Inductive store_error : Type :=
  | ErrQueryExecutionClaimInvalid (why : option model_error)
  | ErrQueryExecutionClaimExists
  | ErrQueryExecutionClaimConflict
  | ErrQueryExecutionClaimNotLinked
  | ErrQueryExecutionClaimBrokenLink
  | ErrClaimStore (cause : option ctx_kind)
  | ErrQueryEvidencePairFailed
  | ErrActorIdentity
  | ErrNoRows.

#[export] Instance ctx_kind_eq_dec : EqDecision ctx_kind.
Proof. solve_decision. Defined.
#[export] Instance store_error_eq_dec : EqDecision store_error.
Proof. solve_decision. Defined.

Abbreviation stored A := (result store_error A).

(** What a driver call reports: nothing, or an error that may wrap a context sentinel. *)
Abbreviation fault := (option (option ctx_kind)).

(** [claimStoreError]: the context's own error first, else the sentinel the
    driver error wraps, else the bare store error. *)
Definition claimStoreError (ctx_err : option ctx_kind) (err : option ctx_kind) : store_error :=
  match ctx_err with
  | Some c => ErrClaimStore (Some c)
  | None => match err with
            | Some CtxCanceled => ErrClaimStore (Some CtxCanceled)
            | Some CtxDeadline => ErrClaimStore (Some CtxDeadline)
            | None => ErrClaimStore None
            end
  end.

(** ** Identity columns *)

Definition claimActorArgs (identity : QueryExecutionIdentity) : result model_error actor_columns :=
  _ ← identity_Validate identity;
  if id_Kind identity =?b QueryExecutionActorUser then Ok (Some (id_ID identity), None)
  else Ok (None, Some (id_ID identity)).

Definition executionActorArgs (rec : QueryExecutionRecord) : stored actor_columns :=
  if eqb (er_ActorUserID rec =? 0)%Z (er_ActorMachinePrincipalID rec =? 0)%Z then Err ErrActorIdentity
  else if negb (er_ActorUserID rec =? 0)%Z then Ok (Some (er_ActorUserID rec), None)
  else Ok (None, Some (er_ActorMachinePrincipalID rec)).

(** A nullable column against a wanted value: [None] is SQL NULL and Go's nil. *)
Definition match_column (stored want : option Z) : bool :=
  match want with
  | None => match stored with None => true | Some _ => false end
  | Some id => match stored with Some s => (s =? id)%Z | None => false end
  end.

Definition claimIdentityMatches (c : actor_columns) (cDB cSchema : bytes) (want : actor_columns)
    (database schema : bytes) : bool :=
  if negb (cDB =?b database) || negb (cSchema =?b schema) then false
  else match_column c.1 want.1 && match_column c.2 want.2.

(** [executionRecordArgs]: the bound row; [now] is the column default. *)
Definition executionRecordArgs (rec : QueryExecutionRecord) (now : Z) : stored execution_row :=
  actor ← executionActorArgs rec;
  let fullStatement :=
    if negb (er_ActorUserID rec =? 0)%Z && (er_ActorMachinePrincipalID rec =? 0)%Z
       && (er_Status rec =?b QueryExecutionSuccess) && negb (er_FullStatement rec =?b [])
    then Some (er_FullStatement rec) else None in
  let clientExecutionID :=
    match er_ClientExecutionID rec with
    | Some k => if negb (k =?b []) then Some k else None
    | None => None
    end in
  Ok (ExecutionRow (er_TargetResourceID rec) actor (er_Engine rec) (er_DatabaseName rec) (er_SchemaName rec)
        (er_StatementDigest rec) (er_StatementPreview rec) fullStatement (er_Status rec)
        (er_RowCount rec) (er_DurationMs rec) (er_ErrorCode rec) (er_ErrorMessage rec)
        (er_BackendPID rec) (er_RemoteState rec) clientExecutionID (default now (er_CreatedAt rec))).

(** ** Statements *)

Definition set_claims (f : gmap (Z * bytes) claim_row → gmap (Z * bytes) claim_row) (s : db) : db :=
  Db (f (claims s)) (executions s) (audits s) (next_id s) (failures s).

(** [insertExecutionSQL]: refuses a second row under one [(target, key)];
    NULL keys never collide. *)
Definition key_taken (row : execution_row) (s : db) : bool :=
  match xr_key row with
  | None => false
  | Some k => bool_decide (map_Exists (λ _ r, xr_target r = xr_target row ∧ xr_key r = Some k) (executions s))
  end.
Definition insert_execution (row : execution_row) (s : db) : option (Z * db) :=
  if key_taken row s then None
  else Some (next_id s, Db (claims s) (<[next_id s := row]> (executions s)) (audits s) (next_id s + 1) (failures s)).

(** [insertExecutionAuditSQL]. *)
Definition insert_audit (row : audit_row) (s : db) : db :=
  Db (claims s) (executions s) (audits s ++ [row]) (next_id s) (failures s).

(** [linkClaimExecutionSQL]: the rows affected and the new state. *)
Definition link_claim (id : Z) (target : Z) (key : bytes) (actor : actor_columns) (database schema : bytes)
    (s : db) : Z * db :=
  match claims s !! (target, key) with
  | Some c =>
    if bool_decide (cr_execution c = None) && match_column (cr_actor c).1 actor.1
       && match_column (cr_actor c).2 actor.2 && (cr_database c =?b database) && (cr_schema c =?b schema)
    then (1%Z, set_claims <[(target, key) := ClaimRow (cr_actor c) (cr_database c) (cr_schema c) (cr_digest c)
                                   (cr_timeout c) (Some id) (cr_claimed_at c)]> s)
    else (0%Z, s)
  | None => (0%Z, s)
  end.

(** A rollback restores the tables; auto-increment ids are not given back. *)
Definition rollback (s tx : db) : db := Db (claims s) (executions s) (audits s) (next_id tx) (failures s).

(** [recordQueryEvidencePersistenceFailure] and the fixed sentinel. *)
Definition pair_failed (s : db) : stored Z * db :=
  (Err ErrQueryEvidencePairFailed, Db (claims s) (executions s) (audits s) (next_id s) (failures s + 1)).

(** ** The claim gate *)

(** The insert's own outcome: applied, refused by the driver before or after
    the server applied it, and the error of the classifying read. *)
Record claim_faults : Type := ClaimFaults {
  kf_ctx : option ctx_kind;      (** [ctx.Err()] when an error is mapped *)
  kf_insert : fault;
  kf_insert_applied : bool;      (** the failed insert reached the table *)
  kf_read : fault;
}.
Definition no_claim_faults : claim_faults := ClaimFaults None None false None.

Definition claim_row_of (c : QueryExecutionClaimInput) (actor : actor_columns) : claim_row :=
  ClaimRow actor (ci_DatabaseName c) (ci_SchemaName c) (ci_RequestDigest c)
    (Some (ci_AttemptTimeoutMs c)) None (default 0%Z (ci_ClaimedAt c)).

Definition TryClaimExecution (c : QueryExecutionClaimInput) (f : claim_faults) (s : db) : stored unit * db :=
  match claim_Validate c with
  | Err e => (Err (ErrQueryExecutionClaimInvalid (Some e)), s)
  | Ok _ =>
  match claimActorArgs (ci_Identity c) with
  | Err e => (Err (ErrQueryExecutionClaimInvalid (Some e)), s)
  | Ok actor =>
    let key := (ci_TargetResourceID c, ci_ClientExecutionID c) in
    let inserted := set_claims <[key := claim_row_of c actor]> s in
    match kf_insert f, claims s !! key with
    | Some e, old => (Err (claimStoreError (kf_ctx f) e),
                      if kf_insert_applied f && bool_decide (old = None) then inserted else s)
    | None, None => (Ok tt, inserted)
    | None, Some old =>
      match kf_read f with
      | Some e => (Err (claimStoreError (kf_ctx f) e), s)
      | None => (Err (if cr_digest old =?b ci_RequestDigest c then ErrQueryExecutionClaimExists
                      else ErrQueryExecutionClaimConflict), s)
      end
    end
  end end.

(** ** The evidence pair *)

Inductive commit_outcome : Type :=
  | CommitOk
  | CommitLost     (** an error, nothing committed *)
  | CommitUnknown. (** an error, yet the server committed *)

(** Which of the transaction's calls fail. *)
Record pair_faults : Type := PairFaults {
  pf_begin : bool; pf_select : bool; pf_insert : bool; pf_last_id : bool;
  pf_audit : bool; pf_link : bool; pf_rows : bool; pf_commit : commit_outcome;
}.
Definition no_pair_faults : pair_faults := PairFaults false false false false false false false CommitOk.

Definition commit (s tx : db) (id : Z) (f : pair_faults) : stored Z * db :=
  match pf_commit f with
  | CommitOk => (Ok id, tx)
  | CommitLost => pair_failed (rollback s tx)
  | CommitUnknown => pair_failed tx
  end.

Definition is_nil_key (k : option bytes) : bool :=
  match k with None => true | Some k => k =?b [] end.

(** The writes of one pair inside a transaction: the history row, then its audit row. *)
Definition stage_pair (row : execution_row) (eventType res : bytes) (f : pair_faults) (s : db)
    (continue : Z → db → stored Z * db) : stored Z * db :=
  if pf_insert f then pair_failed s
  else match insert_execution row s with
  | None => pair_failed s
  | Some (id, tx) =>
    if pf_last_id f then pair_failed (rollback s tx)
    else if pf_audit f then pair_failed (rollback s tx)
    else continue id (insert_audit (AuditRow (xr_actor row) (xr_target row) eventType res) tx)
  end.

Definition InsertExecutionWithAudit (rec : QueryExecutionRecord) (eventType res : bytes) (now : Z)
    (f : pair_faults) (s : db) : stored Z * db :=
  if negb (is_nil_key (er_ClientExecutionID rec)) then (Err (ErrQueryExecutionClaimInvalid None), s)
  else match executionRecordArgs rec now with
  | Err e => (Err e, s)
  | Ok row =>
    if pf_begin f then pair_failed s
    else stage_pair row eventType res f s (λ id tx, commit s tx id f)
  end.

Definition finalize_checks (rec : QueryExecutionRecord) (key : bytes) : result model_error unit :=
  _ ← ValidateClientExecutionID key;
  _ ← ValidateStatus (er_Status rec);
  remote_Validate (er_RemoteState rec).

Definition FinalizeClaimWithAudit (rec : QueryExecutionRecord) (eventType res : bytes) (now : Z)
    (f : pair_faults) (s : db) : stored Z * db :=
  match er_ClientExecutionID rec with
  | None => (Err (ErrQueryExecutionClaimInvalid None), s)
  | Some key =>
    if key =?b [] then (Err (ErrQueryExecutionClaimInvalid None), s)
    else match finalize_checks rec key with
    | Err e => (Err (ErrQueryExecutionClaimInvalid (Some e)), s)
    | Ok _ =>
    match executionRecordArgs rec now with
    | Err _ => (Err (ErrQueryExecutionClaimInvalid None), s)
    | Ok row =>
      if pf_begin f || pf_select f then pair_failed s
      else match claims s !! (er_TargetResourceID rec, key) with
      | None => (Err ErrQueryExecutionClaimNotLinked, s)
      | Some c =>
        if negb (bool_decide (cr_execution c = None))
           || negb (claimIdentityMatches (cr_actor c) (cr_database c) (cr_schema c) (xr_actor row)
                      (er_DatabaseName rec) (er_SchemaName rec))
        then (Err ErrQueryExecutionClaimNotLinked, s)
        else stage_pair row eventType res f s (λ id tx,
          if pf_link f then pair_failed (rollback s tx)
          else
            let '(n, tx') := link_claim id (er_TargetResourceID rec) key (xr_actor row)
                               (er_DatabaseName rec) (er_SchemaName rec) tx in
            if pf_rows f then pair_failed (rollback s tx')
            else if negb (n =? 1)%Z then (Err ErrQueryExecutionClaimNotLinked, rollback s tx')
            else commit s tx' id f)
      end
    end end
  end.

(** ** The point read *)

Definition claim_of_row (target : Z) (key : bytes) (c : claim_row) (execution : Z) : QueryExecutionClaim :=
  Claim target key (default 0%Z (cr_actor c).1) (default 0%Z (cr_actor c).2) (cr_database c) (cr_schema c)
    (cr_digest c) (default 0%Z (cr_timeout c)) execution (cr_claimed_at c).

(** [executions LEFT JOIN] equality of the row's columns with the claim's. *)
Definition link_matches (target : Z) (key : bytes) (c : claim_row) (e : execution_row) : bool :=
  bool_decide (xr_key e = Some key)
  && (xr_target e =? target)%Z && (xr_database e =?b cr_database c) && (xr_schema e =?b cr_schema c)
  && bool_decide ((xr_actor e).1 = (cr_actor c).1) && bool_decide ((xr_actor e).2 = (cr_actor c).2).

Definition record_of_row (id : Z) (e : execution_row) : QueryExecutionRecord :=
  ExecutionRecord id (xr_target e) (default 0%Z (xr_actor e).1) (default 0%Z (xr_actor e).2) (xr_engine e)
    (xr_database e) (xr_schema e) [] [] [] (xr_status e) (xr_row_count e) (xr_duration e)
    (xr_error_code e) (xr_error_message e) (xr_backend_pid e) (xr_remote_state e) (xr_key e) (Some (xr_created_at e)).

Definition GetClaimWithExecution (target : Z) (database key : bytes) (actor : QueryExecutionIdentity)
    (ctx : option ctx_kind) (f : fault) (s : db) : stored QueryExecutionClaimView :=
  match claimActorArgs actor with
  | Err e => Err (ErrQueryExecutionClaimInvalid (Some e))
  | Ok want =>
    match f with
    | Some e => Err (claimStoreError ctx e)
    | None =>
      match claims s !! (target, key) with
      | None => Err ErrNoRows
      | Some c =>
        if negb ((cr_database c =?b database) && match_column (cr_actor c).1 want.1 && match_column (cr_actor c).2 want.2)
        then Err ErrNoRows
        else match cr_execution c with
        | None => Ok (ClaimView (claim_of_row target key c 0) None)
        | Some id =>
          match executions s !! id with
          | None => Err ErrQueryExecutionClaimBrokenLink
          | Some e =>
            if negb (link_matches target key c e) then Err ErrQueryExecutionClaimBrokenLink
            else if negb (is_ok (ValidateStatus (xr_status e))) then Err ErrQueryExecutionClaimBrokenLink
            else if negb (is_ok (remote_Validate (xr_remote_state e))) then Err ErrQueryExecutionClaimBrokenLink
            else Ok (ClaimView (claim_of_row target key c id) (Some (record_of_row id e)))
          end
        end
      end
    end
  end.

(** ** What one operation does to the tables *)

(** No row changed; only ids may have been used up. *)
Definition same_tables (s s' : db) : Prop :=
  claims s' = claims s ∧ executions s' = executions s ∧ audits s' = audits s ∧ (next_id s ≤ next_id s')%Z.

(** One history row and its audit row were committed together, with the claims [cls]. *)
Definition committed_pair (cls : gmap (Z * bytes) claim_row) (row : execution_row) (a : audit_row) (s s' : db) : Prop :=
  claims s' = cls ∧ executions s' = <[next_id s := row]> (executions s) ∧ audits s' = audits s ++ [a]
  ∧ next_id s' = (next_id s + 1)%Z.

(** The failure counter moves by one exactly with the persistence sentinel. *)
Definition counted (r : stored Z) (s s' : db) : Prop :=
  failures s' = (failures s + if bool_decide (r = Err ErrQueryEvidencePairFailed) then 1 else 0)%Z.

(** An operation that writes a pair either commits all of it or nothing of it;
    success is returned only for a commit. *)
Definition pair_outcome (cls : gmap (Z * bytes) claim_row) (row : execution_row) (a : audit_row)
    (r : stored Z) (s s' : db) : Prop :=
  counted r s s' ∧
  ((committed_pair cls row a s s' ∧ (r = Ok (next_id s) ∨ r = Err ErrQueryEvidencePairFailed))
   ∨ (same_tables s s' ∧ ∃ e, r = Err e)).

Lemma same_tables_refl s : same_tables s s.
Proof. unfold same_tables. split_and!; done || lia. Qed.

Lemma insert_execution_spec row s :
  match insert_execution row s with
  | None => key_taken row s = true
  | Some (id, tx) => key_taken row s = false ∧ id = next_id s ∧ claims tx = claims s
      ∧ executions tx = <[next_id s := row]> (executions s) ∧ audits tx = audits s
      ∧ next_id tx = (next_id s + 1)%Z ∧ failures tx = failures s
  end.
Proof. unfold insert_execution. destruct (key_taken row s); cbn; auto 10. Qed.

Lemma commit_outcome_spec cls row a s tx f r s' :
  committed_pair cls row a s tx → failures tx = failures s →
  commit s tx (next_id s) f = (r, s') → pair_outcome cls row a r s s'.
Proof.
  intros Hc Hf H. unfold commit in H.
  destruct (pf_commit f); injection H as <- <-;
    destruct Hc as (?&?&?&?);
    unfold pair_outcome, counted, pair_failed, rollback, same_tables, committed_pair; cbn;
    (split; [case_bool_decide; simplify_eq; lia|]);
    [left; auto 10| right; split; [split_and!; done || lia|eauto] | left; auto 10].
Qed.

Lemma failed_outcome cls row a s s0 :
  same_tables s s0 → failures s0 = failures s →
  pair_outcome cls row a (pair_failed s0).1 s (pair_failed s0).2.
Proof.
  intros (?&?&?&?) Hf. unfold pair_outcome, counted, pair_failed, same_tables. cbn.
  split; [by rewrite Hf|]. right. split; [auto|eauto].
Qed.

Lemma rollback_same s tx : (next_id s ≤ next_id tx)%Z → same_tables s (rollback s tx).
Proof. done. Qed.

Lemma refused_outcome cls row a s s0 e :
  e ≠ ErrQueryEvidencePairFailed → same_tables s s0 → failures s0 = failures s →
  pair_outcome cls row a (Err e) s s0.
Proof.
  intros He Hs Hf. unfold pair_outcome, counted. rewrite bool_decide_eq_false_2 by congruence.
  split; [lia|]. right. eauto.
Qed.

(** The staged writes, for any continuation that finishes the transaction. *)
Lemma stage_pair_outcome row eventType res f s continue cls r s' :
  (∀ tx r s', claims tx = claims s → executions tx = <[next_id s := row]> (executions s) →
     audits tx = audits s ++ [AuditRow (xr_actor row) (xr_target row) eventType res] →
     next_id tx = (next_id s + 1)%Z → failures tx = failures s → key_taken row s = false →
     continue (next_id s) tx = (r, s') →
     pair_outcome cls row (AuditRow (xr_actor row) (xr_target row) eventType res) r s s') →
  stage_pair row eventType res f s continue = (r, s') →
  pair_outcome cls row (AuditRow (xr_actor row) (xr_target row) eventType res) r s s'.
Proof.
  intros Hc. unfold stage_pair. pose proof (insert_execution_spec row s) as Hi.
  assert (∀ s0, same_tables s s0 → failures s0 = failures s → pair_failed s0 = (r, s') →
    pair_outcome cls row (AuditRow (xr_actor row) (xr_target row) eventType res) r s s') as Hfail.
  { intros s0 Hs Hf H. pose proof (failed_outcome cls row (AuditRow (xr_actor row) (xr_target row) eventType res)
      s s0 Hs Hf) as Ho. by rewrite H in Ho. }
  destruct (pf_insert f); [apply Hfail; [apply same_tables_refl|done]|].
  destruct (insert_execution row s) as [[id tx]|]; [|apply Hfail; [apply same_tables_refl|done]].
  destruct Hi as (Hk & -> & H1 & H2 & H3 & H4 & H5).
  destruct (pf_last_id f); [apply Hfail; [apply rollback_same; lia|done]|].
  destruct (pf_audit f); [apply Hfail; [apply rollback_same; lia|done]|].
  intros H. refine (Hc _ _ _ _ _ _ _ _ Hk H); cbn; by rewrite ?H1, ?H2, ?H3, ?H4, ?H5.
Qed.

Definition linked (c : claim_row) (id : Z) : claim_row :=
  ClaimRow (cr_actor c) (cr_database c) (cr_schema c) (cr_digest c) (cr_timeout c) (Some id) (cr_claimed_at c).

Lemma match_column_eq stored want : match_column stored want = true ↔ stored = want.
Proof.
  destruct stored as [x|], want as [y|]; cbn; try (by split).
  rewrite Z.eqb_eq. split; [by intros ->|congruence].
Qed.

Lemma claim_identity_matches c db sc want db' sc' :
  claimIdentityMatches c db sc want db' sc' = true ↔ c = want ∧ db = db' ∧ sc = sc'.
Proof.
  unfold claimIdentityMatches. destruct c as [c1 c2], want as [w1 w2]. cbn.
  destruct (bool_decide (db = db')) eqn:Ed, (bool_decide (sc = sc')) eqn:Es; cbn; bool_inv;
    rewrite ?andb_true_iff, ?match_column_eq; naive_solver.
Qed.

Lemma link_claim_unlinked id target key actor database schema s c :
  claims s !! (target, key) = Some c → cr_execution c = None → cr_actor c = actor →
  cr_database c = database → cr_schema c = schema →
  link_claim id target key actor database schema s = (1%Z, set_claims <[(target, key) := linked c id]> s).
Proof.
  intros Hc He <- <- <-. unfold link_claim. rewrite Hc, He.
  by rewrite !(proj2 (match_column_eq _ _) eq_refl), !bool_decide_eq_true_2 by done.
Qed.

Lemma bound_row rec now row :
  executionRecordArgs rec now = Ok row →
  executionActorArgs rec = Ok (xr_actor row) ∧ xr_target row = er_TargetResourceID rec
  ∧ xr_database row = er_DatabaseName rec ∧ xr_schema row = er_SchemaName rec
  ∧ xr_status row = er_Status rec ∧ xr_remote_state row = er_RemoteState rec
  ∧ xr_key row = (if is_nil_key (er_ClientExecutionID rec) then None else er_ClientExecutionID rec).
Proof.
  unfold executionRecordArgs, is_nil_key. intros H.
  destruct (executionActorArgs rec) as [actor|] eqn:E; [|done]. cbn in H. injection H as <-. cbn.
  split_and!; try done. destruct (er_ClientExecutionID rec) as [k|]; [|done]. by repeat case_bool_decide.
Qed.

(** The claim a keyed finalize may write for. *)
Definition owns_claim (s : db) (rec : QueryExecutionRecord) (key : bytes) (row : execution_row) (c : claim_row) : Prop :=
  er_ClientExecutionID rec = Some key ∧ key ≠ [] ∧ claims s !! (xr_target row, key) = Some c
  ∧ cr_execution c = None ∧ cr_actor c = xr_actor row ∧ cr_database c = xr_database row ∧ cr_schema c = xr_schema row.

Definition audit_of (row : execution_row) (eventType res : bytes) : audit_row :=
  AuditRow (xr_actor row) (xr_target row) eventType res.

(** What a keyed finalize can do to the tables. *)
Lemma finalize_outcome rec eventType res now f s r s' :
  FinalizeClaimWithAudit rec eventType res now f s = (r, s') →
  counted r s s' ∧
  ((∃ key row c, executionRecordArgs rec now = Ok row ∧ finalize_checks rec key = Ok tt ∧ owns_claim s rec key row c
      ∧ committed_pair (<[(xr_target row, key) := linked c (next_id s)]> (claims s)) row
          (audit_of row eventType res) s s'
      ∧ (r = Ok (next_id s) ∨ r = Err ErrQueryEvidencePairFailed))
   ∨ (same_tables s s' ∧ ∃ e, r = Err e)).
Proof.
  intros H. match goal with |- ?G => assert (∀ e, e ≠ ErrQueryEvidencePairFailed → (Err e, s) = (r, s') → G) as Hrefuse end.
  { intros e He [= <- <-]. unfold counted. rewrite bool_decide_eq_false_2 by congruence.
    split; [lia|]. right. split; [apply same_tables_refl|eauto]. }
  unfold FinalizeClaimWithAudit in H.
  destruct (er_ClientExecutionID rec) as [key|] eqn:Ekey; [|by refine (Hrefuse _ _ H)].
  test_in H as Enil; [by refine (Hrefuse _ _ H)|].
  destruct (finalize_checks rec key) as [[]|] eqn:Echk; [|by refine (Hrefuse _ _ H)].
  destruct (executionRecordArgs rec now) as [row|] eqn:Erow; [|by refine (Hrefuse _ _ H)].
  destruct (bound_row _ _ _ Erow) as (_ & Ht & Hdb & Hsc & _).
  rewrite <- Ht, <- Hdb, <- Hsc in H.
  destruct (pf_begin f || pf_select f).
  { injection H as <- <-. unfold counted. split; [cbn; by case_bool_decide|].
    right. split; [exact (same_tables_refl s)|eauto]. }
  destruct (claims s !! (xr_target row, key)) as [c|] eqn:Ec; [|by refine (Hrefuse _ _ H)].
  test_in H as Eown; [by refine (Hrefuse _ _ H)|].
  apply orb_false_elim in Eown as [Ee Em]. apply negb_false_iff in Em.
  bool_inv. apply claim_identity_matches in Em as (Ha & Hd & Hs).
  eapply (stage_pair_outcome _ _ _ _ _ _ (<[(xr_target row, key) := linked c (next_id s)]> (claims s))) in H.
  - destruct H as [Hcnt [[Hcom Hr]|Hsame]]; split; auto. left. exists key, row, c.
    unfold owns_claim. auto 10.
  - clear H. intros tx r0 s0 Hcl Hex Hau Hnx Hfa _ H.
    rewrite (link_claim_unlinked _ _ _ _ _ _ _ c) in H by (by rewrite ?Hcl).
    destruct (pf_link f); [|destruct (pf_rows f); [|cbn in H]].
    1: pose (tx1 := tx). 2: pose (tx1 := set_claims <[(xr_target row, key) := linked c (next_id s)]> tx).
    1,2: injection H as <- <-; apply (failed_outcome _ _ _ s (rollback s tx1)); [apply rollback_same; unfold tx1; cbn; lia|done].
    eapply commit_outcome_spec; [| |exact H]; [|done]. unfold committed_pair. cbn. by rewrite Hcl.
Qed.

(** The keyless writer: the same guarantee, with no claim and no key. *)
Lemma insert_outcome rec eventType res now f s r s' :
  InsertExecutionWithAudit rec eventType res now f s = (r, s') →
  counted r s s' ∧
  ((∃ row, executionRecordArgs rec now = Ok row ∧ xr_key row = None
      ∧ committed_pair (claims s) row (audit_of row eventType res) s s'
      ∧ (r = Ok (next_id s) ∨ r = Err ErrQueryEvidencePairFailed))
   ∨ (same_tables s s' ∧ ∃ e, r = Err e)).
Proof.
  intros H. unfold InsertExecutionWithAudit in H.
  destruct (is_nil_key (er_ClientExecutionID rec)) eqn:Ekey; cbn [negb] in H.
  2: { injection H as <- <-. split; [cbn; by unfold counted; case_bool_decide; [done|lia]|].
       right. split; [apply same_tables_refl|eauto]. }
  destruct (executionRecordArgs rec now) as [row|e] eqn:Erow.
  2: { injection H as <- <-. split.
       - unfold executionRecordArgs, executionActorArgs in Erow. unfold counted.
         repeat case_match; simplify_eq/=; case_bool_decide; simplify_eq; lia.
       - right. split; [apply same_tables_refl|eauto]. }
  destruct (bound_row _ _ _ Erow) as (_&_&_&_&_&_&Hk). rewrite Ekey in Hk.
  destruct (pf_begin f).
  { injection H as <- <-. unfold counted. split; [cbn; by case_bool_decide|].
    right. split; [exact (same_tables_refl s)|eauto]. }
  apply (stage_pair_outcome _ _ _ _ _ _ (claims s)) in H.
  - destruct H as [Hcnt [[Hcom Hr]|Hsame]]; split; auto. left. exists row. auto.
  - clear H. intros tx r0 s0 Hcl Hex Hau Hnx Hfa _ H.
    eapply commit_outcome_spec; [|exact Hfa|exact H]. by unfold committed_pair.
Qed.

(** The claim gate adds at most its own row, on a free key, and succeeds only by doing so. *)
Lemma claim_outcome c f s r s' :
  TryClaimExecution c f s = (r, s') →
  (∃ actor, claimActorArgs (ci_Identity c) = Ok actor ∧ claim_Validate c = Ok tt
     ∧ claims s !! (ci_TargetResourceID c, ci_ClientExecutionID c) = None
     ∧ s' = set_claims <[(ci_TargetResourceID c, ci_ClientExecutionID c) := claim_row_of c actor]> s
     ∧ (r = Ok tt ∨ ∃ k, r = Err (ErrClaimStore k)))
  ∨ (s' = s ∧ ∃ e, r = Err e).
Proof.
  intros H. unfold TryClaimExecution in H.
  destruct (claim_Validate c) as [[]|] eqn:Ev; [|injection H as <- <-; right; eauto].
  destruct (claimActorArgs (ci_Identity c)) as [actor|] eqn:Ea; [|injection H as <- <-; right; eauto].
  destruct (kf_insert f) as [e|].
  - injection H as <- <-. destruct (kf_insert_applied f), (claims s !! _) eqn:Ec; cbn; rewrite ?Ec;
      try (right; by eauto). left. exists actor. split_and!; try done. right.
    unfold claimStoreError. repeat case_match; eauto.
  - destruct (claims s !! _) as [old|] eqn:Ec; [right|left].
    + destruct (kf_read f); injection H as <- <-; eauto.
    + injection H as <- <-. exists actor. auto 10.
Qed.

(** ** Steps of the store

    The store's clients run these three writers in any order, with any
    arguments and any faults. *)
Inductive step : db → db → Prop :=
  | step_claim c f s : step s (TryClaimExecution c f s).2
  | step_finalize rec ev res now f s : step s (FinalizeClaimWithAudit rec ev res now f s).2
  | step_insert rec ev res now f s : step s (InsertExecutionWithAudit rec ev res now f s).2.

Definition reachable (s : db) : Prop := rtc step empty_db s.

(** Every step is one of four table changes. *)
Inductive change (s : db) : db → Prop :=
  | change_none s' : same_tables s s' → change s s'
  | change_claim key row s' :
      claims s !! key = None → cr_execution row = None →
      (is_Some (cr_actor row).1 ↔ (cr_actor row).2 = None) →
      s' = set_claims <[key := row]> s → change s s'
  | change_link key row c a s' :
      claims s !! (xr_target row, key) = Some c → cr_execution c = None → cr_actor c = xr_actor row →
      cr_database c = xr_database row → cr_schema c = xr_schema row → xr_key row = Some key →
      is_ok (ValidateStatus (xr_status row)) = true → is_ok (remote_Validate (xr_remote_state row)) = true →
      ar_actor a = xr_actor row → ar_target a = xr_target row →
      committed_pair (<[(xr_target row, key) := linked c (next_id s)]> (claims s)) row a s s' → change s s'
  | change_keyless row a s' :
      xr_key row = None → ar_actor a = xr_actor row → ar_target a = xr_target row →
      committed_pair (claims s) row a s s' → change s s'.

Lemma claim_actor_xor i actor : claimActorArgs i = Ok actor → is_Some actor.1 ↔ actor.2 = None.
Proof.
  unfold claimActorArgs. destruct (identity_Validate i); [|done]. cbn.
  case_match; intros [= <-]; cbn; split; try done; by intros [].
Qed.

Lemma step_change s s' : step s s' → change s s'.
Proof.
  destruct 1 as [c f s|rec ev res now f s|rec ev res now f s].
  - destruct (TryClaimExecution c f s) as [r s'] eqn:H. cbn.
    apply claim_outcome in H as [(actor & Ha & _ & Hfree & -> & _)|[-> _]].
    + apply (change_claim _ _ (claim_row_of c actor) _ Hfree); [done| |done]. cbn. by eapply claim_actor_xor.
    + apply change_none, same_tables_refl.
  - destruct (FinalizeClaimWithAudit rec ev res now f s) as [r s'] eqn:H. cbn.
    apply finalize_outcome in H as [_ [(key & row & c & Hrow & Hchk & Hown & Hcom & _)|[Hsame _]]].
    + destruct Hown as (Hk & Hnil & ?&?&?&?&?). destruct (bound_row _ _ _ Hrow) as (_&_&_&_&Hst&Hrs&Hkey).
      rewrite Hk in Hkey. cbn in Hkey. rewrite bool_decide_eq_false_2 in Hkey by done.
      unfold finalize_checks in Hchk. res_inv.
      apply (change_link _ key row c (audit_of row ev res)); try done; [by rewrite Hst, E0|by rewrite Hrs, Hchk].
    + by apply change_none.
  - destruct (InsertExecutionWithAudit rec ev res now f s) as [r s'] eqn:H. cbn.
    apply insert_outcome in H as [_ [(row & Hrow & Hk & Hcom & _)|[Hsame _]]].
    + by apply (change_keyless _ row (audit_of row ev res)).
    + by apply change_none.
Qed.

(** ** The evidence invariant *)

Record wf (s : db) : Prop := {
  (** a linked claim has its own terminal execution, readable as such *)
  wf_link t k c id : claims s !! (t, k) = Some c → cr_execution c = Some id →
    ∃ e, executions s !! id = Some e ∧ link_matches t k c e = true
      ∧ is_ok (ValidateStatus (xr_status e)) = true ∧ is_ok (remote_Validate (xr_remote_state e)) = true;
  (** a keyed execution is the one its claim links *)
  wf_keyed id e k : executions s !! id = Some e → xr_key e = Some k →
    ∃ c, claims s !! (xr_target e, k) = Some c ∧ cr_execution c = Some id;
  (** ids are below the counter *)
  wf_ids id e : executions s !! id = Some e → (id < next_id s)%Z;
  (** exactly one actor owns a claim *)
  wf_actor key c : claims s !! key = Some c → is_Some (cr_actor c).1 ↔ (cr_actor c).2 = None;
  (** history and audit rows come in pairs with the same actor and target *)
  wf_pairs : (λ a, (ar_actor a, ar_target a)) <$> audits s
             ≡ₚ (λ e, (xr_actor e.2, xr_target e.2)) <$> map_to_list (executions s);
}.

Lemma fresh_id s : wf s → executions s !! next_id s = None.
Proof.
  intros Hwf. destruct (executions s !! next_id s) eqn:E; [|done].
  apply (wf_ids _ Hwf) in E. lia.
Qed.

Lemma link_matches_spec t k c e :
  link_matches t k c e = true ↔ xr_key e = Some k ∧ xr_target e = t ∧ xr_database e = cr_database c
    ∧ xr_schema e = cr_schema c ∧ xr_actor e = cr_actor c.
Proof.
  unfold link_matches. rewrite !andb_true_iff, !bool_decide_eq_true, Z.eqb_eq.
  destruct (xr_actor e), (cr_actor c); cbn. naive_solver.
Qed.

Lemma wf_same_tables s s' : same_tables s s' → wf s → wf s'.
Proof.
  intros (Hc & He & Ha & Hn) [H1 H2 H3 H4 H5]. split; rewrite ?Hc, ?He, ?Ha; try done.
  intros id e H. apply H3 in H. lia.
Qed.

Lemma wf_add_pair s row a s' cls :
  wf s → ar_actor a = xr_actor row → ar_target a = xr_target row → committed_pair cls row a s s' →
  (λ a, (ar_actor a, ar_target a)) <$> audits s'
    ≡ₚ (λ e, (xr_actor e.2, xr_target e.2)) <$> map_to_list (executions s').
Proof.
  intros Hwf Hact Htgt (_ & -> & -> & _).
  rewrite map_to_list_insert by (by apply fresh_id).
  rewrite fmap_app, fmap_cons. cbn. rewrite (wf_pairs _ Hwf), Hact, Htgt.
  symmetry. apply Permutation_cons_append.
Qed.

Lemma wf_add_claim s key row :
  wf s → claims s !! key = None → cr_execution row = None →
  (is_Some (cr_actor row).1 ↔ (cr_actor row).2 = None) → wf (set_claims <[key := row]> s).
Proof.
  intros Hwf Hfree Hre Hact. split; cbn; try apply Hwf.
  - intros t k c id Hl Hid. rewrite lookup_insert_Some in Hl. destruct Hl as [[_ <-]|[_ Hl]].
    + congruence.
    + by apply (wf_link _ Hwf).
  - intros id e k H Hk. destruct (wf_keyed _ Hwf id e k H Hk) as (c & Hc & Hid). exists c.
    split; [|done]. rewrite lookup_insert_ne; [done|]. intros Heq. rewrite Heq in Hfree. congruence.
  - intros key' c Hl. rewrite lookup_insert_Some in Hl. destruct Hl as [[_ <-]|[_ Hl]].
    + done.
    + by eapply (wf_actor _ Hwf).
Qed.

Lemma wf_add_linked s key row c a s' :
  wf s → claims s !! (xr_target row, key) = Some c → cr_execution c = None → cr_actor c = xr_actor row →
  cr_database c = xr_database row → cr_schema c = xr_schema row → xr_key row = Some key →
  is_ok (ValidateStatus (xr_status row)) = true → is_ok (remote_Validate (xr_remote_state row)) = true →
  ar_actor a = xr_actor row → ar_target a = xr_target row →
  committed_pair (<[(xr_target row, key) := linked c (next_id s)]> (claims s)) row a s s' → wf s'.
Proof.
  intros Hwf Hc He Ha Hd Hs Hk Hst Hrs Haa Hat Hcom.
  pose proof (wf_add_pair _ _ _ _ _ Hwf Haa Hat Hcom) as Hp. pose proof (fresh_id _ Hwf) as Hfr.
  destruct Hcom as (Hcl & Hex & Hau & Hnx).
  split; [rewrite Hcl, Hex|rewrite Hcl, Hex|rewrite Hex, Hnx|rewrite Hcl|done].
  - intros t k c' id Hl. rewrite lookup_insert_Some in Hl. destruct Hl as [[Heq <-]|[_ Hl]].
    + injection Heq as <- <-. cbn. intros [= <-]. exists row. rewrite lookup_insert_eq. split_and!; try done.
      apply link_matches_spec. by cbn.
    + intros Hid. destruct (wf_link _ Hwf _ _ _ _ Hl Hid) as (e & Hle & ?). exists e.
      rewrite lookup_insert_ne; [done|congruence].
  - intros id e k Hl Hke. rewrite lookup_insert_Some in Hl. destruct Hl as [[<- <-]|[_ Hl]].
    + rewrite Hk in Hke. injection Hke as <-. eexists. by rewrite lookup_insert_eq.
    + destruct (wf_keyed _ Hwf _ _ _ Hl Hke) as (c' & Hc' & Hid). exists c'.
      rewrite lookup_insert_ne; [done|congruence].
  - intros id e Hl. rewrite lookup_insert_Some in Hl. destruct Hl as [[<- _]|[_ Hl]]; [lia|].
    apply (wf_ids _ Hwf) in Hl. lia.
  - intros key' c' Hl. rewrite lookup_insert_Some in Hl.
    destruct Hl as [[_ <-]|[_ Hl]]; [cbn; exact (wf_actor _ Hwf _ _ Hc)|exact (wf_actor _ Hwf _ _ Hl)].
Qed.

Lemma wf_add_keyless s row a s' :
  wf s → xr_key row = None → ar_actor a = xr_actor row → ar_target a = xr_target row →
  committed_pair (claims s) row a s s' → wf s'.
Proof.
  intros Hwf Hk Haa Hat Hcom.
  pose proof (wf_add_pair _ _ _ _ _ Hwf Haa Hat Hcom) as Hp. pose proof (fresh_id _ Hwf) as Hfr.
  destruct Hcom as (Hcl & Hex & Hau & Hnx).
  split; [rewrite Hcl, Hex|rewrite Hcl, Hex|rewrite Hex, Hnx|rewrite Hcl; apply Hwf|done].
  - intros t k c id Hl Hid. destruct (wf_link _ Hwf _ _ _ _ Hl Hid) as (e & Hle & ?). exists e.
    rewrite lookup_insert_ne; [done|congruence].
  - intros id e k Hl Hke. rewrite lookup_insert_Some in Hl. destruct Hl as [[<- <-]|[_ Hl]]; [congruence|].
    by apply (wf_keyed _ Hwf _ e).
  - intros id e Hl. rewrite lookup_insert_Some in Hl. destruct Hl as [[<- _]|[_ Hl]]; [lia|].
    apply (wf_ids _ Hwf) in Hl. lia.
Qed.

Lemma change_wf s s' : change s s' → wf s → wf s'.
Proof.
  intros Hch Hwf. destruct Hch; subst.
  - by eapply wf_same_tables.
  - by apply wf_add_claim.
  - by eapply wf_add_linked.
  - by eapply wf_add_keyless.
Qed.

Lemma empty_wf : wf empty_db.
Proof. by split. Qed.

Lemma steps_wf s s' : rtc step s s' → wf s → wf s'.
Proof. induction 1 as [|s s1 s' Hst _ IH]; [done|]. intros Hwf. apply IH. eapply change_wf; [by apply step_change|done]. Qed.

(** ** Occupancy is permanent *)

(** The stored occupancy never changes; a link, once set, stays. *)
Definition occupancy_kept (c c' : claim_row) : Prop :=
  cr_actor c' = cr_actor c ∧ cr_database c' = cr_database c ∧ cr_schema c' = cr_schema c
  ∧ cr_digest c' = cr_digest c ∧ cr_timeout c' = cr_timeout c ∧ cr_claimed_at c' = cr_claimed_at c
  ∧ (cr_execution c = None ∨ cr_execution c' = cr_execution c).

Lemma occupancy_refl c : occupancy_kept c c.
Proof. unfold occupancy_kept. auto 10. Qed.

Lemma occupancy_trans c c' c'' : occupancy_kept c c' → occupancy_kept c' c'' → occupancy_kept c c''.
Proof.
  unfold occupancy_kept. intros (?&?&?&?&?&?&[?|?]) (?&?&?&?&?&?&[?|?]); split_and!; try congruence;
    by first [left; congruence | right; congruence].
Qed.

Lemma change_claims s s' key c :
  change s s' → claims s !! key = Some c → ∃ c', claims s' !! key = Some c' ∧ occupancy_kept c c'.
Proof.
  intros Hch Hc. destruct Hch as [s' (Hcl&_)|key' row s' Hfree _ _ ->|key' row c0 a s' Hc0 He _ _ _ _ _ _ _ _ (Hcl&_)|row a s' _ _ _ (Hcl&_)].
  - exists c. rewrite Hcl. split; [done|apply occupancy_refl].
  - exists c. cbn. rewrite lookup_insert_ne by congruence. split; [done|apply occupancy_refl].
  - rewrite Hcl. destruct (decide (key = (xr_target row, key'))) as [->|Hne].
    + rewrite lookup_insert_eq. eexists. split; [done|]. rewrite Hc in Hc0. injection Hc0 as ->.
      unfold occupancy_kept. cbn. auto 10.
    + exists c. rewrite lookup_insert_ne by done. split; [done|apply occupancy_refl].
  - exists c. rewrite Hcl. split; [done|apply occupancy_refl].
Qed.

Lemma steps_claims s s' key c :
  rtc step s s' → claims s !! key = Some c → ∃ c', claims s' !! key = Some c' ∧ occupancy_kept c c'.
Proof.
  intros Hst. revert c. induction Hst as [s|s s1 s' Hst _ IH]; intros c Hc.
  { exists c. split; [done|apply occupancy_refl]. }
  destruct (change_claims _ _ _ _ (step_change _ _ Hst) Hc) as (c1 & Hc1 & H1).
  destruct (IH _ Hc1) as (c2 & Hc2 & H2). exists c2. split; [done|by eapply occupancy_trans].
Qed.

(** History rows are never rewritten. *)
Lemma change_executions s s' id e :
  change s s' → wf s → executions s !! id = Some e → executions s' !! id = Some e.
Proof.
  intros Hch Hwf He. pose proof (fresh_id _ Hwf) as Hfr.
  destruct Hch as [s' (_&Hex&_)|key' row s' _ _ _ ->|key' row c0 a s' _ _ _ _ _ _ _ _ _ _ (_&Hex&_)|row a s' _ _ _ (_&Hex&_)];
    [by rewrite Hex|done|..]; rewrite Hex, lookup_insert_ne; congruence.
Qed.

Lemma steps_executions s s' id e :
  rtc step s s' → wf s → executions s !! id = Some e → executions s' !! id = Some e.
Proof.
  induction 1 as [|s s1 s' Hst _ IH]; [done|]. intros Hwf He.
  apply IH; [by eapply change_wf; [apply step_change|]|]. eapply change_executions; [by apply step_change|done..].
Qed.

Lemma valid_claim_identity c : claim_Validate c = Ok tt → identity_Validate (ci_Identity c) = Ok tt.
Proof.
  unfold claim_Validate. intros H. res_inv.
  match goal with E : identity_Validate _ = Ok ?u |- _ => by destruct u end.
Qed.

Lemma claim_taken c f s old :
  claims s !! (ci_TargetResourceID c, ci_ClientExecutionID c) = Some old →
  ∃ e, TryClaimExecution c f s = (Err e, s)
    ∧ (f = no_claim_faults → claim_Validate c = Ok tt →
       e = if decide (cr_digest old = ci_RequestDigest c) then ErrQueryExecutionClaimExists
           else ErrQueryExecutionClaimConflict).
Proof.
  intros Hold. unfold TryClaimExecution. destruct (claim_Validate c) as [[]|e] eqn:Ev; [|by eexists].
  destruct (claimActorArgs (ci_Identity c)) as [actor|e] eqn:Ea.
  2: { exfalso. unfold claimActorArgs in Ea. rewrite (valid_claim_identity _ Ev) in Ea. cbn in Ea. by case_match. }
  rewrite Hold. destruct (kf_insert f) eqn:Ei.
  - eexists. split; [by destruct (kf_insert_applied f)|]. by intros ->.
  - destruct (kf_read f) eqn:Er; (eexists; split; [done|]); intros ->; [done|intros _].
    by case_bool_decide; case_decide.
Qed.

(** ** Reading back a finalized execution *)

Lemma read_back rec ev res now f s id s1 s2 key actor cols ctx :
  reachable s → FinalizeClaimWithAudit rec ev res now f s = (Ok id, s1) → rtc step s1 s2 →
  er_ClientExecutionID rec = Some key → claimActorArgs actor = Ok cols → executionActorArgs rec = Ok cols →
  ∃ v e, GetClaimWithExecution (er_TargetResourceID rec) (er_DatabaseName rec) key actor ctx None s2 = Ok v
    ∧ cv_Execution v = Some e ∧ er_ID e = id ∧ er_Status e = er_Status rec ∧ er_RemoteState e = er_RemoteState rec
    ∧ er_RowCount e = er_RowCount rec ∧ er_DurationMs e = er_DurationMs rec ∧ er_ErrorCode e = er_ErrorCode rec
    ∧ er_ErrorMessage e = er_ErrorMessage rec ∧ er_BackendPID e = er_BackendPID rec ∧ er_ClientExecutionID e = Some key.
Proof.
  intros Hr H Hsteps Hkey Hactor Hcols. assert (wf s) as Hwf by (by eapply steps_wf; [|apply empty_wf]).
  pose proof (step_finalize rec ev res now f s) as Hst. rewrite H in Hst. cbn in Hst.
  assert (wf s1) as Hwf1 by (eapply change_wf; [by apply step_change|done]).
  apply finalize_outcome in H as [_ [(key' & row & c & Hrow & _ & Hown & Hcom & Hres)|[_ [e He]]]]; [|done].
  destruct Hres as [[= ->]|]; [|done]. destruct Hcom as (Hcl & Hex & _).
  destruct Hown as (Hkey' & _ & Hc & Hnone & Ha & Hd & Hs). rewrite Hkey in Hkey'. injection Hkey' as <-.
  destruct (bound_row _ _ _ Hrow) as (Harg & Ht & Hdb & _).
  destruct (steps_claims _ _ (xr_target row, key) (linked c (next_id s)) Hsteps)
    as (c2 & Hc2 & Hact2 & Hdb2 & _&_&_&_& [Hl|Hl]); [by rewrite Hcl, lookup_insert_eq|done|]. cbn in *.
  assert (executions s2 !! next_id s = Some row) as Hrow2.
  { eapply steps_executions; [done|done|]. by rewrite Hex, lookup_insert_eq. }
  assert (wf s2) as Hwf2 by (by eapply steps_wf).
  destruct (wf_link _ Hwf2 _ _ _ _ Hc2 Hl) as (e & He & Hm & Hst' & Hrs). rewrite Hrow2 in He. injection He as <-.
  unfold GetClaimWithExecution. rewrite Hactor, <- Ht, Hc2. rewrite Hcols in Harg. injection Harg as ->.
  rewrite Hact2, Hdb2, Ha, Hd, Hdb, !(proj2 (match_column_eq _ _) eq_refl), bool_decide_eq_true_2 by done. cbn.
  rewrite Hl, Hrow2, Hm, Hst', Hrs. cbn. do 2 eexists. do 2 (split; [done|]).
  apply link_matches_spec in Hm as (Hk&_). unfold executionRecordArgs in Hrow. rewrite Hcols in Hrow. cbn in Hrow.
  injection Hrow as Hrow. rewrite <- Hk, <- Hrow. by split_and!.
Qed.

(** ** Properties *)

(** C1: Whatever the clients do, in any order and with any database faults,
    the tables stay consistent: a linked claim points at its own terminal
    execution, a keyed execution is linked by its claim, ids are unique, a claim
    has exactly one actor, and history and audit rows come in matching pairs. *)
Theorem evidence_invariant s : reachable s → wf s.
Proof. intros H. by eapply steps_wf; [|apply empty_wf]. Qed.

(** A claimed key has one owner for good: after a successful claim, and
    after any further activity, no claim under that key succeeds or changes
    anything; without faults the refusal says whether it is the same request. *)
Theorem claim_exclusive c f s s1 s2 c' f' :
  TryClaimExecution c f s = (Ok tt, s1) → rtc step s1 s2 →
  ci_TargetResourceID c' = ci_TargetResourceID c → ci_ClientExecutionID c' = ci_ClientExecutionID c →
  ∃ e, TryClaimExecution c' f' s2 = (Err e, s2)
    ∧ (f' = no_claim_faults → claim_Validate c' = Ok tt →
       e = if decide (ci_RequestDigest c = ci_RequestDigest c') then ErrQueryExecutionClaimExists
           else ErrQueryExecutionClaimConflict).
Proof.
  intros H Hsteps Ht Hk. apply claim_outcome in H as [(actor & _ & _ & _ & -> & _)|[_ [e He]]]; [|done].
  destruct (steps_claims _ _ (ci_TargetResourceID c, ci_ClientExecutionID c) (claim_row_of c actor) Hsteps)
    as (old & Hold & _&_&_&Hdig&_); [cbn; by rewrite lookup_insert_eq|].
  rewrite <- Ht, <- Hk in Hold. destruct (claim_taken c' f' s2 old Hold) as (e & He & Hcls).
  exists e. split; [done|]. intros Hf Hv. by rewrite (Hcls Hf Hv), Hdig.
Qed.

(** The keyed finalize is all or nothing. Either it commits exactly one
    history row, its audit event and the link of a claim the record owns, or it
    changes no row; success is reported only for a commit, the persistence
    counter counts exactly the persistence failures, and without faults the
    owner of an unfinished claim always succeeds. *)
Theorem finalize_atomic rec eventType res now f s :
  wf s →
  let '(r, s') := FinalizeClaimWithAudit rec eventType res now f s in
  counted r s s' ∧
  ((∃ key row c, executionRecordArgs rec now = Ok row ∧ finalize_checks rec key = Ok tt ∧ owns_claim s rec key row c
      ∧ committed_pair (<[(xr_target row, key) := linked c (next_id s)]> (claims s)) row
          (audit_of row eventType res) s s'
      ∧ (r = Ok (next_id s) ∨ r = Err ErrQueryEvidencePairFailed))
   ∨ (same_tables s s' ∧ ∃ e, r = Err e))
  ∧ (f = no_pair_faults → ∀ key row c, executionRecordArgs rec now = Ok row → finalize_checks rec key = Ok tt →
     owns_claim s rec key row c → r = Ok (next_id s)).
Proof.
  intros Hwf. destruct (FinalizeClaimWithAudit rec eventType res now f s) as [r s'] eqn:H.
  destruct (finalize_outcome _ _ _ _ _ _ _ _ H) as [Hcnt Hout]. split_and!; [done..|].
  intros -> key row c Hrow Hchk (Hk & Hnil & Hc & He & Ha & Hd & Hs).
  destruct (bound_row _ _ _ Hrow) as (_ & Ht & Hdb & Hsc & _&_& Hrk).
  rewrite Hk in Hrk. cbn in Hrk. rewrite bool_decide_eq_false_2 in Hrk by done.
  unfold FinalizeClaimWithAudit in H.
  rewrite Hk, bool_decide_eq_false_2, Hchk, Hrow, <- Ht, <- Hdb, <- Hsc, Hc, He in H by done. cbn in H.
  rewrite (proj2 (claim_identity_matches _ _ _ _ _ _)) in H by done. cbn in H.
  unfold stage_pair in H. cbn in H. unfold insert_execution in H.
  assert (key_taken row s = false) as Hfree.
  { unfold key_taken. rewrite Hrk. apply bool_decide_eq_false_2. intros (id & e & Hid & Het & Hek).
    destruct (wf_keyed _ Hwf _ _ _ Hid Hek) as (c' & Hc' & Hl). rewrite Het in Hc'. congruence. }
  rewrite Hfree in H. rewrite (link_claim_unlinked _ _ _ _ _ _ _ c) in H by done. cbn in H. congruence.
Qed.

(** An attempt is finished at most once: after a successful finalize no
    later one under the same key writes anything, and the recorded execution
    stays as it was. *)
Theorem finalize_once rec ev res now f s id s1 s2 rec' ev' res' now' f' :
  reachable s → FinalizeClaimWithAudit rec ev res now f s = (Ok id, s1) → rtc step s1 s2 →
  er_TargetResourceID rec' = er_TargetResourceID rec → er_ClientExecutionID rec' = er_ClientExecutionID rec →
  let '(r, s3) := FinalizeClaimWithAudit rec' ev' res' now' f' s2 in
  (∃ e, r = Err e) ∧ same_tables s2 s3 ∧
  ∃ row, executionRecordArgs rec now = Ok row ∧ executions s3 !! id = Some row.
Proof.
  intros Hr H Hsteps Ht Hk. assert (wf s) as Hwf by (by eapply steps_wf; [|apply empty_wf]).
  assert (wf s1) as Hwf1.
  { eapply change_wf; [apply step_change|exact Hwf].
    pose proof (step_finalize rec ev res now f s) as Hst. by rewrite H in Hst. }
  apply finalize_outcome in H as [_ [(key & row & c & Hrow & _ & Hown & Hcom & Hres)|[_ [e He]]]]; [|done].
  destruct Hres as [[= ->]|]; [|done]. destruct Hcom as (Hcl & Hex & _).
  destruct (bound_row _ _ _ Hrow) as (_ & Hrt & _). destruct Hown as (Hkey & _).
  destruct (steps_claims _ _ (xr_target row, key) (linked c (next_id s)) Hsteps)
    as (c2 & Hc2 & _&_&_&_&_&_& Hlink); [by rewrite Hcl, lookup_insert_eq|].
  assert (executions s2 !! next_id s = Some row) as Hrow2.
  { eapply steps_executions; [done|done|]. by rewrite Hex, lookup_insert_eq. }
  destruct (FinalizeClaimWithAudit rec' ev' res' now' f' s2) as [r s3] eqn:H3.
  apply finalize_outcome in H3 as [_ [(key' & row' & c' & Hrow' & _ & Hown' & _)|[Hsame [e He]]]].
  - exfalso. destruct Hown' as (Hkey' & _ & Hc' & Hnone & _). destruct (bound_row _ _ _ Hrow') as (_ & Hrt' & _).
    rewrite Hk, Hkey in Hkey'. injection Hkey' as <-. rewrite Hrt', Ht, <- Hrt, Hc2 in Hc'. injection Hc' as ->.
    destruct Hlink as [Hl|Hl]; cbn in Hl; congruence.
  - split; [eauto|]. split; [done|]. exists row. destruct Hsame as (_ & -> & _). done.
Qed.

(** In every reachable state the point read never reports a broken link.
    It answers only the owner of the claim (a user never reads a machine's
    claim with the same number): the claim alone while unfinished, and with its
    own recorded execution afterwards. *)
Theorem point_read_sound s target database key actor ctx :
  reachable s →
  match GetClaimWithExecution target database key actor ctx None s with
  | Err e => e = ErrNoRows ∨ ∃ why, e = ErrQueryExecutionClaimInvalid (Some why) ∧ claimActorArgs actor = Err why
  | Ok v => ∃ c, claims s !! (target, key) = Some c ∧ claimActorArgs actor = Ok (cr_actor c)
      ∧ cr_database c = database ∧ cl_RequestDigest (cv_Claim v) = cr_digest c
      ∧ match cr_execution c with
        | None => cv_Execution v = None
        | Some id => ∃ e, executions s !! id = Some e ∧ cv_Execution v = Some (record_of_row id e)
            ∧ cl_ExecutionID (cv_Claim v) = id ∧ xr_target e = target ∧ xr_actor e = cr_actor c
        end
  end.
Proof.
  intros Hr. assert (wf s) as Hwf by (by eapply steps_wf; [|apply empty_wf]).
  unfold GetClaimWithExecution. destruct (claimActorArgs actor) as [want|why]; [|by eauto].
  destruct (claims s !! (target, key)) as [c|] eqn:Ec; [|by left].
  match goal with |- context [negb ?b] => destruct b eqn:Em end; cbn [negb]; [|by left].
  bool_inv. rewrite match_column_eq in *.
  assert (cr_actor c = want) as <- by (destruct (cr_actor c), want; cbn in *; congruence).
  destruct (cr_execution c) as [id|] eqn:Eid; [|by exists c; rewrite Eid].
  destruct (wf_link _ Hwf _ _ _ _ Ec Eid) as (e & He & Hm & Hst & Hrs).
  rewrite He, Hm, Hst, Hrs. cbn. exists c. rewrite Eid. split_and!; try done.
  apply link_matches_spec in Hm as (?&?&?&?&?). exists e. auto 10.
Qed.

(** What a finalize recorded is what the owner reads, from then on: the
    same execution id, status, remote state, counts and error. *)
Theorem finalize_then_read rec ev res now f s id s1 s2 key actor cols ctx :
  reachable s → FinalizeClaimWithAudit rec ev res now f s = (Ok id, s1) → rtc step s1 s2 →
  er_ClientExecutionID rec = Some key → claimActorArgs actor = Ok cols → executionActorArgs rec = Ok cols →
  ∃ v e, GetClaimWithExecution (er_TargetResourceID rec) (er_DatabaseName rec) key actor ctx None s2 = Ok v
    ∧ cv_Execution v = Some e ∧ er_ID e = id ∧ er_Status e = er_Status rec ∧ er_RemoteState e = er_RemoteState rec
    ∧ er_RowCount e = er_RowCount rec ∧ er_DurationMs e = er_DurationMs rec ∧ er_ErrorCode e = er_ErrorCode rec
    ∧ er_ErrorMessage e = er_ErrorMessage rec ∧ er_BackendPID e = er_BackendPID rec ∧ er_ClientExecutionID e = Some key.
Proof. apply read_back. Qed.

(** ** A run of the store *)

Definition sample_digest : bytes := repeat "a"%char 64.
Definition sample_claim : QueryExecutionClaimInput :=
  ClaimInput 3 (gs "key-1") sample_actor (gs "app") [] sample_digest 30000 (Some 100%Z).
Definition sample_record : QueryExecutionRecord :=
  ExecutionRecord 0 3 7 0 (gs "mysql") (gs "app") [] (gs "d") (gs "SELECT 1") (gs "SELECT 1")
    QueryExecutionSuccess 1 12 [] [] None [] (Some (gs "key-1")) None.
Definition claimed_db : db := (TryClaimExecution sample_claim no_claim_faults empty_db).2.
Definition finalized_db : db :=
  (FinalizeClaimWithAudit sample_record (gs "query.executed") (gs "success") 200 no_pair_faults claimed_db).2.

Lemma claimed_reachable : reachable claimed_db.
Proof. apply rtc_once. apply step_claim. Qed.
Lemma finalized_reachable : reachable finalized_db.
Proof. eapply rtc_r; [apply claimed_reachable|apply step_finalize]. Qed.

Lemma sample_claim_run : TryClaimExecution sample_claim no_claim_faults empty_db = (Ok tt, claimed_db).
Proof. vm_compute. reflexivity. Qed.
Lemma sample_finalize_run :
  FinalizeClaimWithAudit sample_record (gs "query.executed") (gs "success") 200 no_pair_faults claimed_db
  = (Ok 1%Z, finalized_db).
Proof. vm_compute. reflexivity. Qed.

Lemma evidence_invariant_witness : reachable finalized_db ∧ wf finalized_db.
Proof. split; [apply finalized_reachable|]. apply evidence_invariant, finalized_reachable. Defined.

Lemma claim_exclusive_witness :
  rtc step claimed_db finalized_db ∧
  ∃ e, TryClaimExecution sample_claim no_claim_faults finalized_db = (Err e, finalized_db)
    ∧ (no_claim_faults = no_claim_faults → claim_Validate sample_claim = Ok tt →
       e = if decide (ci_RequestDigest sample_claim = ci_RequestDigest sample_claim)
           then ErrQueryExecutionClaimExists else ErrQueryExecutionClaimConflict).
Proof.
  assert (rtc step claimed_db finalized_db) as Hst by (apply rtc_once, step_finalize).
  split; [exact Hst|].
  exact (claim_exclusive sample_claim no_claim_faults empty_db claimed_db finalized_db sample_claim no_claim_faults
           sample_claim_run Hst eq_refl eq_refl).
Defined.

Lemma finalize_atomic_witness :
  wf claimed_db ∧
  counted (FinalizeClaimWithAudit sample_record [] [] 200 no_pair_faults claimed_db).1 claimed_db
    (FinalizeClaimWithAudit sample_record [] [] 200 no_pair_faults claimed_db).2.
Proof.
  assert (wf claimed_db) as Hwf by (eapply steps_wf; [apply claimed_reachable|apply empty_wf]).
  split; [exact Hwf|].
  pose proof (finalize_atomic sample_record [] [] 200 no_pair_faults claimed_db Hwf) as H.
  destruct (FinalizeClaimWithAudit sample_record [] [] 200 no_pair_faults claimed_db). apply H.
Defined.

Lemma finalize_once_witness :
  same_tables finalized_db (FinalizeClaimWithAudit sample_record [] [] 300 no_pair_faults finalized_db).2.
Proof.
  pose proof (finalize_once sample_record (gs "query.executed") (gs "success") 200 no_pair_faults claimed_db 1
    finalized_db finalized_db sample_record [] [] 300 no_pair_faults claimed_reachable sample_finalize_run
    (rtc_refl _ _) eq_refl eq_refl) as H.
  destruct (FinalizeClaimWithAudit sample_record [] [] 300 no_pair_faults finalized_db). apply H.
Defined.

Lemma point_read_sound_witness :
  reachable finalized_db ∧
  GetClaimWithExecution 3 (gs "app") (gs "key-1") (Identity QueryExecutionActorMachine 7) None None finalized_db
  = Err ErrNoRows.
Proof.
  split; [apply finalized_reachable|].
  pose proof (point_read_sound finalized_db 3 (gs "app") (gs "key-1") (Identity QueryExecutionActorMachine 7) None
    finalized_reachable) as H.
  destruct (GetClaimWithExecution _ _ _ _ _ _ _) as [v|e] eqn:E.
  - vm_compute in E. discriminate E.
  - destruct H as [->|(why & _ & H)]; [reflexivity|vm_compute in H; discriminate H].
Defined.

Lemma finalize_then_read_witness :
  ∃ v e, GetClaimWithExecution 3 (gs "app") (gs "key-1") sample_actor None None finalized_db = Ok v
    ∧ cv_Execution v = Some e ∧ er_ID e = 1%Z ∧ er_Status e = QueryExecutionSuccess.
Proof.
  destruct (finalize_then_read sample_record (gs "query.executed") (gs "success") 200 no_pair_faults claimed_db 1
    finalized_db finalized_db (gs "key-1") sample_actor (Some 7%Z, None) None
    claimed_reachable sample_finalize_run (rtc_refl _ _) eq_refl eq_refl eq_refl) as (v & e & H1 & H2 & H3 & H4 & _).
  exists v, e. auto.
Defined.
