(* ===== verification/TargetAccess.v ===== *)
(** * Governed target access

    [internal/service/query_target_access.go], the credential gates of
    [query_target_service.go] and [query_credential_service.go], the DSN binding
    of [query_execution_service.go] and the connection identity of
    [internal/model]: the single path from a target id to a bound DSN, and the
    status the read model reports for it. The driver's DSN parsers are
    parameters ([ae_parse_dsn], [ae_pg_binding]). *)
From S2P Require Import Prelude GoText ExecModel.

(** ** Case folding

    Lower case and [strings.EqualFold] as far as they can reach ASCII text,
    which is what the code compares with: besides the ASCII letters only the
    Kelvin sign, dotted capital I and long s map into ASCII. *)
Definition lower_byte (c : byte) : byte := if in_range 65 90 c then bz (bv c + 32) else c.

Definition kelvin : bytes := [bz 226; bz 132; bz 170].
Definition dotted_I : bytes := [bz 196; bz 176].
Definition long_s : bytes := [bz 197; bz 191].

Fixpoint to_lower (s : bytes) : bytes :=
  match s with
  | [] => []
  | a :: ((b :: ((c :: s3) as s2)) as s1) =>
    if is_prefix kelvin s then "k"%char :: to_lower s3
    else if is_prefix dotted_I s then "i"%char :: to_lower s2
    else lower_byte a :: to_lower s1
  | [a; b] => if is_prefix dotted_I s then ["i"%char] else [lower_byte a; lower_byte b]
  | [a] => [lower_byte a]
  end.

Fixpoint fold_case (s : bytes) : bytes :=
  match s with
  | [] => []
  | a :: ((b :: ((c :: s3) as s2)) as s1) =>
    if is_prefix kelvin s then "k"%char :: fold_case s3
    else if is_prefix long_s s then "s"%char :: fold_case s2
    else lower_byte a :: fold_case s1
  | [a; b] => if is_prefix long_s s then ["s"%char] else [lower_byte a; lower_byte b]
  | [a] => [lower_byte a]
  end.
Definition equal_fold (s t : bytes) : bool := fold_case s =?b fold_case t.

(** ** Targets, credentials, statuses *)

Record QueryTarget : Type := Target {
  tg_ResourceID : Z;
  tg_Environment : bytes;
  tg_Engine : bytes;
  tg_Host : bytes;
  tg_Port : Z;
}.
#[export] Instance target_eq_dec : EqDecision QueryTarget.
Proof. solve_decision. Defined.

Record QueryCredentialMetadata : Type := Credential {
  cm_ResourceID : Z;
  cm_DatabaseName : bytes;
  cm_DefaultSchema : bytes;
  cm_Engine : bytes;
  cm_CredentialRef : bytes;
  cm_Enabled : bool;
  cm_EnvironmentPolicy : bytes;
}.
#[export] Instance credential_eq_dec : EqDecision QueryCredentialMetadata.
Proof. solve_decision. Defined.

Inductive QueryCredentialRuntimeStatus : Type :=
  | RuntimeMissingMetadata | RuntimeInvalidRef | RuntimeDisabled | RuntimePolicyBlocked
  | RuntimeSecretMissing | RuntimeBindingMismatch | RuntimeSecretResolved
  | RuntimeUnsupportedTarget | RuntimeIncompleteConnection.
#[export] Instance runtime_status_eq_dec : EqDecision QueryCredentialRuntimeStatus.
Proof. solve_decision. Defined.

Definition IsResolved (s : QueryCredentialRuntimeStatus) : bool := s =?b RuntimeSecretResolved.

Definition MaxConnectionNameLength : nat := 128.
Definition ValidateConnectionName (value : bytes) : result model_error unit :=
  if value =?b [] then Err EConnectionIdentity
  else guard_err (MaxConnectionNameLength <? rune_count value) EConnectionIdentity.

Definition ValidateConnectionIdentity (m : QueryCredentialMetadata) : result model_error unit :=
  if cm_Engine m =?b gs "postgresql" then
    _ ← ValidateConnectionName (cm_DatabaseName m);
    _ ← ValidateConnectionName (cm_DefaultSchema m);
    Ok tt
  else if negb (cm_DatabaseName m =?b []) || negb (cm_DefaultSchema m =?b []) then Err EConnectionIdentity
  else Ok tt.

(** ** Engine and environment gates *)

Definition isExecutableEngine (engine : bytes) : bool :=
  let e := to_lower (trim_space engine) in (e =?b gs "mysql") || (e =?b gs "tidb").

Definition isCredentialManagedEngine (engine : bytes) : bool :=
  let e := to_lower (trim_space engine) in
  (e =?b gs "mysql") || (e =?b gs "tidb") || (e =?b gs "postgresql").

Definition isPGEngine (engine : bytes) : bool := equal_fold (trim_space engine) (gs "postgresql").

Definition isProductionEnvironment (environment : bytes) : bool :=
  let env := to_lower (trim_space environment) in
  (env =?b gs "production") || is_prefix (gs "prod") env.

Definition engineHostMatches (a b : bytes) : bool := equal_fold (trim_space a) (trim_space b).

Definition credentialAllowsExecution (cred : QueryCredentialMetadata) (targetEngine environment : bytes) : bool :=
  if negb (cm_Enabled cred) then false
  else if negb (engineHostMatches (cm_Engine cred) targetEngine) then false
  else if negb (is_ok (env_policy_Validate (cm_EnvironmentPolicy cred))) then false
  else if cm_EnvironmentPolicy cred =?b QueryEnvPolicyAllEnvironments then true
  else if cm_EnvironmentPolicy cred =?b QueryEnvPolicyNonProdOnly then negb (isProductionEnvironment environment)
  else false.

(** ** The DSN binding *)

(** [net.SplitHostPort]: the last colon separates the port; a bracketed host
    must end right before it, an unbracketed one holds no other colon. *)
Definition last_index (c : byte) (s : bytes) : option nat :=
  match list_find (λ d, d = c) (reverse s) with
  | Some (i, _) => Some (length s - 1 - i)
  | None => None
  end.
Definition index_byte (c : byte) (s : bytes) : option nat :=
  match list_find (λ d, d = c) s with Some (i, _) => Some i | None => None end.

Definition SplitHostPort (hostport : bytes) : option (bytes * bytes) :=
  match last_index ":"%char hostport with
  | None => None
  | Some i =>
    let port := drop (i + 1) hostport in
    if is_prefix ["["%char] hostport then
      match index_byte "]"%char hostport with
      | None => None
      | Some e =>
        if (e + 1 =? i)%nat then
          let host := slice 1 e hostport in
          if contains_byte "["%char (drop 1 hostport) || contains_byte "]"%char (drop (e + 1) hostport) then None
          else Some (host, port)
        else None
      end
    else
      let host := take i hostport in
      if contains_byte ":"%char host then None
      else if contains_byte "["%char hostport || contains_byte "]"%char hostport then None
      else Some (host, port)
  end.

Definition rawAddressFor (dsn netName : bytes) : option bytes :=
  let prefix := netName ++ gs "(" in
  match index_of prefix dsn with
  | None => None
  | Some idx =>
    let rest := drop (idx + length prefix) dsn in
    match index_byte ")"%char rest with None => None | Some e => Some (take e rest) end
  end.

(** What [mysql.ParseDSN] reports of a DSN. *)
Record mysql_config : Type := MysqlConfig { mc_Net : bytes; mc_Addr : bytes }.

Inductive binding_error : Type :=
  | errDSNUnparseable | errDSNNotTCP | errDSNAddressMalformed | errDSNHostMismatch
  | errDSNPortMissing | errDSNPortInvalid | errDSNPortMismatch.

Definition validateDSNBinding (parse : bytes → option mysql_config) (dsn : bytes) (target : QueryTarget)
    : result binding_error unit :=
  match parse dsn with
  | None => Err errDSNUnparseable
  | Some cfg =>
    if negb (equal_fold (trim_space (mc_Net cfg)) (gs "tcp")) then Err errDSNNotTCP
    else match rawAddressFor dsn (mc_Net cfg) with
    | None => Err errDSNAddressMalformed
    | Some rawAddr =>
      match SplitHostPort rawAddr with
      | None | Some (_, []) => Err errDSNPortMissing
      | Some _ =>
        match SplitHostPort (mc_Addr cfg) with
        | None => Err errDSNAddressMalformed
        | Some (host, portStr) =>
          if negb (engineHostMatches host (tg_Host target)) then Err errDSNHostMismatch
          else match parse_int portStr with
          | None => Err errDSNPortInvalid
          | Some port => if negb (port =? tg_Port target)%Z then Err errDSNPortMismatch else Ok tt
          end
        end
      end
    end
  end.

(** ** The resolver *)

(** The outcome of reading one credential row. *)
Inductive credential_read : Type :=
  | ReadOk (c : QueryCredentialMetadata)
  | ReadNoRows
  | ReadInvalid (c : QueryCredentialMetadata) (** [ErrInvalidCredentialMetadata], with the scanned row *)
  | ReadFailed.

(** What the resolver is wired with. *)
Record access_env : Type := AccessEnv {
  ae_targets : Z → option (list QueryTarget);   (** [ListQueryTargets] *)
  ae_credential : Z → bytes → credential_read;  (** [GetCredential] *)
  ae_secret : bytes → option bytes;             (** the secret lookup *)
  ae_parse_dsn : bytes → option mysql_config;   (** [mysql.ParseDSN] *)
  ae_pg_binding : bytes → QueryTarget → bytes → bool; (** the PostgreSQL binding check *)
}.

Inductive access_error : Type :=
  | AccessTargetNotFound
  | AccessDenied (target : QueryTarget) (status : QueryCredentialRuntimeStatus) (** [TargetAccessError] *)
  | AccessSchemaValidationFailed (target : QueryTarget)
  | AccessConnectionNotFound (target : QueryTarget)
  | AccessConnectionDisabled (target : QueryTarget)
  | AccessBindingMismatch (target : QueryTarget).

Record BoundTargetAccess : Type := BoundAccess {
  ba_Target : QueryTarget;
  ba_Credential : QueryCredentialMetadata;
  ba_dsn : bytes;
}.

Section resolver.
Context (env : access_env).

(** [EnvCredentialResolver.Resolve]: an invalid ref never reaches the lookup. *)
Definition resolve_secret (ref : bytes) : option bytes :=
  if negb (is_ok (ValidateCredentialRef ref)) then None
  else match ae_secret env ref with
       | None => None
       | Some dsn => if dsn =?b [] then None else Some dsn
       end.

Definition findTarget (targetID : Z) : result access_error QueryTarget :=
  match ae_targets env targetID with
  | None => Err AccessTargetNotFound
  | Some targets =>
    match find (λ t, (tg_ResourceID t =? targetID)%Z) targets with
    | Some t => Ok t
    | None => Err AccessTargetNotFound
    end
  end.

Definition Resolve (targetID : Z) : result access_error BoundTargetAccess :=
  target ← findTarget targetID;
  let denied := λ status, Err (AccessDenied target status) in
  let engine := tg_Engine target in
  if negb (isExecutableEngine engine) then denied RuntimeUnsupportedTarget
  else if (tg_Host target =?b []) || (tg_Port target =? 0)%Z then denied RuntimeIncompleteConnection
  else match ae_credential env targetID [] with
  | ReadNoRows => denied RuntimeMissingMetadata
  | ReadInvalid _ | ReadFailed => denied RuntimeInvalidRef
  | ReadOk cred =>
    if negb (is_ok (ValidateCredentialRef (cm_CredentialRef cred))) then denied RuntimeInvalidRef
    else if negb (cm_Enabled cred) then denied RuntimeDisabled
    else if negb (credentialAllowsExecution cred engine (tg_Environment target)) then denied RuntimePolicyBlocked
    else match resolve_secret (cm_CredentialRef cred) with
    | None => denied RuntimeSecretMissing
    | Some dsn =>
      if dsn =?b [] then denied RuntimeSecretMissing
      else if negb (is_ok (validateDSNBinding (ae_parse_dsn env) dsn target)) then denied RuntimeBindingMismatch
      else Ok (BoundAccess target cred dsn)
    end
  end.

Definition resolvePGMetadata (target : QueryTarget) (database : bytes) : result access_error BoundTargetAccess :=
  let denied := λ status, Err (AccessDenied target status) in
  if (tg_Host target =?b []) || (tg_Port target =? 0)%Z then denied RuntimeIncompleteConnection
  else if database =?b [] then Err (AccessSchemaValidationFailed target)
  else match ae_credential env (tg_ResourceID target) database with
  | ReadNoRows => Err (AccessConnectionNotFound target)
  | ReadInvalid _ | ReadFailed => denied RuntimeInvalidRef
  | ReadOk cred =>
    if negb (is_ok (ValidateCredentialRef (cm_CredentialRef cred))) then denied RuntimeInvalidRef
    else if negb (cm_Enabled cred) then Err (AccessConnectionDisabled target)
    else if negb (credentialAllowsExecution cred (tg_Engine target) (tg_Environment target))
    then denied RuntimePolicyBlocked
    else match resolve_secret (cm_CredentialRef cred) with
    | None => denied RuntimeSecretMissing
    | Some dsn =>
      if dsn =?b [] then denied RuntimeSecretMissing
      else if negb (ae_pg_binding env dsn target database) then Err (AccessBindingMismatch target)
      else Ok (BoundAccess target cred dsn)
    end
  end.

Definition ResolveMetadata (targetID : Z) (database : bytes) : result access_error BoundTargetAccess :=
  target ← findTarget targetID;
  if isPGEngine (tg_Engine target) then resolvePGMetadata target database else Resolve targetID.

Definition ResolvePGExecution (targetID : Z) (database : bytes) : result access_error BoundTargetAccess :=
  target ← findTarget targetID;
  if negb (isPGEngine (tg_Engine target)) then Err (AccessDenied target RuntimeUnsupportedTarget)
  else resolvePGMetadata target database.

(** ** The reported status *)

Definition InspectCredentialRuntime (target : QueryTarget) (cred : option QueryCredentialMetadata)
    : QueryCredentialRuntimeStatus :=
  let engine := tg_Engine target in
  if negb (isCredentialManagedEngine engine) then RuntimeUnsupportedTarget
  else if (tg_Host target =?b []) || (tg_Port target =? 0)%Z then RuntimeIncompleteConnection
  else match cred with
  | None => RuntimeMissingMetadata
  | Some cred =>
    if negb (is_ok (ValidateCredentialRef (cm_CredentialRef cred))) then RuntimeInvalidRef
    else if negb (is_ok (ValidateConnectionIdentity cred)) then RuntimeInvalidRef
    else if negb (cm_Enabled cred) then RuntimeDisabled
    else if negb (credentialAllowsExecution cred engine (tg_Environment target)) then RuntimePolicyBlocked
    else match resolve_secret (cm_CredentialRef cred) with
    | None => RuntimeSecretMissing
    | Some dsn =>
      if dsn =?b [] then RuntimeSecretMissing
      else if isPGEngine engine then
        if negb (ae_pg_binding env dsn target (cm_DatabaseName cred)) then RuntimeBindingMismatch
        else RuntimeSecretResolved
      else if negb (is_ok (validateDSNBinding (ae_parse_dsn env) dsn target)) then RuntimeBindingMismatch
      else RuntimeSecretResolved
    end
  end.
End resolver.

(** ** Lemmas *)

Lemma head_of_fold a s t :
  fold_case (a :: s) = "p"%char :: t → lower_byte a = "p"%char.
Proof.
  destruct s as [|b [|c s]]; cbn [fold_case].
  - congruence.
  - case_match; congruence.
  - repeat case_match; congruence.
Qed.

Lemma lower_p a : lower_byte a = "p"%char → a = "p"%char ∨ a = "P"%char.
Proof.
  intros H. apply (f_equal bv) in H. unfold lower_byte in H.
  destruct (in_range 65 90 a) eqn:E.
  - apply in_range_spec in E. rewrite bv_bz, Z.mod_small in H by lia. change (bv "p"%char) with 112%Z in H.
    right. apply bv_inj. change (bv "P"%char) with 80%Z. lia.
  - left. by apply bv_inj.
Qed.

(** The two engine tests exclude each other. *)
Lemma pg_not_executable e : isPGEngine e = true → isExecutableEngine e = false.
Proof.
  unfold isPGEngine, equal_fold, isExecutableEngine. generalize (trim_space e). clear e. intros e H.
  bool_inv. change (fold_case (gs "postgresql")) with (gs "postgresql") in H.
  destruct e as [|a s]; [discriminate H|]. pose proof (head_of_fold _ _ _ H) as Ha.
  assert (∃ t, to_lower (a :: s) = "p"%char :: t) as [t ->].
  { apply lower_p in Ha as [->| ->]; destruct s as [|b [|c s]]; cbn; eauto. }
  by rewrite !bool_decide_eq_false_2.
Qed.

Lemma executable_managed e : isExecutableEngine e = true → isCredentialManagedEngine e = true ∧ isPGEngine e = false.
Proof.
  intros H. split.
  - unfold isExecutableEngine, isCredentialManagedEngine in *. by rewrite H.
  - destruct (isPGEngine e) eqn:E; [|done]. apply pg_not_executable in E. congruence.
Qed.

(** The row a status reader passes on for a credential read. *)
Definition readable (r : credential_read) : option QueryCredentialMetadata :=
  match r with ReadOk c => Some c | _ => None end.

(** ** Properties *)

(** Execution and the reported status agree. For a MySQL or TiDB target
    whose credential row has the shape the write path enforces, the resolver
    binds a DSN exactly when the runtime status is [secret_resolved], and every
    denial carries the very status the read model reports. *)
Theorem resolve_agrees_with_status env id target :
  findTarget env id = Ok target → isExecutableEngine (tg_Engine target) = true →
  (∀ c, ae_credential env id [] = ReadOk c → ValidateConnectionIdentity c = Ok tt) →
  (∀ c, ae_credential env id [] ≠ ReadInvalid c) → ae_credential env id [] ≠ ReadFailed →
  let status := InspectCredentialRuntime env target (readable (ae_credential env id [])) in
  match Resolve env id with
  | Ok a => ba_Target a = target ∧ status = RuntimeSecretResolved
  | Err e => e = AccessDenied target status ∧ status ≠ RuntimeSecretResolved
  end.
Proof.
  intros Hf Hx Hshape Hinv Hfail. destruct (executable_managed _ Hx) as [Hm Hpg].
  unfold Resolve, InspectCredentialRuntime. rewrite Hf. cbn [mbind result_bind].
  rewrite Hx, Hm, Hpg. cbn [negb]. destruct (_ || _); [done|].
  destruct (ae_credential env id []) as [c| |c|]; cbn [readable];
    [|done|by destruct (Hinv c)|by destruct Hfail].
  rewrite (Hshape c eq_refl). cbn [is_ok negb].
  destruct (is_ok (ValidateCredentialRef _)); cbn [negb]; [|done].
  destruct (cm_Enabled c); cbn [negb]; [|done].
  destruct (credentialAllowsExecution _ _ _); cbn [negb]; [|done].
  destruct (resolve_secret env _) as [dsn|]; [|done].
  case_bool_decide; [done|]. by destruct (is_ok (validateDSNBinding _ _ _)).
Qed.

Lemma binding_ok parse dsn target :
  validateDSNBinding parse dsn target = Ok tt →
  ∃ cfg host portStr, parse dsn = Some cfg ∧ SplitHostPort (mc_Addr cfg) = Some (host, portStr)
    ∧ engineHostMatches host (tg_Host target) = true ∧ parse_int portStr = Some (tg_Port target)
    ∧ equal_fold (trim_space (mc_Net cfg)) (gs "tcp") = true.
Proof.
  unfold validateDSNBinding. destruct (parse dsn) as [cfg|]; [|done].
  destruct (equal_fold _ (gs "tcp")) eqn:Et; cbn [negb]; [|done].
  destruct (rawAddressFor _ _) as [raw|]; [|done].
  destruct (SplitHostPort raw) as [[h [|c p]]|]; [done| |done].
  destruct (SplitHostPort (mc_Addr cfg)) as [[host portStr]|] eqn:Es; [|done].
  destruct (engineHostMatches host _) eqn:Eh; cbn [negb]; [|done].
  destruct (parse_int portStr) as [port|] eqn:Ep; [|done].
  destruct (port =? tg_Port target)%Z eqn:E; cbn [negb]; [|done]. bool_inv. subst port.
  intros _. exists cfg, host, portStr. auto.
Qed.

Lemma findTarget_id env id t : findTarget env id = Ok t → tg_ResourceID t = id.
Proof.
  unfold findTarget. destruct (ae_targets env id) as [l|]; [|done].
  destruct (find _ l) eqn:E; [|done]. intros [= <-]. apply find_some in E as [_ E]. by bool_inv.
Qed.

(** Whatever the verdict, it is about the target that was looked up. *)
Definition access_target (r : result access_error BoundTargetAccess) : option QueryTarget :=
  match r with
  | Ok a => Some (ba_Target a)
  | Err AccessTargetNotFound => None
  | Err (AccessDenied t _) | Err (AccessSchemaValidationFailed t) | Err (AccessConnectionNotFound t)
  | Err (AccessConnectionDisabled t) | Err (AccessBindingMismatch t) => Some t
  end.

Lemma resolve_target env id t : access_target (Resolve env id) = Some t → tg_ResourceID t = id.
Proof.
  intros H. apply (findTarget_id env). revert H. unfold Resolve, access_target.
  destruct (findTarget env id) as [target|e] eqn:E; cbn [mbind result_bind].
  - intros H. f_equal. repeat case_match; simplify_eq; done.
  - unfold findTarget in E. by repeat case_match; simplify_eq.
Qed.

Lemma allows_execution c engine environment :
  credentialAllowsExecution c engine environment = true →
  cm_Enabled c = true ∧ engineHostMatches (cm_Engine c) engine = true
  ∧ env_policy_Validate (cm_EnvironmentPolicy c) = Ok tt
  ∧ (isProductionEnvironment environment = true → cm_EnvironmentPolicy c = QueryEnvPolicyAllEnvironments).
Proof.
  unfold credentialAllowsExecution.
  destruct (cm_Enabled c), (engineHostMatches _ _), (env_policy_Validate _) as [[]|]; cbn; try done.
  case_bool_decide; [auto|]. case_bool_decide; [|done]. by destruct (isProductionEnvironment _).
Qed.

Lemma secret_resolved env ref dsn :
  resolve_secret env ref = Some dsn → ValidateCredentialRef ref = Ok tt ∧ ae_secret env ref = Some dsn ∧ dsn ≠ [].
Proof.
  unfold resolve_secret. destruct (ValidateCredentialRef ref) as [[]|]; [|done]. cbn.
  destruct (ae_secret env ref) as [d|]; [|done]. case_bool_decide; [done|]. by intros [= <-].
Qed.

(** C15: A bound DSN is never handed out without every gate: the target is the
    requested one and complete, the credential is enabled, for the same engine,
    under a known policy that covers production when the target is in
    production, its reference is well formed, and the DSN names the target's own
    host and port over TCP. *)
Theorem resolve_gates env id a :
  Resolve env id = Ok a →
  let t := ba_Target a in let c := ba_Credential a in
  tg_ResourceID t = id ∧ tg_Host t ≠ [] ∧ tg_Port t ≠ 0%Z ∧ isExecutableEngine (tg_Engine t) = true
  ∧ ae_credential env id [] = ReadOk c ∧ cm_Enabled c = true ∧ engineHostMatches (cm_Engine c) (tg_Engine t) = true
  ∧ env_policy_Validate (cm_EnvironmentPolicy c) = Ok tt
  ∧ (isProductionEnvironment (tg_Environment t) = true → cm_EnvironmentPolicy c = QueryEnvPolicyAllEnvironments)
  ∧ ValidateCredentialRef (cm_CredentialRef c) = Ok tt ∧ ae_secret env (cm_CredentialRef c) = Some (ba_dsn a)
  ∧ ∃ cfg host portStr, ae_parse_dsn env (ba_dsn a) = Some cfg ∧ SplitHostPort (mc_Addr cfg) = Some (host, portStr)
    ∧ engineHostMatches host (tg_Host t) = true ∧ parse_int portStr = Some (tg_Port t)
    ∧ equal_fold (trim_space (mc_Net cfg)) (gs "tcp") = true.
Proof.
  unfold Resolve. intros H. destruct (findTarget env id) as [t|] eqn:Ef; [|done]. cbn [mbind result_bind] in H.
  apply findTarget_id in Ef. destruct (isExecutableEngine (tg_Engine t)) eqn:Ex; cbn [negb] in H; [|done].
  test_in H as Ec; [done|]. bool_inv.
  destruct (ae_credential env id []) as [c| | |] eqn:Er; try done.
  destruct (ValidateCredentialRef _) as [[]|] eqn:Ev in H; cbn [is_ok negb] in H; [|done].
  destruct (cm_Enabled c) eqn:Ee in H; cbn [negb] in H; [|done].
  destruct (credentialAllowsExecution _ _ _) eqn:Ea in H; cbn [negb] in H; [|done].
  apply allows_execution in Ea as (?&?&?&?).
  destruct (resolve_secret env _) as [dsn|] eqn:Es in H; [|done]. apply secret_resolved in Es as (?&?&?).
  rewrite bool_decide_eq_false_2 in H by done.
  destruct (validateDSNBinding _ _ _) as [[]|] eqn:Eb in H; cbn [is_ok negb] in H; [|done].
  injection H as <-. cbn. apply binding_ok in Eb. auto 20.
Qed.

(** The resolver and the status reader do drift on a row the write path
    would refuse: a MySQL row that carries a default schema still executes,
    while its reported status is [invalid_ref]. *)
Theorem resolve_status_drift :
  ∃ env target cred,
    findTarget env (tg_ResourceID target) = Ok target
    ∧ ae_credential env (tg_ResourceID target) [] = ReadOk cred
    ∧ is_ok (Resolve env (tg_ResourceID target)) = true
    ∧ InspectCredentialRuntime env target (Some cred) = RuntimeInvalidRef.
Proof.
  set (target := Target 3 (gs "staging") (gs "mysql") (gs "db1") 3306).
  set (cred := Credential 3 [] (gs "public") (gs "mysql") (gs "DB1_RO") true QueryEnvPolicyNonProdOnly).
  exists (AccessEnv (λ _, Some [target]) (λ _ _, ReadOk cred) (λ _, Some (gs "ro:x@tcp(db1:3306)/app"))
           (λ _, Some (MysqlConfig (gs "tcp") (gs "db1:3306"))) (λ _ _ _, false)), target, cred.
  split_and!; vm_compute; reflexivity.
Qed.

Definition sample_target : QueryTarget := Target 3 (gs "production") (gs "TiDB") (gs "db1") 4000.
Definition sample_credential : QueryCredentialMetadata :=
  Credential 3 [] [] (gs "tidb") (gs "DB1_RO") true QueryEnvPolicyAllEnvironments.
(** A driver that reports the address between the parentheses, on TCP. *)
Definition sample_parse (dsn : bytes) : option mysql_config := MysqlConfig (gs "tcp") <$> rawAddressFor dsn (gs "tcp").
Definition sample_env (port : bytes) : access_env :=
  AccessEnv (λ _, Some [sample_target]) (λ _ _, ReadOk sample_credential)
    (λ _, Some (gs "ro:x@tcp(DB1:" ++ port ++ gs ")/")) sample_parse (λ _ _ _, false).

Lemma resolve_agrees_with_status_witness :
  match Resolve (sample_env (gs "4000")) 3 with
  | Ok a => ba_Target a = sample_target ∧
      InspectCredentialRuntime (sample_env (gs "4000")) sample_target (Some sample_credential) = RuntimeSecretResolved
  | Err e => e = AccessDenied sample_target
      (InspectCredentialRuntime (sample_env (gs "4000")) sample_target (Some sample_credential))
      ∧ InspectCredentialRuntime (sample_env (gs "4000")) sample_target (Some sample_credential) ≠ RuntimeSecretResolved
  end.
Proof.
  apply (resolve_agrees_with_status (sample_env (gs "4000")) 3 sample_target).
  - reflexivity.
  - vm_compute. reflexivity.
  - intros c [= <-]. vm_compute. reflexivity.
  - intros c H. discriminate H.
  - intros H. discriminate H.
Defined.

Lemma resolve_gates_witness :
  is_ok (Resolve (sample_env (gs "4000")) 3) = true ∧ is_ok (Resolve (sample_env (gs "4001")) 3) = false
  ∧ tg_ResourceID sample_target = 3%Z.
Proof.
  split; [vm_compute; reflexivity|]. split; [vm_compute; reflexivity|].
  destruct (Resolve (sample_env (gs "4000")) 3) as [a|e] eqn:H; [|vm_compute in H; discriminate H].
  pose proof (resolve_gates _ _ _ H) as (Hid & _). vm_compute in H. injection H as <-. exact Hid.
Defined.
