(* ===== verification/QueryGuard.v ===== *)
(** * The read-only statement guard

    [internal/service/query_guard.go]: which statements run, with which
    backend-owned row limit. The SQL parser is not part of the repository: it is
    the parameter [sql_parser], which reports of a statement what the guard
    inspects and renders a statement with the limit the guard sets. *)
From S2P Require Import Prelude GoText ExecModel TargetAccess.

(** A node the guard's walk can meet. *)
Inductive sql_node : Type :=
  | FuncExpr (name : bytes)
  | LockingFunc
  | AssignmentExpr
  | OtherNode.

(** A parsed SELECT: [INTO] present, a lock other than [NoLock], and its nodes
    in walk order. *)
Record sql_select : Type := SqlSelect {
  sel_Into : bool;
  sel_Lock : bool;
  sel_nodes : list sql_node;
}.

Inductive show_command : Type := ShowDatabase | ShowTable | ShowColumn | ShowOtherBasic | ShowNotBasic.

Inductive sql_statement : Type :=
  | StSelect (s : sql_select)
  | StShow (c : show_command)
  | StExplain (inner : option sql_select) (** [None]: not a SELECT *)
  | StExplainTab
  | StOther.

(** A limit set on a statement: offset and row count. *)
Abbreviation sql_limit := (option (option Z * Z)).

Record sql_parser : Type := SqlParser {
  sp_split : bytes → option (list bytes);      (** [SplitStatementToPieces] *)
  sp_parse : bytes → option sql_statement;     (** [Parse] *)
  sp_string : bytes → sql_limit → bytes;       (** the statement of that text, rendered with the limit *)
  sp_masked : bytes → bytes;                   (** ... with every literal replaced by a placeholder *)
}.

Record QueryGuardConfig : Type := GuardConfig { gc_DefaultMaxRows : Z; gc_HardMaxRows : Z }.

Record GuardedQuery : Type := Guarded {
  gq_OriginalStatement : bytes;
  gq_ExecutableSQL : bytes;
  gq_LimitApplied : Z;
  gq_ResultLimit : Z;
  gq_StatementDigest : bytes;
  gq_StatementPreview : bytes;
}.

Inductive guard_error : Type :=
  | ErrQueryStatementEmpty | ErrQueryStatementNotAllowed | ErrQueryLimitInvalid
  | ErrQueryPaginationInvalid | ErrQueryPaginationNotApplicable.
#[export] Instance guard_error_eq_dec : EqDecision guard_error.
Proof. solve_decision. Defined.

Definition statementPreviewMax : nat := 512.

(** [strings.ToUpper] as far as it reaches ASCII text: long s and dotless i do. *)
Definition upper_byte (c : byte) : byte := if in_range 97 122 c then bz (bv c - 32) else c.
Definition dotless_i : bytes := [bz 196; bz 177].
Fixpoint to_upper (s : bytes) : bytes :=
  match s with
  | [] => []
  | a :: ((b :: s2) as s1) =>
    if is_prefix long_s s then "S"%char :: to_upper s2
    else if is_prefix dotless_i s then "I"%char :: to_upper s2
    else upper_byte a :: to_upper s1
  | [a] => [upper_byte a]
  end.

Definition forbiddenFunctions : list bytes := [gs "SLEEP"; gs "BENCHMARK"; gs "LOAD_FILE"].

Definition forbidden_node (n : sql_node) : bool :=
  match n with
  | FuncExpr name => existsb (λ f, to_upper name =?b f) forbiddenFunctions
  | LockingFunc | AssignmentExpr => true
  | OtherNode => false
  end.

(** The walk stops at the first forbidden node. *)
Fixpoint rejectForbiddenNodes (nodes : list sql_node) : result guard_error unit :=
  match nodes with
  | [] => Ok tt
  | n :: nodes => if forbidden_node n then Err ErrQueryStatementNotAllowed else rejectForbiddenNodes nodes
  end.

Definition validateSelect (s : sql_select) : result guard_error unit :=
  if sel_Into s then Err ErrQueryStatementNotAllowed
  else if sel_Lock s then Err ErrQueryStatementNotAllowed
  else rejectForbiddenNodes (sel_nodes s).

Definition trimQueryStatement (statement : bytes) : result guard_error bytes :=
  let trimmed := trim_space statement in
  if trimmed =?b [] then Err ErrQueryStatementEmpty else Ok trimmed.

(** [int] is 64 bits wide. *)
Definition max_int : Z := max_int64.

Definition paginationWindow (page pageSize effectiveMaxRows : Z) : result guard_error (Z * Z) :=
  if (page <? 1)%Z || (pageSize <? 1)%Z || (effectiveMaxRows <? 1)%Z then Err ErrQueryPaginationInvalid
  else
    let pageIndex := (page - 1)%Z in
    if (max_int ÷ pageSize <? pageIndex)%Z then Err ErrQueryPaginationInvalid
    else
      let offset := to_int64 (pageIndex * pageSize) in
      let remaining := to_int64 (effectiveMaxRows - offset) in
      if (remaining <=? 0)%Z then Err ErrQueryPaginationInvalid
      else
        let pageRows := Z.min pageSize remaining in
        if (pageRows =? max_int)%Z then Err ErrQueryPaginationInvalid
        else Ok (offset, pageRows).

Section guard.
Context (parser : sql_parser) (config : QueryGuardConfig).

Definition effectiveMaxRows (requestedMaxRows : Z) : Z :=
  let effective := if (requestedMaxRows =? 0)%Z then gc_DefaultMaxRows config else requestedMaxRows in
  if (gc_HardMaxRows config <? effective)%Z then gc_HardMaxRows config else effective.

(** [setSelectLimit] asks for one row more than the limit. *)
Definition setSelectLimit (limit : Z) : sql_limit := Some (None, to_int64 (limit + 1)).
Definition setPaginatedSelectLimit (pageRows offset : Z) : sql_limit := Some (Some offset, to_int64 (pageRows + 1)).

(** [digest]: parsed once more; the text itself when that fails. *)
Definition digest (statement : bytes) : bytes :=
  match sp_parse parser statement with
  | None => statement
  | Some _ => sp_masked parser statement
  end.

Definition newGuardedQuery (trimmed executableSQL : bytes) (limitApplied resultLimit : Z) : GuardedQuery :=
  let preview := if statementPreviewMax <? length trimmed then take statementPreviewMax trimmed else trimmed in
  Guarded trimmed executableSQL limitApplied resultLimit (digest trimmed) preview.

Definition isMultiStatement (statement : bytes) : result guard_error bool :=
  match sp_split parser statement with
  | None => Err ErrQueryStatementNotAllowed
  | Some pieces => Ok (1 <? length (filter (λ p, trim_space p ≠ []) pieces))
  end.

Definition parseSingleStatement (statement : bytes) : result guard_error sql_statement :=
  multi ← isMultiStatement statement;
  if multi : bool then Err ErrQueryStatementNotAllowed
  else match sp_parse parser statement with
       | None => Err ErrQueryStatementNotAllowed
       | Some stmt => Ok stmt
       end.

Definition guardSelect (s : sql_select) (trimmed : bytes) (requestedMaxRows : Z) : result guard_error GuardedQuery :=
  _ ← validateSelect s;
  let effective := effectiveMaxRows requestedMaxRows in
  Ok (newGuardedQuery trimmed (sp_string parser trimmed (setSelectLimit effective)) effective 0).

Definition guardShow (c : show_command) (trimmed : bytes) : result guard_error GuardedQuery :=
  match c with
  | ShowDatabase | ShowTable | ShowColumn => Ok (newGuardedQuery trimmed (sp_string parser trimmed None) 0 0)
  | ShowOtherBasic | ShowNotBasic => Err ErrQueryStatementNotAllowed
  end.

Definition guardExplain (inner : option sql_select) (trimmed : bytes) (requestedMaxRows : Z)
    : result guard_error GuardedQuery :=
  match inner with
  | None => Err ErrQueryStatementNotAllowed
  | Some s =>
    _ ← validateSelect s;
    let effective := effectiveMaxRows requestedMaxRows in
    Ok (newGuardedQuery trimmed (sp_string parser trimmed (setSelectLimit effective)) effective 0)
  end.

Definition guardExplainTab (trimmed : bytes) : result guard_error GuardedQuery :=
  Ok (newGuardedQuery trimmed (sp_string parser trimmed None) 0 0).

Definition Guard (statement : bytes) (requestedMaxRows : Z) : result guard_error GuardedQuery :=
  trimmed ← trimQueryStatement statement;
  if (requestedMaxRows <? 0)%Z then Err ErrQueryLimitInvalid
  else
    stmt ← parseSingleStatement trimmed;
    match stmt with
    | StSelect s => guardSelect s trimmed requestedMaxRows
    | StShow c => guardShow c trimmed
    | StExplain inner => guardExplain inner trimmed requestedMaxRows
    | StExplainTab => guardExplainTab trimmed
    | StOther => Err ErrQueryStatementNotAllowed
    end.

Definition GuardPaginatedSelect (statement : bytes) (page pageSize requestedMaxRows : Z)
    : result guard_error GuardedQuery :=
  trimmed ← trimQueryStatement statement;
  if (requestedMaxRows <? 0)%Z then Err ErrQueryLimitInvalid
  else
    stmt ← parseSingleStatement trimmed;
    let effective := effectiveMaxRows requestedMaxRows in
    match stmt with
    | StSelect s =>
      _ ← validateSelect s;
      '(offset, pageRows) ← paginationWindow page pageSize effective;
      Ok (newGuardedQuery trimmed (sp_string parser trimmed (setPaginatedSelectLimit pageRows offset)) effective pageRows)
    | StShow _ | StExplain _ | StExplainTab => Err ErrQueryPaginationNotApplicable
    | StOther => Err ErrQueryStatementNotAllowed
    end.

Definition GuardExplainSelect (statement : bytes) : result guard_error GuardedQuery :=
  trimmed ← trimQueryStatement statement;
  stmt ← parseSingleStatement trimmed;
  match stmt with
  | StSelect s =>
    _ ← validateSelect s;
    Ok (newGuardedQuery trimmed (sp_string parser trimmed None) 0 0)
  | _ => Err ErrQueryStatementNotAllowed
  end.

Definition GuardSavedStatement (statement : bytes) : result guard_error bytes :=
  trimmed ← trimQueryStatement statement;
  stmt ← parseSingleStatement trimmed;
  match stmt with
  | StSelect s => _ ← validateSelect s; Ok trimmed
  | _ => Err ErrQueryStatementNotAllowed
  end.
End guard.

(** ** Read-only statements *)

Definition read_only_select (s : sql_select) : Prop :=
  sel_Into s = false ∧ sel_Lock s = false
  ∧ Forall (λ n, match n with FuncExpr name => to_upper name ∉ forbiddenFunctions
                         | LockingFunc | AssignmentExpr => False | OtherNode => True end) (sel_nodes s).

Definition read_only_statement (stmt : sql_statement) : Prop :=
  match stmt with
  | StSelect s | StExplain (Some s) => read_only_select s
  | StShow c => c = ShowDatabase ∨ c = ShowTable ∨ c = ShowColumn
  | StExplainTab => True
  | StExplain None | StOther => False
  end.

Lemma forbidden_node_false n :
  forbidden_node n = false ↔
  match n with FuncExpr name => to_upper name ∉ forbiddenFunctions
          | LockingFunc | AssignmentExpr => False | OtherNode => True end.
Proof.
  destruct n as [name| | |]; cbn [forbidden_node]; try (by split).
  generalize (to_upper name). intros u. unfold forbiddenFunctions. cbn [existsb].
  rewrite !orb_false_iff, !bool_decide_eq_false, !not_elem_of_cons. split.
  - intros (?&?&?&_). split_and!; try done. apply not_elem_of_nil.
  - intros (?&?&?&_). auto.
Qed.

Lemma validate_select s : validateSelect s = Ok tt ↔ read_only_select s.
Proof.
  unfold validateSelect, read_only_select. destruct (sel_Into s); [by split; [|intros []]|].
  destruct (sel_Lock s); [by split; [|intros (_&?&_)]|].
  induction (sel_nodes s) as [|n l IH]; cbn; [by split_and!|].
  rewrite Forall_cons, <- forbidden_node_false. destruct (forbidden_node n); cbn.
  - split; [done|]. by intros (_&_&?&_).
  - rewrite IH. naive_solver.
Qed.

(** The window in closed form. *)
Lemma pagination_window_closed page pageSize cap :
  int64_ok page = true → int64_ok pageSize = true → (cap < max_int)%Z →
  paginationWindow page pageSize cap =
  if decide (1 ≤ page ∧ 1 ≤ pageSize ∧ (page - 1) * pageSize < cap)%Z
  then Ok ((page - 1) * pageSize, Z.min pageSize (cap - (page - 1) * pageSize))%Z
  else Err ErrQueryPaginationInvalid.
Proof.
  intros Hp Hs Hc. unfold int64_ok, max_int, max_int64, min_int64 in *. bool_inv. unfold paginationWindow.
  destruct (page <? 1)%Z eqn:E1; cbn; bool_inv; [case_decide; [lia|done]|].
  destruct (pageSize <? 1)%Z eqn:E2; cbn; bool_inv; [case_decide; [lia|done]|].
  destruct (cap <? 1)%Z eqn:E3; cbn; bool_inv; [case_decide; [nia|done]|].
  unfold max_int, max_int64. rewrite Z.quot_div_nonneg by lia.
  pose proof (Z.div_mod (2 ^ 63 - 1) pageSize ltac:(lia)). pose proof (Z.mod_pos_bound (2 ^ 63 - 1) pageSize ltac:(lia)).
  destruct (_ <? page - 1)%Z eqn:E4; bool_inv; [case_decide; [nia|done]|].
  rewrite (to_int64_id ((page - 1) * pageSize)), to_int64_id
    by (unfold int64_ok, min_int64, max_int64; apply andb_true_intro; split; apply Z.leb_le; nia).
  destruct (_ <=? 0)%Z eqn:E5; bool_inv; [case_decide; [lia|done]|].
  destruct (_ =? _)%Z eqn:E6; bool_inv; case_decide; try done; lia.
Qed.

Section properties.
Context (parser : sql_parser) (config : QueryGuardConfig).

(** The text is one statement that parses to [stmt]. *)
Definition parses (trimmed : bytes) (stmt : sql_statement) : Prop :=
  (∃ pieces, sp_split parser trimmed = Some pieces ∧ length (filter (λ p, trim_space p ≠ []) pieces) ≤ 1)
  ∧ sp_parse parser trimmed = Some stmt.

Lemma parse_single trimmed stmt : parseSingleStatement parser trimmed = Ok stmt ↔ parses trimmed stmt.
Proof.
  unfold parseSingleStatement, isMultiStatement, parses. destruct (sp_split parser trimmed) as [pieces|]; cbn [mbind result_bind].
  2: { split; [done|]. by intros ((?&?&_)&_). }
  match goal with |- context [if ?b then _ else _] => destruct b eqn:E end; bool_inv.
  - split; [done|]. intros ((?&[= <-]&?)&_). lia.
  - destruct (sp_parse parser trimmed); split.
    + intros [= <-]. eauto.
    + by intros (_&[= <-]).
    + done.
    + by intros (_&?).
Qed.

Lemma effective_bound requested :
  (0 ≤ gc_DefaultMaxRows config)%Z → (0 ≤ gc_HardMaxRows config)%Z → (0 ≤ requested)%Z →
  (0 ≤ effectiveMaxRows config requested ≤ gc_HardMaxRows config)%Z.
Proof.
  intros. unfold effectiveMaxRows. destruct (requested =? 0)%Z, (_ <? _)%Z eqn:E; bool_inv; lia.
Qed.


(** A page window is granted exactly when the page starts inside the
    release cap; it then starts where the requested page starts, is not longer
    than the page and never reaches past the cap, and the next page, if there is
    one, starts exactly where it ends: pages tile the released rows. *)
Theorem pagination_window_tiles page pageSize cap :
  int64_ok page = true → int64_ok pageSize = true → (cap < max_int)%Z →
  match paginationWindow page pageSize cap with
  | Ok (offset, rows) =>
    (1 ≤ page)%Z ∧ (1 ≤ pageSize)%Z ∧ offset = ((page - 1) * pageSize)%Z
    ∧ (0 ≤ offset)%Z ∧ (1 ≤ rows ≤ pageSize)%Z ∧ (offset + rows ≤ cap)%Z
    ∧ (rows = pageSize ∨ (offset + rows = cap)%Z)
    ∧ (∀ o r, paginationWindow (page + 1) pageSize cap = Ok (o, r) → o = (offset + rows)%Z)
  | Err e => e = ErrQueryPaginationInvalid ∧ ¬ ((1 ≤ page)%Z ∧ (1 ≤ pageSize)%Z ∧ ((page - 1) * pageSize < cap)%Z)
  end.
Proof.
  intros Hp Hs Hc. rewrite pagination_window_closed by done. case_decide as Hin; [|done].
  assert (int64_ok page = true ∧ (page < max_int)%Z) as [_ Hlt] by
    (split; [done|]; unfold int64_ok, max_int, max_int64 in *; bool_inv; nia).
  split_and!; try lia; try nia.
  intros o r Ho. rewrite pagination_window_closed in Ho; [case_decide; [|done]|..].
  - injection Ho as <- _. nia.
  - unfold int64_ok, min_int64, max_int, max_int64 in *. bool_inv. apply andb_true_intro. split; apply Z.leb_le; lia.
  - done.
  - done.
Qed.

(** Pagination is no way around the guard: every statement the paginated,
    explain or saved-statement entry accepts is accepted by the plain guard too,
    and the paginated entry records the same original, digest and preview under
    the same limit. *)
Theorem other_entries_refine_guard statement page pageSize requested :
  (0 ≤ requested)%Z →
  (∀ g, GuardPaginatedSelect parser config statement page pageSize requested = Ok g →
     ∃ g', Guard parser config statement requested = Ok g' ∧ gq_OriginalStatement g = gq_OriginalStatement g'
       ∧ gq_StatementDigest g = gq_StatementDigest g' ∧ gq_StatementPreview g = gq_StatementPreview g'
       ∧ gq_LimitApplied g = gq_LimitApplied g' ∧ (1 ≤ gq_ResultLimit g)%Z)
  ∧ (∀ g, GuardExplainSelect parser statement = Ok g → is_ok (Guard parser config statement requested) = true)
  ∧ (∀ t, GuardSavedStatement parser statement = Ok t →
     t = trim_space statement ∧ is_ok (Guard parser config statement requested) = true).
Proof.
  intros Hreq. unfold GuardPaginatedSelect, GuardExplainSelect, GuardSavedStatement, Guard, trimQueryStatement.
  generalize (trim_space statement). intros t.
  rewrite (proj2 (Z.ltb_ge requested 0)) by lia.
  case_bool_decide; cbn [mbind result_bind]; [by split_and!|].
  destruct (parseSingleStatement parser t) as [[s|c|s| |]|]; cbn [mbind result_bind]; try (by split_and!).
  unfold guardSelect. destruct (validateSelect s); cbn [mbind result_bind]; [|by split_and!].
  split_and!; [|done|by intros t' [= <-]].
  intros g Hg. destruct (paginationWindow _ _ _) as [[o r]|] eqn:Ew; [|done]. cbn [mbind result_bind] in Hg.
  injection Hg as <-. eexists. split; [done|]. cbn. split_and!; try done.
  unfold paginationWindow in Ew. repeat case_match; try done. simplify_eq.
  bool_inv. lia.
Qed.
End properties.

(** A parser that knows one SELECT with a user function, for the witnesses. *)
Definition sample_parser (fname : bytes) : sql_parser :=
  SqlParser (λ s, Some [s]) (λ _, Some (StSelect (SqlSelect false false [OtherNode; FuncExpr fname])))
    (λ s l, match l with
            | Some (None, n) => s ++ gs " limit " ++ format_int n
            | Some (Some o, n) => s ++ gs " limit " ++ format_int o ++ gs ", " ++ format_int n
            | None => s end)
    (λ s, s).
Definition sample_config : QueryGuardConfig := GuardConfig 100 1000.


Lemma pagination_window_tiles_witness :
  paginationWindow 3 25 60 = Ok (50, 10)%Z ∧ (50 + 10 ≤ 60)%Z.
Proof.
  split; [vm_compute; reflexivity|].
  pose proof (pagination_window_tiles 3 25 60 eq_refl eq_refl ltac:(vm_compute; reflexivity)) as H.
  change (paginationWindow 3 25 60) with (@Ok guard_error _ (50, 10)%Z) in H.
  destruct H as (_&_&_&_&_&H&_). exact H.
Defined.

Lemma other_entries_refine_guard_witness :
  is_ok (GuardPaginatedSelect (sample_parser (gs "lower")) sample_config (gs "select lower(x)") 2 10 100) = true
  ∧ is_ok (Guard (sample_parser (gs "lower")) sample_config (gs "select lower(x)") 100) = true.
Proof.
  split; [vm_compute; reflexivity|].
  destruct (other_entries_refine_guard (sample_parser (gs "lower")) sample_config (gs "select lower(x)") 2 10 100
              ltac:(lia)) as (_ & _ & H).
  apply (H (gs "select lower(x)")). vm_compute. reflexivity.
Defined.
