(* ===== verification/MysqlAttempt.v ===== *)
(** * One MySQL/TiDB execution attempt

    [internal/service/query_mysql_execution.go] and the guarded chain of
    [query_execution_service.go]: claim admission, the record each outcome
    writes, the single evidence write every outcome converges on, and the
    success path with its delivery gate. Handlers are state transformers over
    the evidence store, the clock and a trace of the store calls they made. *)
From S2P Require Import Prelude GoText ClaimDigest ExecModel ResultContract ClaimStore TargetAccess QueryGuard.

(** ** The evidence store interface *)

(** [QueryExecutionRepository] and [mysqlClaimStore], as the attempt uses them. *)
Class EvidenceStore (S : Type) : Type := {
  es_claim_capable : bool; (** the repository satisfies [mysqlClaimStore] *)
  es_insert : QueryExecutionRecord → bytes → bytes → S → stored Z * S;
  es_claim : QueryExecutionClaimInput → S → stored unit * S;
  es_finalize : QueryExecutionRecord → bytes → bytes → S → stored Z * S;
}.

(** ** The service's state *)

(** One call on the evidence store, with what it returned. *)
Inductive store_call : Type :=
  | CallInsert (rec : QueryExecutionRecord) (eventType res : bytes) (r : stored Z)
  | CallClaim (c : QueryExecutionClaimInput) (r : stored unit)
  | CallFinalize (rec : QueryExecutionRecord) (eventType res : bytes) (r : stored Z).

Record svc_state (S : Type) : Type := SvcState {
  ss_store : S;
  ss_ticks : nat;               (** clock readings so far *)
  ss_trace : list store_call;   (** store calls so far, oldest first *)
}.
Arguments SvcState {_} _ _ _.
Arguments ss_store {_} _.
Arguments ss_ticks {_} _.
Arguments ss_trace {_} _.

Definition svc (S A : Type) : Type := svc_state S → A * svc_state S.
#[export] Instance svc_ret {S} : MRet (svc S) := λ A a st, (a, st).
#[export] Instance svc_bind {S} : MBind (svc S) := λ A B f m st, let '(a, st) := m st in f a st.

(** ** Errors *)

(** Which sentinels an error chain matches under [errors.Is]. *)
Record exec_error : Type := ExecError {
  xe_deadline : bool;
  xe_canceled : bool;
  xe_disclosure_backend : bool;
  xe_too_large : bool;
  xe_blocked : bool;
}.
(** An error that matches none of them. *)
Definition plain_error : exec_error := ExecError false false false false false.

Inductive sentinel : Type :=
  | ErrQueryTimeout | ErrQueryBackendFailure | ErrQueryValidationFailed | ErrQueryDisclosureBlocked.

Inductive svc_error : Type :=
  | SValidation                                 (** malformed request, before any lookup *)
  | STargetNotFound
  | SNotAllowed (status : QueryCredentialRuntimeStatus)
  | SAccess                                     (** any other resolver error, returned as it is *)
  | SPersistAttempt                             (** [errPersistAttempt] *)
  | SBackendFailure                             (** the bare backend sentinel *)
  | SAlreadyExists | SConflict
  | SGuard (e : guard_error)                    (** [ErrQueryValidationFailed] around the guard's error *)
  | SDisclosureRefused                          (** [ErrQueryNotAllowed] around [ErrQueryDisclosureBlocked] *)
  | STerminal (s : sentinel) (msg : bytes)      (** a classified outcome, with its fixed message *)
  | SBare (s : sentinel)                        (** a classified outcome without a message *)
  | SNavigationSource | SNavigationValues
  | SNotWired                                   (** the backend sentinel, before any lookup *)
  | SSavedStatementNotFound
  | STemplateValues (fields : gmap bytes bytes) (** a code per parameter name *)
  | STemplateCompile
  | SDelivery (e : contract_error)
  | SPanic.                                     (** a Go panic: a failed type assertion or slice expression *)

(** ** Constants *)

Definition defaultQueryTimeout : Z := 5000000000%Z.
Definition productionQueryTimeout : Z := 3000000000%Z.
Definition productionHardMaxRows : Z := 100%Z.

Definition truncateString (s : bytes) (max : nat) : bytes :=
  if length s <=? max then s else take max s.

Definition auditResultFor (status : bytes) : bytes :=
  if status =?b QueryExecutionSuccess then gs "success"
  else if status =?b QueryExecutionTimeout then gs "timeout"
  else if status =?b QueryExecutionFailed then gs "failed"
  else if status =?b QueryExecutionCancelled then gs "cancelled"
  else gs "validation_failed".

Definition clampProductionMaxRows (environment : bytes) (requested : Z) : Z :=
  if isProductionEnvironment environment && ((requested =? 0)%Z || (productionHardMaxRows <? requested)%Z)
  then productionHardMaxRows else requested.

Definition query_timeout (environment : bytes) : Z :=
  if isProductionEnvironment environment then productionQueryTimeout else defaultQueryTimeout.

(** [TargetAccessError.Error]: the fixed message of each denial. *)
Definition access_message (status : QueryCredentialRuntimeStatus) : bytes :=
  match status with
  | RuntimeUnsupportedTarget => gs "engine is not supported for read-only execution"
  | RuntimeIncompleteConnection => gs "target connection metadata is incomplete"
  | RuntimeSecretMissing => gs "credential could not be resolved"
  | RuntimeBindingMismatch => gs "credential is not bound to this target"
  | _ => gs "target is not enabled for execution"
  end.

Definition classifyExecutorError (e : exec_error) : bytes * sentinel * bytes * bytes :=
  if xe_deadline e then
    (QueryExecutionTimeout, ErrQueryTimeout, gs "query_timeout", gs "query exceeded the time limit")
  else if xe_canceled e then
    (QueryExecutionFailed, ErrQueryBackendFailure, gs "query_canceled", gs "query canceled")
  else if xe_disclosure_backend e then
    (QueryExecutionFailed, ErrQueryBackendFailure, gs "query_disclosure_backend_error", gs "query disclosure governance failed")
  else if xe_too_large e then
    (QueryExecutionRejected, ErrQueryValidationFailed, gs "validation_failed", gs "result set exceeds configured limits")
  else if xe_blocked e then
    (QueryExecutionRejected, ErrQueryDisclosureBlocked, gs "query_result_disclosure_blocked", gs "query blocked by result disclosure policy")
  else (QueryExecutionFailed, ErrQueryBackendFailure, gs "query_backend_error", gs "target database query failed").

(** ** Entry kinds *)

Inductive mysqlEntryKind : Type := mysqlEntryOrdinary | mysqlEntrySaved | mysqlEntryNavigation.
Inductive executionEvidenceKind : Type := executionEvidenceQuery | executionEvidenceNavigation.

Definition evidenceKind (k : mysqlEntryKind) : executionEvidenceKind :=
  match k with mysqlEntryNavigation => executionEvidenceNavigation | _ => executionEvidenceQuery end.

Definition evidenceEventType (k : executionEvidenceKind) : bytes :=
  match k with
  | executionEvidenceNavigation => gs "related_record_navigation"
  | executionEvidenceQuery => gs "query.executed"
  end.

(** ** Statement metadata *)

Definition mysqlStatementWithheld : bytes := gs "[statement withheld]".
Definition mysqlStatementDigestMaxRunes : nat := 128.
Definition mysqlStatementPreviewMaxRunes : nat := 512.

(** [utf8SafeTruncate]: the bytes before the rune numbered [maxRunes]. *)
Definition utf8SafeTruncate (s : bytes) (maxRunes : nat) : bytes :=
  if maxRunes <? rune_count s then take (rune_offset maxRunes s) s else s.

(** [sanitized] is what the parser renders of the statement once comments and
    literals are stripped; [None] when it does not parse to a SELECT the
    sanitizer covers. *)
Definition mysqlStatementMetadata (sanitized : bytes → option bytes) (statement : bytes) : bytes * bytes :=
  match sanitized statement with
  | None => (mysqlStatementWithheld, mysqlStatementWithheld)
  | Some rendered => (utf8SafeTruncate rendered mysqlStatementDigestMaxRunes,
                      utf8SafeTruncate rendered mysqlStatementPreviewMaxRunes)
  end.

(** ** The attempt *)

Record mysqlExecutionAttempt : Type := Attempt {
  at_target : QueryTarget;
  at_identity : QueryExecutionIdentity;
  at_start : Z;
  at_kind : mysqlEntryKind;
  at_ownedKey : bytes;
  at_navRelation : bytes;
}.

Record QueryDatabaseResult : Type := DatabaseResult {
  dr_Columns : list QueryResultColumn;
  dr_Rows : page_rows;
  dr_RowCount : Z;
  dr_Truncated : bool;
  dr_CellTruncated : matrix;
}.
Definition empty_result : QueryDatabaseResult := DatabaseResult [] None 0 false None.

Section attempt.
Context {S : Type} `{!EvidenceStore S}.
(** The clock's readings, and the parser's sanitized rendering. *)
Context (now : nat → Z) (sanitized : bytes → option bytes).

Definition tick : svc S Z := λ st, (now (ss_ticks st), SvcState (ss_store st) (1 + ss_ticks st) (ss_trace st)).

Definition store_insert (rec : QueryExecutionRecord) (ev res : bytes) : svc S (stored Z) := λ st,
  let '(r, s') := es_insert rec ev res (ss_store st) in
  (r, SvcState s' (ss_ticks st) (ss_trace st ++ [CallInsert rec ev res r])).
Definition store_claim (c : QueryExecutionClaimInput) : svc S (stored unit) := λ st,
  let '(r, s') := es_claim c (ss_store st) in
  (r, SvcState s' (ss_ticks st) (ss_trace st ++ [CallClaim c r])).
Definition store_finalize (rec : QueryExecutionRecord) (ev res : bytes) : svc S (stored Z) := λ st,
  let '(r, s') := es_finalize rec ev res (ss_store st) in
  (r, SvcState s' (ss_ticks st) (ss_trace st ++ [CallFinalize rec ev res r])).

(** [buildRecord] reads the clock for the duration and for the timestamp. *)
Definition buildRecord (target : QueryTarget) (identity : QueryExecutionIdentity) (guarded : option GuardedQuery)
    (status : bytes) (rowCount : Z) (code msg : bytes) (start : Z) : svc S QueryExecutionRecord :=
  t1 ← tick;
  t2 ← tick;
  let user := id_Kind identity =?b QueryExecutionActorUser in
  mret (ExecutionRecord 0 (tg_ResourceID target)
    (if user then id_ID identity else 0%Z) (if user then 0%Z else id_ID identity)
    (tg_Engine target) [] []
    (match guarded with Some g => gq_StatementDigest g | None => [] end)
    (match guarded with Some g => gq_StatementPreview g | None => [] end)
    (match guarded with
     | Some g => if user && (status =?b QueryExecutionSuccess) then gq_OriginalStatement g else []
     | None => [] end)
    status rowCount (milliseconds (time_sub t1 start)) (truncateString code 64) (truncateString msg 512)
    None [] None (Some t2)).

(** [persistEvidencePair]. *)
Definition persistEvidencePair (rec : QueryExecutionRecord) (kind : executionEvidenceKind) : svc S (stored Z) :=
  store_insert rec (evidenceEventType kind) (auditResultFor (er_Status rec)).

(** The fields [persistRecord] sets for a keyed attempt. *)
Definition keyed_record (rec : QueryExecutionRecord) (key : bytes) : QueryExecutionRecord :=
  ExecutionRecord (er_ID rec) (er_TargetResourceID rec) (er_ActorUserID rec) (er_ActorMachinePrincipalID rec)
    (er_Engine rec) [] [] (er_StatementDigest rec) (er_StatementPreview rec) (er_FullStatement rec)
    (er_Status rec) (er_RowCount rec) (er_DurationMs rec) (er_ErrorCode rec) (er_ErrorMessage rec)
    (er_BackendPID rec) (er_RemoteState rec) (Some key) (er_CreatedAt rec).

(** [None] is any persistence error: every caller answers it with [errPersistAttempt]. *)
Definition persistRecord (a : mysqlExecutionAttempt) (rec : QueryExecutionRecord) : svc S (option Z) :=
  let kind := evidenceKind (at_kind a) in
  let answer := λ r : stored Z, match r with Ok id => Some id | Err _ => None end in
  if at_ownedKey a =?b [] then r ← persistEvidencePair rec kind; mret (answer r)
  else if negb es_claim_capable then mret None
  else
    r ← store_finalize (keyed_record rec (at_ownedKey a)) (evidenceEventType kind) (auditResultFor (er_Status rec));
    mret (answer r).

(** The record with its statement fields replaced. *)
Definition set_statement (rec : QueryExecutionRecord) (digest preview full : bytes) : QueryExecutionRecord :=
  ExecutionRecord (er_ID rec) (er_TargetResourceID rec) (er_ActorUserID rec) (er_ActorMachinePrincipalID rec)
    (er_Engine rec) (er_DatabaseName rec) (er_SchemaName rec) digest preview full
    (er_Status rec) (er_RowCount rec) (er_DurationMs rec) (er_ErrorCode rec) (er_ErrorMessage rec)
    (er_BackendPID rec) (er_RemoteState rec) (er_ClientExecutionID rec) (er_CreatedAt rec).

Definition attempt_statement (a : mysqlExecutionAttempt) (guarded : option GuardedQuery) (rec : QueryExecutionRecord)
    : QueryExecutionRecord :=
  match at_kind a with
  | mysqlEntryNavigation =>
    if at_navRelation a =?b [] then set_statement rec (gs "nav:unresolved") (gs "related:unresolved") []
    else set_statement rec (truncateString (gs "nav:" ++ at_navRelation a) 128)
           (truncateString (gs "related:" ++ at_navRelation a) 256) []
  | mysqlEntrySaved => set_statement rec [] [] []
  | mysqlEntryOrdinary =>
    match guarded with
    | Some g => if gq_OriginalStatement g =?b [] then rec
                else let '(digest, preview) := mysqlStatementMetadata sanitized (gq_OriginalStatement g) in
                     set_statement rec digest preview (er_FullStatement rec)
    | None => rec
    end
  end.

Definition buildAttemptRecord (a : mysqlExecutionAttempt) (guarded : option GuardedQuery) (status : bytes)
    (rowCount : Z) (code msg : bytes) : svc S QueryExecutionRecord :=
  rec ← buildRecord (at_target a) (at_identity a) guarded status rowCount code msg (at_start a);
  mret (attempt_statement a guarded rec).

(** [claimFailure]: one keyless failed pair, whatever the key was. *)
Definition claimFailure (a : mysqlExecutionAttempt) : svc S svc_error :=
  rec ← buildRecord (at_target a) (at_identity a) None QueryExecutionFailed 0
          (gs "query_backend_error") (gs "query claim admission failed") (at_start a);
  r ← persistEvidencePair rec (evidenceKind (at_kind a));
  mret (match r with Ok _ => SBackendFailure | Err _ => SPersistAttempt end).

Definition own_key (a : mysqlExecutionAttempt) (key : bytes) : mysqlExecutionAttempt :=
  Attempt (at_target a) (at_identity a) (at_start a) (at_kind a) key (at_navRelation a).

(** [mysqlExecutionAttempt.admit]; [timeout] is a duration in nanoseconds. *)
Definition admit_claim (a : mysqlExecutionAttempt) (key digest : bytes) (timeout : Z)
    : svc S (result svc_error mysqlExecutionAttempt) :=
  if key =?b [] then mret (Ok a)
  else if negb es_claim_capable then e ← claimFailure a; mret (Err e)
  else
    t ← tick;
    r ← store_claim (ClaimInput (tg_ResourceID (at_target a)) key (at_identity a) [] [] digest
                       (milliseconds timeout) (Some t));
    match r with
    | Ok _ => mret (Ok (own_key a key))
    | Err ErrQueryExecutionClaimExists => mret (Err SAlreadyExists)
    | Err ErrQueryExecutionClaimConflict => mret (Err SConflict)
    | Err _ => e ← claimFailure a; mret (Err e)
    end.

(** Persist one record; answer [retErr], or the persistence error if that failed. *)
Definition persist_then {A} (a : mysqlExecutionAttempt) (rec : QueryExecutionRecord) (retErr : svc_error)
    : svc S (result svc_error A) :=
  r ← persistRecord a rec;
  mret (Err (match r with Some _ => retErr | None => SPersistAttempt end)).

Definition reject {A} (a : mysqlExecutionAttempt) (guarded : option GuardedQuery) (code msg : bytes)
    (retErr : svc_error) : svc S (result svc_error A) :=
  rec ← buildAttemptRecord a guarded QueryExecutionRejected 0 code msg;
  persist_then a rec retErr.

Definition navReject {A} (a : mysqlExecutionAttempt) (code msg : bytes) (retErr : svc_error)
    : svc S (result svc_error A) := reject a None code msg retErr.

Definition recordTerminalOutcome {A} (a : mysqlExecutionAttempt) (guarded : option GuardedQuery) (e : exec_error)
    : svc S (result svc_error A) :=
  let '(status, sent, code, safeMsg) := classifyExecutorError e in
  rec ← buildAttemptRecord a guarded status 0 code safeMsg;
  persist_then a rec (STerminal sent safeMsg).

Definition navTerminalOutcome {A} (a : mysqlExecutionAttempt) (e : exec_error) : svc S (result svc_error A) :=
  recordTerminalOutcome a None e.

(** The pre-claim variant answers the bare sentinel. *)
Definition navPreparationOutcome {A} (a : mysqlExecutionAttempt) (e : exec_error) : svc S (result svc_error A) :=
  let '(status, sent, code, safeMsg) := classifyExecutorError e in
  rec ← buildAttemptRecord a None status 0 code safeMsg;
  persist_then a rec (SBare sent).

(** A success record turned into the failed record of malformed evidence. *)
Definition malformed_record (rec : QueryExecutionRecord) : QueryExecutionRecord :=
  ExecutionRecord (er_ID rec) (er_TargetResourceID rec) (er_ActorUserID rec) (er_ActorMachinePrincipalID rec)
    (er_Engine rec) (er_DatabaseName rec) (er_SchemaName rec) (er_StatementDigest rec) (er_StatementPreview rec) []
    QueryExecutionFailed 0 (er_DurationMs rec) (gs "query_backend_error")
    (gs "query backend returned malformed result evidence")
    (er_BackendPID rec) (er_RemoteState rec) (er_ClientExecutionID rec) (er_CreatedAt rec).

Definition success_record (rec : QueryExecutionRecord) (rowCount : Z) : QueryExecutionRecord :=
  ExecutionRecord (er_ID rec) (er_TargetResourceID rec) (er_ActorUserID rec) (er_ActorMachinePrincipalID rec)
    (er_Engine rec) (er_DatabaseName rec) (er_SchemaName rec) (er_StatementDigest rec) (er_StatementPreview rec)
    (er_FullStatement rec) QueryExecutionSuccess rowCount (er_DurationMs rec) (er_ErrorCode rec) (er_ErrorMessage rec)
    (er_BackendPID rec) (er_RemoteState rec) (er_ClientExecutionID rec) (er_CreatedAt rec).

(** [finalizeSuccess]: the payload and execution id, or the error and the id it leaves behind. *)
Definition finalizeSuccess (a : mysqlExecutionAttempt) (rec : QueryExecutionRecord) (res : QueryDatabaseResult)
    (caps : list bytes) : svc S (result svc_error QueryDatabaseResult * Z) :=
  match validateCellTruncatedMatrix (length (dr_Columns res)) (dr_Rows res) (dr_CellTruncated res) with
  | Err _ =>
    r ← persistRecord a (malformed_record rec);
    mret (Err (match r with Some _ => SBackendFailure | None => SPersistAttempt end), 0%Z)
  | Ok _ =>
    let owned := DatabaseResult (dr_Columns res) (cloneRows (dr_Rows res)) (dr_RowCount res) (dr_Truncated res)
                   (CloneCellTruncated (dr_CellTruncated res)) in
    r ← persistRecord a (success_record rec (dr_RowCount owned));
    match r with
    | None => mret (Err SPersistAttempt, 0%Z)
    | Some execID =>
      match DecideResultDelivery (DeliveryInput None (dr_Columns owned) (dr_Rows owned) (dr_CellTruncated owned) caps) with
      | Err e => mret (Err (SDelivery e), execID)
      | Ok d => mret (Ok (DatabaseResult (dr_Columns owned) (dd_Rows d) (dr_RowCount owned) (dr_Truncated owned)
                            (dd_CellTruncated d)), execID)
      end
    end
  end.

(** ** The guarded chain *)

Record QueryExecutePaginationResponse : Type := PaginationResponse {
  pp_Page : Z; pp_PageSize : Z; pp_HasPreviousPage : bool; pp_HasNextPage : bool;
}.

Record QueryExecuteResponse : Type := ExecuteResponse {
  rs_ExecutionID : Z;
  rs_Status : bytes;
  rs_TargetResourceID : Z;
  rs_Engine : bytes;
  rs_Columns : list QueryResultColumn;
  rs_Rows : page_rows;
  rs_RowCount : Z;
  rs_CellTruncated : matrix;
  rs_Truncated : bool;
  rs_DurationMs : Z;
  rs_LimitApplied : Z;
  rs_ExecutedAt : Z;
  rs_Pagination : option QueryExecutePaginationResponse;
}.

(** The disclosure planner and one executor call, as the chain sees them. *)
Context {Plan : Type}.
Context (disclosure_apply : Plan → list QueryResultColumn → page_rows → result exec_error (list QueryResultColumn * page_rows)).

Definition page_response (guarded : GuardedQuery) (truncated : bool) (page pageSize : Z)
    : option QueryExecutePaginationResponse :=
  if (0 <? gq_ResultLimit guarded)%Z then
    let offset := to_int64 ((page - 1) * pageSize) in
    Some (PaginationResponse page (gq_ResultLimit guarded) (1 <? page)%Z
            (truncated && (to_int64 (offset + gq_ResultLimit guarded) <? gq_LimitApplied guarded)%Z))
  else None.

(** [preflight] and [run] are the outcomes of the two external calls. *)
Definition executeGuardedChain (a : mysqlExecutionAttempt) (guarded : GuardedQuery)
    (preflight : result exec_error Plan) (run : result exec_error QueryDatabaseResult)
    (capabilities : list bytes) (page pageSize : Z) : svc S (result svc_error QueryExecuteResponse) :=
  match preflight with
  | Err e =>
    if xe_blocked e && negb (xe_canceled e) && negb (xe_deadline e) then
      reject a (Some guarded) (gs "query_result_disclosure_blocked") (gs "query blocked by result disclosure policy")
        SDisclosureRefused
    else recordTerminalOutcome a (Some guarded) e
  | Ok plan =>
    match run with
    | Err e => recordTerminalOutcome a (Some guarded) e
    | Ok res =>
      match validateCellTruncatedMatrix (length (dr_Columns res)) (dr_Rows res) (dr_CellTruncated res) with
      | Err _ => recordTerminalOutcome a (Some guarded) plain_error
      | Ok _ =>
        match disclosure_apply plan (dr_Columns res) (dr_Rows res) with
        | Err e => recordTerminalOutcome a (Some guarded) e
        | Ok (columns, rows) =>
          let res := DatabaseResult columns rows (dr_RowCount res) (dr_Truncated res) (dr_CellTruncated res) in
          rec ← buildAttemptRecord a (Some guarded) QueryExecutionSuccess 0 [] [];
          '(owned, execID) ← finalizeSuccess a rec res capabilities;
          match owned with
          | Err e => mret (Err e)
          | Ok owned =>
            t1 ← tick;
            t2 ← tick;
            mret (Ok (ExecuteResponse execID QueryExecutionSuccess (tg_ResourceID (at_target a)) (tg_Engine (at_target a))
                        (dr_Columns owned) (dr_Rows owned) (dr_RowCount owned) (dr_CellTruncated owned)
                        (dr_Truncated owned) (milliseconds (time_sub t1 (at_start a))) (gq_LimitApplied guarded) t2
                        (page_response guarded (dr_Truncated owned) page pageSize)))
          end
        end
      end
    end
  end.
End attempt.

(** ** Reasoning about handlers

    [triple m Q]: from every state, [m] extends the trace by calls the store
    really answered that way, and [Q] holds of its result and those calls. *)

Section logic.
Context {S : Type} `{!EvidenceStore S}.

Definition answers (c : store_call) (s s' : S) : Prop :=
  match c with
  | CallInsert rec ev res r => es_insert rec ev res s = (r, s')
  | CallClaim c r => es_claim c s = (r, s')
  | CallFinalize rec ev res r => es_finalize rec ev res s = (r, s')
  end.

Inductive replays : list store_call → S → S → Prop :=
  | replays_nil s : replays [] s s
  | replays_cons c t s s1 s' : answers c s s1 → replays t s1 s' → replays (c :: t) s s'.

Definition triple {A} (m : svc S A) (Q : A → list store_call → Prop) : Prop :=
  ∀ st, let '(r, st') := m st in
  ∃ t, ss_trace st' = ss_trace st ++ t ∧ replays t (ss_store st) (ss_store st') ∧ Q r t.

Lemma replays_app t1 t2 s s1 s' : replays t1 s s1 → replays t2 s1 s' → replays (t1 ++ t2) s s'.
Proof. induction 1; [done|]. intros. cbn. econstructor; eauto. Qed.

Lemma replays_one c s s' : answers c s s' → replays [c] s s'.
Proof. intros. econstructor; [done|constructor]. Qed.

Lemma triple_ret {A} (x : A) (Q : A → list store_call → Prop) : Q x [] → triple (mret x) Q.
Proof. intros HQ st. exists []. cbn. rewrite app_nil_r. split_and!; [done|constructor|done]. Qed.

Lemma triple_bind {A B} (m : svc S A) (f : A → svc S B) (P : A → list store_call → Prop) Q :
  triple m P → (∀ x t, P x t → triple (f x) (λ y t', Q y (t ++ t'))) → triple (m ≫= f) Q.
Proof.
  intros Hm Hf st. unfold mbind, svc_bind. specialize (Hm st). destruct (m st) as [x st1].
  destruct Hm as (t & Ht & Hr & HP). specialize (Hf x t HP st1). destruct (f x st1) as [y st2].
  destruct Hf as (t' & Ht' & Hr' & HQ). exists (t ++ t').
  rewrite Ht', Ht, app_assoc. split_and!; [done|by eapply replays_app|done].
Qed.

Lemma triple_mono {A} (m : svc S A) (P Q : A → list store_call → Prop) :
  triple m P → (∀ x t, P x t → Q x t) → triple m Q.
Proof.
  intros Hm HPQ st. specialize (Hm st). destruct (m st) as [x st']. destruct Hm as (t & ? & ? & ?). eauto.
Qed.

Lemma triple_tick now : triple (tick now) (λ _ t, t = []).
Proof. intros st. exists []. cbn. rewrite app_nil_r. split_and!; [done|constructor|done]. Qed.

Lemma triple_insert rec ev res : triple (store_insert rec ev res) (λ w t, t = [CallInsert rec ev res w]).
Proof.
  intros st. unfold store_insert. destruct (es_insert _ _ _ _) as [w s'] eqn:E.
  eexists. split_and!; [done|by apply replays_one|done].
Qed.
Lemma triple_claim c : triple (store_claim c) (λ w t, t = [CallClaim c w]).
Proof.
  intros st. unfold store_claim. destruct (es_claim _ _) as [w s'] eqn:E.
  eexists. split_and!; [done|by apply replays_one|done].
Qed.
Lemma triple_finalize rec ev res : triple (store_finalize rec ev res) (λ w t, t = [CallFinalize rec ev res w]).
Proof.
  intros st. unfold store_finalize. destruct (es_finalize _ _ _ _) as [w s'] eqn:E.
  eexists. split_and!; [done|by apply replays_one|done].
Qed.
End logic.

(** What the store promises: an id it returns names a durable execution with
    that record, and nothing it does later removes or changes one. *)
Class EvidenceLaws (S : Type) `{EvidenceStore S} : Type := {
  es_valid : S → Prop;
  es_recorded : S → Z → QueryExecutionRecord → Prop;
  es_call_valid c s s' : answers c s s' → es_valid s → es_valid s';
  es_call_keeps c s s' id rec : answers c s s' → es_valid s → es_recorded s id rec → es_recorded s' id rec;
  es_insert_recorded rec ev res s id s' :
    es_valid s → es_insert rec ev res s = (Ok id, s') → es_recorded s' id rec;
  es_finalize_recorded rec ev res s id s' :
    es_valid s → es_finalize rec ev res s = (Ok id, s') → es_recorded s' id rec;
}.

(** ** What one outcome writes *)

Definition written {A} (w : result store_error A) : option A := match w with Ok x => Some x | Err _ => None end.

(** The one evidence call of an attempt: the keyless pair, or the keyed
    finalize once a key is owned. *)
Definition write_of (a : mysqlExecutionAttempt) (rec : QueryExecutionRecord) (w : stored Z) : store_call :=
  let ev := evidenceEventType (evidenceKind (at_kind a)) in
  if at_ownedKey a =?b [] then CallInsert rec ev (auditResultFor (er_Status rec)) w
  else CallFinalize (keyed_record rec (at_ownedKey a)) ev (auditResultFor (er_Status rec)) w.

(** What no attempt may leave in history: SQL text of the entries that must
    not persist it, or a full statement next to an unsuccessful outcome. *)
Definition private_record (a : mysqlExecutionAttempt) (rec : QueryExecutionRecord) : Prop :=
  match at_kind a with
  | mysqlEntrySaved => er_StatementDigest rec = [] ∧ er_StatementPreview rec = [] ∧ er_FullStatement rec = []
  | mysqlEntryNavigation =>
    er_FullStatement rec = [] ∧
    (er_StatementDigest rec, er_StatementPreview rec) =
      if at_navRelation a =?b [] then (gs "nav:unresolved", gs "related:unresolved")
      else (truncateString (gs "nav:" ++ at_navRelation a) 128, truncateString (gs "related:" ++ at_navRelation a) 256)
  | mysqlEntryOrdinary => er_FullStatement rec = [] ∨ er_Status rec = QueryExecutionSuccess
  end.

(** The record is the attempt's own: its target, its actor, no key of its own. *)
Definition attributed (a : mysqlExecutionAttempt) (rec : QueryExecutionRecord) : Prop :=
  er_TargetResourceID rec = tg_ResourceID (at_target a) ∧ er_Engine rec = tg_Engine (at_target a)
  ∧ er_ClientExecutionID rec = None ∧ er_DatabaseName rec = [] ∧ er_SchemaName rec = []
  ∧ er_BackendPID rec = None ∧ er_RemoteState rec = []
  ∧ (er_ActorUserID rec, er_ActorMachinePrincipalID rec) =
      (if id_Kind (at_identity a) =?b QueryExecutionActorUser then (id_ID (at_identity a), 0%Z)
       else (0%Z, id_ID (at_identity a))).

(** The status recorded for a classified error. *)
Definition sentinel_status (s : sentinel) : bytes :=
  match s with
  | ErrQueryTimeout => QueryExecutionTimeout
  | ErrQueryBackendFailure => QueryExecutionFailed
  | ErrQueryValidationFailed | ErrQueryDisclosureBlocked => QueryExecutionRejected
  end.
(** [None]: nothing determines it, because the write failed or because the
    error is never answered next to a record. *)
Definition error_status (e : svc_error) : option bytes :=
  match e with
  | SPersistAttempt => None
  | SValidation | STargetNotFound | SAccess | SNotWired | SPanic | SAlreadyExists | SConflict => None
  | SDelivery _ => Some QueryExecutionSuccess
  | STerminal s _ | SBare s => Some (sentinel_status s)
  | SBackendFailure => Some QueryExecutionFailed
  | _ => Some QueryExecutionRejected
  end.

(** How an error answer relates to the record [rec] and the write's answer [w]:
    a lost write is reported as such, and otherwise the error determines the
    recorded status; only a refusal at the delivery gate leaves a success. *)
Definition failure_evidence (caps : list bytes) (e : svc_error) (rec : QueryExecutionRecord) (w : stored Z) : Prop :=
  (written w = None ↔ e = SPersistAttempt)
  ∧ (e = SPersistAttempt ∨ is_Some (error_status e))
  ∧ (∀ status, error_status e = Some status → er_Status rec = status)
  ∧ (∀ c, e = SDelivery c → c = ErrResultContractUpgradeRequired ∧ CapabilityCellTruncated ∉ caps)
  ∧ (∀ s msg, e = STerminal s msg → er_ErrorMessage rec = msg).

(** How a released page relates to its record. *)
Definition success_evidence (caps : list bytes) (execID : Z) (res : QueryDatabaseResult) (rec : QueryExecutionRecord)
    (w : stored Z) : Prop :=
  w = Ok execID ∧ er_Status rec = QueryExecutionSuccess ∧ er_RowCount rec = dr_RowCount res
  ∧ aligned (length (dr_Columns res)) (dr_Rows res) (dr_CellTruncated res)
  ∧ (no_cell_truncated (dr_CellTruncated res) ∨ CapabilityCellTruncated ∈ caps).

(** One attempt's answer, and the single write that goes with it. *)
Definition evidence_of {A} (a : mysqlExecutionAttempt) (caps : list bytes)
    (good : A → QueryExecutionRecord → stored Z → Prop) (r : result svc_error A) (t : list store_call) : Prop :=
  ∃ rec w, t = [write_of a rec w] ∧ attributed a rec ∧ private_record a rec
    ∧ match r with Err e => failure_evidence caps e rec w | Ok x => good x rec w end.

Section evidence.
Context {S : Type} `{!EvidenceStore S} (now : nat → Z) (sanitized : bytes → option bytes).
Implicit Types (a : mysqlExecutionAttempt) (rec : QueryExecutionRecord) (caps : list bytes).

(** A claim can only be owned on a store that has claims. *)
Definition claims_supported a : Prop := at_ownedKey a = [] ∨ es_claim_capable = true.

Lemma persistRecord_spec a rec :
  claims_supported a → triple (persistRecord a rec) (λ o t, ∃ w, o = written w ∧ t = [write_of a rec w]).
Proof.
  unfold claims_supported, persistRecord, write_of, persistEvidencePair. intros Hs. case_bool_decide as Ek.
  - eapply triple_bind; [apply triple_insert|]. intros w t ->. apply triple_ret. by exists w; destruct w.
  - destruct Hs as [Hs|Hc]; [by destruct Ek|]. rewrite Hc. cbn [negb].
    eapply triple_bind; [apply triple_finalize|]. intros w t ->. apply triple_ret. by exists w; destruct w.
Qed.

Lemma attempt_statement_fields a g rec :
  let rec' := attempt_statement sanitized a g rec in
  (attributed a rec → attributed a rec')
  ∧ er_Status rec' = er_Status rec ∧ er_RowCount rec' = er_RowCount rec ∧ er_ErrorMessage rec' = er_ErrorMessage rec.
Proof.
  unfold attempt_statement, attributed. cbv zeta. destruct (at_kind a); [|cbn; auto|].
  - destruct g as [g|]; [|auto]. case_nil; [by auto|].
    destruct (mysqlStatementMetadata _ _). cbn. auto.
  - case_nil; cbn; auto.
Qed.

Lemma attempt_statement_private a g rec :
  (er_FullStatement rec = [] ∨ er_Status rec = QueryExecutionSuccess) →
  private_record a (attempt_statement sanitized a g rec).
Proof.
  unfold attempt_statement, private_record. intros H. destruct (at_kind a); [|done|].
  - destruct g as [g|]; [|done]. case_nil; [done|].
    by destruct (mysqlStatementMetadata _ _).
  - by case_nil.
Qed.

Lemma buildAttemptRecord_spec a g status rows code msg :
  triple (buildAttemptRecord now sanitized a g status rows code msg)
    (λ rec t, t = [] ∧ attributed a rec ∧ private_record a rec ∧ er_Status rec = status
       ∧ er_RowCount rec = rows ∧ er_ErrorMessage rec = truncateString msg 512).
Proof.
  unfold buildAttemptRecord, buildRecord.
  eapply triple_bind with (P := λ rec t, t = [] ∧ attributed a rec ∧ er_Status rec = status
    ∧ er_RowCount rec = rows ∧ er_ErrorMessage rec = truncateString msg 512
    ∧ (er_FullStatement rec = [] ∨ er_Status rec = QueryExecutionSuccess)).
  - eapply triple_bind; [apply triple_tick|]. intros t1 ? ->.
    eapply triple_bind; [apply triple_tick|]. intros t2 ? ->. apply triple_ret.
    unfold attributed. cbn. split_and!; try done; [by case_bool_decide|].
    destruct g; [|by left]. destruct (_ && _) eqn:E; [|by left]. right. by bool_inv.
  - intros rec ? (-> & Hat & Hs & Hr & Hm & Hf). apply triple_ret.
    destruct (attempt_statement_fields a g rec) as (Ha & Es & Er & Em).
    rewrite Es, Er, Em. split_and!; auto. by apply attempt_statement_private.
Qed.
Lemma persist_then_spec {A} a caps (good : A → _) rec retErr :
  claims_supported a → attributed a rec → private_record a rec →
  error_status retErr = Some (er_Status rec) → (∀ c, retErr ≠ SDelivery c) →
  (∀ s msg, retErr = STerminal s msg → er_ErrorMessage rec = msg) →
  triple (persist_then a rec retErr) (evidence_of a caps good).
Proof.
  intros Hs Hat Hp He Hd Hm. unfold persist_then.
  eapply triple_bind; [by apply persistRecord_spec|]. intros o t (w & -> & ->). apply triple_ret.
  exists rec, w. split_and!; [done..|]. unfold failure_evidence. destruct w as [id|e]; cbn [written].
  - split_and!; try done; [by split; [|intros ->]|by right; rewrite He|congruence|]. by intros c ->; destruct (Hd c).
  - by split_and!; [|left|..].
Qed.

Lemma reject_spec {A} a caps (good : A → _) g code msg retErr :
  claims_supported a → error_status retErr = Some QueryExecutionRejected →
  (∀ s m, retErr ≠ STerminal s m) →
  triple (reject now sanitized a g code msg retErr) (evidence_of a caps good).
Proof.
  intros Hs He Ht. unfold reject. eapply triple_bind; [apply buildAttemptRecord_spec|].
  intros rec ? (-> & Hat & Hp & Est & _). apply persist_then_spec; try done.
  - by rewrite Est.
  - by intros c ->.
  - intros s m ->. by destruct (Ht s m).
Qed.

Lemma classify_status e :
  let '(status, sent, code, msg) := classifyExecutorError e in
  sentinel_status sent = status ∧ truncateString msg 512 = msg.
Proof.
  destruct e as [[] [] [] [] []]; cbv beta iota delta [classifyExecutorError xe_deadline xe_canceled
    xe_disclosure_backend xe_too_large xe_blocked]; split; by vm_compute.
Qed.

Lemma recordTerminalOutcome_spec {A} a caps (good : A → _) g e :
  claims_supported a → triple (recordTerminalOutcome now sanitized a g e) (evidence_of a caps good).
Proof.
  intros Hs. unfold recordTerminalOutcome. pose proof (classify_status e) as Hc.
  destruct (classifyExecutorError e) as [[[status sent] code] msg]. destruct Hc as [Hst Hm].
  eapply triple_bind; [apply buildAttemptRecord_spec|].
  intros rec ? (-> & Hat & Hp & Est & _ & Em). apply persist_then_spec; try done.
  - cbn. by rewrite Hst, Est.
  - intros s m [= <- <-]. by rewrite Em.
Qed.

Lemma navPreparationOutcome_spec {A} a caps (good : A → _) e :
  claims_supported a → triple (navPreparationOutcome now sanitized a e) (evidence_of a caps good).
Proof.
  intros Hs. unfold navPreparationOutcome. pose proof (classify_status e) as Hc.
  destruct (classifyExecutorError e) as [[[status sent] code] msg]. destruct Hc as [Hst Hm].
  eapply triple_bind; [apply buildAttemptRecord_spec|].
  intros rec ? (-> & Hat & Hp & Est & _ & Em). apply persist_then_spec; try done.
  cbn. by rewrite Hst, Est.
Qed.

(** The gate after a durable success: only the capability can refuse. *)
Lemma delivery_of_valid columns rows m caps :
  aligned (length columns) rows m →
  (∃ d, DecideResultDelivery (DeliveryInput None columns rows m caps) = Ok d
     ∧ dd_Rows d = rows ∧ dd_CellTruncated d = m
     ∧ (no_cell_truncated m ∨ CapabilityCellTruncated ∈ caps))
  ∨ DecideResultDelivery (DeliveryInput None columns rows m caps) = Err ErrResultContractUpgradeRequired
    ∧ CapabilityCellTruncated ∉ caps.
Proof.
  intros Hv. apply matrix_valid in Hv. unfold DecideResultDelivery. cbn [di_UpstreamErr di_Columns di_Rows di_CellTruncated di_Capabilities].
  rewrite Hv. cbn [mbind result_bind]. rewrite clone_rows, clone_matrix.
  destruct (AnyCellTruncated m) eqn:Ea; cbn [andb].
  - destruct (hasCellTruncatedCapability caps) eqn:Eh; cbn [negb].
    + left. eexists. split; [done|]. split_and!; try done. right. by apply capability_spec.
    + right. split; [done|]. rewrite <- capability_spec. congruence.
  - left. eexists. split; [done|]. split_and!; try done. left. by apply any_truncated_false.
Qed.

(** [finalizeSuccess] answers with the page and the id it recorded. *)
Definition finalized caps (r : result svc_error QueryDatabaseResult * Z) rec (w : stored Z) : Prop :=
  match r.1 with
  | Err e => failure_evidence caps e rec w
  | Ok res => success_evidence caps r.2 res rec w
  end.

Lemma finalizeSuccess_spec a caps rec res :
  claims_supported a → attributed a rec → private_record a rec → er_Status rec = QueryExecutionSuccess →
  triple (finalizeSuccess a rec res caps)
    (λ r t, ∃ rec' w, t = [write_of a rec' w] ∧ attributed a rec' ∧ private_record a rec'
       ∧ finalized caps r rec' w ∧ (∀ res', r.1 = Ok res' → res' = res)).
Proof.
  intros Hs Hat Hp Hst. unfold finalizeSuccess.
  destruct (validateCellTruncatedMatrix _ _ _) as [[]|] eqn:Ev.
  - rewrite clone_rows, clone_matrix. cbv zeta. cbn [dr_Columns dr_Rows dr_RowCount dr_Truncated dr_CellTruncated].
    eapply triple_bind; [by apply persistRecord_spec|].
    intros o t (w & -> & ->). destruct w as [id|e]; cbn [written].
    + apply matrix_valid in Ev.
      destruct (delivery_of_valid _ _ _ caps Ev) as [(d & -> & Hr & Hm & Hc)|[-> Hc]]; apply triple_ret;
        exists (success_record rec (dr_RowCount res)), (Ok id);
        (split_and!; [done|done|by unfold private_record in *; destruct (at_kind a); auto| |]).
      * cbn. rewrite Hr, Hm. done.
      * cbn. rewrite Hr, Hm. intros res' [= <-]. by destruct res.
      * cbn. by split_and!; [split|right; eexists|intros ? [= <-]|intros ? [= <-]|].
      * by cbn.
    + apply triple_ret. exists (success_record rec (dr_RowCount res)), (Err e).
      split_and!; [done|done|by unfold private_record in *; destruct (at_kind a); auto| |done].
      cbn. by split_and!; [|left|..].
  - eapply triple_bind; [by apply persistRecord_spec|].
    intros o t (w & -> & ->). apply triple_ret. exists (malformed_record rec), w.
    split_and!; [done|done|unfold private_record in *; destruct (at_kind a); naive_solver| |by destruct w].
    destruct w; unfold finalized, failure_evidence; cbn.
    + by split_and!; [split|right; eexists|intros ? [= <-]|..].
    + by split_and!; [|left|..].
Qed.
Context {Plan : Type} (apply : Plan → list QueryResultColumn → page_rows → result exec_error (list QueryResultColumn * page_rows)).

Definition page_of (resp : QueryExecuteResponse) : QueryDatabaseResult :=
  DatabaseResult (rs_Columns resp) (rs_Rows resp) (rs_RowCount resp) (rs_Truncated resp) (rs_CellTruncated resp).

(** A page leaves only as the disclosure planner rewrote the executor's page. *)
Definition disclosed (preflight : result exec_error Plan) (run : result exec_error QueryDatabaseResult)
    (page : QueryDatabaseResult) : Prop :=
  ∃ plan res, preflight = Ok plan ∧ run = Ok res
    ∧ apply plan (dr_Columns res) (dr_Rows res) = Ok (dr_Columns page, dr_Rows page)
    ∧ dr_CellTruncated page = dr_CellTruncated res ∧ dr_Truncated page = dr_Truncated res.

Definition released a caps preflight run (resp : QueryExecuteResponse) rec (w : stored Z) : Prop :=
  success_evidence caps (rs_ExecutionID resp) (page_of resp) rec w
  ∧ rs_Status resp = QueryExecutionSuccess ∧ rs_TargetResourceID resp = tg_ResourceID (at_target a)
  ∧ disclosed preflight run (page_of resp).

Lemma executeGuardedChain_spec a caps guarded preflight run page pageSize :
  claims_supported a →
  triple (executeGuardedChain now sanitized apply a guarded preflight run caps page pageSize)
    (evidence_of a caps (released a caps preflight run)).
Proof.
  intros Hs. unfold executeGuardedChain. destruct preflight as [plan|e].
  2:{ case_match; [by apply reject_spec|by apply recordTerminalOutcome_spec]. }
  destruct run as [res|e]; [|by apply recordTerminalOutcome_spec].
  destruct (validateCellTruncatedMatrix _ _ _) as [[]|]; [|by apply recordTerminalOutcome_spec].
  destruct (apply _ _ _) as [[columns rows]|e] eqn:Ea; [|by apply recordTerminalOutcome_spec].
  eapply triple_bind; [apply buildAttemptRecord_spec|]. intros rec ? (-> & Hat & Hp & Est & _).
  eapply triple_bind; [by apply finalizeSuccess_spec|].
  intros [r id] t (rec' & w & -> & Hat' & Hp' & Hf & Hres). destruct r as [owned|e]; cbn [fst snd] in *.
  - eapply triple_bind; [apply triple_tick|]. intros ? ? ->.
    eapply triple_bind; [apply triple_tick|]. intros ? ? ->. apply triple_ret.
    exists rec', w. split_and!; [done..|]. pose proof (Hres _ eq_refl) as ->. split; [apply Hf|].
    split; [done|]. split; [done|]. by exists plan, res.
  - apply triple_ret. by exists rec', w.
Qed.
End evidence.
