(* ===== verification/MysqlEntries.v ===== *)
(** * The keyed MySQL/TiDB entries

    [Execute] and [NavigateRelatedRecords] of
    [internal/service/query_execution_service.go] and the request bounds of
    [internal/model/related_record_navigation.go]. Each entry validates,
    resolves access, prepares, admits the claim, runs the external calls and
    converges on one evidence write; [entry_outcome] is the contract they share. *)
From S2P Require Import Prelude GoText ClaimDigest ExecModel ResultContract ClaimStore TargetAccess QueryGuard MysqlAttempt.

(** ** Related-record navigation: the request *)

Definition MaxSourceDatabaseLength : nat := 128.
Definition MaxSourceObjectLength : nat := 128.
Definition MaxForeignKeyNameLength : nat := 128.
Definition MaxLocalValueLength : nat := 1024.
Definition MaxLocalValuesCount : nat := 16.
Definition MaxRelatedRowsDefault : Z := 100%Z.
Definition MaxRelatedRowsHard : Z := 500%Z.

Record RelatedRecordNavigationRequest : Type := NavigationRequest {
  nr_Database : bytes; (** [Source.Database], and so on *)
  nr_Schema : bytes;
  nr_Object : bytes;
  nr_Kind : bytes;
  nr_ForeignKey : bytes;
  nr_LocalValues : list bytes;
  nr_MaxRows : Z;
  nr_ClientExecutionID : bytes;
  nr_Capabilities : list bytes;
}.

Inductive navigation_error : Type :=
  | NavDatabaseRequired | NavDatabaseTooLong | NavSchemaTooLong | NavKey (e : model_error)
  | NavObjectRequired | NavObjectTooLong | NavKindNotTable | NavForeignKeyRequired | NavForeignKeyTooLong
  | NavValuesRequired | NavTooManyValues | NavValueTooLong (i : nat) | NavMaxRowsNegative.

Fixpoint check_value_lengths (i : nat) (values : list bytes) : result navigation_error unit :=
  match values with
  | [] => Ok tt
  | v :: values => if MaxLocalValueLength <? length v then Err (NavValueTooLong i) else check_value_lengths (S i) values
  end.

Definition navigation_Validate (r : RelatedRecordNavigationRequest) : result navigation_error unit :=
  _ ← guard_err (trim_space (nr_Database r) =?b []) NavDatabaseRequired;
  _ ← guard_err (MaxSourceDatabaseLength <? length (nr_Database r)) NavDatabaseTooLong;
  _ ← guard_err (MaxSourceObjectLength <? length (nr_Schema r)) NavSchemaTooLong;
  _ ← map_err NavKey (validateExecutionRequestKey (nr_ClientExecutionID r));
  _ ← guard_err (trim_space (nr_Object r) =?b []) NavObjectRequired;
  _ ← guard_err (MaxSourceObjectLength <? length (nr_Object r)) NavObjectTooLong;
  _ ← guard_err (negb (nr_Kind r =?b gs "table")) NavKindNotTable;
  _ ← guard_err (trim_space (nr_ForeignKey r) =?b []) NavForeignKeyRequired;
  _ ← guard_err (MaxForeignKeyNameLength <? length (nr_ForeignKey r)) NavForeignKeyTooLong;
  _ ← guard_err (length (nr_LocalValues r) =? 0) NavValuesRequired;
  _ ← guard_err (MaxLocalValuesCount <? length (nr_LocalValues r)) NavTooManyValues;
  _ ← check_value_lengths 0 (nr_LocalValues r);
  guard_err (nr_MaxRows r <? 0)%Z NavMaxRowsNegative.

Definition ClampMaxRows (r : RelatedRecordNavigationRequest) : Z :=
  if (nr_MaxRows r <=? 0)%Z then MaxRelatedRowsDefault
  else if (MaxRelatedRowsHard <? nr_MaxRows r)%Z then MaxRelatedRowsHard
  else nr_MaxRows r.

(** ** Foreign-key metadata *)

Record FKColumn : Type := FkColumn {
  fc_Column : bytes;
  fc_ReferencedSchema : bytes;
  fc_ReferencedTable : bytes;
  fc_ReferencedColumn : bytes;
}.
Record FKSummary : Type := FkSummary { fk_Name : bytes; fk_Columns : list FKColumn }.

Inductive fk_error : Type :=
  | FkNoColumns | FkNoReference | FkLocalEmpty (i : nat) | FkReferenceEmpty (i : nat)
  | FkColumnEmpty (i : nat) | FkManyTables.

Fixpoint check_fk_columns (refSchema refTable : bytes) (i : nat) (cols : list FKColumn) : result fk_error unit :=
  match cols with
  | [] => Ok tt
  | col :: cols =>
    _ ← guard_err (trim_space (fc_Column col) =?b []) (FkLocalEmpty i);
    _ ← guard_err ((trim_space (fc_ReferencedSchema col) =?b []) || (trim_space (fc_ReferencedTable col) =?b []))
          (FkReferenceEmpty i);
    _ ← guard_err (trim_space (fc_ReferencedColumn col) =?b []) (FkColumnEmpty i);
    _ ← guard_err (negb (equal_fold (trim_space (fc_ReferencedSchema col)) refSchema)
                   || negb (equal_fold (trim_space (fc_ReferencedTable col)) refTable)) FkManyTables;
    check_fk_columns refSchema refTable (S i) cols
  end.

Definition validateRelatedRecordsFKMetadata (fk : FKSummary) : result fk_error unit :=
  match fk_Columns fk with
  | [] => Err FkNoColumns
  | first :: _ =>
    let refSchema := trim_space (fc_ReferencedSchema first) in
    let refTable := trim_space (fc_ReferencedTable first) in
    if (refSchema =?b []) || (refTable =?b []) then Err FkNoReference
    else check_fk_columns refSchema refTable 0 (fk_Columns fk)
  end.

Definition backtick : byte := bz 96.

(** [strings.ReplaceAll(name, "`", "``")]. *)
Fixpoint double_backticks (name : bytes) : bytes :=
  match name with
  | [] => []
  | c :: name => if c =?b backtick then backtick :: backtick :: double_backticks name else c :: double_backticks name
  end.
Definition quoteMySQLIdentifier (name : bytes) : bytes := [backtick] ++ double_backticks name ++ [backtick].

(** [strings.Join]. *)
Fixpoint join (sep : bytes) (parts : list bytes) : bytes :=
  match parts with
  | [] => []
  | [p] => p
  | p :: parts => p ++ sep ++ join sep parts
  end.

(** Step 7 of the navigation: the parameterized SELECT. *)
Definition related_query (fk : FKSummary) (refSchema refTable : bytes) (limit : Z) : bytes :=
  let whereClauses := (λ col, quoteMySQLIdentifier (fc_ReferencedColumn col) ++ gs " = ?") <$> fk_Columns fk in
  gs "SELECT * FROM " ++ quoteMySQLIdentifier refSchema ++ gs "." ++ quoteMySQLIdentifier refTable
    ++ gs " WHERE " ++ join (gs " AND ") whereClauses ++ gs " LIMIT " ++ format_int limit.

Definition relation_name (fk : FKSummary) : bytes :=
  match fk_Columns fk with
  | [] => []
  | c :: _ => fc_ReferencedSchema c ++ gs "." ++ fc_ReferencedTable c ++ gs "/" ++ fk_Name fk
  end.

Record RelatedRecordNavigationResponse : Type := NavigationResponse {
  nv_page : QueryExecuteResponse; (** the result fields shared with execution *)
  nv_SourceDatabase : bytes;
  nv_SourceObject : bytes;
  nv_ForeignKey : bytes;
  nv_ReferencedDatabase : bytes;
  nv_ReferencedObject : bytes;
  nv_ReferencedColumns : list bytes;
}.

(** ** Digests of the resolved requests *)

Definition mysqlOrdinaryDigest (req : QueryExecuteRequest) (maxRows : Z) : bytes :=
  let '(page, pageSize) :=
    match rq_Pagination req with Some p => (pr_Page p, pr_PageSize p) | None => (0%Z, 0%Z) end in
  DigestOrdinaryExecute (OrdinaryInput [] [] (rq_Statement req) page pageSize maxRows).

Definition mysqlNavigationDigest (sourceDatabase sourceObject : bytes) (fk : FKSummary) (localValues : list bytes)
    (limit : Z) : bytes :=
  DigestRelatedRecords (RelatedInput [] [] sourceDatabase sourceObject (fc_Column <$> fk_Columns fk) (fk_Name fk)
                          localValues 0 0 limit).

(** ** The service *)

(** What the service is wired with: the resolver's sources, the parser, and the
    disclosure planner, executor and inspector behind their interfaces. *)
Record mysql_service (Plan : Type) : Type := MysqlService {
  sv_access : access_env;
  sv_parser : sql_parser;
  sv_guard : QueryGuardConfig;
  sv_sanitized : bytes → option bytes;
  sv_guard_text : bytes → guard_error → bytes; (** the guard error's text for that statement *)
  sv_pgHTTPEntries : bool;
  sv_preflight : bytes → Z → GuardedQuery → result exec_error Plan;
  sv_preflight_related : bytes → Z → bytes → bytes → result exec_error Plan;
  sv_apply : Plan → list QueryResultColumn → page_rows → result exec_error (list QueryResultColumn * page_rows);
  sv_query : bytes → GuardedQuery → result exec_error QueryDatabaseResult;
  sv_query_related : bytes → bytes → list bytes → Z → result exec_error QueryDatabaseResult;
  sv_details : bytes → bytes → bytes → bytes → result exec_error (option (list FKSummary));
}.
Arguments sv_access {_} _. Arguments sv_parser {_} _. Arguments sv_guard {_} _.
Arguments sv_sanitized {_} _ _. Arguments sv_guard_text {_} _ _ _. Arguments sv_pgHTTPEntries {_} _.
Arguments sv_preflight {_} _ _ _ _. Arguments sv_preflight_related {_} _ _ _ _ _.
Arguments sv_apply {_} _ _ _ _. Arguments sv_query {_} _ _ _. Arguments sv_query_related {_} _ _ _ _ _.
Arguments sv_details {_} _ _ _ _ _.

(** Where a request leaves the MySQL/TiDB entries for the PostgreSQL ones. *)
Inductive entry_answer (A : Type) : Type :=
  | Answered (r : result svc_error A)
  | RoutedToPG (target : QueryTarget).
Arguments Answered {_} _.
Arguments RoutedToPG {_} _.

Section entries.
Context {S : Type} `{!EvidenceStore S} {Plan : Type} (now : nat → Z) (svc_ : mysql_service Plan).

Definition pgDispatchTarget (targetID : Z) : result svc_error QueryTarget :=
  map_err (λ _, STargetNotFound) (findTarget (sv_access svc_) targetID).

(** Engine dispatch: [None] continues on the MySQL/TiDB path. *)
Definition dispatch {A} (targetID : Z) : option (entry_answer A) :=
  if sv_pgHTTPEntries svc_ then
    match pgDispatchTarget targetID with
    | Err e => Some (Answered (Err e))
    | Ok target => if isPGEngine (tg_Engine target) then Some (RoutedToPG target) else None
    end
  else None.

Definition answer {A} (m : svc S (result svc_error A)) : svc S (entry_answer A) :=
  r ← m; mret (Answered r).
Definition fails {A} (e : svc_error) : svc S (result svc_error A) := mret (Err e).

(** [QueryExecutionService.reject]: the keyless pair of an ordinary record. *)
Definition svc_reject {A} (target : QueryTarget) (identity : QueryExecutionIdentity) (code msg : bytes)
    (retErr : svc_error) (start : Z) : svc S (result svc_error A) :=
  rec ← buildRecord now target identity None QueryExecutionRejected 0 code msg start;
  r ← persistEvidencePair rec executionEvidenceQuery;
  mret (Err (match r with Ok _ => retErr | Err _ => SPersistAttempt end)).

(** The answer to a failed access resolution; [deny] records a denial. *)
Definition access_failure {A} (e : access_error) (deny : QueryTarget → bytes → svc_error → svc S (result svc_error A))
    : svc S (result svc_error A) :=
  match e with
  | AccessTargetNotFound => fails STargetNotFound
  | AccessDenied target status => deny target (access_message status) (SNotAllowed status)
  | AccessSchemaValidationFailed _ | AccessConnectionNotFound _ | AccessConnectionDisabled _
  | AccessBindingMismatch _ => fails SAccess
  end.

Definition new_attempt (target : QueryTarget) (identity : QueryExecutionIdentity) (kind : mysqlEntryKind) (start : Z)
    : mysqlExecutionAttempt := Attempt target identity start kind [] [].

Definition resolved_max_rows (environment : bytes) (requested : Z) : Z :=
  effectiveMaxRows (sv_guard svc_) (clampProductionMaxRows environment requested).

Definition zero_guarded : GuardedQuery := Guarded [] [] 0 0 [] [].

Definition guard_request (req : QueryExecuteRequest) (maxRows : Z) : result guard_error GuardedQuery :=
  let plain := Guard (sv_parser svc_) (sv_guard svc_) (rq_Statement req) maxRows in
  match rq_Pagination req with
  | Some p =>
    match GuardPaginatedSelect (sv_parser svc_) (sv_guard svc_) (rq_Statement req) (pr_Page p) (pr_PageSize p) maxRows with
    | Err ErrQueryPaginationNotApplicable => plain
    | r => r
    end
  | None => plain
  end.

(** [Execute] after dispatch and validation. *)
Definition execute_validated (identity : QueryExecutionIdentity) (targetID : Z) (req : QueryExecuteRequest)
    : svc S (result svc_error QueryExecuteResponse) :=
  start ← tick now;
  match Resolve (sv_access svc_) targetID with
  | Err e =>
    access_failure e (λ target msg err, svc_reject target identity (gs "query_not_allowed") msg err start)
  | Ok access =>
    let target := ba_Target access in
    let maxRows := resolved_max_rows (tg_Environment target) (rq_MaxRows req) in
    let '(page, pageSize) :=
      match rq_Pagination req with Some p => (pr_Page p, pr_PageSize p) | None => (0%Z, 0%Z) end in
    admitted ← admit_claim now (new_attempt target identity mysqlEntryOrdinary start) (rq_ClientExecutionID req)
                 (mysqlOrdinaryDigest req maxRows) (query_timeout (tg_Environment target));
    match admitted with
    | Err e => fails e
    | Ok attempt =>
      match guard_request req maxRows with
      | Err e =>
        reject now (sv_sanitized svc_) attempt (Some zero_guarded) (gs "validation_failed")
          (sv_guard_text svc_ (rq_Statement req) e) (SGuard e)
      | Ok guarded =>
        executeGuardedChain now (sv_sanitized svc_) (sv_apply svc_) attempt guarded
          (sv_preflight svc_ (ba_dsn access) (tg_ResourceID target) guarded)
          (sv_query svc_ (ba_dsn access) guarded) (rq_Capabilities req) page pageSize
      end
    end
  end.

Definition Execute (identity : QueryExecutionIdentity) (targetID : Z) (req : QueryExecuteRequest)
    : svc S (entry_answer QueryExecuteResponse) :=
  if negb (is_ok (identity_Validate identity)) || (targetID =? 0)%Z || negb (is_ok (ValidateShape req))
  then answer (fails SValidation)
  else match dispatch targetID with
  | Some r => mret r
  | None =>
    if negb (is_ok (request_Validate req)) then answer (fails SValidation)
    else answer (execute_validated identity targetID req)
  end.

(** [NavigateRelatedRecords] after dispatch and validation. *)
Definition navigate_claimed (access : BoundTargetAccess) (attempt : mysqlExecutionAttempt) (fk : FKSummary)
    (limit : Z) (start : Z) (req : RelatedRecordNavigationRequest)
    : svc S (result svc_error RelatedRecordNavigationResponse) :=
  let target := ba_Target access in
  let refSchema := match fk_Columns fk with c :: _ => fc_ReferencedSchema c | [] => [] end in
  let refTable := match fk_Columns fk with c :: _ => fc_ReferencedTable c | [] => [] end in
  match sv_preflight_related svc_ (ba_dsn access) (tg_ResourceID target) refSchema refTable with
  | Err e =>
    if xe_blocked e && negb (xe_canceled e) && negb (xe_deadline e) then
      navReject now (sv_sanitized svc_) attempt (gs "query_result_disclosure_blocked")
        (gs "query blocked by result disclosure policy") SDisclosureRefused
    else navTerminalOutcome now (sv_sanitized svc_) attempt e
  | Ok plan =>
    match sv_query_related svc_ (ba_dsn access) (related_query fk refSchema refTable limit) (nr_LocalValues req) limit with
    | Err e => navTerminalOutcome now (sv_sanitized svc_) attempt e
    | Ok res =>
      match validateCellTruncatedMatrix (length (dr_Columns res)) (dr_Rows res) (dr_CellTruncated res) with
      | Err _ => navTerminalOutcome now (sv_sanitized svc_) attempt plain_error
      | Ok _ =>
        match sv_apply svc_ plan (dr_Columns res) (dr_Rows res) with
        | Err e => navTerminalOutcome now (sv_sanitized svc_) attempt e
        | Ok (columns, rows) =>
          let res := DatabaseResult columns rows (dr_RowCount res) (dr_Truncated res) (dr_CellTruncated res) in
          rec ← buildAttemptRecord now (sv_sanitized svc_) attempt None QueryExecutionSuccess 0 [] [];
          '(owned, execID) ← finalizeSuccess attempt rec res (nr_Capabilities req);
          match owned with
          | Err e => fails e
          | Ok owned =>
            t1 ← tick now;
            t2 ← tick now;
            mret (Ok (NavigationResponse
              (ExecuteResponse execID QueryExecutionSuccess (tg_ResourceID target) (tg_Engine target)
                 (dr_Columns owned) (dr_Rows owned) (dr_RowCount owned) (dr_CellTruncated owned) (dr_Truncated owned)
                 (milliseconds (time_sub t1 start)) limit t2 None)
              (nr_Database req) (nr_Object req) (fk_Name fk) refSchema refTable (fc_ReferencedColumn <$> fk_Columns fk)))
          end
        end
      end
    end
  end.

Definition set_relation (a : mysqlExecutionAttempt) (fk : FKSummary) : mysqlExecutionAttempt :=
  Attempt (at_target a) (at_identity a) (at_start a) (at_kind a) (at_ownedKey a) (relation_name fk).

Definition related_limit (environment : bytes) (req : RelatedRecordNavigationRequest) : Z :=
  let limit := ClampMaxRows req in
  if isProductionEnvironment environment && (productionHardMaxRows <? limit)%Z then productionHardMaxRows else limit.

Definition navigate_prepared (access : BoundTargetAccess) (attempt : mysqlExecutionAttempt) (start : Z)
    (req : RelatedRecordNavigationRequest) : svc S (result svc_error RelatedRecordNavigationResponse) :=
  let target := ba_Target access in
  let source_error := navReject now (sv_sanitized svc_) attempt (gs "navigation_source_error")
                        (gs "could not retrieve source table metadata") SNavigationSource in
  match sv_details svc_ (ba_dsn access) (nr_Database req) (nr_Object req) (nr_Kind req) with
  | Err e =>
    if xe_canceled e || xe_deadline e then navPreparationOutcome now (sv_sanitized svc_) attempt e else source_error
  | Ok None => source_error
  | Ok (Some foreignKeys) =>
    match find (λ fk, fk_Name fk =?b nr_ForeignKey req) foreignKeys with
    | None => navReject now (sv_sanitized svc_) attempt (gs "navigation_fk_not_found")
                (gs "foreign key not found on source table") SNavigationSource
    | Some fk =>
      if negb (is_ok (validateRelatedRecordsFKMetadata fk)) then
        navReject now (sv_sanitized svc_) attempt (gs "navigation_metadata_invalid")
          (gs "foreign key metadata is invalid") SNavigationSource
      else
        let attempt := set_relation attempt fk in
        if negb (length (nr_LocalValues req) =? length (fk_Columns fk)) then
          navReject now (sv_sanitized svc_) attempt (gs "navigation_value_mismatch")
            (gs "localValues count does not match foreign key column count") SNavigationValues
        else
          let limit := related_limit (tg_Environment target) req in
          let digest := mysqlNavigationDigest (nr_Database req) (nr_Object req) fk (nr_LocalValues req) limit in
          admitted ← admit_claim now attempt (nr_ClientExecutionID req) digest (query_timeout (tg_Environment target));
          match admitted with
          | Err e => fails e
          | Ok attempt => navigate_claimed access attempt fk limit start req
          end
    end
  end.

Definition navigate_validated (identity : QueryExecutionIdentity) (targetID : Z) (req : RelatedRecordNavigationRequest)
    : svc S (result svc_error RelatedRecordNavigationResponse) :=
  start ← tick now;
  match Resolve (sv_access svc_) targetID with
  | Err e =>
    access_failure e (λ target msg err,
      navReject now (sv_sanitized svc_) (new_attempt target identity mysqlEntryNavigation start)
        (gs "navigation_not_allowed") msg err)
  | Ok access => navigate_prepared access (new_attempt (ba_Target access) identity mysqlEntryNavigation start) start req
  end.

Definition NavigateRelatedRecords (actorUserID targetID : Z) (req : RelatedRecordNavigationRequest)
    : svc S (entry_answer RelatedRecordNavigationResponse) :=
  let identity := Identity QueryExecutionActorUser actorUserID in
  if (actorUserID =? 0)%Z || (targetID =? 0)%Z || negb (is_ok (identity_Validate identity))
     || negb (is_ok (navigation_Validate req))
  then answer (fails SValidation)
  else match dispatch targetID with
  | Some r => mret r
  | None =>
    if negb (nr_Schema req =?b []) then answer (fails SValidation)
    else answer (navigate_validated identity targetID req)
  end.
End entries.

(** ** The contract of a keyed entry *)

(** Answers that leave no trace: nothing to attribute a record to. *)
Definition unrecorded (e : svc_error) : Prop := e = SValidation ∨ e = STargetNotFound ∨ e = SAccess.

Definition claim_for (a : mysqlExecutionAttempt) (key digest : bytes) (timeout : Z) (c : QueryExecutionClaimInput) : Prop :=
  ci_TargetResourceID c = tg_ResourceID (at_target a) ∧ ci_ClientExecutionID c = key ∧ ci_Identity c = at_identity a
  ∧ ci_DatabaseName c = [] ∧ ci_SchemaName c = [] ∧ ci_RequestDigest c = digest
  ∧ ci_AttemptTimeoutMs c = milliseconds timeout ∧ is_Some (ci_ClaimedAt c).

(** A claim the store could not decide: one keyless failed record without any
    statement text, so the key never looks occupied by this attempt. *)
Definition claim_failed (a : mysqlExecutionAttempt) (e : svc_error) (t : list store_call) : Prop :=
  ∃ rec w, t = [CallInsert rec (evidenceEventType (evidenceKind (at_kind a))) (gs "failed") w]
    ∧ attributed a rec ∧ er_Status rec = QueryExecutionFailed
    ∧ er_StatementDigest rec = [] ∧ er_StatementPreview rec = [] ∧ er_FullStatement rec = []
    ∧ e = match w with Ok _ => SBackendFailure | Err _ => SPersistAttempt end.

(** The claim store's answers that decide who owns the key. *)
Definition decides_claim (e : store_error) : option svc_error :=
  match e with
  | ErrQueryExecutionClaimExists => Some SAlreadyExists
  | ErrQueryExecutionClaimConflict => Some SConflict
  | _ => None
  end.

(** [mine] holds of the attempts of this request, [asks] of its claim, and
    [good] relates a released answer to its record. *)
Inductive entry_outcome {A} (caps : list bytes) (key : bytes) (mine : mysqlExecutionAttempt → Prop)
    (asks : QueryExecutionClaimInput → Prop)
    (good : mysqlExecutionAttempt → A → QueryExecutionRecord → stored Z → Prop)
    : result svc_error A → list store_call → Prop :=
  (** refused before there was a target to attribute the attempt to *)
  | outcome_unrecorded e : unrecorded e → entry_outcome caps key mine asks good (Err e) []
  (** refused before admission: one keyless record *)
  | outcome_before_claim a e t :
      mine a → at_ownedKey a = [] → evidence_of a caps (λ _ _ _, False) (@Err _ A e) t →
      entry_outcome caps key mine asks good (Err e) t
  (** no key: one keyless record *)
  | outcome_keyless a r t :
      key = [] → mine a → at_ownedKey a = [] → evidence_of a caps (good a) r t →
      entry_outcome caps key mine asks good r t
  (** the key is owned already: nothing is written *)
  | outcome_refused c e err :
      key ≠ [] → asks c → ci_ClientExecutionID c = key → decides_claim e = Some err →
      entry_outcome caps key mine asks good (Err err) [CallClaim c (Err e)]
  (** the claim could not be decided: one keyless failed record *)
  | outcome_claim_failed a pre e t :
      key ≠ [] → mine a → claim_failed a e t →
      (pre = [] ∨ ∃ c k, pre = [CallClaim c (Err k)] ∧ asks c ∧ decides_claim k = None) →
      entry_outcome caps key mine asks good (Err e) (pre ++ t)
  (** the key is owned by this attempt: one keyed record *)
  | outcome_claimed a c r t :
      key ≠ [] → mine a → at_ownedKey a = key → asks c → ci_ClientExecutionID c = key →
      evidence_of a caps (good a) r t →
      entry_outcome caps key mine asks good r (CallClaim c (Ok tt) :: t).

Section contract.
Context {S : Type} `{!EvidenceStore S} {Plan : Type} (now : nat → Z) (svc_ : mysql_service Plan).

Definition admission (a : mysqlExecutionAttempt) (key digest : bytes) (timeout : Z)
    (r : result svc_error mysqlExecutionAttempt) (t : list store_call) : Prop :=
  (key = [] ∧ r = Ok a ∧ t = [])
  ∨ (key ≠ [] ∧ es_claim_capable = true ∧ ∃ c, claim_for a key digest timeout c ∧
      ((r = Ok (own_key a key) ∧ t = [CallClaim c (Ok tt)])
       ∨ ∃ e err, decides_claim e = Some err ∧ r = Err err ∧ t = [CallClaim c (Err e)]))
  ∨ (key ≠ [] ∧ ∃ pre e t', r = Err e ∧ t = pre ++ t' ∧ claim_failed a e t'
      ∧ (pre = [] ∨ ∃ c k, pre = [CallClaim c (Err k)] ∧ claim_for a key digest timeout c ∧ decides_claim k = None)).

Lemma buildRecord_spec target identity status rows code msg start :
  triple (buildRecord now target identity None status rows code msg start)
    (λ rec t, t = [] ∧ (∀ kind nav, attributed (Attempt target identity start kind [] nav) rec)
      ∧ er_Status rec = status ∧ er_ErrorMessage rec = truncateString msg 512
      ∧ er_StatementDigest rec = [] ∧ er_StatementPreview rec = [] ∧ er_FullStatement rec = []).
Proof.
  unfold buildRecord. eapply triple_bind; [apply triple_tick|]. intros t1 ? ->.
  eapply triple_bind; [apply triple_tick|]. intros t2 ? ->. apply triple_ret.
  unfold attributed. cbn. split_and!; try done. intros _ _. split_and!; try done. by case_bool_decide.
Qed.

Lemma claimFailure_spec a : triple (claimFailure now a) (claim_failed a).
Proof.
  unfold claimFailure. eapply triple_bind; [apply buildRecord_spec|].
  intros rec ? (-> & Hat & Est & _ & Hd & Hp & Hf). unfold persistEvidencePair.
  eapply triple_bind; [apply triple_insert|]. intros w t ->. apply triple_ret.
  exists rec, w. rewrite Est. split_and!; try done. apply (Hat (at_kind a) (at_navRelation a)).
Qed.

Lemma admit_spec a key digest timeout :
  triple (admit_claim now a key digest timeout) (admission a key digest timeout).
Proof.
  unfold admit_claim, admission. case_bool_decide as Ek; [by apply triple_ret; left|].
  destruct es_claim_capable; cbn [negb].
  - eapply triple_bind; [apply triple_tick|]. intros z ? ->.
    eapply triple_bind; [apply triple_claim|]. intros w t ->.
    assert (claim_for a key digest timeout (ClaimInput (tg_ResourceID (at_target a)) key (at_identity a) [] []
      digest (milliseconds timeout) (Some z))) as Hc by (unfold claim_for; cbn; eauto 10).
    destruct w as [[]|e]; [by apply triple_ret; right; left; eauto 10|].
    destruct (decides_claim e) as [err|] eqn:Ed.
    + destruct e; simplify_eq; apply triple_ret; right; left; (split_and!; [done..|]);
        eexists; (split; [done|]); right; do 2 eexists; (split; [|done]); done.
    + assert (triple (e' ← claimFailure now a; mret (@Err _ mysqlExecutionAttempt e'))
        (λ r t, ∃ e', r = Err e' ∧ claim_failed a e' t)) as Hf.
      { eapply triple_bind; [apply claimFailure_spec|]. intros e' t' He. apply triple_ret. rewrite app_nil_r. eauto. }
      eapply triple_mono; [by destruct e; try discriminate Ed; exact Hf|].
      intros r t (e' & -> & He). right. right. split; [done|]. eexists [_], e', t. eauto 10.
  - eapply triple_bind; [apply claimFailure_spec|]. intros e t He. apply triple_ret. rewrite app_nil_r.
    right. right. split; [done|]. exists [], e, t. auto.
Qed.
Lemma admitted_outcome {A} (k : mysqlExecutionAttempt → svc S (result svc_error A))
    a key digest timeout caps mine asks good :
  at_ownedKey a = [] → mine a → mine (own_key a key) → (∀ c, claim_for a key digest timeout c → asks c) →
  (∀ a', a' = a ∨ a' = own_key a key → claims_supported a' → triple (k a') (evidence_of a' caps (good a'))) →
  triple (r ← admit_claim now a key digest timeout; match r with Err e => fails e | Ok a' => k a' end)
    (entry_outcome caps key mine asks good).
Proof.
  intros Ho Hm Hm' Hasks Hk. eapply triple_bind; [apply admit_spec|].
  intros r t [(Ek & -> & ->)|[(Ek & Hc & c & Hfor & [[-> ->]|(e & err & Hd & -> & ->)])|(Ek & pre & e & t' & -> & -> & Hf & Hpre)]].
  - eapply triple_mono; [apply Hk; [by left|by left]|]. intros r t Hev. by apply (outcome_keyless _ _ _ _ _ a).
  - eapply triple_mono; [apply Hk; [by right|by right]|]. intros r t Hev. cbn.
    apply (outcome_claimed _ _ _ _ _ (own_key a key)); try done; [by apply Hasks|by destruct Hfor as (_&?&_)].
  - apply triple_ret. apply outcome_refused; try done; [by apply Hasks|by destruct Hfor as (_&?&_)].
  - apply triple_ret. rewrite app_nil_r. apply (outcome_claim_failed _ _ _ _ _ a); try done.
    destruct Hpre as [->|(c & k0 & -> & Hfor & Hd)]; [by left|right; eauto 10].
Qed.

Lemma svc_reject_spec {A} target identity kind caps code msg retErr start :
  evidenceKind kind = executionEvidenceQuery → error_status retErr = Some QueryExecutionRejected →
  (∀ s m, retErr ≠ STerminal s m) →
  triple (svc_reject now target identity code msg retErr start)
    (λ r t, ∃ e, r = @Err _ A e
       ∧ evidence_of (Attempt target identity start kind [] []) caps (λ _ _ _, False) (@Err _ A e) t).
Proof.
  intros Hk He Ht. unfold svc_reject. eapply triple_bind; [apply buildRecord_spec|].
  intros rec ? (-> & Hat & Est & _ & Hd & Hp & Hf). unfold persistEvidencePair.
  eapply triple_bind; [apply triple_insert|]. intros w t ->. apply triple_ret.
  eexists. split; [done|]. exists rec, w. split_and!; [|done|..].
  - unfold write_of. cbn. by rewrite Hk.
  - unfold private_record. cbn. destruct kind; [by left|done|by cbn in Hk].
  - destruct w as [id|e]; unfold failure_evidence; cbn.
    + split_and!; [by split; [|intros ->]|by right; rewrite He|rewrite He, Est; congruence|by intros c ->|].
      intros s m ->. by destruct (Ht s m).
    + by split_and!; [|left|..].
Qed.

Lemma dispatch_routes {A} targetID (r : entry_answer A) :
  dispatch svc_ targetID = Some r →
  r = Answered (Err STargetNotFound)
  ∨ ∃ target, r = RoutedToPG target ∧ sv_pgHTTPEntries svc_ = true ∧ isPGEngine (tg_Engine target) = true
      ∧ tg_ResourceID target = targetID.
Proof.
  unfold dispatch, pgDispatchTarget. destruct (sv_pgHTTPEntries svc_); [|done].
  destruct (findTarget _ _) as [target|e] eqn:E; cbn [map_err]; [|by intros [= <-]; left].
  case_match; [|done]. intros [= <-]. right. exists target. apply findTarget_id in E. auto.
Qed.

(** Before there is an answer there is either a refusal without a trace or a
    hand-over to the PostgreSQL entries, also without one. *)
Definition answered {A} (targetID : Z) (Q : result svc_error A → list store_call → Prop) (r : entry_answer A)
    (t : list store_call) : Prop :=
  match r with
  | Answered r => Q r t
  | RoutedToPG target => t = [] ∧ sv_pgHTTPEntries svc_ = true ∧ isPGEngine (tg_Engine target) = true
      ∧ tg_ResourceID target = targetID
  end.

Lemma answer_spec {A} targetID (m : svc S (result svc_error A)) Q :
  triple m Q → triple (answer m) (answered targetID Q).
Proof.
  intros Hm. unfold answer. eapply triple_bind; [exact Hm|]. intros r t HQ. apply triple_ret. by rewrite app_nil_r.
Qed.

Lemma refused_entry {A} targetID caps key mine asks good :
  triple (answer (fails SValidation)) (answered targetID (@entry_outcome A caps key mine asks good)).
Proof. apply answer_spec. apply triple_ret. apply outcome_unrecorded. by left. Qed.

Lemma dispatched_entry {A} targetID caps key mine asks good (m : svc S (entry_answer A)) :
  triple m (answered targetID (entry_outcome caps key mine asks good)) →
  triple (match dispatch svc_ targetID with Some r => mret r | None => m end)
    (answered targetID (entry_outcome caps key mine asks good)).
Proof.
  intros Hm. destruct (dispatch svc_ targetID) as [r|] eqn:E; [|done].
  apply triple_ret. apply dispatch_routes in E as [->|(target & -> & ?)]; [|done].
  apply outcome_unrecorded. right. by left.
Qed.

Lemma denied_entry {A} targetID caps key mine asks good e (deny : _ → _ → _ → svc S (result svc_error A)) :
  Resolve (sv_access svc_) targetID = Err e →
  (∀ target status, tg_ResourceID target = targetID →
     triple (deny target (access_message status) (SNotAllowed status)) (entry_outcome caps key mine asks good)) →
  triple (access_failure e deny) (entry_outcome caps key mine asks good).
Proof.
  intros He Hd. unfold access_failure, fails.
  destruct e as [|target status| | | |]; try (apply triple_ret, outcome_unrecorded; unfold unrecorded; by auto).
  apply Hd. apply (resolve_target (sv_access svc_)). by rewrite He.
Qed.

(** The attempts one request makes: its target, its actor, its entry. *)
Definition own_attempt (targetID : Z) (identity : QueryExecutionIdentity) (kind : mysqlEntryKind)
    (a : mysqlExecutionAttempt) : Prop :=
  tg_ResourceID (at_target a) = targetID ∧ at_identity a = identity ∧ at_kind a = kind.

(** The claim asks for this request's digest over the resolved access. *)
Definition claims_request (targetID : Z) (identity : QueryExecutionIdentity)
    (digest : BoundTargetAccess → bytes → Prop) (c : QueryExecutionClaimInput) : Prop :=
  ci_TargetResourceID c = targetID ∧ ci_Identity c = identity ∧ ci_DatabaseName c = [] ∧ ci_SchemaName c = []
  ∧ ∃ access, Resolve (sv_access svc_) targetID = Ok access
      ∧ digest access (ci_RequestDigest c).

(** A released page is the disclosed page of the guarded statement, run on the
    resolved target's connection. *)
Definition execute_released (targetID : Z) (req : QueryExecuteRequest) (a : mysqlExecutionAttempt)
    (resp : QueryExecuteResponse) (rec : QueryExecutionRecord) (w : stored Z) : Prop :=
  ∃ access guarded, Resolve (sv_access svc_) targetID = Ok access
    ∧ guard_request svc_ req (resolved_max_rows svc_ (tg_Environment (ba_Target access)) (rq_MaxRows req)) = Ok guarded
    ∧ released (sv_apply svc_) a (rq_Capabilities req)
        (sv_preflight svc_ (ba_dsn access) targetID guarded) (sv_query svc_ (ba_dsn access) guarded) resp rec w.

Definition execute_digest (req : QueryExecuteRequest) (access : BoundTargetAccess) (d : bytes) : Prop :=
  d = mysqlOrdinaryDigest req (resolved_max_rows svc_ (tg_Environment (ba_Target access)) (rq_MaxRows req)).

Lemma execute_outcome identity targetID req :
  triple (Execute now svc_ identity targetID req)
    (answered targetID
       (entry_outcome (rq_Capabilities req) (rq_ClientExecutionID req)
          (own_attempt targetID identity mysqlEntryOrdinary)
          (claims_request targetID identity (execute_digest req)) (execute_released targetID req))).
Proof.
  unfold Execute. destruct (_ || _); [apply refused_entry|]. apply dispatched_entry.
  destruct (negb _); [apply refused_entry|]. apply answer_spec.
  unfold execute_validated. eapply triple_bind; [apply triple_tick|]. intros start ? ->. cbn [app].
  destruct (Resolve (sv_access svc_) targetID) as [access|e] eqn:Er.
  2:{ apply (denied_entry targetID); [done|]. intros target status Ht.
      eapply triple_mono; [by apply (svc_reject_spec _ _ mysqlEntryOrdinary)|].
      intros r t (e' & -> & Hev).
      by apply (outcome_before_claim _ _ _ _ _ (Attempt target identity start mysqlEntryOrdinary [] [])). }
  assert (tg_ResourceID (ba_Target access) = targetID) as Hid by (apply (resolve_target (sv_access svc_)); by rewrite Er).
  destruct (match rq_Pagination req with Some p => _ | None => _ end) as [page pageSize].
  apply admitted_outcome; try done.
  { intros c (Ht & _ & Hi & Hdb & Hsc & Hdg & _). split_and!; try done; [by rewrite Ht|]. by exists access. }
  intros a' Ha Hs. destruct (guard_request _ _ _) as [guarded|e] eqn:Eg; [|by apply reject_spec].
  eapply triple_mono; [by apply executeGuardedChain_spec|].
  intros r t (rec & w & Ht & Hat & Hp & Hr). exists rec, w. split_and!; try done.
  destruct r as [resp|]; [|done]. exists access, guarded. rewrite Hid in Hr. by split_and!.
Qed.

(** C2: Whatever a request to the ordinary entry meets, it leaves exactly the
    evidence its answer says: nothing when refused before a target is known or
    when the key is owned, otherwise one record of its own target and actor,
    keyed exactly when this attempt claimed the key. A page is released only
    after its success is recorded under the returned id, as the disclosed
    result of the guarded statement, with evidence the client can read. *)
Theorem execute_contract identity targetID req :
  triple (Execute now svc_ identity targetID req)
    (answered targetID
       (entry_outcome (rq_Capabilities req) (rq_ClientExecutionID req)
          (own_attempt targetID identity mysqlEntryOrdinary)
          (claims_request targetID identity (execute_digest req)) (execute_released targetID req))).
Proof. apply execute_outcome. Qed.

(** The foreign key a navigation follows: the named one of the source table,
    with sound metadata and as many columns as the request has values. *)
Definition followed_fk (access : BoundTargetAccess) (req : RelatedRecordNavigationRequest) (fk : FKSummary) : Prop :=
  (∃ fks, sv_details svc_ (ba_dsn access) (nr_Database req) (nr_Object req) (nr_Kind req) = Ok (Some fks)
     ∧ find (λ fk, fk_Name fk =?b nr_ForeignKey req) fks = Some fk)
  ∧ validateRelatedRecordsFKMetadata fk = Ok tt
  ∧ length (nr_LocalValues req) = length (fk_Columns fk).

Definition navigation_digest (req : RelatedRecordNavigationRequest) (access : BoundTargetAccess) (d : bytes) : Prop :=
  ∃ fk, followed_fk access req fk
    ∧ d = mysqlNavigationDigest (nr_Database req) (nr_Object req) fk (nr_LocalValues req)
            (related_limit (tg_Environment (ba_Target access)) req).

Definition fk_schema (fk : FKSummary) : bytes := match fk_Columns fk with c :: _ => fc_ReferencedSchema c | [] => [] end.
Definition fk_table (fk : FKSummary) : bytes := match fk_Columns fk with c :: _ => fc_ReferencedTable c | [] => [] end.

Definition navigate_released (targetID : Z) (req : RelatedRecordNavigationRequest) (a : mysqlExecutionAttempt)
    (resp : RelatedRecordNavigationResponse) (rec : QueryExecutionRecord) (w : stored Z) : Prop :=
  ∃ access fk, Resolve (sv_access svc_) targetID = Ok access ∧ followed_fk access req fk
    ∧ at_navRelation a = relation_name fk
    ∧ let limit := related_limit (tg_Environment (ba_Target access)) req in
      released (sv_apply svc_) a (nr_Capabilities req)
        (sv_preflight_related svc_ (ba_dsn access) targetID (fk_schema fk) (fk_table fk))
        (sv_query_related svc_ (ba_dsn access) (related_query fk (fk_schema fk) (fk_table fk) limit)
           (nr_LocalValues req) limit) (nv_page resp) rec w.

Lemma navigate_claimed_spec access a fk limit start req targetID :
  claims_supported a → tg_ResourceID (ba_Target access) = targetID → at_target a = ba_Target access →
  triple (navigate_claimed now svc_ access a fk limit start req)
    (evidence_of a (nr_Capabilities req) (λ resp, released (sv_apply svc_) a (nr_Capabilities req)
        (sv_preflight_related svc_ (ba_dsn access) targetID (fk_schema fk) (fk_table fk))
        (sv_query_related svc_ (ba_dsn access) (related_query fk (fk_schema fk) (fk_table fk) limit)
           (nr_LocalValues req) limit) (nv_page resp))).
Proof.
  intros Hs Hid Htg. unfold navigate_claimed. fold (fk_schema fk) (fk_table fk). rewrite Hid.
  destruct (sv_preflight_related _ _ _ _ _) as [plan|e] eqn:Ep.
  2:{ case_match; [by apply reject_spec|by apply recordTerminalOutcome_spec]. }
  destruct (sv_query_related _ _ _ _ _) as [res|e] eqn:Eq; [|by apply recordTerminalOutcome_spec].
  destruct (validateCellTruncatedMatrix _ _ _) as [[]|]; [|by apply recordTerminalOutcome_spec].
  destruct (sv_apply _ _ _ _) as [[columns rows]|e] eqn:Ea; [|by apply recordTerminalOutcome_spec].
  eapply triple_bind; [apply buildAttemptRecord_spec|]. intros rec ? (-> & Hat & Hp & Est & _).
  eapply triple_bind; [by apply finalizeSuccess_spec|].
  intros [r id] t (rec' & w & -> & Hat' & Hp' & Hf & Hres). destruct r as [owned|e]; cbn [fst snd] in *.
  - eapply triple_bind; [apply triple_tick|]. intros ? ? ->.
    eapply triple_bind; [apply triple_tick|]. intros ? ? ->. apply triple_ret.
    exists rec', w. split_and!; [done..|]. pose proof (Hres _ eq_refl) as ->. split; [apply Hf|].
    split; [done|]. split; [by rewrite Htg|]. by exists plan, res.
  - apply triple_ret. by exists rec', w.
Qed.

Lemma nav_reject_outcome {A} a caps key mine asks good code msg err :
  at_ownedKey a = [] → mine a → error_status err = Some QueryExecutionRejected → (∀ s m, err ≠ STerminal s m) →
  triple (navReject now (sv_sanitized svc_) a code msg err) (@entry_outcome A caps key mine asks good).
Proof.
  intros Ho Hm He Ht. eapply triple_mono; [apply (reject_spec now (sv_sanitized svc_) a caps (λ _ _ _, False)); try done; by left|].
  intros r t Hev. destruct r as [x|e]; [by destruct Hev as (?&?&_&_&_&?)|].
  by apply (outcome_before_claim _ _ _ _ _ a).
Qed.

Lemma navigate_outcome actorUserID targetID req :
  triple (NavigateRelatedRecords now svc_ actorUserID targetID req)
    (answered targetID
       (entry_outcome (nr_Capabilities req) (nr_ClientExecutionID req)
          (own_attempt targetID (Identity QueryExecutionActorUser actorUserID) mysqlEntryNavigation)
          (claims_request targetID (Identity QueryExecutionActorUser actorUserID) (navigation_digest req))
          (navigate_released targetID req))).
Proof.
  unfold NavigateRelatedRecords. destruct (_ || _); [apply refused_entry|]. apply dispatched_entry.
  destruct (negb _); [apply refused_entry|]. apply answer_spec.
  unfold navigate_validated. eapply triple_bind; [apply triple_tick|]. intros start ? ->. cbn [app].
  destruct (Resolve (sv_access svc_) targetID) as [access|e] eqn:Er.
  2:{ apply (denied_entry targetID); [done|]. intros target status Ht. by apply nav_reject_outcome. }
  assert (tg_ResourceID (ba_Target access) = targetID) as Hid by (apply (resolve_target (sv_access svc_)); by rewrite Er).
  unfold navigate_prepared. destruct (sv_details _ _ _ _ _) as [[fks|]|e] eqn:Ed.
  2:{ by apply nav_reject_outcome. }
  2:{ case_match; [|by apply nav_reject_outcome].
      eapply triple_mono; [apply (navPreparationOutcome_spec now _ _ (nr_Capabilities req) (λ _ _ _, False)); by left|].
      intros r t Hev. destruct r as [x|e']; [by destruct Hev as (?&?&_&_&_&?)|].
      by apply (outcome_before_claim _ _ _ _ _ (new_attempt (ba_Target access)
        (Identity QueryExecutionActorUser actorUserID) mysqlEntryNavigation start)). }
  destruct (find _ _) as [fk|] eqn:Ef; [|by apply nav_reject_outcome].
  destruct (validateRelatedRecordsFKMetadata fk) as [[]|] eqn:Ev; cbn [is_ok negb]; [|by apply nav_reject_outcome].
  destruct (negb _) eqn:El; [by apply nav_reject_outcome|].
  assert (followed_fk access req fk) as Hfk by (unfold followed_fk; bool_inv; eauto).
  apply admitted_outcome; try done.
  { intros c (Ht & _ & Hi & Hdb & Hsc & Hdg & _). split_and!; try done; [by rewrite Ht|]. exists access. by split; [|exists fk]. }
  intros a' Ha Hs. eapply triple_mono; [apply (navigate_claimed_spec _ _ _ _ _ _ targetID); [done..|by destruct Ha; subst]|].
  intros r t (rec & w & Ht & Hat & Hp & Hr). exists rec, w. split_and!; try done.
  destruct r as [resp|]; [|done]. exists access, fk. by destruct Ha; subst.
Qed.

(** The same contract for related-record navigation: the claim covers the
    resolved foreign key, values and limit, history carries the relation name
    and no SQL or values, and a page is released only for the named foreign key
    of the source table, as the disclosed result of the generated query. *)
Theorem navigate_contract actorUserID targetID req :
  triple (NavigateRelatedRecords now svc_ actorUserID targetID req)
    (answered targetID
       (entry_outcome (nr_Capabilities req) (nr_ClientExecutionID req)
          (own_attempt targetID (Identity QueryExecutionActorUser actorUserID) mysqlEntryNavigation)
          (claims_request targetID (Identity QueryExecutionActorUser actorUserID) (navigation_digest req))
          (navigate_released targetID req))).
Proof. apply navigate_outcome. Qed.
End contract.

(** ** The generated navigation query

    A reader of the query's fixed shape: quoted identifiers end at the first
    backtick that is not doubled. *)

Definition strip (p s : bytes) : option bytes := if is_prefix p s then Some (drop (length p) s) else None.

Fixpoint lex_body (s : bytes) : option (bytes * bytes) :=
  match s with
  | [] => None
  | c :: s1 =>
    if c =?b backtick then
      match s1 with
      | d :: s2 => if d =?b backtick then '(name, rest) ← lex_body s2; Some (backtick :: name, rest) else Some ([], s1)
      | [] => Some ([], [])
      end
    else '(name, rest) ← lex_body s1; Some (c :: name, rest)
  end.
Definition lex_identifier (s : bytes) : option (bytes * bytes) := s ← strip [backtick] s; lex_body s.

(** [fuel] bounds the number of conjuncts. *)
Fixpoint lex_conjuncts (fuel : nat) (s : bytes) : option (list bytes * bytes) :=
  match fuel with
  | O => None
  | S fuel =>
    '(name, s) ← lex_identifier s;
    s ← strip (gs " = ?") s;
    match strip (gs " AND ") s with
    | Some s => '(names, s) ← lex_conjuncts fuel s; Some (name :: names, s)
    | None => Some ([name], s)
    end
  end.

Definition lex_related_query (s : bytes) : option (bytes * bytes * list bytes * Z) :=
  s ← strip (gs "SELECT * FROM ") s;
  '(schema, s) ← lex_identifier s;
  s ← strip (gs ".") s;
  '(table, s) ← lex_identifier s;
  s ← strip (gs " WHERE ") s;
  '(columns, s) ← lex_conjuncts (length s) s;
  s ← strip (gs " LIMIT ") s;
  limit ← parse_uint s;
  Some (schema, table, columns, limit).

Lemma strip_app p s : strip p (p ++ s) = Some s.
Proof. unfold strip, is_prefix. rewrite take_app_length, bool_decide_eq_true_2 by done. by rewrite drop_app_length. Qed.

Definition no_backtick_start (s : bytes) : Prop := head s ≠ Some backtick.

Lemma lex_body_quoted name rest :
  no_backtick_start rest → lex_body (double_backticks name ++ backtick :: rest) = Some (name, rest).
Proof.
  intros Hr. induction name as [|c name IH]; cbn.
  - rewrite bool_decide_eq_true_2 by done. destruct rest as [|d rest]; [done|].
    rewrite bool_decide_eq_false_2; [done|]. intros ->. by apply Hr.
  - case_bool_decide as E; cbn.
    + rewrite !bool_decide_eq_true_2 by done. by rewrite IH, E.
    + rewrite bool_decide_eq_false_2 by done. by rewrite IH.
Qed.

Lemma lex_identifier_quoted name rest :
  no_backtick_start rest → lex_identifier (quoteMySQLIdentifier name ++ rest) = Some (name, rest).
Proof.
  intros Hr. unfold lex_identifier, quoteMySQLIdentifier.
  rewrite <- !app_assoc, strip_app. cbn [mbind option_bind]. by apply lex_body_quoted.
Qed.

Definition conjunct (col : FKColumn) : bytes := quoteMySQLIdentifier (fc_ReferencedColumn col) ++ gs " = ?".

Lemma length_conjuncts cols : length cols ≤ length (join (gs " AND ") (conjunct <$> cols)).
Proof.
  induction cols as [|c [|c' cols] IH]; [done|cbn; rewrite !length_app; cbn; lia|].
  rewrite !fmap_cons in *. cbn [join length] in *. rewrite !length_app.
  assert (1 ≤ length (conjunct c)) by (unfold conjunct, quoteMySQLIdentifier; rewrite !length_app; cbn; lia). lia.
Qed.

Lemma lex_conjuncts_join fuel cols rest :
  cols ≠ [] → length cols ≤ fuel → strip (gs " AND ") (gs " LIMIT " ++ rest) = None →
  lex_conjuncts fuel (join (gs " AND ") (conjunct <$> cols) ++ gs " LIMIT " ++ rest)
  = Some (fc_ReferencedColumn <$> cols, gs " LIMIT " ++ rest).
Proof.
  intros Hc Hf Hs. revert fuel Hf. induction cols as [|c cols IH]; intros fuel Hf; [done|].
  destruct fuel as [|fuel]; [cbn in Hf; lia|]. destruct cols as [|c' cols].
  - cbn [fmap list_fmap join lex_conjuncts]. unfold conjunct at 1. rewrite <- app_assoc.
    rewrite lex_identifier_quoted by done. cbn [mbind option_bind]. rewrite strip_app. cbn [mbind option_bind].
    by rewrite Hs.
  - rewrite !fmap_cons. cbn [join lex_conjuncts]. unfold conjunct at 1. rewrite <- !app_assoc.
    rewrite lex_identifier_quoted by done. cbn [mbind option_bind]. rewrite strip_app. cbn [mbind option_bind].
    rewrite strip_app. cbn [mbind option_bind]. rewrite <- fmap_cons.
    rewrite IH by (done || (cbn in *; lia)). done.
Qed.

(** The generated navigation query says exactly what was resolved: whatever
    the catalog's identifiers contain, reading it back yields the referenced
    schema, table and columns, one placeholder per column, and the limit. *)
Theorem related_query_roundtrip fk refSchema refTable limit :
  fk_Columns fk ≠ [] → (0 ≤ limit ≤ max_int64)%Z →
  lex_related_query (related_query fk refSchema refTable limit)
  = Some (refSchema, refTable, fc_ReferencedColumn <$> fk_Columns fk, limit).
Proof.
  intros Hc Hl. unfold lex_related_query, related_query. cbv zeta.
  change (λ col, quoteMySQLIdentifier (fc_ReferencedColumn col) ++ gs " = ?") with conjunct.
  rewrite strip_app. cbn [mbind option_bind].
  rewrite lex_identifier_quoted by done. cbn [mbind option_bind]. rewrite strip_app. cbn [mbind option_bind].
  rewrite lex_identifier_quoted by done. cbn [mbind option_bind]. rewrite strip_app. cbn [mbind option_bind].
  rewrite lex_conjuncts_join; [|done| |done].
  - cbn [mbind option_bind]. rewrite strip_app. cbn [mbind option_bind]. unfold format_int.
    rewrite (proj2 (Z.ltb_ge limit 0)) by lia. rewrite parse_format_uint; [done|].
    unfold max_int64, max_uint64 in *. lia.
  - rewrite length_app. pose proof (length_conjuncts (fk_Columns fk)). lia.
Qed.

(** The limits the entry uses are in that range, and within its own bounds. *)
Lemma related_limit_bounds environment req : (1 ≤ related_limit environment req ≤ MaxRelatedRowsHard)%Z.
Proof.
  unfold related_limit, ClampMaxRows, MaxRelatedRowsDefault, MaxRelatedRowsHard, productionHardMaxRows.
  destruct (nr_MaxRows req <=? 0)%Z eqn:?, (500 <? nr_MaxRows req)%Z eqn:?, (isProductionEnvironment environment);
    cbn [andb]; repeat case_match; bool_inv; lia.
Qed.

Definition sample_fk : FKSummary :=
  FkSummary (gs "fk_owner") [FkColumn (gs "owner_id") (gs "crm") (gs "us" ++ [backtick] ++ gs "ers") (gs "id");
                             FkColumn (gs "tenant") (gs "crm") (gs "us" ++ [backtick] ++ gs "ers") (gs "te" ++ [backtick; backtick])].
Lemma related_query_roundtrip_witness :
  lex_related_query (related_query sample_fk (gs "crm") (gs "us" ++ [backtick] ++ gs "ers") 100)
  = Some (gs "crm", gs "us" ++ [backtick] ++ gs "ers", [gs "id"; gs "te" ++ [backtick; backtick]], 100%Z).
Proof. apply (related_query_roundtrip sample_fk); [done|]. split; vm_compute; congruence. Defined.
