(* ===== verification/MysqlDurable.v ===== *)
(** * The keyed entries over the claim store

    [internal/repository/mysql] behind the service: the claim store with its
    database faults implements the evidence interface of MysqlAttempt, so what
    the entries answer is what the tables hold, and a key executes once. *)
From S2P Require Import Prelude GoText ClaimDigest ExecModel ResultContract ClaimStore TargetAccess QueryGuard MysqlAttempt MysqlEntries.

(** ** The claim store as an evidence store *)

(** The tables, the database clock, and the faults still to come; a call past
    the end of a script meets none. *)
Record faulty_db : Type := FaultyDb {
  fd_db : db;
  fd_clock : Z;
  fd_claims : list claim_faults;
  fd_pairs : list pair_faults;
}.

Definition pair_call (run : Z → pair_faults → db → stored Z * db) (s : faulty_db) : stored Z * faulty_db :=
  let f := default no_pair_faults (head (fd_pairs s)) in
  let '(r, d) := run (fd_clock s) f (fd_db s) in
  (r, FaultyDb d (1 + fd_clock s) (fd_claims s) (tail (fd_pairs s))).

Definition claim_call (c : QueryExecutionClaimInput) (s : faulty_db) : stored unit * faulty_db :=
  let f := default no_claim_faults (head (fd_claims s)) in
  let '(r, d) := TryClaimExecution c f (fd_db s) in
  (r, FaultyDb d (1 + fd_clock s) (tail (fd_claims s)) (fd_pairs s)).

#[export] Instance faulty_store : EvidenceStore faulty_db := {|
  es_claim_capable := true;
  es_insert rec ev res := pair_call (InsertExecutionWithAudit rec ev res);
  es_claim := claim_call;
  es_finalize rec ev res := pair_call (FinalizeClaimWithAudit rec ev res);
|}.

(** The row of that id is the one bound from the record. *)
Definition recorded (s : faulty_db) (id : Z) (rec : QueryExecutionRecord) : Prop :=
  ∃ row now, executions (fd_db s) !! id = Some row ∧ executionRecordArgs rec now = Ok row.

Lemma answers_step c s s' : answers c s s' → step (fd_db s) (fd_db s').
Proof.
  destruct c as [rec ev res r|c r|rec ev res r]; cbn; unfold pair_call, claim_call; intros H.
  - pose proof (step_insert rec ev res (fd_clock s) (default no_pair_faults (head (fd_pairs s))) (fd_db s)) as Hst.
    destruct (InsertExecutionWithAudit _ _ _ _ _ _) as [r' d]. by injection H as _ <-.
  - pose proof (step_claim c (default no_claim_faults (head (fd_claims s))) (fd_db s)) as Hst.
    destruct (TryClaimExecution _ _ _) as [r' d]. by injection H as _ <-.
  - pose proof (step_finalize rec ev res (fd_clock s) (default no_pair_faults (head (fd_pairs s))) (fd_db s)) as Hst.
    destruct (FinalizeClaimWithAudit _ _ _ _ _ _) as [r' d]. by injection H as _ <-.
Qed.

Lemma replays_steps t s s' : replays t s s' → rtc step (fd_db s) (fd_db s').
Proof. induction 1; [done|]. eapply rtc_l; [by eapply answers_step|done]. Qed.

Lemma reachable_steps s s' : reachable s → rtc step s s' → reachable s'.
Proof. unfold reachable. intros. by etrans. Qed.

Lemma reachable_wf s : reachable s → wf s.
Proof. intros H. by eapply steps_wf; [|apply empty_wf]. Qed.

#[export] Instance faulty_laws : EvidenceLaws faulty_db.
Proof.
  refine {| es_valid s := reachable (fd_db s); es_recorded := recorded |}.
  - intros c s s' H Hv. eapply reachable_steps; [done|]. by apply rtc_once, (answers_step c).
  - intros c s s' id rec H Hv (row & n & Hrow & Ha). exists row, n. split; [|done].
    eapply steps_executions; [by apply rtc_once, (answers_step c)|by apply reachable_wf|done].
  - intros rec ev res s id s' Hv. cbn. unfold pair_call.
    destruct (InsertExecutionWithAudit _ _ _ _ _ _) as [r d] eqn:E. intros [= -> <-].
    apply insert_outcome in E as [_ [(row & Hrow & _ & (_ & Hex & _) & [[= ->]|?])|[_ [? ?]]]]; [|done..].
    exists row, (fd_clock s). split; [|done]. cbn. by rewrite Hex, lookup_insert_eq.
  - intros rec ev res s id s' Hv. cbn. unfold pair_call.
    destruct (FinalizeClaimWithAudit _ _ _ _ _ _) as [r d] eqn:E. intros [= -> <-].
    apply finalize_outcome in E as [_ [(key & row & c & Hrow & _ & _ & (_ & Hex & _) & [[= ->]|?])|[_ [? ?]]]]; [|done..].
    exists row, (fd_clock s). split; [|done]. cbn. by rewrite Hex, lookup_insert_eq.
Defined.

(** ** From the contract to the tables *)

Lemma outcome_ok {A} caps key mine asks good (x : A) t :
  entry_outcome caps key mine asks good (Ok x) t →
  ∃ a rec w, mine a ∧ attributed a rec ∧ good a x rec w ∧ at_ownedKey a = key
    ∧ ((key = [] ∧ t = [write_of a rec w])
       ∨ (key ≠ [] ∧ ∃ c, asks c ∧ ci_ClientExecutionID c = key ∧ t = [CallClaim c (Ok tt); write_of a rec w])).
Proof.
  inversion 1 as [|a ? ? Hm Ho (rec & w & _ & _ & _ & [])|a ? ? Hk Hm Ho (rec & w & -> & Hat & _ & Hg)| | |
    a c ? ? Hk Hm Ho Ha Hc (rec & w & -> & Hat & _ & Hg)]; subst; exists a, rec, w; split_and!; auto.
  right. eauto.
Qed.

(** What the write of a released page passed to the store. *)
Definition stored_record (a : mysqlExecutionAttempt) (rec : QueryExecutionRecord) : QueryExecutionRecord :=
  if at_ownedKey a =?b [] then rec else keyed_record rec (at_ownedKey a).

Lemma write_recorded {S} `{EvidenceLaws S} a rec id s s' :
  es_valid s → answers (write_of a rec (Ok id)) s s' → es_recorded s' id (stored_record a rec).
Proof.
  unfold write_of, stored_record. intros Hv. case_bool_decide; cbn; intros Ha.
  - by eapply es_insert_recorded.
  - by eapply es_finalize_recorded.
Qed.

(** [rec] is the success of this request that [resp] reports. *)
Definition records_success (identity : QueryExecutionIdentity) (targetID : Z) (req : QueryExecuteRequest)
    (resp : QueryExecuteResponse) (rec : QueryExecutionRecord) : Prop :=
  er_Status rec = QueryExecutionSuccess ∧ rs_Status resp = QueryExecutionSuccess
  ∧ er_RowCount rec = rs_RowCount resp ∧ er_TargetResourceID rec = targetID
  ∧ er_ClientExecutionID rec = (if rq_ClientExecutionID req =?b [] then None else Some (rq_ClientExecutionID req))
  ∧ (er_ActorUserID rec, er_ActorMachinePrincipalID rec) =
      (if id_Kind identity =?b QueryExecutionActorUser then (id_ID identity, 0%Z) else (0%Z, id_ID identity)).

(** C13: A page reaches the client only when the returned execution id names a
    durable record of a success, of this target, actor, key and row count. *)
Theorem released_is_recorded {S} `{EvidenceLaws S} {Plan} now (svc_ : mysql_service Plan) identity targetID req st resp st' :
  es_valid (ss_store st) →
  Execute now svc_ identity targetID req st = (Answered (Ok resp), st') →
  ∃ rec, es_recorded (ss_store st') (rs_ExecutionID resp) rec ∧ records_success identity targetID req resp rec.
Proof.
  intros Hv He. pose proof (execute_outcome now svc_ identity targetID req st) as Hc. rewrite He in Hc.
  destruct Hc as (t & _ & Hr & Ho). apply outcome_ok in Ho as (a & rec & w & (Ht & Hi & _) & Hat & Hg & Hk & Htr).
  destruct Hg as (access & guarded & _ & _ & Hs & Hst & _ & _). destruct Hs as (-> & Hst' & Hrc & _).
  exists (stored_record a rec). split.
  - destruct Htr as [[_ ->]|(_ & c & _ & _ & ->)].
    + inversion Hr as [|? ? ? s1 ? Ha Hn]; subst. inversion Hn; subst. by eapply write_recorded.
    + inversion Hr as [|? ? ? s1 ? Hc Hn]; subst. inversion Hn as [|? ? ? s2 ? Ha Hn']; subst. inversion Hn'; subst.
      eapply write_recorded; [|done]. by eapply es_call_valid.
  - destruct Hat as (Htg & _ & Hcid & _ & _ & _ & _ & Hact). unfold records_success, stored_record. rewrite <- Hk, Ht, Hi in *.
    case_nil; cbn; by split_and!.
Qed.

(** ** One execution per key *)

(** A claim on an occupied key is never granted. *)
Lemma occupied_claim (s s' : faulty_db) c old :
  claims (fd_db s) !! (ci_TargetResourceID c, ci_ClientExecutionID c) = Some old →
  answers (CallClaim c (Ok tt)) s s' → False.
Proof.
  intros Hold. cbn. unfold claim_call.
  destruct (claim_taken c (default no_claim_faults (head (fd_claims s))) (fd_db s) old Hold) as (e & -> & _). done.
Qed.

Definition no_finalize (t : list store_call) : Prop :=
  Forall (λ c, match c with CallFinalize _ _ _ _ => False | _ => True end) t.

Lemma write_no_finalize a rec w : at_ownedKey a = [] → no_finalize [write_of a rec w].
Proof. intros H. unfold write_of. rewrite H, bool_decide_eq_true_2 by done. by repeat constructor. Qed.

(** On an occupied key an entry answers an error and finalizes nothing. *)
Lemma occupied_entry {A} caps key mine asks good targetID (r : result svc_error A) t (s s' : faulty_db) old :
  key ≠ [] → claims (fd_db s) !! (targetID, key) = Some old →
  (∀ c, asks c → ci_TargetResourceID c = targetID) →
  entry_outcome caps key mine asks good r t → replays t s s' → (∃ e, r = Err e) ∧ no_finalize t.
Proof.
  intros Hkey Hold Hasks Ho Hr.
  destruct Ho as [e He|a e t Hm Ho (rec & w & -> & _)|a r t Hk|c e err _ Ha Hc Hd|a pre e t _ Hm Hf Hpre|a c r t _ Hm Ho Ha Hc _].
  - split; [eauto|constructor].
  - split; [eauto|]. by apply write_no_finalize.
  - done.
  - split; [eauto|by repeat constructor].
  - split; [eauto|]. destruct Hf as (rec & w & -> & _).
    destruct Hpre as [->|(c & k & -> & _)]; by repeat constructor.
  - exfalso. inversion Hr; subst. eapply (occupied_claim _ _ c old); [|eassumption].
    by rewrite (Hasks c Ha), Hc.
Qed.


(** The claim row a released page leaves behind, with its execution. *)
Lemma released_claim {A} caps key mine asks good targetID (x : A) t (s s' : faulty_db) :
  key ≠ [] → (∀ c, asks c → ci_TargetResourceID c = targetID) →
  entry_outcome caps key mine asks good (Ok x) t → replays t s s' →
  ∃ c, claims (fd_db s') !! (targetID, key) = Some c.
Proof.
  intros Hkey Hasks Ho Hr. apply outcome_ok in Ho as (a & rec & w & _ & _ & _ & _ & [[? _]|(_ & c & Hc & Hck & ->)]); [done|].
  inversion Hr as [|? ? ? s1 ? Ha Hn]; subst.
  assert (∃ row, claims (fd_db s1) !! (targetID, ci_ClientExecutionID c) = Some row) as [row Hrow].
  { cbn in Ha. unfold claim_call in Ha. destruct (TryClaimExecution _ _ _) as [r d] eqn:E.
    injection Ha as -> <-. apply claim_outcome in E as [(actor & _ & _ & _ & -> & _)|[_ [? ?]]]; [|done].
    cbn. rewrite (Hasks c Hc), lookup_insert_eq. eauto. }
  destruct (steps_claims _ _ _ _ (replays_steps _ _ _ Hn) Hrow) as (c' & Hc' & _). eauto.
Qed.


Lemma answers_claim c r s s' :
  answers (CallClaim c r) s s' → ∃ f, TryClaimExecution c f (fd_db s) = (r, fd_db s').
Proof.
  cbn [answers es_claim faulty_store]. unfold claim_call.
  destruct (TryClaimExecution _ _ _) eqn:E. intros [= -> <-]. eauto.
Qed.

Lemma answers_finalize rec ev res r s s' :
  answers (CallFinalize rec ev res r) s s' → ∃ n f, FinalizeClaimWithAudit rec ev res n f (fd_db s) = (r, fd_db s').
Proof.
  cbn [answers es_finalize faulty_store]. unfold pair_call.
  destruct (FinalizeClaimWithAudit _ _ _ _ _ _) eqn:E. intros [= -> <-]. eauto.
Qed.

(** The owner of a claim is the actor its finalize recorded. *)
Lemma claim_then_finalize c f s s1 rec ev res n g id s2 :
  TryClaimExecution c f s = (Ok tt, s1) → FinalizeClaimWithAudit rec ev res n g s1 = (Ok id, s2) →
  er_TargetResourceID rec = ci_TargetResourceID c → er_ClientExecutionID rec = Some (ci_ClientExecutionID c) →
  ∃ cols, claimActorArgs (ci_Identity c) = Ok cols ∧ executionActorArgs rec = Ok cols.
Proof.
  intros Hc Hf Ht Hk.
  apply claim_outcome in Hc as [(actor & Hact & _ & _ & -> & _)|[_ [? ?]]]; [|done]. exists actor. split; [done|].
  apply finalize_outcome in Hf as [_ [(key & row & cr & Hrow & _ & Hown & _)|[_ [? ?]]]]; [|done].
  destruct (bound_row _ _ _ Hrow) as (Harg & Hrt & _). destruct Hown as (Hkk & _ & Hlook & _ & Hcra & _).
  rewrite Hk in Hkk. injection Hkk as <-. rewrite Harg. f_equal. rewrite <- Hcra.
  cbn [set_claims claims] in Hlook. rewrite Hrt, Ht, lookup_insert_eq in Hlook. by injection Hlook as <-.
Qed.


(** ** A run of the ordinary entry *)

Definition sample_page : QueryDatabaseResult :=
  DatabaseResult [sample_column] (Some [[CString (gs "ab")]]) 1 false (Some [[false]]).
(** A service on the sample target, whose planner releases every column. *)
Definition sample_service : mysql_service unit :=
  MysqlService unit (sample_env (gs "4000")) (sample_parser (gs "lower")) sample_config (λ s, Some s) (λ _ _, []) false
    (λ _ _ _, Ok tt) (λ _ _ _ _, Ok tt) (λ _ c r, Ok (c, r)) (λ _ _, Ok sample_page) (λ _ _ _ _, Ok sample_page)
    (λ _ _ _ _, Err plain_error).
Definition sample_clock (n : nat) : Z := (1000 + Z.of_nat n)%Z.
Definition sample_start : svc_state faulty_db := SvcState (FaultyDb empty_db 0 [] []) 0 [].
Definition sample_run := Execute sample_clock sample_service sample_actor 3 sample_request sample_start.

Definition sample_response : QueryExecuteResponse :=
  ExecuteResponse 1 QueryExecutionSuccess 3 (gs "TiDB") [sample_column] (Some [[CString (gs "ab")]]) 1 (Some [[false]]) false
    0 100 1005 (Some (PaginationResponse 1 50 false false)).

Lemma sample_start_valid : es_valid (ss_store sample_start).
Proof. exact (rtc_refl step empty_db). Qed.
Lemma sample_run_ok : sample_run = (Answered (Ok sample_response), sample_run.2).
Proof. vm_compute. reflexivity. Qed.
Lemma sample_run_reachable : reachable (fd_db (ss_store sample_run.2)).
Proof.
  pose proof (execute_outcome sample_clock sample_service sample_actor 3 sample_request sample_start) as Hc.
  fold sample_run in Hc. destruct sample_run as [r st]. destruct Hc as (t & _ & Hr & _).
  exact (replays_steps _ _ _ Hr).
Qed.

Lemma released_is_recorded_witness :
  ∃ rec, recorded (ss_store sample_run.2) 1 rec ∧ er_Status rec = QueryExecutionSuccess
    ∧ er_ClientExecutionID rec = Some (gs "key-1").
Proof.
  destruct (released_is_recorded sample_clock sample_service sample_actor 3 sample_request sample_start
    sample_response sample_run.2 sample_start_valid sample_run_ok) as (rec & Hrec & Hst & _ & _ & _ & Hk & _).
  exists rec. split; [exact Hrec|]. split; [exact Hst|]. rewrite Hk. reflexivity.
Defined.


