(* ===== verification/Disclosure.v ===== *)
(** * Result-disclosure governance

    [internal/service/query_disclosure_service.go], [query_disclosure_projection.go],
    the policy requests of [internal/model/query_disclosure.go] and
    [internal/repository/mysql/query_disclosure_repository.go]: where each result
    column comes from, which policy governs it, how rows are masked, and the
    policy table. The Vitess parser, the schema inspector, the driver's DSN
    parser and Unicode case mapping are parameters. *)
From S2P Require Import Prelude GoText ExecModel ResultContract ClaimStore TargetAccess QueryGuard MysqlAttempt MysqlEntries MysqlDurable.

(** ** What the resolver sees of a statement *)

Record table_name : Type := TableName { tn_Qualifier : bytes; tn_Name : bytes }.

Inductive from_item : Type :=
  | FromTable (table : table_name) (alias : bytes)  (** an aliased table expression over a table name *)
  | FromOther.

(** A column reference, a literal, NULL or boolean, or any other expression. *)
Inductive select_item : Type :=
  | ItemStar (table : table_name)
  | ItemColumn (name : bytes) (qualifier : table_name) (alias : bytes)
  | ItemLiteral (alias : bytes)
  | ItemExpr (alias : bytes)
  | ItemOther.

Record select_shape : Type := SelectShape {
  sh_With : bool; sh_Where : bool; sh_Having : bool; sh_GroupBy : bool; sh_OrderBy : bool; sh_Limit : bool;
  sh_From : list from_item;
  sh_Exprs : list select_item;
}.

Record ColumnProvenance : Type := Provenance {
  cp_OutputName : bytes;
  cp_SourceDatabase : bytes;
  cp_SourceSchema : bytes;
  cp_SourceObject : bytes;
  cp_SourceColumn : bytes;
}.
Record projectionSource : Type := Source { ps_database : bytes; ps_object : bytes; ps_alias : bytes }.

Inductive projection_error : Type := errProjectionUnsupported | ErrInspect (e : exec_error).

Definition source_provenance (s : projectionSource) (outputName sourceColumn : bytes) : ColumnProvenance :=
  Provenance outputName (ps_database s) [] (ps_object s) sourceColumn.

(** ** The explicit-dual test *)

Inductive strip_mode : Type := SNormal | SLine | SBlock | SQuoted (q : byte) | SEscaped (q : byte) | SBacktick.

Definition grave : byte := "`"%char.
Definition back_slash : byte := bz 92.

Fixpoint strip_from (mode : strip_mode) (s : bytes) : bytes :=
  match s with
  | [] => []
  | c :: r =>
    match mode with
    | SNormal =>
      if is_prefix (gs "--") s then strip_from SLine r
      else if is_prefix (gs "/*") s then match r with _ :: r => strip_from SBlock r | [] => [] end
      else if (c =?b "'"%char) || (c =?b bz 34) then c :: strip_from (SQuoted c) r
      else if c =?b grave then c :: strip_from SBacktick r
      else c :: strip_from SNormal r
    | SLine => if c =?b bz 10 then c :: strip_from SNormal r else strip_from SLine r
    | SBlock =>
      match r with
      | [] => [c] (** an unterminated comment leaves its last byte *)
      | d :: r1 => if (c =?b "*"%char) && (d =?b "/"%char) then strip_from SNormal r1 else strip_from SBlock r
      end
    | SQuoted q =>
      if c =?b q then c :: strip_from SNormal r
      else if (c =?b back_slash) && negb (r =?b []) then c :: strip_from (SEscaped q) r
      else c :: strip_from (SQuoted q) r
    | SEscaped q => c :: strip_from (SQuoted q) r
    | SBacktick => if c =?b grave then c :: strip_from SNormal r else c :: strip_from SBacktick r
    end
  end.
Definition stripSQLComments (stmt : bytes) : bytes := strip_from SNormal stmt.

(** [strings.Fields]; [cur] is the word being read. *)
Fixpoint fields_from (cur : bytes) (skip : nat) (s : bytes) : list bytes :=
  let word := if cur =?b [] then [] else [cur] in
  match s with
  | [] => word
  | c :: r =>
    match skip with
    | S k => fields_from cur k r
    | O => match list_find (λ p, is_prefix p s = true) spaces with
           | Some (_, p) => word ++ fields_from [] (length p - 1) r
           | None => fields_from (cur ++ [c]) 0 r
           end
    end
  end.
Definition fields (s : bytes) : list bytes := fields_from [] 0 s.

Fixpoint from_dual (words : list bytes) : bool :=
  match words with
  | a :: ((b :: _) as rest) => ((a =?b gs "FROM") && (b =?b gs "DUAL")) || from_dual rest
  | _ => false
  end.
Definition containsExplicitDual (stmt : bytes) : bool := from_dual (fields (to_upper (trim_space (stripSQLComments stmt)))).

Definition isNoTableProjection (s : select_shape) (originalStatement : bytes) : bool :=
  match sh_From s with
  | [] => true
  | [FromTable t _] =>
    if negb (tn_Qualifier t =?b []) || negb (equal_fold (tn_Name t) (gs "dual")) then false
    else negb (containsExplicitDual originalStatement)
  | _ => false
  end.

(** ** Projections *)

Fixpoint literal_columns (i : Z) (exprs : list select_item) : result projection_error (list ColumnProvenance) :=
  match exprs with
  | [] => Ok []
  | ItemLiteral alias :: exprs =>
    let name := if alias =?b [] then gs "column_" ++ format_int (i + 1) else alias in
    rest ← literal_columns (i + 1) exprs;
    Ok (Provenance name [] [] [] [] :: rest)
  | _ :: _ => Err errProjectionUnsupported
  end.
Definition resolveLiteralOnlyProjection (s : select_shape) : result projection_error (list ColumnProvenance) :=
  if sh_Where s || sh_Having s || sh_With s || sh_GroupBy s || sh_OrderBy s || sh_Limit s
  then Err errProjectionUnsupported else literal_columns 0 (sh_Exprs s).

Definition resolveProjectionSource (s : select_shape) (defaultDatabase : bytes) : result projection_error projectionSource :=
  if sh_With s then Err errProjectionUnsupported
  else match sh_From s with
  | [FromTable t alias] =>
    Ok (Source (if tn_Qualifier t =?b [] then defaultDatabase else tn_Qualifier t) (tn_Name t) alias)
  | _ => Err errProjectionUnsupported
  end.

(** What the planner is wired with. *)
Record disclosure_env : Type := DisclosureEnv {
  de_parse : bytes → option (option select_shape);                       (** inner [None]: not a SELECT *)
  de_columns : bytes → bytes → bytes → result exec_error (option (list bytes)); (** the columns [GetObjectDetails] lists *)
  de_dsn_database : bytes → option bytes;                                (** [mysql.ParseDSN], its [DBName] *)
  de_lower : bytes → bytes;                                              (** [strings.ToLower] *)
  de_equal_fold : bytes → bytes → bool;                                  (** [strings.EqualFold] *)
  de_policy : Z → bytes → bytes → bytes → bytes → result exec_error (option bytes); (** [GetByScope]: the mode; [None] is no rows *)
}.

Section planner.
Context (env : disclosure_env).

Definition matchesProjectionSource (q : table_name) (s : projectionSource) : bool :=
  let fold := de_equal_fold env in
  if (tn_Name q =?b []) && (tn_Qualifier q =?b []) then true
  else if (tn_Qualifier q =?b []) && negb (ps_alias s =?b []) && fold (tn_Name q) (ps_alias s) then true
  else if negb (fold (tn_Name q) (ps_object s)) then false
  else (tn_Qualifier q =?b []) || fold (tn_Qualifier q) (ps_database s).

(** The last column of that lower-cased name, as in a map filled in order. *)
Definition projectionColumn (columns : list bytes) (name : bytes) : option bytes :=
  find (λ c, de_lower env c =?b de_lower env name) (reverse columns).

Fixpoint select_columns (source : projectionSource) (columns : list bytes) (exprs : list select_item)
    : result projection_error (list ColumnProvenance) :=
  match exprs with
  | [] => Ok []
  | ItemStar q :: exprs =>
    if negb (matchesProjectionSource q source) then Err errProjectionUnsupported
    else rest ← select_columns source columns exprs; Ok (((λ c, source_provenance source c c) <$> columns) ++ rest)
  | ItemColumn name q alias :: exprs =>
    if negb (matchesProjectionSource q source) then Err errProjectionUnsupported
    else match projectionColumn columns name with
    | None => Err errProjectionUnsupported
    | Some sourceColumn =>
      rest ← select_columns source columns exprs;
      Ok (source_provenance source (if alias =?b [] then name else alias) sourceColumn :: rest)
    end
  | _ :: _ => Err errProjectionUnsupported
  end.

Definition resolveExecuteProjection (dsn database original : bytes) : result projection_error (list ColumnProvenance) :=
  match de_parse env original with
  | None => Err errProjectionUnsupported
  | Some None => Ok []
  | Some (Some s) =>
    if isNoTableProjection s original then resolveLiteralOnlyProjection s
    else
      source ← resolveProjectionSource s database;
      match de_columns env dsn (ps_database source) (ps_object source) with
      | Err e => Err (ErrInspect e)
      | Ok None => Err errProjectionUnsupported
      | Ok (Some columns) => select_columns source columns (sh_Exprs s)
      end
  end.

(** ** Plans *)

Record ColumnDisclosure : Type := Disclosure {
  cd_Provenance : ColumnProvenance;
  cd_Mode : bytes;
  cd_CopyAllowed : bool;
}.
Definition DisclosurePlan : Type := list ColumnDisclosure.

(** [ErrQueryDisclosureBlocked], and the backend sentinel around a cause. *)
Definition blocked_error : exec_error := ExecError false false false false true.
Definition backend_error (e : exec_error) : exec_error :=
  ExecError (xe_deadline e) (xe_canceled e) true (xe_too_large e) (xe_blocked e).

Fixpoint buildDisclosurePlan (targetResourceID : Z) (projection : list ColumnProvenance) : result exec_error DisclosurePlan :=
  match projection with
  | [] => Ok []
  | col :: projection =>
    if (cp_SourceDatabase col =?b []) && (cp_SourceObject col =?b []) && (cp_SourceColumn col =?b []) then
      plan ← buildDisclosurePlan targetResourceID projection;
      Ok (Disclosure col ResultDisclosureRawCopyAllowed true :: plan)
    else
      match de_policy env targetResourceID (cp_SourceDatabase col) (cp_SourceSchema col) (cp_SourceObject col) (cp_SourceColumn col) with
      | Err e => Err (backend_error e)
      | Ok None => Err blocked_error
      | Ok (Some mode) =>
        if negb (disclosure_mode_Validate mode) then Err blocked_error
        else
          plan ← buildDisclosurePlan targetResourceID projection;
          Ok (Disclosure col mode (mode =?b ResultDisclosureRawCopyAllowed) :: plan)
      end
  end.

Definition Preflight (dsn : bytes) (targetResourceID : Z) (guarded : GuardedQuery) : result exec_error DisclosurePlan :=
  match de_dsn_database env dsn with
  | None => Err (backend_error plain_error)
  | Some database =>
    match resolveExecuteProjection dsn database (gq_OriginalStatement guarded) with
    | Err errProjectionUnsupported => Err blocked_error
    | Err (ErrInspect e) => Err (backend_error e)
    | Ok [] => Err blocked_error
    | Ok projection => buildDisclosurePlan targetResourceID projection
    end
  end.

Definition PreflightRelatedRecords (dsn : bytes) (targetResourceID : Z) (referencedDatabase referencedTable : bytes)
    : result exec_error DisclosurePlan :=
  match de_columns env dsn referencedDatabase referencedTable with
  | Err e => Err (backend_error e)
  | Ok None => Err blocked_error
  | Ok (Some columns) =>
    buildDisclosurePlan targetResourceID
      ((λ c, Provenance c referencedDatabase [] referencedTable c) <$> columns)
  end.
End planner.

(** ** Masking a page *)

Definition disclosure_consistent (cd : ColumnDisclosure) : bool :=
  disclosure_mode_Validate (cd_Mode cd)
  && negb ((cd_Mode cd =?b ResultDisclosureRawCopyAllowed) && negb (cd_CopyAllowed cd))
  && negb ((cd_Mode cd =?b ResultDisclosureMaskedNoCopy) && cd_CopyAllowed cd).

Definition disclose_column (cd : ColumnDisclosure) (col : QueryResultColumn) : QueryResultColumn :=
  ResultColumn (col_Name col) (col_DatabaseType col) (col_Nullable col) (cd_Mode cd) (cd_CopyAllowed cd).

Fixpoint mask_rows (plan : DisclosurePlan) (width : nat) (rows : list (list cell)) : result exec_error (list (list cell)) :=
  match rows with
  | [] => Ok []
  | row :: rows =>
    if negb (length row =? width) then Err blocked_error
    else
      rest ← mask_rows plan width rows;
      Ok (zip_with (λ v cd, applyDisclosureMask v (cd_Mode cd)) row plan :: rest)
  end.

(** A nil slice of rows comes back as an empty one. *)
Definition Apply (plan : DisclosurePlan) (columns : list QueryResultColumn) (rows : page_rows)
    : result exec_error (list QueryResultColumn * page_rows) :=
  match plan with
  | [] => Err blocked_error
  | _ =>
    if negb (length plan =? length columns) then Err blocked_error
    else if negb (forallb disclosure_consistent plan) then Err blocked_error
    else
      out ← mask_rows plan (length columns) (default [] rows);
      Ok (zip_with disclose_column plan columns, Some out)
  end.

(** ** Policy management *)

Definition MaxIdentifierLength : nat := 128.
Definition ValidateIdentifierShape (value : bytes) (mustFill : bool) : bool :=
  if value =?b [] then negb mustFill
  else (rune_count value <=? MaxIdentifierLength) && negb (contains_byte nul value).

(** [^[a-zA-Z0-9_]+$]. *)
Definition identifierSyntax (value : bytes) : bool :=
  negb (value =?b [])
  && forallb (λ c, in_range 97 122 c || in_range 65 90 c || is_digit c || (c =?b "_"%char)) value.
Definition ValidateLegacyScopeIdentifier (value : bytes) : bool :=
  negb (value =?b []) && (rune_count value <=? MaxIdentifierLength) && identifierSyntax value.

Record ResultDisclosurePolicyUpsertRequest : Type := UpsertRequest {
  ur_TargetResourceID : Z;
  ur_DatabaseName : bytes; ur_SchemaName : bytes; ur_ObjectName : bytes; ur_ColumnName : bytes;
  ur_Mode : bytes;
}.

Definition scope_shape (database schema object column : bytes) : bool :=
  ValidateIdentifierShape database true && ValidateIdentifierShape schema false
  && ValidateIdentifierShape object true && ValidateIdentifierShape column true.

Definition upsert_Validate (r : ResultDisclosurePolicyUpsertRequest) : bool :=
  negb (ur_TargetResourceID r =? 0)%Z
  && scope_shape (ur_DatabaseName r) (ur_SchemaName r) (ur_ObjectName r) (ur_ColumnName r)
  && disclosure_mode_Validate (ur_Mode r).

(** The engine is compared exactly here. *)
Definition validatePolicyScope (target : QueryTarget) (schema database object column : bytes) : bool :=
  scope_shape database schema object column
  && if tg_Engine target =?b gs "postgresql" then negb (schema =?b [])
     else (schema =?b []) && ValidateLegacyScopeIdentifier database && ValidateLegacyScopeIdentifier object
          && ValidateLegacyScopeIdentifier column.

(** The five-part key, compared byte for byte. *)
Abbreviation policy_scope := (Z * bytes * bytes * bytes * bytes)%type.
Definition scope_of (r : ResultDisclosurePolicyUpsertRequest) : policy_scope :=
  (ur_TargetResourceID r, ur_DatabaseName r, ur_SchemaName r, ur_ObjectName r, ur_ColumnName r).

Record policy_table : Type := PolicyTable { pt_modes : gmap policy_scope bytes; pt_next : Z }.
Definition no_policies : policy_table := PolicyTable ∅ 1.

Inductive policy_error : Type :=
  | PolicyValidation | PolicyTargetNotFound | ErrQueryDisclosurePolicyConflict | ErrQueryDisclosurePolicyNotFound | PolicyStore.
(** Where the single statement fails: before it ran, or after, its answer lost. *)
Inductive statement_fault : Type := NoFault | FaultBefore | FaultAfter.

Definition run_statement {A} (f : statement_fault) (s s' : policy_table) (r : result policy_error A)
    : result policy_error A * policy_table :=
  match f with NoFault => (r, s') | FaultBefore => (Err PolicyStore, s) | FaultAfter => (Err PolicyStore, s') end.

(** A refused insert still consumes an id. *)
Definition Insert (r : ResultDisclosurePolicyUpsertRequest) (f : statement_fault) (s : policy_table)
    : result policy_error Z * policy_table :=
  let id := pt_next s in
  match pt_modes s !! scope_of r with
  | Some _ => run_statement f s (PolicyTable (pt_modes s) (1 + id)) (Err ErrQueryDisclosurePolicyConflict)
  | None => run_statement f s (PolicyTable (<[scope_of r := ur_Mode r]> (pt_modes s)) (1 + id)) (Ok id)
  end.

(** The driver reports changed rows: a row that already has the mode is none. *)
Definition UpdateMode (r : ResultDisclosurePolicyUpsertRequest) (f : statement_fault) (s : policy_table)
    : result policy_error unit * policy_table :=
  match pt_modes s !! scope_of r with
  | Some mode =>
    if mode =?b ur_Mode r then run_statement f s s (Err ErrQueryDisclosurePolicyNotFound)
    else run_statement f s (PolicyTable (<[scope_of r := ur_Mode r]> (pt_modes s)) (pt_next s)) (Ok tt)
  | None => run_statement f s s (Err ErrQueryDisclosurePolicyNotFound)
  end.

Definition DeleteScope (scope : policy_scope) (f : statement_fault) (s : policy_table)
    : result policy_error unit * policy_table :=
  run_statement f s (PolicyTable (delete scope (pt_modes s)) (pt_next s)) (Ok tt).

Section management.
Context (targets : Z → option (list QueryTarget)).

Definition policy_target (targetID : Z) : result policy_error QueryTarget :=
  match targets targetID with
  | None => Err PolicyTargetNotFound
  | Some ts => match find (λ t, (tg_ResourceID t =? targetID)%Z) ts with Some t => Ok t | None => Err PolicyTargetNotFound end
  end.

Definition check_upsert (r : ResultDisclosurePolicyUpsertRequest) : result policy_error unit :=
  if negb (upsert_Validate r) then Err PolicyValidation
  else
    target ← policy_target (ur_TargetResourceID r);
    guard_err (negb (validatePolicyScope target (ur_SchemaName r) (ur_DatabaseName r) (ur_ObjectName r) (ur_ColumnName r)))
      PolicyValidation.

Definition CreatePolicy (r : ResultDisclosurePolicyUpsertRequest) (f : statement_fault) (s : policy_table)
    : result policy_error Z * policy_table :=
  match check_upsert r with Err e => (Err e, s) | Ok _ => Insert r f s end.
Definition UpdatePolicy (r : ResultDisclosurePolicyUpsertRequest) (f : statement_fault) (s : policy_table)
    : result policy_error unit * policy_table :=
  match check_upsert r with Err e => (Err e, s) | Ok _ => UpdateMode r f s end.
Definition DeletePolicy (targetID : Z) (database schema object column : bytes) (f : statement_fault) (s : policy_table)
    : result policy_error unit * policy_table :=
  match (target ← policy_target targetID;
         guard_err (negb (validatePolicyScope target schema database object column)) PolicyValidation) with
  | Err e => (Err e, s)
  | Ok _ => DeleteScope (targetID, database, schema, object, column) f s
  end.

Inductive policy_step : policy_table → policy_table → Prop :=
  | policy_create r f s : policy_step s (CreatePolicy r f s).2
  | policy_update r f s : policy_step s (UpdatePolicy r f s).2
  | policy_delete targetID database schema object column f s :
    policy_step s (DeletePolicy targetID database schema object column f s).2.
End management.

(** [GetByScope] on the table. *)
Definition GetByScope (s : policy_table) (targetID : Z) (database schema object column : bytes)
    : result exec_error (option bytes) := Ok (pt_modes s !! (targetID, database, schema, object, column)).

(** ** What a plan may contain *)

Definition is_literal (p : ColumnProvenance) : Prop :=
  cp_SourceDatabase p = [] ∧ cp_SourceObject p = [] ∧ cp_SourceColumn p = [].

(** A column is governed by the policy of its exact source, or has no source. *)
Definition governed (env : disclosure_env) (targetID : Z) (cd : ColumnDisclosure) : Prop :=
  let p := cd_Provenance cd in
  disclosure_mode_Validate (cd_Mode cd) = true
  ∧ cd_CopyAllowed cd = bool_decide (cd_Mode cd = ResultDisclosureRawCopyAllowed)
  ∧ ((is_literal p ∧ cd_Mode cd = ResultDisclosureRawCopyAllowed)
     ∨ de_policy env targetID (cp_SourceDatabase p) (cp_SourceSchema p) (cp_SourceObject p) (cp_SourceColumn p)
       = Ok (Some (cd_Mode cd))).

Lemma build_plan_ok env targetID projection plan :
  buildDisclosurePlan env targetID projection = Ok plan →
  cd_Provenance <$> plan = projection ∧ Forall (governed env targetID) plan.
Proof.
  revert plan. induction projection as [|col projection IH]; intros plan; cbn [buildDisclosurePlan].
  { by intros [= <-]. }
  case_if as El.
  - destruct (buildDisclosurePlan env targetID projection) as [rest|]; [|done]. cbn [mbind result_bind]. intros [= <-].
    destruct (IH rest eq_refl) as [Hp Hg]. rewrite fmap_cons, Hp. split; [done|]. constructor; [|done].
    bool_inv. split_and!; [done|done|]. by left.
  - destruct (de_policy _ _ _ _ _ _) as [[mode|]|e] eqn:Ep; [|done..]. case_if as Em; [done|]. bool_inv.
    destruct (buildDisclosurePlan env targetID projection) as [rest|]; [|done]. cbn [mbind result_bind]. intros [= <-].
    destruct (IH rest eq_refl) as [Hp Hg]. rewrite fmap_cons, Hp. split; [done|]. constructor; [|done].
    split_and!; [done|done|]. by right.
Qed.

(** A column of the statement's one table: a column the inspector lists. *)
Definition column_of (source : projectionSource) (columns : list bytes) (p : ColumnProvenance) : Prop :=
  cp_SourceDatabase p = ps_database source ∧ cp_SourceSchema p = [] ∧ cp_SourceObject p = ps_object source
  ∧ cp_SourceColumn p ∈ columns.

Lemma literal_columns_ok i exprs projection :
  literal_columns i exprs = Ok projection → Forall is_literal projection.
Proof.
  revert i projection. induction exprs as [|[] exprs IH]; intros i projection; cbn [literal_columns]; try done; [by intros [= <-]|].
  destruct (literal_columns (i + 1) exprs) as [rest|] eqn:E; [|done]. cbn [mbind result_bind]. intros [= <-].
  constructor; [done|by eapply IH].
Qed.

Lemma projectionColumn_in env columns name c : projectionColumn env columns name = Some c → c ∈ columns.
Proof. unfold projectionColumn. intros [Hin _]%find_some. apply elem_of_reverse. by apply list_elem_of_In. Qed.

Lemma select_columns_ok env source columns exprs projection :
  select_columns env source columns exprs = Ok projection → Forall (column_of source columns) projection.
Proof.
  revert projection. induction exprs as [|item exprs IH]; intros projection; cbn [select_columns]; [by intros [= <-]|].
  destruct item as [q|name q alias| | |]; try done; case_if as Em; try done.
  - destruct (select_columns env source columns exprs) as [rest|]; [|done]. cbn [mbind result_bind]. intros [= <-].
    apply Forall_app. split; [|by apply IH]. apply Forall_fmap, Forall_forall. intros c Hc. by split_and!.
  - destruct (projectionColumn _ _ _) as [c|] eqn:Ec; [|done].
    destruct (select_columns env source columns exprs) as [rest|]; [|done]. cbn [mbind result_bind]. intros [= <-].
    constructor; [|by apply IH]. apply projectionColumn_in in Ec. by split_and!.
Qed.

(** ** Masked pages *)

(** What a released cell may be, under the decision for its column. *)
Definition cell_allowed (cd : ColumnDisclosure) (v : cell) : Prop :=
  cd_Mode cd = ResultDisclosureRawCopyAllowed ∨ v = CNil ∨ v = CString maskedReplacement.

Definition masked_page (plan : DisclosurePlan) (columns : list QueryResultColumn) (rows : page_rows) : Prop :=
  Forall2 (λ cd col, col_DisplayMode col = cd_Mode cd ∧ col_CopyAllowed col = cd_CopyAllowed cd) plan columns
  ∧ Forall (Forall2 cell_allowed plan) (default [] rows).

Lemma mask_allowed cd v : disclosure_mode_Validate (cd_Mode cd) = true → cell_allowed cd (applyDisclosureMask v (cd_Mode cd)).
Proof.
  unfold cell_allowed, applyDisclosureMask. intros [H|H]%orb_prop; apply bool_decide_eq_true in H; [by left|].
  rewrite H, bool_decide_eq_true_2 by done. right. destruct v; auto.
Qed.

Lemma mask_rows_ok plan width rows out :
  width = length plan → Forall (λ cd, disclosure_mode_Validate (cd_Mode cd) = true) plan →
  mask_rows plan width rows = Ok out → Forall (Forall2 cell_allowed plan) out.
Proof.
  intros -> Hv. revert out. induction rows as [|row rows IH]; intros out; cbn [mask_rows]; [by intros [= <-]|].
  case_if as Ew; [done|]. destruct (mask_rows plan (length plan) rows) as [rest|]; [|done]. cbn [mbind result_bind].
  intros [= <-]. constructor; [|by apply IH]. bool_inv. clear IH. revert row Ew.
  induction Hv as [|cd plan Hm Hv IHp]; intros [|v row] Ew; try done.
  cbn [zip_with]. constructor; [by apply mask_allowed|]. apply IHp. by injection Ew.
Qed.

Lemma Apply_ok plan columns rows columns' rows' :
  Apply plan columns rows = Ok (columns', rows') → masked_page plan columns' rows' ∧ length plan = length columns.
Proof.
  unfold Apply. destruct plan as [|cd plan]; [done|]. generalize (cd :: plan). clear cd plan. intros plan.
  case_if as El; [done|]. case_if as Ec; [done|]. apply negb_false_iff, Nat.eqb_eq in El. apply negb_false_iff in Ec.
  destruct (mask_rows _ _ _) as [out|] eqn:Em; [|done]. cbn [mbind result_bind]. intros [= <- <-]. split; [|done].
  split.
  - clear Em Ec. revert columns El. induction plan as [|cd plan IH]; intros [|col columns] El; try done.
    cbn [zip_with]. constructor; [done|]. apply IH. by injection El.
  - cbn [default]. eapply mask_rows_ok; [by symmetry| |exact Em]. apply Forall_forall. intros cd Hin.
    rewrite forallb_forall in Ec. specialize (Ec cd (proj1 (list_elem_of_In _ _) Hin)). unfold disclosure_consistent in Ec. by bool_inv.
Qed.

(** The rows agree as far as the plan lets anyone see: masked cells only in
    being null. *)
Definition same_visible (cd : ColumnDisclosure) (v w : cell) : Prop :=
  if cd_Mode cd =?b ResultDisclosureMaskedNoCopy then v = CNil ↔ w = CNil else v = w.

Lemma mask_same cd v w : same_visible cd v w → applyDisclosureMask v (cd_Mode cd) = applyDisclosureMask w (cd_Mode cd).
Proof.
  unfold same_visible, applyDisclosureMask. case_if as E; [|done].
  intros Hvw. destruct v, w; try done; exfalso; naive_solver.
Qed.

Lemma mask_rows_same plan width rows1 rows2 :
  Forall2 (λ r1 r2, length r1 = length r2 ∧ ∀ i cd v w, plan !! i = Some cd → r1 !! i = Some v → r2 !! i = Some w → same_visible cd v w) rows1 rows2 →
  mask_rows plan width rows1 = mask_rows plan width rows2.
Proof.
  induction 1 as [|r1 r2 rows1 rows2 [Hl Hr] _ IH]; cbn [mask_rows]; [done|]. rewrite Hl, IH. case_if as E; [done|].
  destruct (mask_rows plan width rows2) as [rest|]; [|done]. cbn [mbind result_bind]. do 2 f_equal.
  clear -Hl Hr. revert r2 plan Hl Hr. induction r1 as [|v r1 IH]; intros [|w r2] plan Hl Hr; try done.
  destruct plan as [|cd plan]; [done|]. cbn [zip_with]. f_equal.
  - apply mask_same. by apply (Hr 0).
  - apply IH; [by injection Hl|]. intros i cd' v' w' Hp Hv Hw. by apply (Hr (S i) cd').
Qed.

(** Nothing about a masked value but whether it is null reaches the page:
    two results that agree on the raw columns and on which masked cells are
    null are disclosed as the same page, and what comes out of a masked column
    is null or the fixed marker. *)
Theorem masked_values_hidden plan columns rows1 rows2 :
  Forall2 (λ r1 r2, length r1 = length r2 ∧ ∀ i cd v w, plan !! i = Some cd → r1 !! i = Some v → r2 !! i = Some w → same_visible cd v w) rows1 rows2 →
  Apply plan columns (Some rows1) = Apply plan columns (Some rows2)
  ∧ ∀ columns' rows', Apply plan columns (Some rows1) = Ok (columns', rows') → masked_page plan columns' rows'.
Proof.
  intros H. split; [|by intros columns' rows' [Hm _]%Apply_ok].
  unfold Apply. destruct plan as [|cd plan]; [done|]. cbn [default]. by rewrite (mask_rows_same _ _ _ _ H).
Qed.

(** Where the columns of a plan come from: all literals, or columns of the one
    table the statement names. *)
Definition sourced (env : disclosure_env) (dsn original : bytes) (projection : list ColumnProvenance) : Prop :=
  ∃ database s, de_dsn_database env dsn = Some database ∧ de_parse env original = Some (Some s)
    ∧ (Forall is_literal projection
       ∨ ∃ source columns, resolveProjectionSource s database = Ok source
           ∧ de_columns env dsn (ps_database source) (ps_object source) = Ok (Some columns)
           ∧ Forall (column_of source columns) projection).

Lemma preflight_ok env dsn targetID guarded plan :
  Preflight env dsn targetID guarded = Ok plan →
  plan ≠ [] ∧ Forall (governed env targetID) plan
  ∧ sourced env dsn (gq_OriginalStatement guarded) (cd_Provenance <$> plan).
Proof.
  unfold Preflight. destruct (de_dsn_database env dsn) as [database|] eqn:Edb; [|done].
  destruct (resolveExecuteProjection _ _ _ _) as [[|col projection]|[|e]] eqn:Ep; try done.
  intros [Hp Hg]%build_plan_ok. split; [by intros ->|]. split; [done|]. rewrite Hp.
  unfold resolveExecuteProjection in Ep. destruct (de_parse env _) as [[s|]|] eqn:Es; try done.
  exists database, s. split; [done|]. split; [done|]. revert Ep. case_if as En.
  - unfold resolveLiteralOnlyProjection. case_if as Ew; [done|]. intros H%literal_columns_ok. by left.
  - destruct (resolveProjectionSource s database) as [source|] eqn:Eso; [|done]. cbn [mbind result_bind].
    destruct (de_columns _ _ _ _) as [[columns|]|] eqn:Ec; [|done..]. intros H%select_columns_ok. right. by exists source, columns.
Qed.

(** The disclosure planner is fail-closed. A plan exists only for a SELECT
    of literals or of direct columns of one table the inspector knows; each of
    its columns is a literal or carries exactly the mode stored for that very
    target, database, object and column, and may be copied only when raw. *)
Theorem preflight_fail_closed env dsn targetID guarded plan :
  Preflight env dsn targetID guarded = Ok plan →
  plan ≠ [] ∧ Forall (governed env targetID) plan
  ∧ sourced env dsn (gq_OriginalStatement guarded) (cd_Provenance <$> plan).
Proof. apply preflight_ok. Qed.

(** ** The governed entries *)

(** The service with its disclosure planner: the parameters of the entries are
    the modelled functions. *)
Definition governed_service (svc_ : mysql_service DisclosurePlan) (env : disclosure_env) : mysql_service DisclosurePlan :=
  MysqlService DisclosurePlan (sv_access svc_) (sv_parser svc_) (sv_guard svc_) (sv_sanitized svc_) (sv_guard_text svc_)
    (sv_pgHTTPEntries svc_) (Preflight env) (PreflightRelatedRecords env) Apply (sv_query svc_) (sv_query_related svc_)
    (sv_details svc_).

(** Every cell of the page is null, the marker, or under a raw policy (or a literal). *)
Definition governed_page (env : disclosure_env) (targetID : Z) (columns : list QueryResultColumn) (rows : page_rows) : Prop :=
  ∃ plan, Forall (governed env targetID) plan ∧ masked_page plan columns rows.

Lemma disclosed_governed env targetID preflight run page :
  (∀ plan, preflight = Ok plan → Forall (governed env targetID) plan) →
  disclosed Apply preflight run page → governed_page env targetID (dr_Columns page) (dr_Rows page).
Proof. intros Hp (plan & res & He & _ & [Hm _]%Apply_ok & _). exists plan. split; [by apply Hp|done]. Qed.

Lemma related_governed env dsn targetID db table plan :
  PreflightRelatedRecords env dsn targetID db table = Ok plan → Forall (governed env targetID) plan.
Proof. unfold PreflightRelatedRecords. destruct (de_columns _ _ _ _) as [[columns|]|]; [|done..]. by intros [_ H]%build_plan_ok. Qed.

Lemma evidence_good {A} a caps (good : A → _) x t : evidence_of a caps good (Ok x) t → ∃ rec w, good x rec w.
Proof. intros (rec & w & _ & _ & _ & H). by exists rec, w. Qed.

(** A released answer satisfies what its entry relates to the record. *)
Lemma outcome_good {A} caps key mine asks good x t :
  @entry_outcome A caps key mine asks good (Ok x) t → ∃ a rec w, good a x rec w.
Proof.
  intros H. inversion H; subst; match goal with H : evidence_of _ _ _ (Ok _) _ |- _ => apply evidence_good in H as (rec & w & ?) end; eauto.
Qed.


(** ** The policy table *)

Definition policies_ok (targets : Z → option (list QueryTarget)) (s : policy_table) : Prop :=
  ∀ targetID database schema object column mode,
    pt_modes s !! (targetID, database, schema, object, column) = Some mode →
    disclosure_mode_Validate mode = true
    ∧ ∃ target, policy_target targets targetID = Ok target
        ∧ validatePolicyScope target schema database object column = true.

Lemma run_statement_table {A} f s s' (r : result policy_error A) :
  (run_statement f s s' r).2 = s ∨ (run_statement f s s' r).2 = s'.
Proof. destruct f; auto. Qed.

Lemma check_upsert_ok targets r : check_upsert targets r = Ok tt →
  disclosure_mode_Validate (ur_Mode r) = true
  ∧ ∃ target, policy_target targets (ur_TargetResourceID r) = Ok target
      ∧ validatePolicyScope target (ur_SchemaName r) (ur_DatabaseName r) (ur_ObjectName r) (ur_ColumnName r) = true.
Proof.
  unfold check_upsert. case_if as Ev; [done|]. apply negb_false_iff in Ev. intros H. res_inv. bool_inv. split.
  - unfold upsert_Validate in Ev. by bool_inv.
  - by eexists.
Qed.

Lemma policies_insert targets s r mode next :
  policies_ok targets s → check_upsert targets r = Ok tt → mode = ur_Mode r →
  policies_ok targets (PolicyTable (<[scope_of r := mode]> (pt_modes s)) next).
Proof.
  intros Hok (Hm & Ht)%check_upsert_ok -> tid db sc ob co m. cbn [pt_modes].
  intros [[Heq <-]|[_ H]]%lookup_insert_Some; [|by apply Hok]. unfold scope_of in Heq. by simplify_eq.
Qed.

Lemma policy_step_ok targets s s' : policies_ok targets s → policy_step targets s s' → policies_ok targets s'.
Proof.
  intros Hok H. revert Hok. destruct H as [r f s|r f s|tid db sc ob co f s]; intros Hok.
  - unfold CreatePolicy. destruct (check_upsert targets r) as [[]|] eqn:Ec; [|done]. unfold Insert.
    destruct (pt_modes s !! scope_of r) eqn:El;
      match goal with |- policies_ok _ (run_statement ?f ?s ?s' ?r).2 => destruct (run_statement_table f s s' r) as [-> | ->] end; try done.
    by apply policies_insert.
  - unfold UpdatePolicy. destruct (check_upsert targets r) as [[]|] eqn:Ec; [|done]. unfold UpdateMode.
    destruct (pt_modes s !! scope_of r) eqn:El; [case_if as Em|];
      match goal with |- policies_ok _ (run_statement ?f ?s ?s' ?r).2 => destruct (run_statement_table f s s' r) as [-> | ->] end; try done.
    by apply policies_insert.
  - unfold DeletePolicy. destruct (_ ≫= _); [|done]. unfold DeleteScope.
    match goal with |- policies_ok _ (run_statement ?f ?s ?s' ?r).2 => destruct (run_statement_table f s s' r) as [-> | ->] end; [done|].
    intros t d c o l m. cbn [pt_modes]. intros [_ H]%lookup_delete_Some. by apply Hok.
Qed.

Lemma policies_reachable targets s : rtc (policy_step targets) no_policies s → policies_ok targets s.
Proof.
  assert (policies_ok targets no_policies) as H0 by (intros ? ? ? ? ? ? H; unfold no_policies in H; cbn [pt_modes] in H; by rewrite lookup_empty in H).
  intros H. revert H0. induction H as [|s t u Hst _ IH]; [done|]. intros Hok. apply IH. by eapply policy_step_ok.
Qed.

(** Every other scope keeps its mode. *)
Definition only_changes (scope : policy_scope) (s s' : policy_table) : Prop :=
  ∀ scope', scope' ≠ scope → pt_modes s' !! scope' = pt_modes s !! scope'.

Lemma run_statement_ok {A} f s s' (r : result policy_error A) x t :
  run_statement f s s' r = (Ok x, t) → r = Ok x ∧ t = s'.
Proof. destruct f; cbn; try done. by intros [-> ->]%pair_eq. Qed.

(** A created policy is the one read back for exactly its scope, and only
    where there was none; an update replaces the mode of an existing scope; a
    delete removes it; no write touches another scope; and every stored policy
    keeps a valid mode and a scope its target's engine accepts. *)
Theorem policy_table_exact targets s :
  rtc (policy_step targets) no_policies s →
  policies_ok targets s
  ∧ (∀ r f id s', CreatePolicy targets r f s = (Ok id, s') →
       pt_modes s !! scope_of r = None ∧ pt_modes s' !! scope_of r = Some (ur_Mode r) ∧ only_changes (scope_of r) s s')
  ∧ (∀ r f s', UpdatePolicy targets r f s = (Ok tt, s') →
       is_Some (pt_modes s !! scope_of r) ∧ pt_modes s' !! scope_of r = Some (ur_Mode r) ∧ only_changes (scope_of r) s s')
  ∧ (∀ targetID database schema object column f s', DeletePolicy targets targetID database schema object column f s = (Ok tt, s') →
       let scope := (targetID, database, schema, object, column) in
       pt_modes s' !! scope = None ∧ only_changes scope s s').
Proof.
  intros Hok%policies_reachable. split; [done|]. split_and!.
  - intros r f id s'. unfold CreatePolicy, Insert. destruct (check_upsert targets r); [|done].
    destruct (pt_modes s !! scope_of r) eqn:El; intros [H ->]%run_statement_ok; [done|]. cbn [pt_modes].
    split_and!; [done|by rewrite lookup_insert_eq|]. intros scope Hne. cbn [pt_modes]. by rewrite lookup_insert_ne.
  - intros r f s'. unfold UpdatePolicy, UpdateMode. destruct (check_upsert targets r); [|done].
    destruct (pt_modes s !! scope_of r) eqn:El; [case_if as Em|]; intros [H ->]%run_statement_ok; try done. cbn [pt_modes].
    split_and!; [done|by rewrite lookup_insert_eq|]. intros scope Hne. cbn [pt_modes]. by rewrite lookup_insert_ne.
  - intros tid db sc ob co f s'. unfold DeletePolicy, DeleteScope. destruct (_ ≫= _); [|done].
    intros [_ ->]%run_statement_ok. cbn [pt_modes]. split; [by rewrite lookup_delete_eq|].
    intros scope Hne. cbn [pt_modes]. by rewrite lookup_delete_ne.
Qed.

(** Saving a policy again with the mode it already has is answered as if the
    policy did not exist, although it does: the update counts changed rows. *)
Theorem unchanged_update_not_found targets s r :
  check_upsert targets r = Ok tt → pt_modes s !! scope_of r = Some (ur_Mode r) →
  UpdatePolicy targets r NoFault s = (Err ErrQueryDisclosurePolicyNotFound, s)
  ∧ GetByScope s (ur_TargetResourceID r) (ur_DatabaseName r) (ur_SchemaName r) (ur_ObjectName r) (ur_ColumnName r)
    = Ok (Some (ur_Mode r)).
Proof.
  intros Hc Hl. unfold UpdatePolicy, UpdateMode, GetByScope. rewrite Hc, Hl, bool_decide_eq_true_2 by done.
  split; [done|]. by f_equal.
Qed.

(** A target whose engine is spelled with capitals is PostgreSQL everywhere else,
    but takes no policy with a schema. *)
Example engine_case_drift :
  let target := Target 3 (gs "staging") (gs "PostgreSQL") (gs "pg1") 5432 in
  isPGEngine (tg_Engine target) = true
  ∧ validatePolicyScope target (gs "public") (gs "app") (gs "users") (gs "email") = false.
Proof. split; vm_compute; reflexivity. Qed.

(** ** A governed run *)

Definition sample_shape : select_shape :=
  SelectShape false true false false false false [FromTable (TableName [] (gs "users")) (gs "u")]
    [ItemColumn (gs "ID") (TableName [] (gs "U")) []].
Definition sample_policies : policy_table :=
  (CreatePolicy (λ _, Some [sample_target]) (UpsertRequest 3 (gs "app") [] (gs "users") (gs "id") ResultDisclosureMaskedNoCopy)
     NoFault no_policies).2.
Definition sample_disclosure_env (s : policy_table) : disclosure_env :=
  DisclosureEnv (λ _, Some (Some sample_shape)) (λ _ _ _, Ok (Some [gs "id"; gs "email"])) (λ _, Some (gs "app"))
    to_lower equal_fold (GetByScope s).
Definition sample_ungoverned : mysql_service DisclosurePlan :=
  MysqlService DisclosurePlan (sample_env (gs "4000")) (sample_parser (gs "lower")) sample_config (λ s, Some s) (λ _ _, []) false
    (λ _ _ _, Ok []) (λ _ _ _ _, Ok []) (λ _ c r, Ok (c, r)) (λ _ _, Ok sample_page) (λ _ _ _ _, Ok sample_page)
    (λ _ _ _ _, Err plain_error).
Definition governed_run (s : policy_table) :=
  Execute sample_clock (governed_service sample_ungoverned (sample_disclosure_env s)) sample_actor 3 sample_request sample_start.
Definition masked_response : QueryExecuteResponse :=
  ExecuteResponse 1 QueryExecutionSuccess 3 (gs "TiDB")
    [ResultColumn (gs "id") (gs "BIGINT") false ResultDisclosureMaskedNoCopy false] (Some [[CString maskedReplacement]]) 1
    (Some [[false]]) false 0 100 1005 (Some (PaginationResponse 1 50 false false)).

Lemma governed_run_ok : (governed_run sample_policies).1 = Answered (Ok masked_response).
Proof. vm_compute. reflexivity. Qed.
Example ungoverned_blocked : (governed_run no_policies).1 = Answered (Err SDisclosureRefused).
Proof. vm_compute. reflexivity. Qed.

Lemma masked_values_hidden_witness :
  let cd := Disclosure (Provenance (gs "id") (gs "app") [] (gs "users") (gs "id")) ResultDisclosureMaskedNoCopy false in
  Apply [cd] [sample_column] (Some [[CString (gs "a")]]) = Apply [cd] [sample_column] (Some [[CInt64 5]]).
Proof.
  cbn zeta.
  apply (masked_values_hidden [Disclosure (Provenance (gs "id") (gs "app") [] (gs "users") (gs "id")) ResultDisclosureMaskedNoCopy false]).
  constructor; [|constructor]. split; [reflexivity|]. intros [|i] cd v w Hp Hv Hw; [|discriminate Hp].
  injection Hp as <-. injection Hv as <-. injection Hw as <-. vm_compute. split; discriminate.
Defined.

Definition sample_plan : DisclosurePlan :=
  [Disclosure (Provenance (gs "ID") (gs "app") [] (gs "users") (gs "id")) ResultDisclosureMaskedNoCopy false].
Lemma preflight_fail_closed_witness :
  Preflight (sample_disclosure_env sample_policies) (gs "dsn") 3 (Guarded (gs "select u.ID from users u") [] 0 0 [] []) = Ok sample_plan
  ∧ Forall (governed (sample_disclosure_env sample_policies) 3) sample_plan.
Proof.
  assert (Preflight (sample_disclosure_env sample_policies) (gs "dsn") 3 (Guarded (gs "select u.ID from users u") [] 0 0 [] []) = Ok sample_plan)
    as H by (vm_compute; reflexivity).
  split; [exact H|]. apply (preflight_fail_closed _ _ _ _ _ H).
Defined.


Lemma sample_policies_reachable : rtc (policy_step (λ _, Some [sample_target])) no_policies sample_policies.
Proof. apply rtc_once. apply policy_create. Qed.

Lemma policy_table_exact_witness : policies_ok (λ _, Some [sample_target]) sample_policies.
Proof. apply (policy_table_exact (λ _, Some [sample_target]) sample_policies sample_policies_reachable). Defined.

Lemma unchanged_update_not_found_witness :
  let r := UpsertRequest 3 (gs "app") [] (gs "users") (gs "id") ResultDisclosureMaskedNoCopy in
  (UpdatePolicy (λ _, Some [sample_target]) r NoFault sample_policies).1 = Err ErrQueryDisclosurePolicyNotFound.
Proof.
  cbn zeta. destruct (unchanged_update_not_found (λ _, Some [sample_target]) sample_policies
    (UpsertRequest 3 (gs "app") [] (gs "users") (gs "id") ResultDisclosureMaskedNoCopy)) as [H _];
    [vm_compute; reflexivity|vm_compute; reflexivity|rewrite H; reflexivity].
Defined.
