(* ===== verification/PgLexer.v ===== *)
(** * PostgreSQL lexical scan

    [internal/pgsql/template.go] and [internal/pgsql/preview.go]: the one-pass
    byte scanner over strings, quoted identifiers, comments, dollar quotes and
    array brackets, the template placeholders it finds, and the history preview
    that masks literals. Loops run on fuel; the length of the statement is
    enough ([scan_markers], [preview_from_partition]). *)
From S2P Require Import Prelude GoText.

(** ** Byte classes *)

Definition quote_byte : byte := "'"%char.
Definition dquote_byte : byte := bz 34.
Definition backslash : byte := bz 92.
Definition dollar : byte := "$"%char.
Definition colon : byte := ":"%char.

Definition pgIdentStart (b : byte) : bool :=
  (b =?b "_"%char) || (128 <=? bv b)%Z || in_range 97 122 b || in_range 65 90 b.
Definition pgIdentPart (b : byte) : bool := pgIdentStart b || in_range 48 57 b || (b =?b dollar).
Definition pgIdentPartDollarless (b : byte) : bool := pgIdentStart b || in_range 48 57 b.

(** [s[i]] where the code has checked the index. *)
Definition byte_is (s : bytes) (i : nat) (p : byte → bool) : bool :=
  match s !! i with Some c => p c | None => false end.
Definition is_byte (b c : byte) : bool := c =?b b.

Definition pgIdentByteBefore (s : bytes) (pos : nat) : bool :=
  match pos with O => false | S p => byte_is s p pgIdentPart end.

(** ** Skipping one construct

    Each returns where scanning resumes; [length s + 1] means unterminated. *)

(** The bodies are walked on the remaining input [rest], which starts at [i]. *)
Fixpoint quoted_from (n i : nat) (rest : bytes) (quote : byte) (escapes : bool) : nat :=
  match rest with
  | [] => S n
  | c :: r =>
    if c =?b quote then
      match r with
      | d :: r' => if d =?b quote then quoted_from n (2 + i) r' quote escapes else 1 + i
      | [] => 1 + i
      end
    else if (c =?b backslash) && escapes then
      match r with
      | _ :: r' => quoted_from n (2 + i) r' quote escapes
      | [] => quoted_from n (1 + i) r quote escapes
      end
    else quoted_from n (1 + i) r quote escapes
  end.
Definition skipPGQuoted (s : bytes) (i : nat) (quote : byte) (escapes : bool) : nat :=
  quoted_from (length s) i (drop i s) quote escapes.

Definition newline (c : byte) : bool := (c =?b bz 10) || (c =?b bz 13).

Fixpoint line_comment_from (i : nat) (rest : bytes) : nat :=
  match rest with
  | c :: r => if newline c then i else line_comment_from (1 + i) r
  | [] => i
  end.
Definition skipPGLineComment (s : bytes) (i : nat) : nat := line_comment_from i (drop i s).

Fixpoint block_comment_from (n i depth : nat) (rest : bytes) : nat :=
  match rest with
  | c :: ((d :: r') as r) =>
    if (c =?b "/"%char) && (d =?b "*"%char) then block_comment_from n (2 + i) (1 + depth) r'
    else if (c =?b "*"%char) && (d =?b "/"%char) then
      match depth with
      | S (S _ as depth') => block_comment_from n (2 + i) depth' r'
      | _ => 2 + i
      end
    else block_comment_from n (1 + i) depth r
  | _ => S n
  end.
Definition skipPGBlockComment (s : bytes) (i : nat) : nat := block_comment_from (length s) i 1 (drop i s).

Definition pgEStringPrefix (s : bytes) (pos : nat) : bool :=
  match pos with
  | O => false
  | S p => byte_is s p (λ c, (c =?b "e"%char) || (c =?b "E"%char))
           && match p with O => true | S q => negb (byte_is s q pgIdentPart) end
  end.

(** Where the gap after a closed literal ends, whether it held a newline, and
    whether its comments are closed. *)
Fixpoint pgStringGap (fuel : nat) (s : bytes) (j : nat) (sawNewline : bool) : option (nat * bool * bool) :=
  match fuel with
  | O => None
  | S fuel =>
    match s !! j with
    | None => Some (j, sawNewline, true)
    | Some c =>
      if newline c then pgStringGap fuel s (1 + j) true
      else if (c =?b " "%char) || (c =?b bz 9) || (c =?b bz 12) || (c =?b bz 11) then pgStringGap fuel s (1 + j) sawNewline
      else if (c =?b "-"%char) && byte_is s (1 + j) (is_byte "-"%char) then
        pgStringGap fuel s (skipPGLineComment s (2 + j)) sawNewline
      else if (c =?b "/"%char) && byte_is s (1 + j) (is_byte "*"%char) then
        let e := skipPGBlockComment s (2 + j) in
        if length s <? e then Some (j, sawNewline, false)
        else pgStringGap fuel s e (sawNewline || existsb newline (slice j e s))
      else Some (j, sawNewline, true)
    end
  end.

(** The continuation segments after the literal that ends at [i]. *)
Fixpoint string_segments (fuel : nat) (s : bytes) (i : nat) (escapes : bool) : option nat :=
  match fuel with
  | O => None
  | S fuel =>
    if length s <? i then Some i
    else
      '(j, sawNewline, ok) ← pgStringGap (S (length s)) s i false;
      if negb ok || negb sawNewline || negb (byte_is s j (is_byte quote_byte)) then Some i
      else string_segments fuel s (skipPGQuoted s (1 + j) quote_byte escapes) escapes
  end.
Definition skipPGString (s : bytes) (pos : nat) : option nat :=
  let escapes := pgEStringPrefix s pos in
  string_segments (2 + length s) s (skipPGQuoted s (1 + pos) quote_byte escapes) escapes.

(** First index from [i] on whose byte fails [p]. *)
Fixpoint run_from (p : byte → bool) (i : nat) (rest : bytes) : nat :=
  match rest with
  | c :: r => if p c then run_from p (1 + i) r else i
  | [] => i
  end.
Definition run_end (p : byte → bool) (s : bytes) (i : nat) : nat := run_from p i (drop i s).

(** ** The template placeholders *)

Inductive template_error : Type := ErrTemplateScanInvalid | ErrTemplateNativeParameter.

Definition skipPGDollarOrRejectParam (s : bytes) (pos : nat) : result template_error nat :=
  let i := 1 + pos in
  if byte_is s i is_digit then Err ErrTemplateNativeParameter
  else
    let tagEnd := run_end pgIdentPartDollarless s i in
    if byte_is s tagEnd (is_byte dollar) then
      let tag := slice pos (1 + tagEnd) s in
      match index_of tag (drop (1 + tagEnd) s) with
      | None => Err ErrTemplateScanInvalid
      | Some idx => Ok (1 + tagEnd + idx + length tag)
      end
    else Ok (1 + pos).

Record TemplatePlaceholder : Type := Placeholder { ph_Name : bytes; ph_Offset : nat; ph_Length : nat }.

(** The loop of [ScanTemplatePlaceholders]; the outer [None] is lack of fuel. *)
Fixpoint scan_from (fuel : nat) (s : bytes) (i brackets : nat) : option (result template_error (list TemplatePlaceholder)) :=
  match fuel with
  | O => None
  | S fuel =>
    match s !! i with
    | None => Some (if length s <? i then Err ErrTemplateScanInvalid else Ok [])
    | Some c =>
      if c =?b quote_byte then i ← skipPGString s i; scan_from fuel s i brackets
      else if c =?b dquote_byte then scan_from fuel s (skipPGQuoted s (1 + i) dquote_byte false) brackets
      else if (c =?b "-"%char) && byte_is s (1 + i) (is_byte "-"%char) then
        scan_from fuel s (skipPGLineComment s (2 + i)) brackets
      else if (c =?b "/"%char) && byte_is s (1 + i) (is_byte "*"%char) then
        scan_from fuel s (skipPGBlockComment s (2 + i)) brackets
      else if c =?b "["%char then scan_from fuel s (1 + i) (1 + brackets)
      else if c =?b "]"%char then scan_from fuel s (1 + i) (brackets - 1)
      else if (c =?b dollar) && negb (pgIdentByteBefore s i) then
        match skipPGDollarOrRejectParam s i with
        | Err e => Some (Err e)
        | Ok next => scan_from fuel s next brackets
        end
      else if c =?b colon then
        if byte_is s (1 + i) (is_byte colon) then scan_from fuel s (2 + i) brackets
        else if (0 <? brackets) || negb (byte_is s (1 + i) pgIdentStart) then scan_from fuel s (1 + i) brackets
        else
          let e := run_end pgIdentPart s (2 + i) in
          out ← scan_from fuel s e brackets;
          Some (out ← out; Ok (Placeholder (slice (1 + i) e s) i (e - i) :: out))
      else scan_from fuel s (1 + i) brackets
    end
  end.

Definition ScanTemplatePlaceholders (s : bytes) : option (result template_error (list TemplatePlaceholder)) :=
  scan_from (2 + length s) s 0 0.

(** ** The history preview *)

Definition statementPreviewLiteral : bytes := gs "<literal>".
Definition statementPreviewNumber : bytes := gs "<number>".

Definition pgStringPrefixLen (s : bytes) (pos : nat) : nat :=
  if pgIdentByteBefore s pos then 0
  else if byte_is s pos (λ c, existsb (is_byte c) (gs "eEbBxX")) && byte_is s (1 + pos) (is_byte quote_byte) then 1
  else if byte_is s pos (λ c, (c =?b "u"%char) || (c =?b "U"%char)) && byte_is s (1 + pos) (is_byte "&"%char)
          && byte_is s (2 + pos) (is_byte quote_byte) then 2
  else 0.

Definition scanPGDollarBody (s : bytes) (pos : nat) : nat * bool :=
  let i := 1 + pos in
  if byte_is s i is_digit then (run_end is_digit s i, false)
  else
    let tagEnd := run_end pgIdentPartDollarless s i in
    if byte_is s tagEnd (is_byte dollar) then
      let tag := slice pos (1 + tagEnd) s in
      match index_of tag (drop (1 + tagEnd) s) with
      | None => (length s, true)
      | Some idx => (1 + tagEnd + idx + length tag, true)
      end
    else (1 + pos, false).

Definition skipPGNumberToken (s : bytes) (i : nat) : nat :=
  run_end (λ c, pgIdentPart c || (c =?b "."%char)) s (1 + i).

(** The loop of [SafeStatementPreview]. *)
Fixpoint preview_from (fuel : nat) (s : bytes) (i : nat) : option bytes :=
  match fuel with
  | O => None
  | S fuel =>
    let emit := λ text next, out ← preview_from fuel s next; Some (text ++ out) in
    match s !! i with
    | None => Some []
    | Some c =>
      if c =?b quote_byte then next ← skipPGString s i; emit statementPreviewLiteral next
      else if c =?b dquote_byte then
        let e := skipPGQuoted s (1 + i) dquote_byte false in
        if length s <? e then emit statementPreviewLiteral (length s) else emit (slice i e s) e
      else if (c =?b "-"%char) && byte_is s (1 + i) (is_byte "-"%char) then
        emit [" "%char] (skipPGLineComment s (2 + i))
      else if (c =?b "/"%char) && byte_is s (1 + i) (is_byte "*"%char) then
        emit [" "%char] (skipPGBlockComment s (2 + i))
      else if (c =?b dollar) && negb (pgIdentByteBefore s i) then
        let '(next, isBody) := scanPGDollarBody s i in
        if isBody : bool then emit statementPreviewLiteral next else emit (slice i next s) next
      else if is_digit c && negb (pgIdentByteBefore s i) then emit statementPreviewNumber (skipPGNumberToken s i)
      else if 0 <? pgStringPrefixLen s i then
        next ← skipPGString s (i + pgStringPrefixLen s i); emit statementPreviewLiteral next
      else emit [c] (1 + i)
    end
  end.

(** [truncateRunes] cuts at the [n]-th rune. *)
Definition truncateRunes (s : bytes) (n : nat) : bytes := take (rune_offset n s) s.

Definition SafeStatementPreview (s : bytes) (maxRunes : nat) : option bytes :=
  out ← preview_from (2 + length s) s 0;
  Some (if (0 <? maxRunes) && (maxRunes <? rune_count out) then truncateRunes out maxRunes else out).

(** ** Progress and bounds *)

Lemma byte_is_lt s i p : byte_is s i p = true → i < length s.
Proof. unfold byte_is. destruct (s !! i) eqn:E; [|done]. intros _. by eapply lookup_lt_Some. Qed.

Lemma quoted_from_bounds n i rest q e :
  i + length rest = n → i < quoted_from n i rest q e ≤ S n.
Proof.
  revert i. induction rest as [rest IH] using (induction_ltof1 _ (@length byte)). unfold ltof in IH.
  intros i Hn. destruct rest as [|c r]; cbn [quoted_from]; cbn [length] in *; [lia|].
  assert (∀ k r', length r' < S (length r) → k + length r' = n → k < quoted_from n k r' q e ≤ S n) as IH' by (intros; by apply IH).
  repeat case_match; cbn [length] in *; try lia;
    match goal with |- context [quoted_from n ?k ?r' q e] => specialize (IH' k r' ltac:(cbn; lia) ltac:(cbn; lia)); lia end.
Qed.

Lemma skipPGQuoted_bounds s i q e : i ≤ length s → i < skipPGQuoted s i q e ≤ S (length s).
Proof. intros. apply quoted_from_bounds. rewrite length_drop. lia. Qed.

Lemma line_comment_bounds s i : i ≤ length s → i ≤ skipPGLineComment s i ≤ length s.
Proof.
  intros Hi. unfold skipPGLineComment. assert (i + length (drop i s) = length s) as H by (rewrite length_drop; lia).
  revert H. generalize (drop i s) as rest. clear Hi. intros rest. revert i.
  induction rest as [|c r IH]; intros i H; cbn [line_comment_from]; cbn [length] in *; [lia|].
  destruct (newline c); [lia|]. specialize (IH (1 + i)). lia.
Qed.

Lemma block_comment_eq n i depth c d r :
  block_comment_from n i depth (c :: d :: r) =
  if (c =?b "/"%char) && (d =?b "*"%char) then block_comment_from n (2 + i) (1 + depth) r
  else if (c =?b "*"%char) && (d =?b "/"%char) then
    match depth with S (S _ as depth') => block_comment_from n (2 + i) depth' r | _ => 2 + i end
  else block_comment_from n (1 + i) depth (d :: r).
Proof. done. Qed.

Lemma block_comment_from_bounds n i depth rest :
  i + length rest = n → i ≤ block_comment_from n i depth rest ≤ S n.
Proof.
  revert i depth. induction rest as [rest IH] using (induction_ltof1 _ (@length byte)). unfold ltof in IH.
  intros i depth Hn. destruct rest as [|c [|d r]]; [cbn in *; lia..|]. rewrite block_comment_eq. cbn [length] in *.
  assert (∀ k dep r', length r' < S (S (length r)) → k + length r' = n → k ≤ block_comment_from n k dep r' ≤ S n)
    as IH' by (intros; by apply IH).
  destruct (_ && _); [specialize (IH' (2 + i) (1 + depth) r); lia|].
  destruct (_ && _).
  - destruct depth as [|[|depth]]; [lia..|]. specialize (IH' (2 + i) (S depth) r). lia.
  - specialize (IH' (1 + i) depth (d :: r)). cbn [length] in IH'. lia.
Qed.

Lemma block_comment_bounds s i : i ≤ length s → i ≤ skipPGBlockComment s i ≤ S (length s).
Proof. intros. apply block_comment_from_bounds. rewrite length_drop. lia. Qed.

Lemma run_from_spec p i rest :
  let e := run_from p i rest in
  i ≤ e ≤ i + length rest ∧ Forall (λ c, p c = true) (take (e - i) rest)
  ∧ match rest !! (e - i) with Some c => p c = false | None => True end.
Proof.
  revert i. induction rest as [|c r IH]; intros i; cbn [run_from].
  - rewrite Nat.sub_diag. cbn. auto with lia.
  - destruct (p c) eqn:Ep.
    + specialize (IH (1 + i)). cbn zeta in *. destruct IH as (Hb & Hf & Hl).
      replace (run_from p (1 + i) r - i) with (S (run_from p (1 + i) r - (1 + i))) by lia.
      cbn [length take lookup list_lookup]. split; [lia|]. split; [by constructor|exact Hl].
    + rewrite Nat.sub_diag. cbn. split; [lia|]. by split.
Qed.

Lemma run_end_spec p s i :
  i ≤ length s →
  let e := run_end p s i in
  i ≤ e ≤ length s ∧ Forall (λ c, p c = true) (slice i e s) ∧ byte_is s e p = false.
Proof.
  intros Hi. unfold run_end, slice, byte_is. cbn zeta.
  destruct (run_from_spec p i (drop i s)) as (Hb & Hf & Hl). rewrite length_drop in Hb. split; [lia|]. split; [done|].
  rewrite lookup_drop in Hl. replace (i + (run_from p i (drop i s) - i)) with (run_from p i (drop i s)) in Hl by lia.
  by destruct (s !! _).
Qed.

Lemma index_of_bound p s k : index_of p s = Some k → k + length p ≤ length s.
Proof.
  revert k. induction s as [|c s IH]; intros k; cbn [index_of].
  - case_match; [|done]. intros [= <-]. unfold is_prefix in *. bool_inv.
    apply (f_equal length) in H. rewrite length_take in H. cbn in *. lia.
  - case_match.
    + intros [= <-]. unfold is_prefix in *. bool_inv. apply (f_equal length) in H. rewrite length_take in H. lia.
    + destruct (index_of p s) as [j|]; [|done]. intros [= <-]. specialize (IH j eq_refl). cbn. lia.
Qed.

(** A gap ends where it says, at or after its start. *)
Lemma pgStringGap_total fuel s j nl :
  j ≤ length s → length s - j < fuel → ∃ k nl' ok, pgStringGap fuel s j nl = Some (k, nl', ok) ∧ j ≤ k ≤ length s.
Proof.
  revert j nl. induction fuel as [|fuel IH]; intros j nl Hj Hf; [lia|]. cbn [pgStringGap].
  destruct (s !! j) as [c|] eqn:Ec; [|by do 3 eexists; split; [done|lia]]. apply lookup_lt_Some in Ec.
  assert (∀ j' nl', j < j' ≤ length s → ∃ k nl'' ok, pgStringGap fuel s j' nl' = Some (k, nl'', ok) ∧ j ≤ k ≤ length s) as IH'.
  { intros j' nl' ?. destruct (IH j' nl') as (k & n & ok & -> & ?); [lia..|]. do 3 eexists; split; [done|lia]. }
  destruct (newline c); [apply IH'; lia|]. destruct (_ || _); [apply IH'; lia|].
  case_if as E1.
  { apply andb_true_iff in E1 as [_ E1]. apply byte_is_lt in E1. apply IH'.
    pose proof (line_comment_bounds s (2 + j) ltac:(lia)). lia. }
  case_if as E2; [|by do 3 eexists; split; [done|lia]].
  apply andb_true_iff in E2 as [_ E2]. apply byte_is_lt in E2. cbn zeta.
  pose proof (block_comment_bounds s (2 + j) ltac:(lia)).
  case_if as E3; bool_inv; [by eauto 10 with lia|]. apply IH'. lia.
Qed.

Lemma string_segments_total fuel s i e :
  i ≤ S (length s) → S (length s) - i < fuel → ∃ k, string_segments fuel s i e = Some k ∧ i ≤ k ≤ S (length s).
Proof.
  revert i. induction fuel as [|fuel IH]; intros i Hi Hf; [lia|]. cbn [string_segments].
  destruct (length s <? i) eqn:E; bool_inv; [by eauto with lia|].
  destruct (pgStringGap_total (S (length s)) s i false) as (j & nl & ok & -> & Hj); [lia..|]. cbn [mbind option_bind].
  case_if as Eg; [by eauto with lia|]. bool_inv.
  match goal with H : byte_is _ _ _ = true |- _ => apply byte_is_lt in H end.
  pose proof (skipPGQuoted_bounds s (1 + j) quote_byte e ltac:(lia)).
  destruct (IH (skipPGQuoted s (1 + j) quote_byte e)) as (k & -> & ?); [lia..|]. eauto with lia.
Qed.

Lemma skipPGString_total s pos : pos < length s → ∃ k, skipPGString s pos = Some k ∧ pos < k ≤ S (length s).
Proof.
  intros Hp. unfold skipPGString. cbn zeta.
  pose proof (skipPGQuoted_bounds s (1 + pos) quote_byte (pgEStringPrefix s pos) ltac:(lia)).
  destruct (string_segments_total (2 + length s) s (skipPGQuoted s (1 + pos) quote_byte (pgEStringPrefix s pos))
    (pgEStringPrefix s pos)) as (k & -> & ?); [lia..|]. eauto with lia.
Qed.

(** ** The placeholders *)

(** [m] is a maximal [:name] of the statement, not before [pos]. *)
Definition marker_at (s : bytes) (pos : nat) (m : TemplatePlaceholder) : Prop :=
  pos ≤ ph_Offset m ∧ ph_Offset m + ph_Length m ≤ length s ∧ 2 ≤ ph_Length m
  ∧ s !! ph_Offset m = Some colon
  ∧ ph_Name m = slice (1 + ph_Offset m) (ph_Offset m + ph_Length m) s
  ∧ byte_is s (1 + ph_Offset m) pgIdentStart = true
  ∧ Forall (λ c, pgIdentPart c = true) (ph_Name m)
  ∧ byte_is s (ph_Offset m + ph_Length m) pgIdentPart = false.

(** In source order and apart from each other. *)
Fixpoint markers_ok (s : bytes) (pos : nat) (ms : list TemplatePlaceholder) : Prop :=
  match ms with
  | [] => True
  | m :: ms => marker_at s pos m ∧ markers_ok s (ph_Offset m + ph_Length m) ms
  end.

Lemma markers_weaken s pos pos' ms : pos ≤ pos' → markers_ok s pos' ms → markers_ok s pos ms.
Proof. destruct ms as [|m ms]; [done|]. intros Hp [(Ho & Hm) Hms]. split; [|done]. split; [lia|done]. Qed.

Lemma dollar_bounds s i next :
  i < length s → skipPGDollarOrRejectParam s i = Ok next → i < next ≤ length s.
Proof.
  intros Hi. unfold skipPGDollarOrRejectParam. cbn zeta. case_match; [done|]. case_if as Ed.
  - destruct (run_end_spec pgIdentPartDollarless s (1 + i) ltac:(lia)) as (Hb & _). apply byte_is_lt in Ed.
    revert Hb Ed. generalize (run_end pgIdentPartDollarless s (1 + i)) as te. intros te Hb Ed.
    destruct (index_of _ _) as [idx|] eqn:Ei; [|done]. apply index_of_bound in Ei.
    rewrite length_drop, length_slice in Ei by lia. intros [= <-]. rewrite length_slice by lia. lia.
  - intros [= <-]. lia.
Qed.

Lemma slice_cons (s : bytes) i e c : s !! i = Some c → i < e → slice i e s = c :: slice (1 + i) e s.
Proof.
  intros Hc He. unfold slice. rewrite (drop_S _ _ _ Hc). replace (e - i) with (S (e - (1 + i))) by lia. done.
Qed.

Lemma ident_start_part c : pgIdentStart c = true → pgIdentPart c = true.
Proof. unfold pgIdentPart. by intros ->. Qed.

Lemma marker_found s i :
  s !! i = Some colon → byte_is s (1 + i) pgIdentStart = true →
  let e := run_end pgIdentPart s (2 + i) in
  marker_at s i (Placeholder (slice (1 + i) e s) i (e - i)) ∧ 2 + i ≤ e ≤ length s.
Proof.
  intros Hc Hs. cbn zeta. pose proof (byte_is_lt _ _ _ Hs) as Hl.
  destruct (run_end_spec pgIdentPart s (2 + i) ltac:(lia)) as (Hb & Hf & Hn).
  unfold marker_at. cbn [ph_Offset ph_Length ph_Name].
  replace (i + (run_end pgIdentPart s (2 + i) - i)) with (run_end pgIdentPart s (2 + i)) by lia.
  split; [|lia]. split_and!; try done; try lia.
  unfold byte_is in Hs. destruct (s !! (1 + i)) as [d|] eqn:Ed; [|done].
  rewrite (slice_cons s (1 + i) _ d) by (done || lia). constructor; [by apply ident_start_part|done].
Qed.

Lemma scan_from_total fuel s i b :
  i ≤ S (length s) → S (length s) - i < fuel →
  ∃ r, scan_from fuel s i b = Some r ∧ ∀ out, r = Ok out → markers_ok s i out.
Proof.
  revert i b. induction fuel as [|fuel IH]; intros i b Hi Hf; [lia|]. cbn [scan_from].
  destruct (s !! i) as [c|] eqn:Ec; [|eexists; split; [done|]; by intros out; case_if as E; intros [= <-]].
  pose proof (lookup_lt_Some _ _ _ Ec) as Hl.
  assert (∀ i' b', i < i' ≤ S (length s) →
    ∃ r, scan_from fuel s i' b' = Some r ∧ ∀ out, r = Ok out → markers_ok s i out) as IH'.
  { intros i' b' Hi'. destruct (IH i' b') as (r & -> & Hr); [lia..|]. eexists. split; [done|].
    intros out Ho. apply (markers_weaken _ _ i'); [lia|]. by apply Hr. }
  case_if as E1. { destruct (skipPGString_total s i Hl) as (k & -> & Hk). apply IH'. lia. }
  case_if as E2. { apply IH'. pose proof (skipPGQuoted_bounds s (1 + i) dquote_byte false ltac:(lia)). lia. }
  case_if as E3.
  { apply andb_true_iff in E3 as [_ E3]. apply byte_is_lt in E3. apply IH'.
    pose proof (line_comment_bounds s (2 + i) ltac:(lia)). lia. }
  case_if as E4.
  { apply andb_true_iff in E4 as [_ E4]. apply byte_is_lt in E4. apply IH'.
    pose proof (block_comment_bounds s (2 + i) ltac:(lia)). lia. }
  case_if as E5; [apply IH'; lia|]. case_if as E6; [apply IH'; lia|]. case_if as E7.
  { destruct (skipPGDollarOrRejectParam s i) as [next|e] eqn:Ed; [|by eexists].
    apply dollar_bounds in Ed; [|done]. apply IH'. lia. }
  case_if as E8; [|apply IH'; lia]. bool_inv.
  case_if as E9. { apply byte_is_lt in E9. apply IH'. lia. }
  case_if as E10; [apply IH'; lia|]. apply orb_false_elim in E10 as [_ E10]. apply negb_false_iff in E10.
  subst c. destruct (marker_found s i Ec E10) as [Hm Hb]. cbn zeta.
  destruct (IH (run_end pgIdentPart s (2 + i)) b) as (r & -> & Hr); [lia..|]. cbn [mbind option_bind].
  eexists. split; [done|]. intros out. destruct r as [out'|]; [|done]. cbn [mbind result_bind].
  intros Ho. apply (inj Ok) in Ho as <-.
  split; [done|]. cbn [ph_Offset ph_Length].
  replace (i + (run_end pgIdentPart s (2 + i) - i)) with (run_end pgIdentPart s (2 + i)) by lia. by apply Hr.
Qed.

Lemma scan_markers s :
  ∃ r, ScanTemplatePlaceholders s = Some r ∧ ∀ out, r = Ok out → markers_ok s 0 out.
Proof. apply scan_from_total; lia. Qed.

(** The placeholder scan terminates on every input, and what it finds are
    maximal [:name] markers of the statement, in source order, inside its
    bounds and apart from each other. *)
Theorem placeholder_scan_total s :
  ∃ r, ScanTemplatePlaceholders s = Some r
    ∧ ∀ out, r = Ok out → markers_ok s 0 out.
Proof. apply scan_markers. Qed.

(** ** The preview *)

(** A statement falls into segments; only kept text reaches the preview. *)
Inductive segment : Type :=
  | SegKept (text : bytes) | SegLiteral (text : bytes) | SegNumber (text : bytes) | SegComment (text : bytes).
Definition seg_text (g : segment) : bytes :=
  match g with SegKept t | SegLiteral t | SegNumber t | SegComment t => t end.
Definition seg_render (g : segment) : bytes :=
  match g with
  | SegKept t => t
  | SegLiteral _ => statementPreviewLiteral
  | SegNumber _ => statementPreviewNumber
  | SegComment _ => [" "%char]
  end.

(** What each kind of segment is: kept text is one byte that opens nothing, a
    closed quoted identifier, or [$] with its digits. *)
Definition seg_ok (g : segment) : Prop :=
  match g with
  | SegKept t =>
    (∃ c, t = [c] ∧ c ≠ quote_byte ∧ c ≠ dquote_byte)
    ∨ (∃ u, t = dquote_byte :: u ++ [dquote_byte])
    ∨ (∃ u, t = dollar :: u ∧ Forall (λ c, is_digit c = true) u)
  | SegLiteral t => ∃ c u, t = c :: u ∧ c ∈ gs "eEbBxXuU$" ++ [quote_byte; dquote_byte]
  | SegNumber t => ∃ c u, t = c :: u ∧ is_digit c = true
  | SegComment t => ∃ u, t = gs "--" ++ u ∨ t = gs "/*" ++ u
  end.

(** The partition of what is left of the statement, and its rendering. *)
Definition partitions (s : bytes) (i : nat) (out : bytes) (segs : list segment) : Prop :=
  out = concat (seg_render <$> segs) ∧ concat (seg_text <$> segs) = drop i s ∧ Forall seg_ok segs.

Lemma partitions_cons s i next out segs g :
  i ≤ next → seg_text g = slice i next s → seg_ok g → partitions s next out segs →
  partitions s i (seg_render g ++ out) (g :: segs).
Proof.
  intros Hi Hg Hok (-> & Ht & Hs). unfold partitions. rewrite !fmap_cons. cbn [concat]. split; [done|].
  split; [|by constructor]. rewrite Ht, Hg. unfold slice.
  rewrite <- (take_drop (next - i) (drop i s)) at 2. rewrite drop_drop. f_equal. f_equal. lia.
Qed.

Lemma slice_two (s : bytes) i e c d :
  s !! i = Some c → byte_is s (1 + i) (is_byte d) = true → 2 + i ≤ e → ∃ u, slice i e s = [c; d] ++ u.
Proof.
  intros Hc Hd He. unfold byte_is, is_byte in Hd. destruct (s !! (1 + i)) as [x|] eqn:Ex; [|done]. bool_inv. subst x.
  rewrite (slice_cons s i e c) by (done || lia). rewrite (slice_cons s (1 + i) e d) by (done || lia). by eexists.
Qed.

(** A terminated quoted run ends with its quote. *)
Lemma quoted_from_closed n i rest q e :
  i + length rest = n → quoted_from n i rest q e ≤ n → ∃ u, take (quoted_from n i rest q e - i) rest = u ++ [q].
Proof.
  revert i. induction rest as [rest IH] using (induction_ltof1 _ (@length byte)). unfold ltof in IH.
  intros i Hn Hle. pose proof (quoted_from_bounds n i rest q e Hn) as Hb.
  destruct rest as [|c r]; cbn [quoted_from] in *; cbn [length] in *; [lia|].
  assert (∀ pre k r', pre ++ r' = c :: r → length pre = k - i → i < k → k + length r' = n →
    quoted_from n k r' q e ≤ n →
    ∃ u, take (quoted_from n k r' q e - i) (c :: r) = u ++ [q]) as Hstep.
  { intros pre k r' Hpre Hlen Hik Hk Hle'. pose proof (quoted_from_bounds n k r' q e Hk).
    destruct (IH r' ltac:(apply (f_equal length) in Hpre; rewrite length_app in Hpre; cbn in Hpre; lia) k Hk Hle') as [u Hu].
    exists (pre ++ u). rewrite <- Hpre. rewrite take_app_ge by lia. rewrite <- app_assoc, <- Hu. do 2 f_equal. lia. }
  revert Hb Hle. case_if as Ec; intros Hb Hle; bool_inv.
  - subst c. destruct r as [|d r'].
    + replace (1 + i - i) with 1 by lia. by exists [].
    + revert Hb Hle. case_if as Ed; intros Hb Hle; bool_inv.
      * apply (Hstep [q; d]); cbn [length] in *; first [done|lia].
      * replace (1 + i - i) with 1 by lia. by exists [].
  - revert Hb Hle. case_if as Ee; intros Hb Hle.
    + destruct r as [|d r']; [apply (Hstep [c])|apply (Hstep [c; d])]; cbn [length] in *; first [done|lia].
    + apply (Hstep [c]); cbn [length] in *; first [done|lia].
Qed.

Lemma quoted_identifier_slice s i :
  s !! i = Some dquote_byte → skipPGQuoted s (1 + i) dquote_byte false ≤ length s →
  ∃ u, slice i (skipPGQuoted s (1 + i) dquote_byte false) s = dquote_byte :: u ++ [dquote_byte].
Proof.
  intros Hc Hle. pose proof (lookup_lt_Some _ _ _ Hc) as Hl.
  pose proof (skipPGQuoted_bounds s (1 + i) dquote_byte false ltac:(lia)).
  rewrite (slice_cons s i _ dquote_byte) by (done || lia).
  destruct (quoted_from_closed (length s) (1 + i) (drop (1 + i) s) dquote_byte false) as [u Hu];
    [rewrite length_drop; lia|done|]. exists u. f_equal. exact Hu.
Qed.

Lemma dollar_body_spec s i next isBody :
  s !! i = Some dollar → scanPGDollarBody s i = (next, isBody) →
  i < next ≤ length s ∧ (isBody = false → ∃ u, slice i next s = dollar :: u ∧ Forall (λ c, is_digit c = true) u).
Proof.
  intros Hc. pose proof (lookup_lt_Some _ _ _ Hc) as Hi. unfold scanPGDollarBody. cbn zeta.
  case_if as Eg.
  { apply byte_is_lt in Eg. destruct (run_end_spec is_digit s (1 + i) ltac:(lia)) as (Hb & Hf & _).
    intros [<- <-]%pair_eq. split; [lia|]. intros _.
    exists (slice (1 + i) (run_end is_digit s (1 + i)) s). split; [apply slice_cons; [done|lia]|done]. }
  case_if as Ed.
  - apply byte_is_lt in Ed. destruct (run_end_spec pgIdentPartDollarless s (1 + i) ltac:(lia)) as (Hb & _).
    revert Hb Ed. generalize (run_end pgIdentPartDollarless s (1 + i)) as te. intros te Hb Ed.
    destruct (index_of _ _) as [idx|] eqn:Ei; intros [<- <-]%pair_eq; (split; [|done]); [|lia].
    apply index_of_bound in Ei. rewrite length_drop, length_slice in Ei by lia. rewrite length_slice by lia. lia.
  - intros [<- <-]%pair_eq. split; [lia|]. intros _. exists [].
    split; [|done]. rewrite (slice_cons s i _ dollar) by (done || lia). by rewrite slice_empty.
Qed.

Lemma prefix_len_spec s i :
  0 < pgStringPrefixLen s i →
  i + pgStringPrefixLen s i < length s ∧ ∃ c, s !! i = Some c ∧ c ∈ gs "eEbBxXuU".
Proof.
  unfold pgStringPrefixLen. case_if as E1; [lia|]. case_if as E2.
  - intros _. apply andb_true_iff in E2 as [E2 E3]. apply byte_is_lt in E3. split; [lia|].
    unfold byte_is in E2. destruct (s !! i) as [c|]; [|done]. exists c. split; [done|].
    apply existsb_exists in E2 as (d & Hd & He). unfold is_byte in He. bool_inv. subst d.
    apply list_elem_of_In in Hd. change (gs "eEbBxXuU") with (gs "eEbBxX" ++ gs "uU"). set_solver.
  - case_if as E3; [|lia]. intros _. apply andb_true_iff in E3 as [E3 E5]. apply andb_true_iff in E3 as [E3 E4].
    apply byte_is_lt in E5. split; [lia|]. unfold byte_is in E3. destruct (s !! i) as [c|]; [|done].
    exists c. split; [done|]. apply orb_true_iff in E3 as [E3|E3]; bool_inv; subst c; set_solver.
Qed.

Lemma digit_not_quote c : is_digit c = true → c ≠ quote_byte ∧ c ≠ dquote_byte.
Proof. intros H. by split; intros ->. Qed.

Lemma preview_from_partition fuel s i :
  i ≤ S (length s) → S (length s) - i < fuel →
  ∃ out segs, preview_from fuel s i = Some out ∧ partitions s i out segs.
Proof.
  revert i. induction fuel as [|fuel IH]; intros i Hi Hf; [lia|]. cbn [preview_from].
  destruct (s !! i) as [c|] eqn:Ec.
  2:{ apply lookup_ge_None in Ec. exists [], []. split; [done|]. unfold partitions. cbn. by rewrite drop_ge by lia. }
  pose proof (lookup_lt_Some _ _ _ Ec) as Hl.
  assert (∀ next g, i < next ≤ S (length s) → seg_text g = slice i next s → seg_ok g →
    ∃ out segs, (out ← preview_from fuel s next; Some (seg_render g ++ out)) = Some out ∧ partitions s i out segs) as Hemit.
  { intros next g Hn Hg Hok. destruct (IH next) as (out & segs & -> & Hp); [lia..|]. cbn [mbind option_bind].
    exists (seg_render g ++ out), (g :: segs). split; [done|]. eapply partitions_cons; [|done..]. lia. }
  assert (∀ next, i < next → ∃ u, slice i next s = c :: u) as Hhead.
  { intros next Hn. rewrite (slice_cons s i next c) by done. by eexists. }
  assert (∀ next, i < next ≤ S (length s) → c ∈ gs "eEbBxXuU$" ++ [quote_byte; dquote_byte] →
    ∃ out segs, (out ← preview_from fuel s next; Some (statementPreviewLiteral ++ out)) = Some out ∧ partitions s i out segs) as Hlit.
  { intros next Hn Hc. apply (Hemit next (SegLiteral (slice i next s))); [done|done|].
    destruct (Hhead next) as [u Hu]; [lia|]. exists c, u. split; [exact Hu|done]. }
  case_if as E1.
  { bool_inv. subst c. destruct (skipPGString_total s i Hl) as (k & -> & Hk). cbn [mbind option_bind]. apply Hlit; [lia|set_solver]. }
  case_if as E2.
  { bool_inv. subst c. pose proof (skipPGQuoted_bounds s (1 + i) dquote_byte false ltac:(lia)).
    cbn zeta. case_if as E3; bool_inv; [apply Hlit; [lia|set_solver]|].
    apply (Hemit _ (SegKept (slice i (skipPGQuoted s (1 + i) dquote_byte false) s))); [lia|done|].
    right. left. by apply quoted_identifier_slice. }
  case_if as E3.
  { apply andb_true_iff in E3 as [Ed E3]. bool_inv. subst c. pose proof (byte_is_lt _ _ _ E3).
    pose proof (line_comment_bounds s (2 + i) ltac:(lia)).
    apply (Hemit _ (SegComment (slice i (skipPGLineComment s (2 + i)) s))); [lia|done|].
    destruct (slice_two s i (skipPGLineComment s (2 + i)) _ _ Ec E3) as [u Hu]; [lia|]. exists u. by left. }
  case_if as E4.
  { apply andb_true_iff in E4 as [Ed E4]. bool_inv. subst c. pose proof (byte_is_lt _ _ _ E4).
    pose proof (block_comment_bounds s (2 + i) ltac:(lia)).
    apply (Hemit _ (SegComment (slice i (skipPGBlockComment s (2 + i)) s))); [lia|done|].
    destruct (slice_two s i (skipPGBlockComment s (2 + i)) _ _ Ec E4) as [u Hu]; [lia|]. exists u. by right. }
  case_if as E5.
  { apply andb_true_iff in E5 as [Ed _]. bool_inv. subst c. destruct (scanPGDollarBody s i) as [next isBody] eqn:Eb.
    apply dollar_body_spec in Eb as [Hb Hk]; [|done]. destruct isBody; [apply Hlit; [lia|set_solver]|].
    destruct (Hk eq_refl) as (u & Hu & Hd).
    apply (Hemit _ (SegKept (slice i next s))); [lia|done|]. right. right. by exists u. }
  case_if as E6.
  { apply andb_true_iff in E6 as [Ed _]. unfold skipPGNumberToken.
    destruct (run_end_spec (λ c, pgIdentPart c || (c =?b "."%char)) s (1 + i) ltac:(lia)) as (Hb & _).
    apply (Hemit _ (SegNumber (slice i (run_end (λ c, pgIdentPart c || (c =?b "."%char)) s (1 + i)) s))); [lia|done|].
    destruct (Hhead (run_end (λ c, pgIdentPart c || (c =?b "."%char)) s (1 + i))) as [u Hu]; [lia|]. by exists c, u. }
  case_if as E7.
  { bool_inv. destruct (prefix_len_spec s i E7) as (Hp & c' & Hc' & Hin). rewrite Ec in Hc'. injection Hc' as <-.
    destruct (skipPGString_total s _ Hp) as (k & -> & Hk). cbn [mbind option_bind]. apply Hlit; [lia|].
    change (gs "eEbBxXuU$") with (gs "eEbBxXuU" ++ gs "$"). set_solver. }
  apply (Hemit (1 + i) (SegKept [c])); [lia| |].
  - rewrite (slice_cons s i _ c) by (done || lia). by rewrite slice_empty.
  - left. exists c. bool_inv. by split_and!.
Qed.

Lemma concat_elem {A} (x : A) ls : x ∈ concat ls → ∃ l, l ∈ ls ∧ x ∈ l.
Proof.
  induction ls as [|l ls IH]; cbn; [by intros ?%elem_of_nil|]. intros [Hx|Hx]%elem_of_app.
  - exists l. split; [by left|done].
  - destruct (IH Hx) as (l' & ? & ?). exists l'. split; [by right|done].
Qed.

Lemma elem_concat {A} (x : A) l ls : l ∈ ls → x ∈ l → x ∈ concat ls.
Proof.
  induction 1 as [l ls|l l' ls _ IH]; cbn; intros Hx; apply elem_of_app; [by left|right; by apply IH].
Qed.

Lemma markers_have_no_quote :
  quote_byte ∉ statementPreviewLiteral ∧ quote_byte ∉ statementPreviewNumber ∧ quote_byte ∉ [" "%char].
Proof. apply (bool_decide_unpack _). by vm_compute. Qed.

(** Without quoted identifiers no quote survives. *)
Lemma no_quote_rendered segs :
  Forall seg_ok segs → dquote_byte ∉ concat (seg_text <$> segs) → quote_byte ∉ concat (seg_render <$> segs).
Proof.
  intros Hok Hd (l & Hl & Hq)%concat_elem. apply list_elem_of_fmap in Hl as (g & -> & Hg).
  rewrite Forall_forall in Hok. specialize (Hok g Hg).
  destruct markers_have_no_quote as (Hm1 & Hm2 & Hm3).
  destruct g as [t|t|t|t]; cbn [seg_render seg_ok] in *; [|done..].
  destruct Hok as [(c & -> & Hc & _)|[(u & ->)|(u & -> & Hu)]].
  - apply list_elem_of_singleton in Hq. congruence.
  - apply Hd. eapply elem_concat; [by apply list_elem_of_fmap; exists (SegKept (dquote_byte :: u ++ [dquote_byte]))|]. by left.
  - apply elem_of_cons in Hq as [?|Hq]; [done|]. rewrite Forall_forall in Hu. by specialize (Hu _ Hq).
Qed.

(** The history preview terminates on every input and shows only what it
    may: the statement falls into segments, literals, numbers and comments are
    replaced by fixed markers whatever they contain, only single code bytes,
    closed quoted identifiers and parameter numbers are kept, and the result is
    a prefix of that rendering within the rune bound. *)
Theorem preview_masks s maxRunes :
  ∃ out segs, SafeStatementPreview s maxRunes = Some out
    ∧ concat (seg_text <$> segs) = s ∧ Forall seg_ok segs
    ∧ out `prefix_of` concat (seg_render <$> segs)
    ∧ (maxRunes = 0 → out = concat (seg_render <$> segs))
    ∧ (0 < maxRunes → rune_count out ≤ maxRunes)
    ∧ (dquote_byte ∉ s → quote_byte ∉ out).
Proof.
  destruct (preview_from_partition (2 + length s) s 0) as (out & segs & Hp & -> & Ht & Hok); [lia..|].
  rewrite drop_0 in Ht. unfold SafeStatementPreview. rewrite Hp. cbn [mbind option_bind].
  set (full := concat (seg_render <$> segs)). eexists _, segs. split; [done|]. do 2 (split; [done|]).
  assert (dquote_byte ∉ s → quote_byte ∉ full) as Hq by (rewrite <- Ht; by apply no_quote_rendered).
  case_if as E; bool_inv.
  - split_and!; [|lia| |].
    + exists (drop (rune_offset maxRunes full) full). unfold truncateRunes. by rewrite take_drop.
    + intros _. apply rune_count_offset.
    + intros Hd Hin. apply (Hq Hd). unfold truncateRunes in Hin.
      rewrite <- (take_drop (rune_offset maxRunes full) full). apply elem_of_app. by left.
  - split_and!; [done|done| |done]. intros Hm. apply andb_false_iff in E as [E|E]; bool_inv; lia.
Qed.

(** A digit run swallows a dollar quote that follows it, so this literal's text
    is not recognized as one. *)
Example preview_after_number :
  SafeStatementPreview (gs "select 1$$top secret$$") 0 = Some (gs "select <number> secret$$").
Proof. vm_compute. reflexivity. Qed.
Example placeholder_after_number :
  ScanTemplatePlaceholders (gs "select 1$$ :a x$$") = Some (Ok [Placeholder (gs "a") 11 2]).
Proof. vm_compute. reflexivity. Qed.
