(* ===== verification/TemplateCompiler.v ===== *)
(** * Template compilation

    [internal/service/query_template_compiler.go], [..._declaration.go] and
    [..._pg.go]: declared [:name] parameters become positional driver bindings,
    for the Vitess dialect and for PostgreSQL. The Vitess parser is a parameter. *)
From S2P Require Import Prelude GoText QueryGuard PgLexer.

Definition templateMaxParameters : nat := 20.
Definition templateMaxValueBytes : nat := 4 * 1024.

Definition TemplateParameterString : bytes := gs "string".
Definition TemplateParameterInteger : bytes := gs "integer".
Definition TemplateParameterDecimal : bytes := gs "decimal".
Definition TemplateParameterBoolean : bytes := gs "boolean".

(** [^[a-z][a-z0-9_]*$]. *)
Definition name_pattern (name : bytes) : bool :=
  match name with
  | c :: r => in_range 97 122 c && forallb (λ c, in_range 97 122 c || is_digit c || (c =?b "_"%char)) r
  | [] => false
  end.

(** [^[+-]?(?:[0-9]+(?:\.[0-9]+)?|\.[0-9]+)$]. *)
Definition some_digits (s : bytes) : bool := negb (s =?b []) && forallb is_digit s.
Definition dot : byte := "."%char.
Definition decimal_pattern (text : bytes) : bool :=
  let body := match text with
              | c :: r => if (c =?b "+"%char) || (c =?b "-"%char) then r else text
              | [] => text
              end in
  match list_find (λ c, c = dot) body with
  | None => some_digits body
  | Some (k, _) => forallb is_digit (take k body) && some_digits (drop (S k) body)
  end.

Record TemplateParameterDefinition : Type := Definition_ { td_Name : bytes; td_Type : bytes }.

(** An [any] as the callers supply it. A [float64] is its exact integer value,
    [None] when it is fractional, infinite or not a number. *)
Inductive tvalue : Type :=
  | TString (s : bytes) | TInt64 (n : Z) | TNumber (text : bytes) | TFloat (exact : option Z) | TBool (b : bool) | TOther.

Record TemplateStatementInput : Type := TemplateInput {
  ti_Statement : bytes;
  ti_Definitions : list TemplateParameterDefinition;
  ti_Values : gmap bytes tvalue;
}.
Record CompiledTemplateStatement : Type := Compiled { cs_Statement : bytes; cs_Args : list tvalue }.

Inductive compile_error : Type :=
  | ErrTemplateStatementInvalid
  | ErrTemplateParameterInvalid
  | TemplateGuard (e : guard_error)
  | TemplatePanic. (** a slice expression out of range *)

(** The Vitess parser: pieces, and the rendered query with its bind locations. *)
Record ParsedQuery : Type := Parsed { pq_Query : bytes; pq_BindLocations : list (Z * Z) }.
Record template_parser : Type := TemplateParser {
  tp_split : bytes → option (list bytes);
  tp_parse : bytes → option ParsedQuery;
}.

(** [s[a:b]]. *)
Definition go_slice (a b : Z) (s : bytes) : result compile_error bytes :=
  if (0 <=? a)%Z && (a <=? b)%Z && (b <=? Z.of_nat (length s))%Z then Ok (slice (Z.to_nat a) (Z.to_nat b) s)
  else Err TemplatePanic.

(** ** Declarations *)

Definition known_type (t : bytes) : bool :=
  (t =?b TemplateParameterString) || (t =?b TemplateParameterInteger)
  || (t =?b TemplateParameterDecimal) || (t =?b TemplateParameterBoolean).

Fixpoint declare (declared : gmap bytes TemplateParameterDefinition) (definitions : list TemplateParameterDefinition)
    : result compile_error (gmap bytes TemplateParameterDefinition) :=
  match definitions with
  | [] => Ok declared
  | d :: definitions =>
    if negb (name_pattern (td_Name d)) then Err ErrTemplateParameterInvalid
    else match declared !! td_Name d with
    | Some _ => Err ErrTemplateParameterInvalid
    | None => if known_type (td_Type d) then declare (<[td_Name d := d]> declared) definitions
              else Err ErrTemplateParameterInvalid
    end
  end.
Definition templateDeclarations (definitions : list TemplateParameterDefinition)
    : result compile_error (gmap bytes TemplateParameterDefinition) :=
  if templateMaxParameters <? length definitions then Err ErrTemplateParameterInvalid else declare ∅ definitions.

Record templateStatementDeclaration : Type := Declaration {
  dc_statement : bytes;
  dc_definitions : gmap bytes TemplateParameterDefinition;
  dc_bindings : list TemplateParameterDefinition;
}.

(** [used[name]]: the placeholders of that name. *)
Definition uses (name : bytes) (bindings : list TemplateParameterDefinition) : nat :=
  length (filter (λ d, td_Name d = name) bindings).

Definition check_used (declared : gmap bytes TemplateParameterDefinition) (bindings : list TemplateParameterDefinition)
    : result compile_error unit :=
  guard_err (negb (forallb (λ nd, uses nd.1 bindings =? 1) (map_to_list declared))) ErrTemplateParameterInvalid.

(** The [?] in place of every bind location, from [current] on. *)
Fixpoint replace_locations (query : bytes) (current : Z) (locations : list (Z * Z)) : result compile_error bytes :=
  match locations with
  | [] => go_slice current (Z.of_nat (length query)) query
  | (offset, len) :: locations =>
    kept ← go_slice current offset query;
    rest ← replace_locations query (offset + len) locations;
    Ok (kept ++ gs "?" ++ rest)
  end.
Definition replaceTemplateBindLocations (q : ParsedQuery) : result compile_error bytes :=
  match pq_BindLocations q with
  | [] => Ok (pq_Query q)
  | ls => replace_locations (pq_Query q) 0 ls
  end.

Fixpoint bind_locations (query : bytes) (declared : gmap bytes TemplateParameterDefinition) (locations : list (Z * Z))
    : result compile_error (list TemplateParameterDefinition) :=
  match locations with
  | [] => Ok []
  | (offset, len) :: locations =>
    if (offset <? 0)%Z || (len <? 2)%Z || (Z.of_nat (length query) <? offset + len)%Z then Err ErrTemplateStatementInvalid
    else
      marker ← go_slice offset (offset + len) query;
      if is_prefix (gs "::") marker then Err ErrTemplateParameterInvalid
      else if negb (is_prefix (gs ":") marker) then Err ErrTemplateStatementInvalid
      else match declared !! drop 1 marker with
      | None => Err ErrTemplateParameterInvalid
      | Some d => ds ← bind_locations query declared locations; Ok (d :: ds)
      end
  end.

Section compiler.
Context (parser : template_parser).

Definition compileDeclaration (statement : bytes) (definitions : list TemplateParameterDefinition)
    : result compile_error templateStatementDeclaration :=
  let trimmed := trim_space statement in
  if trimmed =?b [] then Err ErrTemplateStatementInvalid
  else match tp_split parser trimmed with
  | None => Err ErrTemplateStatementInvalid
  | Some pieces =>
    if negb (length (filter (λ p, trim_space p ≠ []) pieces) =? 1) then Err ErrTemplateStatementInvalid
    else match tp_parse parser trimmed with
    | None => Err ErrTemplateStatementInvalid
    | Some q =>
      declared ← templateDeclarations definitions;
      bindings ← bind_locations (pq_Query q) declared (pq_BindLocations q);
      _ ← check_used declared bindings;
      rewritten ← replaceTemplateBindLocations q;
      Ok (Declaration rewritten declared bindings)
    end
  end.

Definition compileTemplateValue (d : TemplateParameterDefinition) (value : tvalue) : result compile_error tvalue :=
  let invalid := Err ErrTemplateParameterInvalid in
  if td_Type d =?b TemplateParameterString then
    match value with
    | TString text => if templateMaxValueBytes <? length text then invalid else Ok (TString text)
    | _ => invalid
    end
  else if td_Type d =?b TemplateParameterDecimal then
    match value with
    | TString text =>
      if (templateMaxValueBytes <? length text) || negb (decimal_pattern text) then invalid else Ok (TString text)
    | _ => invalid
    end
  else if td_Type d =?b TemplateParameterInteger then
    match value with
    | TInt64 n => Ok (TInt64 n)
    | TNumber text => match parse_int text with Some n => Ok (TInt64 n) | None => invalid end
    | TFloat (Some n) => if int64_ok n then Ok (TInt64 n) else invalid
    | _ => invalid
    end
  else if td_Type d =?b TemplateParameterBoolean then
    match value with TBool b => Ok (TBool b) | _ => invalid end
  else invalid.

Fixpoint bind_values (bindings : list TemplateParameterDefinition) (values : gmap bytes tvalue)
    : result compile_error (list tvalue) :=
  match bindings with
  | [] => Ok []
  | d :: bindings =>
    match values !! td_Name d with
    | None => Err ErrTemplateParameterInvalid
    | Some value =>
      bound ← compileTemplateValue d value;
      args ← bind_values bindings values;
      Ok (bound :: args)
    end
  end.
Definition bindTemplateArguments (declaration : templateStatementDeclaration) (values : gmap bytes tvalue)
    : result compile_error (list tvalue) :=
  if forallb (λ nv, bool_decide (is_Some (dc_definitions declaration !! nv.1))) (map_to_list values)
  then bind_values (dc_bindings declaration) values
  else Err ErrTemplateParameterInvalid.

Definition Compile (input : TemplateStatementInput) : result compile_error CompiledTemplateStatement :=
  declaration ← compileDeclaration (ti_Statement input) (ti_Definitions input);
  args ← bindTemplateArguments declaration (ti_Values input);
  Ok (Compiled (dc_statement declaration) args).

Definition validateDeclarations (statement : bytes) (definitions : list TemplateParameterDefinition)
    : result compile_error CompiledTemplateStatement :=
  declaration ← compileDeclaration statement definitions; Ok (Compiled (dc_statement declaration) []).

Fixpoint check_markers (query : bytes) (locations : list (Z * Z)) : result compile_error unit :=
  match locations with
  | [] => Ok tt
  | (offset, len) :: locations =>
    marker ← go_slice offset (offset + len) query;
    if is_prefix (gs ":v") marker then check_markers query locations else Err ErrTemplateStatementInvalid
  end.
Definition restorePositionalMarkers (statement : bytes) (expected : nat) : result compile_error bytes :=
  match tp_parse parser statement with
  | None => Err ErrTemplateStatementInvalid
  | Some q =>
    if negb (length (pq_BindLocations q) =? expected) then Err ErrTemplateStatementInvalid
    else _ ← check_markers (pq_Query q) (pq_BindLocations q); replaceTemplateBindLocations q
  end.

Record GuardedTemplateStatement : Type := GuardedTemplate { gt_query : GuardedQuery; gt_args : list tvalue }.

Definition with_sql (g : GuardedQuery) (sql : bytes) : GuardedQuery :=
  Guarded (gq_OriginalStatement g) sql (gq_LimitApplied g) (gq_ResultLimit g) (gq_StatementDigest g) (gq_StatementPreview g).

(** [CompileAndGuard] and its paged form; [page] is [None] for the former. *)
Definition guard_compiled (sp : sql_parser) (config : QueryGuardConfig) (statement : bytes) (page : option (Z * Z))
    (maxRows : Z) : result guard_error GuardedQuery :=
  match page with
  | None => Guard sp config statement maxRows
  | Some (p, size) =>
    match GuardPaginatedSelect sp config statement p size maxRows with
    | Err ErrQueryPaginationNotApplicable => Guard sp config statement maxRows
    | r => r
    end
  end.
Definition CompileAndGuard (sp : sql_parser) (config : QueryGuardConfig) (input : TemplateStatementInput)
    (page : option (Z * Z)) (maxRows : Z) : result compile_error GuardedTemplateStatement :=
  compiled ← Compile input;
  guarded ← map_err TemplateGuard (guard_compiled sp config (cs_Statement compiled) page maxRows);
  sql ← restorePositionalMarkers (gq_ExecutableSQL guarded) (length (cs_Args compiled));
  Ok (GuardedTemplate (with_sql guarded sql) (cs_Args compiled)).
End compiler.

(** ** The PostgreSQL dialect *)

(** The rebuilt statement from [pos] on, the markers numbered from [index]. *)
Fixpoint rewrite_markers (trimmed : bytes) (pos index : nat) (markers : list TemplatePlaceholder) : bytes :=
  match markers with
  | [] => drop pos trimmed
  | m :: markers =>
    slice pos (ph_Offset m) trimmed ++ gs "$" ++ format_uint (Z.of_nat index + 1)
      ++ rewrite_markers trimmed (ph_Offset m + ph_Length m) (1 + index) markers
  end.

Fixpoint marker_bindings (declared : gmap bytes TemplateParameterDefinition) (markers : list TemplatePlaceholder)
    : result compile_error (list TemplateParameterDefinition) :=
  match markers with
  | [] => Ok []
  | m :: markers =>
    match declared !! ph_Name m with
    | None => Err ErrTemplateParameterInvalid
    | Some d => ds ← marker_bindings declared markers; Ok (d :: ds)
    end
  end.

Definition compilePGDeclaration (statement : bytes) (definitions : list TemplateParameterDefinition)
    : result compile_error templateStatementDeclaration :=
  let trimmed := trim_space statement in
  if trimmed =?b [] then Err ErrTemplateStatementInvalid
  else
    declared ← templateDeclarations definitions;
    match ScanTemplatePlaceholders trimmed with
    | Some (Err ErrTemplateNativeParameter) => Err ErrTemplateParameterInvalid
    | Some (Err ErrTemplateScanInvalid) | None => Err ErrTemplateStatementInvalid
    | Some (Ok markers) =>
      bindings ← marker_bindings declared markers;
      _ ← check_used declared bindings;
      Ok (Declaration (rewrite_markers trimmed 0 0 markers) declared bindings)
    end.

Definition CompilePG (input : TemplateStatementInput) : result compile_error CompiledTemplateStatement :=
  declaration ← compilePGDeclaration (ti_Statement input) (ti_Definitions input);
  args ← bindTemplateArguments declaration (ti_Values input);
  Ok (Compiled (dc_statement declaration) args).

Definition validatePGDeclarations (statement : bytes) (definitions : list TemplateParameterDefinition)
    : result compile_error CompiledTemplateStatement :=
  declaration ← compilePGDeclaration statement definitions; Ok (Compiled (dc_statement declaration) []).

(** ** Declarations and bindings: lemmas *)

Lemma declare_ok declared definitions m :
  declare declared definitions = Ok m →
  NoDup (td_Name <$> definitions)
  ∧ (∀ d, d ∈ definitions → declared !! td_Name d = None ∧ known_type (td_Type d) = true)
  ∧ (∀ n d, m !! n = Some d ↔ declared !! n = Some d ∨ (d ∈ definitions ∧ td_Name d = n)).
Proof.
  revert declared. induction definitions as [|d ds IH]; intros declared; cbn [declare].
  { intros [= <-]. split_and!; [constructor|by intros d ?%elem_of_nil|]. intros n d. rewrite elem_of_nil. naive_solver. }
  case_if as En; [done|]. destruct (declared !! td_Name d) eqn:Ed; [done|]. case_if as Et; [|done].
  intros (Hnd & Hfresh & Hm)%IH.
  assert (td_Name d ∉ td_Name <$> ds) as Hnew.
  { intros (d' & Hd' & Hin)%list_elem_of_fmap. destruct (Hfresh d' Hin) as [Hf _].
    rewrite <- Hd', lookup_insert_eq in Hf. done. }
  split_and!; [by constructor| |].
  - intros d' [->|Hin]%elem_of_cons; [done|]. destruct (Hfresh d' Hin) as [Hf Hk]. split; [|done].
    rewrite lookup_insert_ne in Hf; [done|]. intros Heq. apply Hnew. rewrite Heq. by apply list_elem_of_fmap_2.
  - intros n d'. rewrite Hm, elem_of_cons, lookup_insert_Some.
    destruct (decide (td_Name d = n)) as [<-|Hn]; [|naive_solver].
    rewrite Ed. split; [|intros [?|[[->|Hin] Hn]]; [done|by left; left|by right]].
    intros [[[_ <-]|[? _]]|[Hin Hn]]; [by right; split; [left|]|done|right; split; [by right|done]].
Qed.

Lemma uses_cons name d ds : uses name (d :: ds) = (if decide (td_Name d = name) then 1 else 0) + uses name ds.
Proof. unfold uses. rewrite filter_cons. by case_decide. Qed.

Lemma uses_zero name ds : uses name ds = 0 ↔ name ∉ td_Name <$> ds.
Proof.
  induction ds as [|d ds IH]; [by split; [intros _ ?%elem_of_nil|]|].
  rewrite uses_cons, fmap_cons, not_elem_of_cons, <- IH. case_decide; [split; [lia|naive_solver]|]. cbn. naive_solver.
Qed.

Lemma uses_once_nodup ds : (∀ d, d ∈ ds → uses (td_Name d) ds = 1) → NoDup (td_Name <$> ds).
Proof.
  induction ds as [|d ds IH]; intros Hu; [constructor|]. rewrite fmap_cons. constructor.
  - apply uses_zero. specialize (Hu d ltac:(by left)). rewrite uses_cons, decide_True in Hu by done. lia.
  - apply IH. intros d' Hd'. specialize (Hu d ltac:(by left)) as H1. specialize (Hu d' ltac:(by right)).
    rewrite uses_cons in *. rewrite decide_True in H1 by done. case_decide as Heq; [|done].
    exfalso. apply (proj1 (uses_zero (td_Name d') ds)); [lia|]. by apply list_elem_of_fmap_2.
Qed.

Lemma check_used_ok declared bindings n d :
  check_used declared bindings = Ok tt → declared !! n = Some d → uses n bindings = 1.
Proof.
  unfold check_used. intros H Hd. destruct (forallb _ _) eqn:E; [|done].
  rewrite forallb_forall in E. specialize (E (n, d)). cbn in E. apply Nat.eqb_eq, E.
  apply list_elem_of_In. by apply elem_of_map_to_list.
Qed.

(** Every parameter is bound exactly once, in some order. *)
Lemma bindings_permutation definitions declared bindings :
  templateDeclarations definitions = Ok declared → check_used declared bindings = Ok tt →
  (∀ d, d ∈ bindings → ∃ n, declared !! n = Some d) →
  bindings ≡ₚ definitions ∧ NoDup (td_Name <$> definitions).
Proof.
  unfold templateDeclarations. case_if as Elen; [done|]. intros (Hnd & _ & Hm)%declare_ok Hu Hb. split; [|done].
  assert (∀ n d, declared !! n = Some d ↔ d ∈ definitions ∧ td_Name d = n) as Hdecl.
  { intros n d. rewrite Hm, lookup_empty. naive_solver. }
  assert (∀ d, d ∈ bindings → d ∈ definitions) as Hsub by (intros d Hd; destruct (Hb d Hd) as [n Hn]; by apply Hdecl in Hn as [? _]).
  apply NoDup_Permutation.
  - apply (NoDup_fmap_1 td_Name), uses_once_nodup. intros d Hd.
    apply (check_used_ok declared _ _ d); [done|]. apply Hdecl. split; [by apply Hsub|done].
  - by apply (NoDup_fmap_1 td_Name).
  - intros d. split; [apply Hsub|]. intros Hd.
    assert (uses (td_Name d) bindings = 1) as Hone by (apply (check_used_ok declared _ _ d); [done|by apply Hdecl]).
    destruct (decide (td_Name d ∈ td_Name <$> bindings)) as [Hin|Hin]; [|apply uses_zero in Hin; lia].
    apply list_elem_of_fmap in Hin as (d' & Hn & Hd'). destruct (Hb d' Hd') as [n Hn'].
    apply Hdecl in Hn' as [Hdef Hn']. by rewrite (nodup_fmap_inj td_Name definitions d d').
Qed.

(** What the driver receives for a parameter of that type. *)
Definition typed_arg (type : bytes) (arg : tvalue) : Prop :=
  match arg with
  | TString text =>
    length text ≤ templateMaxValueBytes
    ∧ (type = TemplateParameterString ∨ (type = TemplateParameterDecimal ∧ decimal_pattern text = true))
  | TInt64 _ => type = TemplateParameterInteger
  | TBool _ => type = TemplateParameterBoolean
  | TNumber _ | TFloat _ | TOther => False
  end.

Lemma compile_value_typed d v arg : compileTemplateValue d v = Ok arg → typed_arg (td_Type d) arg.
Proof.
  unfold compileTemplateValue. cbn zeta. case_if as E1; [|case_if as E2; [|case_if as E3; [|case_if as E4; [|done]]]]; bool_inv.
  - destruct v; try done. case_if as El; [done|]. intros [= <-]. bool_inv. split; [lia|by left].
  - destruct v; try done. case_if as El; [done|]. intros [= <-]. bool_inv. split; [lia|by right].
  - destruct v as [|n|text|[n|]| |]; try done; repeat case_match; try done; by intros [= <-].
  - destruct v; try done. by intros [= <-].
Qed.

(** Each parameter is bound exactly once, to its own supplied value, typed. *)
Definition binds (definitions : list TemplateParameterDefinition) (values : gmap bytes tvalue)
    (bindings : list TemplateParameterDefinition) (args : list tvalue) : Prop :=
  bindings ≡ₚ definitions ∧ NoDup (td_Name <$> definitions)
  ∧ (∀ n, is_Some (values !! n) ↔ n ∈ td_Name <$> definitions)
  ∧ Forall2 (λ d arg, ∃ v, values !! td_Name d = Some v ∧ compileTemplateValue d v = Ok arg ∧ typed_arg (td_Type d) arg)
      bindings args.

Lemma bind_values_ok bindings values args :
  bind_values bindings values = Ok args →
  Forall2 (λ d arg, ∃ v, values !! td_Name d = Some v ∧ compileTemplateValue d v = Ok arg ∧ typed_arg (td_Type d) arg)
    bindings args.
Proof.
  revert args. induction bindings as [|d ds IH]; intros args; cbn [bind_values]; [by intros [= <-]|].
  destruct (values !! td_Name d) as [v|] eqn:Ev; [|done].
  destruct (compileTemplateValue d v) as [bound|] eqn:Eb; [|done]. cbn [mbind result_bind].
  destruct (bind_values ds values) as [rest|]; [|done]. cbn [mbind result_bind]. intros [= <-].
  constructor; [|by apply IH]. exists v. split_and!; [done|done|by eapply compile_value_typed].
Qed.

Lemma bind_arguments_ok definitions declared declaration values args :
  templateDeclarations definitions = Ok declared → dc_definitions declaration = declared →
  check_used declared (dc_bindings declaration) = Ok tt →
  (∀ d, d ∈ dc_bindings declaration → ∃ n, declared !! n = Some d) →
  bindTemplateArguments declaration values = Ok args →
  binds definitions values (dc_bindings declaration) args.
Proof.
  intros Hd Hdc Hu Hb. unfold bindTemplateArguments. case_if as Ev; [|done]. intros Ha%bind_values_ok.
  destruct (bindings_permutation _ _ _ Hd Hu Hb) as [Hp Hnd]. split_and!; [done|done| |done].
  intros n. split.
  - intros [v Hv]. rewrite forallb_forall in Ev. specialize (Ev (n, v)). cbn in Ev.
    specialize (Ev (proj1 (list_elem_of_In _ _) (proj2 (elem_of_map_to_list _ _ _) Hv))).
    apply bool_decide_eq_true_1 in Ev as [d Hdn].
    revert Hd. unfold templateDeclarations. case_if as El; [done|]. intros (_ & _ & Hm)%declare_ok.
    rewrite Hdc in Hdn. apply Hm in Hdn as [Hdn|[Hin <-]]; [by rewrite lookup_empty in Hdn|by apply list_elem_of_fmap_2].
  - intros (d & -> & Hin)%list_elem_of_fmap. rewrite <- Hp in Hin. apply list_elem_of_lookup_1 in Hin as [i Hi].
    destruct (Forall2_lookup_l _ _ _ _ _ Ha Hi) as (arg & _ & v & Hv & _). by eexists.
Qed.

Lemma bind_locations_declared query declared locations bindings :
  bind_locations query declared locations = Ok bindings → ∀ d, d ∈ bindings → ∃ n, declared !! n = Some d.
Proof.
  revert bindings. induction locations as [|[offset len] ls IH]; intros bindings; cbn [bind_locations].
  { intros [= <-] d Hd. by apply elem_of_nil in Hd. }
  case_if as E1; [done|]. destruct (go_slice _ _ _) as [marker|]; [|done]. cbn [mbind result_bind].
  case_if as E2; [done|]. case_if as E3; [done|]. destruct (declared !! drop 1 marker) as [d|] eqn:Ed; [|done].
  destruct (bind_locations query declared ls) as [ds|]; [|done]. cbn [mbind result_bind]. intros [= <-].
  intros d' [->|Hd']%elem_of_cons; [by eexists|by apply (IH ds)].
Qed.

Lemma marker_bindings_ok declared markers bindings :
  marker_bindings declared markers = Ok bindings →
  Forall2 (λ d m, declared !! ph_Name m = Some d) bindings markers.
Proof.
  revert bindings. induction markers as [|m ms IH]; intros bindings; cbn [marker_bindings]; [by intros [= <-]|].
  destruct (declared !! ph_Name m) as [d|] eqn:Ed; [|done].
  destruct (marker_bindings declared ms) as [ds|]; [|done]. cbn [mbind result_bind]. intros [= <-].
  constructor; [done|by apply IH].
Qed.

Lemma compileDeclaration_ok parser statement definitions declaration :
  compileDeclaration parser statement definitions = Ok declaration →
  ∃ declared, templateDeclarations definitions = Ok declared ∧ dc_definitions declaration = declared
    ∧ check_used declared (dc_bindings declaration) = Ok tt
    ∧ (∀ d, d ∈ dc_bindings declaration → ∃ n, declared !! n = Some d).
Proof.
  unfold compileDeclaration. cbn zeta. case_if as E1; [done|]. destruct (tp_split _ _) as [pieces|]; [|done].
  case_if as E2; [done|]. destruct (tp_parse _ _) as [q|]; [|done].
  destruct (templateDeclarations definitions) as [declared|]; [|done]. cbn [mbind result_bind].
  destruct (bind_locations _ _ _) as [bindings|] eqn:Eb; [|done]. cbn [mbind result_bind].
  destruct (check_used _ _) as [[]|] eqn:Eu; [|done]. cbn [mbind result_bind].
  destruct (replaceTemplateBindLocations q) as [r|]; [|done]. cbn [mbind result_bind]. intros [= <-].
  exists declared. split_and!; try done. by eapply bind_locations_declared.
Qed.

(** A compiled template binds every declared parameter exactly once, each
    placeholder to its own supplied value, converted to the declared type, with
    no value missing or extra; and its text is the one fixed when the template
    was declared, so no value reaches the SQL. *)
Theorem compile_binds parser input c :
  Compile parser input = Ok c →
  (∃ bindings, binds (ti_Definitions input) (ti_Values input) bindings (cs_Args c))
  ∧ validateDeclarations parser (ti_Statement input) (ti_Definitions input) = Ok (Compiled (cs_Statement c) []).
Proof.
  unfold Compile, validateDeclarations.
  destruct (compileDeclaration _ _ _) as [declaration|] eqn:Ed; [|done]. cbn [mbind result_bind].
  destruct (bindTemplateArguments _ _) as [args|] eqn:Ea; [|done]. cbn [mbind result_bind]. intros [= <-].
  destruct (compileDeclaration_ok _ _ _ _ Ed) as (declared & Hd & Hdc & Hu & Hb).
  split; [|done]. exists (dc_bindings declaration). by apply (bind_arguments_ok _ declared).
Qed.

(** A statement the declaration accepts compiles for all its value sets. *)
Lemma bind_values_complete bindings values :
  Forall (λ d, ∃ v, values !! td_Name d = Some v ∧ is_ok (compileTemplateValue d v) = true) bindings →
  ∃ args, bind_values bindings values = Ok args.
Proof.
  induction 1 as [|d ds (v & Hv & Hok) _ [args IH]]; [by exists []|]. cbn [bind_values]. rewrite Hv.
  destruct (compileTemplateValue d v) as [b|]; [|done]. cbn [mbind result_bind]. rewrite IH. by eexists.
Qed.

(** Exactly the declared names have values, each one its type accepts. *)
Definition values_accepted (definitions : list TemplateParameterDefinition) (values : gmap bytes tvalue) : Prop :=
  (∀ n, is_Some (values !! n) → n ∈ td_Name <$> definitions)
  ∧ Forall (λ d, ∃ v, values !! td_Name d = Some v ∧ is_ok (compileTemplateValue d v) = true) definitions.

Lemma bind_arguments_complete definitions declared declaration values :
  templateDeclarations definitions = Ok declared → dc_definitions declaration = declared →
  check_used declared (dc_bindings declaration) = Ok tt →
  (∀ d, d ∈ dc_bindings declaration → ∃ n, declared !! n = Some d) →
  values_accepted definitions values →
  ∃ args, bindTemplateArguments declaration values = Ok args.
Proof.
  intros Hd Hdc Hu Hb [Hn Hv]. destruct (bindings_permutation _ _ _ Hd Hu Hb) as [Hp _].
  unfold bindTemplateArguments. case_if as E.
  - apply bind_values_complete. by rewrite Hp.
  - exfalso. apply not_true_iff_false in E. apply E, forallb_forall. intros [n v] Hin%list_elem_of_In%elem_of_map_to_list.
    apply bool_decide_eq_true. cbn. rewrite Hdc. revert Hd. unfold templateDeclarations. case_if as El; [done|].
    intros (_ & _ & Hm)%declare_ok. destruct (proj1 (list_elem_of_fmap td_Name _ _) (Hn n (mk_is_Some _ _ Hin))) as (d & -> & Hd).
    exists d. apply Hm. by right.
Qed.

Lemma compile_complete parser input c :
  validateDeclarations parser (ti_Statement input) (ti_Definitions input) = Ok c →
  values_accepted (ti_Definitions input) (ti_Values input) →
  ∃ args, Compile parser input = Ok (Compiled (cs_Statement c) args).
Proof.
  unfold Compile, validateDeclarations. destruct (compileDeclaration _ _ _) as [declaration|] eqn:Ed; [|done].
  cbn [mbind result_bind]. intros [= <-] Hv. destruct (compileDeclaration_ok _ _ _ _ Ed) as (declared & Hd & Hdc & Hu & Hb).
  destruct (bind_arguments_complete _ _ _ _ Hd Hdc Hu Hb Hv) as [args Ha]. rewrite Ha. by exists args.
Qed.

(** The pieces of the statement between its markers. *)
Definition with_markers (kept : list bytes) (markers : list TemplatePlaceholder) (last : bytes) : bytes :=
  concat (zip_with (λ k m, k ++ gs ":" ++ ph_Name m) kept markers) ++ last.
Fixpoint with_positions (index : nat) (kept : list bytes) (last : bytes) : bytes :=
  match kept with
  | [] => last
  | k :: kept => k ++ gs "$" ++ format_uint (Z.of_nat index + 1) ++ with_positions (1 + index) kept last
  end.

Lemma rewrite_markers_pieces s pos index markers :
  pos ≤ length s → markers_ok s pos markers →
  ∃ kept last, length kept = length markers ∧ drop pos s = with_markers kept markers last
    ∧ rewrite_markers s pos index markers = with_positions index kept last.
Proof.
  revert pos index. induction markers as [|m ms IH]; intros pos index Hpos.
  { intros _. exists [], (drop pos s). by split_and!. }
  intros [(Ho & Hle & Hlen & Hc & Hname & _) Hms]. cbn [rewrite_markers].
  destruct (IH (ph_Offset m + ph_Length m) (1 + index)) as (kept & last & Hk & Hd & ->); [lia|done|].
  exists (slice pos (ph_Offset m) s :: kept), last. split_and!; [cbn; by rewrite Hk| |done].
  unfold with_markers. cbn [zip_with concat]. rewrite <- !app_assoc. fold (with_markers kept ms last). rewrite <- Hd.
  unfold slice at 1. rewrite <- (take_drop (ph_Offset m - pos) (drop pos s)) at 1. f_equal. rewrite drop_drop.
  replace (pos + (ph_Offset m - pos)) with (ph_Offset m) by lia. rewrite (drop_S _ _ _ Hc). cbn [app].
  change (gs ":") with [colon]. cbn [app]. f_equal. rewrite Hname. unfold slice.
  rewrite <- (take_drop (ph_Offset m + ph_Length m - (1 + ph_Offset m)) (drop (S (ph_Offset m)) s)) at 1.
  f_equal. rewrite drop_drop. f_equal. lia.
Qed.

Lemma compilePGDeclaration_ok statement definitions declaration :
  compilePGDeclaration statement definitions = Ok declaration →
  ∃ declared markers, templateDeclarations definitions = Ok declared ∧ dc_definitions declaration = declared
    ∧ check_used declared (dc_bindings declaration) = Ok tt
    ∧ ScanTemplatePlaceholders (trim_space statement) = Some (Ok markers) ∧ markers_ok (trim_space statement) 0 markers
    ∧ Forall2 (λ d m, declared !! ph_Name m = Some d) (dc_bindings declaration) markers
    ∧ dc_statement declaration = rewrite_markers (trim_space statement) 0 0 markers.
Proof.
  unfold compilePGDeclaration. cbn zeta. case_if as E1; [done|].
  destruct (templateDeclarations _) as [declared|] eqn:Ed; [|done]. cbn [mbind result_bind].
  destruct (scan_markers (trim_space statement)) as (r & Hr & Hok). rewrite Hr.
  destruct r as [markers|[]]; [|done..]. specialize (Hok markers eq_refl).
  destruct (marker_bindings _ _) as [bindings|] eqn:Eb; [|done]. cbn [mbind result_bind].
  destruct (check_used _ _) as [[]|] eqn:Eu; [|done]. cbn [mbind result_bind]. intros [= <-].
  apply marker_bindings_ok in Eb. by exists declared, markers.
Qed.

Lemma bindings_in {B : Type} (declared : gmap bytes TemplateParameterDefinition) (name : B → bytes) (bindings : list TemplateParameterDefinition) (markers : list B) :
  Forall2 (λ d m, declared !! name m = Some d) bindings markers → ∀ d, d ∈ bindings → ∃ n, declared !! n = Some d.
Proof.
  intros Hb d [i Hi]%list_elem_of_lookup_1. destruct (Forall2_lookup_l _ _ _ _ _ Hb Hi) as (m & _ & Hm). by eexists.
Qed.

Lemma compile_pg_complete input c :
  validatePGDeclarations (ti_Statement input) (ti_Definitions input) = Ok c →
  values_accepted (ti_Definitions input) (ti_Values input) →
  ∃ args, CompilePG input = Ok (Compiled (cs_Statement c) args).
Proof.
  unfold CompilePG, validatePGDeclarations. destruct (compilePGDeclaration _ _) as [declaration|] eqn:Ed; [|done].
  cbn [mbind result_bind]. intros [= <-] Hv.
  destruct (compilePGDeclaration_ok _ _ _ Ed) as (declared & markers & Hd & Hdc & Hu & _ & _ & Hb & _).
  destruct (bind_arguments_complete _ _ _ _ Hd Hdc Hu (bindings_in _ _ _ _ Hb) Hv) as [args Ha]. rewrite Ha. by exists args.
Qed.

(** A template accepted when it was saved compiles for every set of values
    of the declared names and types, in both dialects, and always to the text
    that was accepted: whether it can run never depends on the values. *)
Theorem accepted_template_compiles parser input :
  values_accepted (ti_Definitions input) (ti_Values input) →
  (∀ c, validateDeclarations parser (ti_Statement input) (ti_Definitions input) = Ok c →
     ∃ args, Compile parser input = Ok (Compiled (cs_Statement c) args))
  ∧ (∀ c, validatePGDeclarations (ti_Statement input) (ti_Definitions input) = Ok c →
     ∃ args, CompilePG input = Ok (Compiled (cs_Statement c) args)).
Proof. intros Hv. split; intros c Hc; [by apply compile_complete|by apply compile_pg_complete]. Qed.

(** The same for PostgreSQL templates, with the text in full: the compiled
    statement is the original one with its markers, in order, replaced by $1,
    $2, ..., and nothing else changed. *)
Theorem compile_pg_binds input c :
  CompilePG input = Ok c →
  ∃ markers bindings kept last,
    ScanTemplatePlaceholders (trim_space (ti_Statement input)) = Some (Ok markers)
    ∧ td_Name <$> bindings = ph_Name <$> markers
    ∧ binds (ti_Definitions input) (ti_Values input) bindings (cs_Args c)
    ∧ length kept = length markers
    ∧ trim_space (ti_Statement input) = with_markers kept markers last
    ∧ cs_Statement c = with_positions 0 kept last
    ∧ validatePGDeclarations (ti_Statement input) (ti_Definitions input) = Ok (Compiled (cs_Statement c) []).
Proof.
  unfold CompilePG, validatePGDeclarations. destruct (compilePGDeclaration _ _) as [declaration|] eqn:Ed; [|done].
  cbn [mbind result_bind]. destruct (bindTemplateArguments _ _) as [args|] eqn:Ea; [|done]. cbn [mbind result_bind]. intros [= <-].
  destruct (compilePGDeclaration_ok _ _ _ Ed) as (declared & markers & Hd & Hdc & Hu & Hscan & Hok & Eb & Hst).
  destruct (rewrite_markers_pieces (trim_space (ti_Statement input)) 0 0 markers) as (kept & last & Hk & Ht & Hp); [lia|done|].
  rewrite drop_0 in Ht. exists markers, (dc_bindings declaration), kept, last. split_and!; try done.
  - revert Hd. unfold templateDeclarations. case_if as El; [done|]. intros (_ & _ & Hm)%declare_ok.
    clear -Eb Hm. induction Eb as [|d m ds ms Hd _ IH]; [done|]. rewrite !fmap_cons. f_equal; [|done].
    apply Hm in Hd as [Hd|[_ Hd]]; [by rewrite lookup_empty in Hd|done].
  - by apply (bind_arguments_ok _ declared _ _ _ Hd Hdc Hu (bindings_in _ _ _ _ Eb)) in Ea.
  - cbn [cs_Statement]. by rewrite Hst.
Qed.

(** ** No slice out of range

    What Vitess documents of a parsed query: its bind locations are in order,
    disjoint and inside the rendered text. *)
Fixpoint locations_ok (len current : Z) (locations : list (Z * Z)) : Prop :=
  match locations with
  | [] => (current ≤ len)%Z
  | (offset, n) :: locations => (current ≤ offset ∧ 0 ≤ n)%Z ∧ locations_ok len (offset + n) locations
  end.
Definition parser_ok (parser : template_parser) : Prop :=
  ∀ s q, tp_parse parser s = Some q → locations_ok (Z.of_nat (length (pq_Query q))) 0 (pq_BindLocations q).

Lemma locations_le len current ls : locations_ok len current ls → (current ≤ len)%Z.
Proof. revert current. induction ls as [|[o n] ls IH]; cbn; [done|]. intros current [? ?%IH]. lia. Qed.

Lemma go_slice_ok a b s : (0 ≤ a ≤ b)%Z → (b ≤ Z.of_nat (length s))%Z → go_slice a b s = Ok (slice (Z.to_nat a) (Z.to_nat b) s).
Proof. intros. unfold go_slice. case_if as E; [done|]. apply andb_false_iff in E as [[E|E]%andb_false_iff|E]; bool_inv; lia. Qed.

Lemma replace_locations_ok query current ls :
  (0 ≤ current)%Z → locations_ok (Z.of_nat (length query)) current ls → is_ok (replace_locations query current ls) = true.
Proof.
  revert current. induction ls as [|[o n] ls IH]; intros current Hc Hls; cbn [replace_locations].
  - by rewrite go_slice_ok by (cbn in Hls; lia).
  - destruct Hls as [Ho Hls]. pose proof (locations_le _ _ _ Hls). rewrite go_slice_ok by lia. cbn [mbind result_bind].
    specialize (IH (o + n)%Z ltac:(lia) Hls). by destruct (replace_locations query (o + n) ls).
Qed.

Lemma replaceTemplateBindLocations_ok q :
  locations_ok (Z.of_nat (length (pq_Query q))) 0 (pq_BindLocations q) → is_ok (replaceTemplateBindLocations q) = true.
Proof. unfold replaceTemplateBindLocations. intros H. destruct (pq_BindLocations q); [done|]. by apply replace_locations_ok. Qed.

(** The result is not the panic. *)
Definition safe {A} (r : result compile_error A) : Prop := r ≠ Err TemplatePanic.
Lemma safe_bind {A B} (m : result compile_error A) (f : A → result compile_error B) :
  safe m → (∀ a, m = Ok a → safe (f a)) → safe (m ≫= f).
Proof. unfold safe. destruct m; cbn; [auto|congruence]. Qed.
Lemma safe_ok {A} (r : result compile_error A) : is_ok r = true → safe r.
Proof. by destruct r. Qed.

Lemma declare_safe declared definitions : safe (declare declared definitions).
Proof. revert declared. induction definitions; intros; cbn [declare]; repeat case_match; done. Qed.
Lemma bind_locations_safe query declared ls : safe (bind_locations query declared ls).
Proof.
  induction ls as [|[o n] ls IH]; cbn [bind_locations]; [done|]. case_if as E; [done|].
  apply orb_false_elim in E as [[E1 E2]%orb_false_elim E3]. bool_inv. rewrite go_slice_ok by lia. cbn [mbind result_bind].
  case_if as E4; [done|]. case_if as E5; [done|]. case_match; [|done]. by apply safe_bind.
Qed.
Lemma compileTemplateValue_safe d v : safe (compileTemplateValue d v).
Proof. unfold compileTemplateValue. cbn zeta. by repeat case_match. Qed.
Lemma bind_values_safe bindings values : safe (bind_values bindings values).
Proof.
  induction bindings as [|d ds IH]; cbn [bind_values]; [done|]. case_match; [|done].
  apply safe_bind; [apply compileTemplateValue_safe|]. intros. by apply safe_bind.
Qed.

Section no_panic.
Context (parser : template_parser) (Hp : parser_ok parser).

Lemma compileDeclaration_safe statement definitions : safe (compileDeclaration parser statement definitions).
Proof.
  unfold compileDeclaration. cbn zeta. case_if as E1; [done|]. destruct (tp_split _ _); [|done]. case_if as E2; [done|].
  destruct (tp_parse _ _) as [q|] eqn:Eq; [|done]. apply safe_bind.
  { unfold templateDeclarations. case_if as E; [done|apply declare_safe]. }
  intros declared _. apply safe_bind; [apply bind_locations_safe|]. intros bindings _. apply safe_bind.
  { unfold check_used, guard_err. by case_match. }
  intros _ _. apply safe_bind; [|done]. by eapply safe_ok, replaceTemplateBindLocations_ok, Hp.
Qed.

Lemma Compile_safe input : safe (Compile parser input).
Proof.
  unfold Compile. apply safe_bind; [apply compileDeclaration_safe|]. intros d _. apply safe_bind; [|done].
  unfold bindTemplateArguments. case_if as E; [apply bind_values_safe|done].
Qed.

Lemma check_markers_safe query current ls :
  (0 ≤ current)%Z → locations_ok (Z.of_nat (length query)) current ls → safe (check_markers query ls).
Proof.
  revert current. induction ls as [|[o n] ls IH]; intros current Hc; cbn [check_markers]; [done|].
  intros [Ho Hls]. pose proof (locations_le _ _ _ Hls). rewrite go_slice_ok by lia. cbn [mbind result_bind].
  case_if as E; [|done]. apply (IH (o + n)%Z); [lia|done].
Qed.

Lemma CompileAndGuard_safe sp config input page maxRows : safe (CompileAndGuard parser sp config input page maxRows).
Proof.
  unfold CompileAndGuard. apply safe_bind; [apply Compile_safe|]. intros c _. apply safe_bind.
  { by destruct (guard_compiled _ _ _ _ _). }
  intros g _. apply safe_bind; [|done]. unfold restorePositionalMarkers.
  destruct (tp_parse _ _) as [q|] eqn:Eq; [|done]. pose proof (Hp _ _ Eq) as Hq. case_if as E; [done|].
  apply safe_bind; [by apply (check_markers_safe _ 0)|]. intros _ _. by apply safe_ok, replaceTemplateBindLocations_ok.
Qed.
End no_panic.

(** ** Sample templates *)

(** A parser of one statement and of its compiled form, for the witnesses. *)
Definition sample_template_parser : template_parser :=
  TemplateParser (λ s, Some [s])
    (λ s, Some (if is_prefix (gs "select lower(x) where id = ?") s
                then Parsed (gs "select lower(x) where id = :v1" ++ drop 28 s) [(27, 3)]%Z
                else Parsed (gs "select lower(x) where id = :id") [(27, 3)]%Z)).
Definition sample_definitions : list TemplateParameterDefinition := [Definition_ (gs "id") TemplateParameterInteger].
Definition sample_template : TemplateStatementInput :=
  TemplateInput (gs " select lower(x) where id = :id") sample_definitions {[ gs "id" := TNumber (gs "42") ]}.
Definition sample_pg_template : TemplateStatementInput :=
  TemplateInput (gs " select ':a', :id::int ") sample_definitions {[ gs "id" := TNumber (gs "42") ]}.

Lemma sample_parser_ok : parser_ok sample_template_parser.
Proof. intros s q [= <-]. case_if as E; cbn; lia. Qed.

Lemma sample_values_accepted : values_accepted sample_definitions {[ gs "id" := TNumber (gs "42") ]}.
Proof.
  split.
  - intros n [v [<- _]%lookup_singleton_Some]. vm_compute. left.
  - repeat constructor. exists (TNumber (gs "42")). by vm_compute.
Qed.

Lemma compile_binds_witness :
  validateDeclarations sample_template_parser (ti_Statement sample_template) sample_definitions
  = Ok (Compiled (gs "select lower(x) where id = ?") []).
Proof.
  apply (compile_binds sample_template_parser sample_template (Compiled (gs "select lower(x) where id = ?") [TInt64 42])).
  vm_compute. reflexivity.
Defined.

Lemma compile_pg_binds_witness :
  validatePGDeclarations (ti_Statement sample_pg_template) sample_definitions
  = Ok (Compiled (gs "select ':a', $1::int") []).
Proof.
  destruct (compile_pg_binds sample_pg_template (Compiled (gs "select ':a', $1::int") [TInt64 42]))
    as (ms & bs & k & l & _ & _ & _ & _ & _ & _ & H); [vm_compute; reflexivity|exact H].
Defined.

Lemma accepted_template_compiles_witness :
  (∃ args, Compile sample_template_parser sample_template = Ok (Compiled (gs "select lower(x) where id = ?") args))
  ∧ (∃ args, CompilePG sample_pg_template = Ok (Compiled (gs "select ':a', $1::int") args)).
Proof.
  split.
  - destruct (accepted_template_compiles sample_template_parser sample_template sample_values_accepted) as [H _].
    apply (H (Compiled (gs "select lower(x) where id = ?") [])). vm_compute. reflexivity.
  - destruct (accepted_template_compiles sample_template_parser sample_pg_template sample_values_accepted) as [_ H].
    apply (H (Compiled (gs "select ':a', $1::int") [])). vm_compute. reflexivity.
Defined.
