(* ===== verification/SavedLibrary.v ===== *)
(** * The saved-statement library

    [internal/model/query_saved_statement.go],
    [internal/service/query_saved_statement_service.go] and
    [internal/repository/mysql/query_saved_statement_repository.go]: validation,
    authorization and the audited writes over the statement and parameter
    tables. Timestamps and the listing query are left out. *)
From S2P Require Import Prelude GoText ExecModel ClaimStore TargetAccess QueryGuard PgLexer TemplateCompiler.

(** ** Requests *)

Definition QuerySavedStatementPersonal : bytes := gs "personal".
Definition QuerySavedStatementSharedTemplate : bytes := gs "shared_template".
Definition scope_Validate (s : bytes) : bool :=
  (s =?b QuerySavedStatementPersonal) || (s =?b QuerySavedStatementSharedTemplate).

Definition MaxSavedStatementNameLength : nat := 120.
Definition MaxSavedStatementSize : nat := 16 * 1024.
Definition MaxSavedStatementParameters : nat := 20.
Definition MaxSavedStatementParameterNameLength : nat := 64.

(** The fields of both requests; the scope of a create request is passed apart. *)
Record QuerySavedStatementRequest : Type := SavedRequest {
  sq_Name : bytes;
  sq_Statement : bytes;
  sq_Parameters : list TemplateParameterDefinition;
  sq_Database : bytes;
  sq_Schema : bytes;
}.

(** Only the space byte is trimmed. *)
Fixpoint drop_spaces (s : bytes) : bytes :=
  match s with
  | c :: r => if c =?b " "%char then drop_spaces r else s
  | [] => []
  end.
Definition trimWhitespace (s : bytes) : bytes := reverse (drop_spaces (reverse (drop_spaces s))).

(** A rune below 32 is a byte below 32. *)
Definition validateNoControlCharacters (value : bytes) : bool := forallb (λ c, (32 <=? bv c)%Z) value.

Definition validateSavedStatementName (name : bytes) : bool :=
  let name := trimWhitespace name in
  negb (name =?b []) && (rune_count name <=? MaxSavedStatementNameLength) && validateNoControlCharacters name.

Fixpoint check_parameters (seen : list bytes) (parameters : list TemplateParameterDefinition) : bool :=
  match parameters with
  | [] => true
  | p :: parameters =>
    (rune_count (td_Name p) <=? MaxSavedStatementParameterNameLength) && name_pattern (td_Name p)
    && negb (existsb (λ n, n =?b td_Name p) seen) && known_type (td_Type p)
    && check_parameters (td_Name p :: seen) parameters
  end.
Definition validateSavedStatementParameters (parameters : list TemplateParameterDefinition) : bool :=
  (length parameters <=? MaxSavedStatementParameters) && check_parameters [] parameters.

Definition validateOptionalConnectionName (value : bytes) : bool :=
  (value =?b []) || is_ok (ValidateConnectionName value).

(** [scope] is [None] for an update. *)
Definition saved_request_Validate (r : QuerySavedStatementRequest) (scope : option bytes) : bool :=
  validateSavedStatementName (sq_Name r) && negb (sq_Statement r =?b [])
  && (length (sq_Statement r) <=? MaxSavedStatementSize)
  && match scope with Some s => scope_Validate s | None => true end
  && validateSavedStatementParameters (sq_Parameters r)
  && validateOptionalConnectionName (sq_Database r) && validateOptionalConnectionName (sq_Schema r).

(** ** The tables *)

Record saved_row : Type := SavedRow {
  sr_target : Z;
  sr_owner : Z;
  sr_scope : bytes;
  sr_content : QuerySavedStatementRequest; (** name, text, context; its parameters are the other table's *)
}.
Record library : Type := Library {
  li_rows : gmap Z saved_row;
  li_params : gmap Z (list TemplateParameterDefinition); (** by ordinal *)
  li_audits : list (Z * Z * bytes);
  li_next : Z;
}.
Definition empty_library : library := Library ∅ ∅ [] 1.

Inductive library_error : Type :=
  | LibValidation | LibForbidden | LibTargetNotFound | LibNotFound | LibNotAllowed
  | LibConnectionNotFound | LibStore | LibInvalidStatement | LibProbe.

(** Where a write's transaction fails: before the commit, or at it. *)
Record write_fault : Type := WriteFault { wf_call : bool; wf_commit : commit_outcome }.
Definition no_write_fault : write_fault := WriteFault false CommitOk.

(** The transaction that takes [s] to [tx]; a rollback still consumes the id. *)
Definition finish {A} (f : write_fault) (s tx : library) (value : A) : result library_error A * library :=
  let lost := Library (li_rows s) (li_params s) (li_audits s) (li_next tx) in
  if wf_call f then (Err LibStore, lost)
  else match wf_commit f with
  | CommitOk => (Ok value, tx)
  | CommitLost => (Err LibStore, lost)
  | CommitUnknown => (Err LibStore, tx)
  end.

(** What the tables take: the width of the name column, the unique key of the
    parameters and the check on their types. *)
Definition storable (r : QuerySavedStatementRequest) : bool :=
  (rune_count (sq_Name r) <=? 120)
  && bool_decide (NoDup (td_Name <$> sq_Parameters r)) && forallb (λ p, known_type (td_Type p)) (sq_Parameters r).

Definition without_parameters (r : QuerySavedStatementRequest) : QuerySavedStatementRequest :=
  SavedRequest (sq_Name r) (sq_Statement r) [] (sq_Database r) (sq_Schema r).

Definition CreateWithAudit (owner target : Z) (r : QuerySavedStatementRequest) (scope : bytes) (f : write_fault)
    (s : library) : result library_error Z * library :=
  if negb (storable r) || negb (scope_Validate scope) then (Err LibStore, s)
  else
    let id := li_next s in
    finish f s (Library (<[id := SavedRow target owner scope (without_parameters r)]> (li_rows s))
                  (<[id := sq_Parameters r]> (li_params s))
                  (li_audits s ++ [(owner, target, gs "query.saved_statement.created")]) (1 + id)) id.

(** The rows the write's WHERE clause reaches. *)
Definition writable (row : saved_row) (actor target : Z) (isAdmin : bool) : bool :=
  (sr_target row =? target)%Z
  && (if isAdmin then (sr_scope row =?b QuerySavedStatementSharedTemplate) || (sr_owner row =? actor)%Z
      else (sr_owner row =? actor)%Z).

Definition UpdateWithAudit (actor target id : Z) (r : QuerySavedStatementRequest) (isAdmin : bool) (f : write_fault)
    (s : library) : result library_error unit * library :=
  match li_rows s !! id with
  | Some row =>
    if negb (writable row actor target isAdmin) then (Err LibNotFound, s)
    else if negb (storable r) then (Err LibStore, s)
    else finish f s (Library (<[id := SavedRow (sr_target row) (sr_owner row) (sr_scope row) (without_parameters r)]> (li_rows s))
                       (<[id := sq_Parameters r]> (li_params s))
                       (li_audits s ++ [(actor, target, gs "query.saved_statement.updated")]) (li_next s)) tt
  | None => (Err LibNotFound, s)
  end.

Definition DeleteWithAudit (actor target id : Z) (isAdmin : bool) (f : write_fault) (s : library)
    : result library_error unit * library :=
  match li_rows s !! id with
  | Some row =>
    if negb (writable row actor target isAdmin) then (Err LibNotFound, s)
    else finish f s (Library (delete id (li_rows s)) (delete id (li_params s))
                       (li_audits s ++ [(actor, target, gs "query.saved_statement.deleted")]) (li_next s)) tt
  | None => (Err LibNotFound, s)
  end.

(** [GetByID]: the row and its parameters from one snapshot; [None] is no rows. *)
Record QuerySavedStatement : Type := SavedStatement {
  ss_ID : Z; ss_TargetResourceID : Z; ss_OwnerUserID : Z; ss_Scope : bytes;
  ss_Content : QuerySavedStatementRequest; ss_Parameters : list TemplateParameterDefinition;
}.
Definition GetByID (target id : Z) (s : library) : result library_error QuerySavedStatement :=
  match li_rows s !! id with
  | Some row =>
    if negb (sr_target row =? target)%Z then Err LibNotFound
    else
      let ps := default [] (li_params s !! id) in
      if MaxSavedStatementParameters <? length ps then Err LibStore
      else Ok (SavedStatement id (sr_target row) (sr_owner row) (sr_scope row) (sr_content row) ps)
  | None => Err LibNotFound
  end.

(** ** The service *)

Record AuthenticatedUser : Type := AuthUser { au_ID : Z; au_Role : bytes }.
Definition adminRole : bytes := gs "admin".
Definition isAdmin (actor : AuthenticatedUser) : bool := au_Role actor =?b adminRole.

Record library_env : Type := LibraryEnv {
  le_targets : Z → option (list QueryTarget);
  le_credential : Z → bytes → credential_read;                  (** the connection rows *)
  le_parser : sql_parser;
  le_template_parser : template_parser;
  le_pg_accepts : bytes → bool;                                 (** [GuardPG] and the pagination gate *)
  le_access : Z → bytes → result access_error BoundTargetAccess; (** [ResolveMetadata] *)
  le_probe : BoundTargetAccess → bytes → bool;                  (** the catalog probe of the pinned schema *)
}.

Section library_service.
Context (env : library_env).

Definition lookupTarget (targetID : Z) : result library_error QueryTarget :=
  match le_targets env targetID with
  | None => Err LibTargetNotFound
  | Some targets =>
    match find (λ t, (tg_ResourceID t =? targetID)%Z) targets with Some t => Ok t | None => Err LibTargetNotFound end
  end.

Definition validateStatementContext (target : QueryTarget) (database schema : bytes) : result library_error unit :=
  if negb (isPGEngine (tg_Engine target)) then
    guard_err (negb (database =?b []) || negb (schema =?b [])) LibValidation
  else if negb (is_ok (ValidateConnectionName database)) then Err LibValidation
  else match le_credential env (tg_ResourceID target) database with
  | ReadNoRows => Err LibConnectionNotFound
  | ReadInvalid _ | ReadFailed => Err LibStore
  | ReadOk _ => Ok tt
  end.

(** [validateStatement]: the declaration first, then the dialect's guard. *)
Definition validateStatement (engine statement : bytes) (parameters : list TemplateParameterDefinition) : bool :=
  if isPGEngine engine then
    match validatePGDeclarations statement parameters with
    | Ok compiled => le_pg_accepts env (cs_Statement compiled)
    | Err _ => false
    end
  else
    match validateDeclarations (le_template_parser env) statement parameters with
    | Ok compiled => is_ok (GuardSavedStatement (le_parser env) (cs_Statement compiled))
    | Err _ => false
    end.

Definition Create (actor : AuthenticatedUser) (targetID : Z) (r : QuerySavedStatementRequest) (scope : bytes)
    (f : write_fault) (s : library) : result library_error Z * library :=
  if negb (saved_request_Validate r (Some scope)) then (Err LibValidation, s)
  else if (scope =?b QuerySavedStatementSharedTemplate) && negb (isAdmin actor) then (Err LibForbidden, s)
  else match (target ← lookupTarget targetID;
              _ ← validateStatementContext target (sq_Database r) (sq_Schema r);
              guard_err (negb (validateStatement (tg_Engine target) (sq_Statement r) (sq_Parameters r))) LibInvalidStatement) with
  | Err e => (Err e, s)
  | Ok _ => CreateWithAudit (au_ID actor) targetID r scope f s
  end.

(** Authorization of a change: the owner for personal statements, whose
    existence is hidden from others, and admins for shared templates. *)
Definition authorize (actor : AuthenticatedUser) (stmt : QuerySavedStatement) : result library_error unit :=
  if (ss_Scope stmt =?b QuerySavedStatementPersonal) && negb (ss_OwnerUserID stmt =? au_ID actor)%Z then Err LibNotFound
  else guard_err ((ss_Scope stmt =?b QuerySavedStatementSharedTemplate) && negb (isAdmin actor)) LibForbidden.

Definition Update (actor : AuthenticatedUser) (targetID id : Z) (r : QuerySavedStatementRequest) (f : write_fault)
    (s : library) : result library_error unit * library :=
  if negb (saved_request_Validate r None) then (Err LibValidation, s)
  else match (target ← lookupTarget targetID;
              stmt ← GetByID targetID id s;
              _ ← authorize actor stmt;
              _ ← validateStatementContext target (sq_Database r) (sq_Schema r);
              guard_err (negb (validateStatement (tg_Engine target) (sq_Statement r) (sq_Parameters r))) LibInvalidStatement) with
  | Err e => (Err e, s)
  | Ok _ => UpdateWithAudit (au_ID actor) targetID id r (isAdmin actor) f s
  end.

Definition Delete (actor : AuthenticatedUser) (targetID id : Z) (f : write_fault) (s : library)
    : result library_error unit * library :=
  match (_ ← lookupTarget targetID; stmt ← GetByID targetID id s; authorize actor stmt) with
  | Err e => (Err e, s)
  | Ok _ => DeleteWithAudit (au_ID actor) targetID id (isAdmin actor) f s
  end.

Definition RestoreContext (actor : AuthenticatedUser) (targetID id : Z) (s : library)
    : result library_error QuerySavedStatement :=
  stmt ← GetByID targetID id s;
  if (ss_Scope stmt =?b QuerySavedStatementPersonal) && negb (ss_OwnerUserID stmt =? au_ID actor)%Z then Err LibNotFound
  else
    target ← lookupTarget targetID;
    if negb (isPGEngine (tg_Engine target)) then Ok stmt
    else match le_access env targetID (sq_Database (ss_Content stmt)) with
    | Err (AccessDenied _ _) => Err LibNotAllowed
    | Err _ => Err LibStore
    | Ok bound => if le_probe env bound (sq_Schema (ss_Content stmt)) then Ok stmt else Err LibProbe
    end.

End library_service.

(** Two environments whose parsers agree; targets and connections may differ. *)
Definition same_dialects (env env' : library_env) : Prop :=
  le_parser env' = le_parser env ∧ le_template_parser env' = le_template_parser env
  ∧ le_pg_accepts env' = le_pg_accepts env.

(** One request of [actor], whatever the targets are at that time. *)
Inductive library_step (env : library_env) (actor : AuthenticatedUser) : library → library → Prop :=
  | step_create env' target r scope f s :
    same_dialects env env' → library_step env actor s (Create env' actor target r scope f s).2
  | step_update env' target id r f s :
    same_dialects env env' → library_step env actor s (Update env' actor target id r f s).2
  | step_delete env' target id f s :
    same_dialects env env' → library_step env actor s (Delete env' actor target id f s).2.
Definition library_move (env : library_env) (s s' : library) : Prop := ∃ actor, library_step env actor s s'.

(** ** What a request may do to the tables *)

Definition with_parameters (r : QuerySavedStatementRequest) (ps : list TemplateParameterDefinition) : QuerySavedStatementRequest :=
  SavedRequest (sq_Name r) (sq_Statement r) ps (sq_Database r) (sq_Schema r).

(** What every stored statement satisfies: the request validation, the storage
    constraints, and the compile and guard checks of some dialect. *)
Record stored_ok (env : library_env) (row : saved_row) (ps : list TemplateParameterDefinition) : Prop := {
  so_valid : saved_request_Validate (with_parameters (sr_content row) ps) (Some (sr_scope row)) = true;
  so_storable : storable (with_parameters (sr_content row) ps) = true;
  so_compiles : ∃ engine, validateStatement env engine (sq_Statement (sr_content row)) ps = true;
}.

Definition library_ok (env : library_env) (s : library) : Prop :=
  ∀ id, match li_rows s !! id, li_params s !! id with
        | Some row, Some ps => (0 < id < li_next s)%Z ∧ stored_ok env row ps
        | None, None => True
        | _, _ => False
        end.

(** Who may change a statement: its owner while it is personal, else admins. *)
Definition entitled (actor : AuthenticatedUser) (row : saved_row) : Prop :=
  if sr_scope row =?b QuerySavedStatementPersonal then sr_owner row = au_ID actor else isAdmin actor = true.

Inductive library_effect (env : library_env) (actor : AuthenticatedUser) (s : library) : library → Prop :=
  | effect_none s' :
    li_rows s' = li_rows s → li_params s' = li_params s → li_audits s' = li_audits s → (li_next s ≤ li_next s')%Z →
    library_effect env actor s s'
  | effect_add row ps event :
    sr_owner row = au_ID actor → entitled actor row → stored_ok env row ps →
    library_effect env actor s
      (Library (<[li_next s := row]> (li_rows s)) (<[li_next s := ps]> (li_params s))
         (li_audits s ++ [(au_ID actor, sr_target row, event)]) (1 + li_next s))
  | effect_change id row row' ps event :
    li_rows s !! id = Some row → entitled actor row → stored_ok env row' ps →
    sr_target row' = sr_target row → sr_owner row' = sr_owner row → sr_scope row' = sr_scope row →
    library_effect env actor s
      (Library (<[id := row']> (li_rows s)) (<[id := ps]> (li_params s))
         (li_audits s ++ [(au_ID actor, sr_target row, event)]) (li_next s))
  | effect_remove id row event :
    li_rows s !! id = Some row → entitled actor row →
    library_effect env actor s
      (Library (delete id (li_rows s)) (delete id (li_params s))
         (li_audits s ++ [(au_ID actor, sr_target row, event)]) (li_next s)).

Lemma validateStatement_dialects env env' engine statement ps :
  same_dialects env env' → validateStatement env' engine statement ps = validateStatement env engine statement ps.
Proof. intros (Hp & Ht & Hg). unfold validateStatement. by rewrite Hp, Ht, Hg. Qed.

Lemma with_without r : with_parameters (without_parameters r) (sq_Parameters r) = r.
Proof. by destruct r. Qed.

Lemma scope_cases s : scope_Validate s = true → s = QuerySavedStatementPersonal ∨ s = QuerySavedStatementSharedTemplate.
Proof. unfold scope_Validate. intros [H|H]%orb_prop; bool_inv; auto. Qed.

(** A transaction leaves its own rows, or none of them. *)
Lemma finish_cases {A} f s tx (v : A) :
  (finish f s tx v).2 = tx
  ∨ (finish f s tx v).2 = Library (li_rows s) (li_params s) (li_audits s) (li_next tx).
Proof. unfold finish. destruct (wf_call f); [by right|]. destruct (wf_commit f); auto. Qed.

Lemma finish_effect {A} env actor f s tx (v : A) :
  (li_next s ≤ li_next tx)%Z → library_effect env actor s tx → library_effect env actor s (finish f s tx v).2.
Proof. intros Hn He. destruct (finish_cases f s tx v) as [-> | ->]; [done|]. by apply effect_none. Qed.

Lemma effect_refl env actor s : library_effect env actor s s.
Proof. by apply effect_none. Qed.
#[export] Hint Resolve effect_refl finish_effect : chub.

Lemma saved_Validate_scope r scope :
  saved_request_Validate r (Some scope) = true ↔ saved_request_Validate r None = true ∧ scope_Validate scope = true.
Proof. unfold saved_request_Validate. rewrite !andb_true_iff. naive_solver. Qed.

Lemma create_effect env env' actor target r scope f s :
  same_dialects env env' → library_effect env actor s (Create env' actor target r scope f s).2.
Proof.
  intros Hd. unfold Create, CreateWithAudit. case_if as Ev; [auto with chub|]. case_if as Ea; [auto with chub|].
  destruct (_ ≫= _) as [?|?] eqn:E; [|auto with chub]. res_inv. case_if as Es; [auto with chub|]. bool_inv. cbn zeta.
  apply finish_effect; [cbn; lia|]. rewrite validateStatement_dialects with (env := env) in E2 by done.
  apply (effect_add env actor s (SavedRow target (au_ID actor) scope (without_parameters r))); [done| |].
  - unfold entitled. cbn. apply saved_Validate_scope in Ev as [_ [-> | ->]%scope_cases]; [done|].
    cbn in Ea. by apply negb_false_iff in Ea.
  - split; cbn [sr_content sr_scope]; rewrite ?with_without; [done|done|]. by eexists.
Qed.

Lemma GetByID_ok target id s stmt :
  GetByID target id s = Ok stmt →
  ∃ row, li_rows s !! id = Some row ∧ sr_target row = target
    ∧ length (default [] (li_params s !! id)) ≤ MaxSavedStatementParameters
    ∧ stmt = SavedStatement id target (sr_owner row) (sr_scope row) (sr_content row) (default [] (li_params s !! id)).
Proof.
  unfold GetByID. destruct (li_rows s !! id) as [row|] eqn:E; [|done]. case_if as Et; [done|]. cbn zeta.
  case_if as El; [done|]. intros [= <-]. bool_inv. exists row. subst. split_and!; [done|done|lia|done].
Qed.

Lemma authorize_entitled env actor target id s stmt :
  library_ok env s → GetByID target id s = Ok stmt → authorize actor stmt = Ok tt →
  ∃ row, li_rows s !! id = Some row ∧ entitled actor row ∧ sr_target row = target.
Proof.
  intros Hok (row & Hrow & <- & _ & ->)%GetByID_ok. unfold authorize, entitled. cbn.
  specialize (Hok id). rewrite Hrow in Hok. destruct (li_params s !! id) as [ps|]; [|done].
  destruct Hok as [_ [Hv _ _]]. apply saved_Validate_scope in Hv as [_ Hs%scope_cases]. intros H. exists row.
  split_and!; [done| |done].
  destruct Hs as [Hs|Hs]; rewrite Hs in *; cbn in *.
  - destruct (Z.eqb_spec (sr_owner row) (au_ID actor)); [done|discriminate H].
  - destruct (isAdmin actor); [done|discriminate H].
Qed.

Lemma update_effect env env' actor target id r f s :
  library_ok env s → same_dialects env env' → library_effect env actor s (Update env' actor target id r f s).2.
Proof.
  intros Hok Hd. unfold Update, UpdateWithAudit. case_if as Ev; [auto with chub|].
  destruct (_ ≫= _) as [?|?] eqn:E; [|auto with chub]. res_inv.
  match goal with H : authorize _ _ = Ok ?u |- _ => destruct u;
    destruct (authorize_entitled _ _ _ _ _ _ Hok ltac:(eassumption) H) as (row & Hrow & He & <-) end.
  rewrite Hrow. case_if as Ew; [auto with chub|]. case_if as Es; [auto with chub|].
  apply finish_effect; [done|]. bool_inv.
  match goal with H : validateStatement _ _ _ _ = true |- _ =>
    rewrite validateStatement_dialects with (env := env) in H by done end.
  specialize (Hok id). rewrite Hrow in Hok. destruct (li_params s !! id) as [ps|]; [|done].
  destruct Hok as [_ [Hv _ _]]. apply saved_Validate_scope in Hv as [_ Hs].
  apply (effect_change env actor s id row); try done.
  split; cbn [sr_content sr_scope]; rewrite ?with_without; [by apply saved_Validate_scope|done|]. by eexists.
Qed.

Lemma delete_effect env env' actor target id f s :
  library_ok env s → library_effect env actor s (Delete env' actor target id f s).2.
Proof.
  intros Hok. unfold Delete, DeleteWithAudit.
  destruct (_ ≫= _) as [?|?] eqn:E; [|auto with chub]. res_inv.
  match goal with H : authorize _ _ = Ok ?u |- _ => destruct u;
    destruct (authorize_entitled _ _ _ _ _ _ Hok ltac:(eassumption) H) as (row & Hrow & He & <-) end.
  rewrite Hrow. case_if as Ew; [auto with chub|]. apply finish_effect; [done|]. by apply effect_remove.
Qed.

Lemma step_effect env actor s s' :
  library_ok env s → library_step env actor s s' → library_effect env actor s s'.
Proof.
  intros Hok H. revert Hok. destruct H as [env' target r scope f t Hd|env' target id r f t Hd|env' target id f t Hd]; intros Hok.
  - by apply create_effect.
  - by apply update_effect.
  - by apply delete_effect.
Qed.

Lemma effect_ok env actor s s' : (0 < li_next s)%Z →
  library_ok env s → library_effect env actor s s' → library_ok env s' ∧ (0 < li_next s')%Z.
Proof.
  intros Hn Hok [t Hr Hp Ha Hle|row ps event Ho He Hst|id row row' ps event Hrow He Hst Ht Hw Hs|id row event Hrow He].
  - split; [|lia]. intros id. rewrite Hr, Hp. specialize (Hok id).
    destruct (li_rows s !! id), (li_params s !! id); try done. split; [lia|apply Hok].
  - split; [|cbn; lia]. intros i. cbn. specialize (Hok i). destruct (decide (li_next s = i)) as [<-|Hne].
    + rewrite !lookup_insert_eq. split; [lia|done].
    + rewrite !lookup_insert_ne by done. destruct (li_rows s !! i), (li_params s !! i); try done. split; [lia|apply Hok].
  - split; [|done]. intros i. cbn. specialize (Hok i). destruct (decide (id = i)) as [<-|Hne].
    + rewrite !lookup_insert_eq. rewrite Hrow in Hok. destruct (li_params s !! id); [|done]. split; [apply Hok|done].
    + by rewrite !lookup_insert_ne.
  - split; [|done]. intros i. cbn. specialize (Hok i). destruct (decide (id = i)) as [<-|Hne].
    + by rewrite !lookup_delete_eq.
    + by rewrite !lookup_delete_ne.
Qed.

Lemma reachable_ok env s :
  rtc (library_move env) empty_library s → library_ok env s ∧ (0 < li_next s)%Z.
Proof.
  assert (library_ok env empty_library ∧ (0 < li_next empty_library)%Z) as H0 by (split; [|done]; intros id; unfold empty_library; cbn [li_rows li_params]; by rewrite !lookup_empty).
  intros H. revert H0. induction H as [|s t u [actor Hstep] _ IH]; [done|]. intros [Hok Hn]. apply IH.
  apply (effect_ok env actor s); [done|done|]. by apply step_effect.
Qed.

Lemma ok_GetByID env s target id : library_ok env s →
  GetByID target id s = Err LibNotFound ∨
  ∃ row ps, li_rows s !! id = Some row ∧ li_params s !! id = Some ps ∧ sr_target row = target ∧ stored_ok env row ps
    ∧ GetByID target id s = Ok (SavedStatement id target (sr_owner row) (sr_scope row) (sr_content row) ps).
Proof.
  intros Hok. unfold GetByID. specialize (Hok id). destruct (li_rows s !! id) as [row|]; [|by left].
  destruct (li_params s !! id) as [ps|] eqn:Ep; [|done]. destruct Hok as [_ Hst]. case_if as Et; [by left|]. bool_inv.
  right. exists row, ps. split_and!; try done. cbn [default]. cbn zeta. case_if as El; [|by subst].
  destruct Hst as [Hv _ _]. unfold saved_request_Validate, validateSavedStatementParameters in Hv. bool_inv. cbn in *. lia.
Qed.

(** Whatever sequence of creates, updates and deletes the users make, failed
    transactions included, a statement that can be read back is one the whole
    validation accepts: its request bounds and scope, distinct parameter names,
    and the compile and guard checks of a dialect. In particular the reader's
    own limit on parameters is never what fails. *)
Theorem library_invariant env s target id :
  rtc (library_move env) empty_library s →
  GetByID target id s = Err LibNotFound
  ∨ ∃ stmt, GetByID target id s = Ok stmt ∧ ss_ID stmt = id ∧ ss_TargetResourceID stmt = target
    ∧ saved_request_Validate (with_parameters (ss_Content stmt) (ss_Parameters stmt)) (Some (ss_Scope stmt)) = true
    ∧ NoDup (td_Name <$> ss_Parameters stmt)
    ∧ ∃ engine, validateStatement env engine (sq_Statement (ss_Content stmt)) (ss_Parameters stmt) = true.
Proof.
  intros [Hok _]%reachable_ok. destruct (ok_GetByID env s target id Hok) as [H|(row & ps & _ & _ & _ & [Hv Hs He] & H)]; [by left|].
  right. eexists. split; [done|]. cbn. split_and!; try done.
  unfold storable in Hs. bool_inv. by cbn in *.
Qed.

(** C10: Only someone entitled to a statement changes it: its owner while it is
    personal, an admin while it is a shared template. Its target, owner and
    scope never change; a statement that appears belongs to the actor and is a
    shared template only if the actor is an admin; and the tables change only
    together with one audit event in the actor's name. *)
Theorem library_authorized env actor s s' :
  rtc (library_move env) empty_library s → library_step env actor s s' →
  (∀ id row, li_rows s !! id = Some row →
     (li_rows s' !! id = Some row ∧ li_params s' !! id = li_params s !! id)
     ∨ (entitled actor row
        ∧ (li_rows s' !! id = None
           ∨ ∃ content, li_rows s' !! id = Some (SavedRow (sr_target row) (sr_owner row) (sr_scope row) content))))
  ∧ (∀ id row, li_rows s !! id = None → li_rows s' !! id = Some row → sr_owner row = au_ID actor ∧ entitled actor row)
  ∧ ((li_rows s' = li_rows s ∧ li_params s' = li_params s ∧ li_audits s' = li_audits s)
     ∨ ∃ target event, li_audits s' = li_audits s ++ [(au_ID actor, target, event)]).
Proof.
  intros [Hok Hn]%reachable_ok Hstep. pose proof (step_effect _ _ _ _ Hok Hstep) as He. clear Hstep.
  destruct He as [t Hr Hp Ha _|row ps event Ho He Hst|i row row' ps event Hrow He Hst Ht Hw Hs|i row event Hrow He];
    cbn [li_rows li_params li_audits].
  - rewrite Hr, Hp, Ha. split_and!; [by left|intros id row -> [=]|by left].
  - split_and!; [| |right; eauto].
    + intros id row' Hrow'. left. specialize (Hok id). rewrite Hrow' in Hok.
      destruct (li_params s !! id) eqn:Ep; [|done]. rewrite !lookup_insert_ne, Ep by lia. done.
    + intros id row' Hnone. destruct (decide (li_next s = id)) as [<-|Hne].
      * rewrite lookup_insert_eq. by intros [= <-].
      * rewrite lookup_insert_ne, Hnone by done. done.
  - split_and!; [| |right; eauto].
    + intros id r Hr. destruct (decide (i = id)) as [<-|Hne]; [|left; by rewrite !lookup_insert_ne].
      rewrite Hrow in Hr. apply (inj Some) in Hr as <-. right. split; [done|]. right.
      rewrite lookup_insert_eq, <- Ht, <- Hw, <- Hs. exists (sr_content row'). by destruct row'.
    + intros id r Hnone. rewrite lookup_insert_ne, Hnone by congruence. done.
  - split_and!; [| |right; eauto].
    + intros id r Hr. destruct (decide (i = id)) as [<-|Hne]; [|left; by rewrite !lookup_delete_ne].
      rewrite Hrow in Hr. apply (inj Some) in Hr as <-. right. split; [done|]. left. by rewrite lookup_delete_eq.
    + intros id r Hnone. rewrite lookup_delete_ne, Hnone by congruence. done.
Qed.

(** ** Reading back, hiding *)

Definition untouched (s s' : library) : Prop :=
  li_rows s' = li_rows s ∧ li_params s' = li_params s ∧ li_audits s' = li_audits s.

Lemma finish_ok {A} f s tx (v a : A) s' : finish f s tx v = (Ok a, s') → a = v ∧ s' = tx.
Proof. unfold finish. destruct (wf_call f); [done|]. destruct (wf_commit f); try done. by intros [[= <-] <-]%pair_eq. Qed.

Lemma finish_err {A} f s tx (v : A) e s' :
  finish f s tx v = (Err e, s') → e = LibStore ∧ (untouched s s' ∨ (wf_commit f = CommitUnknown ∧ s' = tx)).
Proof.
  unfold finish. destruct (wf_call f); [by intros [[= <-] <-]%pair_eq; split; [|left]|].
  destruct (wf_commit f); try done; intros [[= <-] <-]%pair_eq; (split; [done|]); [by left|by right].
Qed.

Lemma valid_parameters r scope : saved_request_Validate r scope = true →
  length (sq_Parameters r) ≤ MaxSavedStatementParameters.
Proof. unfold saved_request_Validate, validateSavedStatementParameters. intros H. bool_inv. lia. Qed.

Lemma GetByID_written s id target owner scope r audits next :
  length (sq_Parameters r) ≤ MaxSavedStatementParameters →
  GetByID target id (Library (<[id := SavedRow target owner scope (without_parameters r)]> (li_rows s))
    (<[id := sq_Parameters r]> (li_params s)) audits next)
  = Ok (SavedStatement id target owner scope (without_parameters r) (sq_Parameters r)).
Proof.
  intros Hl. unfold GetByID. cbn [li_rows li_params]. rewrite !lookup_insert_eq. cbn [sr_target default].
  rewrite Z.eqb_refl. cbn [negb]. cbn zeta. case_if as E; [bool_inv; cbn in *; lia|done].
Qed.

Lemma create_read env actor target r scope f s id s' :
  Create env actor target r scope f s = (Ok id, s') →
  GetByID target id s' = Ok (SavedStatement id target (au_ID actor) scope (without_parameters r) (sq_Parameters r)).
Proof.
  unfold Create, CreateWithAudit. case_if as Ev; [done|]. case_if as Ea; [done|]. destruct (_ ≫= _); [|done].
  case_if as Es; [done|]. cbn zeta. intros [-> ->]%finish_ok. bool_inv. by eapply GetByID_written, valid_parameters.
Qed.

Lemma update_read env actor target id r f s s' :
  Update env actor target id r f s = (Ok tt, s') →
  ∃ old, GetByID target id s = Ok old
    ∧ GetByID target id s' = Ok (SavedStatement id target (ss_OwnerUserID old) (ss_Scope old) (without_parameters r) (sq_Parameters r)).
Proof.
  unfold Update, UpdateWithAudit. case_if as Ev; [done|]. destruct (_ ≫= _) as [?|?] eqn:E; [|done]. intros Hw. res_inv.
  match goal with H : GetByID _ _ _ = Ok ?old |- _ => exists old; destruct (GetByID_ok _ _ _ _ H) as (row & Hrow & <- & _ & Hold) end.
  revert Hw. rewrite Hrow. case_if as Ew; [done|]. case_if as Es; [done|]. intros [_ ->]%finish_ok. split; [done|]. bool_inv.
  rewrite Hold. by eapply GetByID_written, valid_parameters.
Qed.

Lemma delete_read env actor target id f s s' :
  Delete env actor target id f s = (Ok tt, s') → GetByID target id s' = Err LibNotFound.
Proof.
  unfold Delete, DeleteWithAudit. destruct (_ ≫= _) as [?|?] eqn:E; [|done]. intros Hw. res_inv. revert Hw.
  match goal with H : GetByID _ _ _ = Ok ?old |- _ => destruct (GetByID_ok _ _ _ _ H) as (row & Hrow & _) end.
  rewrite Hrow. case_if as Ew; [done|]. intros [_ ->]%finish_ok. unfold GetByID. cbn. by rewrite lookup_delete_eq.
Qed.

(** A failed request: nothing changed, unless its commit's answer was lost. *)
Definition failed_write {A} (f : write_fault) (s : library) (rs : result library_error A * library) : Prop :=
  match rs.1 with
  | Ok _ => True
  | Err e => untouched s rs.2 ∨ (e = LibStore ∧ wf_commit f = CommitUnknown)
  end.

Lemma failed_same {A} f s (e : library_error) : failed_write f s ((Err e : result library_error A), s).
Proof. by left. Qed.
#[export] Hint Resolve failed_same : chub.

Lemma finish_failed {A} f s tx (v : A) : failed_write f s (finish f s tx v).
Proof.
  unfold failed_write. destruct (finish f s tx v) as [[a|e] s'] eqn:E; [done|]. cbn.
  apply finish_err in E as [-> [?|[? _]]]; auto.
Qed.
#[export] Hint Resolve finish_failed : chub.

Lemma create_failed env actor target r scope f s : failed_write f s (Create env actor target r scope f s).
Proof. unfold Create, CreateWithAudit. cbn zeta. repeat case_match; auto with chub. Qed.
Lemma update_failed env actor target id r f s : failed_write f s (Update env actor target id r f s).
Proof. unfold Update, UpdateWithAudit. repeat case_match; auto with chub. Qed.
Lemma delete_failed env actor target id f s : failed_write f s (Delete env actor target id f s).
Proof. unfold Delete, DeleteWithAudit. repeat case_match; auto with chub. Qed.

(** What a create stores is what is read back under the returned id, an
    update replaces the content and the parameters and keeps the owner and the
    scope, a deleted statement is not found; and a request that fails leaves
    the tables and the audit log as they were, unless the answer of its commit
    was lost. *)
Theorem library_writes env actor target r scope f s :
  (∀ id s', Create env actor target r scope f s = (Ok id, s') →
     GetByID target id s' = Ok (SavedStatement id target (au_ID actor) scope (without_parameters r) (sq_Parameters r)))
  ∧ (∀ id s', Update env actor target id r f s = (Ok tt, s') →
     ∃ old, GetByID target id s = Ok old
       ∧ GetByID target id s' = Ok (SavedStatement id target (ss_OwnerUserID old) (ss_Scope old) (without_parameters r) (sq_Parameters r)))
  ∧ (∀ id s', Delete env actor target id f s = (Ok tt, s') → GetByID target id s' = Err LibNotFound)
  ∧ failed_write f s (Create env actor target r scope f s)
  ∧ (∀ id, failed_write f s (Update env actor target id r f s))
  ∧ (∀ id, failed_write f s (Delete env actor target id f s)).
Proof.
  split_and!; intros.
  - by eapply create_read.
  - by eapply update_read.
  - by eapply delete_read.
  - apply create_failed.
  - apply update_failed.
  - apply delete_failed.
Qed.

(** The library without one statement. *)
Definition hide (id : Z) (s : library) : library :=
  Library (delete id (li_rows s)) (delete id (li_params s)) (li_audits s) (li_next s).

(** Somebody else's personal statement is invisible: an actor who does not
    own it, admins included, gets from an update, a delete or a context restore
    of it exactly the answer a library without it gives, and changes nothing. *)
Theorem personal_hidden env actor target id r f s row :
  rtc (library_move env) empty_library s →
  li_rows s !! id = Some row → sr_scope row = QuerySavedStatementPersonal → sr_owner row ≠ au_ID actor →
  (Update env actor target id r f s).1 = (Update env actor target id r f (hide id s)).1
  ∧ (Update env actor target id r f s).2 = s
  ∧ (Delete env actor target id f s).1 = (Delete env actor target id f (hide id s)).1
  ∧ (Delete env actor target id f s).2 = s
  ∧ RestoreContext env actor target id s = RestoreContext env actor target id (hide id s).
Proof.
  intros [Hok _]%reachable_ok Hrow Hp Ho.
  assert (GetByID target id (hide id s) = Err LibNotFound) as Hgone.
  { unfold GetByID, hide. cbn [li_rows]. by rewrite lookup_delete_eq. }
  assert (∀ stmt, GetByID target id s = Ok stmt → ss_Scope stmt = QuerySavedStatementPersonal ∧ ss_OwnerUserID stmt = sr_owner row) as Hst.
  { intros stmt (row' & Hrow' & _ & _ & ->)%GetByID_ok. rewrite Hrow in Hrow'. by apply (inj Some) in Hrow' as <-. }
  assert (∀ stmt, GetByID target id s = Ok stmt → negb (ss_OwnerUserID stmt =? au_ID actor)%Z = true) as Hne.
  { intros stmt [_ ->]%Hst. apply negb_true_iff, Z.eqb_neq, Ho. }
  unfold Update, Delete, RestoreContext, authorize. rewrite Hgone.
  destruct (ok_GetByID env s target id Hok) as [-> | (row' & ps & _ & _ & _ & _ & Hget)].
  - destruct (negb (saved_request_Validate r None)), (lookupTarget env target); by split_and!.
  - rewrite Hget. pose proof (Hst _ Hget) as [Hs _]. pose proof (Hne _ Hget) as Hn.
    destruct (negb (saved_request_Validate r None)), (lookupTarget env target); cbn [mbind result_bind]; rewrite Hs, Hn; by split_and!.
Qed.

(** ** A sample library *)

Definition sample_library_env : library_env :=
  LibraryEnv (λ _, Some [sample_target]) (λ _ _, ReadNoRows) (sample_parser (gs "lower")) sample_template_parser
    (λ _, true) (λ _ _, Err AccessTargetNotFound) (λ _ _, true).
Definition alice : AuthenticatedUser := AuthUser 7 (gs "operator").
Definition root : AuthenticatedUser := AuthUser 8 adminRole.
Definition sample_saved_request : QuerySavedStatementRequest :=
  SavedRequest (gs "by id") (gs "select lower(x) where id = :id") sample_definitions [] [].

Definition alice_creates := Create sample_library_env alice 3 sample_saved_request QuerySavedStatementPersonal no_write_fault.
Definition sample_library : library := (alice_creates empty_library).2.

Lemma sample_library_step : library_step sample_library_env alice empty_library sample_library.
Proof. by apply step_create. Qed.
Lemma sample_library_reachable : rtc (library_move sample_library_env) empty_library sample_library.
Proof. apply rtc_once. exists alice. apply sample_library_step. Qed.
Lemma sample_library_run : alice_creates empty_library = (Ok 1%Z, sample_library).
Proof. vm_compute. reflexivity. Qed.
Definition alice_row : saved_row := SavedRow 3 7 QuerySavedStatementPersonal (without_parameters sample_saved_request).
Lemma sample_library_row : li_rows sample_library !! 1%Z = Some alice_row.
Proof. vm_compute. reflexivity. Qed.

(** A name of 121 characters, one of them a leading space: accepted by the
    request, refused by the table. *)
Example padded_name_refused :
  let r := SavedRequest (" "%char :: repeat "n"%char 120) (gs "select lower(x) where id = :id") sample_definitions [] [] in
  saved_request_Validate r (Some QuerySavedStatementPersonal) = true
  ∧ (Create sample_library_env alice 3 r QuerySavedStatementPersonal no_write_fault empty_library).1 = Err LibStore.
Proof. split; vm_compute; reflexivity. Qed.

Lemma library_invariant_witness : ∃ stmt, GetByID 3 1 sample_library = Ok stmt ∧ ss_ID stmt = 1%Z.
Proof.
  assert (is_ok (GetByID 3 1 sample_library) = true) as Hok by (vm_compute; reflexivity).
  destruct (library_invariant sample_library_env sample_library 3 1 sample_library_reachable) as [H|(stmt & H & Hid & _)].
  - rewrite H in Hok. discriminate Hok.
  - exists stmt. split; [exact H|exact Hid].
Defined.

Lemma library_authorized_witness :
  let s' := (Delete sample_library_env root 3 1 no_write_fault sample_library).2 in
  li_rows s' !! 1%Z = Some alice_row.
Proof.
  cbn zeta. destruct (library_authorized sample_library_env root sample_library
    (Delete sample_library_env root 3 1 no_write_fault sample_library).2 sample_library_reachable
    ltac:(by apply step_delete)) as (H & _).
  destruct (H 1%Z _ sample_library_row) as [[H1 _]|[He _]]; [exact H1|vm_compute in He; discriminate He].
Defined.

Lemma library_writes_witness :
  GetByID 3 1 sample_library
  = Ok (SavedStatement 1 3 7 QuerySavedStatementPersonal (without_parameters sample_saved_request) sample_definitions).
Proof.
  destruct (library_writes sample_library_env alice 3 sample_saved_request QuerySavedStatementPersonal no_write_fault
    empty_library) as [H _].
  exact (H 1%Z sample_library sample_library_run).
Defined.

Lemma personal_hidden_witness :
  (Update sample_library_env root 3 1 sample_saved_request no_write_fault sample_library).2 = sample_library
  ∧ RestoreContext sample_library_env root 3 1 sample_library = RestoreContext sample_library_env root 3 1 (hide 1 sample_library).
Proof.
  destruct (personal_hidden sample_library_env root 3 1 sample_saved_request no_write_fault sample_library alice_row
    sample_library_reachable sample_library_row eq_refl ltac:(done)) as (_ & H1 & _ & _ & H2).
  split; [exact H1|exact H2].
Defined.
