(* ===== verification/MysqlSaved.v ===== *)
(** * The MySQL/TiDB saved-statement entry

    [internal/service/query_template_execution_service.go] with the digest of
    [query_mysql_execution.go] and the request of
    [internal/model/query_saved_statement.go]: a statement is re-read, its
    submitted values are decoded and checked, the claim covers their typed
    form, and the compiled template runs through the guarded chain. *)
From S2P Require Import Prelude GoText GoJson ClaimDigest ExecModel ResultContract ClaimStore TargetAccess QueryGuard PgLexer.
From S2P Require Import TemplateCompiler MysqlAttempt MysqlEntries MysqlDurable Disclosure SavedLibrary.

(** ** The request *)

Definition MaxQuerySavedStatementExecuteValuesSize : nat := 16 * 1024.

Record QuerySavedStatementExecuteRequest : Type := SavedExecuteRequest {
  xq_Values : gmap bytes bytes; (** raw messages *)
  xq_MaxRows : Z;
  xq_Pagination : option QueryExecutePaginationRequest;
  xq_ClientExecutionID : bytes;
  xq_Capabilities : list bytes;
  xq_ScopeDatabase : bytes;
}.

Definition saved_execute_Validate (r : QuerySavedStatementExecuteRequest) : bool :=
  negb (xq_MaxRows r <? 0)%Z
  && match xq_Pagination r with Some p => is_ok (ValidatePagination (pr_Page p) (pr_PageSize p)) | None => true end
  && is_ok (validateExecutionRequestKey (xq_ClientExecutionID r))
  && (bool_decide (xq_Values r = ∅)
      || match marshal_size (xq_Values r) with
         | Some size => size <=? MaxQuerySavedStatementExecuteValuesSize
         | None => false
         end).

(** ** Values *)

Definition code_missing : bytes := gs "missing".
Definition code_unknown : bytes := gs "unknown".
Definition code_invalid : bytes := gs "invalid".
Definition code_oversized : bytes := gs "oversized".

Definition decodeTemplateValue (d : TemplateParameterDefinition) (raw : bytes) : result bytes tvalue :=
  let typed t := td_Type d =?b t in
  match decode_scalar raw with
  | Some (JString text) =>
    if typed TemplateParameterString then
      if templateMaxValueBytes <? length text then Err code_oversized else Ok (TString text)
    else if typed TemplateParameterDecimal then
      if templateMaxValueBytes <? length text then Err code_oversized
      else if decimal_pattern text then Ok (TString text) else Err code_invalid
    else Err code_invalid
  | Some (JNumber text) =>
    if typed TemplateParameterInteger then match parse_int text with Some n => Ok (TInt64 n) | None => Err code_invalid end
    else Err code_invalid
  | Some (JBool b) => if typed TemplateParameterBoolean then Ok (TBool b) else Err code_invalid
  | None => Err code_invalid
  end.

(** Values and field codes, threaded through the definitions in order. *)
Definition validate_value (raw : gmap bytes bytes) (acc : gmap bytes tvalue * gmap bytes bytes)
    (d : TemplateParameterDefinition) : gmap bytes tvalue * gmap bytes bytes :=
  let '(values, fields) := acc in
  match raw !! td_Name d with
  | None => (values, <[td_Name d := code_missing]> fields)
  | Some message =>
    match decodeTemplateValue d message with
    | Err code => (values, <[td_Name d := code]> fields)
    | Ok v => (<[td_Name d := v]> values, fields)
    end
  end.
Definition validateTemplateValues (definitions : list TemplateParameterDefinition) (raw : gmap bytes bytes)
    : gmap bytes tvalue * gmap bytes bytes :=
  let unknown := (λ _, code_unknown) <$> filter (λ nv, nv.1 ∉ td_Name <$> definitions) raw in
  foldl (validate_value raw) (∅, unknown) definitions.

(** [None]: a type assertion fails. *)
Definition digest_value (d : TemplateParameterDefinition) (v : tvalue) : option ClaimDigestNamedValue :=
  let named nv := NamedValue (td_Name d) (nv_Kind nv) (nv_Text nv) in
  if td_Type d =?b TemplateParameterInteger then
    match v with TInt64 n => Some (named (ClaimDigestInteger n)) | _ => None end
  else if td_Type d =?b TemplateParameterDecimal then
    match v with TString text => Some (named (ClaimDigestDecimal text)) | _ => None end
  else if td_Type d =?b TemplateParameterBoolean then
    match v with TBool b => Some (named (ClaimDigestBoolean b)) | _ => None end
  else match v with TString text => Some (named (ClaimDigestString text)) | _ => None end.

Fixpoint digest_values (definitions : list TemplateParameterDefinition) (values : gmap bytes tvalue)
    : option (list ClaimDigestNamedValue) :=
  match definitions with
  | [] => Some []
  | d :: definitions =>
    match values !! td_Name d with
    | None => digest_values definitions values
    | Some v => nv ← digest_value d v; rest ← digest_values definitions values; Some (nv :: rest)
    end
  end.
Definition mysqlSavedDigest (statementID : Z) (definitions : list TemplateParameterDefinition)
    (values : gmap bytes tvalue) (page pageSize maxRows : Z) : option bytes :=
  named ← digest_values definitions values;
  Some (DigestSavedStatement (SavedInput [] [] statementID named page pageSize maxRows)).

(** ** The entry *)

(** The reader's failures: [errors.Is] a cancellation or deadline, or no rows. *)
Record read_failure : Type := ReadFailure { rf_error : exec_error; rf_no_rows : bool }.

(** What [WithTemplateExecution] wires, and the template form of the executor. *)
Record saved_service : Type := SavedService {
  sx_read : Z → Z → result read_failure QuerySavedStatement;
  sx_compiler : template_parser;
  sx_query : bytes → GuardedTemplateStatement → result exec_error QueryDatabaseResult;
}.

(** The snapshot is the requested statement, of a known scope, and visible. *)
Definition visible (actorUserID targetID statementID : Z) (stmt : QuerySavedStatement) : bool :=
  negb (negb (ss_ID stmt =? statementID)%Z || negb (ss_TargetResourceID stmt =? targetID)%Z
        || negb (scope_Validate (ss_Scope stmt))
        || ((ss_Scope stmt =?b QuerySavedStatementPersonal) && negb (ss_OwnerUserID stmt =? actorUserID)%Z)).

Definition saved_input (stmt : QuerySavedStatement) (values : gmap bytes tvalue) : TemplateStatementInput :=
  TemplateInput (sq_Statement (ss_Content stmt)) (ss_Parameters stmt) values.
Definition request_page (req : QuerySavedStatementExecuteRequest) : option (Z * Z) :=
  (λ p, (pr_Page p, pr_PageSize p)) <$> xq_Pagination req.

Section saved.
Context {S : Type} `{!EvidenceStore S} {Plan : Type} (now : nat → Z) (svc_ : mysql_service Plan).

(** Once the statement and its values are known. *)
Definition saved_execute (sx : saved_service) (access : BoundTargetAccess) (attempt : mysqlExecutionAttempt)
    (statementID : Z) (stmt : QuerySavedStatement) (values : gmap bytes tvalue) (req : QuerySavedStatementExecuteRequest)
    : svc S (result svc_error QueryExecuteResponse) :=
  let target := ba_Target access in
  let '(page, pageSize) := default (0, 0)%Z (request_page req) in
  let maxRows := resolved_max_rows svc_ (tg_Environment target) (xq_MaxRows req) in
  match mysqlSavedDigest statementID (ss_Parameters stmt) values page pageSize maxRows with
  | None => fails SPanic
  | Some digest =>
    admitted ← admit_claim now attempt (xq_ClientExecutionID req) digest (query_timeout (tg_Environment target));
    match admitted with
    | Err e => fails e
    | Ok attempt =>
      match CompileAndGuard (sx_compiler sx) (sv_parser svc_) (sv_guard svc_) (saved_input stmt values)
              (request_page req) maxRows with
      | Err TemplatePanic => fails SPanic
      | Err _ =>
        reject now (sv_sanitized svc_) attempt None (gs "validation_failed")
          (gs "saved statement validation failed") STemplateCompile
      | Ok guarded =>
        executeGuardedChain now (sv_sanitized svc_) (sv_apply svc_) attempt (gt_query guarded)
          (sv_preflight svc_ (ba_dsn access) (tg_ResourceID target) (gt_query guarded))
          (sx_query sx (ba_dsn access) guarded) (xq_Capabilities req) page pageSize
      end
    end
  end.

Definition saved_read (sx : saved_service) (access : BoundTargetAccess) (attempt : mysqlExecutionAttempt)
    (actorUserID targetID statementID : Z) (req : QuerySavedStatementExecuteRequest)
    : svc S (result svc_error QueryExecuteResponse) :=
  let not_found := reject now (sv_sanitized svc_) attempt None (gs "saved_statement_not_found")
                     (gs "saved statement not found") SSavedStatementNotFound in
  match sx_read sx targetID statementID with
  | Err f =>
    if xe_canceled (rf_error f) || xe_deadline (rf_error f) then
      let '(status, sent, code, safeMsg) := classifyExecutorError (rf_error f) in
      rec ← buildAttemptRecord now (sv_sanitized svc_) attempt None status 0 code safeMsg;
      persist_then attempt rec (SBare sent)
    else if rf_no_rows f then not_found
    else
      rec ← buildAttemptRecord now (sv_sanitized svc_) attempt None QueryExecutionFailed 0
              (gs "query_backend_error") (gs "saved statement read failed");
      persist_then attempt rec SBackendFailure
  | Ok stmt =>
    if negb (visible actorUserID targetID statementID stmt) then not_found
    else
      let '(values, fields) := validateTemplateValues (ss_Parameters stmt) (xq_Values req) in
      if decide (fields = ∅) then saved_execute sx access attempt statementID stmt values req
      else
        rec ← buildAttemptRecord now (sv_sanitized svc_) attempt None QueryExecutionRejected 0
                (gs "validation_failed") (gs "template parameter validation failed");
        persist_then attempt rec (STemplateValues fields)
  end.

Definition saved_validated (sx : saved_service) (actorUserID targetID statementID : Z)
    (req : QuerySavedStatementExecuteRequest) : svc S (result svc_error QueryExecuteResponse) :=
  let identity := Identity QueryExecutionActorUser actorUserID in
  start ← tick now;
  match Resolve (sv_access svc_) targetID with
  | Err e =>
    access_failure e (λ target msg err, svc_reject now target identity (gs "query_not_allowed") msg err start)
  | Ok access =>
    saved_read sx access (new_attempt (ba_Target access) identity mysqlEntrySaved start)
      actorUserID targetID statementID req
  end.

(** [wired] is [None] without a statement reader and compiler. *)
Definition ExecuteSavedStatement (wired : option saved_service) (actorUserID targetID statementID : Z)
    (req : QuerySavedStatementExecuteRequest) : svc S (entry_answer QueryExecuteResponse) :=
  let identity := Identity QueryExecutionActorUser actorUserID in
  if (actorUserID =? 0)%Z || (targetID =? 0)%Z || (statementID =? 0)%Z || negb (is_ok (identity_Validate identity))
     || negb (saved_execute_Validate req)
  then answer (fails SValidation)
  else match wired with
  | None => answer (fails SNotWired)
  | Some sx =>
    match dispatch svc_ targetID with
    | Some (RoutedToPG target) =>
      if ValidateIdentifierShape (xq_ScopeDatabase req) true then mret (RoutedToPG target) else answer (fails SValidation)
    | Some r => mret r
    | None =>
      if negb (xq_ScopeDatabase req =?b []) then answer (fails SValidation)
      else answer (saved_validated sx actorUserID targetID statementID req)
    end
  end.
End saved.

(** ** Checked values *)

Lemma decode_compiles d m v : decodeTemplateValue d m = Ok v → is_ok (compileTemplateValue d v) = true.
Proof.
  unfold decodeTemplateValue, compileTemplateValue. cbn zeta. destruct (decode_scalar m) as [[text|text|b]|]; [| | |done].
  - case_if as E1; [case_if as E2; [done|]; intros [= <-]; by rewrite E2|]. case_if as E2; [|done].
    case_if as E3; [done|]. case_if as E4; [|done]. intros [= <-]. by rewrite E3, E4.
  - case_if as E1; [|done]. destruct (parse_int text) as [n|]; [|done]. intros [= <-].
    apply bool_decide_eq_true in E1 as ->. by vm_compute.
  - case_if as E1; [|done]. intros [= <-]. apply bool_decide_eq_true in E1 as ->. by vm_compute.
Qed.

Lemma decode_digests d m v : decodeTemplateValue d m = Ok v → is_Some (digest_value d v).
Proof.
  unfold decodeTemplateValue, digest_value. cbn zeta. destruct (decode_scalar m) as [[text|text|b]|]; [| | |done].
  - case_if as E1; [|case_if as E2; [|done]].
    + case_if as E2; [done|]. intros [= <-]. apply bool_decide_eq_true in E1 as ->. vm_compute. by eexists.
    + case_if as E3; [done|]. case_if as E4; [|done]. intros [= <-]. apply bool_decide_eq_true in E2 as ->. vm_compute. by eexists.
  - case_if as E1; [|done]. destruct (parse_int text) as [n|]; [|done]. intros [= <-]. by eexists.
  - case_if as E1; [|done]. intros [= <-]. apply bool_decide_eq_true in E1 as ->. vm_compute. by eexists.
Qed.

Lemma fold_values raw ds values fields values' :
  NoDup (td_Name <$> ds) → foldl (validate_value raw) (values, fields) ds = (values', ∅) →
  fields = ∅
  ∧ (∀ d, d ∈ ds → ∃ m v, raw !! td_Name d = Some m ∧ decodeTemplateValue d m = Ok v ∧ values' !! td_Name d = Some v)
  ∧ (∀ n, n ∉ td_Name <$> ds → values' !! n = values !! n).
Proof.
  revert values fields. induction ds as [|d ds IH]; intros values fields Hnd; cbn [foldl].
  { intros [= -> ->]. split_and!; [done|by intros d ?%elem_of_nil|done]. }
  rewrite fmap_cons, NoDup_cons in Hnd. destruct Hnd as [Hd Hnd]. unfold validate_value at 2.
  destruct (raw !! td_Name d) as [m|] eqn:Em.
  2: { intros (Hf & _)%IH; [|done]. exfalso. by apply (insert_non_empty fields (td_Name d) code_missing). }
  destruct (decodeTemplateValue d m) as [v|code] eqn:Ev.
  2: { intros (Hf & _)%IH; [|done]. exfalso. by apply (insert_non_empty fields (td_Name d) code). }
  intros (-> & Hin & Hout)%IH; [|done]. split_and!; [done| |].
  - intros d' [->|Hd']%elem_of_cons; [|by apply Hin]. exists m, v. split_and!; try done.
    by rewrite Hout, lookup_insert_eq.
  - intros n [Hn Hn']%not_elem_of_cons. rewrite Hout by done. by apply lookup_insert_ne.
Qed.

Lemma digest_values_some ds values :
  (∀ d, d ∈ ds → ∃ v, values !! td_Name d = Some v ∧ is_Some (digest_value d v)) → is_Some (digest_values ds values).
Proof.
  induction ds as [|d ds IH]; intros Hin; cbn [digest_values]; [by eexists|].
  destruct (Hin d ltac:(by left)) as (v & -> & [nv ->]). cbn [mbind option_bind].
  destruct IH as [rest ->]; [|by eexists]. intros d' Hd'. apply Hin. by right.
Qed.

(** Values without a field code are ones the compiler and the digest take. *)
Lemma validated_values ds raw values :
  NoDup (td_Name <$> ds) → validateTemplateValues ds raw = (values, ∅) →
  values_accepted ds values ∧ is_Some (digest_values ds values) ∧ (∀ n, is_Some (raw !! n) → n ∈ td_Name <$> ds).
Proof.
  intros Hnd. unfold validateTemplateValues. intros (Hu & Hin & Hout)%fold_values; [|done]. split_and!.
  - split.
    + intros n Hn. destruct (decide (n ∈ td_Name <$> ds)) as [|Hni]; [done|].
      rewrite Hout, lookup_empty in Hn by done. by destruct Hn.
    + apply Forall_forall. intros d Hd. destruct (Hin d Hd) as (m & v & _ & Hv & Hl). exists v.
      split; [done|by eapply decode_compiles].
  - apply digest_values_some. intros d Hd. destruct (Hin d Hd) as (m & v & _ & Hv & Hl). exists v.
    split; [done|by eapply decode_digests].
  - intros n [m Hm]. destruct (decide (n ∈ td_Name <$> ds)) as [|Hni]; [done|].
    apply fmap_empty_inv in Hu. by destruct (map_filter_empty_not_lookup _ _ n m Hu Hni).
Qed.

(** ** The contract *)

Section contract.
Context {S : Type} `{!EvidenceStore S} {Plan : Type} (now : nat → Z) (svc_ : mysql_service Plan).
Context (sx : saved_service) (actorUserID targetID statementID : Z) (req : QuerySavedStatementExecuteRequest).

(** The statement the entry runs, with the values it decoded. *)
Definition read_statement (stmt : QuerySavedStatement) (values : gmap bytes tvalue) : Prop :=
  sx_read sx targetID statementID = Ok stmt
  ∧ ss_ID stmt = statementID ∧ ss_TargetResourceID stmt = targetID ∧ scope_Validate (ss_Scope stmt) = true
  ∧ (ss_Scope stmt = QuerySavedStatementPersonal → ss_OwnerUserID stmt = actorUserID)
  ∧ validateTemplateValues (ss_Parameters stmt) (xq_Values req) = (values, ∅).

Definition saved_rows (access : BoundTargetAccess) : Z :=
  resolved_max_rows svc_ (tg_Environment (ba_Target access)) (xq_MaxRows req).

Definition saved_digest (access : BoundTargetAccess) (digest : bytes) : Prop :=
  ∃ stmt values page pageSize, read_statement stmt values
    ∧ (page, pageSize) = default (0, 0)%Z (request_page req)
    ∧ mysqlSavedDigest statementID (ss_Parameters stmt) values page pageSize (saved_rows access) = Some digest.

(** A released page: the disclosed page of that statement, compiled with those
    values and guarded. *)
Definition saved_released (a : mysqlExecutionAttempt) (resp : QueryExecuteResponse) (rec : QueryExecutionRecord)
    (w : stored Z) : Prop :=
  ∃ access stmt values guarded, Resolve (sv_access svc_) targetID = Ok access ∧ read_statement stmt values
    ∧ CompileAndGuard (sx_compiler sx) (sv_parser svc_) (sv_guard svc_) (saved_input stmt values)
        (request_page req) (saved_rows access) = Ok guarded
    ∧ released (sv_apply svc_) a (xq_Capabilities req)
        (sv_preflight svc_ (ba_dsn access) targetID (gt_query guarded)) (sx_query sx (ba_dsn access) guarded) resp rec w.

Definition saved_outcome : result svc_error QueryExecuteResponse → list store_call → Prop :=
  entry_outcome (xq_Capabilities req) (xq_ClientExecutionID req)
    (own_attempt targetID (Identity QueryExecutionActorUser actorUserID) mysqlEntrySaved)
    (claims_request svc_ targetID (Identity QueryExecutionActorUser actorUserID) saved_digest) saved_released.

(** The type assertions of the digest fail only on a statement that declares
    the same parameter twice; then nothing has been written yet. *)
Definition saved_answer (r : result svc_error QueryExecuteResponse) (t : list store_call) : Prop :=
  saved_outcome r t
  ∨ (r = Err SPanic ∧ t = []
     ∧ ∃ stmt, sx_read sx targetID statementID = Ok stmt ∧ ¬ NoDup (td_Name <$> ss_Parameters stmt)).

Lemma visible_ok stmt : sx_read sx targetID statementID = Ok stmt → visible actorUserID targetID statementID stmt = true →
  ∀ values, validateTemplateValues (ss_Parameters stmt) (xq_Values req) = (values, ∅) → read_statement stmt values.
Proof.
  intros Hr Hv values Hvals. unfold visible in Hv. apply negb_true_iff in Hv.
  apply orb_false_elim in Hv as [[[H1 H2]%orb_false_elim H3]%orb_false_elim H4]. bool_inv. split_and!; try done.
  intros Hs. rewrite bool_decide_eq_true_2 in H4 by done. cbn in H4. by bool_inv.
Qed.

Lemma before_claim {A} a key mine asks (good : _ → A → _) (m : svc S (result svc_error A)) :
  mine a → at_ownedKey a = [] → triple m (evidence_of a (xq_Capabilities req) (λ _ _ _, False)) →
  triple m (entry_outcome (xq_Capabilities req) key mine asks good).
Proof.
  intros Hm Ho H. eapply triple_mono; [exact H|]. intros r t Hev.
  destruct r as [x|e]; [by destruct Hev as (?&?&_&_&_&?)|]. by apply (outcome_before_claim _ _ _ _ _ a).
Qed.

Lemma saved_execute_spec access attempt stmt values :
  parser_ok (sx_compiler sx) → Resolve (sv_access svc_) targetID = Ok access →
  attempt = new_attempt (ba_Target access) (Identity QueryExecutionActorUser actorUserID) mysqlEntrySaved (at_start attempt) →
  read_statement stmt values →
  triple (saved_execute now svc_ sx access attempt statementID stmt values req) saved_answer.
Proof.
  intros Hp Hres Ha Hread. unfold saved_execute. destruct (default _ _) as [page pageSize] eqn:Epage. cbv zeta.
  assert (tg_ResourceID (ba_Target access) = targetID) as Hid by (apply (resolve_target (sv_access svc_)); by rewrite Hres).
  fold (saved_rows access). destruct (mysqlSavedDigest _ _ _ _ _ _) as [digest|] eqn:Ed.
  2: { apply triple_ret. right. split_and!; try done. exists stmt. split; [apply Hread|]. intros Hnd.
       destruct (validated_values _ _ _ Hnd (proj2 (proj2 (proj2 (proj2 (proj2 Hread)))))) as (_ & [named Hn] & _).
       unfold mysqlSavedDigest in Ed. by rewrite Hn in Ed. }
  eapply triple_mono; [|intros r t Ho; left; exact Ho].
  apply admitted_outcome; rewrite Ha; try done.
  { intros c (Ht & _ & Hi & Hdb & Hsc & Hdg & _). split_and!; try done; [by rewrite Ht|]. exists access. split; [done|].
    rewrite Hdg. by exists stmt, values, page, pageSize. }
  intros a' Ha' Hs. destruct (CompileAndGuard _ _ _ _ _ _) as [guarded|e] eqn:Eg.
  - rewrite Hid. eapply triple_mono; [by apply executeGuardedChain_spec|].
    intros r t (rec & w & Ht & Hat & Hpr & Hr). exists rec, w. split_and!; try done.
    destruct r as [resp|]; [|done]. by exists access, stmt, values, guarded.
  - destruct e; try (by apply reject_spec). exfalso. by apply (CompileAndGuard_safe _ Hp) in Eg.
Qed.

Lemma saved_read_spec access attempt :
  parser_ok (sx_compiler sx) → Resolve (sv_access svc_) targetID = Ok access →
  attempt = new_attempt (ba_Target access) (Identity QueryExecutionActorUser actorUserID) mysqlEntrySaved (at_start attempt) →
  triple (saved_read now svc_ sx access attempt actorUserID targetID statementID req) saved_answer.
Proof.
  intros Hp Hres Ha. unfold saved_read. cbv zeta.
  assert (tg_ResourceID (ba_Target access) = targetID) as Hid by (apply (resolve_target (sv_access svc_)); by rewrite Hres).
  assert (own_attempt targetID (Identity QueryExecutionActorUser actorUserID) mysqlEntrySaved attempt) as Hown by (by rewrite Ha).
  assert (at_ownedKey attempt = []) as Hkey by (by rewrite Ha).
  assert (∀ m, triple m (evidence_of attempt (xq_Capabilities req) (λ _ _ _, False)) → triple m saved_answer) as Hearly.
  { intros m Hm. eapply triple_mono; [|intros r t Ho; left; exact Ho]. by apply (before_claim attempt). }
  assert (triple (reject now (sv_sanitized svc_) attempt None (gs "saved_statement_not_found")
    (gs "saved statement not found") SSavedStatementNotFound) saved_answer) as Hmissing.
  { apply Hearly, reject_spec; [by left|done..]. }
  destruct (sx_read sx targetID statementID) as [stmt|f] eqn:Er.
  - destruct (visible actorUserID targetID statementID stmt) eqn:Evis; cbn [negb]; [|exact Hmissing].
    destruct (validateTemplateValues _ _) as [values fields] eqn:Ev. case_decide as Ef.
    + apply saved_execute_spec; try done. subst fields. by apply (visible_ok stmt).
    + apply Hearly. change (triple (reject now (sv_sanitized svc_) attempt None (gs "validation_failed")
        (gs "template parameter validation failed") (STemplateValues fields))
        (evidence_of attempt (xq_Capabilities req) (λ (_ : QueryExecuteResponse) _ _, False))).
      apply reject_spec; [by left|done..].
  - case_if as Ec; [|case_if as En; [exact Hmissing|]]; apply Hearly.
    + apply (navPreparationOutcome_spec now _ attempt _ _ (rf_error f)). by left.
    + eapply triple_bind; [apply buildAttemptRecord_spec|]. intros rec ? (-> & Hat & Hpr & Est & _).
      apply persist_then_spec; try done; [by left|by rewrite Est].
Qed.

Lemma saved_entry_outcome :
  parser_ok (sx_compiler sx) →
  triple (ExecuteSavedStatement now svc_ (Some sx) actorUserID targetID statementID req)
    (answered svc_ targetID saved_answer).
Proof.
  intros Hp. unfold ExecuteSavedStatement. cbv zeta.
  assert (triple (answer (fails SValidation)) (answered svc_ targetID saved_answer)) as Hrefused.
  { apply answer_spec. apply triple_ret. left. apply outcome_unrecorded. by left. }
  destruct (_ || _); [exact Hrefused|].
  destruct (dispatch svc_ targetID) as [r|] eqn:Edisp.
  { apply dispatch_routes in Edisp as [->|(target & -> & Hr)].
    - apply triple_ret. left. apply outcome_unrecorded. right. by left.
    - case_if as Es; [|exact Hrefused]. by apply triple_ret. }
  case_if as Es; [exact Hrefused|]. apply answer_spec.
  unfold saved_validated. cbv zeta. eapply triple_bind; [apply triple_tick|]. intros start ? ->. cbn [app].
  destruct (Resolve (sv_access svc_) targetID) as [access|e] eqn:Er.
  - by apply saved_read_spec.
  - eapply triple_mono; [|intros r t Ho; left; exact Ho].
    apply (denied_entry svc_ targetID); [done|]. intros target status Ht.
    eapply triple_mono; [by apply (svc_reject_spec now _ _ mysqlEntrySaved)|].
    intros r t (e' & -> & Hev).
    by apply (outcome_before_claim _ _ _ _ _ (Attempt target (Identity QueryExecutionActorUser actorUserID) start mysqlEntrySaved [] [])).
Qed.
End contract.

(** C4: The same contract for saved statements: one record per outcome, without
    any statement text; the claim covers the typed values of exactly the
    statement that was read; and a page is released only for the requested
    statement of this target, shared or the actor's own, compiled with values
    that were all accepted. *)
Theorem saved_contract {S} `{!EvidenceStore S} {Plan} now (svc_ : mysql_service Plan) sx actorUserID targetID statementID req :
  parser_ok (sx_compiler sx) →
  triple (S := S) (ExecuteSavedStatement now svc_ (Some sx) actorUserID targetID statementID req)
    (answered svc_ targetID (saved_answer svc_ sx actorUserID targetID statementID req)).
Proof. apply saved_entry_outcome. Qed.

(** Policies govern what the saved entry releases, as for the others: each
    cell is null, the mask marker, a literal, or the value of a column whose
    stored policy for this target is raw. *)
Theorem saved_cells_governed {S} `{!EvidenceStore S} now (svc_ : mysql_service DisclosurePlan) env sx actorUserID targetID statementID
    req resp (st : svc_state S) :
  parser_ok (sx_compiler sx) →
  (ExecuteSavedStatement now (governed_service svc_ env) (Some sx) actorUserID targetID statementID req st).1 = Answered (Ok resp) →
  governed_page env targetID (rs_Columns resp) (rs_Rows resp).
Proof.
  intros Hp H. pose proof (saved_entry_outcome now (governed_service svc_ env) sx actorUserID targetID statementID req Hp st) as Ho.
  destruct (ExecuteSavedStatement _ _ _ _ _ _ _ st) as [r st']. cbn in H. subst r. destruct Ho as (t & _ & _ & [Ho|[Ho _]]); [|done].
  apply outcome_good in Ho as (a & rec & w & access & stmt & values & guarded & _ & _ & _ & _ & _ & _ & Hd).
  eapply (disclosed_governed env targetID) in Hd; [exact Hd|]. intros plan Hpl. by apply preflight_ok in Hpl as (_ & Hg & _).
Qed.

(** ** Execution from the library *)

Definition library_read (lib : library) (targetID statementID : Z) : result read_failure QuerySavedStatement :=
  map_err (λ e, ReadFailure plain_error (match e with LibNotFound => true | _ => false end)) (GetByID targetID statementID lib).
Definition library_service (lib : library) (compiler : template_parser)
    (query : bytes → GuardedTemplateStatement → result exec_error QueryDatabaseResult) : saved_service :=
  SavedService (library_read lib) compiler query.

(** Executing somebody else's personal statement is indistinguishable from
    executing one that does not exist: the same answer, the same history
    record, the same claims. *)
Theorem execution_hidden {S} `{!EvidenceStore S} {Plan} now (svc_ : mysql_service Plan) env lib compiler query actorUserID targetID
    id row req (st : svc_state S) :
  rtc (library_move env) empty_library lib →
  li_rows lib !! id = Some row → sr_scope row = QuerySavedStatementPersonal → sr_owner row ≠ actorUserID →
  ExecuteSavedStatement now svc_ (Some (library_service lib compiler query)) actorUserID targetID id req st
  = ExecuteSavedStatement now svc_ (Some (library_service (hide id lib) compiler query)) actorUserID targetID id req st.
Proof.
  intros [Hok _]%reachable_ok Hrow Hp Ho. unfold ExecuteSavedStatement. cbv zeta.
  destruct (_ || _); [done|]. destruct (dispatch svc_ targetID); [done|]. case_if as Es; [done|].
  enough (∀ access attempt st, saved_read now svc_ (library_service lib compiler query) access attempt actorUserID targetID id req st
    = saved_read now svc_ (library_service (hide id lib) compiler query) access attempt actorUserID targetID id req st) as Hread.
  { unfold answer, saved_validated. cbv [mbind svc_bind]. destruct (tick now st) as [start st'].
    destruct (Resolve _ _); [by rewrite Hread|done]. }
  intros access attempt st'. unfold saved_read, library_service, library_read. cbn [sx_read].
  assert (GetByID targetID id (hide id lib) = Err LibNotFound) as ->.
  { unfold GetByID, hide. cbn [li_rows]. by rewrite lookup_delete_eq. }
  destruct (ok_GetByID env lib targetID id Hok) as [-> | (row' & ps & Hrow' & _ & Ht & _ & ->)]; [done|].
  rewrite Hrow in Hrow'. apply (inj Some) in Hrow' as <-. cbn [map_err].
  assert (visible actorUserID targetID id (SavedStatement id targetID (sr_owner row) (sr_scope row) (sr_content row) ps) = false) as ->.
  { unfold visible. cbn [ss_ID ss_TargetResourceID ss_Scope ss_OwnerUserID]. rewrite Hp. apply negb_false_iff, orb_true_iff. right.
    by apply andb_true_intro; split; [|apply negb_true_iff, Z.eqb_neq]. }
  done.
Qed.

Lemma evidence_no_panic {A} a caps (good : A → _) t : ¬ evidence_of a caps good (Err SPanic) t.
Proof. intros (rec & w & _ & _ & _ & _ & [H|[status H]] & _); discriminate H. Qed.

Lemma outcome_no_panic {A} caps key mine asks good t : ¬ @entry_outcome A caps key mine asks good (Err SPanic) t.
Proof.
  intros H. inversion H; subst.
  - match goal with H : unrecorded _ |- _ => by destruct H as [H|[H|H]] end.
  - by eapply evidence_no_panic.
  - by eapply evidence_no_panic.
  - match goal with H : decides_claim ?e = _ |- _ => by destruct e end.
  - match goal with H : claim_failed _ _ _ |- _ => destruct H as (rec & w & _ & _ & _ & _ & _ & _ & H); by destruct w end.
  - by eapply evidence_no_panic.
Qed.

Lemma library_read_nodup env lib targetID id stmt :
  library_ok env lib → GetByID targetID id lib = Ok stmt → NoDup (td_Name <$> ss_Parameters stmt).
Proof.
  intros Hok Hget. destruct (ok_GetByID env lib targetID id Hok) as [H|(row & ps & _ & _ & _ & [_ Hs _] & H)]; rewrite Hget in H; [done|].
  apply (inj Ok) in H as ->. unfold storable in Hs. bool_inv. by cbn in *.
Qed.

Lemma guard_after_saving sp config statement maxRows : (0 ≤ maxRows)%Z →
  is_ok (GuardSavedStatement sp statement) = true → is_ok (Guard sp config statement maxRows) = true.
Proof.
  intros Hm. unfold GuardSavedStatement, Guard. destruct (trimQueryStatement statement) as [t|]; [|done]. cbn [mbind result_bind].
  rewrite (proj2 (Z.ltb_ge maxRows 0)) by lia. destruct (parseSingleStatement sp t) as [[s|c|s| |]|]; try done.
  cbn [mbind result_bind]. unfold guardSelect. by destruct (validateSelect s).
Qed.

(** What the checks at saving time promise at execution time. A stored
    statement that was accepted for MySQL or TiDB, given values the entry
    accepts, always compiles, and what it compiles to passes the execution
    guard at every row limit; and an execution from the library never panics. *)
Theorem stored_statement_runs {S} `{!EvidenceStore S} {Plan} now (svc_ : mysql_service Plan) env lib query actorUserID targetID
    id req config maxRows (st : svc_state S) :
  rtc (library_move env) empty_library lib → parser_ok (le_template_parser env) → (0 ≤ maxRows)%Z →
  (∀ stmt values engine, GetByID targetID id lib = Ok stmt → isPGEngine engine = false →
     validateStatement env engine (sq_Statement (ss_Content stmt)) (ss_Parameters stmt) = true →
     validateTemplateValues (ss_Parameters stmt) (xq_Values req) = (values, ∅) →
     ∃ compiled, Compile (le_template_parser env) (saved_input stmt values) = Ok compiled
       ∧ is_ok (Guard (le_parser env) config (cs_Statement compiled) maxRows) = true)
  ∧ (ExecuteSavedStatement now svc_ (Some (library_service lib (le_template_parser env) query)) actorUserID targetID id req st).1
    ≠ Answered (Err SPanic).
Proof.
  intros [Hok _]%reachable_ok Hp Hm. split.
  - intros stmt values engine Hget Heng Hval Hv. pose proof (library_read_nodup _ _ _ _ _ Hok Hget) as Hnd.
    destruct (validated_values _ _ _ Hnd Hv) as (Hacc & _). unfold validateStatement in Hval. rewrite Heng in Hval.
    destruct (validateDeclarations _ _ _) as [c|] eqn:Ed; [|done].
    destruct (compile_complete (le_template_parser env) (saved_input stmt values) c Ed Hacc) as [args Hc].
    exists (Compiled (cs_Statement c) args). split; [done|]. cbn [cs_Statement]. by apply guard_after_saving.
  - pose proof (saved_entry_outcome now svc_ (library_service lib (le_template_parser env) query) actorUserID targetID id req Hp st) as H.
    destruct (ExecuteSavedStatement _ _ _ _ _ _ _ st) as [r st']. destruct H as (t & _ & _ & H). cbn. intros ->.
    destruct H as [H|(_ & _ & stmt & Hr & Hnd)]; [by apply outcome_no_panic in H|].
    apply Hnd. cbn in Hr. unfold library_read in Hr. destruct (GetByID targetID id lib) as [stmt'|] eqn:Hget; [|done].
    apply (inj Ok) in Hr as <-. by eapply library_read_nodup.
Qed.

(** ** A run of the saved entry *)

Definition sample_saved_service (lib : library) : saved_service :=
  library_service lib sample_template_parser (λ _ _, Ok sample_page).
Definition sample_saved_execute (value : bytes) : QuerySavedStatementExecuteRequest :=
  SavedExecuteRequest {[ gs "id" := value ]} 0 None (gs "key-2") [] [].
Definition sample_saved_run (actor : Z) (value : bytes) :=
  ExecuteSavedStatement sample_clock sample_service (Some (sample_saved_service sample_library)) actor 3 1
    (sample_saved_execute value) sample_start.

Example saved_runs :
  (match (sample_saved_run 7 (gs "42")).1 with Answered r => is_ok r | RoutedToPG _ => false end) = true
  ∧ (sample_saved_run 7 (gs "4.2")).1 = Answered (Err (STemplateValues {[ gs "id" := code_invalid ]}))
  ∧ (sample_saved_run 8 (gs "42")).1 = Answered (Err SSavedStatementNotFound).
Proof. split_and!; vm_compute; reflexivity. Qed.

Lemma saved_contract_witness :
  parser_ok sample_template_parser
  ∧ triple (S := faulty_db) (ExecuteSavedStatement sample_clock sample_service (Some (sample_saved_service sample_library)) 7 3 1
      (sample_saved_execute (gs "42")))
      (answered sample_service 3 (saved_answer sample_service (sample_saved_service sample_library) 7 3 1 (sample_saved_execute (gs "42")))).
Proof. split; [exact sample_parser_ok|]. apply saved_contract. exact sample_parser_ok. Defined.

Lemma execution_hidden_witness :
  sample_saved_run 8 (gs "42")
  = ExecuteSavedStatement sample_clock sample_service (Some (sample_saved_service (hide 1 sample_library))) 8 3 1
      (sample_saved_execute (gs "42")) sample_start.
Proof.
  exact (execution_hidden sample_clock sample_service sample_library_env sample_library sample_template_parser (λ _ _, Ok sample_page)
    8 3 1 alice_row (sample_saved_execute (gs "42")) sample_start sample_library_reachable sample_library_row eq_refl ltac:(done)).
Defined.

Lemma stored_statement_runs_witness : (sample_saved_run 7 (gs "42")).1 ≠ Answered (Err SPanic).
Proof.
  exact (proj2 (stored_statement_runs sample_clock sample_service sample_library_env sample_library (λ _ _, Ok sample_page)
    7 3 1 (sample_saved_execute (gs "42")) sample_config 10 sample_start sample_library_reachable sample_parser_ok ltac:(done))).
Defined.

Definition governed_saved_run :=
  ExecuteSavedStatement sample_clock (governed_service sample_ungoverned (sample_disclosure_env sample_policies))
    (Some (sample_saved_service sample_library)) 7 3 1 (sample_saved_execute (gs "42")) sample_start.
Definition masked_saved_response : QueryExecuteResponse :=
  ExecuteResponse 1 QueryExecutionSuccess 3 (gs "TiDB")
    [ResultColumn (gs "id") (gs "BIGINT") false ResultDisclosureMaskedNoCopy false] (Some [[CString maskedReplacement]]) 1
    (Some [[false]]) false 0 100 1005 None.
Lemma governed_saved_run_ok : governed_saved_run.1 = Answered (Ok masked_saved_response).
Proof. vm_compute. reflexivity. Qed.

Lemma saved_cells_governed_witness :
  governed_page (sample_disclosure_env sample_policies) 3 (rs_Columns masked_saved_response) (rs_Rows masked_saved_response).
Proof.
  exact (saved_cells_governed sample_clock sample_ungoverned (sample_disclosure_env sample_policies)
    (sample_saved_service sample_library) 7 3 1 (sample_saved_execute (gs "42")) masked_saved_response sample_start
    sample_parser_ok governed_saved_run_ok).
Defined.
