(* ===== verification/PgPagination.v ===== *)
(** * The PostgreSQL execution window

    [internal/pgsql/pagination.go]: the root LIMIT and OFFSET of a statement,
    the page the client asks for and the platform's row budget become one
    execution window, written back into the root SELECT. The parse tree is the
    parser's; the model keeps the part of the root the window reads and writes. *)
From S2P Require Import Prelude GoText ExecModel.

(** ** Rejections *)

(** [pgsql.RejectError]: the code callers branch on, and its fixed message. *)
Record RejectError : Type := Reject { re_Code : bytes; re_Message : bytes }.
#[export] Instance reject_eq_dec : EqDecision RejectError.
Proof. solve_decision. Defined.

Definition pageOutOfRange : RejectError := Reject (gs "page_out_of_range") (gs "pgsql: page out of range").
Definition limitUnsupported : RejectError :=
  Reject (gs "unsupported_limit_offset_form") (gs "pgsql: unsupported LIMIT/OFFSET form").
Definition invalidOptions : RejectError := Reject (gs "validation_failed") (gs "pgsql: invalid pagination options").
Definition notOneSelect : RejectError :=
  Reject (gs "query_not_allowed") (gs "pgsql: expected a single SELECT statement").

(** ** The root SELECT *)

Inductive LimitOption : Type :=
  | LIMIT_OPTION_UNDEFINED | LIMIT_OPTION_DEFAULT | LIMIT_OPTION_COUNT | LIMIT_OPTION_WITH_TIES.

(** The value of a constant node. *)
Inductive const_value : Type :=
  | A_Const_Ival (z : Z)
  | A_Const_Fval (s : bytes)
  | A_Const_Other.

(** A LIMIT or OFFSET expression; [None] around it is the absent clause. *)
Inductive limit_node : Type :=
  | AConst (isnull : bool) (val : const_value)
  | NotAConst.

Record root_select : Type := RootSelect {
  sel_LimitOption : LimitOption;
  sel_LimitCount : option limit_node;
  sel_LimitOffset : option limit_node;
}.

(** The parsed statements; [None] inside is a statement that is no SELECT. *)
Abbreviation parse_tree := (option (list (option root_select))).

Record PageOptions : Type := PageOpts { po_Page : Z; po_PageSize : Z; po_MaxRows : Z }.

Record PageWindow : Type := Window {
  pw_Page : Z;
  pw_PageSize : Z;
  pw_RowLimit : Z;
  pw_Browsable : Z;
  pw_PageStart : Z;
  pw_FetchCount : Z;
  pw_FetchOffset : Z;
  pw_BudgetLimited : bool;
}.

Record PageResult : Type := PageRes { pg_RowCount : Z; pg_HasMore : bool; pg_BudgetReached : bool }.
#[export] Instance page_result_eq_dec : EqDecision PageResult.
Proof. solve_decision. Defined.

(** ** Integer literals *)

(** The digit a byte stands for in any base up to sixteen. *)
Definition page_digit (c : byte) : option Z :=
  if in_range 48 57 c then Some (bv c - 48)%Z
  else if in_range 97 102 c then Some (bv c - 97 + 10)%Z
  else if in_range 65 70 c then Some (bv c - 65 + 10)%Z
  else None.

Definition underscore : byte := "_"%char.

(** The loop of [pageLiteralInt64]; the quotient is over nonnegative numbers. *)
Fixpoint literal_loop (base : Z) (s : bytes) (value : Z) (digit : bool) : option Z :=
  match s with
  | [] => if digit then Some value else None
  | c :: s =>
    if c =?b underscore then if negb digit then None else literal_loop base s value false
    else match page_digit c with
    | None => None
    | Some d =>
      if (base <=? d)%Z || ((max_int64 - d) ÷ base <? value)%Z then None
      else literal_loop base s (to_int64 (to_int64 (value * base) + d)) true
    end
  end.

(** The base a radix prefix announces, and the text after the prefix and its
    optional separator. *)
Definition radix_prefix (s : bytes) : Z * bytes :=
  let after := λ rest : bytes, match rest with c :: t => if c =?b underscore then t else rest | [] => rest end in
  match s with
  | z :: r :: rest =>
    if z =?b "0"%char then
      if (r =?b "x"%char) || (r =?b "X"%char) then (16%Z, after rest)
      else if (r =?b "o"%char) || (r =?b "O"%char) then (8%Z, after rest)
      else if (r =?b "b"%char) || (r =?b "B"%char) then (2%Z, after rest)
      else (10%Z, s)
    else (10%Z, s)
  | _ => (10%Z, s)
  end.

Definition pageLiteralInt64 (s : bytes) : option Z :=
  let '(base, body) := radix_prefix s in literal_loop base body 0 false.

Definition pageConstInt64 (n : Z) : limit_node :=
  if ((- 2 ^ 31 <=? n) && (n <=? 2 ^ 31 - 1))%Z then AConst false (A_Const_Ival n)
  else AConst false (A_Const_Fval (format_int n)).

(** The literal and whether it is NULL. *)
Definition limitConstInt (n : option limit_node) (allowNull : bool) : result RejectError (Z * bool) :=
  match n with
  | None => Ok (0%Z, false)
  | Some NotAConst => Err limitUnsupported
  | Some (AConst true _) => if allowNull then Ok (0%Z, true) else Err limitUnsupported
  | Some (AConst false val) =>
    v ← match val with
        | A_Const_Ival z => Ok z
        | A_Const_Fval s => match pageLiteralInt64 s with Some v => Ok v | None => Err limitUnsupported end
        | A_Const_Other => Err limitUnsupported
        end;
    if (v <? 0)%Z then Err limitUnsupported else Ok (v, false)
  end.

(** ** Checked arithmetic *)

Definition checkedMul (a b : Z) : option Z :=
  if negb (a =? 0)%Z && negb (b =? 0)%Z && ((max_int64 ÷ b <? a)%Z || (a <? min_int64 ÷ b)%Z) then None
  else Some (to_int64 (a * b)).

Definition checkedAdd (a b : Z) : option Z :=
  if ((0 <? b)%Z && (max_int64 - b <? a)%Z) || ((b <? 0)%Z && (a <? min_int64 - b)%Z) then None
  else Some (to_int64 (a + b)).

(** ** The window *)

Definition allowedPageSize (n : Z) : bool := existsb (λ s, (n =? s)%Z) AllowedPageSizes.

Definition supported_option (o : LimitOption) : bool :=
  match o with LIMIT_OPTION_WITH_TIES => false | _ => true end.

(** The rewritten root clause of a window. *)
Definition write_window (w : PageWindow) : root_select :=
  RootSelect LIMIT_OPTION_COUNT (Some (pageConstInt64 (pw_FetchCount w)))
    (if (pw_FetchOffset w =? 0)%Z then None else Some (pageConstInt64 (pw_FetchOffset w))).

(** The window and the root clause the tree is left with. *)
Definition PaginatePG (tree : parse_tree) (opts : PageOptions) : result RejectError (PageWindow * root_select) :=
  if (po_Page opts <? 1)%Z then Err pageOutOfRange
  else if negb (allowedPageSize (po_PageSize opts)) || (po_MaxRows opts <=? 0)%Z then Err invalidOptions
  else match tree with
  | Some [Some sel] =>
    if negb (supported_option (sel_LimitOption sel)) then Err limitUnsupported
    else
      '(limit, limNull) ← limitConstInt (sel_LimitCount sel) true;
      let unbounded := match sel_LimitCount sel with None => true | Some _ => false end || limNull in
      '(offset, _) ← limitConstInt (sel_LimitOffset sel) false;
      let browsable := if negb unbounded && (limit <? po_MaxRows opts)%Z then limit else po_MaxRows opts in
      match checkedMul (to_int64 (po_Page opts - 1)) (po_PageSize opts) with
      | None => Err pageOutOfRange
      | Some pageStart =>
        let budgetLimited := unbounded || (po_MaxRows opts <? limit)%Z in
        w ← (if (browsable =? 0)%Z then
               if negb (po_Page opts =? 1)%Z then Err pageOutOfRange
               else Ok (Window (po_Page opts) (po_PageSize opts) 0 browsable 0 0 offset budgetLimited)
             else if (browsable <=? pageStart)%Z then Err pageOutOfRange
             else match checkedAdd offset pageStart with
             | None => Err pageOutOfRange
             | Some fetchOffset =>
               let remaining := to_int64 (browsable - pageStart) in
               Ok (Window (po_Page opts) (po_PageSize opts) (Z.min (po_PageSize opts) remaining) browsable pageStart
                     (Z.min (to_int64 (po_PageSize opts + 1)) remaining) fetchOffset budgetLimited)
             end);
        Ok (w, write_window w)
      end
  | _ => Err notOneSelect
  end.

(** [PageWindow.Result]; [None] is the window error. *)
Definition window_Result (w : PageWindow) (fetchedRows : Z) : option PageResult :=
  if (fetchedRows <? 0)%Z || (pw_FetchCount w <? fetchedRows)%Z then None
  else Some (PageRes (Z.min fetchedRows (pw_RowLimit w)) (pw_RowLimit w <? fetchedRows)%Z
    (pw_BudgetLimited w && (0 <? pw_RowLimit w)%Z
     && (to_int64 (pw_PageStart w + pw_RowLimit w) =? pw_Browsable w)%Z && (pw_RowLimit w <=? fetchedRows)%Z)).

(** ** What a literal denotes *)

(** Digits in a base, a single underscore allowed between two of them. *)
Inductive numeral (base : Z) : bytes → list Z → Prop :=
  | numeral_last c d : page_digit c = Some d → (d < base)%Z → numeral base [c] [d]
  | numeral_digit c d s ds : page_digit c = Some d → (d < base)%Z → numeral base s ds → numeral base (c :: s) (d :: ds)
  | numeral_sep c d s ds :
      page_digit c = Some d → (d < base)%Z → numeral base s ds → numeral base (c :: underscore :: s) (d :: ds).

Definition horner (base a : Z) (ds : list Z) : Z := foldl (λ a d, a * base + d)%Z a ds.

(** The literal [s] is the number [v]. *)
Definition denotes (s : bytes) (v : Z) : Prop :=
  ∃ ds, numeral (radix_prefix s).1 (radix_prefix s).2 ds ∧ v = horner (radix_prefix s).1 0 ds.

Lemma int64_small z : (min_int64 ≤ z ≤ max_int64)%Z → to_int64 z = z.
Proof. unfold to_int64, min_int64, max_int64. intros. rewrite Z.mod_small; lia. Qed.

Lemma page_digit_range c d : page_digit c = Some d → (0 ≤ d < 16)%Z ∧ c ≠ underscore.
Proof.
  unfold page_digit. intros H. split.
  - repeat case_match; try done; injection H as <-;
      match goal with E : in_range _ _ _ = true |- _ => apply in_range_spec in E; lia end.
  - intros ->. by vm_compute in H.
Qed.

Lemma horner_ge base a ds : (0 < base)%Z → (0 ≤ a)%Z → Forall (λ d, 0 ≤ d)%Z ds → (a ≤ horner base a ds)%Z.
Proof.
  intros Hb. revert a. induction ds as [|d ds IH]; intros a Ha Hds; cbn; [done|].
  inversion Hds; subst. etrans; [|apply IH; [nia|done]]. nia.
Qed.

Lemma numeral_digits base s ds : numeral base s ds → Forall (λ d, 0 ≤ d)%Z ds.
Proof. induction 1 as [c d H|c d s ds H|c d s ds H]; apply page_digit_range in H; constructor; done || lia. Qed.

(** The guard before each step is exact: it fails just when the step overflows. *)
Lemma step_guard base value d :
  (0 < base)%Z → (0 ≤ d)%Z → (d ≤ max_int64)%Z →
  ((max_int64 - d) ÷ base <? value)%Z = true ↔ (max_int64 < value * base + d)%Z.
Proof.
  intros Hb Hd Hm. rewrite Z.ltb_lt, Z.quot_div_nonneg by lia.
  pose proof (Z.div_mod (max_int64 - d) base ltac:(lia)). pose proof (Z.mod_pos_bound (max_int64 - d) base ltac:(lia)). nia.
Qed.

(** The rest of a literal after some digits: nothing, more digits, or a separator and more digits. *)
Definition literal_rest (base : Z) (s : bytes) (value : Z) (digit : bool) (v : Z) : Prop :=
  (digit = true ∧ s = [] ∧ v = value)
  ∨ ∃ t ds, (s = t ∨ (digit = true ∧ s = underscore :: t)) ∧ numeral base t ds ∧ v = horner base value ds
    ∧ (v ≤ max_int64)%Z.

Lemma literal_loop_digit base c d s value digit :
  (1 < base ≤ 16)%Z → (0 ≤ value ≤ max_int64)%Z → page_digit c = Some d →
  literal_loop base (c :: s) value digit =
    (if (base <=? d)%Z || (max_int64 <? value * base + d)%Z then None else literal_loop base s (value * base + d) true).
Proof.
  intros Hb Hv Hd. pose proof (page_digit_range _ _ Hd) as [Hr Hne]. cbn [literal_loop].
  rewrite bool_decide_eq_false_2, Hd by done.
  assert (d ≤ max_int64)%Z by (unfold max_int64; lia).
  pose proof (step_guard base value d ltac:(lia) ltac:(lia) ltac:(done)) as Hg.
  destruct (base <=? d)%Z; [done|]. cbn [orb].
  destruct (_ <? value)%Z eqn:E1, (max_int64 <? _)%Z eqn:E2; bool_inv; try done.
  - destruct Hg as [Hg _]. specialize (Hg eq_refl). lia.
  - destruct Hg as [_ Hg]. specialize (Hg E2). congruence.
  - rewrite (int64_small (value * base)), int64_small; [done|unfold min_int64; nia|unfold min_int64; nia].
Qed.

Lemma numeral_cons base c s ds :
  numeral base (c :: s) ds ↔
  ∃ d ds', page_digit c = Some d ∧ (d < base)%Z ∧ ds = d :: ds'
    ∧ ((s = [] ∧ ds' = []) ∨ ∃ t, (s = t ∨ s = underscore :: t) ∧ numeral base t ds').
Proof.
  split.
  - inversion 1; subst; eauto 10.
  - intros (d & ds' & Hd & Hlt & -> & [[-> ->]|(t & [->| ->] & Hn)]); by constructor.
Qed.

(** A digit moves into the value; the rest must not overflow it. *)
Lemma literal_rest_digit base c d s value digit v :
  (1 < base)%Z → (0 ≤ value)%Z → page_digit c = Some d →
  literal_rest base (c :: s) value digit v ↔
  (d < base)%Z ∧ (value * base + d ≤ max_int64)%Z ∧ literal_rest base s (value * base + d) true v ∧ (v ≤ max_int64)%Z.
Proof.
  intros Hb Hv Hd. destruct (page_digit_range _ _ Hd) as [Hr Hne]. unfold literal_rest. split.
  - intros [(_ & ? & _)|(t & ds & [<-|[_ [= ? _]]] & Hn & -> & Hle)]; [done| |done].
    apply numeral_cons in Hn as (d' & ds' & ? & ? & -> & Hs). simplify_eq. cbn [horner foldl] in *.
    fold (horner base (value * base + d) ds') in *.
    assert (value * base + d ≤ horner base (value * base + d) ds')%Z.
    { apply horner_ge; [lia|nia|]. destruct Hs as [[_ ->]|(t & _ & Hn)]; [done|by eapply numeral_digits]. }
    split_and!; [done|lia| |done]. destruct Hs as [[-> ->]|(t & Ht & Hn)]; [by left|right].
    exists t, ds'. split_and!; [destruct Ht; auto|done..].
  - intros (Hlt & _ & Hrest & Hle). right. destruct Hrest as [(_ & -> & ->)|(t & ds & Ht & Hn & -> & _)].
    + exists [c], [d]. split_and!; [by left|by constructor|done|done].
    + exists (c :: s), (d :: ds). split_and!; [by left|apply numeral_cons|done|done].
      exists d, ds. split_and!; [done..|right]. exists t. destruct Ht as [->|[_ ->]]; auto.
Qed.

Lemma numeral_not_separator base s ds : ¬ numeral base (underscore :: s) ds.
Proof. intros (d & ? & Hd & _)%numeral_cons. by vm_compute in Hd. Qed.

Lemma literal_loop_spec base s value digit v :
  (1 < base ≤ 16)%Z → (0 ≤ value ≤ max_int64)%Z →
  literal_loop base s value digit = Some v ↔ literal_rest base s value digit v ∧ (v ≤ max_int64)%Z.
Proof.
  intros Hb. revert value digit. induction s as [|c s IH]; intros value digit Hv.
  - cbn. split.
    + destruct digit; [|done]. intros [= ->]. split; [by left|lia].
    + intros [[(-> & _ & ->)|(t & ds & [<-|[_ ?]] & Hn & _)] _]; [done|inversion Hn|done].
  - destruct (decide (c = underscore)) as [->|Hc].
    + cbn [literal_loop]. rewrite bool_decide_eq_true_2 by done. destruct digit; cbn [negb].
      * rewrite IH by done. apply and_iff_compat_r. unfold literal_rest. split.
        -- intros [[? _]|(t & ds & [<-|[? _]] & Hn & Hr)]; [done| |done]. right. exists s, ds. auto.
        -- intros [(_ & ? & _)|(t & ds & [<-|[_ [= ->]]] & Hn & Hr)]; [done| |right; exists t, ds; auto].
           by apply numeral_not_separator in Hn.
      * split; [done|]. intros [[[? _]|(t & ds & [<-|[? _]] & Hn & _)] _]; [done| |done].
        by apply numeral_not_separator in Hn.
    + destruct (page_digit c) as [d|] eqn:Hd.
      * pose proof (page_digit_range _ _ Hd). rewrite (literal_loop_digit base c d), (literal_rest_digit base c d) by (done || lia).
        destruct (base <=? d)%Z eqn:Ed, (max_int64 <? _)%Z eqn:Eo; bool_inv; cbn [orb];
          try (split; [done|intros [(?&?&_) _]; lia]). rewrite IH by nia. tauto.
      * cbn [literal_loop]. rewrite bool_decide_eq_false_2, Hd by done. split; [done|].
        intros [[(_ & ? & _)|(t & ds & [<-|[_ [= ? _]]] & Hn & _)] _]; [done| |done].
        apply numeral_cons in Hn as (d & ? & ? & _). congruence.
Qed.

Lemma radix_base s : (1 < (radix_prefix s).1 ≤ 16)%Z.
Proof. unfold radix_prefix. repeat case_match; cbn; lia. Qed.

(** The literal reader is exact: it accepts a LIMIT or OFFSET literal just
    when it is a numeral in its announced base, with separators only between
    digits, whose value fits a 64-bit integer, and then returns that value; no
    intermediate product wraps. *)
Theorem page_literal_exact s v :
  pageLiteralInt64 s = Some v ↔ denotes s v ∧ (v ≤ max_int64)%Z.
Proof.
  unfold pageLiteralInt64, denotes. pose proof (radix_base s) as Hb. destruct (radix_prefix s) as [base body]. cbn in *.
  rewrite literal_loop_spec by (done || unfold max_int64; lia). unfold literal_rest. split.
  - intros [[[? _]|(t & ds & [<-|[? _]] & Hn & -> & _)] Hle]; [done| |done]. eauto.
  - intros [(ds & Hn & ->) Hle]. split; [right; exists body, ds; auto|done].
Qed.

(** ** The clause the window writes *)

Lemma digit_page_digit c : is_digit c = true → page_digit c = Some (bv c - 48)%Z ∧ (bv c - 48 < 10)%Z.
Proof.
  unfold is_digit, page_digit. intros H. rewrite H. apply in_range_spec in H. split; [done|lia].
Qed.

Lemma decimal_prefix s : forallb is_digit s = true → radix_prefix s = (10%Z, s).
Proof.
  destruct s as [|z [|r s]]; [done..|]. cbn. intros H. bool_inv. unfold radix_prefix.
  assert (∀ x, is_digit x = false → r ≠ x) as Hx by (intros x Hx ->; congruence).
  rewrite !(bool_decide_eq_false_2 (r = _)) by (apply Hx; vm_compute; reflexivity). by case_bool_decide.
Qed.

Lemma decimal_numeral s : s ≠ [] → forallb is_digit s = true → numeral 10 s ((λ c, bv c - 48)%Z <$> s).
Proof.
  induction s as [|c s IH]; [done|]. cbn. intros _ H. bool_inv.
  destruct (digit_page_digit c) as [Hd Hlt]; [done|]. destruct s; [by constructor|]. constructor; [done|done|]. by apply IH.
Qed.

Lemma horner_digits a s : horner 10 a ((λ c, bv c - 48)%Z <$> s) = foldl (λ acc c, acc * 10 + (bv c - 48))%Z a s.
Proof. unfold horner. revert a. induction s as [|c s IH]; intros a; cbn; [done|]. by rewrite <- IH. Qed.

Lemma page_literal_format n : (0 ≤ n ≤ max_int64)%Z → pageLiteralInt64 (format_uint n) = Some n.
Proof.
  intros Hn. apply page_literal_exact. split; [|lia].
  assert (forallb is_digit (format_uint n) = true) as Hd by (by apply digits_all_digits).
  assert (format_uint n ≠ []) as Hne by (apply digits_nonempty; lia).
  unfold denotes. rewrite (decimal_prefix _ Hd). cbn [fst snd].
  eexists. split; [by apply decimal_numeral|].
  rewrite horner_digits. symmetry. apply digits_value_format. unfold max_int64, max_uint64 in *. lia.
Qed.

(** What the window writes is read back as the same number. *)
Lemma const_read_back n allowNull :
  (0 ≤ n ≤ max_int64)%Z → limitConstInt (Some (pageConstInt64 n)) allowNull = Ok (n, false).
Proof.
  intros Hn. assert (n <? 0 = false)%Z as Hneg by (apply Z.ltb_ge; lia).
  unfold pageConstInt64, limitConstInt, format_int. rewrite Hneg.
  destruct (_ && _); [|rewrite page_literal_format by done]; cbn [mbind result_bind]; by rewrite Hneg.
Qed.

(** The rows PostgreSQL returns for a clause over the rows of the statement
    without it: OFFSET rows are skipped, then LIMIT rows are returned; an absent
    or NULL limit is no limit. *)
Definition clause_rows {A} (sel : root_select) (rows : list A) : option (list A) :=
  match limitConstInt (sel_LimitCount sel) true, limitConstInt (sel_LimitOffset sel) false with
  | Ok (limit, limNull), Ok (offset, _) =>
    let tail := drop (Z.to_nat offset) rows in
    Some (match sel_LimitCount sel with
          | None => tail
          | Some _ => if limNull then tail else take (Z.to_nat limit) tail
          end)
  | _, _ => None
  end.

Definition in_int64 (z : Z) : Prop := (min_int64 ≤ z ≤ max_int64)%Z.

(** A LIMIT or OFFSET the reader accepts is a nonnegative [int64]. *)
Definition wf_node (n : option limit_node) : Prop :=
  match n with Some (AConst false (A_Const_Ival z)) => (- 2 ^ 31 ≤ z < 2 ^ 31)%Z | _ => True end.

Lemma limit_range n allowNull v isnull :
  wf_node n → limitConstInt n allowNull = Ok (v, isnull) → (0 ≤ v ≤ max_int64)%Z.
Proof.
  assert (0 ≤ 0 ≤ max_int64)%Z as H0 by (unfold max_int64; lia).
  unfold limitConstInt. destruct n as [[[|] val|]|]; intros Hw H; try done; [by destruct allowNull; simplify_eq| |by simplify_eq].
  destruct val as [z|s|]; cbn in H; [|destruct (pageLiteralInt64 s) as [z|] eqn:E; [|done]; cbn in H|done];
    (destruct (z <? 0)%Z eqn:Ez; [done|]; simplify_eq; bool_inv).
  - cbn in Hw. unfold max_int64. lia.
  - apply page_literal_exact in E as [_ E]. lia.
Qed.

Lemma checked_add_spec a b c :
  in_int64 a → (0 ≤ b ≤ max_int64)%Z → checkedAdd a b = Some c ↔ c = (a + b)%Z ∧ (a + b ≤ max_int64)%Z.
Proof.
  unfold in_int64, checkedAdd, min_int64. intros Ha Hb. unfold max_int64 in *.
  rewrite (proj2 (Z.ltb_ge b 0)), andb_false_l, orb_false_r by lia.
  destruct (0 <? b)%Z eqn:E1, (_ <? a)%Z eqn:E2; bool_inv; cbn [andb];
    try (rewrite int64_small by (unfold min_int64, max_int64; lia)); split; try done; try lia;
    intros; simplify_eq; try lia; destruct_and?; subst; done.
Qed.

Lemma checked_mul_spec a b c :
  (0 ≤ a ≤ max_int64)%Z → (0 < b ≤ max_int64)%Z → checkedMul a b = Some c ↔ c = (a * b)%Z ∧ (a * b ≤ max_int64)%Z.
Proof.
  intros Ha Hb. unfold checkedMul. rewrite (proj2 (Z.eqb_neq b 0)) by lia. cbn [negb andb].
  assert (a <? min_int64 ÷ b = false)%Z as ->.
  { apply Z.ltb_ge. change min_int64 with (- (2 ^ 63))%Z. rewrite Z.quot_opp_l by lia.
    rewrite Z.quot_div_nonneg by lia. pose proof (Z.div_pos (2 ^ 63) b). lia. }
  rewrite orb_false_r, Z.quot_div_nonneg by (unfold max_int64; lia).
  pose proof (Z.div_mod max_int64 b ltac:(lia)) as Hd. pose proof (Z.mod_pos_bound max_int64 b ltac:(lia)).
  assert (max_int64 / b < a ↔ max_int64 < a * b)%Z as Hq by nia.
  destruct (a =? 0)%Z eqn:E1, (max_int64 / b <? a)%Z eqn:E2; bool_inv; cbn [negb andb];
    try (rewrite int64_small by (unfold min_int64; nia)); split; try done; try nia;
    intros; simplify_eq; try nia; destruct_and?; subst; done || nia.
Qed.

(** ** What a window selects *)

(** The rows of the statement the platform lets a client see at all. *)
Definition visible_rows {A} (sel : root_select) (maxRows : Z) (rows : list A) : list A :=
  take (Z.to_nat maxRows) (default [] (clause_rows sel rows)).

(** Options as Go's [int]s hold them. *)
Definition wf_options (o : PageOptions) : Prop := in_int64 (po_Page o) ∧ in_int64 (po_MaxRows o).
Definition wf_select (sel : root_select) : Prop := wf_node (sel_LimitCount sel) ∧ wf_node (sel_LimitOffset sel).

(** The clause as numbers: the offset, and the row bound [b] of the browsable
    part, which is the budget when [bl]. *)
Definition clause_bounds (sel : root_select) (maxRows offset b : Z) (bl : bool) : Prop :=
  (0 ≤ offset ≤ max_int64)%Z ∧ (0 ≤ b ≤ maxRows)%Z ∧ (bl = true → b = maxRows)
  ∧ (b = 0%Z → bl = false)
  ∧ ∀ A (rows : list A), visible_rows sel maxRows rows = take (Z.to_nat b) (drop (Z.to_nat offset) rows)
    ∧ is_Some (clause_rows sel rows).

Lemma clause_bounds_of sel maxRows limit limNull offset x :
  wf_select sel → (0 < maxRows)%Z →
  limitConstInt (sel_LimitCount sel) true = Ok (limit, limNull) → limitConstInt (sel_LimitOffset sel) false = Ok (offset, x) →
  let unbounded := match sel_LimitCount sel with None => true | Some _ => false end || limNull in
  clause_bounds sel maxRows offset (if negb unbounded && (limit <? maxRows)%Z then limit else maxRows)
    (unbounded || (maxRows <? limit)%Z).
Proof.
  intros [Hc Ho] Hm Hl Hof unbounded. pose proof (limit_range _ _ _ _ Hc Hl). pose proof (limit_range _ _ _ _ Ho Hof).
  unfold clause_bounds, visible_rows, clause_rows. rewrite Hl, Hof. subst unbounded.
  destruct (sel_LimitCount sel) as [c|], limNull; cbn [orb negb andb];
    try (split_and!; [lia|lia|lia|lia|done|intros; exfalso; lia|intros A rows; split; [done|eauto]]).
  destruct (limit <? maxRows)%Z eqn:E1, (maxRows <? limit)%Z eqn:E2; bool_inv;
    (split_and!; [lia|lia|lia|lia|done || (intros; lia)|done || (intros; exfalso; lia)|]); intros A rows; (split; [|eauto]);
    cbn; rewrite take_take; f_equal; lia.
Qed.

(** The two shapes of an accepted window. *)
Definition window_of (o : PageOptions) (offset b : Z) (bl : bool) (w : PageWindow) : Prop :=
  let start := ((po_Page o - 1) * po_PageSize o)%Z in
  (b = 0 ∧ po_Page o = 1 ∧ w = Window (po_Page o) (po_PageSize o) 0 b 0 0 offset bl)%Z
  ∨ (start < b ∧ offset + start ≤ max_int64
     ∧ w = Window (po_Page o) (po_PageSize o) (Z.min (po_PageSize o) (b - start)) b start
             (Z.min (po_PageSize o + 1) (b - start)) (offset + start) bl)%Z.

Lemma allowed_size o : allowedPageSize (po_PageSize o) = true → (10 ≤ po_PageSize o ≤ 100)%Z.
Proof. intros H. by apply allowed_sizes_range, existsb_eqb_elem. Qed.

Lemma paginate_inv tree o w sel' :
  wf_options o → (∀ sel, tree = Some [Some sel] → wf_select sel) →
  PaginatePG tree o = Ok (w, sel') →
  ∃ sel offset b bl, tree = Some [Some sel] ∧ (1 ≤ po_Page o)%Z ∧ (10 ≤ po_PageSize o ≤ 100)%Z
    ∧ clause_bounds sel (po_MaxRows o) offset b bl ∧ window_of o offset b bl w ∧ sel' = write_window w.
Proof.
  intros [[_ Hp] [_ Hm]] Hsel H. unfold PaginatePG in H.
  destruct (po_Page o <? 1)%Z eqn:Ep; [done|]. destruct (negb _ || _) eqn:Es; [done|]. bool_inv.
  destruct tree as [[|[sel|] [|]]|]; try done. destruct (negb (supported_option _)); [done|].
  destruct (limitConstInt (sel_LimitCount sel) true) as [[limit limNull]|] eqn:El; [cbn [mbind result_bind] in H|done].
  destruct (limitConstInt (sel_LimitOffset sel) false) as [[offset x]|] eqn:Eo; [cbn [mbind result_bind] in H|done].
  pose proof (allowed_size o ltac:(assumption)) as Hs.
  pose proof (clause_bounds_of sel (po_MaxRows o) limit limNull offset x (Hsel _ eq_refl) ltac:(lia) El Eo) as Hb.
  cbv zeta in Hb. set (b := if _ && (limit <? _)%Z then limit else _) in *. set (bl := _ || (_ <? limit)%Z) in *.
  clearbody b bl. pose proof Hb as (Hof & Hbr & _). exists sel, offset, b, bl.
  destruct (checkedMul _ _) as [start|] eqn:Emul; [|done].
  rewrite int64_small in Emul by (unfold min_int64; lia).
  apply checked_mul_spec in Emul as [-> Hmul]; [|lia|unfold max_int64; lia].
  assert (window_of o offset b bl w ∧ sel' = write_window w) as [??]; [|split; [done|]; split; [lia|]; auto].
  unfold window_of. destruct (b =? 0)%Z eqn:Eb; bool_inv.
  - destruct (negb _) eqn:E1; [done|]. cbn in H. simplify_eq. bool_inv. auto.
  - destruct (b <=? _)%Z eqn:E1; [done|]. destruct (checkedAdd _ _) as [fo|] eqn:Eadd; [|done]. cbn in H. bool_inv.
    apply checked_add_spec in Eadd as [-> Hadd]; [|unfold in_int64, min_int64; lia|nia].
    rewrite !int64_small in H by (unfold min_int64, max_int64 in *; nia). simplify_eq. auto.
Qed.

(** Reading the written clause back gives the window's rows. *)
Lemma written_rows {A} w (rows : list A) :
  (0 ≤ pw_FetchCount w ≤ max_int64)%Z → (0 ≤ pw_FetchOffset w ≤ max_int64)%Z →
  clause_rows (write_window w) rows = Some (take (Z.to_nat (pw_FetchCount w)) (drop (Z.to_nat (pw_FetchOffset w)) rows)).
Proof.
  intros Hc Ho. unfold clause_rows, write_window. cbn [sel_LimitCount sel_LimitOffset]. rewrite const_read_back by done.
  destruct (pw_FetchOffset w =? 0)%Z eqn:E; bool_inv.
  - rewrite E. done.
  - by rewrite const_read_back by done.
Qed.

(** A slice of the visible rows, as the window fetches it. *)
Lemma fetched_slice {A} (rows : list A) offset start b n :
  (0 ≤ offset)%Z → (0 ≤ start < b)%Z → (0 ≤ n)%Z →
  take (Z.to_nat (Z.min n (b - start))) (drop (Z.to_nat (offset + start)) rows)
  = take (Z.to_nat n) (drop (Z.to_nat start) (take (Z.to_nat b) (drop (Z.to_nat offset) rows))).
Proof.
  intros Ho Hs Hn. replace (Z.to_nat b) with (Z.to_nat start + Z.to_nat (b - start)) by lia.
  rewrite <- take_drop_commute, drop_drop, take_take. f_equal; [lia|]. f_equal. lia.
Qed.

Lemma window_result w n :
  (0 ≤ n ≤ pw_FetchCount w)%Z → window_Result w n =
    Some (PageRes (Z.min n (pw_RowLimit w)) (pw_RowLimit w <? n)%Z
      (pw_BudgetLimited w && (0 <? pw_RowLimit w)%Z
       && (to_int64 (pw_PageStart w + pw_RowLimit w) =? pw_Browsable w)%Z && (pw_RowLimit w <=? n)%Z)).
Proof.
  intros H. unfold window_Result. by rewrite (proj2 (Z.ltb_ge _ _)), (proj2 (Z.ltb_ge _ _)) by lia.
Qed.

Definition page_start (o : PageOptions) : Z := ((po_Page o - 1) * po_PageSize o)%Z.

(** The page [o] of [visible] as the fetched rows [fetched] and the result [r] report it. *)
Definition page_delivered {A} (o : PageOptions) (w : PageWindow) (visible fetched : list A) (r : PageResult) : Prop :=
  let rest := drop (Z.to_nat (page_start o)) visible in
  fetched = take (Z.to_nat (po_PageSize o + 1)) rest
  ∧ take (Z.to_nat (pg_RowCount r)) fetched = take (Z.to_nat (po_PageSize o)) rest
  ∧ (0 ≤ pg_RowCount r ≤ Z.of_nat (length fetched))%Z
  ∧ (pg_HasMore r = true ↔ (po_Page o * po_PageSize o < Z.of_nat (length visible))%Z)
  ∧ (pg_BudgetReached r = true ↔
       pw_BudgetLimited w = true ∧ Z.of_nat (length visible) = po_MaxRows o ∧ (po_MaxRows o ≤ po_Page o * po_PageSize o)%Z).

Lemma take_same {A} n m (l : list A) : n `min` length l = m `min` length l → take n l = take m l.
Proof.
  intros H. assert (∀ k, take k l = take (k `min` length l) l) as Hk; [|by rewrite Hk, H, <- Hk].
  intros k. rewrite <- take_take. f_equal. by rewrite take_ge.
Qed.

Lemma live_window_delivers {A} o offset b bl (rows : list A) :
  wf_options o → (1 ≤ po_Page o)%Z → (10 ≤ po_PageSize o ≤ 100)%Z → (0 ≤ offset)%Z →
  (0 ≤ b ≤ po_MaxRows o)%Z → (bl = true → b = po_MaxRows o) → (page_start o < b)%Z → (offset + page_start o ≤ max_int64)%Z →
  let w := Window (po_Page o) (po_PageSize o) (Z.min (po_PageSize o) (b - page_start o)) b (page_start o)
             (Z.min (po_PageSize o + 1) (b - page_start o)) (offset + page_start o) bl in
  let visible := take (Z.to_nat b) (drop (Z.to_nat offset) rows) in
  ∃ fetched r, clause_rows (write_window w) rows = Some fetched
    ∧ window_Result w (Z.of_nat (length fetched)) = Some r ∧ page_delivered o w visible fetched r.
Proof.
  intros [_ [_ Hm]] Hpg Hs Hof Hb Hbl Hlt Hadd w visible.
  assert (0 ≤ page_start o)%Z as Hst by (unfold page_start; nia).
  assert (po_Page o * po_PageSize o = page_start o + po_PageSize o)%Z as Hend by (unfold page_start; lia).
  pose proof (fetched_slice rows offset (page_start o) b (po_PageSize o + 1) ltac:(lia) ltac:(lia) ltac:(lia)) as Hf.
  fold visible in Hf. assert (length visible ≤ Z.to_nat b) as Hv by (subst visible; rewrite length_take; lia).
  unfold page_delivered. rewrite Hend. set (rest := drop (Z.to_nat (page_start o)) visible) in *.
  assert (length rest = length visible - Z.to_nat (page_start o)) as Hrest by (subst rest; by rewrite length_drop).
  eexists _, _. split; [apply written_rows; cbn; lia|]. cbn [pw_FetchCount pw_FetchOffset w]. rewrite Hf.
  split; [apply window_result; cbn; rewrite length_take; lia|].
  cbn [pg_RowCount pg_HasMore pg_BudgetReached pw_RowLimit pw_BudgetLimited pw_PageStart pw_Browsable w].
  rewrite int64_small, !andb_true_iff, Z.leb_le, Z.eqb_eq, !Z.ltb_lt by (unfold min_int64; lia).
  rewrite length_take. split; [done|]. split; [|split; [lia|split; [lia|]]].
  - rewrite take_take. apply take_same. lia.
  - split; [intros [[[Hl ?] ?] ?]|intros (Hl & ? & ?)]; specialize (Hbl Hl); split_and!; done || lia.
Qed.

Lemma empty_window_delivers {A} o offset (rows : list A) :
  po_Page o = 1%Z → (0 ≤ po_PageSize o)%Z → (0 ≤ offset ≤ max_int64)%Z →
  let w := Window (po_Page o) (po_PageSize o) 0 0 0 0 offset false in
  ∃ r, clause_rows (write_window w) rows = Some [] ∧ window_Result w 0 = Some r ∧ page_delivered (A := A) o w [] [] r.
Proof.
  intros Hone Hs Hof w. eexists. split; [rewrite written_rows by (cbn; unfold max_int64 in *; lia); exact (f_equal Some (take_0 _))|].
  split; [done|]. unfold page_delivered. cbn. rewrite drop_nil, !take_nil. split_and!; done || lia || (split; [done|]).
Qed.

Lemma window_delivers {A} sel o w sel' (rows : list A) :
  wf_options o → wf_select sel → PaginatePG (Some [Some sel]) o = Ok (w, sel') →
  ∃ fetched r, clause_rows sel' rows = Some fetched ∧ window_Result w (Z.of_nat (length fetched)) = Some r
    ∧ page_delivered o w (visible_rows sel (po_MaxRows o) rows) fetched r.
Proof.
  intros Ho Hsel H. apply paginate_inv in H as (sel0 & offset & b & bl & Htree & Hp & Hs & Hb & Hw & ->);
    [|done|by intros ? [= <-]]. injection Htree as <-.
  destruct Hb as (Hof & Hbm & Hbl & Hb0 & Hvis). destruct (Hvis A rows) as [-> _].
  destruct Hw as [(-> & Hone & ->)|(Hlt & Hadd & ->)].
  - rewrite (Hb0 eq_refl). destruct (empty_window_delivers o offset rows) as (r & ?); [done|lia|done|]. by exists [], r.
  - apply (live_window_delivers o offset b bl rows); done || lia.
Qed.

(** The delivered page is the requested one. For any rows the statement
    selects, the rewritten LIMIT and OFFSET fetch at most one row beyond the
    page, the fetched count is inside the window, the delivered rows are exactly
    the page of the rows the budget makes visible, [HasMore] says whether
    visible rows follow, and [BudgetReached] says whether the page ends at a
    full budget. *)
Theorem page_delivers {A} sel o w sel' (rows : list A) :
  wf_options o → wf_select sel → PaginatePG (Some [Some sel]) o = Ok (w, sel') →
  ∃ fetched r, clause_rows sel' rows = Some fetched ∧ window_Result w (Z.of_nat (length fetched)) = Some r
    ∧ page_delivered o w (visible_rows sel (po_MaxRows o) rows) fetched r.
Proof. apply window_delivers. Qed.

(** ** Walking the pages *)

(** The rows page [o] delivers, when there is such a page. *)
Definition page_of {A} (sel : root_select) (o : PageOptions) (rows : list A) : option (list A) :=
  match PaginatePG (Some [Some sel]) o with
  | Err _ => None
  | Ok (w, sel') =>
    fetched ← clause_rows sel' rows;
    r ← window_Result w (Z.of_nat (length fetched));
    Some (take (Z.to_nat (pg_RowCount r)) fetched)
  end.

(** The tests before the page is looked at, which every page of a statement shares. *)
Lemma paginate_reads sel o w sel' :
  PaginatePG (Some [Some sel]) o = Ok (w, sel') →
  (0 < po_MaxRows o)%Z ∧ allowedPageSize (po_PageSize o) = true ∧ supported_option (sel_LimitOption sel) = true
  ∧ ∃ limit limNull offset x, limitConstInt (sel_LimitCount sel) true = Ok (limit, limNull)
    ∧ limitConstInt (sel_LimitOffset sel) false = Ok (offset, x).
Proof.
  unfold PaginatePG. destruct (_ <? 1)%Z; [done|]. destruct (negb _ || _) eqn:Es; [done|]. bool_inv.
  destruct (supported_option _); [|done]. cbn [negb].
  destruct (limitConstInt _ true) as [[limit limNull]|]; [cbn [mbind result_bind]|done].
  destruct (limitConstInt _ false) as [[offset x]|]; [cbn [mbind result_bind]|done]. eauto 10.
Qed.

(** A page of a readable statement is refused only when no visible row is left for it. *)
Lemma refused_page_empty {A} sel o e limit limNull offset x (rows : list A) :
  wf_options o → wf_select sel → (1 ≤ po_Page o)%Z → (Z.of_nat (length rows) ≤ max_int64)%Z →
  (0 < po_MaxRows o)%Z → allowedPageSize (po_PageSize o) = true → supported_option (sel_LimitOption sel) = true →
  limitConstInt (sel_LimitCount sel) true = Ok (limit, limNull) → limitConstInt (sel_LimitOffset sel) false = Ok (offset, x) →
  PaginatePG (Some [Some sel]) o = Err e →
  drop (Z.to_nat (page_start o)) (visible_rows sel (po_MaxRows o) rows) = [].
Proof.
  intros [[_ Hp] [_ Hm]] Hsel Hpg Hlen Hmax Hs Hopt El Eo H.
  pose proof (clause_bounds_of sel (po_MaxRows o) limit limNull offset x Hsel Hmax El Eo) as Hb. cbv zeta in Hb.
  unfold PaginatePG in H. rewrite (proj2 (Z.ltb_ge _ _) Hpg), Hs, Hopt, (proj2 (Z.leb_gt _ _) Hmax) in H. cbn [negb orb] in H.
  rewrite El, Eo in H. cbn [mbind result_bind] in H. set (b := if _ && (limit <? _)%Z then limit else _) in *.
  pose proof (allowed_size o Hs) as Hr. clearbody b. destruct Hb as (Hof & Hbm & _ & _ & Hvis). destruct (Hvis A rows) as [-> _].
  assert (0 ≤ page_start o)%Z by (unfold page_start; nia).
  apply drop_ge. rewrite length_take, length_drop. rewrite int64_small in H by (unfold min_int64; lia).
  destruct (checkedMul _ _) as [start|] eqn:Emul.
  2: { assert (¬ page_start o ≤ max_int64)%Z as Hbig; [|lia].
       intros Hfit. by rewrite (proj2 (checked_mul_spec (po_Page o - 1) (po_PageSize o) _ ltac:(lia)
         ltac:(unfold max_int64; lia)) (conj eq_refl Hfit)) in Emul. }
  apply checked_mul_spec in Emul as [-> Hmul]; [|lia|unfold max_int64; lia]. fold (page_start o) in *.
  destruct (b =? 0)%Z eqn:Eb; bool_inv; [lia|]. destruct (b <=? _)%Z eqn:E1; bool_inv; [lia|].
  destruct (checkedAdd _ _) as [fo|] eqn:Eadd; [done|].
  assert (¬ offset + page_start o ≤ max_int64)%Z as Hbig; [|lia].
  intros Hfit. by rewrite (proj2 (checked_add_spec offset (page_start o) _ ltac:(unfold in_int64, min_int64; lia)
    ltac:(lia)) (conj eq_refl Hfit)) in Eadd.
Qed.

Lemma page_exact {A} sel o o' w sel' (rows : list A) :
  wf_options o → wf_options o' → wf_select sel → (Z.of_nat (length rows) ≤ max_int64)%Z → (1 ≤ po_Page o')%Z →
  po_PageSize o' = po_PageSize o → po_MaxRows o' = po_MaxRows o →
  PaginatePG (Some [Some sel]) o = Ok (w, sel') →
  default [] (page_of sel o' rows)
  = take (Z.to_nat (po_PageSize o')) (drop (Z.to_nat (page_start o')) (visible_rows sel (po_MaxRows o') rows)).
Proof.
  intros Ho Ho' Hsel Hlen Hp Hs Hm H. apply paginate_reads in H as (Hmax & Hsz & Hopt & limit & limNull & offset & x & El & Eo).
  rewrite <- Hm in Hmax. rewrite <- Hs in Hsz. unfold page_of. destruct (PaginatePG _ o') as [[w' s']|e] eqn:E.
  - apply (window_delivers sel o' w' s' rows Ho' Hsel) in E as (f & r & -> & Hr & _ & Hrows & _). cbn. rewrite Hr. exact Hrows.
  - rewrite (refused_page_empty sel o' e limit limNull offset x rows) by done. by rewrite take_nil.
Qed.

(** Paging loses and repeats nothing. The pages [1 .. n] of a statement
    whose first page is accepted, concatenated, are the first [n] pages' worth
    of its visible rows; a page past the end is refused and holds no row. *)
Theorem pages_cover {A} sel size maxRows w sel' n (rows : list A) :
  in_int64 maxRows → wf_select sel → (Z.of_nat (length rows) ≤ max_int64)%Z → (Z.of_nat n ≤ max_int64)%Z →
  PaginatePG (Some [Some sel]) (PageOpts 1 size maxRows) = Ok (w, sel') →
  concat ((λ p, default [] (page_of sel (PageOpts (Z.of_nat p) size maxRows) rows)) <$> seq 1 n)
  = take (n * Z.to_nat size) (visible_rows sel maxRows rows).
Proof.
  intros Hm Hsel Hlen Hn H. assert (10 ≤ size ≤ 100)%Z as Hs.
  { destruct (paginate_reads _ _ _ _ H) as (_ & Hs & _). by apply (allowed_size (PageOpts 1 size maxRows)). }
  assert (∀ p, (min_int64 ≤ p ≤ max_int64)%Z → wf_options (PageOpts p size maxRows)) as Hwf by done.
  induction n as [|n IH]; [done|]. rewrite seq_S, fmap_app, concat_app, IH by lia.
  cbn [fmap list_fmap concat]. rewrite app_nil_r.
  rewrite (page_exact sel (PageOpts 1 size maxRows) _ w sel') by
    (done || (apply Hwf; unfold min_int64, max_int64 in *; lia) || (cbn; lia)).
  unfold page_start. cbn [po_Page po_PageSize po_MaxRows].
  replace (Z.to_nat ((Z.of_nat (1 + n) - 1) * size)) with (n * Z.to_nat size) by lia.
  replace (S n * Z.to_nat size) with (n * Z.to_nat size + Z.to_nat size) by lia.
  by rewrite take_take_drop.
Qed.

(** ** Runs *)

(** [... LIMIT 0x17 OFFSET 2], 20 rows a page... *)
Definition sample_select : root_select :=
  RootSelect LIMIT_OPTION_COUNT (Some (AConst false (A_Const_Fval (gs "0x1_7")))) (Some (AConst false (A_Const_Ival 2))).
Definition sample_rows : list nat := seq 0 40.

Lemma page_literal_exact_witness : denotes (gs "0x1_7") 23 ∧ pageLiteralInt64 (gs "1__2") = None.
Proof.
  split; [|vm_compute; reflexivity].
  apply (page_literal_exact (gs "0x1_7") 23). vm_compute. reflexivity.
Defined.

Lemma page_delivers_witness :
  ∃ w sel', PaginatePG (Some [Some sample_select]) (PageOpts 3 10 500) = Ok (w, sel')
    ∧ ∃ fetched r, clause_rows sel' sample_rows = Some fetched ∧ fetched = [22; 23; 24]
      ∧ window_Result w 3 = Some r ∧ pg_HasMore r = false.
Proof.
  assert (wf_options (PageOpts 3 10 500)) as Ho by (vm_compute; repeat split; discriminate).
  assert (wf_select sample_select) as Hs by (vm_compute; repeat split; discriminate).
  destruct (PaginatePG (Some [Some sample_select]) (PageOpts 3 10 500)) as [[w sel']|e] eqn:E; [|vm_compute in E; discriminate E].
  destruct (page_delivers sample_select (PageOpts 3 10 500) w sel' sample_rows Ho Hs E) as (f & r & Hf & Hr & _).
  vm_compute in E. injection E as <- <-. vm_compute in Hf. injection Hf as <-. vm_compute in Hr. injection Hr as <-.
  eexists _, _. split; [reflexivity|]. eexists _, _. split; [reflexivity|]. repeat split; reflexivity.
Defined.

Lemma pages_cover_witness :
  concat ((λ p, default [] (page_of sample_select (PageOpts (Z.of_nat p) 10 500) sample_rows)) <$> seq 1 4)
  = visible_rows sample_select 500 sample_rows ∧ visible_rows sample_select 500 sample_rows = seq 2 23.
Proof.
  split; [|vm_compute; reflexivity].
  destruct (PaginatePG (Some [Some sample_select]) (PageOpts 1 10 500)) as [[w sel']|e] eqn:E; [|vm_compute in E; discriminate E].
  rewrite (pages_cover sample_select 10 500 w sel' 4 sample_rows).
  - vm_compute. reflexivity.
  - vm_compute. split; discriminate.
  - vm_compute. repeat split; discriminate.
  - vm_compute. discriminate.
  - vm_compute. discriminate.
  - exact E.
Defined.
