(* ===== verification/PgErrors.v ===== *)
(** * Errors of a PostgreSQL attempt

    What the governed PostgreSQL path of [internal/service] can learn of an error
    value: the controlled rejection in its chain, the sentinels it matches, and
    the driver's facts ([pg_schema_inspector.go], [pg_binding_gate.go]). *)
From S2P Require Import Prelude PgPagination.

Inductive pg_sentinel : Type :=
  | IsCanceled              (** [context.Canceled] *)
  | IsDeadline              (** [context.DeadlineExceeded] *)
  | IsTimeout               (** [ErrQueryTimeout] *)
  | IsBackend               (** [ErrQueryBackendFailure] *)
  | IsTooLarge              (** [ErrQueryResultTooLarge] *)
  | IsValidation            (** [ErrQueryValidationFailed] *)
  | IsBlocked               (** [ErrQueryDisclosureBlocked] *)
  | IsDisclosureBackend     (** [ErrQueryDisclosureBackendFailure] *)
  | IsEvidence              (** [pgsql.ErrEvidenceUnavailable] *)
  | IsVersionUnsupported    (** [ErrPGVersionUnsupported] *)
  | IsConnectFailed         (** [ErrPGConnectFailed] *)
  | IsVersionReadFailed     (** [ErrPGVersionReadFailed] *)
  | IsTemplateParameter     (** [ErrTemplateParameterInvalid] *)
  | IsNavNoSource           (** [errPGNavNoSource] *)
  | IsNavMeta               (** [errPGNavMetaInternal] *)
  | IsTypeResolution        (** [pgsql.ErrTypeResolutionUnavailable] *)
  | IsNoRows                (** [pgx.ErrNoRows] *)
  | IsPanic.                (** not an error value: a nil pointer or an index out of range *)
#[export] Instance sentinel_eq_dec : EqDecision pg_sentinel.
Proof. solve_decision. Defined.

(** [pe_Reject] is the [*pgsql.RejectError] of the chain, [pe_Code] the SQLSTATE
    of its [*pgconn.PgError], [pe_SafeToRetry] the driver's mark that nothing was
    sent, [pe_ParseFailed] a [*pgconn.PrepareError] whose Parse did not complete. *)
Record pg_error : Type := PgError {
  pe_Reject : option RejectError;
  pe_is : list pg_sentinel;
  pe_Code : option bytes;
  pe_SafeToRetry : bool;
  pe_ParseFailed : bool;
}.
#[export] Instance pg_error_eq_dec : EqDecision pg_error.
Proof. solve_decision. Defined.

Definition error_is (e : pg_error) (s : pg_sentinel) : bool := bool_decide (s ∈ pe_is e).
(** A bare sentinel, or an error that wraps only it. *)
Definition wrap (s : pg_sentinel) : pg_error := PgError None [s] None false false.
Definition rejected (r : RejectError) : pg_error := PgError (Some r) [] None false false.
(** The fixed internal failures, which wrap [ErrQueryBackendFailure]. *)
Definition errPGExecInternal : pg_error := wrap IsBackend.
Definition errPGNavMetaInternal : pg_error := PgError None [IsBackend; IsNavMeta] None false false.

Definition pgQueryCanceledSQLSTATE : bytes := gs "57014".
Definition isPGQueryCanceled (e : pg_error) : bool := pe_Code e =?b Some pgQueryCanceledSQLSTATE.

Definition classifyPGRelationAccess (e : pg_error) : option RejectError :=
  match pe_Code e with
  | None => None
  | Some code =>
    if (code =?b gs "42P01") || (code =?b gs "3F000") || (code =?b gs "42501")
    then Some (Reject (gs "query_object_not_found") (gs "pgsql: relation not found")) else None
  end.
Definition classifyPGNameRemap (e : pg_error) : option RejectError :=
  match classifyPGRelationAccess e with
  | Some _ => Some (Reject (gs "query_binding_mismatch") (gs "pgsql: relation name remapped during binding"))
  | None => None
  end.
