(* ===== verification/PgVerifier.v ===== *)
(** * Verification of a PostgreSQL result against its own proof records

    The records of [internal/pgsql/proof.go], [inject.go] and
    [name_resolution.go], the bound references of
    [internal/service/pg_binding_gate.go], and [pg_result_verifier.go]: the
    expected layout is validated before the statement is sent, the field
    descriptions are compared with it afterwards, and only the public columns
    are delivered. The rewrite that fills the records works on the parser's
    trees and is not modelled: the verifier is what its output must pass. *)
From S2P Require Import Prelude GoText ExecModel ResultContract PgPagination.

(** ** Records *)

Record frame : Type := Frame { fr_parent : bytes; fr_field : bytes; fr_index : Z; fr_child : bytes }.

Inductive RefKind : Type := RefEntity | RefQualified | RefCTE.
#[export] Instance ref_kind_eq_dec : EqDecision RefKind.
Proof. solve_decision. Defined.

Record RangeVarRef : Type := MkRangeVarRef {
  rv_RefID : Z;
  rv_Path : list frame;
  rv_Kind : RefKind;
  rv_Name : bytes;
  rv_Schema : bytes;
  rv_Catalog : bytes;
  rv_Alias : bytes;
  rv_Loc : Z;
  rv_Witnessable : bool;
}.

Inductive SourceOccurrenceKind : Type :=
  | SourceEntityRangeVar | SourceCTERangeVar | SourceDerived | SourceNonEntity | SourceGeneratedCarrier.
#[export] Instance occurrence_kind_eq_dec : EqDecision SourceOccurrenceKind.
Proof. solve_decision. Defined.

Record SourceOccurrence : Type := MkOccurrence {
  so_ID : Z;
  so_Kind : SourceOccurrenceKind;
  so_RefID : Z;
  so_HasRefID : bool;
}.

Inductive SourceSlotKind : Type := SourceSlotUnknown | SourceSlotColumn | SourceSlotWholeRow.
#[export] Instance slot_kind_eq_dec : EqDecision SourceSlotKind.
Proof. solve_decision. Defined.

Record SourceSlot : Type := MkSlot { sl_Kind : SourceSlotKind; sl_Ordinal : Z }.
#[export] Instance slot_eq_dec : EqDecision SourceSlot.
Proof. solve_decision. Defined.

Record SourceRef : Type := MkSourceRef { sr_Occurrence : Z; sr_Slot : SourceSlot }.
#[export] Instance source_ref_eq_dec : EqDecision SourceRef.
Proof. solve_decision. Defined.

Inductive FDOriginKind : Type := FDOriginUnresolved | FDOriginNoColumnOrigin | FDOriginKnownColumn.
#[export] Instance origin_kind_eq_dec : EqDecision FDOriginKind.
Proof. solve_decision. Defined.

Record FDOrigin : Type := MkFDOrigin {
  fo_Kind : FDOriginKind;
  fo_Source : SourceRef;
  fo_RelationOID : Z;
  fo_AttributeNumber : Z;
}.

Inductive ProofResolution : Type := ProofUnresolved | ProofComplete.
#[export] Instance resolution_eq_dec : EqDecision ProofResolution.
Proof. solve_decision. Defined.

Record PublicColumnProof : Type := MkProof {
  pp_TransportIndex : Z;
  pp_Resolution : ProofResolution;
  pp_Dependencies : list SourceRef;
  pp_FDOrigin : FDOrigin;
}.

Record WitnessRecord : Type := MkWitness {
  wr_Column : bytes;
  wr_EntitySchema : bytes;
  wr_EntityName : bytes;
  wr_Alias : bytes;
  wr_CoveredSources : list Z;
  wr_CarrierOccurrence : Z;
}.

(** [SourceCatalog] may be a nil map. *)
Record RewriteResult : Type := MkRewrite {
  rw_SQL : bytes;
  rw_Witnesses : list WitnessRecord;
  rw_WitnessPositions : list Z;
  rw_Public : list bytes;
  rw_PublicProofs : list PublicColumnProof;
  rw_SourceCatalog : option (gmap Z SourceOccurrence);
  rw_Refs : list RangeVarRef;
  rw_Qualified : bytes;
}.

Record ColumnMetadata : Type := MkColumnMetadata {
  cmd_Name : bytes;
  cmd_TypeOID : Z;
  cmd_Typmod : Z;
  cmd_RelationOID : Z;
  cmd_AttributeNumber : Z;
}.

Record PGRelationIdentity : Type := RelationIdentity { ri_DatabaseOID : Z; ri_RelationOID : Z }.
#[export] Instance relation_identity_eq_dec : EqDecision PGRelationIdentity.
Proof. solve_decision. Defined.

Record PGBoundRef : Type := MkBoundRef {
  br_RefID : Z;
  br_Schema : bytes;
  br_Name : bytes;
  br_CatalogName : bytes;
  br_Identity : PGRelationIdentity;
  br_RelTypeOID : Z;
  br_RelKind : bytes;
  br_TouchConfirmed : bool;
  br_Columns : list ColumnMetadata;
}.

(** The references of a [PGBindResult]: a map of pointers, some possibly nil.
    The lock-audit fields of that record are not read here. *)
Abbreviation bound_refs := (gmap Z (option PGBoundRef)).
Definition bound_at (refs : bound_refs) (id : Z) : option PGBoundRef := mjoin (refs !! id).

(** ** Failures *)

Inductive verify_error : Type :=
  | VEvidence                   (** wraps [pgsql.ErrEvidenceUnavailable] *)
  | VTooLarge                   (** [ErrQueryResultTooLarge] *)
  | VReject (e : RejectError)
  | VPanic.                     (** an index out of range *)
#[export] Instance verify_error_eq_dec : EqDecision verify_error.
Proof. solve_decision. Defined.

Definition evidence_unless (ok : bool) : result verify_error unit := if ok then Ok tt else Err VEvidence.

(** A slice index; Go panics out of range. *)
Definition index {A} (l : list A) (i : Z) : result verify_error A :=
  if (i <? 0)%Z then Err VPanic else match l !! Z.to_nat i with Some x => Ok x | None => Err VPanic end.

Definition pgMaxResultColumns : Z := 100%Z.
Definition pgMaxWitnessColumns : Z := 128%Z.

(** ** Expected records *)

Definition slot_rank (k : SourceSlotKind) : Z :=
  match k with SourceSlotUnknown => 0 | SourceSlotColumn => 1 | SourceSlotWholeRow => 2 end.

Definition comparePGSourceRefs (a b : SourceRef) : comparison :=
  let ka := slot_rank (sl_Kind (sr_Slot a)) in
  let kb := slot_rank (sl_Kind (sr_Slot b)) in
  if negb (sr_Occurrence a =? sr_Occurrence b)%Z then if (sr_Occurrence a <? sr_Occurrence b)%Z then Lt else Gt
  else if negb (ka =? kb)%Z then if (ka <? kb)%Z then Lt else Gt
  else if (sl_Ordinal (sr_Slot a) <? sl_Ordinal (sr_Slot b))%Z then Lt
  else if (sl_Ordinal (sr_Slot b) <? sl_Ordinal (sr_Slot a))%Z then Gt
  else Eq.

(** Each element above the one before it. *)
Fixpoint ascending {A} (above : A → A → bool) (l : list A) : bool :=
  match l with
  | x :: ((y :: _) as t) => above x y && ascending above t
  | _ => true
  end.

Definition pgSourceRefIn (refs : list SourceRef) (want : SourceRef) : bool := existsb (λ r, r =?b want) refs.

Section expected.
Context (catalog : gmap Z SourceOccurrence) (refs : bound_refs).

(** The binding of a reference, when the gate confirmed it. *)
Definition confirmed (id : Z) : option PGBoundRef :=
  match bound_at refs id with
  | Some b => if br_TouchConfirmed b then Some b else None
  | None => None
  end.

(** The loop over one witness's sources; [want] is the identity of the first. *)
Fixpoint witness_sources (want : option (PGRelationIdentity * Z)) (sources : list Z) : result verify_error unit :=
  match sources with
  | [] => Ok tt
  | src :: sources =>
    match catalog !! src with
    | None => Err VEvidence
    | Some occ =>
      if negb (so_Kind occ =?b SourceEntityRangeVar) || negb (so_HasRefID occ) then Err VEvidence
      else match confirmed (so_RefID occ) with
      | None => Err VEvidence
      | Some bound =>
        match want with
        | None => witness_sources (Some (br_Identity bound, br_RelTypeOID bound)) sources
        | Some (id, relType) =>
          if negb (br_Identity bound =?b id) || negb (br_RelTypeOID bound =? relType)%Z then Err VEvidence
          else witness_sources want sources
        end
      end
    end
  end.

Definition verifyPGWitnessExpected (w : WitnessRecord) : result verify_error unit :=
  if wr_CoveredSources w =?b [] then Err VEvidence
  else if negb (ascending Z.ltb (wr_CoveredSources w)) then Err VEvidence
  else match catalog !! wr_CarrierOccurrence w with
  | None => Err VEvidence
  | Some _ => witness_sources None (wr_CoveredSources w)
  end.

Definition verifyPGEntitySlot (slot : SourceSlot) (occ : SourceOccurrence) : result verify_error unit :=
  match sl_Kind slot with
  | SourceSlotWholeRow => evidence_unless (sl_Ordinal slot =? -1)%Z
  | SourceSlotColumn =>
    if (sl_Ordinal slot <? 0)%Z then Err VEvidence
    else match confirmed (so_RefID occ) with
    | None => Err VEvidence
    | Some bound => evidence_unless (sl_Ordinal slot <? Z.of_nat (length (br_Columns bound)))%Z
    end
  | SourceSlotUnknown => Err VEvidence
  end.

(** The loop over a proof's dependencies; [prev] is the one before. *)
Fixpoint check_dependencies (prev : option SourceRef) (deps : list SourceRef) : result verify_error unit :=
  match deps with
  | [] => Ok tt
  | dep :: deps =>
    let sorted := match prev with
                  | Some p => match comparePGSourceRefs dep p with Gt => true | _ => false end
                  | None => true
                  end in
    if negb sorted then Err VEvidence
    else match catalog !! sr_Occurrence dep with
    | None => Err VEvidence
    | Some occ =>
      _ ← match so_Kind occ with
          | SourceEntityRangeVar => verifyPGEntitySlot (sr_Slot dep) occ
          | SourceDerived | SourceNonEntity => evidence_unless (negb (sl_Kind (sr_Slot dep) =?b SourceSlotUnknown))
          | _ => Err VEvidence
          end;
      check_dependencies (Some dep) deps
    end
  end.

Definition check_origin (proof : PublicColumnProof) : result verify_error unit :=
  let o := pp_FDOrigin proof in
  match fo_Kind o with
  | FDOriginKnownColumn =>
    match catalog !! sr_Occurrence (fo_Source o) with
    | None => Err VEvidence
    | Some occ =>
      if negb (pgSourceRefIn (pp_Dependencies proof) (fo_Source o)) then Err VEvidence
      else if negb (so_Kind occ =?b SourceEntityRangeVar) || negb (so_HasRefID occ) then Err VEvidence
      else match confirmed (so_RefID occ) with
      | None => Err VEvidence
      | Some bound =>
        if negb (fo_RelationOID o =? ri_RelationOID (br_Identity bound))%Z then Err VEvidence
        else if sl_Kind (sr_Slot (fo_Source o)) =?b SourceSlotColumn then
          col ← index (br_Columns bound) (sl_Ordinal (sr_Slot (fo_Source o)));
          evidence_unless ((fo_AttributeNumber o =? cmd_AttributeNumber col)%Z && (fo_RelationOID o =? cmd_RelationOID col)%Z)
        else Ok tt
      end
    end
  | FDOriginNoColumnOrigin => Ok tt
  | FDOriginUnresolved => Err VEvidence
  end.

Definition verifyPGPublicProofExpected (proof : PublicColumnProof) : result verify_error unit :=
  if negb (pp_Resolution proof =?b ProofComplete) then Err VEvidence
  else
    _ ← check_dependencies None (pp_Dependencies proof);
    check_origin proof.

(** ** The coordinate map *)

Inductive pgCoordOwner : Type := pgCoordUnclaimed | pgCoordWitness | pgCoordPublic.
#[local] Instance coord_owner_eq_dec : EqDecision pgCoordOwner.
Proof. solve_decision. Defined.

(** Claim one coordinate that must be free. *)
Definition claim_coordinate (coord : list pgCoordOwner) (pos : Z) (owner : pgCoordOwner)
    : result verify_error (list pgCoordOwner) :=
  if (pos <? 0)%Z || (Z.of_nat (length coord) <=? pos)%Z then Err VEvidence
  else match coord !! Z.to_nat pos with
  | Some pgCoordUnclaimed => Ok (<[Z.to_nat pos := owner]> coord)
  | _ => Err VEvidence
  end.

(** The two loops: claim the coordinate of each record, then check the record. *)
Fixpoint claim_all {A} (owner : pgCoordOwner) (position : A → Z) (check : A → result verify_error unit)
    (coord : list pgCoordOwner) (l : list A) : result verify_error (list pgCoordOwner) :=
  match l with
  | [] => Ok coord
  | x :: l =>
    coord ← claim_coordinate coord (position x) owner;
    _ ← check x;
    claim_all owner position check coord l
  end.

Definition claim_witnesses (coord : list pgCoordOwner) (l : list (Z * WitnessRecord)) : result verify_error (list pgCoordOwner) :=
  claim_all pgCoordWitness fst (λ x, verifyPGWitnessExpected x.2) coord l.

Definition claim_public (coord : list pgCoordOwner) (proofs : list PublicColumnProof) : result verify_error (list pgCoordOwner) :=
  claim_all pgCoordPublic pp_TransportIndex verifyPGPublicProofExpected coord proofs.

(** ** Coverage *)

Definition is_entity_ref (r : RangeVarRef) : bool :=
  match rv_Kind r with RefEntity | RefQualified => true | RefCTE => false end.

(** [refsByID], refusing a repeated id. *)
Fixpoint refs_by_id (l : list RangeVarRef) (acc : gmap Z RangeVarRef) : result verify_error (gmap Z RangeVarRef) :=
  match l with
  | [] => Ok acc
  | r :: l => match acc !! rv_RefID r with
              | Some _ => Err VEvidence
              | None => refs_by_id l (<[rv_RefID r := r]> acc)
              end
  end.

Definition covered_sources (ws : list WitnessRecord) : gset Z := list_to_set (concat (wr_CoveredSources <$> ws)).

(** One record of the catalog, under its key. *)
Definition check_occurrence (byID : gmap Z RangeVarRef) (covered : gset Z) (entry : Z * SourceOccurrence)
    : result verify_error unit :=
  let '(id, occ) := entry in
  let entity := so_Kind occ =?b SourceEntityRangeVar in
  if negb (so_ID occ =? id)%Z then Err VEvidence
  else if (so_ID occ <? 0)%Z && entity then Err VEvidence
  else if negb (so_ID occ <? 0)%Z && (negb (so_HasRefID occ) || negb (so_RefID occ =? so_ID occ)%Z) then Err VEvidence
  else if negb entity then Ok tt
  else match byID !! so_RefID occ with
  | None => Err VEvidence
  | Some ref =>
    if negb (is_entity_ref ref) then Err VEvidence
    else match confirmed (so_RefID occ) with
    | None => Err VEvidence
    | Some _ => evidence_unless (bool_decide (id ∈ covered))
    end
  end.

(** One reference the guard collected. *)
Definition check_guard_ref (covered : gset Z) (ref : RangeVarRef) : result verify_error unit :=
  if negb (is_entity_ref ref) then Ok tt
  else match confirmed (rv_RefID ref) with
  | None => Err VEvidence
  | Some _ =>
    match catalog !! rv_RefID ref with
    | None => Err VEvidence
    | Some occ =>
      if negb (so_Kind occ =?b SourceEntityRangeVar) then Err VEvidence
      else evidence_unless (bool_decide (rv_RefID ref ∈ covered))
    end
  end.

(** One binding the gate made, under its key. *)
Definition check_bound_ref (byID : gmap Z RangeVarRef) (entry : Z * option PGBoundRef) : result verify_error unit :=
  match entry.2 with
  | None => Err VEvidence
  | Some bound =>
    if negb (br_RefID bound =? entry.1)%Z then Err VEvidence
    else match byID !! entry.1 with
    | None => Err VEvidence
    | Some ref => evidence_unless (is_entity_ref ref)
    end
  end.
End expected.

(** Loops over a map run in some order; every failure in them is the same
    evidence failure, so the order is not observable. *)
Definition verifyPGExpectedLayout (rw : option RewriteResult) (bind : option bound_refs) : result verify_error unit :=
  match rw, bind with
  | Some rw, Some refs =>
    if (pgMaxResultColumns <? Z.of_nat (length (rw_Public rw)))%Z then Err VTooLarge
    else if (pgMaxWitnessColumns <? Z.of_nat (length (rw_Witnesses rw)))%Z then Err VEvidence
    else if negb (length (rw_PublicProofs rw) =? length (rw_Public rw))%nat then Err VEvidence
    else if negb (length (rw_WitnessPositions rw) =? length (rw_Witnesses rw))%nat then Err VEvidence
    else match rw_SourceCatalog rw with
    | None => Err VEvidence
    | Some catalog =>
      let total := length (rw_Public rw) + length (rw_Witnesses rw) in
      coord ← claim_witnesses catalog refs (replicate total pgCoordUnclaimed) (zip (rw_WitnessPositions rw) (rw_Witnesses rw));
      coord ← claim_public catalog refs coord (rw_PublicProofs rw);
      _ ← evidence_unless (negb (existsb (λ o, match o with pgCoordUnclaimed => true | _ => false end) coord));
      let covered := covered_sources (rw_Witnesses rw) in
      byID ← refs_by_id (rw_Refs rw) ∅;
      _ ← for_each (check_occurrence refs byID covered) (map_to_list catalog);
      _ ← for_each (check_guard_ref catalog refs covered) (rw_Refs rw);
      for_each (check_bound_ref byID) (map_to_list refs)
    end
  | _, _ => Err VEvidence
  end.

(** ** Field descriptions *)

Record FieldDescription : Type := MkFD {
  fd_Name : bytes;
  fd_TableOID : Z;
  fd_TableAttributeNumber : Z; (** an unsigned 16-bit integer *)
  fd_DataTypeOID : Z;
  fd_TypeModifier : Z;
}.

(** [int16(x)] of an unsigned 16-bit integer. *)
Definition to_int16 (z : Z) : Z := ((z + 2 ^ 15) `mod` 2 ^ 16 - 2 ^ 15)%Z.

Definition bindingMismatch (message : bytes) : verify_error := VReject (Reject (gs "query_binding_mismatch") message).

Definition verifyPGWitnessFD (catalog : gmap Z SourceOccurrence) (refs : bound_refs) (fd : FieldDescription)
    (w : WitnessRecord) : result verify_error unit :=
  for_each (λ src,
    match catalog !! src with
    | None => Err VEvidence
    | Some occ =>
      if negb (so_Kind occ =?b SourceEntityRangeVar) || negb (so_HasRefID occ) then Err VEvidence
      else match confirmed refs (so_RefID occ) with
      | None => Err VEvidence
      | Some bound =>
        if negb (fd_DataTypeOID fd =? br_RelTypeOID bound)%Z
        then Err (bindingMismatch (gs "pgsql: witness column bound an unexpected relation type")) else Ok tt
      end
    end) (wr_CoveredSources w).

Definition verifyPGPublicFD (fd : FieldDescription) (proof : PublicColumnProof) : result verify_error unit :=
  let o := pp_FDOrigin proof in
  if negb (fo_Kind o =?b FDOriginKnownColumn) then Ok tt
  else if negb (fd_TableOID fd =? fo_RelationOID o)%Z
          || negb (to_int16 (fd_TableAttributeNumber fd) =? fo_AttributeNumber o)%Z
  then Err (bindingMismatch (gs "pgsql: public column bound an unexpected source position"))
  else Ok tt.

(** The index of each position in the witness list, as [rw.Witnesses[i]]. *)
Fixpoint check_witness_fds (catalog : gmap Z SourceOccurrence) (refs : bound_refs) (fds : list FieldDescription)
    (positions : list Z) (witnesses : list WitnessRecord) : result verify_error unit :=
  match positions with
  | [] => Ok tt
  | pos :: positions =>
    fd ← index fds pos;
    match witnesses with
    | [] => Err VPanic
    | w :: witnesses =>
      _ ← verifyPGWitnessFD catalog refs fd w;
      check_witness_fds catalog refs fds positions witnesses
    end
  end.

(** A nil catalog is an empty map to a reader. *)
Definition verifyPGPositions (fds : list FieldDescription) (rw : option RewriteResult) (bind : option bound_refs)
    : result verify_error unit :=
  match rw, bind with
  | Some rw, Some refs =>
    if negb (length fds =? length (rw_Public rw) + length (rw_Witnesses rw))%nat then Err VEvidence
    else
      _ ← check_witness_fds (default ∅ (rw_SourceCatalog rw)) refs fds (rw_WitnessPositions rw) (rw_Witnesses rw);
      for_each (λ proof, fd ← index fds (pp_TransportIndex proof); verifyPGPublicFD fd proof) (rw_PublicProofs rw)
  | _, _ => Err VEvidence
  end.

(** ** The public projection *)

Record PGResultColumn : Type := MkPGColumn {
  pc_Name : bytes;
  pc_DatabaseType : bytes;
  pc_DataTypeOID : Z;
  pc_TypeModifier : Z;
  pc_TableOID : Z;
  pc_AttrNum : Z;
}.

(** A cell is native text or SQL NULL. *)
Abbreviation text_rows := (list (list (option bytes))).

(** The connection's type map, and [strings.ToUpper]. *)
Definition pgColumnTypeName (type_name : Z → option bytes) (upper : bytes → bytes) (oid : Z) : bytes :=
  match type_name oid with
  | Some name => if name =?b [] then gs "oid:" ++ format_uint oid else upper name
  | None => gs "oid:" ++ format_uint oid
  end.

Definition result_column (type_name : Z → option bytes) (upper : bytes → bytes) (name : bytes) (fd : FieldDescription)
    : PGResultColumn :=
  MkPGColumn name (pgColumnTypeName type_name upper (fd_DataTypeOID fd)) (fd_DataTypeOID fd) (fd_TypeModifier fd)
    (fd_TableOID fd) (to_int16 (fd_TableAttributeNumber fd)).

(** The cell of one public column, cut to the display contract. *)
Definition project_cell (row : list (option bytes)) (p : PublicColumnProof) : result verify_error (option bytes * bool) :=
  cell ← index row (pp_TransportIndex p);
  match cell with
  | None => Ok (None, false)
  | Some text => match TruncateCellText text ResultCellMaxBytes with
                 | Err _ => Err VEvidence
                 | Ok (kept, cut) => Ok (Some kept, cut)
                 end
  end.

Definition project_row (fds : list FieldDescription) (proofs : list PublicColumnProof) (row : list (option bytes))
    : result verify_error (list (option bytes) * list bool) :=
  if negb (length row =? length fds)%nat then Err VEvidence
  else cells ← map_result (project_cell row) proofs; Ok (cells.*1, cells.*2).

(** The columns, rows and marks of [projectPGPublicResult]; [rw.Public[i]] is
    read beside each proof. *)
Definition projectPGPublicResult (type_name : Z → option bytes) (upper : bytes → bytes) (fds : list FieldDescription)
    (rows : text_rows) (rw : RewriteResult)
    : result verify_error (list PGResultColumn * text_rows * list (list bool)) :=
  cols ← map_result (λ '(i, p), fd ← index fds (pp_TransportIndex p);
                       match rw_Public rw !! i with
                       | None => Err VPanic
                       | Some name => Ok (result_column type_name upper name fd)
                       end) (imap pair (rw_PublicProofs rw));
  out ← map_result (project_row fds (rw_PublicProofs rw)) rows;
  Ok (cols, out.*1, out.*2).

(** ** What an accepted layout says *)

Lemma evidence_unless_ok b : evidence_unless b = Ok tt ↔ b = true.
Proof. by destruct b. Qed.

Lemma claim_coordinate_ok coord pos owner coord' :
  claim_coordinate coord pos owner = Ok coord' →
  (0 ≤ pos < Z.of_nat (length coord))%Z ∧ coord !! Z.to_nat pos = Some pgCoordUnclaimed
  ∧ coord' = <[Z.to_nat pos := owner]> coord.
Proof.
  unfold claim_coordinate. destruct (_ || _) eqn:E; [done|]. bool_inv.
  destruct (coord !! _) as [[]|] eqn:Ec; try done. intros [= <-]. split_and!; done || lia.
Qed.

Section claiming.
Context {A : Type} (owner : pgCoordOwner) (position : A → Z) (check : A → result verify_error unit).

Lemma claim_all_ok coord l coord' :
  owner ≠ pgCoordUnclaimed → claim_all owner position check coord l = Ok coord' →
  length coord' = length coord ∧ NoDup (position <$> l)
  ∧ Forall (λ p, 0 ≤ p < Z.of_nat (length coord) ∧ coord !! Z.to_nat p = Some pgCoordUnclaimed)%Z (position <$> l)
  ∧ Forall (λ x, check x = Ok tt) l
  ∧ ∀ p, (0 ≤ p)%Z → coord' !! Z.to_nat p = Some pgCoordUnclaimed →
      coord !! Z.to_nat p = Some pgCoordUnclaimed ∧ p ∉ position <$> l.
Proof.
  intros Hown. revert coord. induction l as [|x l IH]; intros coord H; cbn in H.
  { injection H as <-. split_and!; [done|constructor|constructor|constructor|]. intros p _ Hp. split; [done|by apply not_elem_of_nil]. }
  res_inv. unit_inv. apply claim_coordinate_ok in E as (Hr & Hfree & ->).
  apply IH in H as (Hlen & Hnd & Hall & Hck & Hun). rewrite length_insert in *.
  assert (position x ∉ position <$> l) as Hnew.
  { intros Hin. rewrite Forall_forall in Hall. destruct (Hall _ Hin) as [_ Hx].
    rewrite list_lookup_insert_eq in Hx by lia. congruence. }
  split_and!; [done|by constructor| |by constructor|].
  - constructor; [done|]. apply Forall_forall. intros p Hp. rewrite Forall_forall in Hall. destruct (Hall p Hp) as [Hpr Hpx].
    split; [done|]. rewrite list_lookup_insert_ne in Hpx; [done|]. intros Heq. apply Hnew. by replace (position x) with p by lia.
  - intros p Hp Hx. apply Hun in Hx as [Hx Hnl]; [|done]. cbn. rewrite not_elem_of_cons.
    destruct (decide (p = position x)) as [->|Hne]; [by rewrite list_lookup_insert_eq in Hx by lia; congruence|].
    rewrite list_lookup_insert_ne in Hx by lia. done.
Qed.

Lemma claim_all_error coord l e :
  claim_all owner position check coord l = Err e → e = VEvidence ∨ ∃ x, x ∈ l ∧ check x = Err e.
Proof.
  revert coord. induction l as [|x l IH]; intros coord; cbn; [done|].
  unfold claim_coordinate at 1. destruct (_ || _); [intros [= <-]; by left|].
  destruct (coord !! _) as [[]|]; cbn; try (intros [= <-]; by left).
  destruct (check x) as [[]|e'] eqn:Ex; cbn.
  - intros [->|(y & Hy & Hc)]%IH; [by left|]. right. exists y. split; [by right|done].
  - intros [= ->]. right. exists x. split; [by left|done].
Qed.
End claiming.

Definition public_positions (rw : RewriteResult) : list Z := pp_TransportIndex <$> rw_PublicProofs rw.
Definition transport_width (rw : RewriteResult) : nat := length (rw_Public rw) + length (rw_Witnesses rw).

(** The facts an accepted layout rests on. *)
Record layout_ok (rw : RewriteResult) (refs : bound_refs) (catalog : gmap Z SourceOccurrence) : Prop := {
  lo_catalog : rw_SourceCatalog rw = Some catalog;
  lo_public_length : length (rw_PublicProofs rw) = length (rw_Public rw);
  lo_witness_length : length (rw_WitnessPositions rw) = length (rw_Witnesses rw);
  lo_distinct : NoDup (rw_WitnessPositions rw ++ public_positions rw);
  lo_range : Forall (λ p, 0 ≤ p < Z.of_nat (transport_width rw))%Z (rw_WitnessPositions rw ++ public_positions rw);
  lo_witnesses : Forall (λ w, verifyPGWitnessExpected catalog refs w = Ok tt) (rw_Witnesses rw);
  lo_proofs : Forall (λ p, verifyPGPublicProofExpected catalog refs p = Ok tt) (rw_PublicProofs rw);
  lo_guard : Forall (λ r, check_guard_ref catalog refs (covered_sources (rw_Witnesses rw)) r = Ok tt) (rw_Refs rw);
  lo_identity id occ : catalog !! id = Some occ → so_Kind occ = SourceEntityRangeVar → so_ID occ = id ∧ so_RefID occ = id;
}.

Lemma zip_fst {A B} (l : list A) (k : list B) : length l = length k → (zip l k).*1 = l.
Proof. intros H. by apply fst_zip; rewrite H. Qed.
Lemma zip_snd {A B} (l : list A) (k : list B) : length l = length k → (zip l k).*2 = k.
Proof. intros H. by apply snd_zip; rewrite H. Qed.

Lemma occurrence_identity refs byID covered id occ :
  check_occurrence refs byID covered (id, occ) = Ok tt → so_Kind occ = SourceEntityRangeVar → so_ID occ = id ∧ so_RefID occ = id.
Proof.
  unfold check_occurrence. intros H Hk. rewrite Hk in H. destruct (so_ID occ =? id)%Z eqn:E1; [|done]. cbn [negb] in H. bool_inv. split; [done|].
  rewrite bool_decide_eq_true_2, andb_true_r in H by done. destruct (so_ID occ <? 0)%Z; [done|].
  cbn [negb andb] in H. destruct (so_HasRefID occ); [|done]. cbn [negb orb] in H.
  destruct (so_RefID occ =? so_ID occ)%Z eqn:E2; [|done]. bool_inv. lia.
Qed.

Lemma layout_inv rw refs :
  verifyPGExpectedLayout (Some rw) (Some refs) = Ok tt → ∃ catalog, layout_ok rw refs catalog.
Proof.
  unfold verifyPGExpectedLayout. intros H.
  test_in H as E1; [done|]. test_in H as E2; [done|]. test_in H as E3; [done|]. test_in H as E4; [done|]. bool_inv.
  destruct (rw_SourceCatalog rw) as [catalog|] eqn:Ecat; [|done]. exists catalog.
  res_inv. unit_inv.
  unfold claim_witnesses in E. unfold claim_public in E0.
  apply claim_all_ok in E as (Hl1 & Hnd1 & Hr1 & Hc1 & Hun1); [|done].
  apply claim_all_ok in E0 as (Hl2 & Hnd2 & Hr2 & Hc2 & _); [|done].
  rewrite length_replicate in *. rewrite (zip_fst (rw_WitnessPositions rw)) in * by done.
  apply for_each_ok in E7, E8. split; try done.
  - apply NoDup_app. split_and!; [done| |done]. intros p Hp Hq. rewrite Forall_forall in Hr2.
    destruct (Hr2 p Hq) as [Hpr Hx]. apply Hun1 in Hx as [_ Hx]; [done|lia].
  - unfold public_positions, transport_width. rewrite Hl1 in Hr2. apply Forall_app; split; eapply Forall_impl; try done; naive_solver.
  - rewrite <- (zip_snd (rw_WitnessPositions rw) (rw_Witnesses rw)) by done. by apply Forall_fmap.
  - intros id occ Hocc Hk. rewrite Forall_forall in E7.
    eapply occurrence_identity; [|done]. apply E7. by apply elem_of_map_to_list.
Qed.

(** C16: An accepted layout is a partition of the transport. Every transport
    column is claimed by exactly one record: the witness positions and the
    public positions together are a permutation of the column numbers. *)
Theorem layout_partition rw refs :
  verifyPGExpectedLayout (Some rw) (Some refs) = Ok tt →
  rw_WitnessPositions rw ++ public_positions rw ≡ₚ Z.of_nat <$> seq 0 (transport_width rw).
Proof.
  intros [catalog H]%layout_inv. apply submseteq_length_Permutation.
  - apply NoDup_submseteq; [apply H|]. intros p Hp. pose proof (lo_range _ _ _ H) as Hr.
    rewrite Forall_forall in Hr. destruct (Hr p Hp). apply list_elem_of_fmap. exists (Z.to_nat p).
    rewrite elem_of_seq. split; lia.
  - rewrite length_fmap, length_seq, length_app. unfold public_positions, transport_width.
    rewrite length_fmap, (lo_public_length _ _ _ H), (lo_witness_length _ _ _ H). lia.
Qed.

Lemma index_in {A} (l : list A) i : (0 ≤ i < Z.of_nat (length l))%Z → ∃ x, index l i = Ok x ∧ l !! Z.to_nat i = Some x.
Proof.
  intros Hi. destruct (lookup_lt_is_Some_2 l (Z.to_nat i)) as [x Hx]; [lia|]. exists x.
  unfold index. by rewrite (proj2 (Z.ltb_ge i 0)), Hx by lia.
Qed.

Lemma index_ok {A} (l : list A) i x : index l i = Ok x → (0 ≤ i)%Z ∧ l !! Z.to_nat i = Some x.
Proof. unfold index. destruct (i <? 0)%Z eqn:E; [done|]. destruct (l !! _); [|done]. intros [= ->]. bool_inv. done. Qed.

Lemma confirmed_spec refs id b : confirmed refs id = Some b → bound_at refs id = Some b ∧ br_TouchConfirmed b = true.
Proof. unfold confirmed. destruct (bound_at refs id) as [x|]; [|done]. destruct (br_TouchConfirmed x) eqn:E; [|done]. by intros [= ->]. Qed.

(** Every source of a checked dependency list passed its own test. *)
Lemma dependency_checked catalog refs prev deps dep occ :
  check_dependencies catalog refs prev deps = Ok tt → dep ∈ deps → catalog !! sr_Occurrence dep = Some occ →
  so_Kind occ = SourceEntityRangeVar → verifyPGEntitySlot refs (sr_Slot dep) occ = Ok tt.
Proof.
  revert prev. induction deps as [|d deps IH]; intros prev H Hin Hc Hk; [by apply elem_of_nil in Hin|].
  cbn in H. destruct (negb _); [done|]. destruct (catalog !! sr_Occurrence d) as [o|] eqn:Ed; [|done].
  res_inv. unit_inv. apply elem_of_cons in Hin as [->|Hin]; [|by eapply IH].
  rewrite Hc in Ed. injection Ed as <-. by rewrite Hk in E.
Qed.

Lemma slot_in_range refs slot occ b :
  verifyPGEntitySlot refs slot occ = Ok tt → confirmed refs (so_RefID occ) = Some b → sl_Kind slot = SourceSlotColumn →
  (0 ≤ sl_Ordinal slot < Z.of_nat (length (br_Columns b)))%Z.
Proof.
  unfold verifyPGEntitySlot. intros H Hb Hk. rewrite Hk in H. test_in H as E; [done|]. rewrite Hb in H.
  apply evidence_unless_ok in H. bool_inv. lia.
Qed.

(** ** No index is out of range *)

Lemma witness_sources_total catalog refs want l : witness_sources catalog refs want l ≠ Err VPanic.
Proof. revert want. induction l as [|x l IH]; intros want; cbn; [done|]. by repeat case_match. Qed.

Lemma dependencies_total catalog refs prev l : check_dependencies catalog refs prev l ≠ Err VPanic.
Proof.
  revert prev. induction l as [|x l IH]; intros prev; cbn; [done|].
  destruct (negb _); [done|]. destruct (catalog !! _) as [o|]; [|done].
  destruct (so_Kind o); cbn; try done; unfold verifyPGEntitySlot, evidence_unless.
  - destruct (sl_Kind _); cbn; try done; repeat (case_match; cbn; try done).
  - destruct (negb _); cbn; [apply IH|done].
  - destruct (negb _); cbn; [apply IH|done].
Qed.

Lemma proof_total catalog refs p : verifyPGPublicProofExpected catalog refs p ≠ Err VPanic.
Proof.
  unfold verifyPGPublicProofExpected. destruct (negb _); [done|].
  pose proof (dependencies_total catalog refs None (pp_Dependencies p)) as Hd.
  destruct (check_dependencies _ _ _ _) as [[]|e] eqn:Ed; cbn; [|congruence]. clear Hd.
  unfold check_origin. destruct (fo_Kind _); try done.
  destruct (catalog !! _) as [occ|] eqn:Eo; [|done].
  destruct (pgSourceRefIn _ _) eqn:Ein; cbn [negb]; [|done].
  destruct (negb _ || _) eqn:Ek; [done|]. bool_inv.
  destruct (confirmed _ _) as [b|] eqn:Eb; [|done]. destruct (negb _); [done|].
  case_bool_decide as Es; [|done].
  unfold pgSourceRefIn in Ein. apply existsb_exists in Ein as (d & Hd & Heq). bool_inv. subst d.
  apply list_elem_of_In in Hd.
  pose proof (slot_in_range _ _ _ _ (dependency_checked _ _ _ _ _ _ Ed Hd Eo ltac:(done)) Eb Es) as Hr.
  destruct (index_in _ _ Hr) as (c & -> & _). cbn. by destruct (_ && _).
Qed.

Lemma layout_total rw bind : verifyPGExpectedLayout rw bind ≠ Err VPanic.
Proof.
  unfold verifyPGExpectedLayout. destruct rw as [rw|], bind as [refs|]; try done.
  repeat (case_match; [done|]). destruct (rw_SourceCatalog rw) as [catalog|]; [|done].
  destruct (claim_witnesses _ _ _ _) as [coord|e] eqn:E1; cbn.
  2: { intros [= ->]. apply claim_all_error in E1 as [?|(x & _ & Hx)]; [done|]. revert Hx. unfold verifyPGWitnessExpected.
       do 2 (case_match; [done|]). case_match; [|done]. apply witness_sources_total. }
  destruct (claim_public _ _ _ _) as [coord'|e] eqn:E2; cbn.
  2: { intros [= ->]. apply claim_all_error in E2 as [?|(x & _ & Hx)]; [done|]. by apply proof_total in Hx. }
  destruct (negb (existsb _ _)); cbn; [|done].
  assert (∀ l acc, refs_by_id l acc ≠ Err VPanic) as Hrefs.
  { induction l as [|r l IH]; intros acc; cbn; [done|]. by case_match. }
  pose proof (Hrefs (rw_Refs rw) ∅) as Hr. destruct (refs_by_id _ _) as [byID|e]; cbn; [clear Hr|congruence].
  destruct (for_each _ (map_to_list catalog)) as [[]|e] eqn:E3; cbn.
  2: { intros [= ->]. apply for_each_err in E3 as ([id occ] & _ & Hx). revert Hx. unfold check_occurrence, evidence_unless.
       by repeat case_match. }
  destruct (for_each _ (rw_Refs rw)) as [[]|e] eqn:E4; cbn.
  2: { intros [= ->]. apply for_each_err in E4 as (x & _ & Hx). revert Hx. unfold check_guard_ref, evidence_unless.
       by repeat case_match. }
  intros Hx. apply for_each_err in Hx as (x & _ & Hx). revert Hx. unfold check_bound_ref, evidence_unless. by repeat case_match.
Qed.

Lemma witness_position rw refs catalog pos :
  layout_ok rw refs catalog → pos ∈ rw_WitnessPositions rw ++ public_positions rw →
  (0 ≤ pos < Z.of_nat (transport_width rw))%Z.
Proof. intros H Hp. pose proof (lo_range _ _ _ H) as Hr. rewrite Forall_forall in Hr. by apply Hr. Qed.

Lemma witness_fds_total catalog refs fds positions witnesses :
  length positions = length witnesses → Forall (λ p, 0 ≤ p < Z.of_nat (length fds))%Z positions →
  check_witness_fds catalog refs fds positions witnesses ≠ Err VPanic.
Proof.
  revert witnesses. induction positions as [|p ps IH]; intros [|w ws] Hl Hr; try done.
  inversion Hr; subst. cbn. destruct (index_in fds p) as (fd & -> & _); [done|]. cbn.
  destruct (verifyPGWitnessFD _ _ _ _) as [[]|e] eqn:E; cbn; [by apply IH; [injection Hl|]|].
  intros [= ->]. apply for_each_err in E as (src & _ & E). revert E. by repeat case_match.
Qed.

Lemma positions_total fds rw refs :
  verifyPGExpectedLayout (Some rw) (Some refs) = Ok tt → verifyPGPositions fds (Some rw) (Some refs) ≠ Err VPanic.
Proof.
  intros [catalog H]%layout_inv. unfold verifyPGPositions.
  destruct (negb _) eqn:El; [done|]. bool_inv. fold (transport_width rw) in El.
  assert (Forall (λ p, 0 ≤ p < Z.of_nat (length fds))%Z (rw_WitnessPositions rw ++ public_positions rw)) as Hr
    by (rewrite El; apply H).
  apply Forall_app in Hr as [Hw Hp].
  pose proof (witness_fds_total (default ∅ (rw_SourceCatalog rw)) refs fds _ _ (lo_witness_length _ _ _ H) Hw) as Ht.
  destruct (check_witness_fds _ _ _ _ _) as [[]|e]; cbn; [|congruence].
  intros Hx. apply for_each_err in Hx as (p & Hin & Hx). unfold public_positions in Hp. rewrite Forall_fmap, Forall_forall in Hp.
  destruct (index_in fds _ (Hp p Hin)) as (fd & Hfd & _). cbn in Hfd. rewrite Hfd in Hx. cbn in Hx.
  revert Hx. unfold verifyPGPublicFD. by repeat case_match.
Qed.

Lemma positions_width fds rw refs :
  verifyPGPositions fds (Some rw) (Some refs) = Ok tt → length fds = transport_width rw.
Proof. unfold verifyPGPositions. destruct (negb _) eqn:E; [done|]. by bool_inv. Qed.

Lemma public_index {A} rw refs catalog (fds : list A) p :
  layout_ok rw refs catalog → length fds = transport_width rw → p ∈ rw_PublicProofs rw →
  ∃ fd, index fds (pp_TransportIndex p) = Ok fd ∧ fds !! Z.to_nat (pp_TransportIndex p) = Some fd.
Proof.
  intros H Hl Hp. apply index_in. rewrite Hl. eapply witness_position; [done|].
  apply elem_of_app. right. unfold public_positions. by apply list_elem_of_fmap_2.
Qed.

Lemma projection_total type_name upper fds rows rw refs :
  verifyPGExpectedLayout (Some rw) (Some refs) = Ok tt → verifyPGPositions fds (Some rw) (Some refs) = Ok tt →
  projectPGPublicResult type_name upper fds rows rw ≠ Err VPanic.
Proof.
  intros [catalog H]%layout_inv Hpos%positions_width. unfold projectPGPublicResult.
  destruct (map_result _ (imap pair _)) as [cols|e] eqn:Ec; cbn.
  2: { intros [= ->]. apply map_result_err in Ec as ([i p] & Hip & Hx). apply elem_of_lookup_imap in Hip as (j & q & [= -> ->] & Hj).
       destruct (public_index _ _ _ _ q H Hpos ltac:(by eapply list_elem_of_lookup_2)) as (fd & Hfd & _). rewrite Hfd in Hx. cbn in Hx.
       apply lookup_lt_Some in Hj. rewrite (lo_public_length _ _ _ H) in Hj.
       destruct (lookup_lt_is_Some_2 _ _ Hj) as [n Hn]. by rewrite Hn in Hx. }
  destruct (map_result _ rows) as [out|e] eqn:Er; cbn; [done|]. intros [= ->].
  apply map_result_err in Er as (row & _ & Hx). unfold project_row in Hx. destruct (negb _) eqn:El; [done|]. bool_inv.
  destruct (map_result (project_cell row) _) as [cells|e] eqn:Ex; cbn in Hx; [done|]. injection Hx as ->.
  apply map_result_err in Ex as (p & Hp & Hx). unfold project_cell in Hx.
  assert (length row = transport_width rw) as Hrow by congruence.
  destruct (index_in row (pp_TransportIndex p)) as (c & Hc & _).
  { rewrite Hrow. eapply witness_position; [done|]. apply elem_of_app. right. by apply list_elem_of_fmap_2. }
  rewrite Hc in Hx. cbn in Hx. by repeat case_match.
Qed.

(** Verification never indexes out of range. The layout check never
    panics on any records; once it accepts them, neither the comparison with
    any field descriptions nor the projection of any rows does. *)
Theorem verification_total rw refs fds type_name upper rows :
  (∀ rw bind, verifyPGExpectedLayout rw bind ≠ Err VPanic)
  ∧ (verifyPGExpectedLayout (Some rw) (Some refs) = Ok tt →
     verifyPGPositions fds (Some rw) (Some refs) ≠ Err VPanic
     ∧ (verifyPGPositions fds (Some rw) (Some refs) = Ok tt → projectPGPublicResult type_name upper fds rows rw ≠ Err VPanic)).
Proof.
  split; [apply layout_total|]. intros H. split; [by apply positions_total|].
  intros Hp. by eapply projection_total.
Qed.

(** ** What the field descriptions prove *)

Lemma witness_fds_ok catalog refs fds positions witnesses w :
  check_witness_fds catalog refs fds positions witnesses = Ok tt → w ∈ witnesses → length positions = length witnesses →
  ∃ pos fd, pos ∈ positions ∧ fds !! Z.to_nat pos = Some fd ∧ verifyPGWitnessFD catalog refs fd w = Ok tt.
Proof.
  revert witnesses. induction positions as [|p ps IH]; intros [|v ws] H Hw Hl; try done; [by apply elem_of_nil in Hw|].
  cbn in H. res_inv. unit_inv. apply index_ok in E as [_ E]. apply elem_of_cons in Hw as [->|Hw].
  - exists p, a. split_and!; [by left|done|done].
  - destruct (IH ws H Hw) as (pos & fd & ? & ? & ?); [by injection Hl|]. exists pos, fd. split_and!; [by right|done|done].
Qed.

(** The bound relation of one reference, proved by a column the client never sees. *)
Definition witnessed (rw : RewriteResult) (refs : bound_refs) (fds : list FieldDescription) (ref : RangeVarRef) : Prop :=
  ∃ bound pos fd, bound_at refs (rv_RefID ref) = Some bound ∧ br_TouchConfirmed bound = true
    ∧ pos ∈ rw_WitnessPositions rw ∧ pos ∉ public_positions rw
    ∧ fds !! Z.to_nat pos = Some fd ∧ fd_DataTypeOID fd = br_RelTypeOID bound.

(** The origin a public column declares is the bound attribute the server reported. *)
Definition origin_proved (rw : RewriteResult) (refs : bound_refs) (fds : list FieldDescription) (p : PublicColumnProof) : Prop :=
  fo_Kind (pp_FDOrigin p) = FDOriginKnownColumn →
  ∃ id bound fd, bound_at refs id = Some bound ∧ br_TouchConfirmed bound = true
    ∧ fds !! Z.to_nat (pp_TransportIndex p) = Some fd ∧ fd_TableOID fd = ri_RelationOID (br_Identity bound)
    ∧ (sl_Kind (sr_Slot (fo_Source (pp_FDOrigin p))) = SourceSlotColumn → ∃ col,
         br_Columns bound !! Z.to_nat (sl_Ordinal (sr_Slot (fo_Source (pp_FDOrigin p)))) = Some col
         ∧ cmd_RelationOID col = fd_TableOID fd ∧ cmd_AttributeNumber col = to_int16 (fd_TableAttributeNumber fd)).

Lemma guard_ref_witnessed rw refs catalog fds ref :
  layout_ok rw refs catalog → check_witness_fds catalog refs fds (rw_WitnessPositions rw) (rw_Witnesses rw) = Ok tt →
  ref ∈ rw_Refs rw → is_entity_ref ref = true → witnessed rw refs fds ref.
Proof.
  intros H Hfds Href Hent. pose proof (lo_guard _ _ _ H) as Hg. rewrite Forall_forall in Hg. specialize (Hg ref Href).
  unfold check_guard_ref in Hg. rewrite Hent in Hg. cbn [negb] in Hg.
  destruct (confirmed refs (rv_RefID ref)) as [bound|] eqn:Eb; [|done].
  destruct (catalog !! rv_RefID ref) as [occ|] eqn:Eo; [|done]. destruct (negb _) eqn:Ek; [done|]. bool_inv.
  apply evidence_unless_ok in Hg. bool_inv. unfold covered_sources in Hg. rewrite elem_of_list_to_set in Hg.
  apply list_elem_of_In, in_concat in Hg as (srcs & Hsrcs & Hin). apply list_elem_of_In in Hsrcs, Hin.
  apply list_elem_of_fmap in Hsrcs as (w & -> & Hw).
  destruct (witness_fds_ok _ _ _ _ _ _ Hfds Hw (lo_witness_length _ _ _ H)) as (pos & fd & Hpos & Hfd & Hver).
  unfold verifyPGWitnessFD in Hver. apply for_each_ok in Hver. rewrite Forall_forall in Hver. specialize (Hver _ Hin). cbn in Hver.
  rewrite Eo in Hver. destruct (lo_identity _ _ _ H _ _ Eo Ek) as [_ Hid]. rewrite Hid, Eb in Hver.
  destruct (negb _ || _); [done|]. destruct (negb _) eqn:Et in Hver; [done|]. bool_inv.
  apply confirmed_spec in Eb as [??]. exists bound, pos, fd. split_and!; try done.
  pose proof (lo_distinct _ _ _ H) as Hnd. apply NoDup_app in Hnd as (_ & Hnd & _). by apply Hnd.
Qed.

Lemma public_origin_proved rw refs catalog fds p :
  layout_ok rw refs catalog → p ∈ rw_PublicProofs rw →
  (∃ fd, index fds (pp_TransportIndex p) = Ok fd ∧ verifyPGPublicFD fd p = Ok tt) → origin_proved rw refs fds p.
Proof.
  intros H Hp (fd & Hfd & Hver) Hk. apply index_ok in Hfd as [_ Hfd].
  pose proof (lo_proofs _ _ _ H) as Hpr. rewrite Forall_forall in Hpr. specialize (Hpr p Hp).
  unfold verifyPGPublicProofExpected in Hpr. destruct (negb _); [done|]. res_inv. unit_inv.
  unfold check_origin in Hpr. rewrite Hk in Hpr. destruct (catalog !! _) as [occ|]; [|done].
  destruct (negb (pgSourceRefIn _ _)); [done|]. destruct (negb _ || _); [done|].
  destruct (confirmed refs (so_RefID occ)) as [bound|] eqn:Eb; [|done]. destruct (negb _) eqn:Er in Hpr; [done|]. bool_inv.
  unfold verifyPGPublicFD in Hver. rewrite Hk in Hver. cbn in Hver. destruct (_ || _) eqn:Ev in Hver; [done|]. bool_inv.
  apply confirmed_spec in Eb as [??]. exists (so_RefID occ), bound, fd. split_and!; try done; [congruence|].
  intros Hs. rewrite bool_decide_eq_true_2 in Hpr by done. res_inv.
  apply index_ok in E0 as [_ E0]. apply evidence_unless_ok in Hpr. bool_inv. eexists. split_and!; [done|congruence..].
Qed.

(** A verified result is bound to the relations the gate locked. When both
    checks accept, each relation the guard found in the statement has a
    confirmed binding and a hidden witness column of exactly that relation's
    row type, and each public column with a declared origin was reported by the
    server as that very attribute of a confirmed relation. *)
Theorem verified_identity rw refs fds :
  verifyPGExpectedLayout (Some rw) (Some refs) = Ok tt → verifyPGPositions fds (Some rw) (Some refs) = Ok tt →
  (∀ ref, ref ∈ rw_Refs rw → is_entity_ref ref = true → witnessed rw refs fds ref)
  ∧ (∀ p, p ∈ rw_PublicProofs rw → origin_proved rw refs fds p).
Proof.
  intros [catalog H]%layout_inv Hp. unfold verifyPGPositions in Hp. destruct (negb _); [done|].
  rewrite (lo_catalog _ _ _ H) in Hp. cbn [default from_option id] in Hp. res_inv. unit_inv. split.
  - intros ref. by eapply guard_ref_witnessed.
  - apply for_each_ok in Hp. intros p Hin. eapply public_origin_proved; [done..|].
    rewrite Forall_forall in Hp. specialize (Hp p Hin). cbn in Hp. res_inv. eauto.
Qed.

(** ** What is delivered *)

(** The delivered cell and its mark, of a transported cell. *)
Definition delivered_cell (cell : option bytes) (out : option bytes) (mark : bool) : Prop :=
  match cell with
  | None => out = None ∧ mark = false
  | Some text => ∃ kept, TruncateCellText text ResultCellMaxBytes = Ok (kept, mark) ∧ out = Some kept
  end.

Definition row_delivered (rw : RewriteResult) (row : list (option bytes)) (out : list (option bytes)) (marks : list bool) : Prop :=
  length out = length (rw_Public rw) ∧ length marks = length (rw_Public rw)
  ∧ ∀ i p, rw_PublicProofs rw !! i = Some p → ∃ cell c m,
      row !! Z.to_nat (pp_TransportIndex p) = Some cell ∧ out !! i = Some c ∧ marks !! i = Some m ∧ delivered_cell cell c m.

Lemma project_row_ok rw fds row out marks :
  length (rw_PublicProofs rw) = length (rw_Public rw) →
  project_row fds (rw_PublicProofs rw) row = Ok (out, marks) → row_delivered rw row out marks.
Proof.
  intros Hl H. unfold project_row in H. destruct (negb _); [done|]. res_inv.
  apply map_result_ok in E. pose proof (Forall2_length _ _ _ E) as Hlen.
  split_and!; [rewrite length_fmap; lia|rewrite length_fmap; lia|].
  intros i p Hp. destruct (Forall2_lookup_l _ _ _ _ _ E Hp) as ([c m] & Hc & Hcell). unfold project_cell in Hcell. res_inv.
  apply index_ok in E0 as [_ E0]. exists a0, c, m. rewrite !list_lookup_fmap, Hc. split_and!; [done..|].
  destruct a0 as [text|]; cbn; [|by simplify_eq]. destruct (TruncateCellText _ _) as [[kept cut]|] eqn:Et; [|done].
  simplify_eq. eauto.
Qed.

(** Two transport rows of one width that agree on the public columns. *)
Definition agree_public (rw : RewriteResult) (row row' : list (option bytes)) : Prop :=
  length row = length row' ∧ ∀ p, p ∈ public_positions rw → row !! Z.to_nat p = row' !! Z.to_nat p.

Lemma map_result_ext {E A B} (f g : A → result E B) l : (∀ x, x ∈ l → f x = g x) → map_result f l = map_result g l.
Proof.
  induction l as [|x l IH]; intros H; cbn; [done|]. rewrite (H x) by left.
  rewrite IH; [done|]. intros y Hy. apply H. by right.
Qed.

Lemma map_result_ext2 {E A B} (f : A → result E B) l l' :
  Forall2 (λ x y, f x = f y) l l' → map_result f l = map_result f l'.
Proof. induction 1 as [|x y l l' Hxy Hl IH]; cbn; [done|]. by rewrite Hxy, IH. Qed.

Lemma hidden_columns type_name upper fds rows rows' rw :
  Forall2 (agree_public rw) rows rows' →
  projectPGPublicResult type_name upper fds rows rw = projectPGPublicResult type_name upper fds rows' rw.
Proof.
  intros H. unfold projectPGPublicResult. destruct (map_result _ (imap pair _)); cbn; [|done].
  rewrite (map_result_ext2 _ rows rows'); [done|]. eapply Forall2_impl; [exact H|]. intros row row' [Hl Hp]. cbn.
  unfold project_row. rewrite Hl. destruct (negb _); [done|].
  rewrite (map_result_ext _ (project_cell row')); [done|]. intros p Hin. unfold project_cell, index.
  destruct (_ <? 0)%Z; [done|]. cbn. rewrite Hp; [done|]. unfold public_positions. by apply list_elem_of_fmap_2.
Qed.

(** Only the public columns are delivered, each cut to the display
    contract. The names are the public names in order; every delivered cell is
    NULL or the longest valid prefix of the transported cell at its column's
    recorded position, marked exactly by the cut; and the witness columns
    cannot influence anything delivered. *)
Theorem projection_exact type_name upper fds rows rw refs cols out marks :
  verifyPGExpectedLayout (Some rw) (Some refs) = Ok tt →
  projectPGPublicResult type_name upper fds rows rw = Ok (cols, out, marks) →
  pc_Name <$> cols = rw_Public rw
  ∧ Forall2 (λ row om, row_delivered rw row om.1 om.2) rows (zip out marks)
  ∧ length out = length rows ∧ length marks = length rows
  ∧ ∀ rows', Forall2 (agree_public rw) rows rows' →
      projectPGPublicResult type_name upper fds rows' rw = Ok (cols, out, marks).
Proof.
  intros [catalog H]%layout_inv Hp. pose proof (lo_public_length _ _ _ H) as Hl. pose proof Hp as Hp'.
  unfold projectPGPublicResult in Hp. res_inv. apply map_result_ok in E, E0.
  pose proof (Forall2_length _ _ _ E0) as Hlen. split_and!.
  - apply list_eq. intros i. rewrite list_lookup_fmap. pose proof (Forall2_length _ _ _ E) as Hlc. rewrite length_imap in Hlc.
    destruct (rw_PublicProofs rw !! i) as [p|] eqn:Ep.
    + destruct (Forall2_lookup_l _ _ _ i (i, p) E) as (c & Hc & Hcol); [by rewrite list_lookup_imap, Ep|].
      rewrite Hc. cbn in Hcol |- *. res_inv. destruct (rw_Public rw !! i); by simplify_eq.
    + apply lookup_ge_None in Ep. by rewrite !lookup_ge_None_2 by lia.
  - rewrite zip_with_fst_snd. assert (uncurry pair <$> a0 = a0) as ->.
    { rewrite <- (list_fmap_id a0) at 2. apply list_fmap_ext. by intros i [??] _. }
    eapply Forall2_impl; [exact E0|]. intros row [o m]. by apply project_row_ok.
  - by rewrite length_fmap.
  - by rewrite length_fmap.
  - intros rows' Hr. by rewrite <- (hidden_columns _ _ _ rows rows' rw).
Qed.

(** ** A verified run *)

(** [SELECT id FROM users], with one witness column after the public one. *)
Definition sample_bound : PGBoundRef :=
  MkBoundRef 0 (gs "app") (gs "users") (gs "users") (RelationIdentity 5 16384) 16386 (gs "r") true
    [MkColumnMetadata (gs "id") 20 (-1) 16384 1].
Definition sample_proof : PublicColumnProof :=
  MkProof 0 ProofComplete [MkSourceRef 0 (MkSlot SourceSlotColumn 0)]
    (MkFDOrigin FDOriginKnownColumn (MkSourceRef 0 (MkSlot SourceSlotColumn 0)) 16384 1).
Definition sample_ref : RangeVarRef := MkRangeVarRef 0 [] RefEntity (gs "users") [] [] [] 15 true.
Definition sample_rewrite : RewriteResult :=
  MkRewrite (gs "SELECT id, (SELECT users) FROM app.users")
    [MkWitness (gs "__chub_w1") (gs "app") (gs "users") (gs "users") [0%Z] 0] [1%Z] [gs "id"] [sample_proof]
    (Some {[0%Z := MkOccurrence 0 SourceEntityRangeVar 0 true]}) [sample_ref] (gs "SELECT id FROM app.users").
Definition sample_refs : bound_refs := {[0%Z := Some sample_bound]}.
Definition sample_fds : list FieldDescription :=
  [MkFD (gs "id") 16384 1 20 (-1); MkFD (gs "__chub_w1") 0 0 16386 (-1)].

Lemma sample_layout : verifyPGExpectedLayout (Some sample_rewrite) (Some sample_refs) = Ok tt.
Proof. vm_compute. reflexivity. Qed.
Lemma sample_positions : verifyPGPositions sample_fds (Some sample_rewrite) (Some sample_refs) = Ok tt.
Proof. vm_compute. reflexivity. Qed.

Lemma layout_partition_witness :
  [1; 0]%Z ≡ₚ Z.of_nat <$> seq 0 2.
Proof. exact (layout_partition sample_rewrite sample_refs sample_layout). Defined.

Lemma verified_identity_witness :
  witnessed sample_rewrite sample_refs sample_fds sample_ref
  ∧ verifyPGPositions [MkFD (gs "id") 16384 1 20 (-1); MkFD (gs "__chub_w1") 0 0 99999 (-1)]
      (Some sample_rewrite) (Some sample_refs)
    = Err (bindingMismatch (gs "pgsql: witness column bound an unexpected relation type")).
Proof.
  split; [|vm_compute; reflexivity].
  destruct (verified_identity sample_rewrite sample_refs sample_fds sample_layout sample_positions) as [H _].
  apply H; [by left|reflexivity].
Defined.

Lemma projection_exact_witness :
  ∃ cols out marks,
    projectPGPublicResult (λ _, Some (gs "int8")) (λ s, s) sample_fds [[Some (gs "7"); Some (gs "(7)")]] sample_rewrite = Ok (cols, out, marks)
    ∧ pc_Name <$> cols = [gs "id"] ∧ out = [[Some (gs "7")]].
Proof.
  destruct (projectPGPublicResult (λ _, Some (gs "int8")) (λ s, s) sample_fds [[Some (gs "7"); Some (gs "(7)")]] sample_rewrite)
    as [[[cols out] marks]|e] eqn:E; [|vm_compute in E; discriminate E].
  exists cols, out, marks. split; [reflexivity|].
  destruct (projection_exact _ _ _ _ _ _ _ _ _ sample_layout E) as (Hn & _). split; [exact Hn|].
  vm_compute in E. injection E as <- <- <-. reflexivity.
Defined.

Lemma verification_total_witness :
  verifyPGExpectedLayout None None ≠ Err VPanic
  ∧ verifyPGPositions [] (Some sample_rewrite) (Some sample_refs) ≠ Err VPanic.
Proof.
  destruct (verification_total sample_rewrite sample_refs [] (λ _, None) (λ s, s) []) as [H1 H2].
  split; [apply H1|]. apply H2, sample_layout.
Defined.
