(* ===== verification/PgDisclosure.v ===== *)
(** * Disclosure governance of a PostgreSQL attempt

    [internal/service/pg_disclosure.go]: the attempt's own proof records decide
    which policies govern each public column, the plan is made before the
    statement is sent, and the verified rows are masked by position. *)
From S2P Require Import Prelude GoText ExecModel ResultContract PgPagination PgErrors PgVerifier.

(** ** Errors *)

(** The failure of a verification step as the attempt sees it; [None] is a panic. *)
Definition verify_pg_error (e : verify_error) : option pg_error :=
  match e with
  | VEvidence => Some (wrap IsEvidence)
  | VTooLarge => Some (wrap IsTooLarge)
  | VReject r => Some (rejected r)
  | VPanic => None
  end.

(** ** Policy scopes *)

Abbreviation pgPolicyKey := (bytes * bytes * bytes * bytes)%type. (** database, schema, object, column *)

Record pgColumnDecision : Type := ColumnDecision {
  cdn_mode : bytes;
  cdn_copyAllowed : bool;
  cdn_keys : list pgPolicyKey;
}.
Definition pgDisclosurePlan : Type := list pgColumnDecision.

(** What [GetByScope] answers: a stored mode, or an error and which of the
    sentinels [sql.ErrNoRows], canceled and deadline it wraps. *)
Inductive policy_read : Type :=
  | PolicyFound (mode : bytes)
  | PolicyFailed (no_rows canceled deadline : bool).

(** The governed columns of one dependency. *)
Definition dependency_keys (database : bytes) (catalog : gmap Z SourceOccurrence) (refs : bound_refs) (dep : SourceRef)
    : result pg_error (list pgPolicyKey) :=
  let evidence := Err (wrap IsEvidence) in
  match catalog !! sr_Occurrence dep with
  | None => evidence
  | Some occ =>
    match so_Kind occ with
    | SourceEntityRangeVar =>
      match bound_at refs (so_RefID occ) with
      | None => evidence
      | Some bound =>
        if negb (so_HasRefID occ) || negb (br_TouchConfirmed bound) || (br_CatalogName bound =?b []) then evidence
        else match sl_Kind (sr_Slot dep) with
        | SourceSlotColumn =>
          let ord := sl_Ordinal (sr_Slot dep) in
          if (ord <? 0)%Z then evidence
          else match br_Columns bound !! Z.to_nat ord with
          | None => evidence
          | Some col => Ok [(database, br_Schema bound, br_CatalogName bound, cmd_Name col)]
          end
        | SourceSlotWholeRow =>
          if br_Columns bound is [] then evidence
          else Ok ((λ col, (database, br_Schema bound, br_CatalogName bound, cmd_Name col)) <$> br_Columns bound)
        | SourceSlotUnknown => evidence
        end
      end
    | SourceDerived | SourceNonEntity => Ok []
    | _ => evidence
    end
  end.

Section plan.
(** The answer to the n-th policy read of an attempt. *)
Context (reader : nat → pgPolicyKey → policy_read).

(** The modes read so far, and the number of reads. *)
Record plan_state : Type := PlanState { ps_cache : gmap pgPolicyKey bytes; ps_reads : nat }.

Definition read_mode (key : pgPolicyKey) (st : plan_state) : result pg_error (bytes * plan_state) :=
  match ps_cache st !! key with
  | Some mode => Ok (mode, st)
  | None =>
    match reader (ps_reads st) key with
    | PolicyFailed no_rows canceled deadline =>
      Err (wrap (if no_rows then IsBlocked else if canceled then IsCanceled else if deadline then IsDeadline
                 else IsDisclosureBackend))
    | PolicyFound mode =>
      if negb (disclosure_mode_Validate mode) then Err (wrap IsBlocked)
      else Ok (mode, PlanState (<[key := mode]> (ps_cache st)) (1 + ps_reads st))
    end
  end.

(** The loop over a column's keys; [seen] is the set of keys already listed. *)
Fixpoint decide_keys (keys : list pgPolicyKey) (seen : gset pgPolicyKey) (dec : pgColumnDecision) (st : plan_state)
    : result pg_error (pgColumnDecision * plan_state) :=
  match keys with
  | [] => Ok (dec, st)
  | key :: keys =>
    '(mode, st) ← read_mode key st;
    let listed := if bool_decide (key ∈ seen) then cdn_keys dec else cdn_keys dec ++ [key] in
    let dec := if mode =?b ResultDisclosureMaskedNoCopy
               then ColumnDecision ResultDisclosureMaskedNoCopy false listed
               else ColumnDecision (cdn_mode dec) (cdn_copyAllowed dec) listed in
    decide_keys keys ({[key]} ∪ seen) dec st
  end.

Definition decide_column (database : bytes) (catalog : gmap Z SourceOccurrence) (refs : bound_refs)
    (proof : PublicColumnProof) (st : plan_state) : result pg_error (pgColumnDecision * plan_state) :=
  if negb (pp_Resolution proof =?b ProofComplete) then Err (wrap IsEvidence)
  else
    keys ← map_result (dependency_keys database catalog refs) (pp_Dependencies proof);
    decide_keys (concat keys) ∅ (ColumnDecision ResultDisclosureRawCopyAllowed true []) st.

Fixpoint decide_columns (database : bytes) (catalog : gmap Z SourceOccurrence) (refs : bound_refs)
    (proofs : list PublicColumnProof) (st : plan_state) : result pg_error pgDisclosurePlan :=
  match proofs with
  | [] => Ok []
  | proof :: proofs =>
    '(dec, st) ← decide_column database catalog refs proof st;
    plan ← decide_columns database catalog refs proofs st;
    Ok (dec :: plan)
  end.

Definition resolvePGDisclosurePlan (database : bytes) (rw : option RewriteResult) (bind : option bound_refs)
    : result pg_error pgDisclosurePlan :=
  match rw, bind with
  | Some rw, Some refs =>
    decide_columns database (default ∅ (rw_SourceCatalog rw)) refs (rw_PublicProofs rw) (PlanState ∅ 0)
  | _, _ => Err (wrap IsEvidence)
  end.
End plan.

(** ** The transform *)

Record PGVerifiedResult : Type := VerifiedResult {
  vr_Columns : list PGResultColumn;
  vr_Rows : text_rows;
  vr_CellTruncated : matrix;
  vr_Page : PageResult;
  vr_FetchCount : Z;
  vr_Refs : list RangeVarRef;
  vr_PublicProofs : list PublicColumnProof;
  vr_Sources : gmap Z SourceOccurrence;
  vr_BoundRefs : bound_refs;
}.

Record PGDisclosedColumn : Type := DisclosedColumn {
  dc_Column : PGResultColumn;
  dc_DisplayMode : bytes;
  dc_CopyAllowed : bool;
}.

(** [dr_Rows] is [None] for a nil outer slice. *)
Record PGDisclosedResult : Type := DisclosedResult {
  pd_Columns : list PGDisclosedColumn;
  pd_Rows : option text_rows;
  pd_CellTruncated : matrix;
  pd_Page : PageResult;
  pd_FetchCount : Z;
  pd_Refs : list RangeVarRef;
  pd_PublicProofs : list PublicColumnProof;
  pd_Sources : gmap Z SourceOccurrence;
  pd_BoundRefs : bound_refs;
}.

Definition clonePGRefSlice (l : list RangeVarRef) : list RangeVarRef :=
  (λ r, MkRangeVarRef (rv_RefID r) ([] ++ rv_Path r) (rv_Kind r) (rv_Name r) (rv_Schema r) (rv_Catalog r)
          (rv_Alias r) (rv_Loc r) (rv_Witnessable r)) <$> l.
Definition clonePGProofSlice (l : list PublicColumnProof) : list PublicColumnProof :=
  (λ p, MkProof (pp_TransportIndex p) (pp_Resolution p) ([] ++ pp_Dependencies p) (pp_FDOrigin p)) <$> l.
Definition clonePGSourceCatalog (m : gmap Z SourceOccurrence) : gmap Z SourceOccurrence := map_fold (λ k v out, <[k := v]> out) ∅ m.
Definition clonePGBoundRefMap (m : bound_refs) : bound_refs :=
  fmap (M := gmap Z) (λ v, match v with
    | None => None
    | Some b => Some (MkBoundRef (br_RefID b) (br_Schema b) (br_Name b) (br_CatalogName b) (br_Identity b) (br_RelTypeOID b)
                        (br_RelKind b) (br_TouchConfirmed b) ([] ++ br_Columns b))
    end) m.

Definition checkPGCellTruncatedShape (cols : nat) (rows : text_rows) (m : matrix) : result pg_error unit :=
  let damage := Err (wrap IsDisclosureBackend) in
  match m with
  | None => if (length rows =? 0)%nat then Ok tt else damage
  | Some mm => if negb (length mm =? length rows)%nat then damage
               else if existsb (λ r, negb (length r =? cols)%nat) mm then damage else Ok tt
  end.

(** The checks on one column's decision. *)
Definition decision_consistent (dec : pgColumnDecision) : bool :=
  disclosure_mode_Validate (cdn_mode dec)
  && negb ((cdn_mode dec =?b ResultDisclosureRawCopyAllowed) && negb (cdn_copyAllowed dec))
  && negb ((cdn_mode dec =?b ResultDisclosureMaskedNoCopy) && cdn_copyAllowed dec).

Definition disclose_cell (dec : pgColumnDecision) (cell : option bytes) : option bytes :=
  match cell with
  | None => None
  | Some text => if cdn_mode dec =?b ResultDisclosureMaskedNoCopy then Some maskedReplacement else Some text
  end.

Definition disclose_row (plan : pgDisclosurePlan) (row : list (option bytes)) : result pg_error (list (option bytes)) :=
  if negb (length row =? length plan)%nat then Err (wrap IsDisclosureBackend)
  else Ok (zip_with disclose_cell plan row).

Definition applyPGDisclosure (plan : option pgDisclosurePlan) (verified : option PGVerifiedResult)
    : result pg_error PGDisclosedResult :=
  let damage := Err (wrap IsDisclosureBackend) in
  match plan, verified with
  | Some plan, Some v =>
    if (length plan =? 0)%nat then damage
    else if negb (length plan =? length (vr_Columns v))%nat then damage
    else
      _ ← checkPGCellTruncatedShape (length (vr_Columns v)) (vr_Rows v) (vr_CellTruncated v);
      if existsb (λ dec, negb (decision_consistent dec)) plan then damage
      else
        rows ← map_result (disclose_row plan) (vr_Rows v);
        let out := DisclosedResult
          (zip_with (λ dec c, DisclosedColumn c (cdn_mode dec) (cdn_copyAllowed dec)) plan (vr_Columns v))
          (Some rows) (CloneCellTruncated (vr_CellTruncated v)) (vr_Page v) (vr_FetchCount v) (clonePGRefSlice (vr_Refs v))
          (clonePGProofSlice (vr_PublicProofs v)) (clonePGSourceCatalog (vr_Sources v)) (clonePGBoundRefMap (vr_BoundRefs v)) in
        _ ← checkPGCellTruncatedShape (length (pd_Columns out)) rows (pd_CellTruncated out);
        Ok out
  | _, _ => damage
  end.

(** ** The plan *)

(** The columns whose policies govern a public column. *)
Definition governing_keys (database : bytes) (catalog : gmap Z SourceOccurrence) (refs : bound_refs) (proof : PublicColumnProof)
    : result pg_error (list pgPolicyKey) :=
  (λ l, concat l) <$> map_result (dependency_keys database catalog refs) (pp_Dependencies proof).

(** [modes] holds the one mode each scope was read as. *)
Definition modes_read (reader : nat → pgPolicyKey → policy_read) (modes : gmap pgPolicyKey bytes) : Prop :=
  map_Forall (λ key mode, disclosure_mode_Validate mode = true ∧ ∃ n, reader n key = PolicyFound mode) modes.

(** The verdict the modes of the governing columns force. *)
Definition column_governed (modes : gmap pgPolicyKey bytes) (keys : list pgPolicyKey) (dec : pgColumnDecision) : Prop :=
  (∀ key, key ∈ keys → is_Some (modes !! key))
  ∧ ((cdn_mode dec = ResultDisclosureMaskedNoCopy ∧ cdn_copyAllowed dec = false
      ∧ ∃ key, key ∈ keys ∧ modes !! key = Some ResultDisclosureMaskedNoCopy)
     ∨ (cdn_mode dec = ResultDisclosureRawCopyAllowed ∧ cdn_copyAllowed dec = true
        ∧ ∀ key, key ∈ keys → modes !! key = Some ResultDisclosureRawCopyAllowed)).

Lemma valid_mode_cases m :
  disclosure_mode_Validate m = true → m = ResultDisclosureRawCopyAllowed ∨ m = ResultDisclosureMaskedNoCopy.
Proof. unfold disclosure_mode_Validate. intros [H|H]%orb_prop; bool_inv; auto. Qed.

Lemma raw_not_masked : ResultDisclosureRawCopyAllowed ≠ ResultDisclosureMaskedNoCopy.
Proof. by intros H%(f_equal length). Qed.

Section plan_proofs.
Context (reader : nat → pgPolicyKey → policy_read).

Lemma read_mode_ok key st mode st' :
  read_mode reader key st = Ok (mode, st') → modes_read reader (ps_cache st) →
  modes_read reader (ps_cache st') ∧ ps_cache st ⊆ ps_cache st' ∧ ps_cache st' !! key = Some mode.
Proof.
  unfold read_mode. destruct (ps_cache st !! key) as [m|] eqn:E.
  - intros [= -> ->] Hm. auto.
  - destruct (reader (ps_reads st) key) as [m|] eqn:Er; [|done]. destruct (disclosure_mode_Validate m) eqn:Ev; [|done].
    intros [= -> <-] Hm. cbn. split_and!.
    + apply map_Forall_insert_2; eauto.
    + by apply insert_subseteq.
    + apply lookup_insert_eq.
Qed.

Lemma governed_mono (modes modes' : gmap pgPolicyKey bytes) keys dec :
  modes ⊆ modes' → column_governed modes keys dec → column_governed modes' keys dec.
Proof.
  intros Hsub [Hk Hd]. split.
  - intros key Hin. destruct (Hk key Hin) as [m Hm]. exists m. by eapply lookup_weaken.
  - destruct Hd as [(?&?&key&?&?)|(?&?&Hall)]; [left|right]; split_and!; try done.
    + exists key. split; [done|by eapply lookup_weaken].
    + intros key Hin. eapply lookup_weaken; eauto.
Qed.

(** One more key of a column decided so far on [done]. *)
Lemma governed_snoc modes done key mode dec listed :
  disclosure_mode_Validate mode = true → modes !! key = Some mode → column_governed modes done dec →
  column_governed modes (done ++ [key])
    (if mode =?b ResultDisclosureMaskedNoCopy then ColumnDecision ResultDisclosureMaskedNoCopy false listed
     else ColumnDecision (cdn_mode dec) (cdn_copyAllowed dec) listed).
Proof.
  intros Hv Hm [Hk Hd]. assert (∀ k, k ∈ done ++ [key] ↔ k ∈ done ∨ k = key) as Hin
    by (intros k; rewrite elem_of_app, list_elem_of_singleton; done).
  split; [intros k [?| ->]%Hin; eauto|].
  case_bool_decide as Eb; cbn.
  - left. split_and!; [done..|]. exists key. rewrite Hin. subst. auto.
  - destruct (valid_mode_cases mode Hv) as [->|]; [|done].
    destruct Hd as [(?&?&k&?&?)|(?&?&Hall)]; [left|right]; split_and!; try done.
    + exists k. rewrite Hin. auto.
    + intros k [?| ->]%Hin; eauto.
Qed.

Lemma decide_keys_ok keys seen done dec st dec' st' :
  decide_keys reader keys seen dec st = Ok (dec', st') → modes_read reader (ps_cache st) →
  column_governed (ps_cache st) done dec →
  modes_read reader (ps_cache st') ∧ ps_cache st ⊆ ps_cache st' ∧ column_governed (ps_cache st') (done ++ keys) dec'.
Proof.
  revert seen done dec st. induction keys as [|key keys IH]; intros seen done dec st H Hm Hd; cbn [decide_keys] in H.
  { injection H as <- <-. rewrite app_nil_r. auto. }
  destruct (read_mode reader key st) as [[mode st1]|] eqn:Er; [cbn [mbind result_bind] in H|done].
  apply read_mode_ok in Er as (Hm1 & Hs1 & Hk1); [|done].
  apply (IH _ (done ++ [key])) in H as (Hm2 & Hs2 & Hd2); [| done |].
  - rewrite <- app_assoc in Hd2. split; [done|]. split; [by etrans|done].
  - apply governed_snoc; [apply (Hm1 _ _ Hk1)|done|by eapply governed_mono].
Qed.

Lemma decide_column_ok database catalog refs proof st dec st' :
  decide_column reader database catalog refs proof st = Ok (dec, st') → modes_read reader (ps_cache st) →
  ∃ keys, governing_keys database catalog refs proof = Ok keys ∧ modes_read reader (ps_cache st')
    ∧ ps_cache st ⊆ ps_cache st' ∧ column_governed (ps_cache st') keys dec.
Proof.
  unfold decide_column, governing_keys. destruct (negb _); [done|]. destruct (map_result _ _) as [keys|]; cbn; [|done].
  intros H Hm. exists (concat keys). split; [done|]. apply (decide_keys_ok _ _ []) in H; [exact H|done|].
  split; [intros k Hk; by apply elem_of_nil in Hk|]. right. split_and!; [done..|]. intros k Hk. by apply elem_of_nil in Hk.
Qed.

Lemma decide_columns_ok database catalog refs proofs st plan :
  decide_columns reader database catalog refs proofs st = Ok plan → modes_read reader (ps_cache st) →
  ∃ modes, modes_read reader modes ∧ ps_cache st ⊆ modes
    ∧ Forall2 (λ proof dec, ∃ keys, governing_keys database catalog refs proof = Ok keys ∧ column_governed modes keys dec) proofs plan.
Proof.
  revert st plan. induction proofs as [|proof proofs IH]; intros st plan H Hm; cbn in H.
  { injection H as <-. exists (ps_cache st). auto. }
  destruct (decide_column _ _ _ _ _ _) as [[dec st1]|] eqn:Ed; [cbn in H|done]. res_inv.
  apply decide_column_ok in Ed as (keys & Hk & Hm1 & Hs1 & Hd); [|done].
  destruct (IH _ _ E Hm1) as (modes & Hmo & Hs & Hall). exists modes. split_and!; [done|by etrans|].
  constructor; [|done]. exists keys. split; [done|by eapply governed_mono].
Qed.

(** The preflight is fail-closed and consistent. A plan exists only when
    every public column's sources resolve to confirmed bindings and every
    governing column has a valid stored policy; one mode per scope decides the
    whole plan, however often the policy changes meanwhile; a column is raw and
    copyable just when every governing policy is raw, and masked otherwise. *)
Theorem pg_preflight_fail_closed database rw refs plan :
  resolvePGDisclosurePlan reader database (Some rw) (Some refs) = Ok plan →
  ∃ modes, modes_read reader modes
    ∧ Forall2 (λ proof dec, ∃ keys,
        governing_keys database (default ∅ (rw_SourceCatalog rw)) refs proof = Ok keys ∧ column_governed modes keys dec)
      (rw_PublicProofs rw) plan.
Proof.
  intros H. apply decide_columns_ok in H as (modes & Hm & _ & Hall); [eauto|]. apply map_Forall_empty.
Qed.
End plan_proofs.

(** ** The transform *)

Lemma shape_ok cols rows m :
  checkPGCellTruncatedShape cols rows m = Ok tt ↔
  match m with
  | None => rows = []
  | Some mm => length mm = length rows ∧ Forall (λ r, length r = cols) mm
  end.
Proof.
  unfold checkPGCellTruncatedShape. destruct m as [mm|].
  - rewrite <- existsb_width. case_if as E; bool_inv; [split; [done|by intros [? _]]|].
    destruct (existsb _ mm); intuition congruence.
  - destruct rows; cbn; split; done.
Qed.

(** What the transform requires: one consistent decision per column, rows as
    wide as the plan, and a truncation matrix of the rows' shape. *)
Definition disclosable (plan : pgDisclosurePlan) (v : PGVerifiedResult) : Prop :=
  plan ≠ [] ∧ length plan = length (vr_Columns v)
  ∧ Forall (λ dec, decision_consistent dec = true) plan
  ∧ Forall (λ row : list (option bytes), length row = length plan) (vr_Rows v)
  ∧ match vr_CellTruncated v with
    | None => vr_Rows v = []
    | Some mm => length mm = length (vr_Rows v) ∧ Forall (λ r, length r = length plan) mm
    end.

Definition disclosed (plan : pgDisclosurePlan) (v : PGVerifiedResult) : PGDisclosedResult :=
  DisclosedResult
    (zip_with (λ dec c, DisclosedColumn c (cdn_mode dec) (cdn_copyAllowed dec)) plan (vr_Columns v))
    (Some (zip_with disclose_cell plan <$> vr_Rows v)) (vr_CellTruncated v) (vr_Page v) (vr_FetchCount v) (vr_Refs v)
    (vr_PublicProofs v) (vr_Sources v) (vr_BoundRefs v).

Lemma clone_refs_id l : clonePGRefSlice l = l.
Proof. unfold clonePGRefSlice. rewrite <- (list_fmap_id l) at 2. apply list_fmap_ext. by intros i [] _. Qed.
Lemma clone_proofs_id l : clonePGProofSlice l = l.
Proof. unfold clonePGProofSlice. rewrite <- (list_fmap_id l) at 2. apply list_fmap_ext. by intros i [] _. Qed.
Lemma clone_catalog_id m : clonePGSourceCatalog m = m.
Proof.
  unfold clonePGSourceCatalog. apply (map_fold_weak_ind (λ r m, r = m)); [done|]. by intros i x m' r _ ->.
Qed.
Lemma clone_bound_id m : clonePGBoundRefMap m = m.
Proof.
  unfold clonePGBoundRefMap. rewrite <- (map_fmap_id m) at 2. apply map_fmap_ext. by intros i [[]|] _.
Qed.

Lemma disclose_rows_ok plan rows out :
  map_result (disclose_row plan) rows = Ok out ↔
  Forall (λ row : list (option bytes), length row = length plan) rows ∧ out = zip_with disclose_cell plan <$> rows.
Proof.
  rewrite map_result_ok. revert out. induction rows as [|row rows IH]; intros out.
  - split; [by inversion 1|]. intros [_ ->]. constructor.
  - rewrite Forall_cons, fmap_cons. unfold disclose_row at 1. split.
    + inversion 1 as [|? o ? os Ho Hos]; subst. test_in Ho as E; [done|]. bool_inv. injection Ho as <-.
      apply IH in Hos as [? ->]. done.
    + intros [[Hr Hrs] ->]. constructor; [|by apply IH]. case_if as E; bool_inv; [done|done].
Qed.

Lemma decisions_ok plan :
  existsb (λ dec, negb (decision_consistent dec)) plan = false ↔ Forall (λ dec, decision_consistent dec = true) plan.
Proof.
  induction plan as [|dec plan IH]; [by split|]. cbn. rewrite Forall_cons, <- IH, orb_false_iff, negb_false_iff. done.
Qed.

Lemma apply_ok plan v out :
  applyPGDisclosure (Some plan) (Some v) = Ok out ↔ disclosable plan v ∧ out = disclosed plan v.
Proof.
  unfold applyPGDisclosure, disclosable, disclosed.
  rewrite clone_refs_id, clone_proofs_id, clone_catalog_id, clone_bound_id, clone_matrix.
  case_if as E1; bool_inv; [destruct plan; [|done]; split; [done|by intros [[] _]]|].
  case_if as E2; bool_inv; [split; [done|by intros [(_&?&_) _]]|].
  destruct (checkPGCellTruncatedShape _ (vr_Rows v) _) as [[]|] eqn:E3; cbn [mbind result_bind].
  2: { split; [done|]. intros [(_&_&_&_&Hm) _]. rewrite E2 in Hm. apply shape_ok in Hm. congruence. }
  rewrite <- (decisions_ok plan). apply shape_ok in E3. rewrite <- E2 in E3.
  destruct (existsb _ plan); [by split; [|intros [(_&_&?&_) _]]|].
  destruct (map_result _ _) as [rows|] eqn:E4; cbn [mbind result_bind].
  2: { split; [done|]. intros [(_&_&_&Hr&_) _]. pose proof (proj2 (disclose_rows_ok _ _ _) (conj Hr eq_refl)). congruence. }
  apply disclose_rows_ok in E4 as [Hr ->]. cbn.
  assert (checkPGCellTruncatedShape (length (zip_with (λ dec c, DisclosedColumn c (cdn_mode dec) (cdn_copyAllowed dec)) plan
    (vr_Columns v))) (zip_with disclose_cell plan <$> vr_Rows v) (vr_CellTruncated v) = Ok tt) as ->.
  { apply shape_ok. rewrite length_zip_with, E2, Nat.min_id, <- E2, length_fmap.
    destruct (vr_CellTruncated v); [done|]. by rewrite E3. }
  cbn. split; [|by intros [_ ->]]. intros [= <-]. split; [|done]. split_and?; try done. by intros ->.
Qed.

Lemma shape_damage cols rows m e : checkPGCellTruncatedShape cols rows m = Err e → e = wrap IsDisclosureBackend.
Proof. unfold checkPGCellTruncatedShape. repeat case_match; congruence. Qed.

(** Every refusal of the transform is the same backend failure. *)
Lemma apply_damage plan v e : applyPGDisclosure (Some plan) (Some v) = Err e → e = wrap IsDisclosureBackend.
Proof.
  unfold applyPGDisclosure. case_if as E1; [congruence|]. case_if as E2; [congruence|].
  destruct (checkPGCellTruncatedShape _ (vr_Rows v) _) eqn:E3; cbn [mbind result_bind].
  2: { intros [= <-]. by apply shape_damage in E3. }
  case_if as E4; [congruence|]. destruct (map_result _ _) as [rows|] eqn:E5; cbn [mbind result_bind].
  2: { intros [= <-]. apply map_result_err in E5 as (row & _ & Hr). unfold disclose_row in Hr. case_match; congruence. }
  destruct (checkPGCellTruncatedShape _ rows _) eqn:E6; cbn [mbind result_bind]; [done|].
  intros [= <-]. by apply shape_damage in E6.
Qed.

(** ** What reaches the client *)

(** What the policies of a column's sources let through of one cell. *)
Definition cell_governed (modes : gmap pgPolicyKey bytes) (keys : list pgPolicyKey) (cell shown : option bytes) : Prop :=
  match cell with
  | None => shown = None
  | Some text =>
      (shown = Some text ∧ ∀ key, key ∈ keys → modes !! key = Some ResultDisclosureRawCopyAllowed)
      ∨ (shown = Some maskedReplacement ∧ ∃ key, key ∈ keys ∧ modes !! key = Some ResultDisclosureMaskedNoCopy)
  end.

Lemma disclosed_cell_governed modes keys dec cell :
  column_governed modes keys dec → cell_governed modes keys cell (disclose_cell dec cell).
Proof.
  intros [_ Hd]. destruct cell as [text|]; [|done]. cbn [disclose_cell cell_governed].
  destruct Hd as [(Hm & _ & Hk)|(Hm & _ & Hk)]; rewrite Hm.
  - right. by rewrite bool_decide_true.
  - left. rewrite bool_decide_false by apply raw_not_masked. done.
Qed.

(** Every cell of every row is governed by the policies of its own column's
    sources: NULL stays NULL, a text is shown exactly when every governing policy
    is raw, otherwise it is the fixed replacement; and a masked column is never
    copyable. *)
Definition shown_as_governed (reader : nat → pgPolicyKey → policy_read) (database : bytes) (rw : RewriteResult) (refs : bound_refs)
    (v : PGVerifiedResult) (out : PGDisclosedResult) : Prop :=
  ∃ modes, modes_read reader modes ∧
    ∀ j proof, rw_PublicProofs rw !! j = Some proof →
    ∃ keys col, governing_keys database (default ∅ (rw_SourceCatalog rw)) refs proof = Ok keys
      ∧ pd_Columns out !! j = Some col
      ∧ (dc_CopyAllowed col = true ↔ ∀ key, key ∈ keys → modes !! key = Some ResultDisclosureRawCopyAllowed)
      ∧ ∀ i row cell, vr_Rows v !! i = Some row → row !! j = Some cell →
        ∃ row' shown, default [] (pd_Rows out) !! i = Some row' ∧ row' !! j = Some shown ∧ cell_governed modes keys cell shown.

(** When a plan was made and applied, what is shown is governed. *)
Lemma disclosure_governed reader database rw refs plan v out :
  resolvePGDisclosurePlan reader database (Some rw) (Some refs) = Ok plan →
  applyPGDisclosure (Some plan) (Some v) = Ok out →
  shown_as_governed reader database rw refs v out.
Proof.
  intros Hp [Hd ->]%apply_ok. destruct Hd as (_ & Hcols & _ & _ & _).
  apply decide_columns_ok in Hp as (modes & Hm & _ & Hall); [|apply map_Forall_empty].
  exists modes. split; [done|]. intros j proof Hj.
  destruct (Forall2_lookup_l _ _ _ _ _ Hall Hj) as (dec & Hdec & keys & Hk & Hg).
  destruct (lookup_lt_is_Some_2 (vr_Columns v) j) as [c Hc]; [rewrite <- Hcols; by eapply lookup_lt_Some|].
  exists keys, (DisclosedColumn c (cdn_mode dec) (cdn_copyAllowed dec)). split_and!; [done|..].
  - cbn. by rewrite lookup_zip_with, Hdec, Hc.
  - destruct Hg as [_ [(_ & Hcp & key & Hin & Hmask)|(_ & Hcp & Hraw)]]; cbn [dc_CopyAllowed]; rewrite Hcp; [|done].
    split; [done|]. intros H. specialize (H key Hin). rewrite Hmask in H. injection H as H. by destruct raw_not_masked.
  - intros i row cell Hi Hcell. exists (zip_with disclose_cell plan row), (disclose_cell dec cell). cbn [disclosed pd_Rows default]. unfold id.
    split_and!; [by rewrite list_lookup_fmap, Hi|by rewrite lookup_zip_with, Hdec; cbn; rewrite Hcell|].
    by apply disclosed_cell_governed.
Qed.

(** Two texts the plan cannot tell apart. *)
Definition same_to (dec : pgColumnDecision) (c c' : option bytes) : Prop :=
  if cdn_mode dec =?b ResultDisclosureMaskedNoCopy then is_Some c ↔ is_Some c' else c = c'.

Definition with_rows (v : PGVerifiedResult) (rows : text_rows) : PGVerifiedResult :=
  VerifiedResult (vr_Columns v) rows (vr_CellTruncated v) (vr_Page v) (vr_FetchCount v) (vr_Refs v) (vr_PublicProofs v)
    (vr_Sources v) (vr_BoundRefs v).

Lemma same_to_disclosed dec c c' : same_to dec c c' → disclose_cell dec c = disclose_cell dec c'.
Proof.
  unfold same_to. destruct c as [t|], c' as [t'|]; cbn [disclose_cell]; case_bool_decide; try congruence.
  - intros [Hs _]. by destruct (Hs ltac:(eauto)).
  - intros [_ Hs]. by destruct (Hs ltac:(eauto)).
Qed.

Lemma same_rows_disclosed plan row row' :
  Forall3 same_to plan row row' → zip_with disclose_cell plan row = zip_with disclose_cell plan row'.
Proof. induction 1; cbn; [done|]. f_equal; [by apply same_to_disclosed|done]. Qed.

(** Masked text is not observable. Rows of the plan's width that differ only
    in the non-NULL texts of masked columns disclose the same result. *)
Theorem masked_text_unobservable (plan : pgDisclosurePlan) v rows' :
  Forall2 (Forall3 same_to plan) (vr_Rows v) rows' →
  applyPGDisclosure (Some plan) (Some (with_rows v rows')) = applyPGDisclosure (Some plan) (Some v).
Proof.
  intros H.
  assert (disclosed plan (with_rows v rows') = disclosed plan v) as Hd.
  { unfold disclosed. cbn. do 2 f_equal. clear -H. induction H; cbn; [done|]. f_equal; [|done]. by symmetry; apply same_rows_disclosed. }
  assert (disclosable plan (with_rows v rows') ↔ disclosable plan v) as Hi.
  { unfold disclosable. cbn. rewrite <- (Forall2_length _ _ _ H).
    assert (Forall (λ row : list (option bytes), length row = length plan) rows' ↔
            Forall (λ row : list (option bytes), length row = length plan) (vr_Rows v)) as ->.
    { clear -H. induction H as [|row row' rows rows' H1 H2 IH]; [done|]. rewrite !Forall_cons, IH.
      apply Forall3_length_lm in H1 as Hl. apply Forall3_length_lr in H1. rewrite <- Hl, <- H1. tauto. }
    assert (rows' = [] ↔ vr_Rows v = []) as Hn by (destruct H; split; done). destruct (vr_CellTruncated v); tauto. }
  destruct (applyPGDisclosure (Some plan) (Some v)) as [out|e] eqn:E.
  - apply apply_ok in E as [Hv ->]. apply apply_ok. rewrite Hd. tauto.
  - destruct (applyPGDisclosure (Some plan) (Some (with_rows v rows'))) as [out'|e'] eqn:E'.
    { apply apply_ok in E' as [Hv ->]. pose proof (proj2 (apply_ok plan v _) (conj (proj1 Hi Hv) eq_refl)) as Hok. by rewrite E in Hok. }
    apply apply_damage in E as ->. by apply apply_damage in E' as ->.
Qed.

(** ** Witnesses *)

Module Ex.
Definition col (name : bytes) : ColumnMetadata := MkColumnMetadata name 25 0 16384 1.
Definition users : PGBoundRef :=
  MkBoundRef 1 (gs "public") (gs "users") (gs "users") (RelationIdentity 5 16384) 16385 (gs "r") true [col (gs "id"); col (gs "name")].
Definition refs : bound_refs := {[1%Z := Some users]}.
Definition proof (ord : Z) : PublicColumnProof :=
  MkProof ord ProofComplete [MkSourceRef 0 (MkSlot SourceSlotColumn ord)]
    (MkFDOrigin FDOriginNoColumnOrigin (MkSourceRef 0 (MkSlot SourceSlotColumn ord)) 0 0).
Definition catalog : gmap Z SourceOccurrence := {[0%Z := MkOccurrence 0 SourceEntityRangeVar 1 true]}.
Definition rw : RewriteResult := MkRewrite [] [] [] [gs "id"; gs "name"] [proof 0; proof 1] (Some catalog) [] [].
Definition key (name : bytes) : pgPolicyKey := (gs "app", gs "public", gs "users", name).
(** Names are masked and identifiers are raw. *)
Definition reader (n : nat) (k : pgPolicyKey) : policy_read :=
  if k =?b key (gs "name") then PolicyFound ResultDisclosureMaskedNoCopy
  else if k =?b key (gs "id") then PolicyFound ResultDisclosureRawCopyAllowed
  else PolicyFailed true false false.
Definition plan : pgDisclosurePlan :=
  [ColumnDecision ResultDisclosureRawCopyAllowed true [key (gs "id")];
   ColumnDecision ResultDisclosureMaskedNoCopy false [key (gs "name")]].
Definition pgcol (name : bytes) : PGResultColumn := MkPGColumn name (gs "TEXT") 25 (-1) 0 0.
Definition verified : PGVerifiedResult :=
  VerifiedResult [pgcol (gs "id"); pgcol (gs "name")] [[Some (gs "7"); Some (gs "Ada")]; [Some (gs "8"); None]]
    (Some [[false; false]; [false; false]]) (PageRes 2 false false) 2 [] (rw_PublicProofs rw) catalog refs.
End Ex.

Example pg_preflight_fail_closed_witness :
  ∃ modes, modes_read Ex.reader modes
    ∧ Forall2 (λ proof dec, ∃ keys,
        governing_keys (gs "app") (default ∅ (rw_SourceCatalog Ex.rw)) Ex.refs proof = Ok keys ∧ column_governed modes keys dec)
      (rw_PublicProofs Ex.rw) Ex.plan.
Proof. apply pg_preflight_fail_closed. vm_compute. reflexivity. Defined.

Example masked_text_unobservable_witness :
  applyPGDisclosure (Some Ex.plan) (Some (with_rows Ex.verified [[Some (gs "7"); Some (gs "Bob")]; [Some (gs "8"); None]]))
  = applyPGDisclosure (Some Ex.plan) (Some Ex.verified).
Proof.
  apply masked_text_unobservable. cbn.
  repeat constructor; unfold same_to; cbn; [intros; eauto|intros; eauto|done|intros [? [=]]..].
Defined.
