(* ===== verification/PgParams.v ===== *)
(** * Bound parameters and the navigation statement of a PostgreSQL attempt

    [internal/service/pg_parameter_plan.go], [pg_navigation.go], the probe text of
    [pg_parameter_validation.go], the quoting of [pg_binding_gate.go] and
    [internal/pgsql/parameters.go]: who may bind values, how a value becomes wire
    text, and the one statement a foreign-key binding stands for. *)
From S2P Require Import Prelude GoText PgPagination PgErrors PgLexer ExecModel TemplateCompiler MysqlEntries.

Definition evidence_unavailable {A} : result pg_error A := Err (wrap IsEvidence).

(** [int32(x)] *)
Definition to_int32 (z : Z) : Z := ((z + 2 ^ 31) `mod` 2 ^ 32 - 2 ^ 31)%Z.

(** ** Parameter plans *)

(** Any other number is an untrusted source. *)
Definition pgParameterSourceTemplate : Z := 1.
Definition pgParameterSourceNavigation : Z := 2.

Record pgParameterPlan : Type := ParameterPlan {
  pn_statement : bytes;
  pn_values : list bytes;
  pn_source : Z;
}.
#[export] Instance plan_eq_dec : EqDecision pgParameterPlan.
Proof. solve_decision. Defined.

Definition encodePGParameterText (arg : tvalue) : result pg_error bytes :=
  let invalid := Err (wrap IsTemplateParameter) in
  let checked text := if contains_byte nul text || negb (valid_string text) then invalid else Ok text in
  match arg with
  | TString v => checked v
  | TInt64 v => checked (format_int v)
  | TBool v => checked (if v then gs "true" else gs "false")
  | _ => invalid
  end.

Definition compilePGPlan (input : TemplateStatementInput) : result compile_error pgParameterPlan :=
  compiled ← CompilePG input;
  values ← map_err (λ _, ErrTemplateParameterInvalid) (map_result encodePGParameterText (cs_Args compiled));
  Ok (ParameterPlan (cs_Statement compiled) values pgParameterSourceTemplate).

Definition snapshotPGParameterPlan (plan : option pgParameterPlan) (statement : bytes) : result pg_error (option pgParameterPlan) :=
  match plan with
  | None => Ok None
  | Some plan =>
    if negb ((pn_source plan =? pgParameterSourceTemplate)%Z || (pn_source plan =? pgParameterSourceNavigation)%Z)
    then evidence_unavailable
    else if negb (pn_statement plan =?b statement) then evidence_unavailable
    else Ok (Some (ParameterPlan (pn_statement plan) ([] ++ pn_values plan) (pn_source plan)))
  end.

(** A wire parameter is never NULL. *)
Definition wireValues (p : pgParameterPlan) : list (option bytes) := Some <$> pn_values p.

(** *** The numbers a statement may refer to *)

Definition errParamRefOutOfRange : pg_error := wrap IsEvidence.
Definition errParamUnreferenced : pg_error := wrap IsEvidence.

(** [have] are the [ParamRef] numbers [walkTree] finds in the guard's tree, and
    [intact] whether the guard result is present and still matches its own
    fingerprint. *)
Definition ValidateParameterBindings (intact : bool) (have : gset Z) (count : Z) : result pg_error unit :=
  if (count <? 0)%Z then evidence_unavailable
  else if negb intact then evidence_unavailable
  else if existsb (λ n, (n <? 1)%Z || (count <? n)%Z) (elements have) then Err errParamRefOutOfRange
  else for_each (λ i : nat, if bool_decide (to_int32 (Z.of_nat i) ∈ have) then Ok tt else Err errParamUnreferenced)
         (seq 1 (Z.to_nat count)).

Definition requireSameParamSet (want got : gset Z) : result pg_error unit :=
  if negb (size got =? size want)%nat then evidence_unavailable
  else if existsb (λ n, negb (bool_decide (n ∈ got))) (elements want) then evidence_unavailable
  else Ok tt.

(** *** The parameter probe *)

Definition pgParameterDescribePrefix : bytes := gs "/*__chub_parameter_probe__*/".
Definition pgParamTypeRejectCodes : list bytes :=
  [gs "22P02"; gs "22003"; gs "22007"; gs "22008"; gs "22018"; gs "22021"; gs "42P18"; gs "42804"; gs "42P08"].

Definition buildPGParameterProbeSQL (n : nat) : bytes :=
  gs "SELECT NULL WHERE FALSE" ++ mjoin ((λ i : nat, gs " AND ($" ++ format_int (Z.of_nat i) ++ gs " IS NULL)") <$> seq 1 n).

Definition parameter_refused : pg_error :=
  rejected (Reject (gs "query_not_allowed") (gs "pgsql: parameter type is not supported by statement context")).

(** ** Quoting *)

(** [strings.ReplaceAll] of one quote by two. *)
Fixpoint double_quotes (s : bytes) : bytes :=
  match s with
  | [] => []
  | c :: s => if c =?b dquote_byte then dquote_byte :: dquote_byte :: double_quotes s else c :: double_quotes s
  end.
Definition pgQuoteIdent (ident : bytes) : bytes := [dquote_byte] ++ double_quotes ident ++ [dquote_byte].
Definition pgQualifiedName (schema name : bytes) : bytes := pgQuoteIdent schema ++ gs "." ++ pgQuoteIdent name.

(** ** The foreign-key binding *)

Record pgNavigationRelation : Type := NavRelation {
  nl_oid : Z; nl_reltype : Z; nl_kind : bytes; nl_schema : bytes; nl_name : bytes;
}.
#[export] Instance nav_relation_eq_dec : EqDecision pgNavigationRelation.
Proof. solve_decision. Defined.

Record pgNavigationColumnPair : Type := NavPair {
  nc_localAttnum : Z; nc_localName : bytes; nc_localTypeOID : Z; nc_localTypmod : Z;
  nc_refAttnum : Z; nc_refName : bytes; nc_refTypeOID : Z; nc_refTypmod : Z;
}.
#[export] Instance nav_pair_eq_dec : EqDecision pgNavigationColumnPair.
Proof. solve_decision. Defined.

Record pgNavigationBinding : Type := NavBinding {
  nb_databaseOID : Z;
  nb_constraintOID : Z;
  nb_fkName : bytes;
  nb_source : pgNavigationRelation;
  nb_target : pgNavigationRelation;
  nb_pairs : list pgNavigationColumnPair;
}.

(** Equality of the first pairs, as the indexed loop compares them; [None] when
    the other list is shorter and the index is out of range. *)
Fixpoint same_pairs (ps qs : list pgNavigationColumnPair) : option bool :=
  match ps, qs with
  | [], _ => Some true
  | p :: ps, q :: qs => if negb (p =?b q) then Some false else same_pairs ps qs
  | _ :: _, [] => None
  end.
Definition sameAs (b : pgNavigationBinding) (o : option pgNavigationBinding) : option bool :=
  match o with
  | None => Some false
  | Some o =>
    if negb (nb_databaseOID b =? nb_databaseOID o)%Z || negb (nb_constraintOID b =? nb_constraintOID o)%Z
       || negb (nb_fkName b =?b nb_fkName o) || negb (nb_source b =?b nb_source o) || negb (nb_target b =?b nb_target o)
       || negb (length (nb_pairs b) =? length (nb_pairs o))%nat
    then Some false else same_pairs (nb_pairs b) (nb_pairs o)
  end.

(** One row of the metadata probe. *)
Record nav_row : Type := NavRow {
  nw_dbOID : Z; nw_conOID : Z;
  nw_src : pgNavigationRelation; nw_dst : pgNavigationRelation;
  nw_pos : Z; nw_conkey : Z; nw_confkey : Z;
  nw_pair : pgNavigationColumnPair;
}.

(** The loop's state: the binding so far with the cardinalities of its first row. *)
Definition nav_acc : Type := option (pgNavigationBinding * Z * Z).

Definition add_pair (b : pgNavigationBinding) (p : pgNavigationColumnPair) : pgNavigationBinding :=
  NavBinding (nb_databaseOID b) (nb_constraintOID b) (nb_fkName b) (nb_source b) (nb_target b) (nb_pairs b ++ [p]).

(** One scanned row. *)
Definition nav_step (fkName : bytes) (acc : nav_acc) (r : nav_row) : result pg_error nav_acc :=
  '(b, ck, cf) ← match acc with
    | None => Ok (NavBinding (nw_dbOID r) (nw_conOID r) fkName (nw_src r) (nw_dst r) [], nw_conkey r, nw_confkey r)
    | Some (b, ck, cf) =>
      if negb (nw_dbOID r =? nb_databaseOID b)%Z || negb (nw_conOID r =? nb_constraintOID b)%Z
         || negb (nw_conkey r =? ck)%Z || negb (nw_confkey r =? cf)%Z
         || negb (nw_src r =?b nb_source b) || negb (nw_dst r =?b nb_target b)
      then Err errPGNavMetaInternal else Ok (b, ck, cf)
    end;
  let p := nw_pair r in
  if negb (nw_pos r =? to_int32 (Z.of_nat (1 + length (nb_pairs b))))%Z || negb (nw_conkey r =? nw_confkey r)%Z
     || (nc_localAttnum p <=? 0)%Z || (nc_refAttnum p <=? 0)%Z || (nc_localName p =?b []) || (nc_refName p =?b [])
  then Err errPGNavMetaInternal
  else Ok (Some (add_pair b p, ck, cf)).

Fixpoint nav_rows (fkName : bytes) (acc : nav_acc) (rows : list (result pg_error nav_row)) : result pg_error nav_acc :=
  match rows with
  | [] => Ok acc
  | row :: rows => r ← row; acc ← nav_step fkName acc r; nav_rows fkName acc rows
  end.

(** [rows] are what [Scan] answers for each row, [end_err] what [rows.Err] does. *)
Definition readPGNavigationBinding (rows : list (result pg_error nav_row)) (end_err : option pg_error) (fkName : bytes)
    : result pg_error (option pgNavigationBinding) :=
  acc ← nav_rows fkName None rows;
  match end_err with
  | Some e => Err e
  | None =>
    match acc with
    | None => Ok None
    | Some (b, ck, cf) =>
      let n := length (nb_pairs b) in
      if (MaxLocalValuesCount <? n)%nat || negb (to_int32 (Z.of_nat n) =? ck)%Z || negb (to_int32 (Z.of_nat n) =? cf)%Z
      then Err errPGNavMetaInternal else Ok (Some b)
    end
  end.

Definition navPrepFail (e : pg_error) : pg_error :=
  if error_is e IsCanceled then wrap IsCanceled
  else if error_is e IsDeadline || error_is e IsTimeout || isPGQueryCanceled e then wrap IsTimeout
  else if error_is e IsVersionUnsupported then wrap IsVersionUnsupported
  else if error_is e IsConnectFailed then wrap IsConnectFailed
  else if error_is e IsVersionReadFailed then wrap IsVersionReadFailed
  else if error_is e IsNavNoSource then wrap IsNavNoSource
  else errPGNavMetaInternal.

(** ** The navigation statement *)

Fixpoint nav_predicates (i : nat) (pairs : list pgNavigationColumnPair) (values : list bytes)
    : result pg_error (bytes * list bytes) :=
  match pairs, values with
  | col :: pairs, v :: values =>
    text ← encodePGParameterText (TString v);
    '(sql, owned) ← nav_predicates (1 + i) pairs values;
    let lead := if (0 <? i)%nat then gs " AND " else [] in
    Ok (lead ++ pgQuoteIdent (nc_refName col) ++ gs " = $" ++ format_int (Z.of_nat (1 + i)) ++ sql, text :: owned)
  | _, _ => Ok ([], [])
  end.

Definition newPGNavigationPlan (binding : option pgNavigationBinding) (values : list bytes) : result pg_error pgParameterPlan :=
  match binding with
  | None => evidence_unavailable
  | Some b =>
    if (length (nb_pairs b) =? 0)%nat || negb (length values =? length (nb_pairs b))%nat then evidence_unavailable
    else
      '(sql, owned) ← nav_predicates 0 (nb_pairs b) values;
      Ok (ParameterPlan (gs "SELECT * FROM " ++ pgQualifiedName (nl_schema (nb_target b)) (nl_name (nb_target b))
            ++ gs " WHERE " ++ sql) owned pgParameterSourceNavigation)
  end.

(** ** The attempt's own copy *)

Definition validPGNavKind (kind : bytes) : bool := (kind =?b gs "r") || (kind =?b gs "p").
Definition pgNavNameOK (s : bytes) : bool := negb (s =?b []) && valid_string s && negb (contains_byte nul s).

Definition nav_relation_ok (r : pgNavigationRelation) : bool :=
  negb (nl_oid r =? 0)%Z && negb (nl_reltype r =? 0)%Z && validPGNavKind (nl_kind r) && pgNavNameOK (nl_schema r)
  && pgNavNameOK (nl_name r).
Definition nav_pair_ok (p : pgNavigationColumnPair) : bool :=
  (0 <? nc_localAttnum p)%Z && (0 <? nc_refAttnum p)%Z && negb (nc_localTypeOID p =? 0)%Z && negb (nc_refTypeOID p =? 0)%Z
  && pgNavNameOK (nc_localName p) && pgNavNameOK (nc_refName p).

Definition snapshotPGNavigationBinding (nav : option pgNavigationBinding) : result pg_error (option pgNavigationBinding) :=
  match nav with
  | None => Ok None
  | Some b =>
    if (nb_databaseOID b =? 0)%Z || (nb_constraintOID b =? 0)%Z || negb (pgNavNameOK (nb_fkName b))
       || negb (nav_relation_ok (nb_source b)) || negb (nav_relation_ok (nb_target b))
       || (length (nb_pairs b) =? 0)%nat || (MaxLocalValuesCount <? length (nb_pairs b))%nat
    then evidence_unavailable
    else
      _ ← for_each (λ p, if nav_pair_ok p then Ok tt else evidence_unavailable) (nb_pairs b);
      Ok (Some (NavBinding (nb_databaseOID b) (nb_constraintOID b) (nb_fkName b) (nb_source b) (nb_target b) ([] ++ nb_pairs b)))
  end.

(** ** Parameter bindings *)

Definition int32_ok (z : Z) : Prop := (- 2 ^ 31 ≤ z < 2 ^ 31)%Z.
Lemma to_int32_id z : int32_ok z → to_int32 z = z.
Proof. unfold int32_ok, to_int32. intros. rewrite Z.mod_small; lia. Qed.
Lemma to_int32_range z : int32_ok (to_int32 z).
Proof. unfold int32_ok, to_int32. pose proof (Z.mod_pos_bound (z + 2 ^ 31) (2 ^ 32) ltac:(lia)). lia. Qed.

(** A bound plan is accepted exactly when the statement refers to the numbers
    1 to its length, each at least once. *)
Theorem parameter_bindings_dense have count :
  set_Forall int32_ok have →
  ValidateParameterBindings true have count = Ok tt ↔ (0 ≤ count)%Z ∧ ∀ n, n ∈ have ↔ (1 ≤ n ≤ count)%Z.
Proof.
  intros H32. unfold ValidateParameterBindings. cbn [negb]. destruct (count <? 0)%Z eqn:Ec; bool_inv; [split; [done|lia]|].
  destruct (existsb _ _) eqn:Ex.
  - split; [done|]. intros [_ H]. apply existsb_exists in Ex as (n & Hn & Hb).
    apply list_elem_of_In, elem_of_elements, H in Hn. apply orb_prop in Hb as [Hb|Hb]; bool_inv; lia.
  - assert (∀ n, n ∈ have → (1 ≤ n ≤ count)%Z) as Hrange.
    { intros n Hn. destruct (existsb_exists (λ n, (n <? 1)%Z || (count <? n)%Z) (elements have)) as [_ Hex].
      destruct ((n <? 1)%Z || (count <? n)%Z) eqn:En; [|bool_inv; lia].
      rewrite Hex in Ex; [done|]. exists n. split; [by apply list_elem_of_In, elem_of_elements|done]. }
    rewrite for_each_ok, Forall_forall. split.
    + intros H. split; [lia|]. intros n. split; [apply Hrange|]. intros Hn.
      destruct (decide (n < 2 ^ 31)%Z) as [Hlt|Hge].
      * specialize (H (Z.to_nat n)). rewrite elem_of_seq in H. specialize (H ltac:(lia)).
        rewrite Z2Nat.id, to_int32_id in H by (unfold int32_ok; lia). by case_bool_decide.
      * exfalso. specialize (H (Z.to_nat (2 ^ 31))). rewrite elem_of_seq in H. specialize (H ltac:(lia)).
        rewrite Z2Nat.id in H by lia. case_bool_decide as Hin; [|done]. apply Hrange in Hin.
        replace (to_int32 (2 ^ 31)) with (- 2 ^ 31)%Z in Hin by reflexivity. lia.
    + intros [_ H] i Hi%elem_of_seq. assert (Z.of_nat i ∈ have) as Hin by (apply H; lia).
      rewrite to_int32_id by (by apply H32). by rewrite bool_decide_true.
Qed.

(** ** Wire text *)

(** The texts that stand for a value. *)
Definition wire_text (arg : tvalue) (text : bytes) : Prop :=
  match arg with
  | TString s => text = s
  | TInt64 n => text = format_int n
  | TBool b => text = if b then gs "true" else gs "false"
  | _ => False
  end.

Lemma encode_ok arg text :
  encodePGParameterText arg = Ok text ↔ wire_text arg text ∧ contains_byte nul text = false ∧ valid_string text = true.
Proof.
  assert (∀ s, (if contains_byte nul s || negb (valid_string s) then Err (wrap IsTemplateParameter) else Ok s) = Ok text ↔
    text = s ∧ contains_byte nul text = false ∧ valid_string text = true) as H.
  { intros s. case_if as E.
    - split; [done|]. intros (-> & H1 & H2). by rewrite H1, H2 in E.
    - bool_inv. split; [by intros [= <-]|by intros [-> _]]. }
  destruct arg; cbn; try apply H; (split; [done|by intros [[] _]]).
Qed.

(** A compiled plan is the template's statement with one text per argument. *)
Theorem compiled_plan_texts input plan :
  compilePGPlan input = Ok plan → pn_source plan = pgParameterSourceTemplate ∧
  ∃ compiled, CompilePG input = Ok compiled ∧ pn_statement plan = cs_Statement compiled
    ∧ Forall2 wire_text (cs_Args compiled) (pn_values plan).
Proof.
  unfold compilePGPlan. intros H. res_inv. split; [done|]. eexists. split_and!; [done..|].
  destruct (map_result encodePGParameterText _) as [vs|] eqn:Ev; [|done]. injection E0 as <-.
  apply map_result_ok in Ev. eapply Forall2_impl; [exact Ev|]. by intros x y [Hw _]%encode_ok.
Qed.

(** ** Quoting *)

Definition not_quote (s : bytes) : Prop := match s with c :: _ => c ≠ dquote_byte | [] => True end.

(** A quoted identifier ends at its first lone quote. *)
Lemma double_quotes_inj s s' t t' :
  not_quote t → not_quote t' →
  double_quotes s ++ dquote_byte :: t = double_quotes s' ++ dquote_byte :: t' → s = s' ∧ t = t'.
Proof.
  intros Ht Ht'. revert s'. induction s as [|c s IH]; intros [|c' s']; cbn.
  - by intros [= ->].
  - case_bool_decide as Ec; intros [= H]; [subst; by cbn in Ht|congruence].
  - case_bool_decide as Ec; intros [= H]; [subst; by cbn in Ht'|congruence].
  - case_bool_decide as Ec; case_bool_decide as Ec'; cbn; intros H; injection H; intros; try congruence.
    + edestruct IH as [-> ->]; [eassumption|]. split; congruence.
    + edestruct IH as [-> ->]; [eassumption|]. split; congruence.
Qed.

Lemma quote_inj s s' t t' :
  not_quote t → not_quote t' → pgQuoteIdent s ++ t = pgQuoteIdent s' ++ t' → s = s' ∧ t = t'.
Proof.
  intros Ht Ht'. unfold pgQuoteIdent. cbn. rewrite <- !app_assoc. cbn. intros [= H]. by apply double_quotes_inj.
Qed.

(** ** The navigation statement *)

Lemma predicates_step i p pairs v vs sql owned :
  nav_predicates i (p :: pairs) (v :: vs) = Ok (sql, owned) →
  ∃ rest texts, nav_predicates (1 + i) pairs vs = Ok (rest, texts)
    ∧ sql = (if (0 <? i)%nat then gs " AND " else []) ++ pgQuoteIdent (nc_refName p)
            ++ gs " = $" ++ format_int (Z.of_nat (1 + i)) ++ rest.
Proof. cbn [nav_predicates]. intros H. res_inv. case_match. injection H as <- <-. eauto. Qed.

Lemma predicates_inj i ps ps' vs vs' sql owned owned' :
  nav_predicates i ps vs = Ok (sql, owned) → nav_predicates i ps' vs' = Ok (sql, owned') →
  length vs = length ps → length vs' = length ps' → nc_refName <$> ps = nc_refName <$> ps'.
Proof.
  assert (∀ lead name rest, lead ++ pgQuoteIdent name ++ rest ≠ []) as Hne by (by intros [] ? ?).
  revert i ps' vs vs' sql owned owned'.
  induction ps as [|p ps IH]; intros i [|p' ps'] [|v vs] [|v' vs'] sql owned owned' H H'; try done; cbn [length]; intros Hl Hl'.
  - apply predicates_step in H' as (rest & texts & _ & ->). injection H as H _. by destruct (Hne _ _ _ (eq_sym H)).
  - apply predicates_step in H as (rest & texts & _ & ->). injection H' as H _. by destruct (Hne _ _ _ (eq_sym H)).
  - apply predicates_step in H as (rest & texts & H & ->). apply predicates_step in H' as (rest' & texts' & H' & Heq).
    apply app_inv_head in Heq. apply quote_inj in Heq as [Hn Hr]; [|done..]. rewrite !fmap_cons, Hn. f_equal.
    do 2 apply app_inv_head in Hr. subst rest'. eapply IH; [exact H|exact H'|lia..].
Qed.

Lemma qualified_app schema name t :
  pgQualifiedName schema name ++ t = pgQuoteIdent schema ++ gs "." ++ pgQuoteIdent name ++ t.
Proof. unfold pgQualifiedName. by rewrite <- !app_assoc. Qed.

Lemma plan_statement b vs p :
  newPGNavigationPlan (Some b) vs = Ok p →
  ∃ sql owned, nav_predicates 0 (nb_pairs b) vs = Ok (sql, owned) ∧ length vs = length (nb_pairs b)
    ∧ pn_statement p = gs "SELECT * FROM " ++ pgQuoteIdent (nl_schema (nb_target b))
        ++ gs "." ++ pgQuoteIdent (nl_name (nb_target b)) ++ gs " WHERE " ++ sql.
Proof.
  unfold newPGNavigationPlan. intros H. test_in H as E1; [done|]. bool_inv. 
  destruct (nav_predicates _ _ _) as [[sql o]|] eqn:E; cbn [mbind result_bind] in H; [|done].
  apply ok_inj in H as <-. exists sql, o. split; [done|]. split; [done|]. cbn [pn_statement]. by rewrite qualified_app.
Qed.

(** The navigation statement identifies its mapping. Two plans with the same
    text select from the same relation and bind the same referenced columns in
    the same order, whatever quotes the catalog names contain: the attempt's
    text comparison refuses a statement whose predicate columns were swapped. *)
Theorem navigation_statement_injective b b' vs vs' p p' :
  newPGNavigationPlan (Some b) vs = Ok p → newPGNavigationPlan (Some b') vs' = Ok p' →
  pn_statement p = pn_statement p' →
  nl_schema (nb_target b) = nl_schema (nb_target b') ∧ nl_name (nb_target b) = nl_name (nb_target b')
  ∧ nc_refName <$> nb_pairs b = nc_refName <$> nb_pairs b'.
Proof.
  intros (sql & o & Hp & Hl & ->)%plan_statement (sql' & o' & Hp' & Hl' & ->)%plan_statement Heq.
  apply app_inv_head in Heq. apply quote_inj in Heq as [Hs Heq]; [|done..]. apply app_inv_head in Heq.
  apply quote_inj in Heq as [Hn Heq]; [|done..]. apply app_inv_head in Heq. subst sql'.
  split_and!; [done..|]. eapply predicates_inj; [exact Hp|exact Hp'|done..].
Qed.

(** ** The metadata probe *)

(** What the catalog answers for a binding: its pairs in order. *)
Definition row_of (b : pgNavigationBinding) (c : Z) (i : nat) (p : pgNavigationColumnPair) : nav_row :=
  NavRow (nb_databaseOID b) (nb_constraintOID b) (nb_source b) (nb_target b) (Z.of_nat (1 + i)) c c p.
Definition binding_rows (b : pgNavigationBinding) : list nav_row :=
  imap (row_of b (Z.of_nat (length (nb_pairs b)))) (nb_pairs b).

Definition pair_listed (p : pgNavigationColumnPair) : Prop :=
  (0 < nc_localAttnum p)%Z ∧ (0 < nc_refAttnum p)%Z ∧ nc_localName p ≠ [] ∧ nc_refName p ≠ [].
Definition binding_listed (b : pgNavigationBinding) : Prop :=
  1 ≤ length (nb_pairs b) ≤ MaxLocalValuesCount ∧ Forall pair_listed (nb_pairs b).

Definition extend (b : pgNavigationBinding) (qs : list pgNavigationColumnPair) : pgNavigationBinding :=
  NavBinding (nb_databaseOID b) (nb_constraintOID b) (nb_fkName b) (nb_source b) (nb_target b) (nb_pairs b ++ qs).

(** A row the loop takes as the next of [b], with the cardinality [c]. *)
Definition next_row (b : pgNavigationBinding) (c : Z) (r : nav_row) : Prop :=
  r = row_of b c (length (nb_pairs b)) (nw_pair r) ∧ pair_listed (nw_pair r).

Definition short (n : nat) : Prop := (Z.of_nat n < 2 ^ 31)%Z.
Lemma short_int32 n : short n → to_int32 (Z.of_nat n) = Z.of_nat n.
Proof. unfold short. intros. apply to_int32_id. unfold int32_ok. lia. Qed.

(** The checks on a row's own columns. *)
Lemma row_checks b (ck cf : Z) r (acc : nav_acc) :
  short (1 + length (nb_pairs b)) →
  (let p := nw_pair r in
   if negb (nw_pos r =? to_int32 (Z.of_nat (1 + length (nb_pairs b))))%Z || negb (nw_conkey r =? nw_confkey r)%Z
      || (nc_localAttnum p <=? 0)%Z || (nc_refAttnum p <=? 0)%Z || (nc_localName p =?b []) || (nc_refName p =?b [])
   then Err errPGNavMetaInternal else Ok (Some (add_pair b p, ck, cf))) = Ok acc ↔
  nw_pos r = Z.of_nat (1 + length (nb_pairs b)) ∧ nw_conkey r = nw_confkey r ∧ pair_listed (nw_pair r)
  ∧ acc = Some (add_pair b (nw_pair r), ck, cf).
Proof.
  intros Hs. rewrite (short_int32 _ Hs). unfold pair_listed. cbv zeta. case_if as E.
  - split; [done|]. intros (H1 & H2 & (H3 & H4 & H5 & H6) & _). exfalso.
    repeat (apply orb_prop in E as [E|E]); bool_inv; try lia; done.
  - bool_inv. split; [intros [= <-]; done|]. by intros (_ & _ & _ & ->).
Qed.

Lemma nav_step_ok fk b c r acc :
  short (1 + length (nb_pairs b)) →
  nav_step fk (Some (b, c, c)) r = Ok acc ↔ next_row b c r ∧ acc = Some (add_pair b (nw_pair r), c, c).
Proof.
  intros Hs. unfold nav_step, next_row. case_if as E; cbn [mbind result_bind].
  - split; [done|]. intros [[Hr _] _]. exfalso. rewrite Hr in E. cbn [row_of nw_dbOID nw_conOID nw_conkey nw_confkey nw_src nw_dst] in E.
    repeat (apply orb_prop in E as [E|E]); bool_inv; done.
  - bool_inv. rewrite row_checks by done. destruct r as [? ? ? ? pos ck cf p]. cbn in *. subst.
    unfold row_of. split; [intros (-> & _ & ? & ->); done|]. intros [[[= ->] ?] ->]. done.
Qed.

Lemma nav_step_first fk r acc :
  nav_step fk None r = Ok acc ↔
  let b := NavBinding (nw_dbOID r) (nw_conOID r) fk (nw_src r) (nw_dst r) [] in
  next_row b (nw_conkey r) r ∧ acc = Some (add_pair b (nw_pair r), nw_conkey r, nw_conkey r).
Proof.
  unfold nav_step, next_row. cbn [mbind result_bind]. rewrite row_checks by done. cbv zeta.
  destruct r as [? ? ? ? pos ck cf p]. cbn. unfold row_of. cbn. split.
  - intros (-> & -> & ? & ->). done.
  - intros [[[= -> ->] ?] ->]. done.
Qed.

Lemma nav_rows_ok fk b c rows acc :
  short (length (nb_pairs b) + length rows) →
  nav_rows fk (Some (b, c, c)) (Ok <$> rows) = Ok acc ↔
  ∃ qs, rows = imap (λ i, row_of b c (length (nb_pairs b) + i)) qs ∧ Forall pair_listed qs ∧ acc = Some (extend b qs, c, c).
Proof.
  revert b. induction rows as [|r rows IH]; intros b Hs.
  - cbn. split.
    + intros [= <-]. exists []. destruct b. cbn. unfold extend. cbn. by rewrite app_nil_r.
    + intros ([|] & ? & _ & ->); [|done]. destruct b. unfold extend. cbn. by rewrite app_nil_r.
  - cbn [fmap list_fmap nav_rows mbind result_bind]. cbn [length] in Hs.
    assert (∀ qs, imap (λ i, row_of b c (length (nb_pairs b) + S i)) qs
                  = imap (λ i, row_of (add_pair b (nw_pair r)) c (length (nb_pairs (add_pair b (nw_pair r))) + i)) qs) as Hi.
    { intros qs. apply imap_ext. intros i p _. unfold row_of, add_pair. cbn. rewrite length_app. cbn. do 2 f_equal. lia. }
    assert (∀ qs, extend (add_pair b (nw_pair r)) qs = extend b (nw_pair r :: qs)) as He.
    { intros qs. unfold extend, add_pair. cbn. by rewrite <- app_assoc. }
    split.
    + destruct (nav_step _ _ _) as [acc1|] eqn:E; [|done]. cbn [mbind result_bind].
      apply nav_step_ok in E as [[Hr Hp] ->]; [|unfold short in *; lia]. intros H.
      apply IH in H as (qs & -> & Hq & ->); [|unfold short in *; cbn; rewrite length_app; cbn; lia].
      exists (nw_pair r :: qs). rewrite imap_cons, Nat.add_0_r, <- Hr. split_and!; [|by constructor|by rewrite He].
      f_equal. symmetry. apply Hi.
    + intros ([|q qs] & Hrows & Hq & ->); [done|]. rewrite imap_cons, Nat.add_0_r in Hrows.
      injection Hrows as Hr Hrows. apply Forall_cons in Hq as [Hq Hqs].
      assert (nw_pair r = q) as Hrq by (by rewrite Hr).
      assert (nav_step fk (Some (b, c, c)) r = Ok (Some (add_pair b (nw_pair r), c, c))) as ->.
      { apply nav_step_ok; [unfold short in *; lia|]. split; [|done]. split; by rewrite Hrq. }
      cbn [mbind result_bind]. apply IH; [unfold short in *; cbn; rewrite length_app; cbn; lia|].
      exists qs. rewrite He, Hrq. split_and!; [|done..]. rewrite Hrows. rewrite <- Hrq. apply Hi.
Qed.

Definition nameless (b : pgNavigationBinding) (qs : list pgNavigationColumnPair) : pgNavigationBinding :=
  NavBinding (nb_databaseOID b) (nb_constraintOID b) (nb_fkName b) (nb_source b) (nb_target b) qs.

(** Preparation and the locked recheck read the probe the same way: the rows
    are accepted exactly when they list one whole mapping in key order. *)
Lemma read_binding_iff fk rows b :
  short (length rows) →
  readPGNavigationBinding (Ok <$> rows) None fk = Ok (Some b) ↔
  nb_fkName b = fk ∧ rows = binding_rows b ∧ binding_listed b.
Proof.
  intros Hs. unfold readPGNavigationBinding, binding_rows, binding_listed. split.
  - intros H. destruct rows as [|r rows]; [done|]. cbn [fmap list_fmap nav_rows mbind result_bind] in H.
    destruct (nav_step _ _ _) as [acc1|] eqn:E; [|done]. cbn [mbind result_bind] in H.
    apply nav_step_first in E as [[Hr Hp] ->].
    destruct (nav_rows _ _ _) as [acc|] eqn:E; [|done]. cbn [mbind result_bind] in H.
    apply nav_rows_ok in E as (qs & -> & Hqs & ->); [|done].
    test_in H as E; [done|]. injection H as <-. cbn [extend add_pair nb_pairs nb_fkName length app] in *. bool_inv.
    rewrite short_int32 in * by (unfold short, MaxLocalValuesCount in *; lia).
    split_and!; [done| |lia|done|by constructor].
    rewrite imap_cons. f_equal; [|apply imap_ext; intros i p _]; unfold row_of; cbn; [|congruence].
    rewrite Hr. unfold row_of. cbn. congruence.
  - intros (Hfk & -> & Hlen & Hall). destruct b as [db con fk' src dst [|p ps]]; cbn [nb_pairs nb_fkName length] in *; [lia|subst fk'].
    apply Forall_cons in Hall as [Hp Hall]. set (b0 := NavBinding db con fk src dst []). set (c := Z.of_nat (S (length ps))).
    rewrite imap_cons. cbn [fmap list_fmap nav_rows mbind result_bind].
    assert (nav_step fk None (row_of (NavBinding db con fk src dst (p :: ps)) c 0 p) = Ok (Some (add_pair b0 p, c, c))) as ->.
    { apply nav_step_first. split; [by split|done]. }
    cbn [mbind result_bind]. rewrite length_imap in Hs. cbn [length] in Hs.
    assert (nav_rows fk (Some (add_pair b0 p, c, c)) (Ok <$> imap (row_of (NavBinding db con fk src dst (p :: ps)) c ∘ S) ps)
            = Ok (Some (extend (add_pair b0 p) ps, c, c))) as ->.
    { apply nav_rows_ok; [by rewrite length_imap|]. exists ps. split_and!; [|done..]. by apply imap_ext. }
    cbn [mbind result_bind extend add_pair b0 nb_pairs length app].
    rewrite short_int32 by (unfold short, MaxLocalValuesCount in *; lia). fold c. rewrite Z.eqb_refl. cbn [negb orb].
    destruct (MaxLocalValuesCount <? S (length ps))%nat eqn:E; [bool_inv; lia|done].
Qed.

Lemma same_pairs_eq ps qs : length ps = length qs → same_pairs ps qs = Some (bool_decide (ps = qs)).
Proof.
  revert qs. induction ps as [|p ps IH]; intros [|q qs] Hl; try done. cbn [same_pairs]. injection Hl as Hl.
  case_bool_decide as E; cbn [negb].
  - subst. rewrite (IH qs Hl). f_equal. apply bool_decide_ext. split; [congruence|by intros [=]].
  - rewrite bool_decide_false; [done|congruence].
Qed.

Lemma same_as_iff b o : sameAs b (Some o) = Some true ↔ b = o.
Proof.
  unfold sameAs. case_if as E.
  - split; [done|]. intros ->. exfalso. repeat (apply orb_prop in E as [E|E]); bool_inv; done.
  - bool_inv. rewrite same_pairs_eq by done. destruct b, o. cbn in *. subst. split.
    + intros [= H]. bool_inv. by subst.
    + intros [= ->]. by rewrite bool_decide_true.
Qed.

Lemma pairs_of_rows b c ps : nw_pair <$> imap (row_of b c) ps = ps.
Proof.
  apply list_eq. intros i. rewrite list_lookup_fmap, list_lookup_imap. by destruct (ps !! i).
Qed.

Lemma binding_rows_inj b b' :
  nb_fkName b = nb_fkName b' → binding_listed b → binding_listed b' → binding_rows b = binding_rows b' → b = b'.
Proof.
  destruct b as [db con fk src dst ps], b' as [db' con' fk' src' dst' ps']. unfold binding_rows, binding_listed.
  cbn [nb_fkName nb_pairs]. intros <- [Hl _] [Hl' _] H.
  assert (ps = ps') as <-.
  { apply (f_equal (fmap nw_pair)) in H. by rewrite !pairs_of_rows in H. }
  destruct ps as [|p ps]; [cbn in Hl; lia|]. rewrite !imap_cons in H. injection H as -> -> -> -> _. done.
Qed.

(** The drift test is exact. Preparation and the locked recheck each accept
    a catalog answer only when it lists one whole mapping, its key positions
    1 to n in order and n at most sixteen; the comparison of the two bindings,
    which never indexes out of range, succeeds exactly when the catalog gave the
    same answer twice. *)
Theorem navigation_drift_exact fk rows rows' b b' :
  short (length rows) → short (length rows') →
  readPGNavigationBinding (Ok <$> rows) None fk = Ok (Some b) →
  readPGNavigationBinding (Ok <$> rows') None fk = Ok (Some b') →
  binding_listed b ∧ is_Some (sameAs b (Some b')) ∧ (sameAs b (Some b') = Some true ↔ rows = rows').
Proof.
  intros Hs Hs' Hr Hr'. apply read_binding_iff in Hr as (Hf & -> & Hl); [|done].
  apply read_binding_iff in Hr' as (Hf' & -> & Hl'); [|done]. split; [done|]. split.
  { unfold sameAs. case_if as E; [eauto|]. bool_inv. rewrite same_pairs_eq by done. eauto. }
  rewrite same_as_iff. split; [by intros ->|]. apply binding_rows_inj; congruence.
Qed.

(** ** Preparation failures *)

(** Whatever a preparation error wraps, the caller gets one of the fixed bare
    values: no SQLSTATE, rejection or driver mark survives. *)
Definition navPrepErrors : list pg_error :=
  [wrap IsCanceled; wrap IsTimeout; wrap IsVersionUnsupported; wrap IsConnectFailed; wrap IsVersionReadFailed;
   wrap IsNavNoSource; errPGNavMetaInternal].

Lemma nav_prep_canonical e : navPrepFail e ∈ navPrepErrors.
Proof. unfold navPrepFail. repeat case_match; set_solver. Qed.

Lemma nav_prep_idempotent e : navPrepFail (navPrepFail e) = navPrepFail e.
Proof.
  pose proof (nav_prep_canonical e) as H. revert H. generalize (navPrepFail e). intros e' H.
  unfold navPrepErrors in H. set_unfold. by repeat destruct H as [->|H].
Qed.

(** ** Snapshots *)

Definition binding_complete (b : pgNavigationBinding) : Prop :=
  nb_databaseOID b ≠ 0%Z ∧ nb_constraintOID b ≠ 0%Z ∧ pgNavNameOK (nb_fkName b) = true
  ∧ nav_relation_ok (nb_source b) = true ∧ nav_relation_ok (nb_target b) = true
  ∧ 1 ≤ length (nb_pairs b) ≤ MaxLocalValuesCount ∧ Forall (λ p, nav_pair_ok p = true) (nb_pairs b).

(** The attempt's copy of a binding is the binding itself, and exists exactly
    when its identities are complete. *)
Lemma snapshot_binding_ok b nav :
  snapshotPGNavigationBinding (Some b) = Ok nav ↔ nav = Some b ∧ binding_complete b.
Proof.
  unfold snapshotPGNavigationBinding, binding_complete. case_if as E.
  - split; [done|]. intros (_ & H1 & H2 & H3 & H4 & H5 & H6 & _). exfalso.
    rewrite H3, H4, H5 in E. repeat (apply orb_prop in E as [E|E]); bool_inv; try lia; done.
  - bool_inv. assert (∀ l, for_each (λ p, if nav_pair_ok p then Ok tt else evidence_unavailable) l = Ok tt
                       ↔ Forall (λ p, nav_pair_ok p = true) l) as Hf.
    { intros l. rewrite for_each_ok, !Forall_forall. split; intros H' p Hp; specialize (H' p Hp); by destruct (nav_pair_ok p). }
    destruct (for_each _ _) as [[]|] eqn:Ef; cbn [mbind result_bind].
    + apply Hf in Ef. split; [intros [= <-]; destruct b; split_and!; try done; cbn in *; lia|]. intros [-> _]. by destruct b.
    + split; [done|]. intros (_ & _ & _ & _ & _ & _ & _ & Hall). apply Hf in Hall. congruence.
Qed.

Lemma snapshot_plan_ok plan statement p :
  snapshotPGParameterPlan (Some plan) statement = Ok p ↔
  p = Some plan ∧ pn_statement plan = statement
  ∧ (pn_source plan = pgParameterSourceTemplate ∨ pn_source plan = pgParameterSourceNavigation).
Proof.
  unfold snapshotPGParameterPlan. destruct plan as [st vs src]. cbn [pn_source pn_statement pn_values app].
  case_if as E1; [|case_if as E2]; bool_inv.
  - split; [done|]. intros (_ & _ & [?|?]); lia.
  - split; [done|]. by intros (_ & ? & _).
  - apply orb_prop in E1. split; [|by intros [-> _]]. intros [= <-]. split_and!; [done..|]. destruct E1; bool_inv; auto.
Qed.

(** ** Witnesses *)

Definition sample_pair (local ref : bytes) : pgNavigationColumnPair := NavPair 1 local 23 (-1) 1 ref 23 (-1).
Definition sample_binding : pgNavigationBinding :=
  NavBinding 5 16500 (gs "orders_fk") (NavRelation 16400 16401 (gs "r") (gs "public") (gs "orders"))
    (NavRelation 16390 16391 (gs "r") (gs "public") (gs "users"))
    [sample_pair (gs "tenant") (gs "tenant_id"); sample_pair (gs "user") ([dquote_byte] ++ gs "id")].

Example navigation_statement_injective_witness :
  ∃ p, newPGNavigationPlan (Some sample_binding) [gs "1"; gs "2"] = Ok p ∧
  (nl_schema (nb_target sample_binding) = nl_schema (nb_target sample_binding)
   ∧ nl_name (nb_target sample_binding) = nl_name (nb_target sample_binding)
   ∧ nc_refName <$> nb_pairs sample_binding = nc_refName <$> nb_pairs sample_binding).
Proof.
  destruct (newPGNavigationPlan (Some sample_binding) [gs "1"; gs "2"]) as [p|] eqn:E; [|by vm_compute in E].
  exists p. split; [done|]. exact (navigation_statement_injective _ _ _ _ p p E E eq_refl).
Defined.

Example navigation_drift_exact_witness :
  binding_listed sample_binding ∧ is_Some (sameAs sample_binding (Some sample_binding))
  ∧ (sameAs sample_binding (Some sample_binding) = Some true ↔ binding_rows sample_binding = binding_rows sample_binding).
Proof. apply (navigation_drift_exact (gs "orders_fk")); vm_compute; reflexivity. Defined.

Example parameter_bindings_dense_witness :
  ValidateParameterBindings true {[1; 2]}%Z 2 = Ok tt ↔ (0 ≤ 2)%Z ∧ ∀ n : Z, n ∈ ({[1; 2]}%Z : gset Z) ↔ (1 ≤ n ≤ 2)%Z.
Proof. apply parameter_bindings_dense. intros n. unfold int32_ok. set_solver by lia. Defined.
