(* ===== verification/PgSession.v ===== *)
(** * A PostgreSQL transaction as the service uses it

    The attempt context, the clock, the statements of [set_config] and the fixed
    catalog probes, as an interface the binding gate, the lock audit and the
    attempt are written against; and the statement budget of
    [internal/service/pg_attempt_budget.go]. *)
From S2P Require Import Prelude GoText PgPagination PgErrors PgVerifier PgParams.

(** ** Catalog probes *)

Record resolved_row : Type := ResolvedRow {
  rr_oid : Z; rr_reltype : Z; rr_relkind : bytes; rr_shared : bool; rr_nspname : bytes; rr_relname : bytes;
}.
Record attribute_row : Type := AttributeRow { ar_attnum : Z; ar_name : bytes; ar_typoid : Z; ar_typmod : Z }.
Record dep_row : Type := DepRow { vd_oid : Z; vd_relkind : bytes; vd_nsp : bytes; vd_shared : bool }.
Record edge_row : Type := EdgeRow { eg_oid : Z; eg_parent : Z; eg_shared : bool }.
Record probe_row : Type := ProbeRow { pb_name : bytes; pb_oid : Z; pb_shared : bool; pb_isTable : bool }.
Record toast_row : Type := ToastRow { to_oid : Z; to_shared : bool; to_index : Z; to_indexShared : bool }.

(** [pgLockRow] of [pg_lock_observer.go]. *)
Record pgLockRow : Type := LockRow {
  lk_locktype : bytes; lk_mode : bytes; lk_granted : bool; lk_database : Z; lk_relation : Z; lk_vxid : bytes;
}.

(** The statements the service asks of the catalog, each with the type of its
    rows. A constructor stands for one fixed text; its arguments are the
    statement's, or the text itself for the two that are built. *)
Inductive probe : Type → Type :=
  | QDatabase : probe (bytes * Z)
  | QSchemaExists (schema : bytes) : probe bool
  | QSchemaUsage (schema : bytes) : probe bool
  | QResolve (canonical : bytes) : probe resolved_row
  | QTouch (stmt : bytes) : probe unit
  | QRecheck (canonical : bytes) : probe (option Z)
  | QNavigation (schema object fk : bytes) : probe nav_row
  | QAttributes (oid : Z) : probe attribute_row
  | QViewDeps (view : Z) : probe dep_row
  | QInherits (parents : list Z) : probe edge_row
  | QIndexes (bases : list Z) : probe edge_row
  | QWhitelist (names : list bytes) : probe probe_row
  | QFormatTypes (left right : Z) : probe (bytes * bytes)
  | QCommonType (stmt : bytes) : probe (Z * Z * Z)
  | QIdentity : probe (Z * bytes * option Z)
  | QToast (bases : list Z) : probe Z
  | QToastEdges (toast : list Z) : probe toast_row
  | QLocks (pid : Z) : probe pgLockRow
  | QCurrentDatabase : probe bytes.

(** What [Query] answers: the type OIDs of its field descriptions, the result
    of scanning each row, and [rows.Err]. *)
Record answer (R : Type) : Type := Answer {
  an_fds : list Z;
  an_rows : list (result pg_error R);
  an_err : option pg_error;
}.
Arguments Answer {_} _ _ _.
Arguments an_fds {_} _.
Arguments an_rows {_} _.
Arguments an_err {_} _.

(** ** The session interface *)

(** [ps_ctx] is [ctx.Err] of the attempt context, [ps_exec] a [tx.Exec],
    [ps_query] a [tx.Query] and [ps_row] a [tx.QueryRow] with its [Scan]. *)
Class PGSession (W : Type) : Type := {
  ps_ctx : W → option pg_sentinel * W;
  ps_now : W → Z * W;
  ps_exec : bytes → list bytes → W → result pg_error unit * W;
  ps_query : ∀ {R}, probe R → W → result pg_error (answer R) * W;
  ps_row : ∀ {R}, probe R → W → result pg_error R * W;
}.

(** What [ExecParams] gives back: the field descriptions, the rows of native
    text (a missing cell is NULL), and the error of [Close] after so many rows
    were taken. *)
Record transport : Type := Transport {
  tp_fds : list FieldDescription;
  tp_rows : list (list (option bytes));
  tp_close : nat → option pg_error;
}.

(** What was asked, with the answer. The last ten are the attempt's own calls:
    its pool, connection and transaction, the two parameter steps, the user's
    statement, and the observer's connection. *)
Inductive pg_call : Type :=
  | CExec (sql : bytes) (args : list bytes) (r : result pg_error unit)
  | CQuery {R} (q : probe R) (r : result pg_error (answer R))
  | CRow {R} (q : probe R) (r : result pg_error R)
  | CPool (r : result pg_error unit)
  | CAcquire (r : result pg_error Z)
  | CBegin (r : result pg_error unit)
  | CDescribe (sql : bytes) (r : result pg_error (list Z))
  | CParamProbe (sql : bytes) (values : list (option bytes)) (oids : list Z) (t : transport)
  | CResult (sql : bytes) (values : list (option bytes)) (t : transport)
  | CRollback (r : result pg_error unit)
  | CRelease
  | CObserve (remote : bytes)
  | CClosePools.

Record session (W : Type) : Type := Session { se_world : W; se_log : list pg_call }.
Arguments Session {_} _ _.
Arguments se_world {_} _.
Arguments se_log {_} _.

(** Fallible computations of a session; an error keeps the state. *)
Definition pg (W A : Type) : Type := session W → result pg_error A * session W.
#[export] Instance pg_ret {W} : MRet (pg W) := λ A a s, (Ok a, s).
#[export] Instance pg_bind {W} : MBind (pg W) := λ A B f m s,
  let '(r, s) := m s in match r with Ok a => f a s | Err e => (Err e, s) end.
Definition throw {W A} (e : pg_error) : pg W A := λ s, (Err e, s).
Definition of_result {W A} (r : result pg_error A) : pg W A := λ s, (r, s).
(** Replace the error of a step. *)
Definition on_error {W A} (m : pg W A) (h : pg_error → pg W A) : pg W A := λ s,
  let '(r, s) := m s in match r with Ok a => (Ok a, s) | Err e => h e s end.

Fixpoint pg_each {W A S} (f : S → A → pg W S) (acc : S) (l : list A) : pg W S :=
  match l with
  | [] => mret acc
  | x :: l => acc ← f acc x; pg_each f acc l
  end.

Section session.
Context {W : Type} `{!PGSession W}.

Definition ctx_err : pg W (option pg_sentinel) := λ s,
  let '(e, w) := ps_ctx (se_world s) in (Ok e, Session w (se_log s)).
Definition now : pg W Z := λ s, let '(t, w) := ps_now (se_world s) in (Ok t, Session w (se_log s)).
Definition exec (sql : bytes) (args : list bytes) : pg W unit := λ s,
  let '(r, w) := ps_exec sql args (se_world s) in (r, Session w (se_log s ++ [CExec sql args r])).
Definition query {R} (q : probe R) : pg W (answer R) := λ s,
  let '(r, w) := ps_query q (se_world s) in (r, Session w (se_log s ++ [CQuery q r])).
Definition query_row {R} (q : probe R) : pg W R := λ s,
  let '(r, w) := ps_row q (se_world s) in (r, Session w (se_log s ++ [CRow q r])).

(** ** The statement budget *)

Definition pgRemainingStatementTimeoutMs (deadline t : Z) : option Z :=
  let rem := time_sub deadline t in
  if (rem <=? 0)%Z then None
  else
    let ms := milliseconds rem in
    let ms := if negb (Z.rem rem 1000000 =? 0)%Z then (ms + 1)%Z else ms in
    Some (if (ms <? 1)%Z then 1%Z else ms).

Definition set_timeout_sql : bytes := gs "SELECT pg_catalog.set_config('statement_timeout', $1, true)".

Definition arm (deadline : Z) : pg W unit :=
  t ← now;
  match pgRemainingStatementTimeoutMs deadline t with
  | None => throw (wrap IsTimeout)
  | Some ms => exec set_timeout_sql [format_int ms ++ gs "ms"]
  end.

(** ** The terminal vocabulary of a failure *)

Definition ctx_failure (c : pg_sentinel) : pg_error := wrap (if decide (c = IsCanceled) then IsCanceled else IsTimeout).
End session.

(** The armed value is the remaining time rounded up to a whole millisecond. *)
Lemma remaining_ms_exact deadline t ms :
  (deadline - t ≤ max_int64)%Z →
  pgRemainingStatementTimeoutMs deadline t = Some ms ↔
  (t < deadline)%Z ∧ (ms * 1000000 - 1000000 < deadline - t ≤ ms * 1000000)%Z.
Proof.
  intros Hmax. unfold pgRemainingStatementTimeoutMs, milliseconds, time_sub. rewrite (Z.min_r max_int64) by lia.
  assert (min_int64 < 0)%Z as Hmin by done.
  case_if as E; bool_inv; [split; [done|lia]|]. rewrite (Z.max_r min_int64) in * by lia.
  assert (0 < deadline - t)%Z as Hpos by lia. rewrite Z.quot_div_nonneg, Z.rem_mod_nonneg by lia.
  pose proof (Z.div_mod (deadline - t) 1000000 ltac:(lia)) as Hd.
  pose proof (Z.mod_pos_bound (deadline - t) 1000000 ltac:(lia)) as Hm.
  pose proof (Z.div_pos (deadline - t) 1000000 ltac:(lia) ltac:(lia)) as Hq.
  revert Hd Hm Hq. generalize ((deadline - t) / 1000000)%Z as q, ((deadline - t) `mod` 1000000)%Z as r. intros q r Hd Hm Hq.
  destruct (r =? 0)%Z eqn:Er; cbn [negb]; bool_inv; (case_if as E2; bool_inv);
    (split; [intros [= <-]; lia|intros [_ H]; f_equal; lia]).
Qed.
