(* ===== verification/PgPool.v ===== *)
(** * The PostgreSQL connection factory

    [internal/service/pg_pool_factory.go]: the numeric version gate every new
    physical connection passes before the pool accepts it, and the closed set of
    errors the factory answers with. *)
From S2P Require Import Prelude GoText PgPagination PgErrors PgVerifier PgParams PgSession.

Definition pgServerVersionMin : Z := 140000.
Definition pgServerVersionMax : Z := 180000.
Definition pgVersionProbeDefaultBudget : Z := 120000000000.

Definition pgServerVersionSupported (v : Z) : bool := (pgServerVersionMin <=? v)%Z && (v <? pgServerVersionMax)%Z.
Definition pgVersionProbeBudget (connectTimeout : Z) : Z :=
  if (0 <? connectTimeout)%Z then connectTimeout else pgVersionProbeDefaultBudget.

(** An error that matches no sentinel. *)
Definition plain_error : pg_error := PgError None [] None false false.

Definition parsePGServerVersionNum (raw : bytes) : result pg_error Z :=
  let raw := trim_space raw in
  if raw =?b [] then Err plain_error
  else match parse_int raw with
  | None => Err plain_error
  | Some n => if (n <? 0)%Z then Err plain_error else Ok n
  end.

Definition classifyPGDialError (e : pg_error) : pg_error :=
  if error_is e IsVersionUnsupported then wrap IsVersionUnsupported
  else if error_is e IsVersionReadFailed then wrap IsVersionReadFailed
  else if error_is e IsCanceled then wrap IsCanceled
  else if error_is e IsDeadline || error_is e IsTimeout then wrap IsTimeout
  else wrap IsConnectFailed.

Definition classifyPGVersionReadError (e : pg_error) : pg_error :=
  if error_is e IsCanceled then wrap IsCanceled
  else if error_is e IsDeadline then wrap IsTimeout
  else wrap IsVersionReadFailed.

Definition PGVersionUnsupportedCode : bytes := gs "pg_version_unsupported".
Definition PGPoolErrorCode (e : option pg_error) : bytes :=
  match e with
  | None => []
  | Some e =>
    if error_is e IsVersionUnsupported then PGVersionUnsupportedCode
    else if error_is e IsTimeout then gs "query_timeout"
    else if error_is e IsCanceled then gs "query_canceled"
    else gs "query_backend_error"
  end.

(** What pgx does for the factory: the configuration shell, the pool object, a
    dial with its handshake (the backend's process id), and the version text. *)
Class PGDialer (W : Type) : Type := {
  dl_shell : W → bool * W;
  dl_new : W → result pg_error unit * W;
  dl_dial : W → result pg_error Z * W;
  dl_version : W → result pg_error bytes * W;
}.

Section pool.
Context {W : Type} `{!PGDialer W}.

Definition world {A} (op : W → A * W) : pg W A := λ s,
  let '(a, w) := op (se_world s) in (Ok a, Session w (se_log s)).
Definition world_result {A} (op : W → result pg_error A * W) : pg W A := λ s,
  let '(r, w) := op (se_world s) in (r, Session w (se_log s)).

(** [AfterConnect]. *)
Definition after_connect : pg W unit :=
  version ← on_error (raw ← world_result dl_version; of_result (parsePGServerVersionNum raw)) (λ e, throw (classifyPGVersionReadError e));
  if negb (pgServerVersionSupported version) then throw (wrap IsVersionUnsupported) else mret tt.

(** [pool.Acquire] of a new physical connection. *)
Definition acquire : pg W Z := pid ← world_result dl_dial; _ ← after_connect; mret pid.

Definition openPostgresPool (cfg : bool) : pg W unit :=
  if negb cfg then throw (wrap IsConnectFailed)
  else
    shell ← world dl_shell;
    if negb shell then throw (wrap IsConnectFailed)
    else
      _ ← on_error (world_result dl_new) (λ e, throw (classifyPGDialError e));
      _ ← on_error acquire (λ e, throw (classifyPGDialError e));
      mret tt.
End pool.

Definition pool_errors : list pg_error :=
  [wrap IsConnectFailed; wrap IsVersionUnsupported; wrap IsVersionReadFailed; wrap IsCanceled; wrap IsTimeout].

Lemma dial_error_fixed e : classifyPGDialError e ∈ pool_errors.
Proof. unfold classifyPGDialError. repeat case_match; set_solver. Qed.

(** The two classifiers of the factory compose: a gate verdict survives. *)
Lemma dial_keeps_gate e : classifyPGDialError (classifyPGVersionReadError e) = classifyPGVersionReadError e.
Proof. unfold classifyPGVersionReadError. by repeat case_match. Qed.

Section pool_proofs.
Context {W : Type} `{!PGDialer W}.

(** A live connection was read as a supported version. *)
Definition version_gated (w : W) : Prop :=
  ∃ raw n, (dl_version w).1 = Ok raw ∧ parsePGServerVersionNum raw = Ok n ∧ (pgServerVersionMin ≤ n < pgServerVersionMax)%Z.

Lemma after_connect_gated s s' : after_connect s = (Ok tt, s') → version_gated (se_world s).
Proof.
  unfold after_connect, on_error, mbind, pg_bind, world_result, of_result, throw, mret, pg_ret.
  destruct (dl_version (se_world s)) as [[raw|e] w] eqn:Ev; [|done].
  destruct (parsePGServerVersionNum raw) as [n|e] eqn:En; [|done].
  destruct (pgServerVersionSupported n) eqn:E; cbn; [|done]. intros _. exists raw, n. rewrite Ev. split; [done|]. split; [done|].
  unfold pgServerVersionSupported in E. bool_inv. lia.
Qed.

Lemma acquire_gated s pid s' : acquire (W := W) s = (Ok pid, s') → ∃ w, (dl_dial (se_world s)) = (Ok pid, w) ∧ version_gated w.
Proof.
  unfold acquire, mbind, pg_bind, world_result at 1. destruct (dl_dial (se_world s)) as [[pid'|e] w] eqn:Ed; [|done].
  destruct (after_connect _) as [[[]|e] s1] eqn:Ea; [|done]. intros [= <- _]. exists w. split; [done|].
  by apply after_connect_gated in Ea.
Qed.

(** The factory hands back a pool only after a live connection passed the
    version gate, and every failure is one of five fixed errors. *)
Theorem pool_open_gated cfg s r s' :
  openPostgresPool (W := W) cfg s = (r, s') →
  match r with
  | Ok _ => cfg = true ∧ ∃ w, version_gated w
  | Err e => e ∈ pool_errors
  end.
Proof.
  unfold openPostgresPool. destruct cfg; cbn [negb]; [|intros [= <- _]; set_solver].
  unfold mbind, pg_bind, world. destruct (dl_shell _) as [[|] w1]; cbn [negb]; [|intros [= <- _]; set_solver].
  unfold on_error at 1, world_result at 1. destruct (dl_new _) as [[[]|e] w2].
  2: { intros [= <- _]. apply dial_error_fixed. }
  unfold on_error. destruct (acquire _) as [[pid|e] s3] eqn:Ea.
  - intros [= <- _]. apply acquire_gated in Ea as (w & _ & Hg). eauto.
  - intros [= <- _]. apply dial_error_fixed.
Qed.
End pool_proofs.

(** The accepted texts are the integers of the supported range, with spaces around. *)
Example version_texts :
  parsePGServerVersionNum (gs " 160003") = Ok 160003%Z ∧ pgServerVersionSupported 160003 = true
  ∧ parsePGServerVersionNum (gs "16.3") = Err plain_error ∧ pgServerVersionSupported 180000 = false
  ∧ parsePGServerVersionNum (gs "-150000") = Err plain_error.
Proof. vm_compute. done. Qed.
