(* ===== verification/PgBinding.v ===== *)
(** * The PostgreSQL binding gate

    [internal/service/pg_binding_gate.go]: inside the attempt's transaction every
    relation a statement names is resolved, locked by a touch that proves which
    relation it locked, and described by OID; the relations a later lock audit
    may explain are collected; a prepared foreign-key mapping is proved again. *)
From S2P Require Import Prelude GoText PgLexer PgPagination PgErrors PgVerifier PgParams PgSession.

Definition errPGBindInternal : pg_error := wrap IsBackend.

Definition pgProbeCatalogNames : list bytes :=
  [gs "pg_database"; gs "pg_class"; gs "pg_namespace"; gs "pg_attribute"; gs "pg_depend"; gs "pg_rewrite"; gs "pg_inherits";
   gs "pg_index"; gs "pg_auth_members"; gs "pg_authid"; gs "pg_type"; gs "pg_locks"].

#[export] Instance identity_countable : Countable PGRelationIdentity.
Proof.
  refine (inj_countable' (λ i, (ri_DatabaseOID i, ri_RelationOID i)) (λ '(d, r), RelationIdentity d r) _). by intros [].
Defined.

Record PGViewDependency : Type := ViewDependency { pv_ViewOID : Z; pv_RelationOID : Z; pv_Schema : bytes; pv_RelKind : bytes }.
Record PGInheritEdge : Type := InheritEdge { ie_ParentOID : Z; ie_ChildOID : Z }.
Record PGIndexEdge : Type := IndexEdge { xe_RelationOID : Z; xe_IndexOID : Z }.

(** The physical record that several references may share. *)
Record pgBoundRelation : Type := BoundRelation {
  bo_oid : Z;
  bo_reltype : Z;
  bo_relkind : bytes;
  bo_shared : bool;
  bo_schema : bytes;
  bo_name : bytes;
  bo_columns : list ColumnMetadata;
}.

Abbreviation pgRelKey := (bytes * bytes)%type.

(** The records live in [g_heap]; [byName], [byOID] and [navSource] point to them. *)
Record pgBindingGate : Type := Gate {
  g_dbOID : Z;
  g_heap : list pgBoundRelation;
  g_byName : gmap pgRelKey nat;
  g_byOID : gmap Z nat;
  g_refs : gmap Z PGBoundRef;
  g_extra : gset PGRelationIdentity;
  g_deps : list PGViewDependency;
  g_inherits : list PGInheritEdge;
  g_indexes : list PGIndexEdge;
  g_probes : list PGRelationIdentity;
  g_navSource : option nat;
}.
Definition new_gate : pgBindingGate := Gate 0 [] ∅ ∅ ∅ ∅ [] [] [] [] None.

Record PGBindInput : Type := BindInput {
  bi_Tx : bool;                              (** a transaction was given *)
  bi_Database : bytes;
  bi_PinnedSchema : bytes;
  bi_Guard : option (list RangeVarRef);      (** the references of the guard result *)
  bi_requirePinnedSchema : bool;
  bi_navigation : option pgNavigationBinding;
}.

(** The resolver the rewrite receives: it answers from the gate's own records. *)
Record pgTxResolver : Type := TxResolver {
  tr_pinned : bytes;
  tr_heap : list pgBoundRelation;
  tr_byName : gmap pgRelKey nat;
}.

Record PGBindResult : Type := BindResult {
  bd_Refs : gmap Z PGBoundRef;
  bd_DatabaseOID : Z;
  bd_Approved : list PGRelationIdentity;
  bd_Dependencies : list PGViewDependency;
  bd_Inherits : list PGInheritEdge;
  bd_Indexes : list PGIndexEdge;
  bd_Probes : list PGRelationIdentity;
  bd_navigationSource : option PGRelationIdentity;
  bd_Resolver : pgTxResolver;
}.

(** Setters of the gate's fields. *)
Definition set_db (oid : Z) (g : pgBindingGate) : pgBindingGate :=
  Gate oid (g_heap g) (g_byName g) (g_byOID g) (g_refs g) (g_extra g) (g_deps g) (g_inherits g) (g_indexes g) (g_probes g) (g_navSource g).
Definition set_maps heap byName byOID (g : pgBindingGate) : pgBindingGate :=
  Gate (g_dbOID g) heap byName byOID (g_refs g) (g_extra g) (g_deps g) (g_inherits g) (g_indexes g) (g_probes g) (g_navSource g).
Definition set_refs refs (g : pgBindingGate) : pgBindingGate :=
  Gate (g_dbOID g) (g_heap g) (g_byName g) (g_byOID g) refs (g_extra g) (g_deps g) (g_inherits g) (g_indexes g) (g_probes g) (g_navSource g).
Definition set_edges extra deps inherits indexes (g : pgBindingGate) : pgBindingGate :=
  Gate (g_dbOID g) (g_heap g) (g_byName g) (g_byOID g) (g_refs g) extra deps inherits indexes (g_probes g) (g_navSource g).
Definition set_probes probes (g : pgBindingGate) : pgBindingGate :=
  Gate (g_dbOID g) (g_heap g) (g_byName g) (g_byOID g) (g_refs g) (g_extra g) (g_deps g) (g_inherits g) (g_indexes g) probes (g_navSource g).
Definition set_nav src (g : pgBindingGate) : pgBindingGate :=
  Gate (g_dbOID g) (g_heap g) (g_byName g) (g_byOID g) (g_refs g) (g_extra g) (g_deps g) (g_inherits g) (g_indexes g) (g_probes g) src.

Definition identityFor (db oid : Z) (shared : bool) : PGRelationIdentity := RelationIdentity (if shared then 0%Z else db) oid.
Definition identityOf (g : pgBindingGate) (rel : pgBoundRelation) : PGRelationIdentity := identityFor (g_dbOID g) (bo_oid rel) (bo_shared rel).
Definition noteApproved (oid : Z) (shared : bool) (g : pgBindingGate) : pgBindingGate :=
  set_edges ({[identityFor (g_dbOID g) oid shared]} ∪ g_extra g) (g_deps g) (g_inherits g) (g_indexes g) g.

Definition object_not_found (message : bytes) : pg_error := rejected (Reject (gs "query_object_not_found") message).
Definition binding_mismatch (message : bytes) : pg_error := rejected (Reject (gs "query_binding_mismatch") message).
Definition name_remapped : pg_error := binding_mismatch (gs "pgsql: relation name remapped during binding").
Definition nav_changed : pg_error := binding_mismatch (gs "pgsql: navigation binding changed since preparation").

(** A double-quoted SQL identifier of the probe texts. *)
Definition quoted (s : bytes) : bytes := [dquote_byte] ++ s ++ [dquote_byte].
Definition indent : bytes := [bz 10; bz 9; bz 9] ++ gs "   ".
Definition touch_stmt (schema name : bytes) : bytes :=
  gs "SELECT CASE WHEN FALSE THEN " ++ quoted (gs "__chub_lock") ++ gs ".* END" ++ indent ++ gs "FROM "
    ++ pgQuoteIdent schema ++ gs "." ++ pgQuoteIdent name ++ gs " AS " ++ quoted (gs "__chub_lock") ++ gs " LIMIT 0".

Definition id_less (a b : PGRelationIdentity) : bool :=
  if negb (ri_DatabaseOID a =? ri_DatabaseOID b)%Z then (ri_DatabaseOID a <? ri_DatabaseOID b)%Z
  else (ri_RelationOID a <? ri_RelationOID b)%Z.
(** [sort.Slice] by two numbers. *)
Definition pair_less {A} (f h : A → Z) (a b : A) : bool :=
  if negb (f a =? f b)%Z then (f a <? f b)%Z else (h a <? h b)%Z.

Section gate.
Context {W : Type} `{!PGSession W}.
(** The attempt deadline, the gate's input, and the order in which Go walks the
    map of references. *)
Context (deadline : Z) (i : PGBindInput) (order : gmap Z PGBoundRef → list PGBoundRef).

(** ** Failures *)

Definition no_class (e : pg_error) : option RejectError := None.
Definition bind_vocabulary (e : pg_error) : pg_error :=
  if error_is e IsCanceled then wrap IsCanceled
  else if error_is e IsDeadline then wrap IsTimeout
  else if error_is e IsTimeout || error_is e IsBackend then e
  else if isPGQueryCanceled e then wrap IsTimeout
  else errPGBindInternal.

Definition failStage (classify : pg_error → option RejectError) {A} (e : pg_error) : pg W A :=
  match pe_Reject e with
  | Some re => throw (rejected re)
  | None =>
    c ← ctx_err;
    match c with
    | Some c => throw (ctx_failure c)
    | None => throw (match classify e with Some re => rejected re | None => bind_vocabulary e end)
    end
  end.
Definition gate_fail {A} : pg_error → pg W A := failStage no_class.

Definition gate_arm : pg W unit := on_error (arm deadline) gate_fail.
Definition queryStage (classify : pg_error → option RejectError) {R} (q : probe R) : pg W (answer R) :=
  _ ← gate_arm; on_error (query q) (failStage classify).
Definition gate_query {R} (q : probe R) : pg W (answer R) := queryStage no_class q.
(** [g.row] with the [Scan] of its caller, whose failure the stage maps. *)
Definition gate_row {R} (q : probe R) (h : pg_error → pg W R) : pg W R := _ ← gate_arm; on_error (query_row q) h.

(** The loop over scanned rows, then [rows.Err]. *)
Fixpoint scan_rows {R S} (step : S → R → result pg_error S) (acc : S) (rows : list (result pg_error R)) : pg W S :=
  match rows with
  | [] => mret acc
  | Ok r :: rows => acc ← of_result (step acc r); scan_rows step acc rows
  | Err e :: _ => gate_fail e
  end.
Definition drain {R S} (step : S → R → result pg_error S) (acc : S) (a : answer R) : pg W S :=
  acc ← scan_rows step acc (an_rows a);
  match an_err a with Some e => gate_fail e | None => mret acc end.

(** ** Identity, schema and entities *)

Definition stageDatabaseIdentity (g : pgBindingGate) : pg W pgBindingGate :=
  '(name, oid) ← gate_row QDatabase gate_fail;
  if negb (name =?b bi_Database i) then throw errPGBindInternal else mret (set_db oid g).

Definition guard_refs : list RangeVarRef := default [] (bi_Guard i).

Definition stagePinnedUsage (g : pgBindingGate) : pg W pgBindingGate :=
  let unqualified := bi_requirePinnedSchema i || existsb (λ r, rv_Kind r =?b RefEntity) guard_refs in
  if negb unqualified then mret g
  else
    exists_ ← gate_row (QSchemaExists (bi_PinnedSchema i)) gate_fail;
    if negb exists_ then throw (rejected (Reject (gs "schema_not_found") (gs "pgsql: pinned schema does not exist")))
    else
      usage ← gate_row (QSchemaUsage (bi_PinnedSchema i)) gate_fail;
      if negb usage
      then throw (rejected (Reject (gs "query_schema_not_usable") (gs "pgsql: pinned schema is not usable for this account")))
      else mret g.

Definition touch (schema name : bytes) : pg W Z :=
  a ← queryStage classifyPGRelationAccess (QTouch (touch_stmt schema name));
  match an_err a with
  | Some e => failStage classifyPGRelationAccess e
  | None => match an_fds a with [oid] => mret oid | _ => throw errPGBindInternal end
  end.

(** The new record's place in the heap, or the one the name already has. *)
Definition cache_relation (key : pgRelKey) (r : resolved_row) (g : pgBindingGate) : pg W (nat * pgBoundRelation * pgBindingGate) :=
  match g_byName g !! key with
  | None =>
    let rel := BoundRelation (rr_oid r) (rr_reltype r) (rr_relkind r) (rr_shared r) (rr_nspname r) (rr_relname r) [] in
    let n := length (g_heap g) in
    mret (n, rel, set_maps (g_heap g ++ [rel]) (<[key := n]> (g_byName g)) (<[rr_oid r := n]> (g_byOID g)) g)
  | Some n =>
    match g_heap g !! n with
    | None => throw (wrap IsPanic)
    | Some rel =>
      if negb (bo_oid rel =? rr_oid r)%Z || negb (bo_reltype rel =? rr_reltype r)%Z then throw errPGBindInternal
      else mret (n, rel, g)
    end
  end.

Definition bindPhysicalRelation (schema name : bytes) (g : pgBindingGate) : pg W (nat * pgBoundRelation * pgBindingGate) :=
  let canonical := pgQualifiedName schema name in
  r ← gate_row (QResolve canonical) (λ e,
        if error_is e IsNoRows then throw (object_not_found (gs "pgsql: relation not found"))
        else failStage classifyPGRelationAccess e);
  touchOID ← touch schema name;
  if negb (touchOID =? rr_reltype r)%Z then throw (binding_mismatch (gs "pgsql: touch bound an unexpected relation"))
  else
    again ← gate_row (QRecheck canonical) (failStage classifyPGNameRemap);
    if negb (again =?b Some (rr_oid r)) then throw name_remapped
    else cache_relation (schema, name) r g.

Definition bindEntity (g : pgBindingGate) (ref : RangeVarRef) : pg W pgBindingGate :=
  if negb (rv_Catalog ref =?b []) && negb (rv_Catalog ref =?b bi_Database i)
  then throw (object_not_found (gs "pgsql: cross-database reference"))
  else
    let schema := if rv_Kind ref =?b RefEntity then bi_PinnedSchema i else rv_Schema ref in
    '(_, rel, g) ← bindPhysicalRelation schema (rv_Name ref) g;
    mret (set_refs (<[rv_RefID ref := MkBoundRef (rv_RefID ref) (bo_schema rel) (rv_Name ref) (bo_name rel) (identityOf g rel)
                       (bo_reltype rel) (bo_relkind rel) true []]> (g_refs g)) g).

Definition stageEntityBind (g : pgBindingGate) : pg W pgBindingGate :=
  pg_each (λ g ref, if rv_Kind ref =?b RefCTE then mret g else bindEntity g ref) g guard_refs.

Definition stageNavigationBindSource (g : pgBindingGate) : pg W pgBindingGate :=
  match bi_navigation i with
  | None => mret g
  | Some nav =>
    '(n, rel, g) ← bindPhysicalRelation (nl_schema (nb_source nav)) (nl_name (nb_source nav)) g;
    mret (noteApproved (bo_oid rel) (bo_shared rel) (set_nav (Some n) g))
  end.

(** ** Attributes *)

Definition attributes (oid : Z) : pg W (list ColumnMetadata) :=
  a ← gate_query (QAttributes oid);
  drain (λ cols r, Ok (cols ++ [MkColumnMetadata (ar_name r) (ar_typoid r) (ar_typmod r) oid (ar_attnum r)])) [] a.

Definition with_columns (cols : list ColumnMetadata) (rel : pgBoundRelation) : pgBoundRelation :=
  BoundRelation (bo_oid rel) (bo_reltype rel) (bo_relkind rel) (bo_shared rel) (bo_schema rel) (bo_name rel) cols.

(** The record [byOID] points to. *)
Definition rel_of (g : pgBindingGate) (oid : Z) : option pgBoundRelation := n ← g_byOID g !! oid; g_heap g !! n.

Definition read_columns (g : pgBindingGate) (oid : Z) : pg W pgBindingGate :=
  cols ← attributes oid;
  match g_byOID g !! oid with
  | Some n => mret (set_maps (alter (with_columns cols) n (g_heap g)) (g_byName g) (g_byOID g) g)
  | None => throw (wrap IsPanic)
  end.

Definition ref_columns (cols : list ColumnMetadata) (r : PGBoundRef) : PGBoundRef :=
  MkBoundRef (br_RefID r) (br_Schema r) (br_Name r) (br_CatalogName r) (br_Identity r) (br_RelTypeOID r) (br_RelKind r)
    (br_TouchConfirmed r) cols.
Definition ref_rel (g : pgBindingGate) (r : PGBoundRef) : option pgBoundRelation := rel_of g (ri_RelationOID (br_Identity r)).

Definition stageAttributes (g : pgBindingGate) : pg W pgBindingGate :=
  g ← pg_each read_columns g (sort_slice Z.ltb (elements (dom (g_byOID g))));
  if bool_decide (map_Forall (λ _ r, is_Some (ref_rel g r)) (g_refs g))
  then mret (set_refs ((λ r, ref_columns (default [] (bo_columns <$> ref_rel g r)) r) <$> g_refs g) g)
  else throw (wrap IsPanic).

(** ** The prepared mapping, proved again *)

Definition nav_target_ok (nav : pgNavigationBinding) (g : pgBindingGate) : bool :=
  match guard_refs with
  | [ref] =>
    (rv_Kind ref =?b RefQualified) && (rv_Schema ref =?b nl_schema (nb_target nav)) && (rv_Name ref =?b nl_name (nb_target nav))
    && (rv_Catalog ref =?b [])
    && match g_refs g !! rv_RefID ref with
       | None => false
       | Some b =>
         (ri_RelationOID (br_Identity b) =? nl_oid (nb_target nav))%Z && (br_RelTypeOID b =? nl_reltype (nb_target nav))%Z
         && (br_Schema b =?b nl_schema (nb_target nav)) && (br_CatalogName b =?b nl_name (nb_target nav))
         && (br_RelKind b =?b nl_kind (nb_target nav))
       end
  | _ => false
  end.

Definition nav_source_ok (nav : pgNavigationBinding) (g : pgBindingGate) : bool :=
  match n ← g_navSource g; g_heap g !! n with
  | None => false
  | Some s => (bo_oid s =? nl_oid (nb_source nav))%Z && (bo_reltype s =? nl_reltype (nb_source nav))%Z
              && (bo_schema s =?b nl_schema (nb_source nav)) && (bo_name s =?b nl_name (nb_source nav))
              && (bo_relkind s =?b nl_kind (nb_source nav))
  end.

Definition nav_read_fail {A} (e : pg_error) : pg W A :=
  match pe_Reject e with
  | Some re => throw (rejected re)
  | None => c ← ctx_err; gate_fail (match c with Some c => wrap c | None => e end)
  end.

Definition stageNavigationVerify (g : pgBindingGate) : pg W pgBindingGate :=
  match bi_navigation i with
  | None => mret g
  | Some nav =>
    if negb (nav_target_ok nav g) then throw nav_changed
    else if negb (nav_source_ok nav g) then throw nav_changed
    else
      a ← gate_query (QNavigation (nl_schema (nb_source nav)) (nl_name (nb_source nav)) (nb_fkName nav));
      fresh ← on_error (of_result (readPGNavigationBinding (an_rows a) (an_err a) (nb_fkName nav))) nav_read_fail;
      match fresh with
      | None => throw nav_changed
      | Some fresh =>
        match sameAs fresh (Some nav) with
        | None => throw (wrap IsPanic)
        | Some same => if negb same || negb (nb_databaseOID fresh =? g_dbOID g)%Z then throw nav_changed else mret g
        end
      end
  end.

(** ** The relations the audit may explain *)

Definition viewDeps (g : pgBindingGate) (view : pgBoundRelation) : pg W pgBindingGate :=
  a ← gate_query (QViewDeps (bo_oid view));
  drain (λ g r,
    if (vd_oid r =? bo_oid view)%Z then Ok g
    else if negb (vd_nsp r =?b bi_PinnedSchema i) && negb (vd_nsp r =?b bo_schema view)
    then Err (rejected (Reject (gs "query_dependency_not_approved") (gs "pgsql: relation dependency outside approved schemas")))
    else Ok (noteApproved (vd_oid r) (vd_shared r)
               (set_edges (g_extra g) (g_deps g ++ [ViewDependency (bo_oid view) (vd_oid r) (vd_nsp r) (vd_relkind r)])
                  (g_inherits g) (g_indexes g) g))) g a.

Definition stageViewDeps (g : pgBindingGate) : pg W pgBindingGate :=
  '(g, _) ← pg_each (λ '(g, seen) ref,
    match ref_rel g ref with
    | None => throw (wrap IsPanic)
    | Some rel =>
      if negb (bo_relkind rel =?b gs "v") && negb (bo_relkind rel =?b gs "m") then mret (g, seen)
      else if bool_decide (bo_oid rel ∈ seen) then mret (g, seen)
      else g ← viewDeps g rel; mret (g, {[bo_oid rel]} ∪ seen)
    end) (g, ∅ : gset Z) (order (g_refs g));
  mret g.

(** The relations a statement parses: references, dependencies and the navigation source. *)
Definition parsed_oids (g : pgBindingGate) : pg W (gset Z) :=
  let refs := list_to_set ((λ r, ri_RelationOID (br_Identity r)) <$> (map_to_list (g_refs g)).*2) : gset Z in
  let deps := list_to_set (pv_RelationOID <$> g_deps g) : gset Z in
  match g_navSource g with
  | None => mret (refs ∪ deps)
  | Some n => match g_heap g !! n with
              | None => throw (wrap IsPanic)
              | Some s => mret ({[bo_oid s]} ∪ (refs ∪ deps))
              end
  end.

Definition stageInheritChildren (g : pgBindingGate) : pg W pgBindingGate :=
  parents ← parsed_oids g;
  if decide (parents = ∅) then mret g
  else
    a ← gate_query (QInherits (elements parents));
    drain (λ g r, Ok (noteApproved (eg_oid r) (eg_shared r)
      (set_edges (g_extra g) (g_deps g) (g_inherits g ++ [InheritEdge (eg_parent r) (eg_oid r)]) (g_indexes g) g))) g a.

Definition stageEntityIndexes (g : pgBindingGate) : pg W pgBindingGate :=
  parsed ← parsed_oids g;
  let bases := list_to_set (ie_ChildOID <$> g_inherits g) ∪ parsed : gset Z in
  if decide (bases = ∅) then mret g
  else
    a ← gate_query (QIndexes (elements bases));
    drain (λ g r, Ok (noteApproved (eg_oid r) (eg_shared r)
      (set_edges (g_extra g) (g_deps g) (g_inherits g) (g_indexes g ++ [IndexEdge (eg_parent r) (eg_oid r)]) g))) g a.

Definition probe_names : list bytes :=
  match bi_navigation i with None => pgProbeCatalogNames | Some _ => pgProbeCatalogNames ++ [gs "pg_constraint"] end.

Definition stageProbeWhitelist (g : pgBindingGate) : pg W pgBindingGate :=
  a ← gate_query (QWhitelist probe_names);
  '(found, probes) ← drain (λ '(found, probes) r,
     Ok ((if pb_isTable r then {[pb_name r]} ∪ found else found), probes ++ [identityFor (g_dbOID g) (pb_oid r) (pb_shared r)]))
     (∅ : gset bytes, []) a;
  if existsb (λ name, negb (bool_decide (name ∈ found))) probe_names then throw errPGBindInternal
  else mret (set_probes (sort_slice id_less probes) g).

(** ** The result *)

Definition approved_set (g : pgBindingGate) : gset PGRelationIdentity :=
  list_to_set (br_Identity <$> (map_to_list (g_refs g)).*2) ∪ g_extra g.

Definition bind_result (g : pgBindingGate) (src : option PGRelationIdentity) : PGBindResult :=
  BindResult (g_refs g) (g_dbOID g) (sort_slice id_less (elements (approved_set g)))
    (sort_slice (pair_less pv_ViewOID pv_RelationOID) (g_deps g)) (sort_slice (pair_less ie_ParentOID ie_ChildOID) (g_inherits g))
    (sort_slice (pair_less xe_RelationOID xe_IndexOID) (g_indexes g)) (g_probes g) src
    (TxResolver (bi_PinnedSchema i) (g_heap g) (g_byName g)).
Definition gate_result (g : pgBindingGate) : pg W PGBindResult :=
  match g_navSource g with
  | None => mret (bind_result g None)
  | Some n => match g_heap g !! n with
              | None => throw (wrap IsPanic)
              | Some s => mret (bind_result g (Some (identityOf g s)))
              end
  end.

Definition gate_steps : list (pgBindingGate → pg W pgBindingGate) :=
  [stageDatabaseIdentity; stagePinnedUsage; stageEntityBind; stageNavigationBindSource; stageAttributes; stageNavigationVerify;
   stageViewDeps; stageInheritChildren; stageEntityIndexes; stageProbeWhitelist].

(** [PGBind] of a context with a deadline: [newPGBindingGate] and [run]. *)
Definition PGBind : pg W PGBindResult :=
  if negb (bi_Tx i) || negb (bool_decide (is_Some (bi_Guard i))) || (bi_Database i =?b []) || (bi_PinnedSchema i =?b [])
  then throw errPGBindInternal
  else
    g ← pg_each (λ g step, step g) new_gate gate_steps;
    gate_result g.

(** ** The resolver *)

Definition resolver_bound (r : pgTxResolver) (schema name : bytes) : result pg_error pgBoundRelation :=
  let schema := if schema =?b [] then tr_pinned r else schema in
  match tr_byName r !! (schema, name) with
  | None => Err (wrap IsTypeResolution)
  | Some n => match tr_heap r !! n with Some rel => Ok rel | None => Err (wrap IsPanic) end
  end.
Definition resolver_Columns (r : pgTxResolver) (schema name : bytes) : result pg_error (list bytes) :=
  (λ rel, cmd_Name <$> bo_columns rel) <$> resolver_bound r schema name.
Definition resolver_ColumnMetadata (r : pgTxResolver) (schema name : bytes) : result pg_error (list ColumnMetadata) :=
  bo_columns <$> resolver_bound r schema name.

Definition common_type_stmt (lt rt : bytes) : bytes :=
  let line n := [bz 10] ++ concat (replicate n [bz 9]) in
  gs "SELECT pg_catalog.pg_typeof((SELECT l.id FROM (SELECT NULL::" ++ lt ++ gs " AS id) AS l LIMIT 0))::pg_catalog.oid,"
  ++ line 2 ++ gs "        pg_catalog.pg_typeof((SELECT r.id FROM (SELECT NULL::" ++ rt ++ gs " AS id) AS r LIMIT 0))::pg_catalog.oid,"
  ++ line 2 ++ gs "        pg_catalog.pg_typeof((SELECT j.id FROM ((SELECT NULL::" ++ lt ++ gs " AS id) AS l"
  ++ line 2 ++ gs "                                       JOIN (SELECT NULL::" ++ rt ++ gs " AS id) AS r"
  ++ line 2 ++ gs "                                       USING (id)) AS j LIMIT 0))::pg_catalog.oid".

(** [common] is the resolver's cache of verdicts. *)
Definition CommonType (common : gmap (Z * Z) Z) (leftOID rightOID : Z) : pg W (Z * gmap (Z * Z) Z) :=
  if (leftOID =? rightOID)%Z then mret (leftOID, common)
  else match common !! (leftOID, rightOID) with
  | Some v => mret (v, common)
  | None =>
    '(lt, rt) ← gate_row (QFormatTypes leftOID rightOID) gate_fail;
    '(boundL, boundR, merged) ← gate_row (QCommonType (common_type_stmt lt rt)) gate_fail;
    if negb (boundL =? leftOID)%Z || negb (boundR =? rightOID)%Z then throw (wrap IsTypeResolution)
    else if (merged =? 0)%Z then throw (wrap IsTypeResolution)
    else mret (merged, <[(leftOID, rightOID) := merged]> common)
  end.
End gate.

(** ** Reasoning about the gate *)

(** The calls of the gate: every probe follows its own successful arming of a
    positive statement timeout. *)
Inductive timed : list pg_call → Prop :=
  | timed_nil : timed []
  | timed_arm ms r l : (0 < ms)%Z → timed l → timed (CExec set_timeout_sql [format_int ms ++ gs "ms"] r :: l)
  | timed_query ms {R} (q : probe R) r l : (0 < ms)%Z → timed l →
      timed (CExec set_timeout_sql [format_int ms ++ gs "ms"] (Ok tt) :: CQuery q r :: l)
  | timed_row ms {R} (q : probe R) r l : (0 < ms)%Z → timed l →
      timed (CExec set_timeout_sql [format_int ms ++ gs "ms"] (Ok tt) :: CRow q r :: l).
#[local] Hint Constructors timed : core.

Lemma timed_app l1 l2 : timed l1 → timed l2 → timed (l1 ++ l2).
Proof. induction 1; cbn; auto. Qed.

(** The gate's terminal vocabulary; a panic is not in it. *)
Definition gate_error (e : pg_error) : Prop :=
  is_Some (pe_Reject e) ∨ error_is e IsCanceled = true ∨ error_is e IsTimeout = true ∨ error_is e IsBackend = true.

Lemma remaining_positive deadline t ms : pgRemainingStatementTimeoutMs deadline t = Some ms → (0 < ms)%Z.
Proof. unfold pgRemainingStatementTimeoutMs. case_match; [done|]. intros [= <-]. case_match; bool_inv; lia. Qed.

Section gate_logic.
Context {W : Type} `{!PGSession W} (deadline : Z).

(** From any state with log [l], the step makes timed calls and ends in [Q] or
    in a failure of the vocabulary. *)
Definition gate_spec {A} (m : pg W A) (l : list pg_call) (Q : A → list pg_call → Prop) : Prop :=
  ∀ s, se_log s = l → let '(r, s') := m s in
  ∃ l1, se_log s' = l ++ l1 ∧ timed l1 ∧ match r with Ok a => Q a (l ++ l1) | Err e => gate_error e end.

Lemma gs_ret {A} (a : A) l (Q : A → list pg_call → Prop) : Q a l → gate_spec (mret a) l Q.
Proof. intros H s <-. exists []. rewrite app_nil_r. auto. Qed.

Lemma gs_throw {A} e l (Q : A → list pg_call → Prop) : gate_error e → gate_spec (throw e) l Q.
Proof. intros H s <-. exists []. rewrite app_nil_r. auto. Qed.

Lemma gs_bind {A B} (m : pg W A) (f : A → pg W B) l Q :
  gate_spec m l (λ a l', gate_spec (f a) l' Q) → gate_spec (m ≫= f) l Q.
Proof.
  intros H s Hs. specialize (H s Hs). unfold mbind, pg_bind. destruct (m s) as [[a|e] s1]; [|done].
  destruct H as (l1 & Hl1 & Ht1 & H). specialize (H s1 Hl1). destruct (f a s1) as [r s2].
  destruct H as (l2 & Hl2 & Ht2 & H). exists (l1 ++ l2). rewrite Hl2, app_assoc. split_and!; [done|by apply timed_app|done].
Qed.

Lemma gs_mono {A} (m : pg W A) l (Q Q' : A → list pg_call → Prop) :
  gate_spec m l Q → (∀ a l', l `prefix_of` l' → Q a l' → Q' a l') → gate_spec m l Q'.
Proof.
  intros H HQ s Hs. specialize (H s Hs). destruct (m s) as [[a|e] s1]; [|done].
  destruct H as (l1 & ? & ? & H). exists l1. split_and!; [done..|]. apply HQ; [by apply prefix_app_r|done].
Qed.

Lemma gs_pure {A} (r : result pg_error A) l (Q : A → list pg_call → Prop) :
  match r with Ok a => Q a l | Err e => gate_error e end → gate_spec (of_result r) l Q.
Proof. intros H s <-. exists []. rewrite app_nil_r. auto. Qed.

Lemma gs_ctx l (Q : option pg_sentinel → list pg_call → Prop) : (∀ c, Q c l) → gate_spec ctx_err l Q.
Proof. intros H s <-. unfold ctx_err. destruct (ps_ctx _). exists []. rewrite app_nil_r. auto. Qed.

Lemma ctx_failure_ok c : gate_error (ctx_failure c).
Proof. unfold gate_error, ctx_failure. destruct (decide _); vm_compute; tauto. Qed.

Lemma vocabulary_ok e : gate_error (bind_vocabulary e).
Proof.
  unfold bind_vocabulary. destruct (error_is e IsCanceled) eqn:E1; [right; left; done|].
  destruct (error_is e IsDeadline); [right; right; left; done|].
  destruct (error_is e IsTimeout || error_is e IsBackend) eqn:E2; [apply orb_prop in E2; unfold gate_error; tauto|].
  destruct (isPGQueryCanceled e); [right; right; left; done|right; right; right; done].
Qed.

Lemma gs_fail classify {A} e l (Q : A → list pg_call → Prop) : gate_spec (failStage classify e) l Q.
Proof.
  unfold failStage. destruct (pe_Reject e) as [re|]; [apply gs_throw; left; eauto|].
  apply gs_bind, gs_ctx. intros [c|]; apply gs_throw; [apply ctx_failure_ok|].
  destruct (classify e) as [re|]; [left; eauto|apply vocabulary_ok].
Qed.

Lemma gs_handle {A} (m : pg W A) h l (Q : A → list pg_call → Prop) :
  (∀ s, se_log s = l → let '(r, s') := m s in ∃ l1, se_log s' = l ++ l1 ∧ timed l1 ∧
     match r with Ok a => Q a (l ++ l1) | Err e => gate_spec (h e) (l ++ l1) Q end) →
  gate_spec (on_error m h) l Q.
Proof.
  intros H s Hs. specialize (H s Hs). unfold on_error. destruct (m s) as [[a|e] s1]; destruct H as (l1 & Hl & Ht & H).
  - eauto.
  - specialize (H s1 Hl). destruct (h e s1) as [r s2]. destruct H as (l2 & Hl2 & Ht2 & H).
    exists (l1 ++ l2). rewrite Hl2, app_assoc. split_and!; [done|by apply timed_app|done].
Qed.

(** Arming followed by one call: the call's log entry is [mk r]. *)
Lemma gs_armed {R} (call : pg W R) (mk : result pg_error R → pg_call) (h : pg_error → pg W R) l Q :
  (∀ s, let '(r, s') := call s in se_log s' = se_log s ++ [mk r]) →
  (∀ ms r k, (0 < ms)%Z → timed k → timed (CExec set_timeout_sql [format_int ms ++ gs "ms"] (Ok tt) :: mk r :: k)) →
  (∀ e l', l `prefix_of` l' → gate_spec (h e) l' Q) →
  (∀ a l', l `prefix_of` l' → mk (Ok a) ∈ l' → Q a l') →
  gate_spec (_ ← gate_arm deadline; on_error call h) l Q.
Proof.
  intros Hcall Htimed Hh HQ s Hs. subst l. unfold gate_arm, on_error, arm, mbind, pg_bind, now, exec, throw.
  destruct (ps_now _) as [t w]. destruct (pgRemainingStatementTimeoutMs deadline t) as [ms|] eqn:Ems.
  2: { pose proof (gs_fail no_class (A := unit) (wrap IsTimeout) (se_log s) (λ _ _, False) (Session w (se_log s)) eq_refl) as H.
       unfold gate_fail. destruct (failStage _ _ _) as [[u|e] s']; destruct H as (l1 & ? & ? & ?); [done|eauto]. }
  apply remaining_positive in Ems. destruct (ps_exec _ _ _) as [[[]|e] w1] eqn:Eexec; cbn [se_world se_log].
  2: { pose proof (gs_fail no_class (A := unit) e (se_log s ++ [CExec set_timeout_sql [format_int ms ++ gs "ms"] (Err e)]) (λ _ _, False)) as H.
       specialize (H (Session w1 (se_log s ++ [CExec set_timeout_sql [format_int ms ++ gs "ms"] (Err e)]))). cbn [se_log] in H.
       specialize (H eq_refl). unfold gate_fail.
       destruct (failStage _ _ _) as [[u|e'] s']; destruct H as (l1 & Hl & Ht & H); [done|].
       exists (CExec set_timeout_sql [format_int ms ++ gs "ms"] (Err e) :: l1). rewrite Hl, <- app_assoc. auto. }
  set (s1 := Session w1 (se_log s ++ [CExec set_timeout_sql [format_int ms ++ gs "ms"] (Ok tt)])).
  specialize (Hcall s1). destruct (call s1) as [[a|e] s2].
  - exists [CExec set_timeout_sql [format_int ms ++ gs "ms"] (Ok tt); mk (Ok a)].
    rewrite Hcall. cbn [s1 se_log]. rewrite <- app_assoc. split_and!; [done|by apply Htimed|].
    apply HQ; [by apply prefix_app_r|]. apply elem_of_app. right. by right; left.
  - specialize (Hh e (se_log s ++ [CExec set_timeout_sql [format_int ms ++ gs "ms"] (Ok tt); mk (Err e)])).
    specialize (Hh ltac:(by apply prefix_app_r) s2). rewrite Hcall in Hh. cbn [s1 se_log] in Hh.
    specialize (Hh ltac:(by rewrite <- app_assoc)). destruct (h e s2) as [r s3].
    destruct Hh as (l1 & Hl & Ht & Hr).
    exists (CExec set_timeout_sql [format_int ms ++ gs "ms"] (Ok tt) :: mk (Err e) :: l1).
    rewrite Hl. rewrite <- app_assoc. cbn [app]. split_and!; [done|by apply Htimed|].
    destruct r; [|done]. by rewrite <- app_assoc in Hr.
Qed.

Lemma gs_query classify {R} (q : probe R) l Q :
  (∀ a l', l `prefix_of` l' → CQuery q (Ok a) ∈ l' → Q a l') → gate_spec (queryStage deadline classify q) l Q.
Proof.
  intros H. unfold queryStage. apply (gs_armed _ (CQuery q)); [|intros; by constructor|intros; apply gs_fail|exact H].
  intros s. unfold query. by destruct (ps_query _ _).
Qed.

Lemma gs_row {R} (q : probe R) h l Q :
  (∀ e l', gate_spec (h e) l' Q) → (∀ a l', l `prefix_of` l' → CRow q (Ok a) ∈ l' → Q a l') →
  gate_spec (gate_row deadline q h) l Q.
Proof.
  intros Hh H. unfold gate_row. apply (gs_armed _ (CRow q)); [|intros; by constructor|intros; apply Hh|exact H].
  intros s. unfold query_row. by destruct (ps_row _ _).
Qed.

Lemma gs_each {A S} (I : list A → S → list pg_call → Prop) (f : S → A → pg W S) acc xs l :
  I [] acc l →
  (∀ done x acc l', l `prefix_of` l' → x ∈ xs → I done acc l' → gate_spec (f acc x) l' (I (done ++ [x]))) →
  gate_spec (pg_each f acc xs) l (I xs).
Proof.
  intros H0 Hstep.
  assert (∀ rest done acc l', l `prefix_of` l' → xs = done ++ rest → I done acc l' → gate_spec (pg_each f acc rest) l' (I xs)) as H.
  { induction rest as [|x rest IH]; intros done acc' l' Hl Hxs HI; cbn [pg_each].
    - apply gs_ret. by rewrite Hxs, app_nil_r.
    - apply gs_bind. eapply gs_mono; [apply (Hstep done); [done| |done]|].
      + rewrite Hxs. apply elem_of_app. right. by left.
      + intros acc'' l'' Hl'' HI'. apply (IH (done ++ [x])); [by etrans| |done]. by rewrite Hxs, <- app_assoc. }
  by apply (H xs []).
Qed.

Lemma gs_drain {R S} (I : list R → S → Prop) (step : S → R → result pg_error S) acc (a : answer R) l :
  I [] acc →
  (∀ done r acc, I done acc → match step acc r with Ok acc' => I (done ++ [r]) acc' | Err e => gate_error e end) →
  gate_spec (drain step acc a) l (λ acc' _, ∃ rows, an_rows a = Ok <$> rows ∧ an_err a = None ∧ I rows acc').
Proof.
  intros H0 Hstep. unfold drain. apply gs_bind.
  assert (∀ rest done acc l', I done acc →
    gate_spec (scan_rows step acc rest) l' (λ acc' _, ∃ rows, rest = Ok <$> rows ∧ I (done ++ rows) acc')) as H.
  { induction rest as [|[r|e] rest IH]; intros done acc' l' HI; cbn [scan_rows].
    - apply gs_ret. exists []. by rewrite app_nil_r.
    - apply gs_bind, gs_pure. specialize (Hstep done r acc' HI). destruct (step acc' r) as [acc''|e]; [|done].
      eapply gs_mono; [by apply IH|]. intros acc3 l3 _ (rows & -> & Hr). exists (r :: rows).
      rewrite <- app_assoc in Hr. done.
    - apply gs_fail. }
  eapply gs_mono; [by apply (H (an_rows a) [])|]. cbn. intros acc' l' _ (rows & Hr & HI).
  destruct (an_err a) as [e|]; [apply gs_fail|]. apply gs_ret. eauto.
Qed.
End gate_logic.

(** ** What the gate proves of a relation *)

(** The three answers that identify the relation a name stands for: the
    resolution, the touch that locked it, and the second resolution. *)
Definition identified (l : list pg_call) (schema name : bytes) (r : resolved_row) : Prop :=
  CRow (QResolve (pgQualifiedName schema name)) (Ok r) ∈ l
  ∧ (∃ a, CQuery (QTouch (touch_stmt schema name)) (Ok a) ∈ l ∧ an_fds a = [rr_reltype r] ∧ an_err a = None)
  ∧ CRow (QRecheck (pgQualifiedName schema name)) (Ok (Some (rr_oid r))) ∈ l.

(** A physical record as the catalog described it under its key. *)
Definition described (l : list pg_call) (key : pgRelKey) (rel : pgBoundRelation) : Prop :=
  ∃ r, identified l key.1 key.2 r ∧ bo_oid rel = rr_oid r ∧ bo_reltype rel = rr_reltype r ∧ bo_relkind rel = rr_relkind r
    ∧ bo_shared rel = rr_shared r ∧ bo_schema rel = rr_nspname r ∧ bo_name rel = rr_relname r.

Lemma identified_mono l l' schema name r : l `prefix_of` l' → identified l schema name r → identified l' schema name r.
Proof.
  intros [k ->] (H1 & (a & H2 & ? & ?) & H3). split; [by apply elem_of_app; left|].
  split; [exists a; split; [by apply elem_of_app; left|done]|by apply elem_of_app; left].
Qed.
Lemma described_mono l l' key rel : l `prefix_of` l' → described l key rel → described l' key rel.
Proof. intros Hl (r & H & Hr). exists r. split; [by eapply identified_mono|done]. Qed.

(** The gate's maps point to described records, and [byOID] knows every record. *)
Definition heap_ok (l : list pg_call) (g : pgBindingGate) : Prop :=
  (∀ key n, g_byName g !! key = Some n →
     ∃ rel, g_heap g !! n = Some rel ∧ described l key rel ∧ is_Some (rel_of g (bo_oid rel)))
  ∧ (∀ oid rel, rel_of g oid = Some rel → bo_oid rel = oid ∧ ∃ key, described l key rel)
  ∧ (∀ oid n, g_byOID g !! oid = Some n → is_Some (g_heap g !! n)).

Lemma heap_ok_mono l l' g : l `prefix_of` l' → heap_ok l g → heap_ok l' g.
Proof.
  intros Hl (Hn & Ho & ?). split; [|split; [|done]].
  - intros key n Hk. destruct (Hn key n Hk) as (rel & ? & ? & ?). exists rel. split_and!; [done|by eapply described_mono|done].
  - intros oid rel Hr. destruct (Ho oid rel Hr) as (? & key & ?). split; [done|]. exists key. by eapply described_mono.
Qed.

(** The record of a name seen for the first time. *)
Definition relation_of (r : resolved_row) : pgBoundRelation :=
  BoundRelation (rr_oid r) (rr_reltype r) (rr_relkind r) (rr_shared r) (rr_nspname r) (rr_relname r) [].
Definition with_relation (key : pgRelKey) (r : resolved_row) (g : pgBindingGate) : pgBindingGate :=
  set_maps (g_heap g ++ [relation_of r]) (<[key := length (g_heap g)]> (g_byName g))
    (<[rr_oid r := length (g_heap g)]> (g_byOID g)) g.

Lemma rel_of_new key r g : rel_of (with_relation key r g) (rr_oid r) = Some (relation_of r).
Proof. unfold rel_of. cbn. rewrite lookup_insert_eq. cbn. by rewrite lookup_app_r, Nat.sub_diag. Qed.

Lemma rel_of_old key r g oid rel :
  rel_of g oid = Some rel → oid ≠ rr_oid r → rel_of (with_relation key r g) oid = Some rel.
Proof.
  unfold rel_of. cbn. intros H Hne. rewrite lookup_insert_ne by done. destruct (g_byOID g !! oid) as [n|]; [|done].
  cbn in *. by apply lookup_app_l_Some.
Qed.

(** Every record stays reachable by its OID. *)
Definition keeps (g g' : pgBindingGate) : Prop := ∀ oid, is_Some (rel_of g oid) → is_Some (rel_of g' oid).
Lemma keeps_new key r g : keeps g (with_relation key r g).
Proof.
  intros oid [rel Hr]. destruct (decide (oid = rr_oid r)) as [->|Hne]; [rewrite rel_of_new; eauto|].
  erewrite rel_of_old by done. eauto.
Qed.

Lemma heap_ok_new l g schema name r :
  heap_ok l g → identified l schema name r →
  let key := (schema, name) in let g' := with_relation key r g in
  heap_ok l g' ∧ g_heap g' !! length (g_heap g) = Some (relation_of r) ∧ described l key (relation_of r)
  ∧ is_Some (rel_of g' (bo_oid (relation_of r)))
  ∧ (∃ r', identified l schema name r' ∧ rr_oid r' = bo_oid (relation_of r) ∧ rr_reltype r' = bo_reltype (relation_of r))
  ∧ keeps g g' ∧ g' = set_maps (g_heap g') (g_byName g') (g_byOID g') g.
Proof.
  intros (Hn & Ho & Hi) Hid. cbv zeta. pose proof (keeps_new (schema, name) r g) as Hkeep.
  assert (g_heap (with_relation (schema, name) r g) !! length (g_heap g) = Some (relation_of r)) as Hh
    by (cbn; by rewrite lookup_app_r, Nat.sub_diag).
  assert (described l (schema, name) (relation_of r)) as Hd by (exists r; done).
  assert (is_Some (rel_of (with_relation (schema, name) r g) (bo_oid (relation_of r)))) as Hs by (rewrite rel_of_new; eauto).
  split; [|split; [done|]; split; [done|]; split; [done|]; split; [by exists r|done]]. split; [|split].
  - intros key n Hk. cbn in Hk. destruct (decide (key = (schema, name))) as [->|Hne].
    + rewrite lookup_insert_eq in Hk. injection Hk as <-. eauto.
    + rewrite lookup_insert_ne in Hk by done. destruct (Hn key n Hk) as (rel & Hr & Hdr & [rel' Hrel]).
      exists rel. split_and!; [by apply lookup_app_l_Some|done|].
      destruct (decide (bo_oid rel = rr_oid r)) as [Heq|Hne']; [rewrite Heq, rel_of_new; eauto|].
      erewrite rel_of_old by done. eauto.
  - intros oid rel. destruct (decide (oid = rr_oid r)) as [->|Hne]; [rewrite rel_of_new; intros [= <-]; eauto|].
    intros Hr. apply Ho. revert Hr. unfold rel_of. cbn. rewrite lookup_insert_ne by done.
    destruct (g_byOID g !! oid) as [n|] eqn:En; [|done]. cbn. destruct (Hi _ _ En) as [x Hx].
    by rewrite (lookup_app_l_Some _ _ _ _ Hx), Hx.
  - intros oid n Hk. cbn in *. destruct (decide (oid = rr_oid r)) as [->|Hne].
    + rewrite lookup_insert_eq in Hk. injection Hk as <-. rewrite Hh. eauto.
    + rewrite lookup_insert_ne in Hk by done. destruct (Hi _ _ Hk) as [x Hx]. rewrite (lookup_app_l_Some _ _ _ _ Hx). eauto.
Qed.

Section relation.
Context {W : Type} `{!PGSession W} (deadline : Z) (i : PGBindInput).

Lemma gs_touch schema name l Q :
  (∀ oid a l', l `prefix_of` l' → CQuery (QTouch (touch_stmt schema name)) (Ok a) ∈ l' → an_fds a = [oid] → an_err a = None → Q oid l') →
  gate_spec (touch deadline schema name) l Q.
Proof.
  intros H. unfold touch. apply gs_bind, gs_query. intros a l' Hl Ha.
  destruct (an_err a) as [e|] eqn:Ee; [apply gs_fail|].
  destruct (an_fds a) as [|oid [|? ?]] eqn:Ef; try (apply gs_throw; right; right; right; done).
  apply gs_ret. eauto.
Qed.

(** Binding a name returns a record that its own three answers identify. *)
Lemma gs_bind_relation schema name g l :
  heap_ok l g →
  gate_spec (bindPhysicalRelation deadline schema name g) l (λ '(n, rel, g') l',
    heap_ok l' g' ∧ g_heap g' !! n = Some rel ∧ described l' (schema, name) rel ∧ is_Some (rel_of g' (bo_oid rel))
    ∧ (∃ r, identified l' schema name r ∧ rr_oid r = bo_oid rel ∧ rr_reltype r = bo_reltype rel)
    ∧ keeps g g' ∧ g' = set_maps (g_heap g') (g_byName g') (g_byOID g') g).
Proof.
  intros Hg. unfold bindPhysicalRelation. apply gs_bind, gs_row.
  { intros e l'. destruct (error_is e IsNoRows); [apply gs_throw; left; eauto|apply gs_fail]. }
  intros r l1 Hl1 Hr1. apply gs_bind, gs_touch. intros oid a l2 Hl2 Ha Hf He.
  case_if as E1; [apply gs_throw; left; eauto|].
  apply gs_bind, gs_row; [intros; apply gs_fail|]. intros again l3 Hl3 Hr3.
  case_if as E2; [apply gs_throw; left; eauto|]. bool_inv. subst again oid.
  assert (identified l3 schema name r) as Hid.
  { destruct Hl2 as [k2 ->], Hl3 as [k3 ->]. split; [by do 2 (apply elem_of_app; left)|]. split; [|done].
    exists a. split; [by apply elem_of_app; left|done]. }
  assert (l `prefix_of` l3) as Hl by (do 2 (etrans; [eassumption|]); done). clear Hr1 Ha Hr3 Hl1 Hl2 Hl3 Hf He.
  apply (heap_ok_mono _ l3) in Hg; [|done]. unfold cache_relation. destruct (g_byName g !! (schema, name)) as [n|] eqn:En.
  - destruct Hg as (Hn & Ho & Hi). destruct (Hn _ _ En) as (rel & Hrel & Hd & Hs). rewrite Hrel.
    destruct (negb (bo_oid rel =? rr_oid r)%Z || negb (bo_reltype rel =? rr_reltype r)%Z) eqn:E3;
      [apply gs_throw; right; right; right; done|]. bool_inv.
    apply gs_ret. split; [by split|]. split; [done|]. split; [done|]. split; [done|].
    split; [by exists r|]. split; [by intros ?|by destruct g].
  - apply gs_ret. apply heap_ok_new; done.
Qed.

(** ** The stages *)

Definition effective_schema (ref : RangeVarRef) : bytes := if rv_Kind ref =?b RefEntity then bi_PinnedSchema i else rv_Schema ref.

(** The bound record of a reference: its relation, with attributes [cols]. *)
Definition bound_as (db : Z) (ref : RangeVarRef) (rel : pgBoundRelation) (cols : list ColumnMetadata) : PGBoundRef :=
  MkBoundRef (rv_RefID ref) (bo_schema rel) (rv_Name ref) (bo_name rel) (identityFor db (bo_oid rel) (bo_shared rel))
    (bo_reltype rel) (bo_relkind rel) true cols.

(** A record is bound to one of the guard's references, inside the attempt's
    database, through a relation its own answers identify. *)
Definition ref_proved (l : list pg_call) (g : pgBindingGate) (id : Z) (b : PGBoundRef) : Prop :=
  ∃ ref rel, ref ∈ guard_refs i ∧ rv_RefID ref = id ∧ rv_Kind ref ≠ RefCTE
    ∧ (rv_Catalog ref = [] ∨ rv_Catalog ref = bi_Database i)
    ∧ described l (effective_schema ref, rv_Name ref) rel
    ∧ b = bound_as (g_dbOID g) ref rel (br_Columns b)
    ∧ is_Some (rel_of g (bo_oid rel)).

Lemma ref_proved_mono l l' g id b : l `prefix_of` l' → ref_proved l g id b → ref_proved l' g id b.
Proof.
  intros Hl (ref & rel & ? & ? & ? & ? & Hd & ?). exists ref, rel. repeat (split; [done|]).
  split; [by eapply described_mono|done].
Qed.

(** Binding another relation keeps what was proved. *)
Lemma ref_proved_maps l g g' id b :
  g' = set_maps (g_heap g') (g_byName g') (g_byOID g') g →
  keeps g g' → ref_proved l g id b → ref_proved l g' id b.
Proof.
  intros Hg Hm (ref & rel & ? & ? & ? & ? & ? & ? & ?). exists ref, rel. repeat (split; [done|]).
  split; [|by apply Hm]. rewrite Hg. done.
Qed.

(** The gate after its references are bound. *)
Record bound_gate (l : list pg_call) (g : pgBindingGate) : Prop := {
  bg_heap : heap_ok l g;
  bg_refs : map_Forall (ref_proved l g) (g_refs g);
}.

Lemma bound_gate_mono l l' g : l `prefix_of` l' → bound_gate l g → bound_gate l' g.
Proof.
  intros Hl [Hh Hr]. split; [by eapply heap_ok_mono|]. intros id b Hb. eapply ref_proved_mono; [done|]. by apply Hr.
Qed.

Lemma gs_bind_entity g ref l :
  bound_gate l g → ref ∈ guard_refs i → rv_Kind ref ≠ RefCTE →
  gate_spec (bindEntity deadline i g ref) l (λ g' l',
    bound_gate l' g' ∧ dom (g_refs g') = {[rv_RefID ref]} ∪ dom (g_refs g)
    ∧ g_dbOID g' = g_dbOID g ∧ g_extra g' = g_extra g ∧ g_navSource g' = g_navSource g).
Proof.
  intros Hg Hin Hkind. unfold bindEntity. case_if as E1; [apply gs_throw; left; eauto|].
  apply gs_bind. eapply gs_mono; [apply (gs_bind_relation (effective_schema ref)), Hg|].
  intros [[n rel] g1] l1 Hl1 (Hh & Hn & Hd & Hs & _ & Hk & Heq). apply gs_ret.
  assert (rv_Catalog ref = [] ∨ rv_Catalog ref = bi_Database i) as Hcat.
  { apply andb_false_iff in E1 as [E1|E1]; bool_inv; auto. }
  rewrite Heq. cbn. split; [|split; [by rewrite dom_insert_L|done]]. split; [by rewrite <- Heq|].
  cbn. apply map_Forall_insert_2.
  - exists ref, rel. do 6 (split; [done|]). done.
  - intros id b Hb. eapply ref_proved_mono; [exact Hl1|]. apply (bg_refs _ _ Hg) in Hb.
    eapply ref_proved_maps in Hb; [|exact Heq|exact Hk]. rewrite Heq in Hb. exact Hb.
Qed.

Definition entity_ids (refs : list RangeVarRef) : gset Z :=
  list_to_set (rv_RefID <$> filter (λ r, rv_Kind r ≠ RefCTE) refs).

Lemma gs_entities g l :
  bound_gate l g → g_refs g = ∅ →
  gate_spec (stageEntityBind deadline i g) l (λ g' l',
    bound_gate l' g' ∧ dom (g_refs g') = entity_ids (guard_refs i)
    ∧ g_dbOID g' = g_dbOID g ∧ g_extra g' = g_extra g ∧ g_navSource g' = g_navSource g).
Proof.
  intros Hg Hempty. apply (gs_each (λ done g' l', bound_gate l' g' ∧ dom (g_refs g') = entity_ids done
    ∧ g_dbOID g' = g_dbOID g ∧ g_extra g' = g_extra g ∧ g_navSource g' = g_navSource g)).
  { split; [done|]. by rewrite Hempty, dom_empty_L. }
  intros done ref g1 l1 Hl1 Hin (Hg1 & Hdom & Hdb & Hx & Hn).
  assert (entity_ids (done ++ [ref]) = (if decide (rv_Kind ref ≠ RefCTE) then {[rv_RefID ref]} else ∅) ∪ entity_ids done) as Hids.
  { unfold entity_ids. rewrite filter_app, fmap_app, list_to_set_app_L, (comm_L (∪)). f_equal.
    rewrite filter_cons, filter_nil. destruct (decide _); cbn; [by rewrite (right_id_L ∅ (∪))|done]. }
  case_bool_decide as Ek.
  - apply gs_ret. rewrite Hids, decide_False by (by intros []). rewrite (left_id_L ∅ (∪)). done.
  - eapply gs_mono; [by apply gs_bind_entity|]. intros g2 l2 _ (Hg2 & Hdom2 & Hdb2 & Hx2 & Hn2).
    rewrite Hids, decide_True by done. split; [done|]. rewrite Hdom2, Hdom. split; [done|]. by rewrite Hdb2, Hx2, Hn2.
Qed.

(** The navigation source is bound like a reference, and noted. *)
Definition source_bound (l : list pg_call) (g : pgBindingGate) (nav : pgNavigationBinding) (rel : pgBoundRelation) : Prop :=
  (∃ n, g_navSource g = Some n ∧ g_heap g !! n = Some rel)
  ∧ described l (nl_schema (nb_source nav), nl_name (nb_source nav)) rel
  ∧ identityFor (g_dbOID g) (bo_oid rel) (bo_shared rel) ∈ g_extra g.

Lemma gs_source g l :
  bound_gate l g → g_navSource g = None →
  gate_spec (stageNavigationBindSource deadline i g) l (λ g' l',
    bound_gate l' g' ∧ dom (g_refs g') = dom (g_refs g) ∧ g_dbOID g' = g_dbOID g
    ∧ match bi_navigation i with
      | None => g' = g
      | Some nav => ∃ rel, source_bound l' g' nav rel
          ∧ g_extra g' = {[identityFor (g_dbOID g) (bo_oid rel) (bo_shared rel)]} ∪ g_extra g
      end).
Proof.
  intros Hg Hn0. unfold stageNavigationBindSource. destruct (bi_navigation i) as [nav|]; [|by apply gs_ret].
  apply gs_bind. eapply gs_mono; [apply gs_bind_relation, Hg|].
  intros [[n rel] g1] l1 Hl1 (Hh & Hn & Hd & Hs & _ & Hk & Heq). apply gs_ret. rewrite Heq. cbn. split; [|split; [done|split; [done|]]].
  - split; [by rewrite <- Heq|]. intros id b Hb. eapply ref_proved_mono; [exact Hl1|].
    apply (bg_refs _ _ Hg) in Hb. eapply ref_proved_maps in Hb; [|exact Heq|exact Hk]. rewrite Heq in Hb. exact Hb.
  - exists rel. split; [|done]. split; [by exists n|]. split; [done|]. cbn. set_solver.
Qed.

(** The attributes read for a relation's OID. *)
Definition attributes_of (l : list pg_call) (oid : Z) (cols : list ColumnMetadata) : Prop :=
  ∃ a rows, CQuery (QAttributes oid) (Ok a) ∈ l ∧ an_rows a = Ok <$> rows ∧ an_err a = None
    ∧ cols = (λ r, MkColumnMetadata (ar_name r) (ar_typoid r) (ar_typmod r) oid (ar_attnum r)) <$> rows.

Lemma attributes_mono l l' oid cols : l `prefix_of` l' → attributes_of l oid cols → attributes_of l' oid cols.
Proof.
  intros [k ->] (a & rows & Ha & ?). exists a, rows. split; [by apply elem_of_app; left|done].
Qed.

Lemma gs_attributes oid l Q :
  (∀ cols l', l `prefix_of` l' → attributes_of l' oid cols → Q cols l') → gate_spec (attributes deadline oid) l Q.
Proof.
  intros H. unfold attributes. apply gs_bind, gs_query. intros a l1 Hl1 Ha.
  eapply gs_mono; [apply (gs_drain (λ rows cols, cols =
    (λ r, MkColumnMetadata (ar_name r) (ar_typoid r) (ar_typmod r) oid (ar_attnum r)) <$> rows)); [done|]|].
  - intros done r acc ->. by rewrite fmap_app.
  - intros cols l2 Hl2 (rows & Hr & He & ->). apply H; [by etrans|]. exists a, rows. split_and!; [|done..].
    destruct Hl2 as [k ->]. apply elem_of_app. by left.
Qed.

(** Reading columns changes nothing else of the heap. *)
Definition same_but_columns (g g' : pgBindingGate) : Prop :=
  g' = set_maps (g_heap g') (g_byName g) (g_byOID g) g
  ∧ Forall2 (λ r r', r' = with_columns (bo_columns r') r) (g_heap g) (g_heap g').

Lemma same_lookup g g' n rel :
  same_but_columns g g' → g_heap g !! n = Some rel → ∃ cols, g_heap g' !! n = Some (with_columns cols rel).
Proof. intros [_ H] Hn. destruct (Forall2_lookup_l _ _ _ _ _ H Hn) as (r' & Hr' & Hw). exists (bo_columns r'). congruence. Qed.

Lemma same_rel_of g g' oid rel :
  same_but_columns g g' → rel_of g oid = Some rel → ∃ cols, rel_of g' oid = Some (with_columns cols rel).
Proof.
  intros Hs. unfold rel_of. assert (g_byOID g' = g_byOID g) as -> by (destruct Hs as [-> _]; done).
  destruct (g_byOID g !! oid) as [n|]; [|done]. cbn. by apply same_lookup.
Qed.

Lemma described_columns l key rel cols : described l key rel → described l key (with_columns cols rel).
Proof. done. Qed.

Lemma same_heap_ok l g g' : same_but_columns g g' → heap_ok l g → heap_ok l g'.
Proof.
  intros Hs (Hn & Ho & Hi). pose proof Hs as [Heq Hall]. split; [|split].
  - intros key n Hk. assert (g_byName g !! key = Some n) as Hk' by (rewrite Heq in Hk; exact Hk).
    destruct (Hn key n Hk') as (rel & Hr & Hd & [rel' Hrel]).
    destruct (same_lookup _ _ _ _ Hs Hr) as [cols Hc]. exists (with_columns cols rel). split_and!; [done|done|].
    destruct (same_rel_of _ _ _ _ Hs Hrel) as [cols' Hc']. cbn. rewrite Hc'. eauto.
  - intros oid rel' Hr'. destruct (rel_of g oid) as [rel|] eqn:Hrel.
    + destruct (same_rel_of _ _ _ _ Hs Hrel) as [cols Hc]. rewrite Hc in Hr'. injection Hr' as <-. exact (Ho _ _ Hrel).
    + exfalso. unfold rel_of in Hrel, Hr'. assert (g_byOID g' = g_byOID g) as Hb by (rewrite Heq; done). rewrite Hb in Hr'.
      destruct (g_byOID g !! oid) as [n|] eqn:En; [|done]. cbn in Hrel, Hr'. destruct (Hi _ _ En) as [x Hx]. congruence.
  - intros oid n Hk. assert (g_byOID g !! oid = Some n) as Hk' by (rewrite Heq in Hk; exact Hk).
    destruct (Hi _ _ Hk') as [x Hx]. destruct (same_lookup _ _ _ _ Hs Hx) as [cols ->]. eauto.
Qed.

Lemma same_keeps g g' : same_but_columns g g' → keeps g g'.
Proof. intros Hs oid [rel Hr]. destruct (same_rel_of _ _ _ _ Hs Hr) as [cols ->]. eauto. Qed.

Lemma same_refl g : same_but_columns g g.
Proof. split; [by destruct g|]. apply Forall_Forall2_diag, Forall_true. by intros []. Qed.

(** The next relation's columns. *)
Definition columns_at (cols : list ColumnMetadata) (n : nat) (g : pgBindingGate) : pgBindingGate :=
  set_maps (alter (with_columns cols) n (g_heap g)) (g_byName g) (g_byOID g) g.

Lemma same_alter g g' cols n : same_but_columns g g' → same_but_columns g (columns_at cols n g').
Proof.
  intros [Heq Hall]. split; [by rewrite Heq|]. cbn. apply Forall2_same_length_lookup_2.
  { rewrite length_alter. by apply Forall2_length in Hall. }
  intros k r r' Hk Hk'. destruct (Forall2_lookup_l _ _ _ _ _ Hall Hk) as (r1 & Hr1 & Hw).
  destruct (decide (k = n)) as [->|Hne].
  - rewrite list_lookup_alter_eq, Hr1 in Hk'. injection Hk' as <-. cbn. by rewrite Hw at 1.
  - rewrite list_lookup_alter_ne in Hk' by done. rewrite Hr1 in Hk'. injection Hk' as <-. done.
Qed.

Lemma gs_read_columns g l :
  heap_ok l g →
  gate_spec (pg_each (read_columns deadline) g (sort_slice Z.ltb (elements (dom (g_byOID g))))) l (λ g' l',
    same_but_columns g g' ∧ ∀ oid rel, rel_of g' oid = Some rel → attributes_of l' oid (bo_columns rel)).
Proof.
  intros Hh. set (oids := sort_slice Z.ltb (elements (dom (g_byOID g)))).
  assert (∀ oid, oid ∈ oids ↔ is_Some (g_byOID g !! oid)) as Hoids
    by (intros oid; unfold oids; rewrite sort_slice_elem, elem_of_elements, elem_of_dom; done).
  eapply gs_mono.
  - apply (gs_each (λ done g' l', l `prefix_of` l' ∧ same_but_columns g g' ∧
      ∀ oid rel, oid ∈ done → rel_of g' oid = Some rel → attributes_of l' oid (bo_columns rel))).
    + split; [done|]. split; [apply same_refl|]. by intros oid rel ?%elem_of_nil.
    + intros done oid g1 l1 Hl1 Hin (_ & Hs & Hd). unfold read_columns. apply gs_bind, gs_attributes. intros cols l2 Hl2 Hc.
      assert (g_byOID g1 = g_byOID g) as Hb by (destruct Hs as [-> _]; done). rewrite Hb.
      apply Hoids in Hin as [n Hn]. rewrite Hn. apply gs_ret. split; [by etrans|]. split; [rewrite <- Hb; by apply same_alter|].
      assert (heap_ok l2 g1) as Hh1 by (eapply same_heap_ok; [done|]; eapply heap_ok_mono; [|done]; by etrans).
      intros oid' rel' Hin' Hr'. unfold rel_of in Hr'. cbn in Hr'. rewrite <- Hb in *.
      destruct (g_byOID g1 !! oid') as [n'|] eqn:En'; [|done]. cbn in Hr'.
      destruct (decide (n' = n)) as [->|Hne].
      * rewrite list_lookup_alter_eq in Hr'. destruct (g_heap g1 !! n) as [x|] eqn:Ex; [|done]. injection Hr' as <-.
        assert (rel_of g1 oid = Some x ∧ rel_of g1 oid' = Some x) as [H1 H2] by (unfold rel_of; rewrite Hn, En'; cbn; by rewrite Ex).
        apply Hh1 in H1 as [<- _]. apply Hh1 in H2 as [<- _]. exact Hc.
      * rewrite list_lookup_alter_ne in Hr' by done. apply elem_of_app in Hin' as [Hin'|Hin'].
        -- eapply attributes_mono; [exact Hl2|]. apply Hd; [done|]. unfold rel_of. by rewrite En'.
        -- apply list_elem_of_singleton in Hin' as ->. congruence.
  - intros g' l' _ (_ & Hs & Hd). split; [done|]. intros oid rel Hr. apply Hd; [|done]. apply Hoids.
    assert (g_byOID g' = g_byOID g) as Hb by (destruct Hs as [-> _]; done). unfold rel_of in Hr. rewrite Hb in Hr.
    destruct (g_byOID g !! oid); [eauto|done].
Qed.

Lemma ref_rel_some l g id b : ref_proved l g id b → is_Some (ref_rel g b).
Proof. intros (ref & rel & _ & _ & _ & _ & _ & -> & Hr). exact Hr. Qed.

Lemma bound_gate_columns l g g' f :
  bound_gate l g → same_but_columns g g' →
  bound_gate l (set_refs ((λ r, ref_columns (f r) r) <$> g_refs g') g').
Proof.
  intros [Hh Hr] Hs. pose proof (same_keeps _ _ Hs) as Hk. pose proof (same_heap_ok _ _ _ Hs Hh) as Hh'.
  assert (g_refs g' = g_refs g ∧ g_dbOID g' = g_dbOID g) as [Hrefs Hdb] by (destruct Hs as [-> _]; done).
  split; [done|]. cbn. intros id b. rewrite lookup_fmap, Hrefs. destruct (g_refs g !! id) as [b0|] eqn:Eb; [|done].
  intros [= <-]. destruct (Hr id b0 Eb) as (ref & rel & ? & ? & ? & ? & ? & Hb & Hs'). exists ref, rel.
  do 5 (split; [done|]). split; [|by apply Hk]. rewrite Hb. unfold ref_columns, bound_as. cbn. by rewrite Hdb.
Qed.

(** Each bound reference carries the attributes read for its own OID. *)
Definition attributed (l : list pg_call) (g : pgBindingGate) : Prop :=
  map_Forall (λ _ b, attributes_of l (ri_RelationOID (br_Identity b)) (br_Columns b)) (g_refs g).

Lemma gs_stage_attributes g l :
  bound_gate l g →
  gate_spec (stageAttributes deadline g) l (λ g' l',
    bound_gate l' g' ∧ attributed l' g' ∧ dom (g_refs g') = dom (g_refs g) ∧ g_dbOID g' = g_dbOID g
    ∧ g_extra g' = g_extra g ∧ g_navSource g' = g_navSource g
    ∧ ∀ n rel, g_heap g !! n = Some rel → ∃ cols, g_heap g' !! n = Some (with_columns cols rel)).
Proof.
  intros Hg. unfold stageAttributes. apply gs_bind. eapply gs_mono; [apply gs_read_columns, Hg|].
  intros g1 l1 Hl1 [Hs Hattr]. pose proof (bound_gate_mono _ _ _ Hl1 Hg) as Hg1.
  assert (g_refs g1 = g_refs g) as Hrefs by (destruct Hs as [-> _]; done).
  assert (map_Forall (λ _ r, is_Some (ref_rel g1 r)) (g_refs g1)) as Hall.
  { intros id b Hb. rewrite Hrefs in Hb. destruct (ref_rel_some _ _ _ _ (bg_refs _ _ Hg1 _ _ Hb)) as [rel Hrel].
    by apply (same_keeps _ _ Hs). }
  assert (g_dbOID g1 = g_dbOID g ∧ g_extra g1 = g_extra g ∧ g_navSource g1 = g_navSource g) as Hf by (destruct Hs as [-> _]; done).
  rewrite bool_decide_true by done. apply gs_ret. split; [by eapply bound_gate_columns|]. split; [|split].
  - intros id b. cbn. rewrite lookup_fmap. destruct (g_refs g1 !! id) as [b0|] eqn:Eb; [|done]. intros [= <-].
    destruct (Hall id b0 Eb) as [rel Hrel]. cbn. rewrite Hrel. cbn. by apply Hattr.
  - cbn. by rewrite dom_fmap_L, Hrefs.
  - cbn. destruct Hf as (-> & -> & ->). do 3 (split; [done|]). intros n rel. by apply same_lookup.
Qed.

(** ** The mapping proved under the locks *)

Definition nav_reproved (l : list pg_call) (g : pgBindingGate) (nav : pgNavigationBinding) : Prop :=
  (∃ ref b, guard_refs i = [ref] ∧ rv_Kind ref = RefQualified ∧ rv_Schema ref = nl_schema (nb_target nav)
     ∧ rv_Name ref = nl_name (nb_target nav) ∧ g_refs g !! rv_RefID ref = Some b
     ∧ NavRelation (ri_RelationOID (br_Identity b)) (br_RelTypeOID b) (br_RelKind b) (br_Schema b) (br_CatalogName b) = nb_target nav)
  ∧ (∃ n s, g_navSource g = Some n ∧ g_heap g !! n = Some s
     ∧ NavRelation (bo_oid s) (bo_reltype s) (bo_relkind s) (bo_schema s) (bo_name s) = nb_source nav)
  ∧ (∃ a, CQuery (QNavigation (nl_schema (nb_source nav)) (nl_name (nb_source nav)) (nb_fkName nav)) (Ok a) ∈ l
     ∧ readPGNavigationBinding (an_rows a) (an_err a) (nb_fkName nav) = Ok (Some nav))
  ∧ nb_databaseOID nav = g_dbOID g.

Lemma nav_target_exact nav g :
  nav_target_ok i nav g = true →
  ∃ ref b, guard_refs i = [ref] ∧ rv_Kind ref = RefQualified ∧ rv_Schema ref = nl_schema (nb_target nav)
     ∧ rv_Name ref = nl_name (nb_target nav) ∧ g_refs g !! rv_RefID ref = Some b
     ∧ NavRelation (ri_RelationOID (br_Identity b)) (br_RelTypeOID b) (br_RelKind b) (br_Schema b) (br_CatalogName b) = nb_target nav.
Proof.
  unfold nav_target_ok. destruct (guard_refs i) as [|ref [|? ?]]; try done. intros H. bool_inv.
  destruct (g_refs g !! rv_RefID ref) as [b|] eqn:Eb; [|done]. bool_inv. exists ref, b. split_and!; try done.
  destruct (nb_target nav). cbn in *. congruence.
Qed.

Lemma nav_source_exact nav g :
  nav_source_ok nav g = true →
  ∃ n s, g_navSource g = Some n ∧ g_heap g !! n = Some s
     ∧ NavRelation (bo_oid s) (bo_reltype s) (bo_relkind s) (bo_schema s) (bo_name s) = nb_source nav.
Proof.
  unfold nav_source_ok. destruct (g_navSource g) as [n|]; [|done]. cbn. destruct (g_heap g !! n) as [s|] eqn:Es; [|done].
  intros H. bool_inv. exists n, s. split_and!; try done. destruct (nb_source nav). cbn in *. congruence.
Qed.

Lemma same_as_total b o : is_Some (sameAs b (Some o)).
Proof. unfold sameAs. case_if as E; [eauto|]. bool_inv. rewrite same_pairs_eq by done. eauto. Qed.

Lemma gs_navigation_verify g l :
  gate_spec (stageNavigationVerify deadline i g) l (λ g' l',
    g' = g ∧ match bi_navigation i with None => True | Some nav => nav_reproved l' g nav end).
Proof.
  unfold stageNavigationVerify. destruct (bi_navigation i) as [nav|]; [|by apply gs_ret].
  destruct (nav_target_ok i nav g) eqn:E1; cbn [negb]; [|apply gs_throw; left; eauto].
  destruct (nav_source_ok nav g) eqn:E2; cbn [negb]; [|apply gs_throw; left; eauto].
  apply gs_bind, gs_query. intros a l1 Hl1 Ha. apply gs_bind, gs_handle. intros s Hs. unfold of_result.
  exists []. rewrite app_nil_r. split; [done|]. split; [constructor|].
  destruct (readPGNavigationBinding _ _ _) as [[fresh|]|e] eqn:Er.
  - destruct (sameAs fresh (Some nav)) as [same|] eqn:Es; [|by destruct (same_as_total fresh nav) as [? ?]; congruence].
    case_if as E3; [apply gs_throw; left; eauto|]. bool_inv. subst same. apply same_as_iff in Es as ->.
    apply gs_ret. split; [done|]. split; [by apply nav_target_exact|]. split; [by apply nav_source_exact|].
    split; [by exists a|done].
  - apply gs_throw. left. eauto.
  - unfold nav_read_fail. destruct (pe_Reject e); [apply gs_throw; left; eauto|]. apply gs_bind, gs_ctx. intros c. apply gs_fail.
Qed.

(** ** Dependencies, children and indexes *)

(** An identity the catalog reported as a dependency, a child or an index,
    attributed to a database by the relation's own shared flag. *)
Definition explained (l : list pg_call) (db : Z) (id : PGRelationIdentity) : Prop :=
  (∃ v a r, CQuery (QViewDeps v) (Ok a) ∈ l ∧ Ok r ∈ an_rows a ∧ id = identityFor db (vd_oid r) (vd_shared r))
  ∨ (∃ ps a r, CQuery (QInherits ps) (Ok a) ∈ l ∧ Ok r ∈ an_rows a ∧ id = identityFor db (eg_oid r) (eg_shared r))
  ∨ (∃ bs a r, CQuery (QIndexes bs) (Ok a) ∈ l ∧ Ok r ∈ an_rows a ∧ id = identityFor db (eg_oid r) (eg_shared r)).

Lemma explained_mono l l' db id : l `prefix_of` l' → explained l db id → explained l' db id.
Proof.
  intros [k ->] [(v & a & r & H & ?)|[(v & a & r & H & ?)|(v & a & r & H & ?)]]; [left|right; left|right; right];
    exists v, a, r; (split; [by apply elem_of_app; left|done]).
Qed.

(** The stages only add edges, and note only what the catalog reported. *)
Record grows (l : list pg_call) (g g' : pgBindingGate) : Prop := {
  gr_frame : g' = set_edges (g_extra g') (g_deps g') (g_inherits g') (g_indexes g') g;
  gr_noted : ∀ id, id ∈ g_extra g' → id ∈ g_extra g ∨ explained l (g_dbOID g) id;
  gr_extra : g_extra g ⊆ g_extra g';
  gr_deps : g_deps g ⊆ g_deps g';
}.

Lemma grows_refl l g : grows l g g.
Proof. split; [by destruct g|auto|done|done]. Qed.
Lemma grows_trans l l' g1 g2 g3 : l `prefix_of` l' → grows l g1 g2 → grows l' g2 g3 → grows l' g1 g3.
Proof.
  intros Hl [F1 N1 X1 D1] [F2 N2 X2 D2]. assert (g_dbOID g2 = g_dbOID g1) as Hdb by (rewrite F1; done). split.
  - rewrite F2. cbn. rewrite F1. done.
  - intros id [Hin|Hin]%N2; [|right; by rewrite <- Hdb]. apply N1 in Hin as [?|?]; [by left|right; by eapply explained_mono].
  - by etrans.
  - by etrans.
Qed.

(** The dependencies of a view stay inside the approved schemas. *)
Definition dep_allowed (g : pgBindingGate) (view : pgBoundRelation) (r : dep_row) : Prop :=
  vd_oid r = bo_oid view
  ∨ ((vd_nsp r = bi_PinnedSchema i ∨ vd_nsp r = bo_schema view)
     ∧ ViewDependency (bo_oid view) (vd_oid r) (vd_nsp r) (vd_relkind r) ∈ g_deps g
     ∧ identityFor (g_dbOID g) (vd_oid r) (vd_shared r) ∈ g_extra g).

Definition view_closed (l : list pg_call) (g : pgBindingGate) (view : pgBoundRelation) : Prop :=
  ∃ a rows, CQuery (QViewDeps (bo_oid view)) (Ok a) ∈ l ∧ an_rows a = Ok <$> rows ∧ an_err a = None
    ∧ Forall (dep_allowed g view) rows.

Lemma view_closed_grows l l' l'' g g' view : l `prefix_of` l' → grows l'' g g' → view_closed l g view → view_closed l' g' view.
Proof.
  intros [k ->] Hg (a & rows & Ha & Hr & He & Hall). exists a, rows. split; [by apply elem_of_app; left|].
  split; [done|]. split; [done|]. eapply Forall_impl; [exact Hall|]. intros r [?|(? & ? & ?)]; [by left|right].
  assert (g_dbOID g' = g_dbOID g) as -> by (rewrite (gr_frame _ _ _ Hg); done).
  split; [done|]. split; [by apply (gr_deps _ _ _ Hg)|by apply (gr_extra _ _ _ Hg)].
Qed.

Lemma gs_view_deps g view l :
  gate_spec (viewDeps deadline i g view) l (λ g' l', grows l' g g' ∧ view_closed l' g' view).
Proof.
  unfold viewDeps. apply gs_bind, gs_query. intros a l1 Hl1 Ha.
  eapply gs_mono; [apply (gs_drain (λ rows g', (∀ l, (∀ r, r ∈ rows → Ok r ∈ an_rows a) → CQuery (QViewDeps (bo_oid view)) (Ok a) ∈ l →
    grows l g g') ∧ Forall (dep_allowed g' view) rows))|].
  - split; [intros; apply grows_refl|constructor].
  - intros done r g1 [Hg Hall]. case_if as E1; bool_inv.
    { split; [|apply Forall_app; split; [done|by constructor; [left|]]]. intros l' Hr Hq. apply Hg; [|done]. set_solver. }
    case_if as E2; [left; eauto|].
    assert (vd_nsp r = bi_PinnedSchema i ∨ vd_nsp r = bo_schema view) as Hnsp
      by (apply andb_false_iff in E2 as [E2|E2]; bool_inv; auto).
    set (g2 := noteApproved _ _ _).
    assert (∀ l', Ok r ∈ an_rows a → CQuery (QViewDeps (bo_oid view)) (Ok a) ∈ l' → grows l' g1 g2) as Hstep.
    { intros l' Hr Hq. split; [done| |cbn; set_solver|cbn; set_solver]. cbn. intros id [->%elem_of_singleton|?]%elem_of_union; [|auto].
      right. left. exists (bo_oid view), a, r. done. }
    split.
    + intros l' Hr Hq. eapply grows_trans; [reflexivity|apply Hg; [set_solver|done]|apply Hstep; [set_solver|done]].
    + apply Forall_app. split; [|constructor; [|constructor]].
      * eapply Forall_impl; [exact Hall|]. intros r' [?|(? & ? & ?)]; [by left|right]. cbn. set_solver.
      * right. cbn. set_solver.
  - intros g' l2 Hl2 (rows & Hr & He & Hg & Hall).
    assert (CQuery (QViewDeps (bo_oid view)) (Ok a) ∈ l2) as Ha2 by (destruct Hl2 as [k ->]; apply elem_of_app; by left).
    split; [apply Hg; [|done]|by exists a, rows]. intros r Hin. rewrite Hr. by apply list_elem_of_fmap_2.
Qed.

Definition is_view (rel : pgBoundRelation) : Prop := bo_relkind rel = gs "v" ∨ bo_relkind rel = gs "m".

Lemma grows_rel l g g' oid : grows l g g' → rel_of g' oid = rel_of g oid.
Proof. intros [-> _ _ _]. done. Qed.
Lemma grows_ref_rel l g g' b : grows l g g' → ref_rel g' b = ref_rel g b.
Proof. intros [-> _ _ _]. done. Qed.

Lemma gs_stage_views (order : gmap Z PGBoundRef → list PGBoundRef) g l :
  (∀ m, order m ≡ₚ (map_to_list m).*2) → bound_gate l g →
  gate_spec (stageViewDeps deadline i order g) l (λ g' l', grows l' g g'
    ∧ map_Forall (λ _ b, ∀ rel, ref_rel g b = Some rel → is_view rel → view_closed l' g' rel) (g_refs g)).
Proof.
  intros Horder Hg. unfold stageViewDeps. apply gs_bind. eapply gs_mono.
  - apply (gs_each (λ done '(g', seen) l', l `prefix_of` l' ∧ grows l' g g'
      ∧ (∀ rel, bo_oid rel ∈ seen → rel_of g (bo_oid rel) = Some rel → view_closed l' g' rel)
      ∧ ∀ b rel, b ∈ done → ref_rel g b = Some rel → is_view rel → view_closed l' g' rel)).
    + split; [done|]. split; [apply grows_refl|]. split; [set_solver|]. by intros b rel ?%elem_of_nil.
    + intros done b [g1 seen] l1 Hl1 Hin (_ & Hgr & Hseen & Hdone). rewrite (grows_ref_rel _ _ _ _ Hgr).
      assert (is_Some (ref_rel g b)) as [rel Hrel].
      { rewrite Horder in Hin. apply list_elem_of_fmap in Hin as ([id b'] & -> & Hb). apply elem_of_map_to_list in Hb.
        eapply ref_rel_some. by apply (bg_refs _ _ Hg). }
      rewrite Hrel.
      assert (rel_of g (bo_oid rel) = Some rel) as Hoid.
      { pose proof (bg_heap _ _ Hg) as (_ & Ho & _). unfold ref_rel in Hrel. by destruct (Ho _ _ Hrel) as [-> _]. }
      case_if as E1; [|case_if as E2].
      * apply gs_ret. split; [done|]. split; [done|]. split; [done|]. intros b' rel' [?| ->%list_elem_of_singleton]%elem_of_app Hr' Hv; [eauto|].
        rewrite Hrel in Hr'. injection Hr' as <-. bool_inv. by destruct Hv.
      * apply gs_ret. split; [done|]. split; [done|]. split; [done|]. intros b' rel' [?| ->%list_elem_of_singleton]%elem_of_app Hr' Hv; [eauto|].
        rewrite Hrel in Hr'. injection Hr' as <-. bool_inv. by apply Hseen.
      * apply gs_bind. eapply gs_mono; [apply gs_view_deps|]. intros g2 l2 Hl2 [Hgr2 Hc]. apply gs_ret.
        split; [by etrans|]. split; [by eapply grows_trans|]. split.
        -- intros rel' [Heq%elem_of_singleton|Hs]%elem_of_union Hr'.
           ++ rewrite Heq, Hoid in Hr'. by injection Hr' as <-.
           ++ eapply view_closed_grows; [exact Hl2|exact Hgr2|]. by apply Hseen.
        -- intros b' rel' [?| ->%list_elem_of_singleton]%elem_of_app Hr' Hv.
           ++ eapply view_closed_grows; [exact Hl2|exact Hgr2|]. by eapply Hdone.
           ++ rewrite Hrel in Hr'. by injection Hr' as <-.
  - intros [g' seen] l' Hl' (_ & Hgr & _ & Hd). apply gs_ret. split; [done|]. intros id b Hb rel. apply Hd.
    rewrite Horder. apply list_elem_of_fmap. exists (id, b). split; [done|]. by apply elem_of_map_to_list.
Qed.

(** Children and indexes: every reported relation is recorded and noted. *)
Definition edge_noted (g : pgBindingGate) (r : edge_row) : Prop := identityFor (g_dbOID g) (eg_oid r) (eg_shared r) ∈ g_extra g.

Lemma gs_edges g l (q : probe edge_row) (add : edge_row → pgBindingGate → pgBindingGate) :
  (∀ a r l, CQuery q (Ok a) ∈ l → Ok r ∈ an_rows a → ∀ db, explained l db (identityFor db (eg_oid r) (eg_shared r))) →
  (∀ r g, add r g = set_edges (g_extra g) (g_deps g) (g_inherits (add r g)) (g_indexes (add r g)) g) →
  gate_spec (a ← gate_query deadline q; drain (λ g r, Ok (noteApproved (eg_oid r) (eg_shared r) (add r g))) g a) l
    (λ g' l', grows l' g g').
Proof.
  intros Hq Hadd. apply gs_bind, gs_query. intros a l1 Hl1 Ha.
  eapply gs_mono; [apply (gs_drain (λ rows g', ∀ l, (∀ r, r ∈ rows → Ok r ∈ an_rows a) → CQuery q (Ok a) ∈ l → grows l g g'))|].
  - intros. apply grows_refl.
  - intros done r g1 Hg l' Hr Hin. eapply grows_trans; [reflexivity|apply Hg; [set_solver|done]|].
    assert (Ok r ∈ an_rows a) as Hra by (apply Hr; set_solver).
    split; [by rewrite (Hadd r g1)| |rewrite (Hadd r g1); cbn; set_solver|by rewrite (Hadd r g1)].
    intros id. rewrite (Hadd r g1). cbn. intros [->%elem_of_singleton|?]%elem_of_union; [|auto]. right. by eapply Hq.
  - intros g' l2 Hl2 (rows & Hr & _ & Hg). apply Hg.
    + intros r Hin. rewrite Hr. by apply list_elem_of_fmap_2.
    + destruct Hl2 as [k ->]. apply elem_of_app. by left.
Qed.

Lemma gs_parsed g l Q :
  (∀ n, g_navSource g = Some n → is_Some (g_heap g !! n)) → (∀ s, Q s l) → gate_spec (parsed_oids g : pg W _) l Q.
Proof.
  intros Hn HQ. unfold parsed_oids. destruct (g_navSource g) as [n|]; [|by apply gs_ret].
  destruct (Hn n eq_refl) as [s ->]. by apply gs_ret.
Qed.

Lemma gs_inherit g l :
  (∀ n, g_navSource g = Some n → is_Some (g_heap g !! n)) →
  gate_spec (stageInheritChildren deadline g) l (λ g' l', grows l' g g').
Proof.
  intros Hn. unfold stageInheritChildren. apply gs_bind, gs_parsed; [done|]. intros parents.
  destruct (decide _); [apply gs_ret, grows_refl|].
  apply (gs_edges g l (QInherits (elements parents)) (λ r g, set_edges (g_extra g) (g_deps g)
           (g_inherits g ++ [InheritEdge (eg_parent r) (eg_oid r)]) (g_indexes g) g)); [|done].
  intros a r l' Ha Hr db. right. left. by exists (elements parents), a, r.
Qed.

Lemma gs_indexes g l :
  (∀ n, g_navSource g = Some n → is_Some (g_heap g !! n)) →
  gate_spec (stageEntityIndexes deadline g) l (λ g' l', grows l' g g').
Proof.
  intros Hn. unfold stageEntityIndexes. apply gs_bind, gs_parsed; [done|]. intros parsed.
  destruct (decide _); [apply gs_ret, grows_refl|].
  set (bases := _ : gset Z).
  apply (gs_edges g l (QIndexes (elements bases)) (λ r g, set_edges (g_extra g) (g_deps g) (g_inherits g)
           (g_indexes g ++ [IndexEdge (eg_parent r) (eg_oid r)]) g)); [|done].
  intros a r l' Ha Hr db. right. right. by exists (elements bases), a, r.
Qed.

Lemma gs_database g l :
  gate_spec (stageDatabaseIdentity deadline i g) l (λ g' l',
    ∃ oid, g' = set_db oid g ∧ CRow QDatabase (Ok (bi_Database i, oid)) ∈ l').
Proof.
  unfold stageDatabaseIdentity. apply gs_bind, gs_row; [intros; apply gs_fail|]. intros [name oid] l1 Hl1 Hr.
  case_if as E; [apply gs_throw; right; right; right; done|]. bool_inv. subst name. apply gs_ret. eauto.
Qed.

Definition needs_pinned : bool := bi_requirePinnedSchema i || existsb (λ r, rv_Kind r =?b RefEntity) (guard_refs i).

Lemma gs_pinned g l :
  gate_spec (stagePinnedUsage deadline i g) l (λ g' l', g' = g ∧ (needs_pinned = true →
    CRow (QSchemaExists (bi_PinnedSchema i)) (Ok true) ∈ l' ∧ CRow (QSchemaUsage (bi_PinnedSchema i)) (Ok true) ∈ l')).
Proof.
  unfold stagePinnedUsage. fold needs_pinned. destruct needs_pinned; cbn [negb]; [|by apply gs_ret].
  apply gs_bind, gs_row; [intros; apply gs_fail|]. intros ex l1 Hl1 Hr1. destruct ex; cbn [negb]; [|apply gs_throw; left; eauto].
  apply gs_bind, gs_row; [intros; apply gs_fail|]. intros us l2 Hl2 Hr2. destruct us; cbn [negb]; [|apply gs_throw; left; eauto].
  apply gs_ret. split; [done|]. intros _. split; [destruct Hl2 as [k ->]; apply elem_of_app; by left|done].
Qed.

(** The probe catalogs are the fixed names, each found. *)
Definition whitelist_proved (l : list pg_call) (g : pgBindingGate) : Prop :=
  ∃ a rows, CQuery (QWhitelist (probe_names i)) (Ok a) ∈ l ∧ an_rows a = Ok <$> rows ∧ an_err a = None
    ∧ g_probes g ≡ₚ (λ r, identityFor (g_dbOID g) (pb_oid r) (pb_shared r)) <$> rows
    ∧ ∀ name, name ∈ probe_names i → ∃ r, r ∈ rows ∧ pb_name r = name ∧ pb_isTable r = true.

Lemma gs_whitelist g l :
  gate_spec (stageProbeWhitelist deadline i g) l (λ g' l', g' = set_probes (g_probes g') g ∧ whitelist_proved l' g').
Proof.
  unfold stageProbeWhitelist. apply gs_bind, gs_query. intros a l1 Hl1 Ha. apply gs_bind.
  eapply gs_mono; [apply (gs_drain (λ rows '(found, probes),
    (∀ name, name ∈ found → ∃ r, r ∈ rows ∧ pb_name r = name ∧ pb_isTable r = true)
    ∧ probes = (λ r, identityFor (g_dbOID g) (pb_oid r) (pb_shared r)) <$> rows))|].
  - split; [by intros name ?%elem_of_empty|done].
  - intros done r [found probes] [Hf ->]. split; [|by rewrite fmap_app].
    intros name Hn. assert (name ∈ found ∨ (pb_isTable r = true ∧ name = pb_name r)) as [Hin|[Ht ->]].
    { destruct (pb_isTable r); [|auto]. apply elem_of_union in Hn as [?%elem_of_singleton|?]; auto. }
    + destruct (Hf name Hin) as (r' & ? & ? & ?). exists r'. split; [apply elem_of_app; by left|done].
    + exists r. split; [apply elem_of_app; right; by left|done].
  - intros [found probes] l2 Hl2 (rows & Hr & He & Hf & ->). case_if as E; [apply gs_throw; right; right; right; done|].
    apply gs_ret. split; [done|]. exists a, rows. split; [destruct Hl2 as [k ->]; apply elem_of_app; by left|].
    split; [done|]. split; [done|]. split; [cbn; apply sort_slice_perm|]. intros name Hn. apply Hf.
    destruct (decide (name ∈ found)) as [|Hni]; [done|]. exfalso.
    assert (existsb (λ name, negb (bool_decide (name ∈ found))) (probe_names i) = true) as Hex; [|congruence].
    apply existsb_exists. exists name. split; [by apply list_elem_of_In|]. by rewrite bool_decide_false.
Qed.

(** ** The whole gate *)

(** What a gate that ran to its end has proved. *)
Record bound_final (l : list pg_call) (g : pgBindingGate) : Prop := {
  bf_db : CRow QDatabase (Ok (bi_Database i, g_dbOID g)) ∈ l;
  bf_pinned : needs_pinned = true → CRow (QSchemaExists (bi_PinnedSchema i)) (Ok true) ∈ l
    ∧ CRow (QSchemaUsage (bi_PinnedSchema i)) (Ok true) ∈ l;
  bf_gate : bound_gate l g;
  bf_dom : dom (g_refs g) = entity_ids (guard_refs i);
  bf_attributes : attributed l g;
  bf_views : map_Forall (λ _ b, ∀ rel, ref_rel g b = Some rel → is_view rel → view_closed l g rel) (g_refs g);
  bf_noted : ∀ id, id ∈ g_extra g → explained l (g_dbOID g) id
    ∨ ∃ nav rel, bi_navigation i = Some nav ∧ source_bound l g nav rel ∧ id = identityFor (g_dbOID g) (bo_oid rel) (bo_shared rel);
  bf_nav : match bi_navigation i with
           | None => g_navSource g = None
           | Some nav => nav_reproved l g nav ∧ ∃ rel, source_bound l g nav rel
           end;
  bf_whitelist : whitelist_proved l g;
}.

(** The gate once its references and the navigation mapping are proved. *)
Record proved_gate (l : list pg_call) (g : pgBindingGate) : Prop := {
  pr_db : CRow QDatabase (Ok (bi_Database i, g_dbOID g)) ∈ l;
  pr_pinned : needs_pinned = true → CRow (QSchemaExists (bi_PinnedSchema i)) (Ok true) ∈ l
    ∧ CRow (QSchemaUsage (bi_PinnedSchema i)) (Ok true) ∈ l;
  pr_gate : bound_gate l g;
  pr_dom : dom (g_refs g) = entity_ids (guard_refs i);
  pr_noted : ∀ id, id ∈ g_extra g →
    ∃ nav rel, bi_navigation i = Some nav ∧ source_bound l g nav rel ∧ id = identityFor (g_dbOID g) (bo_oid rel) (bo_shared rel);
  pr_source : match bi_navigation i with None => g_navSource g = None | Some nav => ∃ rel, source_bound l g nav rel end;
}.

Lemma elem_mono {A} (x : A) l l' : l `prefix_of` l' → x ∈ l → x ∈ l'.
Proof. intros [k ->] ?. apply elem_of_app. by left. Qed.

Lemma source_mono l l' g nav rel : l `prefix_of` l' → source_bound l g nav rel → source_bound l' g nav rel.
Proof. intros Hl (Hn & Hd & Hx). split; [done|]. split; [by eapply described_mono|done]. Qed.

Lemma proved_mono l l' g : l `prefix_of` l' → proved_gate l g → proved_gate l' g.
Proof.
  intros Hl [H1 H2 H3 H4 H5 H6]. split; [by eapply elem_mono| |by eapply bound_gate_mono|done| |].
  - intros Hp. destruct (H2 Hp). split; by eapply elem_mono.
  - intros id Hid. destruct (H5 id Hid) as (nav & rel & ? & ? & ?). exists nav, rel. split; [done|].
    split; [by eapply source_mono|done].
  - destruct (bi_navigation i); [|done]. destruct H6 as [rel ?]. exists rel. by eapply source_mono.
Qed.

Lemma gs_proved {B} (k : pgBindingGate → pg W B) l Q :
  (∀ g l', proved_gate l' g → gate_spec (k g) l' Q) →
  gate_spec (g ← stageDatabaseIdentity deadline i new_gate; g ← stagePinnedUsage deadline i g; g ← stageEntityBind deadline i g;
         g ← stageNavigationBindSource deadline i g; k g) l Q.
Proof.
  intros Hk. apply gs_bind. eapply gs_mono; [apply gs_database|]. intros g1 l1 _ (oid & -> & Hdb).
  apply gs_bind. eapply gs_mono; [apply gs_pinned|]. intros g2 l2 Hl2 [-> Hp].
  apply gs_bind. eapply gs_mono; [apply gs_entities; [|done]|].
  { split; [|apply map_Forall_empty]. split; [|split]; by intros. }
  intros g3 l3 Hl3 (Hg3 & Hdom3 & Hdb3 & Hx3 & Hn3).
  apply gs_bind. eapply gs_mono; [apply gs_source; [done|by rewrite Hn3]|].
  intros g4 l4 Hl4 (Hg4 & Hdom4 & Hdb4 & Hnav). apply Hk. cbn in Hdb3, Hx3. rewrite Hdb3 in Hdb4.
  split; [rewrite Hdb4; do 3 (eapply elem_mono; [eassumption|]); done| |done|by rewrite Hdom4| |].
  - intros Hneed. destruct (Hp Hneed). split; do 2 (eapply elem_mono; [eassumption|]); done.
  - intros id Hid. destruct (bi_navigation i) as [nav|].
    + destruct Hnav as (rel & Hs & Hx). rewrite Hx, Hx3, Hdb3 in Hid. exists nav, rel. rewrite Hdb4. set_solver.
    + subst g4. rewrite Hx3 in Hid. set_solver.
  - destruct (bi_navigation i) as [nav|]; [|by subst; rewrite Hn3]. destruct Hnav as (rel & ? & _). by exists rel.
Qed.

(** The same gate with its attributes. *)
Lemma gs_attributed g l :
  proved_gate l g → gate_spec (stageAttributes deadline g) l (λ g' l', proved_gate l' g' ∧ attributed l' g').
Proof.
  intros Hg. eapply gs_mono; [apply gs_stage_attributes, Hg|].
  intros g' l' Hl (Hb & Ha & Hd & Hdb & Hx & Hn & Hh). split; [|done]. apply (proved_mono _ _ _ Hl) in Hg as [H1 H2 H3 H4 H5 H6].
  assert (∀ nav rel, source_bound l' g nav rel → ∃ rel', source_bound l' g' nav rel' ∧ bo_oid rel' = bo_oid rel ∧ bo_shared rel' = bo_shared rel)
    as Hsrc.
  { intros nav rel ((n & Hn1 & Hn2) & Hd' & Hx'). destruct (Hh _ _ Hn2) as [cols Hc]. exists (with_columns cols rel). split; [|done].
    split; [exists n; by rewrite Hn|]. split; [done|]. by rewrite Hdb, Hx. }
  split; [by rewrite Hdb|done|done|by rewrite Hd| |].
  - intros id Hid. rewrite Hx in Hid. destruct (H5 id Hid) as (nav & rel & Hnav & Hs & ->).
    destruct (Hsrc _ _ Hs) as (rel' & Hs' & E1 & E2). exists nav, rel'. split; [done|]. split; [done|]. by rewrite Hdb, E1, E2.
  - destruct (bi_navigation i); [|by rewrite Hn]. destruct H6 as [rel Hs]. destruct (Hsrc _ _ Hs) as (rel' & ? & _). eauto.
Qed.

Definition the_nav_reproved (l : list pg_call) (g : pgBindingGate) : Prop :=
  match bi_navigation i with None => True | Some nav => nav_reproved l g nav end.

Lemma assemble l0 l g0 g :
  l0 `prefix_of` l → proved_gate l0 g0 → attributed l0 g0 → the_nav_reproved l0 g0 → grows l g0 g →
  map_Forall (λ _ b, ∀ rel, ref_rel g b = Some rel → is_view rel → view_closed l g rel) (g_refs g) →
  ∀ g', g' = set_probes (g_probes g') g → whitelist_proved l g' → bound_final l g'.
Proof.
  intros Hl Hg Ha Hn Hgr Hv g' Hg' Hw. apply (proved_mono _ _ _ Hl) in Hg as [H1 H2 H3 H4 H5 H6].
  destruct Hgr as [Hf Hno Hx Hd].
  assert (∀ nav rel, source_bound l g0 nav rel → source_bound l g' nav rel) as Hsrc.
  { intros nav rel (Hn1 & Hd1 & Hx1). rewrite Hg', Hf. split; [exact Hn1|]. split; [done|]. cbn. by apply Hx. }
  split.
  - rewrite Hg', Hf. done.
  - done.
  - rewrite Hg', Hf. destruct H3. by split.
  - rewrite Hg', Hf. done.
  - rewrite Hg', Hf. intros id b Hb. eapply attributes_mono; [done|]. by apply (Ha id).
  - rewrite Hg'. exact Hv.
  - intros id Hid. assert (g_extra g' = g_extra g ∧ g_dbOID g' = g_dbOID g0) as [E1 E2] by (rewrite Hg', Hf; done).
    rewrite E1 in Hid. rewrite E2. destruct (Hno id Hid) as [Hid'|]; [right|by left].
    destruct (H5 id Hid') as (nav & rel & ? & ? & ?). exists nav, rel. auto.
  - unfold the_nav_reproved in Hn. destruct (bi_navigation i) as [nav|]; [|by rewrite Hg', Hf].
    split; [|destruct H6 as [rel ?]; eauto]. rewrite Hg', Hf.
    destruct Hn as (N1 & N2 & (a & N3 & N4) & N5). split; [done|]. split; [done|]. split; [|done].
    exists a. split; [by eapply elem_mono|done].
  - done.
Qed.

Lemma source_live l g :
  match bi_navigation i with None => g_navSource g = None | Some nav => ∃ rel, source_bound l g nav rel end →
  ∀ n, g_navSource g = Some n → is_Some (g_heap g !! n).
Proof.
  destruct (bi_navigation i) as [nav|]; [|by intros -> ? [=]].
  intros (rel & (n & -> & Hr) & _) ? [= <-]. eauto.
Qed.

Definition bind_done (res : PGBindResult) (l : list pg_call) : Prop :=
  ∃ g, bound_final l g ∧ res = bind_result i g (n ← g_navSource g; identityOf g <$> g_heap g !! n).

Lemma gs_PGBind (order : gmap Z PGBoundRef → list PGBoundRef) l :
  (∀ m, order m ≡ₚ (map_to_list m).*2) → gate_spec (PGBind deadline i order) l bind_done.
Proof.
  intros Horder. unfold PGBind. case_if as E; [apply gs_throw; right; right; right; done|].
  apply gs_bind. unfold gate_steps. cbn [pg_each]. apply gs_proved. intros g4 l4 Hg4.
  apply gs_bind. eapply gs_mono; [by apply gs_attributed|]. intros g5 l5 _ [Hg5 Ha5].
  apply gs_bind. eapply gs_mono; [apply gs_navigation_verify|]. intros ? l6 Hl6 [-> Hn6]. change (the_nav_reproved l6 g5) in Hn6.
  apply (proved_mono _ _ _ Hl6) in Hg5.
  assert (attributed l6 g5) as Ha6 by (intros id b Hb; eapply attributes_mono; [exact Hl6|by apply (Ha5 id)]).
  apply gs_bind. eapply gs_mono; [apply (gs_stage_views order); [done|apply Hg5]|]. intros g7 l7 Hl7 [Hr7 Hv7].
  assert (∀ l g, grows l g5 g → ∀ n, g_navSource g = Some n → is_Some (g_heap g !! n)) as Hlive.
  { intros l' g Hgr n. rewrite (gr_frame _ _ _ Hgr). apply (source_live l6 g5), Hg5. }
  apply gs_bind. eapply gs_mono; [apply gs_inherit; by eapply Hlive|]. intros g8 l8 Hl8 Hr8.
  pose proof (grows_trans _ _ _ _ _ Hl8 Hr7 Hr8) as Hr58.
  apply gs_bind. eapply gs_mono; [apply gs_indexes; by eapply Hlive|]. intros g9 l9 Hl9 Hr9.
  pose proof (grows_trans _ _ _ _ _ Hl9 Hr58 Hr9) as Hr59.
  apply gs_bind. eapply gs_mono; [apply gs_whitelist|]. intros g10 l10 Hl10 [Hg10 Hw]. apply gs_ret.
  assert (grows l10 g5 g9) as Hr by (eapply grows_trans; [exact Hl10|exact Hr59|apply grows_refl]).
  assert (map_Forall (λ _ b, ∀ rel, ref_rel g9 b = Some rel → is_view rel → view_closed l10 g9 rel) (g_refs g9)) as Hv.
  { assert (g_refs g9 = g_refs g5) as -> by (rewrite (gr_frame _ _ _ Hr); done). intros id b Hb rel Hrel Hview.
    rewrite (grows_ref_rel _ _ _ _ Hr) in Hrel. specialize (Hv7 id b Hb rel Hrel Hview).
    eapply view_closed_grows; [|exact (grows_trans _ _ _ _ _ Hl9 Hr8 Hr9)|exact Hv7]. by do 2 (etrans; [eassumption|]). }
  assert (bound_final l10 g10) as Hf.
  { eapply assemble; [|exact Hg5|exact Ha6|exact Hn6|exact Hr|exact Hv|exact Hg10|exact Hw]. by do 3 (etrans; [eassumption|]). }
  unfold gate_result. pose proof (source_live l10 g10) as Hl. destruct (g_navSource g10) as [n|] eqn:En.
  - destruct (Hlive _ _ Hr n) as [s Hs]; [by rewrite Hg10 in En|]. assert (g_heap g10 !! n = Some s) as Hs' by (rewrite Hg10; done).
    rewrite Hs'. apply gs_ret. exists g10. split; [done|]. by rewrite En; cbn; rewrite Hs'.
  - apply gs_ret. exists g10. split; [done|]. by rewrite En.
Qed.
End relation.

(** ** The gate's promises *)

Section promises.
Context {W : Type} `{!PGSession W} (deadline : Z) (i : PGBindInput) (order : gmap Z PGBoundRef → list PGBoundRef).
Hypothesis order_walks : ∀ m, order m ≡ₚ (map_to_list m).*2.

Lemma bind_run s r s' :
  PGBind deadline i order s = (r, s') →
  ∃ l, se_log s' = se_log s ++ l ∧ timed l ∧ match r with Ok res => bind_done i res (se_log s') | Err e => gate_error e end.
Proof.
  intros H. pose proof (gs_PGBind deadline i order (se_log s) order_walks s eq_refl) as Hs. rewrite H in Hs.
  destruct Hs as (l & Hl & Ht & Hr). exists l. rewrite Hl. auto.
Qed.

(** C9: The gate binds exactly the relations the statement names, each by its own
    proof. When it succeeds the transaction runs in the expected database, the
    pinned schema exists and is usable whenever a name resolves in it, every
    reference but the CTE uses has a record and nothing else has, and each record
    is the relation that the resolution of its canonical name, the self-proving
    touch and the second resolution all agree on, with the attributes read for
    that relation's own OID; a cross-database reference never binds. *)
Theorem bind_proves_references s res s' :
  PGBind deadline i order s = (Ok res, s') →
  CRow QDatabase (Ok (bi_Database i, bd_DatabaseOID res)) ∈ se_log s'
  ∧ (needs_pinned i = true → CRow (QSchemaExists (bi_PinnedSchema i)) (Ok true) ∈ se_log s'
       ∧ CRow (QSchemaUsage (bi_PinnedSchema i)) (Ok true) ∈ se_log s')
  ∧ dom (bd_Refs res) = entity_ids (guard_refs i)
  ∧ ∀ id b, bd_Refs res !! id = Some b →
      ∃ ref rel, ref ∈ guard_refs i ∧ rv_RefID ref = id ∧ rv_Kind ref ≠ RefCTE
        ∧ (rv_Catalog ref = [] ∨ rv_Catalog ref = bi_Database i)
        ∧ described (se_log s') (effective_schema i ref, rv_Name ref) rel
        ∧ b = bound_as (bd_DatabaseOID res) ref rel (br_Columns b)
        ∧ attributes_of (se_log s') (bo_oid rel) (br_Columns b).
Proof.
  intros (l & _ & _ & g & Hg & ->)%bind_run. destruct Hg as [H1 H2 H3 H4 H5 _ _ _ _]. cbn.
  split; [done|]. split; [done|]. split; [done|]. intros id b Hb.
  destruct (bg_refs _ _ _ H3 id b Hb) as (ref & rel & ? & ? & ? & ? & ? & Heq & _). exists ref, rel.
  do 6 (split; [done|]). specialize (H5 id b Hb). rewrite Heq in H5. exact H5.
Qed.

(** A navigation never runs on a mapping that moved. With a prepared
    foreign-key mapping the gate succeeds only when the statement's single
    reference is the mapping's target, bound to the prepared relation, the source
    relation is locked as prepared, and the mapping probe, asked again inside the
    transaction, gives the prepared mapping; the source's lock identity is handed
    to the audit. *)
Theorem bind_reproves_navigation nav s res s' :
  bi_navigation i = Some nav → PGBind deadline i order s = (Ok res, s') →
  nb_databaseOID nav = bd_DatabaseOID res
  ∧ (∃ ref b, guard_refs i = [ref] ∧ rv_Schema ref = nl_schema (nb_target nav) ∧ rv_Name ref = nl_name (nb_target nav)
       ∧ bd_Refs res !! rv_RefID ref = Some b
       ∧ NavRelation (ri_RelationOID (br_Identity b)) (br_RelTypeOID b) (br_RelKind b) (br_Schema b) (br_CatalogName b)
         = nb_target nav)
  ∧ (∃ a, CQuery (QNavigation (nl_schema (nb_source nav)) (nl_name (nb_source nav)) (nb_fkName nav)) (Ok a) ∈ se_log s'
       ∧ readPGNavigationBinding (an_rows a) (an_err a) (nb_fkName nav) = Ok (Some nav))
  ∧ ∃ shared, bd_navigationSource res = Some (identityFor (bd_DatabaseOID res) (nl_oid (nb_source nav)) shared)
       ∧ identityFor (bd_DatabaseOID res) (nl_oid (nb_source nav)) shared ∈ bd_Approved res.
Proof.
  intros Hnav (l & _ & _ & g & Hg & ->)%bind_run. pose proof (bf_nav _ _ _ Hg) as Hn. rewrite Hnav in Hn.
  destruct Hn as [((ref & b & Hr & _ & Hs & Hnm & Hb & Ht) & (n & src & Hn & Hsrc & Hid) & Hq & Hdb) (rel & (n' & Hn' & Hrel) & _ & Hx)].
  split; [exact Hdb|]. split; [by exists ref, b|]. split; [done|]. exists (bo_shared src).
  assert (n' = n) as -> by congruence. assert (rel = src) as -> by congruence.
  assert (nl_oid (nb_source nav) = bo_oid src) as -> by (by rewrite <- Hid).
  cbn. rewrite Hn. cbn. rewrite Hsrc. cbn. split; [done|].
  apply sort_slice_elem, elem_of_elements. unfold approved_set. set_solver.
Qed.

(** The catalog describes a locked relation the same way each time. *)
Definition resolution (c : pg_call) : option resolved_row :=
  match c with
  | CRow q r => match q in probe R return result pg_error R → option resolved_row with
                | QResolve _ => λ r, match r with Ok row => Some row | Err _ => None end
                | _ => λ _, None
                end r
  | _ => None
  end.
Definition catalog_consistent (l : list pg_call) : Prop :=
  ∀ r r', r ∈ omap resolution l → r' ∈ omap resolution l → rr_oid r = rr_oid r' → r = r'.

Lemma resolution_in (l : list pg_call) c r : CRow (QResolve c) (Ok r) ∈ l → r ∈ omap resolution l.
Proof. intros H. apply list_elem_of_omap. by exists (CRow (QResolve c) (Ok r)). Qed.

(** A view never reaches outside the approved schemas, and nothing is approved
    without a reason. While locked relations keep their descriptions, each bound
    view's dependencies were all read, lie in the pinned schema or in the view's
    own, and are listed and approved; and every approved identity is a bound
    reference, the navigation source, or a dependency, child or index the catalog
    reported, under the database its own shared flag gives it. *)
Theorem bind_dependencies_closed s res s' :
  catalog_consistent (se_log s') → PGBind deadline i order s = (Ok res, s') →
  (∀ id b, bd_Refs res !! id = Some b → br_RelKind b = gs "v" ∨ br_RelKind b = gs "m" →
     let view := ri_RelationOID (br_Identity b) in
     ∃ a rows, CQuery (QViewDeps view) (Ok a) ∈ se_log s' ∧ an_rows a = Ok <$> rows ∧ an_err a = None
       ∧ Forall (λ r, vd_oid r = view ∨
           ((vd_nsp r = bi_PinnedSchema i ∨ vd_nsp r = br_Schema b)
            ∧ ViewDependency view (vd_oid r) (vd_nsp r) (vd_relkind r) ∈ bd_Dependencies res
            ∧ identityFor (bd_DatabaseOID res) (vd_oid r) (vd_shared r) ∈ bd_Approved res)) rows)
  ∧ ∀ id, id ∈ bd_Approved res →
      (∃ k b, bd_Refs res !! k = Some b ∧ id = br_Identity b) ∨ bd_navigationSource res = Some id
      ∨ explained (se_log s') (bd_DatabaseOID res) id.
Proof.
  intros Hc (l & _ & _ & g & Hg & ->)%bind_run. cbn. split.
  - intros id b Hb Hkind.
    destruct (bg_refs _ _ _ (bf_gate _ _ _ Hg) id b Hb) as (ref & rel & _ & _ & _ & _ & (r & (Hr & _) & Ho & _ & Hk & _ & Hs & _) & Heq & [rel' Hrel']).
    pose proof (bg_heap _ _ _ (bf_gate _ _ _ Hg)) as (_ & Hoid & _).
    destruct (Hoid _ _ Hrel') as [Ho' (key & r' & (Hr' & _) & Hoo & _ & Hk' & _ & Hs' & _)].
    assert (r' = r) as -> by (apply Hc; [by eapply resolution_in|by eapply resolution_in|congruence]).
    assert (ref_rel g b = Some rel') as Href by (unfold ref_rel; rewrite Heq; exact Hrel').
    destruct (bf_views _ _ _ Hg id b Hb rel' Href) as (a & rows & Ha & Hrows & He & Hall).
    { unfold is_view. rewrite Hk', <- Hk. by rewrite Heq in Hkind. }
    assert (ri_RelationOID (br_Identity b) = bo_oid rel' ∧ br_Schema b = bo_schema rel') as [-> ->] by (rewrite Heq; cbn; split; congruence).
    exists a, rows. do 3 (split; [done|]). eapply Forall_impl; [exact Hall|]. intros row [?|(? & Hd & Hx)]; [by left|right].
    split; [done|]. split; [by apply sort_slice_elem|]. apply sort_slice_elem, elem_of_elements. unfold approved_set. set_solver.
  - intros id Hid. apply sort_slice_elem, elem_of_elements in Hid. unfold approved_set in Hid.
    apply elem_of_union in Hid as [Hid|Hid].
    + left. apply elem_of_list_to_set, list_elem_of_fmap in Hid as (b & -> & Hb).
      apply list_elem_of_fmap in Hb as ([k b'] & -> & Hb). apply elem_of_map_to_list in Hb. eauto.
    + right. destruct (bf_noted _ _ _ Hg id Hid) as [?|(nav & rel & _ & ((n & Hn & Hr) & _) & ->)]; [by right|left].
      rewrite Hn. cbn. by rewrite Hr.
Qed.

(** The gate fails only in the frozen vocabulary and never panics: whatever
    the server and the context do, no map lookup of the gate dereferences a
    missing record, every failure is a controlled rejection, a cancellation, a
    timeout or a backend failure, and every probe was sent under its own positive
    statement timeout. *)
Theorem bind_safe s r s' :
  PGBind deadline i order s = (r, s') →
  ∃ l, se_log s' = se_log s ++ l ∧ timed l
    ∧ ∀ e, r = Err e → is_Some (pe_Reject e) ∨ error_is e IsCanceled = true ∨ error_is e IsTimeout = true ∨ error_is e IsBackend = true.
Proof. intros (l & ? & ? & H)%bind_run. exists l. do 2 (split; [done|]). by intros e ->. Qed.
End promises.

(** ** Witnesses *)

Module BindEx.
Definition row (oid : Z) (kind name : bytes) : resolved_row := ResolvedRow oid (oid + 1) kind false (gs "public") name.
Definition name_of (name : bytes) : bytes := pgQualifiedName (gs "public") name.
(** Two tables, and a view over one of them. *)
Definition catalog (canonical : bytes) : option resolved_row :=
  if canonical =?b name_of (gs "users") then Some (row 16390 (gs "r") (gs "users"))
  else if canonical =?b name_of (gs "orders") then Some (row 16400 (gs "r") (gs "orders"))
  else if canonical =?b name_of (gs "report") then Some (row 16410 (gs "v") (gs "report"))
  else None.
Definition nav : pgNavigationBinding :=
  NavBinding 5 16500 (gs "orders_fk") (NavRelation 16400 16401 (gs "r") (gs "public") (gs "orders"))
    (NavRelation 16390 16391 (gs "r") (gs "public") (gs "users")) [NavPair 2 (gs "user_id") 23 (-1) 1 (gs "id") 23 (-1)].
Definition touched (stmt : bytes) : list Z :=
  if stmt =?b touch_stmt (gs "public") (gs "users") then [16391%Z]
  else if stmt =?b touch_stmt (gs "public") (gs "orders") then [16401%Z] else [16411%Z].
Definition ask_row {R} (q : probe R) : result pg_error R :=
  match q with
  | QDatabase => Ok (gs "app", 5%Z)
  | QSchemaExists _ => Ok true
  | QSchemaUsage _ => Ok true
  | QResolve c => match catalog c with Some r => Ok r | None => Err (wrap IsNoRows) end
  | QRecheck c => Ok (rr_oid <$> catalog c)
  | _ => Err (wrap IsNoRows)
  end.
Definition ask {R} (q : probe R) : answer R :=
  match q with
  | QTouch stmt => Answer (touched stmt) [] None
  | QNavigation _ _ _ => Answer [] (Ok <$> binding_rows nav) None
  | QAttributes _ => Answer [] [Ok (AttributeRow 1 (gs "id") 23 (-1))] None
  | QViewDeps _ => Answer [] [Ok (DepRow 16390 (gs "r") (gs "public") false)] None
  | QIndexes _ => Answer [] [Ok (EdgeRow 16395 16390 false)] None
  | QWhitelist names => Answer [] ((λ name, Ok (ProbeRow name 1259 false true)) <$> names) None
  | _ => Answer [] [] None
  end.
Instance session_answers : PGSession unit := {|
  ps_ctx := λ w, (None, w);
  ps_now := λ w, (0%Z, w);
  ps_exec := λ _ _ w, (Ok tt, w);
  ps_query := λ R q w, (Ok (ask q), w);
  ps_row := λ R q w, (ask_row q, w);
|}.
Definition ref (id : Z) (kind : RefKind) (schema name : bytes) : RangeVarRef := MkRangeVarRef id [] kind name schema [] [] 0 true.
Definition nav_input : PGBindInput :=
  BindInput true (gs "app") (gs "public") (Some [ref 1 RefQualified (gs "public") (gs "users")]) true (Some nav).
Definition view_input : PGBindInput :=
  BindInput true (gs "app") (gs "public") (Some [ref 1 RefEntity [] (gs "users"); ref 2 RefCTE [] (gs "c"); ref 3 RefEntity [] (gs "report")]) false None.
Definition walk (m : gmap Z PGBoundRef) : list PGBoundRef := (map_to_list m).*2.
Definition start : session unit := Session tt [].
#[local] Existing Instance session_answers.
#[local] Instance row_eq_dec : EqDecision resolved_row.
Proof. solve_decision. Defined.
Lemma consistent : catalog_consistent (se_log (PGBind 1000000000 view_input walk start).2).
Proof.
  assert (Forall (λ r, Forall (λ r', rr_oid r ≠ rr_oid r' ∨ r = r') (omap resolution (se_log (PGBind 1000000000 view_input walk start).2)))
    (omap resolution (se_log (PGBind 1000000000 view_input walk start).2))) as H by (eapply bool_decide_unpack; vm_compute; exact I).
  intros r r' Hr Hr' Ho. rewrite !Forall_forall in H. specialize (H r Hr). rewrite Forall_forall in H.
  by destruct (H r' Hr') as [?|?].
Qed.
End BindEx.
#[local] Existing Instance BindEx.session_answers.

Example bind_proves_references_witness :
  ∃ res s', PGBind 1000000000 BindEx.view_input BindEx.walk BindEx.start = (Ok res, s')
  ∧ dom (bd_Refs res) = {[1; 3]}%Z.
Proof.
  destruct (PGBind 1000000000 BindEx.view_input BindEx.walk BindEx.start) as [[res|e] s'] eqn:E; [|by vm_compute in E].
  exists res, s'. split; [done|].
  destruct (bind_proves_references _ _ _ (λ m, reflexivity _) _ _ _ E) as (_ & _ & Hd & _). rewrite Hd. by vm_compute.
Defined.

Example bind_reproves_navigation_witness :
  ∃ res s', PGBind 1000000000 BindEx.nav_input BindEx.walk BindEx.start = (Ok res, s')
  ∧ nb_databaseOID BindEx.nav = bd_DatabaseOID res.
Proof.
  destruct (PGBind 1000000000 BindEx.nav_input BindEx.walk BindEx.start) as [[res|e] s'] eqn:E; [|by vm_compute in E].
  exists res, s'. split; [done|].
  by destruct (bind_reproves_navigation 1000000000 BindEx.nav_input BindEx.walk (λ m, reflexivity _) BindEx.nav _ _ _ eq_refl E) as (H & _).
Defined.

Example bind_dependencies_closed_witness :
  ∃ res s', PGBind 1000000000 BindEx.view_input BindEx.walk BindEx.start = (Ok res, s') ∧ length (bd_Approved res) = 3
  ∧ ∀ id, id ∈ bd_Approved res →
      (∃ k b, bd_Refs res !! k = Some b ∧ id = br_Identity b) ∨ bd_navigationSource res = Some id
      ∨ explained (se_log s') (bd_DatabaseOID res) id.
Proof.
  destruct (PGBind 1000000000 BindEx.view_input BindEx.walk BindEx.start) as [[res|e] s'] eqn:E; [|by vm_compute in E].
  assert (catalog_consistent (se_log s')) as Hc.
  { replace s' with (PGBind 1000000000 BindEx.view_input BindEx.walk BindEx.start).2 by (by rewrite E). apply BindEx.consistent. }
  exists res, s'. split; [done|]. split; [vm_compute in E; by injection E as <- _|].
  by apply (bind_dependencies_closed _ _ _ (λ m, reflexivity _) _ _ _ Hc E).
Defined.

Example bind_safe_witness :
  ∃ r s', PGBind 0 BindEx.view_input BindEx.walk BindEx.start = (r, s') ∧ r = Err (wrap IsTimeout)
  ∧ ∃ l, se_log s' = se_log BindEx.start ++ l ∧ timed l.
Proof.
  destruct (PGBind 0 BindEx.view_input BindEx.walk BindEx.start) as [r s'] eqn:E. exists r, s'. split; [done|].
  split; [vm_compute in E; by injection E as <- _|].
  destruct (bind_safe _ _ _ (λ m, reflexivity _) _ _ _ E) as (l & ? & ? & _). by exists l.
Defined.
