(* ===== verification/PgAudit.v ===== *)
(** * The lock-set audit of a PostgreSQL attempt

    [internal/service/pg_lock_observer.go]: the verdict over one snapshot of the
    attempt backend's locks, the relations it may hold and those it must hold,
    and the TOAST relations derived from the approved ones. *)
From S2P Require Import Prelude GoText PgPagination PgErrors PgVerifier PgParams PgSession PgBinding.

Inductive pgAuditVerdict : Type := pgAuditVerified | pgAuditMismatch | pgAuditUnavailable.
#[export] Instance verdict_eq_dec : EqDecision pgAuditVerdict.
Proof. solve_decision. Defined.

(** The loop over the observed rows: [None] is the early return, otherwise
    whether the backend's own virtualxid row was seen and the held relations. *)
Fixpoint audit_rows (wantVXID : bytes) (identityOK : bool) (held : gset PGRelationIdentity) (rows : list pgLockRow)
    : option (bool * gset PGRelationIdentity) :=
  match rows with
  | [] => Some (identityOK, held)
  | r :: rows =>
    if negb (lk_granted r) then None
    else if negb (lk_vxid r =?b wantVXID) then None
    else if lk_locktype r =?b gs "virtualxid"
    then audit_rows wantVXID (if lk_mode r =?b gs "ExclusiveLock" then true else identityOK) held rows
    else if lk_locktype r =?b gs "relation"
    then audit_rows wantVXID identityOK ({[RelationIdentity (lk_database r) (lk_relation r)]} ∪ held) rows
    else audit_rows wantVXID identityOK held rows
  end.

(** The verdict, with the held relations nothing explains. *)
Definition evaluatePGLockAudit (rows : list pgLockRow) (wantVXID : bytes) (explainable : gset PGRelationIdentity)
    (required : list PGRelationIdentity) : pgAuditVerdict * list PGRelationIdentity :=
  if (length rows =? 0)%nat || (wantVXID =?b []) then (pgAuditUnavailable, [])
  else match audit_rows wantVXID false ∅ rows with
  | None => (pgAuditUnavailable, [])
  | Some (identityOK, held) =>
    if negb identityOK then (pgAuditUnavailable, [])
    else
      let unexplained := filter (λ id, id ∉ explainable) (elements held) in
      if (0 <? length unexplained)%nat then (pgAuditMismatch, unexplained)
      else if existsb (λ id, negb (bool_decide (id ∈ held))) required then (pgAuditUnavailable, [])
      else (pgAuditVerified, [])
  end.

(** The sets the audit is run with. *)
Definition audit_explainable (bind : PGBindResult) (derived : list PGRelationIdentity) : gset PGRelationIdentity :=
  list_to_set derived ∪ (list_to_set (bd_Probes bind) ∪ list_to_set (bd_Approved bind)).
Definition audit_required (bind : PGBindResult) : list PGRelationIdentity :=
  let refs := elements (list_to_set (br_Identity <$> (map_to_list (bd_Refs bind)).*2) : gset PGRelationIdentity) in
  match bd_navigationSource bind with
  | Some src => if bool_decide (src ∈ refs) then refs else refs ++ [src]
  | None => refs
  end.

Definition audit_verdict_error (v : pgAuditVerdict) : option pg_error :=
  match v with
  | pgAuditVerified => None
  | pgAuditMismatch => Some (binding_mismatch (gs "pgsql: held lock set contains unexplained access"))
  | pgAuditUnavailable => Some (wrap IsBackend)
  end.

Section toast.
Context {W : Type} `{!PGSession W} (deadline : Z).

(** Rows scanned in order: the first failed scan or the final error stops. *)
Fixpoint scan_all {R} (rows : list (result pg_error R)) (end_err : option pg_error) : result pg_error (list R) :=
  match rows with
  | [] => match end_err with Some e => Err e | None => Ok [] end
  | row :: rows => r ← row; rs ← scan_all rows end_err; Ok (r :: rs)
  end.

Definition toast_identities (db : Z) (r : toast_row) : list PGRelationIdentity :=
  identityFor db (to_oid r) (to_shared r)
  :: (if negb (to_index r =? 0)%Z then [identityFor db (to_index r) (to_indexShared r)] else []).

Definition pgCollectToastIdentities (databaseOID : Z) (baseOIDs : list Z) : pg W (list PGRelationIdentity) :=
  if (length baseOIDs =? 0)%nat then mret []
  else
    _ ← arm deadline;
    a ← query (QToast baseOIDs);
    toast ← of_result (scan_all (an_rows a) (an_err a));
    if (length toast =? 0)%nat then mret []
    else
      _ ← arm deadline;
      a ← query (QToastEdges toast);
      rows ← of_result (scan_all (an_rows a) (an_err a));
      mret (rows ≫= toast_identities databaseOID).

(** First occurrences, in order. *)
Fixpoint dedup_oids (seen : gset Z) (ids : list PGRelationIdentity) : list Z :=
  match ids with
  | [] => []
  | id :: ids =>
    if bool_decide (ri_RelationOID id ∈ seen) then dedup_oids seen ids
    else ri_RelationOID id :: dedup_oids ({[ri_RelationOID id]} ∪ seen) ids
  end.

Definition collectDerivedIdentities (bind : PGBindResult) : pg W (list PGRelationIdentity) :=
  if (length (bd_Approved bind) =? 0)%nat then mret []
  else pgCollectToastIdentities (bd_DatabaseOID bind) (dedup_oids ∅ (bd_Approved bind)).
End toast.

(** ** The verdict *)

(** A snapshot of this transaction alone, holding its own virtual transaction. *)
Definition own_snapshot (vxid : bytes) (rows : list pgLockRow) : Prop :=
  Forall (λ r, lk_granted r = true ∧ lk_vxid r = vxid) rows
  ∧ Exists (λ r, lk_locktype r = gs "virtualxid" ∧ lk_mode r = gs "ExclusiveLock") rows.

Definition held_relation (rows : list pgLockRow) (id : PGRelationIdentity) : Prop :=
  ∃ r, r ∈ rows ∧ lk_locktype r = gs "relation" ∧ id = RelationIdentity (lk_database r) (lk_relation r).

Lemma relation_not_vxid : gs "relation" ≠ gs "virtualxid".
Proof. done. Qed.

Lemma audit_rows_some vxid ok held rows ok' held' :
  audit_rows vxid ok held rows = Some (ok', held') →
  Forall (λ r, lk_granted r = true ∧ lk_vxid r = vxid) rows
  ∧ (ok' = true ↔ ok = true ∨ Exists (λ r, lk_locktype r = gs "virtualxid" ∧ lk_mode r = gs "ExclusiveLock") rows)
  ∧ ∀ id, id ∈ held' ↔ id ∈ held ∨ held_relation rows id.
Proof.
  revert ok held. induction rows as [|r rows IH]; intros ok held; cbn [audit_rows].
  { intros [= -> ->]. split; [constructor|]. split.
    - split; [auto|]. intros [?|H]; [done|inversion H].
    - intros id. split; [auto|]. intros [?|(r & Hr & _)]; [done|]. by apply elem_of_nil in Hr. }
  case_if as E1; [done|]. case_if as E2; [done|]. bool_inv.
  assert (∀ id, held_relation (r :: rows) id ↔ (lk_locktype r = gs "relation" ∧ id = RelationIdentity (lk_database r) (lk_relation r))
            ∨ held_relation rows id) as Hheld.
  { intros id. unfold held_relation. split.
    - intros (r' & [->|Hr]%elem_of_cons & ? & ?); [by left|right; eauto].
    - intros [[? ?]|(r' & ? & ?)]; [exists r; split; [by left|done]|exists r'; split; [by right|done]]. }
  case_if as E3; [|case_if as E4]; bool_inv; intros (Hall & Hok & Hh)%IH; (split; [by constructor|]);
    rewrite Exists_cons; setoid_rewrite Hheld; setoid_rewrite Hh.
  - split.
    + rewrite Hok. case_bool_decide; [tauto|]. naive_solver.
    + intros id. rewrite E3. split; [tauto|]. intros [?|[[[=] _]|?]]; tauto.
  - split; [rewrite Hok; naive_solver|]. intros id. rewrite E4, elem_of_union, elem_of_singleton. tauto.
  - split; [rewrite Hok; naive_solver|]. intros id. naive_solver.
Qed.

Lemma audit_rows_none vxid ok held rows :
  audit_rows vxid ok held rows = None ↔ ¬ Forall (λ r, lk_granted r = true ∧ lk_vxid r = vxid) rows.
Proof.
  revert ok held. induction rows as [|r rows IH]; intros ok held; cbn [audit_rows].
  { split; [done|]. intros H. by destruct H. }
  rewrite Forall_cons. case_if as E1; bool_inv; [split; [intros _ [[? _] _]; congruence|done]|].
  case_if as E2; bool_inv; [split; [intros _ [[_ ?] _]; congruence|done]|].
  repeat case_match; rewrite IH; tauto.
Qed.

(** C17: The audit's verdict is exact. It is "verified" exactly when every observed
    lock is granted to this very transaction, which holds its own virtual
    transaction id, every relation held is explained, and every required relation
    is held; it is "mismatch" exactly when such a snapshot holds an unexplained
    relation; any other evidence is "unavailable", never a rejection. *)
Theorem lock_audit_exact rows vxid explainable required :
  vxid ≠ [] →
  let verdict := (evaluatePGLockAudit rows vxid explainable required).1 in
  (verdict = pgAuditVerified ↔ own_snapshot vxid rows ∧ (∀ id, held_relation rows id → id ∈ explainable)
     ∧ ∀ id, id ∈ required → held_relation rows id)
  ∧ (verdict = pgAuditMismatch ↔ own_snapshot vxid rows ∧ ∃ id, held_relation rows id ∧ id ∉ explainable).
Proof.
  intros Hv. cbv zeta. unfold evaluatePGLockAudit, own_snapshot.
  rewrite (bool_decide_false (vxid = [])) by done. rewrite orb_false_r.
  destruct rows as [|r0 rows]; [cbn; split; (split; [done|]); intros [[_ H] _]; inversion H|].
  set (rows' := r0 :: rows). assert ((length rows' =? 0)%nat = false) as -> by done.
  destruct (audit_rows vxid false ∅ rows') as [[ok held]|] eqn:E.
  2: { apply audit_rows_none in E. cbn. split; (split; [done|]); intros [[? _] _]; done. }
  apply audit_rows_some in E as (Hall & Hok & Hheld). assert (∀ id, id ∈ held ↔ held_relation rows' id) as Hh by set_solver.
  destruct ok; cbn [negb].
  2: { cbn. split; (split; [done|]); intros [[_ Hex] _]; assert (false = true) as [=]; apply Hok; by right. }
  assert (Exists (λ r, lk_locktype r = gs "virtualxid" ∧ lk_mode r = gs "ExclusiveLock") rows') as Hex by (destruct (proj1 Hok eq_refl); done).
  destruct (filter _ (elements held)) as [|u us] eqn:Ef; cbn [length Nat.ltb Nat.leb].
  - assert (∀ id, held_relation rows' id → id ∈ explainable) as Hexp.
    { intros id Hid. destruct (decide (id ∈ explainable)) as [|Hn]; [done|].
      assert (id ∈ filter (λ id, id ∉ explainable) (elements held)) as Hin by (apply list_elem_of_filter; split; [done|]; by apply elem_of_elements, Hh).
      rewrite Ef in Hin. by apply elem_of_nil in Hin. }
    case_if as Er; cbn.
    + apply existsb_exists in Er as (id & Hid%list_elem_of_In & Hn). bool_inv. split; (split; [done|]).
      * intros (_ & _ & Hreq). destruct Hn. by apply Hh, Hreq.
      * intros (_ & id' & Hid' & Hne). destruct Hne. by apply Hexp.
    + split; split; try done.
      * intros _. split; [done|]. split; [done|]. intros id Hid. apply Hh. destruct (decide (id ∈ held)) as [|Hn]; [done|].
        assert (existsb (λ id, negb (bool_decide (id ∈ held))) required = true) as Hex'; [|congruence].
        apply existsb_exists. exists id. split; [by apply list_elem_of_In|]. by rewrite bool_decide_false.
      * intros (_ & id' & Hid' & Hne). destruct Hne. by apply Hexp.
  - assert (u ∈ filter (λ id, id ∉ explainable) (elements held)) as Hu by (rewrite Ef; by left).
    apply list_elem_of_filter in Hu as [Hne Hu%elem_of_elements%Hh]. cbn. split; split; try done.
    + intros (_ & Hexp & _). by destruct Hne; apply Hexp.
    + intros _. split; [done|]. eauto.
Qed.

Definition sample_locks : list pgLockRow :=
  [LockRow (gs "virtualxid") (gs "ExclusiveLock") true 0 0 (gs "3/7"); LockRow (gs "relation") (gs "AccessShareLock") true 5 16390 (gs "3/7")].

Example lock_audit_exact_witness :
  (evaluatePGLockAudit sample_locks (gs "3/7") {[RelationIdentity 5 16390]} [RelationIdentity 5 16390]).1 = pgAuditVerified
  ∧ own_snapshot (gs "3/7") sample_locks.
Proof.
  assert ((evaluatePGLockAudit sample_locks (gs "3/7") {[RelationIdentity 5 16390]} [RelationIdentity 5 16390]).1 = pgAuditVerified)
    as H by (vm_compute; reflexivity).
  split; [exact H|].
  destruct (lock_audit_exact sample_locks (gs "3/7") {[RelationIdentity 5 16390]} [RelationIdentity 5 16390]) as [Hv _]; [done|].
  exact (proj1 (proj1 Hv H)).
Defined.
