(* ===== verification/PgAttempt.v ===== *)
(** * One governed PostgreSQL attempt

    [internal/service/pg_query_executor.go], [pg_attempt_evidence.go], the driver
    steps of [pg_parameter_validation.go] and of [pg_lock_observer.go], and
    [ExecutePGGovernedDisclosedOutcome]: the stages of an attempt in their order,
    the single dispatch of the user's statement, the bounded reading of its rows,
    the cleanup every exit converges on, and the evidence it leaves. *)
From S2P Require Import Prelude GoText ExecModel ResultContract PgPagination PgErrors PgVerifier PgDisclosure PgParams PgSession PgPool PgBinding PgAudit.

(** ** Constants and vocabulary *)

Definition pgRemoteProbeWindow : Z := 2000000000.
Definition pgRemoteProbePoll : Z := 50000000.
Definition pgMaxResultBytes : Z := 1048576.
Definition pgMaxTransportColumns : Z := (pgMaxResultColumns + pgMaxWitnessColumns)%Z.

Definition PGStageInput : bytes := gs "input".
Definition PGStageGuard : bytes := gs "guard".
Definition PGStageConnect : bytes := gs "connect".
Definition PGStageIdentity : bytes := gs "identity".
Definition PGStageBind : bytes := gs "bind".
Definition PGStageRewrite : bytes := gs "rewrite".
Definition PGStagePreflight : bytes := gs "preflight".
Definition PGStageParameters : bytes := gs "parameters".
Definition PGStageExecute : bytes := gs "execute".
Definition PGStageVerify : bytes := gs "verify".
Definition PGStageAudit : bytes := gs "audit".
Definition PGStageDeliver : bytes := gs "deliver".
Definition PGStageTransform : bytes := gs "transform".

(** An instant is nanoseconds after the zero time. *)
Record PGAttemptEvidence : Type := AttemptEvidence {
  ev_Stage : bytes;
  ev_Status : bytes;
  ev_BackendPID : Z;
  ev_BackendStart : Z;
  ev_RemoteState : bytes;
  ev_UserSQLSent : bool;
}.

Definition pgAttemptStatus (err : option pg_error) : bytes :=
  match err with
  | None => QueryExecutionSuccess
  | Some e =>
    if bool_decide (is_Some (pe_Reject e)) || error_is e IsValidation || error_is e IsTooLarge || error_is e IsBlocked
    then QueryExecutionRejected
    else if error_is e IsTimeout || error_is e IsDeadline then QueryExecutionTimeout
    else if error_is e IsCanceled then QueryExecutionCancelled
    else QueryExecutionFailed
  end.

Inductive pgStmtFate : Type := pgStmtUnsent | pgStmtIndeterminate | pgStmtCompleted | pgStmtErrored.
#[export] Instance fate_eq_dec : EqDecision pgStmtFate.
Proof. solve_decision. Defined.

Definition server_error (e : option pg_error) : bool := match e with Some e => bool_decide (is_Some (pe_Code e)) | None => false end.
Definition safe_to_retry (e : option pg_error) : bool := match e with Some e => pe_SafeToRetry e | None => false end.
Definition pgStmtFateAfterRead (readErr closeErr : option pg_error) : pgStmtFate :=
  if server_error readErr || server_error closeErr then pgStmtErrored
  else if negb (bool_decide (is_Some closeErr)) then pgStmtCompleted
  else if safe_to_retry readErr || safe_to_retry closeErr then pgStmtUnsent
  else pgStmtIndeterminate.

(** [state] is [None] when another role's backend masks it. *)
Definition pgRemoteStateFromObservation (found : bool) (state : option bytes) (backendStart wantStart : Z) : bytes :=
  if negb found then QueryExecutionRemoteStopped
  else if (wantStart =? 0)%Z || negb (backendStart =? wantStart)%Z then QueryExecutionRemoteUnknown
  else match state with
  | None => QueryExecutionRemoteUnknown
  | Some st =>
    if (st =?b gs "idle") || (st =?b gs "idle in transaction") || (st =?b gs "idle in transaction (aborted)")
    then QueryExecutionRemoteStopped else QueryExecutionRemoteUnknown
  end.

(** ** The driver *)

(** The execution connection, the observation connection, and the remote-state
    probe's own connection with its context. *)
Class PGDriver (W : Type) : Type := {
  dv_session :: PGSession W;
  dv_dialer :: PGDialer W;
  dv_deadline : Z → W → Z * W;                        (** [context.WithTimeout]: the attempt's deadline *)
  dv_begin : W → result pg_error unit * W;
  dv_describe : bytes → W → result pg_error (list Z) * W;
  dv_exec_params : bytes → list (option bytes) → list Z → W → transport * W;
  dv_rollback : W → result pg_error unit * W;
  dv_obs_exec : bytes → list bytes → W → result pg_error unit * W;
  dv_obs_query : ∀ {R}, probe R → W → result pg_error (answer R) * W;
  dv_probe_connect : W → bool * W;
  dv_probe_version : W → result pg_error bytes * W;
  dv_probe_row : Z → W → result pg_error (option (option bytes * Z)) * W;
  dv_probe_expired : W → bool * W;                    (** [probeCtx.Err() != nil] *)
  dv_probe_wait : W → bool * W;                       (** the select: [true] when [Done] fired *)
}.

Record PGExecuteInput : Type := ExecuteInput {
  xi_ConnConfig : bool;                               (** a validated config was given *)
  xi_Database : bytes;
  xi_PinnedSchema : bytes;
  xi_Statement : bytes;
  xi_Page : PageOptions;
  xi_Timeout : Z;
  xi_parameters : option pgParameterPlan;
  xi_navigation : option pgNavigationBinding;
  xi_requirePinnedSchema : bool;
}.

(** The attempt: its transaction's session, the stage reached, what it knows of
    the user's statement, its identity and the resources it holds. *)
Record pgExecAttempt (W : Type) : Type := ExecAttempt {
  pa_session : session W;
  pa_stage : bytes;
  pa_stmtFate : pgStmtFate;
  pa_describeSent : bool;
  pa_backendPID : Z;
  pa_backendStart : Z;
  pa_virtualXID : bytes;
  pa_tx : bool;
  pa_conn : bool;
}.
Arguments ExecAttempt {_} _ _ _ _ _ _ _ _ _.
Arguments pa_session {_} _.
Arguments pa_stage {_} _.
Arguments pa_stmtFate {_} _.
Arguments pa_describeSent {_} _.
Arguments pa_backendPID {_} _.
Arguments pa_backendStart {_} _.
Arguments pa_virtualXID {_} _.
Arguments pa_tx {_} _.
Arguments pa_conn {_} _.

Definition set_session {W} (s : session W) (a : pgExecAttempt W) : pgExecAttempt W :=
  ExecAttempt s (pa_stage a) (pa_stmtFate a) (pa_describeSent a) (pa_backendPID a) (pa_backendStart a) (pa_virtualXID a) (pa_tx a) (pa_conn a).
Definition set_stage {W} (stage : bytes) (a : pgExecAttempt W) : pgExecAttempt W :=
  ExecAttempt (pa_session a) stage (pa_stmtFate a) (pa_describeSent a) (pa_backendPID a) (pa_backendStart a) (pa_virtualXID a) (pa_tx a) (pa_conn a).
Definition set_fate {W} (fate : pgStmtFate) (a : pgExecAttempt W) : pgExecAttempt W :=
  ExecAttempt (pa_session a) (pa_stage a) fate (pa_describeSent a) (pa_backendPID a) (pa_backendStart a) (pa_virtualXID a) (pa_tx a) (pa_conn a).
Definition set_describe {W} (sent : bool) (a : pgExecAttempt W) : pgExecAttempt W :=
  ExecAttempt (pa_session a) (pa_stage a) (pa_stmtFate a) sent (pa_backendPID a) (pa_backendStart a) (pa_virtualXID a) (pa_tx a) (pa_conn a).
Definition set_identity {W} (pid start : Z) (vxid : bytes) (a : pgExecAttempt W) : pgExecAttempt W :=
  ExecAttempt (pa_session a) (pa_stage a) (pa_stmtFate a) (pa_describeSent a) pid start vxid (pa_tx a) (pa_conn a).
Definition set_resources {W} (tx conn : bool) (a : pgExecAttempt W) : pgExecAttempt W :=
  ExecAttempt (pa_session a) (pa_stage a) (pa_stmtFate a) (pa_describeSent a) (pa_backendPID a) (pa_backendStart a) (pa_virtualXID a) tx conn.

(** Fallible steps of an attempt; an error keeps the state. *)
Definition att (W A : Type) : Type := pgExecAttempt W → result pg_error A * pgExecAttempt W.
#[export] Instance att_ret {W} : MRet (att W) := λ A x a, (Ok x, a).
#[export] Instance att_bind {W} : MBind (att W) := λ A B f m a,
  let '(r, a) := m a in match r with Ok x => f x a | Err e => (Err e, a) end.
Definition att_throw {W A} (e : pg_error) : att W A := λ a, (Err e, a).
Definition att_of {W A} (r : result pg_error A) : att W A := λ a, (r, a).
Definition modify {W} (f : pgExecAttempt W → pgExecAttempt W) : att W unit := λ a, (Ok tt, f a).
Definition get {W} : att W (pgExecAttempt W) := λ a, (Ok a, a).
Definition lift {W A} (m : pg W A) : att W A := λ a, let '(r, s) := m (pa_session a) in (r, set_session s a).

Section driver.
Context {W : Type} `{!PGDriver W}.

Definition enter (stage : bytes) : att W unit := modify (set_stage stage).
(** [if err := attemptCtx.Err(); err != nil]. *)
Definition check_ctx : att W unit := c ← lift ctx_err; match c with Some c => att_throw (wrap c) | None => mret tt end.

(** A call on the driver, logged with its answer. *)
Definition logged {A} (op : W → A * W) (mk : A → pg_call) : pg W A := λ s,
  let '(r, w) := op (se_world s) in (Ok r, Session w (se_log s ++ [mk r])).
Definition logged_result {A} (op : W → result pg_error A * W) (mk : result pg_error A → pg_call) : pg W A := λ s,
  let '(r, w) := op (se_world s) in (r, Session w (se_log s ++ [mk r])).

Definition driver_begin : pg W unit := logged_result dv_begin CBegin.
Definition driver_describe (sql : bytes) : pg W (list Z) := logged_result (dv_describe sql) (CDescribe sql).
Definition driver_probe (sql : bytes) (values : list (option bytes)) (oids : list Z) : pg W transport :=
  logged (dv_exec_params sql values oids) (CParamProbe sql values oids).
Definition driver_result (sql : bytes) (values : list (option bytes)) : pg W transport :=
  logged (dv_exec_params sql values []) (CResult sql values).
Definition open_pool : pg W unit := λ s,
  let '(r, s) := openPostgresPool true s in (r, Session (se_world s) (se_log s ++ [CPool r])).
Definition acquire_conn : pg W Z := λ s,
  let '(r, s) := acquire s in (r, Session (se_world s) (se_log s ++ [CAcquire r])).

(** ** Opening *)

Definition search_path_sql : bytes := gs "SELECT pg_catalog.set_config('search_path', $1, true)".
Definition timezone_sql : bytes := gs "SELECT pg_catalog.set_config('TimeZone', 'UTC', true)".

Definition openExecution (deadline : Z) (pinned : bytes) : att W unit :=
  _ ← lift open_pool;
  pid ← lift acquire_conn;
  _ ← modify (λ a, set_resources false true (set_identity (to_int32 pid) (pa_backendStart a) (pa_virtualXID a) a));
  _ ← lift driver_begin;
  _ ← modify (set_resources true true);
  _ ← lift (exec search_path_sql [pgQuoteIdent pinned ++ gs ",pg_catalog"]);
  _ ← lift (exec timezone_sql []);
  lift (arm deadline).

Definition readTransactionIdentity (deadline : Z) : att W unit :=
  _ ← lift (arm deadline);
  ans ← lift (query QIdentity);
  rows ← att_of (scan_all (an_rows ans) (an_err ans));
  match rows with
  | [(pid, vxid, Some start)] =>
    if (pid =? 0)%Z || (vxid =?b []) || (start =? 0)%Z then att_throw (wrap IsEvidence)
    else modify (set_identity pid start vxid)
  | _ => att_throw (wrap IsEvidence)
  end.

(** ** The parameter steps *)

Definition classifyTransportError (e : pg_error) : pg_error :=
  match classifyPGRelationAccess e with Some re => rejected re | None => e end.

(** The attempt context has priority over [e]. *)
Definition unless_spent {A} (e : pg_error) : att W A :=
  c ← lift ctx_err; att_throw (match c with Some c => wrap c | None => e end).

Definition classifyPGParameterDescribeError {A} (e : pg_error) : att W A :=
  unless_spent
    (if pe_ParseFailed e && ((pe_Code e =?b Some (gs "42P18")) || (pe_Code e =?b Some (gs "42P08")))
     then parameter_refused else classifyTransportError e).

Definition classifyPGParameterProbeError {A} (e : pg_error) : att W A :=
  unless_spent
    (match pe_Code e with
     | Some code => if bool_decide (code ∈ pgParamTypeRejectCodes) then parameter_refused else e
     | None => e
     end).

Definition validatePGParameterInputs (deadline : Z) (values : list (option bytes)) (sql : bytes) : att W unit :=
  _ ← lift (arm deadline);
  _ ← modify (set_describe true);
  oids ← (λ a, let '(r, a) := lift (driver_describe (pgParameterDescribePrefix ++ sql)) a in
               match r with
               | Ok oids => (Ok oids, a)
               | Err e => classifyPGParameterDescribeError e (if pe_SafeToRetry e then set_describe false a else a)
               end);
  if negb (length oids =? length values)%nat then att_throw (wrap IsEvidence)
  else if existsb (λ oid, (oid =? 0)%Z) oids then att_throw (wrap IsEvidence)
  else
    _ ← lift (arm deadline);
    t ← lift (driver_probe (buildPGParameterProbeSQL (length values)) values oids);
    let produced := (0 <? length (tp_rows t))%nat in
    let closeErr := tp_close t (if produced then 1 else 0) in
    match (if produced then Some (wrap IsEvidence) else closeErr) with
    | Some e => classifyPGParameterProbeError e
    | None => mret tt
    end.

(** ** The user's statement *)

(** One row against the bytes already kept; [None] when it does not fit. *)
Fixpoint copy_row (total : Z) (vals : list (option bytes)) : option Z :=
  match vals with
  | [] => Some total
  | None :: vals => copy_row total vals
  | Some v :: vals =>
    if (pgMaxResultBytes - total <? Z.of_nat (length v))%Z then None else copy_row (total + Z.of_nat (length v)) vals
  end.

(** The rows kept, the local error, and how many rows the reader took. *)
Fixpoint read_rows (fetchCount total : Z) (taken : nat) (kept rows : list (list (option bytes)))
    : pg W (list (list (option bytes)) * option pg_error * nat) :=
  c ← ctx_err;
  match c, rows with
  | Some c, _ => mret (kept, Some (wrap c), taken)
  | None, [] => mret (kept, None, taken)
  | None, vals :: rows =>
    if (fetchCount <=? Z.of_nat (length kept))%Z then mret (kept, Some (wrap IsEvidence), 1 + taken)
    else match copy_row total vals with
    | None => mret (kept, Some (wrap IsTooLarge), 1 + taken)
    | Some total => read_rows fetchCount total (1 + taken) (kept ++ [vals]) rows
    end
  end.

(** The columns are counted before any row is taken. *)
Definition read_result (t : transport) (win : PageWindow) : pg W (text_rows * option pg_error * nat) :=
  if (pgMaxTransportColumns <? Z.of_nat (length (tp_fds t)))%Z then mret ([], Some (wrap IsEvidence), 0)
  else read_rows (pw_FetchCount win) 0 0 [] (tp_rows t).

(** Once the time budget is armed: from here the statement may have run. *)
Definition dispatch (sql : bytes) (values : list (option bytes)) (win : PageWindow) : att W (list FieldDescription * text_rows) :=
  _ ← modify (set_fate pgStmtIndeterminate);
  t ← lift (driver_result sql values);
  '(rows, readErr, taken) ← lift (read_result t win);
  let closeErr := tp_close t taken in
  _ ← modify (set_fate (pgStmtFateAfterRead readErr closeErr));
  match readErr, closeErr with
  | Some e, _ | None, Some e => att_throw (classifyTransportError e)
  | None, None => mret (tp_fds t, rows)
  end.

Definition executeAndMaterialize (deadline : Z) (sql : bytes) (values : list (option bytes)) (win : PageWindow)
    : att W (list FieldDescription * text_rows) :=
  _ ← lift (arm deadline); dispatch sql values win.

(** ** The lock audit *)

Definition obs_timeout_sql : bytes := gs "SELECT pg_catalog.set_config('statement_timeout', $1, false)".

Definition auditLockSet (deadline : Z) (bind : PGBindResult) (derived : list PGRelationIdentity) : att W unit :=
  a ← get;
  if (pa_backendPID a =? 0)%Z || (pa_virtualXID a =?b []) then att_throw (wrap IsEvidence)
  else
    _ ← lift open_pool;
    _ ← lift acquire_conn;
    t ← lift now;
    match pgRemainingStatementTimeoutMs deadline t with
    | None => att_throw (wrap IsTimeout)
    | Some ms =>
      _ ← lift (logged_result (dv_obs_exec obs_timeout_sql [format_int ms ++ gs "ms"]) (CExec obs_timeout_sql [format_int ms ++ gs "ms"]));
      ans ← lift (logged_result (dv_obs_query (QLocks (pa_backendPID a))) (CQuery (QLocks (pa_backendPID a))));
      observed ← att_of (scan_all (an_rows ans) (an_err ans));
      match audit_verdict_error (evaluatePGLockAudit observed (pa_virtualXID a) (audit_explainable bind derived) (audit_required bind)).1 with
      | Some e => att_throw e
      | None => mret tt
      end
    end.

(** ** Cleanup and evidence *)

(** The probe's polling; [None] when the fuel runs out. *)
Fixpoint poll (fuel : nat) (pid wantStart : Z) (w : W) : option bytes * W :=
  match fuel with
  | 0 => (None, w)
  | S fuel =>
    match dv_probe_row pid w with
    | (Err _, w) => (Some QueryExecutionRemoteUnknown, w)
    | (Ok row, w) =>
      let verdict := match row with
        | None => pgRemoteStateFromObservation false None 0 wantStart
        | Some (state, start) => pgRemoteStateFromObservation true state start wantStart
        end in
      if negb (verdict =?b QueryExecutionRemoteUnknown) then (Some verdict, w)
      else match dv_probe_expired w with
      | (true, w) => (Some QueryExecutionRemoteUnknown, w)
      | (false, w) => match dv_probe_wait w with
                      | (true, w) => (Some QueryExecutionRemoteUnknown, w)
                      | (false, w) => poll fuel pid wantStart w
                      end
      end
    end
  end.

(** Polls that fit in the window, and one more. *)
Definition poll_fuel : nat := 42.

Definition pgProbeBackendState (pid wantStart : Z) (w : W) : bytes * W :=
  if (pid =? 0)%Z then (QueryExecutionRemoteUnknown, w)
  else match dv_probe_connect w with
  | (false, w) => (QueryExecutionRemoteUnknown, w)
  | (true, w) =>
    match dv_probe_version w with
    | (Err _, w) => (QueryExecutionRemoteUnknown, w)
    | (Ok raw, w) =>
      match parsePGServerVersionNum raw with
      | Err _ => (QueryExecutionRemoteUnknown, w)
      | Ok v =>
        if negb (pgServerVersionSupported v) then (QueryExecutionRemoteUnknown, w)
        else let '(verdict, w) := poll poll_fuel pid wantStart w in (default QueryExecutionRemoteUnknown verdict, w)
      end
    end
  end.

Definition set_world (w : W) (calls : list pg_call) (a : pgExecAttempt W) : pgExecAttempt W :=
  set_session (Session w (se_log (pa_session a) ++ calls)) a.

Definition releaseExecution (a : pgExecAttempt W) : option pg_error * pgExecAttempt W :=
  let '(first, a) :=
    if pa_tx a then
      let '(r, w) := dv_rollback (se_world (pa_session a)) in
      ((match r with Err _ => Some (wrap IsBackend) | Ok _ => None end),
       set_resources false (pa_conn a) (set_world w [CRollback r] a))
    else (None, a) in
  (first, if pa_conn a then set_resources (pa_tx a) false (set_world (se_world (pa_session a)) [CRelease] a) else a).

Definition observeRemoteState (a : pgExecAttempt W) : bytes * pgExecAttempt W :=
  match pa_stmtFate a with
  | pgStmtUnsent => (QueryExecutionRemoteNone, a)
  | pgStmtCompleted => (QueryExecutionRemoteCompleted, a)
  | pgStmtErrored => (QueryExecutionRemoteStopped, a)
  | pgStmtIndeterminate =>
    let '(state, w) := pgProbeBackendState (pa_backendPID a) (pa_backendStart a) (se_world (pa_session a)) in
    (state, set_world w [CObserve state] a)
  end.

(** [close]: release, observe, then tear the pools down. *)
Definition attempt_close (a : pgExecAttempt W) : option pg_error * bytes * pgExecAttempt W :=
  let '(first, a) := releaseExecution a in
  let '(remote, a) := observeRemoteState a in
  (first, remote, set_world (se_world (pa_session a)) [CClosePools] a).

Definition attempt_evidence (a : pgExecAttempt W) (remote : bytes) (err : option pg_error) : PGAttemptEvidence :=
  AttemptEvidence (pa_stage a) (pgAttemptStatus err) (pa_backendPID a) (pa_backendStart a) remote
    (negb (pa_stmtFate a =?b pgStmtUnsent) || pa_describeSent a).

(** The sentinels [fail] returns as they are. *)
Definition known_sentinels : list pg_sentinel :=
  [IsTimeout; IsBackend; IsTooLarge; IsValidation; IsBlocked; IsDisclosureBackend; IsEvidence; IsVersionUnsupported;
   IsConnectFailed; IsVersionReadFailed].
Definition attempt_vocabulary (e : pg_error) : pg_error :=
  if error_is e IsCanceled then wrap IsCanceled
  else if error_is e IsDeadline then wrap IsTimeout
  else if existsb (error_is e) known_sentinels then e
  else if isPGQueryCanceled e then wrap IsTimeout
  else errPGExecInternal.
Definition attempt_fail (e : pg_error) : pg W pg_error :=
  match pe_Reject e with
  | Some re => mret (rejected re)
  | None =>
    c ← ctx_err;
    mret (match c with Some c => ctx_failure c | None => attempt_vocabulary e end)
  end.
End driver.

(** ** The stages *)

(** A verifier's failure; a panic is not an error value. *)
Definition att_verify {W A} (r : result verify_error A) : att W A :=
  match r with
  | Ok x => mret x
  | Err v => att_throw (default (wrap IsPanic) (verify_pg_error v))
  end.

(** The binding as the verifiers see it: a map of pointers. *)
Definition bound_of (bind : PGBindResult) : bound_refs := Some <$> bd_Refs bind.

(** What the attempt needs of the parser and the rewriter: [GuardPG], its
    references, whether the result still matches its fingerprint and its
    parameter numbers, and [RewriteFromGuardPaginated], which may ask the catalog
    for common types; the connection's type names and [strings.ToUpper]; the
    order of Go's walk over the bound references. *)
Record pg_frontend (W : Type) : Type := Frontend {
  fe_guard : Type;
  fe_GuardPG : bytes → result pg_error fe_guard;
  fe_refs : fe_guard → list RangeVarRef;
  fe_intact : fe_guard → bool;
  fe_params : fe_guard → gset Z;
  fe_rewrite : bytes → bytes → fe_guard → pgTxResolver → PageOptions → pg W (RewriteResult * PageWindow);
  fe_type_name : Z → option bytes;
  fe_upper : bytes → bytes;
  fe_order : gmap Z PGBoundRef → list PGBoundRef;
}.
Arguments fe_guard {_} _.
Arguments fe_GuardPG {_} _ _.
Arguments fe_refs {_} _ _.
Arguments fe_intact {_} _ _.
Arguments fe_params {_} _ _.
Arguments fe_rewrite {_} _ _ _ _ _ _.
Arguments fe_type_name {_} _ _.
Arguments fe_upper {_} _ _.
Arguments fe_order {_} _ _.

Abbreviation policy_reader := (nat → pgPolicyKey → policy_read).

(** The plan and the binding agree, and the statement is the binding's own. *)
Definition check_navigation (plan : option pgParameterPlan) (nav : option pgNavigationBinding) (statement : bytes) : result pg_error unit :=
  let evidence := Err (wrap IsEvidence) in
  match nav, plan with
  | None, Some p => if (pn_source p =? pgParameterSourceNavigation)%Z then evidence else Ok tt
  | None, None => Ok tt
  | Some _, None => evidence
  | Some b, Some p =>
    if negb (pn_source p =? pgParameterSourceNavigation)%Z || negb (length (pn_values p) =? length (nb_pairs b))%nat then evidence
    else match newPGNavigationPlan (Some b) (pn_values p) with
         | Ok expected => if pn_statement expected =?b statement then Ok tt else evidence
         | Err _ => evidence
         end
  end.

Section attempt.
Context {W : Type} `{!PGDriver W} (fe : pg_frontend W).

(** What a completed attempt hands over: the verified result, and the plan when
    the attempt is disclosed. *)
Definition preflight (disc : option policy_reader) (database : bytes) (rw : RewriteResult) (bind : PGBindResult)
    : att W (option pgDisclosurePlan) :=
  match disc with
  | None => mret None
  | Some reader =>
    _ ← enter PGStagePreflight;
    plan ← att_of (resolvePGDisclosurePlan reader database (Some rw) (Some (bound_of bind)));
    _ ← check_ctx;
    mret (Some plan)
  end.

Definition parameter_step (deadline : Z) (values : list (option bytes)) (sql : bytes) : att W unit :=
  if (length values =? 0)%nat then mret tt
  else _ ← enter PGStageParameters; _ ← validatePGParameterInputs deadline values sql; check_ctx.

(** From the rows to the public result. *)
Definition deliver (rw : RewriteResult) (win : PageWindow) (bind : PGBindResult) (fds : list FieldDescription) (rows : text_rows)
    : att W PGVerifiedResult :=
  page ← att_of (match window_Result win (Z.of_nat (length rows)) with Some p => Ok p | None => Err (wrap IsEvidence) end);
  '(cols, out, marks) ← att_verify (projectPGPublicResult (fe_type_name fe) (fe_upper fe) fds (take (Z.to_nat (pg_RowCount page)) rows) rw);
  _ ← check_ctx;
  mret (VerifiedResult cols out (Some marks) page (pw_FetchCount win) (rw_Refs rw) (rw_PublicProofs rw)
          (default ∅ (rw_SourceCatalog rw)) (bound_of bind)).

(** Everything up to the dispatch of the user's statement. *)
Definition prepare (deadline : Z) (inp : PGExecuteInput) (disc : option policy_reader)
    : att W (PGBindResult * list PGRelationIdentity * RewriteResult * PageWindow * option pgDisclosurePlan * list (option bytes)) :=
  _ ← check_ctx;
  plan ← att_of (snapshotPGParameterPlan (xi_parameters inp) (xi_Statement inp));
  nav ← att_of (snapshotPGNavigationBinding (xi_navigation inp));
  _ ← att_of (check_navigation plan nav (xi_Statement inp));
  let values := match plan with Some p => wireValues p | None => [] end in
  _ ← enter PGStageGuard;
  gr ← att_of (fe_GuardPG fe (xi_Statement inp));
  _ ← att_of (ValidateParameterBindings (fe_intact fe gr) (fe_params fe gr) (Z.of_nat (length values)));
  _ ← check_ctx;
  _ ← enter PGStageConnect;
  _ ← openExecution deadline (xi_PinnedSchema inp);
  _ ← enter PGStageIdentity;
  _ ← readTransactionIdentity deadline;
  _ ← enter PGStageBind;
  bind ← lift (PGBind deadline (BindInput true (xi_Database inp) (xi_PinnedSchema inp) (Some (fe_refs fe gr))
                                  (xi_requirePinnedSchema inp) nav) (fe_order fe));
  derived ← lift (collectDerivedIdentities deadline bind);
  _ ← check_ctx;
  _ ← enter PGStageRewrite;
  '(rw, win) ← lift (fe_rewrite fe (xi_Statement inp) (xi_PinnedSchema inp) gr (bd_Resolver bind) (xi_Page inp));
  _ ← check_ctx;
  _ ← att_verify (verifyPGExpectedLayout (Some rw) (Some (bound_of bind)));
  dplan ← preflight disc (xi_Database inp) rw bind;
  _ ← parameter_step deadline values (rw_SQL rw);
  mret (bind, derived, rw, win, dplan, values).

Definition attempt_body (deadline : Z) (inp : PGExecuteInput) (disc : option policy_reader)
    : att W (PGVerifiedResult * option pgDisclosurePlan) :=
  '(bind, derived, rw, win, dplan, values) ← prepare deadline inp disc;
  _ ← enter PGStageExecute;
  '(fds, rows) ← executeAndMaterialize deadline (rw_SQL rw) values win;
  _ ← enter PGStageVerify;
  _ ← att_verify (verifyPGPositions fds (Some rw) (Some (bound_of bind)));
  _ ← check_ctx;
  _ ← enter PGStageAudit;
  _ ← auditLockSet deadline bind derived;
  _ ← check_ctx;
  _ ← enter PGStageDeliver;
  out ← deliver rw win bind fds rows;
  mret (out, dplan).

Definition new_attempt (w : W) : pgExecAttempt W := ExecAttempt (Session w []) PGStageInput pgStmtUnsent false 0 0 [] false false.

(** The attempt and its deferred cleanup: a result survives only a clean
    release, and a primary failure is never replaced. *)
Definition runPGGovernedAttempt (inp : PGExecuteInput) (disc : option policy_reader) (w : W)
    : result pg_error (PGVerifiedResult * option pgDisclosurePlan) * PGAttemptEvidence * pgExecAttempt W :=
  if negb (xi_ConnConfig inp) || (xi_Database inp =?b []) || (xi_PinnedSchema inp =?b []) || (xi_Timeout inp <=? 0)%Z
  then (Err (wrap IsValidation), AttemptEvidence PGStageInput (pgAttemptStatus (Some (wrap IsValidation))) 0 0 [] false, new_attempt w)
  else
    let '(deadline, w) := dv_deadline (xi_Timeout inp) w in
    let '(r, a) := attempt_body deadline inp disc (new_attempt w) in
    let '(r, a) := match r with
      | Ok out => (Ok out, a)
      | Err e => let '(r, a) := lift (attempt_fail e) a in (match r with Ok e => Err e | Err e => Err e end, a)
      end in
    let '(first, remote, a) := attempt_close a in
    let r := match r, first with Ok _, Some e => Err e | _, _ => r end in
    (r, attempt_evidence a remote (match r with Ok _ => None | Err e => Some e end), a).

Definition ExecutePGGovernedOutcome (inp : PGExecuteInput) (w : W) : result pg_error PGVerifiedResult * PGAttemptEvidence :=
  let '(r, ev, _) := runPGGovernedAttempt inp None w in (fst <$> r, ev).
Definition ExecutePGGoverned (inp : PGExecuteInput) (w : W) : result pg_error PGVerifiedResult := (ExecutePGGovernedOutcome inp w).1.

Definition ExecutePGGovernedDisclosedOutcome (inp : PGExecuteInput) (target : Z) (policies : option policy_reader) (w : W)
    : result pg_error PGDisclosedResult * PGAttemptEvidence * pgExecAttempt W :=
  match policies with
  | None => (Err (wrap IsValidation), AttemptEvidence PGStageInput (pgAttemptStatus (Some (wrap IsValidation))) 0 0 [] false, new_attempt w)
  | Some reader =>
    if (target =? 0)%Z
    then (Err (wrap IsValidation), AttemptEvidence PGStageInput (pgAttemptStatus (Some (wrap IsValidation))) 0 0 [] false, new_attempt w)
    else
      let '(r, ev, a) := runPGGovernedAttempt inp (Some reader) w in
      match r with
      | Err e => (Err e, ev, a)
      | Ok (verified, dplan) =>
        match applyPGDisclosure dplan (Some verified) with
        | Ok out => (Ok out, ev, a)
        | Err e => (Err e, AttemptEvidence PGStageTransform (pgAttemptStatus (Some e)) (ev_BackendPID ev) (ev_BackendStart ev)
                             (ev_RemoteState ev) (ev_UserSQLSent ev), a)
        end
      end
  end.
Definition ExecutePGGovernedDisclosed (inp : PGExecuteInput) (target : Z) (policies : option policy_reader) (w : W)
    : result pg_error PGDisclosedResult := (ExecutePGGovernedDisclosedOutcome inp target policies w).1.1.
End attempt.

(** ** Reasoning about attempts *)

(** Calls that carry neither the user's statement nor any cleanup. *)
Definition quiet_call (c : pg_call) : Prop :=
  match c with
  | CExec _ _ _ | CQuery _ _ | CRow _ _ | CPool _ | CAcquire _ | CParamProbe _ _ _ _ => True
  | _ => False
  end.

Lemma timed_quiet l : timed l → Forall quiet_call l.
Proof. induction 1; repeat constructor; done. Qed.

Section steps.
Context {W : Type}.

Lemma att_bind_ok {A B} (m : att W A) (f : A → att W B) a y a' :
  (m ≫= f) a = (Ok y, a') → ∃ x a1, m a = (Ok x, a1) ∧ f x a1 = (Ok y, a').
Proof. unfold mbind, att_bind. destruct (m a) as [[x|e] a1]; [eauto|done]. Qed.

Lemma lift_ok {A} (m : pg W A) a r a' :
  lift m a = (r, a') → ∃ s', m (pa_session a) = (r, s') ∧ a' = set_session s' a.
Proof. unfold lift. destruct (m _) as [r' s']. intros [= -> <-]. eauto. Qed.

(** Steps that leave an invariant true, on success and on failure. *)
Definition keeps (I : pgExecAttempt W → Prop) {A} (m : att W A) : Prop := ∀ a, I a → I (m a).2.

Lemma keeps_ret I {A} (x : A) : keeps I (mret x).
Proof. by intros a. Qed.
Lemma keeps_throw I {A} e : keeps I (att_throw (A := A) e).
Proof. by intros a. Qed.
Lemma keeps_of I {A} (r : result pg_error A) : keeps I (att_of r).
Proof. by intros a. Qed.
Lemma keeps_get I : keeps I get.
Proof. by intros a. Qed.
Lemma keeps_verify I {A} (r : result verify_error A) : keeps I (att_verify r).
Proof. intros a Ha. by destruct r. Qed.
Lemma keeps_bind I {A B} (m : att W A) (f : A → att W B) : keeps I m → (∀ x, keeps I (f x)) → keeps I (m ≫= f).
Proof.
  intros Hm Hf a Ha. specialize (Hm a Ha). unfold mbind, att_bind. destruct (m a) as [[x|e] a1]; [by apply Hf|done].
Qed.
Lemma keeps_if I {A} (b : bool) (m n : att W A) : keeps I m → keeps I n → keeps I (if b then m else n).
Proof. by destruct b. Qed.

(** Session steps that only make quiet calls. *)
Definition quiet {A} (m : pg W A) : Prop :=
  ∀ s, ∃ l, se_log (m s).2 = se_log s ++ l ∧ Forall quiet_call l.

Lemma quiet_ret {A} (x : A) : quiet (mret x).
Proof. intros s. exists []. by rewrite app_nil_r. Qed.
Lemma quiet_throw {A} e : quiet (throw (A := A) e).
Proof. intros s. exists []. by rewrite app_nil_r. Qed.
Lemma quiet_of {A} (r : result pg_error A) : quiet (of_result r).
Proof. intros s. exists []. by rewrite app_nil_r. Qed.
Lemma quiet_bind {A B} (m : pg W A) (f : A → pg W B) : quiet m → (∀ x, quiet (f x)) → quiet (m ≫= f).
Proof.
  intros Hm Hf s. destruct (Hm s) as (l1 & Hl1 & H1). unfold mbind, pg_bind. destruct (m s) as [[x|e] s1]; cbn in *; [|eauto].
  destruct (Hf x s1) as (l2 & Hl2 & H2). exists (l1 ++ l2). rewrite Hl2, Hl1, app_assoc. split; [done|by apply Forall_app].
Qed.
Lemma quiet_if {A} (b : bool) (m n : pg W A) : quiet m → quiet n → quiet (if b then m else n).
Proof. by destruct b. Qed.

(** An invariant of the attempt that quiet calls and other facts do not touch. *)
Definition log_of (a : pgExecAttempt W) : list pg_call := se_log (pa_session a).
Class Quiescent (I : pgExecAttempt W → Prop) : Prop :=
  quiescent a s l : I a → se_log s = log_of a ++ l → Forall quiet_call l → I (set_session s a).

Lemma keeps_lift I `{!Quiescent I} {A} (m : pg W A) : quiet m → keeps I (lift m).
Proof.
  intros Hm a Ha. unfold lift. destruct (Hm (pa_session a)) as (l & Hl & Hq). destruct (m _) as [r s]. cbn in *.
  by eapply quiescent.
Qed.
End steps.

Create HintDb keeps discriminated.
#[export] Hint Resolve keeps_ret keeps_throw keeps_of keeps_get keeps_verify keeps_bind keeps_if : keeps.
#[export] Hint Extern 1 (keeps _ (lift _)) => apply keeps_lift; [apply _|] : keeps.
#[export] Hint Resolve quiet_ret quiet_throw quiet_of quiet_bind quiet_if : keeps.

Section quiet.
Context {W : Type} `{!PGDriver W}.

Lemma quiet_ctx : quiet (ctx_err (W := W)).
Proof. intros s. unfold ctx_err. destruct (ps_ctx _). exists []. by rewrite app_nil_r. Qed.
Lemma quiet_now : quiet (now (W := W)).
Proof. intros s. unfold now. destruct (ps_now _). exists []. by rewrite app_nil_r. Qed.
Lemma quiet_exec sql args : quiet (exec (W := W) sql args).
Proof. intros s. unfold exec. destruct (ps_exec _ _ _) as [r w]. exists [CExec sql args r]. split; [done|by repeat constructor]. Qed.
Lemma quiet_query {R} (q : probe R) : quiet (query (W := W) q).
Proof. intros s. unfold query. destruct (ps_query _ _) as [r w]. exists [CQuery q r]. split; [done|by repeat constructor]. Qed.
Lemma quiet_arm deadline : quiet (arm (W := W) deadline).
Proof. unfold arm. apply quiet_bind; [apply quiet_now|]. intros t. case_match; [apply quiet_exec|apply quiet_throw]. Qed.
Lemma quiet_logged {A} (op : W → A * W) mk : (∀ r, quiet_call (mk r)) → quiet (logged op mk).
Proof. intros H s. unfold logged. destruct (op _) as [r w]. exists [mk r]. split; [done|by repeat constructor]. Qed.
Lemma quiet_logged_result {A} (op : W → result pg_error A * W) mk : (∀ r, quiet_call (mk r)) → quiet (logged_result op mk).
Proof. intros H s. unfold logged_result. destruct (op _) as [r w]. exists [mk r]. split; [done|by repeat constructor]. Qed.

(** The dialer's steps are not logged. *)
Lemma dial_silent {A} (m : pg W A) : (∀ s, se_log (m s).2 = se_log s) → ∀ mk : result pg_error A → pg_call,
  (∀ r, quiet_call (mk r)) → quiet (λ s, let '(r, s) := m s in (r, Session (se_world s) (se_log s ++ [mk r]))).
Proof.
  intros Hm mk Hmk s. specialize (Hm s). destruct (m s) as [r s']. cbn in *. exists [mk r]. rewrite Hm. split; [done|by repeat constructor].
Qed.

Lemma world_silent {A} (op : W → A * W) s : se_log (world op s).2 = se_log s.
Proof. unfold world. by destruct (op _). Qed.
Lemma world_result_silent {A} (op : W → result pg_error A * W) s : se_log (world_result op s).2 = se_log s.
Proof. unfold world_result. by destruct (op _). Qed.
Lemma bind_silent {A B} (m : pg W A) (f : A → pg W B) :
  (∀ s, se_log (m s).2 = se_log s) → (∀ x s, se_log (f x s).2 = se_log s) → ∀ s, se_log ((m ≫= f) s).2 = se_log s.
Proof.
  intros Hm Hf s. specialize (Hm s). unfold mbind, pg_bind. destruct (m s) as [[x|e] s1]; cbn in *; [|done]. by rewrite Hf.
Qed.
Lemma on_error_silent {A} (m : pg W A) h :
  (∀ s, se_log (m s).2 = se_log s) → (∀ e s, se_log (h e s).2 = se_log s) → ∀ s, se_log (on_error m h s).2 = se_log s.
Proof.
  intros Hm Hh s. specialize (Hm s). unfold on_error. destruct (m s) as [[x|e] s1]; cbn in *; [done|]. by rewrite Hh.
Qed.
Lemma acquire_silent s : se_log (acquire (W := W) s).2 = se_log s.
Proof.
  apply bind_silent; [apply world_result_silent|]. intros pid. apply bind_silent; [|done].
  apply bind_silent; [|intros v s'; by destruct (pgServerVersionSupported v)]. apply on_error_silent; [|done].
  apply bind_silent; [apply world_result_silent|done].
Qed.
Lemma open_silent cfg s : se_log (openPostgresPool (W := W) cfg s).2 = se_log s.
Proof.
  unfold openPostgresPool. destruct (negb cfg); [done|]. apply bind_silent; [apply world_silent|]. intros shell.
  destruct (negb shell); [done|]. apply bind_silent; [apply on_error_silent; [apply world_result_silent|done]|]. intros _.
  apply bind_silent; [|done]. apply on_error_silent; [apply acquire_silent|done].
Qed.
Lemma quiet_open_pool : quiet (open_pool (W := W)).
Proof. apply (dial_silent (openPostgresPool true)); [apply open_silent|done]. Qed.
Lemma quiet_acquire_conn : quiet (acquire_conn (W := W)).
Proof. apply (dial_silent acquire); [apply acquire_silent|done]. Qed.

Lemma quiet_gate deadline i order : (∀ m, order m ≡ₚ (map_to_list m).*2) → quiet (PGBind (W := W) deadline i order).
Proof.
  intros Ho s. pose proof (gs_PGBind deadline i order (se_log s) Ho s eq_refl) as H.
  destruct (PGBind deadline i order s) as [r s']. destruct H as (l & Hl & Ht & _). exists l. split; [done|by apply timed_quiet].
Qed.

Lemma quiet_derived deadline bind : quiet (collectDerivedIdentities (W := W) deadline bind).
Proof.
  unfold collectDerivedIdentities, pgCollectToastIdentities. apply quiet_if; [apply quiet_ret|]. apply quiet_if; [apply quiet_ret|].
  apply quiet_bind; [apply quiet_arm|]. intros _. apply quiet_bind; [apply quiet_query|]. intros a.
  apply quiet_bind; [apply quiet_of|]. intros toast. apply quiet_if; [apply quiet_ret|].
  apply quiet_bind; [apply quiet_arm|]. intros _. apply quiet_bind; [apply quiet_query|]. intros a'.
  apply quiet_bind; [apply quiet_of|]. intros. apply quiet_ret.
Qed.

Lemma quiet_read_rows fetchCount total taken kept rows : quiet (read_rows (W := W) fetchCount total taken kept rows).
Proof.
  revert total taken kept. induction rows as [|vals rows IH]; intros total taken kept; cbn [read_rows];
    (apply quiet_bind; [apply quiet_ctx|]; intros [c|]; try apply quiet_ret).
  apply quiet_if; [apply quiet_ret|]. destruct (copy_row total vals); [apply IH|apply quiet_ret].
Qed.

Lemma quiet_fail e : quiet (attempt_fail (W := W) e).
Proof. unfold attempt_fail. destruct (pe_Reject e); [apply quiet_ret|]. apply quiet_bind; [apply quiet_ctx|]. intros. apply quiet_ret. Qed.
End quiet.
#[export] Hint Resolve quiet_ctx quiet_now quiet_exec quiet_query quiet_arm quiet_open_pool quiet_acquire_conn quiet_derived
  quiet_read_rows quiet_fail : keeps.

(** ** The phases of an attempt *)

(** Calls made before the user's statement is dispatched. *)
Definition early_call (c : pg_call) : Prop :=
  quiet_call c ∨ match c with CBegin _ | CDescribe _ _ => True | _ => False end.

(** A call that put the user's statement on the wire was marked by the driver as
    never sent. *)
Definition unsent (c : pg_call) : Prop :=
  match c with
  | CResult _ _ t => ∃ n e, tp_close t n = Some e ∧ pe_SafeToRetry e = true
  | CDescribe _ r => ∃ e, r = Err e ∧ pe_SafeToRetry e = true
  | _ => True
  end.
Lemma quiet_unsent c : quiet_call c → unsent c.
Proof. by destruct c. Qed.
Lemma quiet_early c : quiet_call c → early_call c.
Proof. by left. Qed.
#[local] Hint Resolve quiet_unsent quiet_early : core.

Definition begun (l : list pg_call) : Prop := CBegin (Ok tt) ∈ l.
Lemma quiet_not_begun l : Forall quiet_call l → ¬ begun l.
Proof. intros H Hin. rewrite Forall_forall in H. by specialize (H _ Hin). Qed.

Section phases.
Context {W : Type} `{!PGDriver W}.

(** Nothing of the user's statement was executed. *)
Record before_send (a : pgExecAttempt W) : Prop := {
  bs_fate : pa_stmtFate a = pgStmtUnsent;
  bs_early : Forall early_call (log_of a);
  bs_unsent : pa_describeSent a = false → Forall unsent (log_of a);
}.
Definition tx_matches (a : pgExecAttempt W) : Prop := pa_tx a = true ↔ begun (log_of a).

(** An error of the reader's own is neither the server's nor a retry mark. *)
Definition local_error (e : option pg_error) : Prop := server_error e = false ∧ safe_to_retry e = false.

(** The statement was dispatched once, and its fate is what the reader saw. *)
Record sent (sql : bytes) (values : list (option bytes)) (a : pgExecAttempt W) : Prop := {
  se_shape : ∃ l1 t l2 taken readErr,
    log_of a = l1 ++ CResult sql values t :: l2 ∧ Forall early_call l1 ∧ Forall quiet_call l2
    ∧ local_error readErr
    ∧ pa_stmtFate a = pgStmtFateAfterRead readErr (tp_close t taken)
    ∧ (pa_describeSent a = false → Forall unsent l1);
}.

Definition idle (a : pgExecAttempt W) : Prop := before_send a ∧ pa_describeSent a = false ∧ pa_tx a = false ∧ ¬ begun (log_of a).
Definition fresh (a : pgExecAttempt W) : Prop := before_send a ∧ pa_describeSent a = false ∧ tx_matches a.
Definition live (a : pgExecAttempt W) : Prop := before_send a ∧ tx_matches a.
(** [P] is what is known of the statement and its values. *)
Definition settled (P : bytes → list (option bytes) → Prop) (a : pgExecAttempt W) : Prop :=
  (before_send a ∨ ∃ sql values, P sql values ∧ sent sql values a) ∧ tx_matches a.

Lemma before_send_quiet a s l :
  before_send a → se_log s = log_of a ++ l → Forall quiet_call l → before_send (set_session s a).
Proof.
  intros [H1 H2 H3] Hl Hq. split; [done|unfold log_of; cbn; rewrite Hl|unfold log_of; cbn; rewrite Hl].
  - apply Forall_app. split; [done|]. eapply Forall_impl; eauto.
  - intros Hd. apply Forall_app. split; [by apply H3|]. eapply Forall_impl; eauto.
Qed.
Lemma begun_quiet (a : pgExecAttempt W) s l : se_log s = log_of a ++ l → Forall quiet_call l → begun (log_of (set_session s a)) ↔ begun (log_of a).
Proof.
  intros Hl Hq. unfold begun, log_of at 1. cbn. rewrite Hl, elem_of_app. split; [|by left].
  intros [?|Hin]; [done|]. by apply quiet_not_begun in Hin.
Qed.
#[export] Instance idle_quiescent : Quiescent idle.
Proof.
  intros a s l (H1 & H2 & H3 & H4) Hl Hq. split; [by eapply before_send_quiet|]. split; [done|]. split; [done|]. by rewrite begun_quiet.
Qed.
#[export] Instance fresh_quiescent : Quiescent fresh.
Proof.
  intros a s l (H1 & H2 & H3) Hl Hq. split; [by eapply before_send_quiet|]. split; [done|]. unfold tx_matches in *. by rewrite begun_quiet.
Qed.
#[export] Instance live_quiescent : Quiescent live.
Proof.
  intros a s l (H1 & H2) Hl Hq. split; [by eapply before_send_quiet|]. unfold tx_matches in *. by rewrite begun_quiet.
Qed.
#[export] Instance settled_quiescent P : Quiescent (settled P).
Proof.
  intros a s l (H1 & H2) Hl Hq. split; [|unfold tx_matches in *; by rewrite begun_quiet].
  destruct H1 as [H1|(sql & vs & HP & [(l1 & t & l2 & taken & re & Hlog & He & H)])]; [left; by eapply before_send_quiet|right].
  exists sql, vs. split; [done|]. split. exists l1, t, (l2 ++ l), taken, re. unfold log_of. cbn. rewrite Hl, Hlog, <- app_assoc. split; [done|].
  split; [done|]. split; [apply Forall_app; split; [apply H|done]|apply H].
Qed.

Lemma keeps_enter I stage : (∀ a, I a → I (set_stage stage a)) → keeps I (enter (W := W) stage).
Proof. intros H a. apply H. Qed.
Lemma idle_stage stage a : idle a → idle (set_stage stage a).
Proof. intros ([] & ?). split; [by split|done]. Qed.
Lemma fresh_stage stage a : fresh a → fresh (set_stage stage a).
Proof. intros ([] & ?). split; [by split|done]. Qed.
Lemma live_stage stage a : live a → live (set_stage stage a).
Proof. by intros ([] & ?). Qed.
Lemma settled_stage P stage a : settled P a → settled P (set_stage stage a).
Proof. intros ([[]|(sql & vs & HP & [H])] & ?); (split; [|done]); [left; by split|right; exists sql, vs; by repeat split]. Qed.

Lemma keeps_check I `{!Quiescent I} : keeps I (check_ctx (W := W)).
Proof. apply keeps_bind; [apply keeps_lift; auto with keeps|]. intros [c|]; auto with keeps. Qed.
End phases.
#[export] Hint Resolve keeps_enter idle_stage fresh_stage live_stage settled_stage keeps_check : keeps.

Section phase_steps.
Context {W : Type} `{!PGDriver W} (fe : pg_frontend W).
Hypothesis rewrite_quiet : ∀ st pinned g r page, quiet (fe_rewrite fe st pinned g r page).
Hypothesis order_walks : ∀ m, fe_order fe m ≡ₚ (map_to_list m).*2.

Definition moves (I J : pgExecAttempt W → Prop) {A} (m : att W A) : Prop := ∀ a, I a → J (m a).2.

Lemma moves_bind I J K {A B} (m : att W A) (f : A → att W B) :
  (∀ a, I a → let '(r, a') := m a in match r with Ok _ => J a' | Err _ => K a' end) → (∀ x, moves J K (f x)) →
  moves I K (m ≫= f).
Proof.
  intros Hm Hf a Ha. specialize (Hm a Ha). unfold mbind, att_bind. destruct (m a) as [[x|e] a1]; [by apply Hf|done].
Qed.
Lemma keeps_then I K {A} (m : att W A) :
  keeps I m → (∀ a, I a → K a) → ∀ a, I a → let '(r, a') := m a in match r with Ok _ => I a' | Err _ => K a' end.
Proof. intros Hm HK a Ha. specialize (Hm a Ha). destruct (m a) as [[x|e] a']; cbn in *; auto. Qed.

Lemma moves_both I J {A} (m : att W A) :
  moves I J m → ∀ a, I a → let '(r, a') := m a in match r with Ok _ => J a' | Err _ => J a' end.
Proof. intros Hm a Ha. specialize (Hm a Ha). by destruct (m a) as [[] a']. Qed.

Lemma idle_fresh (a : pgExecAttempt W) : idle a → fresh a.
Proof. intros (H & Hd & Ht & Hb). split; [done|]. split; [done|]. unfold tx_matches. rewrite Ht. split; [done|]. by intros ?%Hb. Qed.
Lemma fresh_live (a : pgExecAttempt W) : fresh a → live a.
Proof. intros (? & ? & ?). by split. Qed.
Lemma live_settled P (a : pgExecAttempt W) : live a → settled P a.
Proof. intros [? ?]. split; [by left|done]. Qed.
Hint Resolve idle_fresh fresh_live live_settled : keeps.

Lemma begin_step a : idle a →
  let '(r, a') := lift driver_begin a in
  match r with Ok _ => fresh (set_resources true true a') | Err _ => fresh a' end.
Proof.
  intros ([H1 H2 H3] & Hd & Ht & Hb). unfold lift, driver_begin, logged_result. destruct (dv_begin _) as [r w].
  assert (Forall early_call (log_of a ++ [CBegin r])) as He by (apply Forall_app; split; [done|by repeat constructor; right]).
  assert (pa_describeSent a = false → Forall unsent (log_of a ++ [CBegin r])) as Hu
    by (intros _; apply Forall_app; split; [by apply H3|by repeat constructor]).
  destruct r as [[]|e]; (split; [by split|]; split; [done|]); unfold tx_matches; cbn.
  - split; [|done]. intros _. unfold begun, log_of. cbn. apply elem_of_app. right. by left.
  - rewrite Ht. split; [done|]. unfold begun, log_of. cbn. rewrite elem_of_app, list_elem_of_singleton. by intros [?%Hb|[=]].
Qed.

Lemma open_moves deadline pinned : moves idle fresh (openExecution (W := W) deadline pinned).
Proof.
  unfold openExecution.
  apply (moves_bind idle idle); [apply keeps_then; auto with keeps|]. intros ?.
  apply (moves_bind idle idle); [apply keeps_then; auto with keeps|]. intros pid.
  apply (moves_bind idle idle); [intros a ([] & ? & ? & ?); split; [by split|done]|]. intros ?.
  apply (moves_bind idle (λ a, fresh (set_resources true true a))); [apply begin_step|]. intros ?.
  apply (moves_bind _ fresh); [by intros a Ha|]. intros ?.
  change (keeps fresh (_ ← lift (exec search_path_sql [pgQuoteIdent pinned ++ gs ",pg_catalog"]);
                      _ ← lift (exec timezone_sql []); lift (arm (W := W) deadline))).
  apply keeps_bind; [auto with keeps|]. intros ?. apply keeps_bind; [auto with keeps|]. intros ?. auto with keeps.
Qed.

Lemma identity_keeps deadline : keeps fresh (readTransactionIdentity (W := W) deadline).
Proof.
  unfold readTransactionIdentity. apply keeps_bind; [auto with keeps|]. intros _. apply keeps_bind; [auto with keeps|]. intros ans.
  apply keeps_bind; [auto with keeps|]. intros [|[[pid vxid] [start|]] [|? ?]]; auto with keeps.
  apply keeps_if; [auto with keeps|]. intros a ([] & ?). split; [by split|done].
Qed.

Lemma unless_spent_keeps I `{!Quiescent I} {A} e : keeps I (unless_spent (W := W) (A := A) e).
Proof. unfold unless_spent. apply keeps_bind; [auto with keeps|]. intros. apply keeps_throw. Qed.

(** The describe step: its mark is set before the call and cleared only by the driver's. *)
Lemma describe_step sql a : fresh a →
  let '(r, a') := lift (driver_describe sql) (set_describe true a) in
  match r with Ok _ => live a' | Err e => live (if pe_SafeToRetry e then set_describe false a' else a') end.
Proof.
  intros ([H1 H2 H3] & Hd & Ht). unfold lift, driver_describe, logged_result. destruct (dv_describe sql _) as [r w].
  assert (Forall early_call (log_of a ++ [CDescribe sql r])) as He by (apply Forall_app; split; [done|by repeat constructor; right]).
  assert (∀ b, tx_matches (set_describe b (set_session (Session w (log_of a ++ [CDescribe sql r])) a))) as Htx.
  { intros b. unfold tx_matches, begun, log_of in *. cbn. rewrite elem_of_app, list_elem_of_singleton, Ht. split; [by left|by intros [?|[=]]]. }
  destruct r as [oids|e]; [split; [by split|apply (Htx true)]|]. destruct (pe_SafeToRetry e) eqn:Es.
  - split; [|apply (Htx false)]. split; [done|done|]. cbn. intros _. apply Forall_app. split; [by apply H3|].
    repeat constructor. by exists e.
  - split; [by split|apply (Htx true)].
Qed.

(** After the describe: the inferred types, then the fixed probe. *)
Lemma probe_keeps deadline values (oids : list Z) : keeps live
  (if negb (length oids =? length values)%nat then att_throw (wrap IsEvidence)
   else if existsb (λ oid, (oid =? 0)%Z) oids then att_throw (wrap IsEvidence)
   else
     _ ← lift (arm (W := W) deadline);
     t ← lift (driver_probe (buildPGParameterProbeSQL (length values)) values oids);
     let produced := (0 <? length (tp_rows t))%nat in
     let closeErr := tp_close t (if produced then 1 else 0) in
     match (if produced then Some (wrap IsEvidence) else closeErr) with
     | Some e => classifyPGParameterProbeError e
     | None => mret tt
     end).
Proof.
  apply keeps_if; [auto with keeps|]. apply keeps_if; [auto with keeps|].
  apply keeps_bind; [auto with keeps|]. intros ?. apply keeps_bind.
  { apply keeps_lift; [apply _|]. by apply quiet_logged. }
  intros t. cbv zeta. destruct (if (0 <? length (tp_rows t))%nat then _ else _) as [e|]; [apply unless_spent_keeps, _|auto with keeps].
Qed.

Lemma validate_moves deadline values sql : moves fresh live (validatePGParameterInputs (W := W) deadline values sql).
Proof.
  unfold validatePGParameterInputs.
  apply (moves_bind fresh fresh); [apply keeps_then; auto with keeps|]. intros ? a Ha.
  unfold mbind at 1, att_bind at 1, modify. unfold mbind at 1, att_bind at 1.
  pose proof (describe_step (pgParameterDescribePrefix ++ sql) a Ha) as Hd.
  destruct (lift _ (set_describe true a)) as [[oids|e] a1]; [by apply probe_keeps|].
  assert (∀ a', live a' → live (classifyPGParameterDescribeError (A := list Z) e a').2) as Hc
    by (intros a' Ha'; by apply (unless_spent_keeps live)).
  specialize (Hc _ Hd). destruct (classifyPGParameterDescribeError e _) as [[oids|e'] a2]; [by apply probe_keeps|done].
Qed.

Lemma parameter_moves deadline values sql : moves fresh live (parameter_step (W := W) deadline values sql).
Proof.
  unfold parameter_step. destruct (_ =? 0)%nat; [by intros a ?%fresh_live|].
  apply (moves_bind fresh fresh); [apply keeps_then; auto with keeps|]. intros ?.
  apply (moves_bind fresh live); [|intros ?; apply keeps_check, _].
  intros a Ha. pose proof (validate_moves deadline values sql a Ha) as H. by destruct (validatePGParameterInputs _ _ _ a) as [[[]|e] a'].
Qed.

Lemma preflight_keeps disc database rw bind : keeps fresh (preflight (W := W) disc database rw bind).
Proof.
  unfold preflight. destruct disc as [reader|]; [|auto with keeps].
  apply keeps_bind; [auto with keeps|]. intros ?. apply keeps_bind; [auto with keeps|]. intros plan.
  apply keeps_bind; [apply keeps_check, _|]. intros. auto with keeps.
Qed.

Lemma prepare_moves deadline inp disc : moves idle live (prepare fe deadline inp disc).
Proof.
  unfold prepare.
  apply (moves_bind idle idle); [apply keeps_then; [apply keeps_check, _|auto with keeps]|]. intros ?.
  do 3 (apply (moves_bind idle idle); [apply keeps_then; auto with keeps|]; intros ?).
  apply (moves_bind idle idle); [apply keeps_then; auto with keeps|]. intros ?.
  do 2 (apply (moves_bind idle idle); [apply keeps_then; auto with keeps|]; intros ?).
  apply (moves_bind idle idle); [apply keeps_then; [apply keeps_check, _|auto with keeps]|]. intros ?.
  apply (moves_bind idle idle); [apply keeps_then; auto with keeps|]. intros ?.
  apply (moves_bind idle fresh).
  { intros a Ha. pose proof (open_moves deadline (xi_PinnedSchema inp) a Ha) as H.
    destruct (openExecution _ _ a) as [[]  a']; [done|by apply fresh_live]. }
  intros ?. apply (moves_bind fresh fresh); [apply keeps_then; auto with keeps|]. intros ?.
  apply (moves_bind fresh fresh); [apply keeps_then; [apply identity_keeps|auto with keeps]|]. intros ?.
  apply (moves_bind fresh fresh); [apply keeps_then; auto with keeps|]. intros ?.
  apply (moves_bind fresh fresh); [apply keeps_then; [apply keeps_lift; [apply _|by apply quiet_gate]|auto with keeps]|]. intros bind.
  apply (moves_bind fresh fresh); [apply keeps_then; auto with keeps|]. intros derived.
  apply (moves_bind fresh fresh); [apply keeps_then; [apply keeps_check, _|auto with keeps]|]. intros ?.
  apply (moves_bind fresh fresh); [apply keeps_then; auto with keeps|]. intros ?.
  apply (moves_bind fresh fresh); [apply keeps_then; auto with keeps|]. intros [rw win].
  apply (moves_bind fresh fresh); [apply keeps_then; [apply keeps_check, _|auto with keeps]|]. intros ?.
  apply (moves_bind fresh fresh); [apply keeps_then; auto with keeps|]. intros ?.
  apply (moves_bind fresh fresh); [apply keeps_then; [apply preflight_keeps|auto with keeps]|]. intros dplan.
  apply (moves_bind fresh live); [apply moves_both, parameter_moves|by intros ? a].
Qed.

End phase_steps.
#[export] Hint Resolve idle_fresh fresh_live live_settled : keeps.

(** ** The dispatch *)

Definition row_bytes (row : list (option bytes)) : Z := foldr (λ c n, Z.of_nat (length (default [] c)) + n)%Z 0%Z row.
Definition result_bytes (rows : text_rows) : Z := foldr (λ row n, row_bytes row + n)%Z 0%Z rows.

Lemma row_bytes_nonneg row : (0 <= row_bytes row)%Z.
Proof. induction row; cbn [row_bytes foldr]; [lia|]. unfold row_bytes in *. lia. Qed.

(** A row fits when all of its bytes do. *)
Lemma copy_row_spec total vals : (total <= pgMaxResultBytes)%Z →
  copy_row total vals = if (total + row_bytes vals <=? pgMaxResultBytes)%Z then Some (total + row_bytes vals)%Z else None.
Proof.
  revert total. induction vals as [|[v|] vals IH]; intros total Ht; cbn [copy_row].
  - cbn. rewrite Z.add_0_r. by rewrite (proj2 (Z.leb_le _ _)).
  - pose proof (row_bytes_nonneg vals). change (row_bytes (Some v :: vals)) with (Z.of_nat (length v) + row_bytes vals)%Z.
    case_match; [by rewrite (proj2 (Z.leb_gt _ _)) by lia|]. rewrite IH by lia. by rewrite Z.add_assoc.
  - by rewrite IH.
Qed.

Section reading.
Context {W : Type} `{!PGDriver W}.

(** A reader that reports no error took every row, within both limits. *)
Lemma read_rows_complete fetchCount total taken kept rows (s s' : session W) out n :
  read_rows fetchCount total taken kept rows s = (Ok (out, None, n), s') →
  (total <= pgMaxResultBytes)%Z → (Z.of_nat (length kept) <= Z.max 0 fetchCount)%Z →
  out = kept ++ rows ∧ n = taken + length rows ∧ (total + result_bytes rows <= pgMaxResultBytes)%Z
  ∧ (Z.of_nat (length out) <= Z.max 0 fetchCount)%Z.
Proof.
  revert s total taken kept. induction rows as [|vals rows IH]; intros s total taken kept; cbn [read_rows];
    unfold mbind, pg_bind, ctx_err; destruct (ps_ctx _) as [[c|] w]; intros H Ht Hk; try done.
  - injection H as <- <- <-. rewrite app_nil_r. cbn. split; [done|]. split; [lia|]. split; lia.
  - destruct (fetchCount <=? _)%Z eqn:Ef; [done|]. rewrite copy_row_spec in H by done.
    destruct (total + _ <=? _)%Z eqn:Eb; [|done]. apply IH in H as (-> & -> & Hb & Hn); [|lia|rewrite length_app; cbn; lia].
    rewrite <- app_assoc. cbn [result_bytes foldr length]. unfold result_bytes in *. split; [done|]. split; [lia|]. split; [lia|].
    by rewrite <- app_assoc in Hn.
Qed.

Lemma read_rows_local fetchCount total taken kept rows (s : session W) :
  ∃ out e n, (read_rows fetchCount total taken kept rows s).1 = Ok (out, e, n) ∧ local_error e.
Proof.
  revert s total taken kept. induction rows as [|vals rows IH]; intros s total taken kept; cbn [read_rows];
    unfold mbind, pg_bind, ctx_err; destruct (ps_ctx _) as [[c|] w]; try (by eexists _, _, _).
  destruct (fetchCount <=? _)%Z; [by eexists _, _, _|]. destruct (copy_row total vals) as [total'|]; [apply IH|by eexists _, _, _].
Qed.

Lemma read_result_spec t win (s : session W) :
  ∃ out e n l, (read_result t win s).1 = Ok (out, e, n) ∧ local_error e
  ∧ se_log (read_result t win s).2 = se_log s ++ l ∧ Forall quiet_call l
  ∧ (e = None → out = tp_rows t ∧ n = length (tp_rows t) ∧ (result_bytes out <= pgMaxResultBytes)%Z
       ∧ (Z.of_nat (length out) <= Z.max 0 (pw_FetchCount win))%Z ∧ (Z.of_nat (length (tp_fds t)) <= pgMaxTransportColumns)%Z).
Proof.
  unfold read_result. destruct (_ <? _)%Z eqn:Ec.
  - eexists _, _, _, []. rewrite app_nil_r. by repeat split.
  - destruct (read_rows_local (pw_FetchCount win) 0 0 [] (tp_rows t) s) as (out & e & n & Hr & Hloc).
    destruct (quiet_read_rows (pw_FetchCount win) 0 0 [] (tp_rows t) s) as (l & Hl & Hq).
    exists out, e, n, l. split; [done|]. split; [done|]. split; [done|]. split; [done|]. intros ->.
    destruct (read_rows _ _ _ _ _ s) as [r s'] eqn:E. cbn in Hr. subst r.
    apply read_rows_complete in E as (-> & -> & Hb & Hn); [|done|cbn; lia]. cbn [app] in *. repeat split; [lia|done|lia].
Qed.

(** What a dispatch leaves: one call, and the fate its reader and its closing tell. *)
Lemma dispatch_spec sql values win (a : pgExecAttempt W) :
  ∃ t l s readErr n rows,
    let closeErr := tp_close t n in
    dispatch sql values win a =
      (match readErr, closeErr with
       | Some e, _ | None, Some e => Err (classifyTransportError e)
       | None, None => Ok (tp_fds t, rows)
       end, set_fate (pgStmtFateAfterRead readErr closeErr) (set_session s a))
    ∧ se_log s = log_of a ++ CResult sql values t :: l ∧ Forall quiet_call l ∧ local_error readErr
    ∧ (readErr = None → rows = tp_rows t ∧ n = length (tp_rows t) ∧ (result_bytes rows <= pgMaxResultBytes)%Z
       ∧ (Z.of_nat (length rows) <= Z.max 0 (pw_FetchCount win))%Z ∧ (Z.of_nat (length (tp_fds t)) <= pgMaxTransportColumns)%Z).
Proof.
  unfold dispatch, mbind, att_bind, modify, lift, driver_result, logged. cbn [set_fate pa_session].
  destruct (dv_exec_params sql values [] _) as [t w].
  destruct (read_result_spec t win (Session w (log_of a ++ [CResult sql values t]))) as (rows & e & n & l & Hr & Hloc & Hl & Hq & Hok).
  cbn [set_session pa_session]. fold (log_of a). destruct (read_result t win _) as [r s]. cbn in Hr, Hl. subst r.
  exists t, l, s, e, n, rows. rewrite <- app_assoc in Hl. split; [|done]. by destruct e as [e|]; [|destruct (tp_close t n)].
Qed.

Lemma execute_moves (P : bytes → list (option bytes) → Prop) deadline sql values win :
  P sql values → moves live (settled P) (executeAndMaterialize (W := W) deadline sql values win).
Proof.
  intros HP. unfold executeAndMaterialize. apply (moves_bind live live); [apply keeps_then; auto with keeps|].
  intros ? a [[H1 H2 H3] Ht]. destruct (dispatch_spec sql values win a) as (t & l & s & e & n & rows & -> & Hl & Hq & Hloc & _).
  assert (log_of (set_session s a) = log_of a ++ CResult sql values t :: l) as Hlog by done. split.
  - right. exists sql, values. split; [done|]. split. exists (log_of a), t, l, n, e. by rewrite <- Hlog.
  - unfold tx_matches in *. change (pa_tx _) with (pa_tx a). rewrite Ht. change (log_of (_, _).2) with (se_log s).
    rewrite Hl. unfold begun. rewrite elem_of_app, elem_of_cons. split; [by left|].
    intros [?|[?|?]]; [done..|]. exfalso. by eapply quiet_not_begun.
Qed.
End reading.

(** ** The attempt as a whole *)

Section runs.
Context {W : Type} `{!PGDriver W} (fe : pg_frontend W).
Hypothesis rewrite_quiet : ∀ st pinned g r page, quiet (fe_rewrite fe st pinned g r page).
Hypothesis order_walks : ∀ m, fe_order fe m ≡ₚ (map_to_list m).*2.

Lemma audit_keeps I `{!Quiescent I} deadline bind derived : keeps I (auditLockSet (W := W) deadline bind derived).
Proof.
  unfold auditLockSet. apply keeps_bind; [auto with keeps|]. intros a. apply keeps_if; [auto with keeps|].
  do 3 (apply keeps_bind; [auto with keeps|]; intros ?). case_match; [|auto with keeps].
  do 2 (apply keeps_bind; [apply keeps_lift; [done|]; by apply quiet_logged_result|]; intros ?).
  apply keeps_bind; [auto with keeps|]. intros observed. case_match; auto with keeps.
Qed.

Lemma deliver_keeps I `{!Quiescent I} rw win bind fds rows : keeps I (deliver fe rw win bind fds rows).
Proof.
  unfold deliver. apply keeps_bind; [auto with keeps|]. intros page. apply keeps_bind; [auto with keeps|]. intros [[cols out] marks].
  apply keeps_bind; [apply keeps_check, _|]. auto with keeps.
Qed.

(** Steps that neither open nor give up the transaction and its connection. *)
Definition holding {A} (m : att W A) : Prop := ∀ a, pa_tx (m a).2 = pa_tx a ∧ pa_conn (m a).2 = pa_conn a.

Lemma holding_ret {A} (x : A) : holding (mret x). Proof. done. Qed.
Lemma holding_throw {A} e : holding (att_throw (A := A) e). Proof. done. Qed.
Lemma holding_of {A} (r : result pg_error A) : holding (att_of r). Proof. done. Qed.
Lemma holding_verify {A} (r : result verify_error A) : holding (att_verify r). Proof. by destruct r. Qed.
Lemma holding_enter stage : holding (enter stage). Proof. done. Qed.
Lemma holding_get : holding get. Proof. done. Qed.
Lemma holding_lift {A} (m : pg W A) : holding (lift m).
Proof. intros a. unfold lift. by destruct (m _). Qed.
Lemma holding_bind {A B} (m : att W A) (f : A → att W B) : holding m → (∀ x, holding (f x)) → holding (m ≫= f).
Proof.
  intros Hm Hf a. specialize (Hm a). unfold mbind, att_bind. destruct (m a) as [[x|e] a1]; cbn in *; [|done].
  destruct (Hf x a1) as [-> ->]. done.
Qed.
Lemma holding_if {A} (b : bool) (m n : att W A) : holding m → holding n → holding (if b then m else n).
Proof. by destruct b. Qed.
Create HintDb holding discriminated.
Hint Resolve holding_ret holding_throw holding_of holding_verify holding_enter holding_get holding_lift holding_bind holding_if : holding.

Ltac holding := repeat first [progress auto with holding|apply holding_bind; [|intros ?]|apply holding_if|case_match].

Lemma holding_check : holding check_ctx.
Proof. unfold check_ctx. holding. Qed.
Hint Resolve holding_check : holding.
Lemma holding_identity deadline : holding (readTransactionIdentity deadline).
Proof. unfold readTransactionIdentity. holding. Qed.
Lemma holding_preflight disc database rw bind : holding (preflight disc database rw bind).
Proof. unfold preflight. holding. Qed.
Lemma holding_spent {A} e : holding (unless_spent (A := A) e).
Proof. unfold unless_spent. holding. Qed.
Lemma holding_describe_error {A} e : holding (classifyPGParameterDescribeError (A := A) e).
Proof. apply holding_spent. Qed.
Lemma holding_validate deadline values sql : holding (validatePGParameterInputs deadline values sql).
Proof.
  unfold validatePGParameterInputs. do 2 (apply holding_bind; [done||auto with holding|]; intros ?). apply holding_bind.
  { intros a. pose proof (holding_lift (driver_describe (pgParameterDescribePrefix ++ sql)) a) as H.
    destruct (lift _ a) as [[oids|e] a1]; [done|]. cbn [snd] in H. rewrite <- (proj1 H), <- (proj2 H).
    destruct (holding_describe_error (A := list Z) e (if pe_SafeToRetry e then set_describe false a1 else a1)) as [-> ->].
    by destruct (pe_SafeToRetry e). }
  intros oids. cbv zeta. pose proof @holding_spent. holding.
Qed.
Lemma holding_parameters deadline values sql : holding (parameter_step deadline values sql).
Proof. unfold parameter_step. pose proof holding_validate. holding. Qed.
Lemma holding_execute deadline sql values win : holding (executeAndMaterialize deadline sql values win).
Proof.
  unfold executeAndMaterialize. apply holding_bind; [auto with holding|]. intros ? a.
  by destruct (dispatch_spec sql values win a) as (t & l & s & e & n & rows & -> & _).
Qed.
Lemma holding_audit deadline bind derived : holding (auditLockSet deadline bind derived).
Proof. unfold auditLockSet. holding. Qed.
Lemma holding_deliver rw win bind fds rows : holding (deliver fe rw win bind fds rows).
Proof. unfold deliver. holding. Qed.
Hint Resolve holding_identity holding_preflight holding_parameters holding_execute holding_audit holding_deliver : holding.

(** An opened execution holds its transaction to the end of the body. *)
Lemma open_holds deadline pinned a a' : openExecution deadline pinned a = (Ok tt, a') → pa_tx a' = true ∧ pa_conn a' = true.
Proof.
  unfold openExecution. intros (? & ? & _ & (? & ? & _ & (? & ? & _ & (? & ? & _ & ([] & a1 & Hr & H)%att_bind_ok)%att_bind_ok)%att_bind_ok)%att_bind_ok)%att_bind_ok.
  injection Hr as <-.
  match type of H with ?m _ = _ => assert (holding m) as Hh end; [do 2 (apply holding_bind; [auto with holding|]; intros ?); auto with holding|].
  match type of H with _ ?b = _ => specialize (Hh b) end. by rewrite H in Hh.
Qed.

(** Everything [prepare] established. *)
Record prepared (deadline : Z) (inp : PGExecuteInput) (disc : option policy_reader) (bind : PGBindResult)
    (rw : RewriteResult) (win : PageWindow) (dplan : option pgDisclosurePlan) (values : list (option bytes))
    (gr : fe_guard fe) (plan : option pgParameterPlan) (nav : option pgNavigationBinding) : Prop := {
  pp_guarded : fe_GuardPG fe (xi_Statement inp) = Ok gr;
  pp_planned : snapshotPGParameterPlan (xi_parameters inp) (xi_Statement inp) = Ok plan;
  pp_values : values = match plan with Some p => wireValues p | None => [] end;
  pp_navigated : snapshotPGNavigationBinding (xi_navigation inp) = Ok nav;
  pp_agree : check_navigation plan nav (xi_Statement inp) = Ok tt;
  pp_params : ValidateParameterBindings (fe_intact fe gr) (fe_params fe gr) (Z.of_nat (length values)) = Ok tt;
  pp_bound : ∃ s s', PGBind deadline (BindInput true (xi_Database inp) (xi_PinnedSchema inp) (Some (fe_refs fe gr))
                       (xi_requirePinnedSchema inp) nav) (fe_order fe) s = (Ok bind, s');
  pp_rewritten : ∃ s s', fe_rewrite fe (xi_Statement inp) (xi_PinnedSchema inp) gr (bd_Resolver bind) (xi_Page inp) s
                         = (Ok (rw, win), s');
  pp_layout : verifyPGExpectedLayout (Some rw) (Some (bound_of bind)) = Ok tt;
  pp_disclosure : match disc with
    | None => dplan = None
    | Some reader => ∃ p, dplan = Some p ∧ resolvePGDisclosurePlan reader (xi_Database inp) (Some rw) (Some (bound_of bind)) = Ok p
    end;
}.

Lemma att_of_ok {A} (r : result pg_error A) (a a' : pgExecAttempt W) x : att_of r a = (Ok x, a') → r = Ok x.
Proof. by intros [= ->]. Qed.
Lemma att_verify_ok {A} (r : result verify_error A) (a a' : pgExecAttempt W) x : att_verify r a = (Ok x, a') → r = Ok x.
Proof. destruct r; [by intros [= ->]|done]. Qed.
Lemma disclosure_resolved disc database rw bind (a a' : pgExecAttempt W) dplan :
  preflight disc database rw bind a = (Ok dplan, a') →
  match disc with
  | None => dplan = None
  | Some reader => ∃ plan, dplan = Some plan ∧ resolvePGDisclosurePlan reader database (Some rw) (Some (bound_of bind)) = Ok plan
  end.
Proof.
  unfold preflight. destruct disc as [reader|]; [|by intros [= <-]].
  intros (? & ? & _ & (plan & ? & Hp%att_of_ok & (? & ? & _ & [= <- _])%att_bind_ok)%att_bind_ok)%att_bind_ok. eauto.
Qed.

Lemma prepare_ok deadline inp disc a a' bind derived rw win dplan values :
  prepare fe deadline inp disc a = (Ok (bind, derived, rw, win, dplan, values), a') →
  (∃ gr plan nav, prepared deadline inp disc bind rw win dplan values gr plan nav) ∧ pa_tx a' = true.
Proof.
  unfold prepare. intros (? & ? & _ & H)%att_bind_ok.
  apply att_bind_ok in H as (plan & ? & Hplan%att_of_ok & H). apply att_bind_ok in H as (nav & ? & Hnav%att_of_ok & H).
  apply att_bind_ok in H as ([] & ? & Hagree%att_of_ok & H). cbv zeta in H. apply att_bind_ok in H as (? & ? & _ & H).
  apply att_bind_ok in H as (gr & ? & Hg%att_of_ok & H). apply att_bind_ok in H as ([] & ? & Hparams%att_of_ok & H).
  do 2 (apply att_bind_ok in H as (? & ? & _ & H)). apply att_bind_ok in H as ([] & ? & [Htx _]%open_holds & H).
  assert (pa_tx a' = true) as Ha'.
  { match type of H with ?m ?b = _ => assert (holding m) as Hh by holding; specialize (Hh b) end. rewrite H in Hh. by destruct Hh as [Hh _]; cbn in Hh; rewrite Hh. }
  do 3 (apply att_bind_ok in H as (? & ? & _ & H)).
  apply att_bind_ok in H as (bind' & ? & (? & Hb & _)%lift_ok & H).
  do 3 (apply att_bind_ok in H as (? & ? & _ & H)).
  apply att_bind_ok in H as ([rw' win'] & ? & (? & Hrw & _)%lift_ok & H). apply att_bind_ok in H as (? & ? & _ & H).
  apply att_bind_ok in H as ([] & ? & Hlay%att_verify_ok & H). apply att_bind_ok in H as (dplan' & ? & Hd%disclosure_resolved & H).
  apply att_bind_ok in H as (? & ? & _ & H). injection H as <- _ <- <- <- <- _.
  split; [|done]. exists gr, plan, nav. split; eauto.
Qed.

(** A dispatched statement is the rewriter's, with the plan's values, and its preparation is complete. *)
Definition authorised (deadline : Z) (inp : PGExecuteInput) (disc : option policy_reader) (sql : bytes) (values : list (option bytes)) : Prop :=
  ∃ bind rw win dplan gr plan nav, sql = rw_SQL rw ∧ prepared deadline inp disc bind rw win dplan values gr plan nav.

Lemma body_moves deadline inp disc : moves idle (settled (authorised deadline inp disc)) (attempt_body fe deadline inp disc).
Proof.
  intros a Ha. unfold attempt_body, mbind at 1, att_bind at 1.
  pose proof (prepare_moves fe rewrite_quiet order_walks deadline inp disc a Ha) as Hp.
  destruct (prepare _ _ _ _ a) as [[[[[[[bind derived] rw] win] dplan] values]|e] a1] eqn:E; [|by apply live_settled].
  apply prepare_ok in E as ((gr & plan & nav & E) & _). revert a1 Hp.
  assert (authorised deadline inp disc (rw_SQL rw) values) as HA by (by exists bind, rw, win, dplan, gr, plan, nav).
  apply (moves_bind live live); [apply keeps_then; auto with keeps|]. intros ?.
  apply (moves_bind live (settled (authorised deadline inp disc))); [by apply moves_both, execute_moves|]. intros [fds rows].
  do 2 (apply keeps_bind; [auto with keeps|]; intros ?). apply keeps_bind; [apply keeps_check, _|]. intros ?.
  apply keeps_bind; [auto with keeps|]. intros ?. apply keeps_bind; [apply audit_keeps, _|]. intros ?.
  apply keeps_bind; [apply keeps_check, _|]. intros ?. apply keeps_bind; [auto with keeps|]. intros ?.
  apply keeps_bind; [apply deliver_keeps, _|]. intros. apply keeps_ret.
Qed.

Lemma new_idle (w : W) : idle (new_attempt w).
Proof. split; [by split; repeat constructor|]. split; [done|]. split; [done|]. by intros ?%elem_of_nil. Qed.

(** The cleanup's own calls, in their order. *)
Definition cleanup (tx conn : bool) (rb : result pg_error unit) (observed : option bytes) : list pg_call :=
  (if tx then [CRollback rb] else []) ++ (if conn then [CRelease] else [])
  ++ (match observed with Some remote => [CObserve remote] | None => [] end) ++ [CClosePools].

Lemma observation_some found state start want : pgRemoteStateFromObservation found state start want ≠ QueryExecutionRemoteNone.
Proof. unfold pgRemoteStateFromObservation. by repeat case_match. Qed.
Lemma poll_some fuel pid want (w : W) : (poll fuel pid want w).1 ≠ Some QueryExecutionRemoteNone.
Proof.
  revert w. induction fuel as [|fuel IH]; intros w; [done|]. cbn [poll]. destruct (dv_probe_row pid w) as [[row|e] w1]; [|done].
  case_match; [|by destruct (dv_probe_expired w1) as [[] w2]; [|destruct (dv_probe_wait w2) as [[] w3]; [|apply IH]]].
  intros Hr%(inj Some). destruct row as [[state start]|]; by apply observation_some in Hr.
Qed.
Lemma probe_some pid want (w : W) : (pgProbeBackendState pid want w).1 ≠ QueryExecutionRemoteNone.
Proof.
  unfold pgProbeBackendState. case_if as E; [done|]. destruct (dv_probe_connect w) as [[] w1]; [|done].
  destruct (dv_probe_version w1) as [[raw|e] w2]; [|done]. destruct (parsePGServerVersionNum raw); [|done]. case_if as E1; [done|].
  pose proof (poll_some poll_fuel pid want w2) as H. destruct (poll _ _ _ _) as [[v|] w3]; cbn in *; [by intros ->|done].
Qed.

Lemma release_spec (a : pgExecAttempt W) :
  let '(first, a') := releaseExecution a in
  ∃ rb, log_of a' = log_of a ++ (if pa_tx a then [CRollback rb] else []) ++ (if pa_conn a then [CRelease] else [])
    ∧ first = (if pa_tx a then match rb with Err _ => Some (wrap IsBackend) | Ok _ => None end else None)
    ∧ attempt_evidence a' = attempt_evidence a ∧ pa_stmtFate a' = pa_stmtFate a.
Proof.
  unfold releaseExecution. destruct (pa_tx a) eqn:Ht; [destruct (dv_rollback _) as [rb w1]; exists rb|exists (Ok tt)];
    cbn [set_resources set_world set_session pa_conn]; destruct (pa_conn a); unfold log_of, set_world; cbn;
    rewrite <- ?app_assoc, ?app_nil_r; by repeat split.
Qed.

Lemma observe_spec (a : pgExecAttempt W) :
  let '(remote, a') := observeRemoteState a in
  ∃ observed, log_of a' = log_of a ++ match observed with Some remote => [CObserve remote] | None => [] end
    ∧ attempt_evidence a' = attempt_evidence a
    ∧ match pa_stmtFate a with
      | pgStmtUnsent => remote = QueryExecutionRemoteNone
      | pgStmtCompleted => remote = QueryExecutionRemoteCompleted
      | pgStmtErrored => remote = QueryExecutionRemoteStopped
      | pgStmtIndeterminate => observed = Some remote ∧ remote ≠ QueryExecutionRemoteNone
      end
    ∧ (is_Some observed ↔ pa_stmtFate a = pgStmtIndeterminate).
Proof.
  unfold observeRemoteState. destruct (pa_stmtFate a) eqn:Hf.
  2: { pose proof (probe_some (pa_backendPID a) (pa_backendStart a) (se_world (pa_session a))) as Hs.
       destruct (pgProbeBackendState _ _ _) as [remote w2]. exists (Some remote). by repeat split. }
  all: exists None; rewrite app_nil_r; do 3 (split; [done|]); split; [by intros [? [=]]|done].
Qed.

Lemma close_spec (a : pgExecAttempt W) :
  let '(first, remote, a') := attempt_close a in
  ∃ rb observed,
    log_of a' = log_of a ++ cleanup (pa_tx a) (pa_conn a) rb observed
    ∧ first = (if pa_tx a then match rb with Err _ => Some (wrap IsBackend) | Ok _ => None end else None)
    ∧ attempt_evidence a' = attempt_evidence a
    ∧ match pa_stmtFate a with
      | pgStmtUnsent => remote = QueryExecutionRemoteNone
      | pgStmtCompleted => remote = QueryExecutionRemoteCompleted
      | pgStmtErrored => remote = QueryExecutionRemoteStopped
      | pgStmtIndeterminate => observed = Some remote ∧ remote ≠ QueryExecutionRemoteNone
      end
    ∧ (is_Some observed ↔ pa_stmtFate a = pgStmtIndeterminate).
Proof.
  unfold attempt_close, cleanup. pose proof (release_spec a) as Hr. destruct (releaseExecution a) as [first a1].
  destruct Hr as (rb & Hl1 & Hf & He1 & Hfate). pose proof (observe_spec a1) as Ho. destruct (observeRemoteState a1) as [remote a2].
  destruct Ho as (observed & Hl2 & He2 & Hrem & Hob). rewrite Hfate in Hrem, Hob. exists rb, observed.
  split; [|split; [done|split; [|done]]]; [|by rewrite <- He1, <- He2].
  unfold set_world, log_of at 1. cbn. fold (log_of a2). by rewrite Hl2, Hl1, <- !app_assoc.
Qed.

Definition acceptable (inp : PGExecuteInput) : bool :=
  xi_ConnConfig inp && negb (xi_Database inp =?b []) && negb (xi_PinnedSchema inp =?b []) && (0 <? xi_Timeout inp)%Z.

Lemma acceptable_guard inp :
  negb (xi_ConnConfig inp) || (xi_Database inp =?b []) || (xi_PinnedSchema inp =?b []) || (xi_Timeout inp <=? 0)%Z = negb (acceptable inp).
Proof. unfold acceptable. rewrite !negb_andb, !negb_involutive. f_equal. by rewrite Z.leb_antisym. Qed.

(** Every accepted attempt is a body and its cleanup. *)
Lemma run_spec inp disc w : acceptable inp = true →
  ∃ deadline w1 a rb observed,
    let a1 := (attempt_body fe deadline inp disc (new_attempt w1)).2 in
    let r1 := (attempt_body fe deadline inp disc (new_attempt w1)).1 in
    settled (authorised deadline inp disc) a ∧ (is_ok r1 = true → a = a1) ∧
    let '(r, ev, a') := runPGGovernedAttempt fe inp disc w in
    log_of a' = log_of a ++ cleanup (pa_tx a) (pa_conn a) rb observed
    ∧ (∀ out, r = Ok out ↔ r1 = Ok out ∧ (pa_tx a = true → is_ok rb = true))
    ∧ ev = attempt_evidence a (ev_RemoteState ev) (match r with Ok _ => None | Err e => Some e end)
    ∧ match pa_stmtFate a with
      | pgStmtUnsent => ev_RemoteState ev = QueryExecutionRemoteNone
      | pgStmtCompleted => ev_RemoteState ev = QueryExecutionRemoteCompleted
      | pgStmtErrored => ev_RemoteState ev = QueryExecutionRemoteStopped
      | pgStmtIndeterminate => observed = Some (ev_RemoteState ev) ∧ ev_RemoteState ev ≠ QueryExecutionRemoteNone
      end
    ∧ (is_Some observed ↔ pa_stmtFate a = pgStmtIndeterminate).
Proof.
  intros Hin. unfold runPGGovernedAttempt. rewrite acceptable_guard, Hin. cbn [negb].
  destruct (dv_deadline _ w) as [deadline w1]. exists deadline, w1.
  pose proof (body_moves deadline inp disc (new_attempt w1) (new_idle w1)) as Hs.
  destruct (attempt_body fe deadline inp disc (new_attempt w1)) as [r a1]. cbn [fst snd] in *.
  set (a := match r with Ok _ => a1 | Err e => (lift (attempt_fail e) a1).2 end).
  assert (settled (authorised deadline inp disc) a) as Ha.
  { unfold a. destruct r as [out|e]; [done|]. apply (keeps_lift (settled _)); [auto with keeps|done]. }
  pose proof (close_spec a) as Hc. exists a.
  assert (∃ r', (∀ out, r' = Ok out ↔ r = Ok out) ∧ match r with
    | Ok out => (Ok out, a1)
    | Err e => let '(r, a) := lift (attempt_fail e) a1 in (match r with Ok e => Err e | Err e => Err e end, a)
    end = (r', a)) as (r' & Hr' & ->).
  { unfold a. destruct r as [out|e]; [by exists (Ok out)|]. destruct (lift (attempt_fail e) a1) as [[e'|e'] a2]; by exists (Err e'). }
  destruct (attempt_close a) as [[first remote] a']. destruct Hc as (rb & observed & Hlog & Hf & He & Hrem & Hob).
  exists rb, observed. split; [done|]. split; [by unfold a; destruct r|]. split; [done|]. split.
  { intros out. rewrite <- Hr'. subst first. destruct (pa_tx a), rb, r'; cbn; intuition congruence. }
  rewrite He. by split.
Qed.

(** The statements put on the wire for execution. *)
Definition user_statements (l : list pg_call) : list (bytes * list (option bytes)) :=
  omap (λ c, match c with CResult sql values _ => Some (sql, values) | _ => None end) l.
Lemma early_no_statement l : Forall early_call l → user_statements l = [].
Proof. induction 1 as [|c l Hc Hl IH]; [done|]. by destruct c, Hc. Qed.
Lemma quiet_no_statement l : Forall quiet_call l → user_statements l = [].
Proof. intros H. apply early_no_statement. eapply Forall_impl; [done|]. by left. Qed.
Lemma cleanup_no_statement tx conn rb observed : user_statements (cleanup tx conn rb observed) = [].
Proof. unfold cleanup. by destruct tx, conn, observed. Qed.


(** ** What the calls of an attempt are *)

(** Calls the cleanup does not make. *)
Definition working (c : pg_call) : bool :=
  match c with CRollback _ | CRelease | CObserve _ | CClosePools => false | _ => true end.
Definition transaction_begun (l : list pg_call) : bool := existsb (λ c, match c with CBegin (Ok _) => true | _ => false end) l.

Lemma begun_spec l : begun l ↔ transaction_begun l = true.
Proof.
  unfold begun, transaction_begun. rewrite existsb_exists. split.
  - intros H. exists (CBegin (Ok tt)). by rewrite <- list_elem_of_In.
  - intros (c & Hin & Hc). destruct c as [| | | | |[[]|]| | | | | | |]; try done. by rewrite list_elem_of_In.
Qed.

Lemma early_working l : Forall early_call l → Forall (λ c, working c = true) l.
Proof. intros H. eapply Forall_impl; [done|]. intros c Hc. by destruct c, Hc. Qed.
Lemma quiet_working l : Forall quiet_call l → Forall (λ c, working c = true) l.
Proof. intros H. apply early_working. eapply Forall_impl; [done|]. by left. Qed.

Lemma settled_log P (a : pgExecAttempt W) : settled P a →
  Forall (λ c, working c = true) (log_of a) ∧ transaction_begun (log_of a) = pa_tx a
  ∧ (user_statements (log_of a) = [] ∨ ∃ sql values, user_statements (log_of a) = [(sql, values)] ∧ P sql values).
Proof.
  intros [H Ht]. split; [|split].
  - destruct H as [[_ He _]|(sql & values & _ & [(l1 & t & l2 & n & e & -> & He & Hq & _)])]; [by apply early_working|].
    apply Forall_app. split; [by apply early_working|]. constructor; [done|by apply quiet_working].
  - unfold tx_matches in Ht. rewrite begun_spec in Ht. destruct (pa_tx a), (transaction_begun _); intuition congruence.
  - destruct H as [[_ He _]|(sql & values & HP & [(l1 & t & l2 & n & e & -> & He & Hq & _)])]; [left; by apply early_no_statement|right].
    exists sql, values. split; [|done]. unfold user_statements. rewrite omap_app. fold (user_statements l1).
    rewrite early_no_statement by done. cbn. fold (user_statements l2). by rewrite quiet_no_statement.
Qed.


Lemma quiet_all_unsent l : Forall quiet_call l → Forall unsent l.
Proof. intros H. eapply Forall_impl; [done|]. by intros []. Qed.
Lemma cleanup_unsent tx conn rb observed : Forall unsent (cleanup tx conn rb observed).
Proof. unfold cleanup. destruct tx, conn, observed; by repeat constructor. Qed.

Lemma cleanup_no_result tx conn rb observed sql values t : CResult sql values t ∉ cleanup tx conn rb observed.
Proof. unfold cleanup. destruct tx, conn, observed; cbn; rewrite !elem_of_cons, elem_of_nil; naive_solver. Qed.

(** What each fate says of a call that reached the wire. *)
Definition fate_evidence (fate : pgStmtFate) (t : transport) : Prop :=
  match fate with
  | pgStmtUnsent => ∃ n e, tp_close t n = Some e ∧ pe_SafeToRetry e = true
  | pgStmtCompleted => ∃ n, tp_close t n = None
  | pgStmtErrored => ∃ n e, tp_close t n = Some e ∧ is_Some (pe_Code e)
  | pgStmtIndeterminate => True
  end.

Lemma fate_after_read readErr t n : local_error readErr → fate_evidence (pgStmtFateAfterRead readErr (tp_close t n)) t.
Proof.
  intros [H1 H2]. unfold pgStmtFateAfterRead. rewrite H1, H2. cbn [orb]. destruct (tp_close t n) as [e|] eqn:E; cbn; [|by exists n].
  case_bool_decide as Hc; [by exists n, e|]. destruct (pe_SafeToRetry e) eqn:Es; [by exists n, e|done].
Qed.

(** The attempt's own record of its statement, against the calls it made. *)
Lemma settled_fate P (a : pgExecAttempt W) : settled P a →
  (∀ sql values t, CResult sql values t ∈ log_of a → fate_evidence (pa_stmtFate a) t)
  ∧ (pa_stmtFate a ≠ pgStmtUnsent → ∃ sql values t, CResult sql values t ∈ log_of a)
  ∧ (pa_stmtFate a = pgStmtUnsent → pa_describeSent a = false → Forall unsent (log_of a)).
Proof.
  intros [[[Hf He Hu]|(sql & values & _ & [(l1 & t & l2 & n & e & Hl & He & Hq & Hloc & Hf & Hu)])] _].
  - split; [|split; [by rewrite Hf|by intros _]]. intros sql values t Hin. rewrite Forall_forall in He. by destruct (He _ Hin).
  - pose proof (fate_after_read e t n Hloc) as Hev. rewrite <- Hf in Hev. rewrite Hl. split; [|split].
    + intros sql' values' t' [Hin|[[= -> -> ->]|Hin]%elem_of_cons]%elem_of_app; [|done|].
      * rewrite Forall_forall in He. by destruct (He _ Hin).
      * rewrite Forall_forall in Hq. by destruct (Hq _ Hin).
    + intros _. exists sql, values, t. apply elem_of_app. right. by left.
    + intros H Hd. rewrite H in Hev. apply Forall_app. split; [by apply Hu|]. constructor; [done|by apply quiet_all_unsent].
Qed.

(** C8: The evidence tells the truth about the wire. Its status is the returned
    error's. When it says nothing of the user's statement was sent, every call
    that carried the statement, executed or described, was refused by the driver
    before a byte left. When it says the statement completed, the statement's
    result was read and closed without an error; when it says stopped without
    having observed the backend, the server itself answered with an error; and
    when it claims no remote state, no execution reached the server. *)
Theorem attempt_evidence_truthful inp disc w :
  let '(r, ev, a) := runPGGovernedAttempt fe inp disc w in
  ev_Status ev = pgAttemptStatus (match r with Ok _ => None | Err e => Some e end)
  ∧ (ev_UserSQLSent ev = false → Forall unsent (log_of a))
  ∧ (ev_RemoteState ev = QueryExecutionRemoteNone → ∀ sql values t, CResult sql values t ∈ log_of a → fate_evidence pgStmtUnsent t)
  ∧ (ev_RemoteState ev = QueryExecutionRemoteNone ∨ CObserve (ev_RemoteState ev) ∈ log_of a
     ∨ ∃ sql values t, CResult sql values t ∈ log_of a
        ∧ (ev_RemoteState ev = QueryExecutionRemoteCompleted ∧ fate_evidence pgStmtCompleted t
           ∨ ev_RemoteState ev = QueryExecutionRemoteStopped ∧ fate_evidence pgStmtErrored t)).
Proof.
  destruct (acceptable inp) eqn:Hin.
  2: { unfold runPGGovernedAttempt. rewrite acceptable_guard, Hin. cbn. split; [done|]. split; [done|]. split; [|by left].
       intros _ sql values t Ht. by apply elem_of_nil in Ht. }
  destruct (run_spec inp disc w Hin) as (deadline & w1 & a & rb & observed & Hs & _ & Hrun).
  destruct (runPGGovernedAttempt fe inp disc w) as [[r ev] a']. destruct Hrun as (Hlog & _ & Hev & Hrem & Hob).
  apply settled_fate in Hs as (Hres & Hsome & Hun). split; [by rewrite Hev|]. split; [|split].
  - rewrite Hev. cbn. rewrite Hlog. intros [H1 H2]%orb_false_elim. bool_inv. apply Forall_app. split; [by apply Hun|apply cleanup_unsent].
  - intros Hn sql values t Hin'. rewrite Hlog in Hin'. apply elem_of_app in Hin' as [Hin'|Hin'].
    + apply Hres in Hin'. by destruct (pa_stmtFate a); [|destruct Hrem|rewrite Hn in Hrem..].
    + by apply cleanup_no_result in Hin'.
  - rewrite Hlog. destruct (pa_stmtFate a) eqn:Hf; [by left|right; left|right; right..].
    + destruct Hrem as [-> _]. apply elem_of_app. right. unfold cleanup. apply elem_of_app. right. apply elem_of_app. right. by left.
    + destruct Hsome as (sql & values & t & Ht); [done|]. exists sql, values, t. split; [apply elem_of_app; by left|]. left. eauto.
    + destruct Hsome as (sql & values & t & Ht); [done|]. exists sql, values, t. split; [apply elem_of_app; by left|]. right. eauto.
Qed.


(** ** A delivered result *)

(** Later in the same attempt, with no dispatch between. *)
Definition later (a0 a : pgExecAttempt W) : Prop := (∃ l, log_of a = log_of a0 ++ l) ∧ pa_stmtFate a = pa_stmtFate a0.
#[local] Instance later_quiescent a0 : Quiescent (later a0).
Proof.
  intros a s l [[l0 H0] Hf] Hl _. split; [|done]. exists (l0 ++ l). unfold log_of at 1. cbn. by rewrite Hl, H0, app_assoc.
Qed.
Lemma later_stage a0 stage a : later a0 a → later a0 (set_stage stage a).
Proof. done. Qed.
Lemma later_refl a : later a a.
Proof. split; [exists []; by rewrite app_nil_r|done]. Qed.
Lemma later_in a0 a c : later a0 a → c ∈ log_of a0 → c ∈ log_of a.
Proof. intros [[l ->] _] ?. apply elem_of_app. by left. Qed.
Hint Resolve later_stage later_refl : keeps.

(** From a successful computation to its end. *)
Lemma later_ok {A} (m : att W A) a a' r : m a = (r, a') → keeps (later a) m → later a a'.
Proof. intros H Hk. specialize (Hk a (later_refl a)). by rewrite H in Hk. Qed.

(** An audit that passed, in the calls it was read from. *)
Definition audited (bind : PGBindResult) (derived : list PGRelationIdentity) (l : list pg_call) : Prop :=
  ∃ pid vxid ans observed, CQuery (QLocks pid) (Ok ans) ∈ l ∧ scan_all (an_rows ans) (an_err ans) = Ok observed
    ∧ audit_verdict_error (evaluatePGLockAudit observed vxid (audit_explainable bind derived) (audit_required bind)).1 = None.

Lemma audit_ok deadline bind derived (a a' : pgExecAttempt W) :
  auditLockSet deadline bind derived a = (Ok tt, a') → audited bind derived (log_of a').
Proof.
  unfold auditLockSet. intros (a0 & a1 & [= <- <-] & H)%att_bind_ok. case_match; [done|].
  do 2 (apply att_bind_ok in H as (? & ? & _ & H)). apply att_bind_ok in H as (t & ? & _ & H). case_match; [|done].
  apply att_bind_ok in H as (? & a2 & _ & H). apply att_bind_ok in H as (ans & a3 & Hq & H).
  apply att_bind_ok in H as (observed & ? & Hs & H). injection Hs as Hs <-. case_match; [done|]. injection H as <-.
  exists (pa_backendPID a), (pa_virtualXID a), ans, observed. split; [|done].
  apply lift_ok in Hq as (s' & Hq & ->). unfold logged_result in Hq. destruct (dv_obs_query _ _) as [r w]. injection Hq as -> <-.
  unfold log_of. cbn. apply elem_of_app. right. by left.
Qed.

Lemma execute_ok deadline sql values win (a a' : pgExecAttempt W) fds rows :
  executeAndMaterialize deadline sql values win a = (Ok (fds, rows), a') →
  ∃ t, CResult sql values t ∈ log_of a' ∧ fds = tp_fds t ∧ rows = tp_rows t ∧ tp_close t (length rows) = None
    ∧ pa_stmtFate a' = pgStmtCompleted ∧ (result_bytes rows <= pgMaxResultBytes)%Z
    ∧ (Z.of_nat (length rows) <= Z.max 0 (pw_FetchCount win))%Z ∧ (Z.of_nat (length fds) <= pgMaxTransportColumns)%Z.
Proof.
  unfold executeAndMaterialize. intros (? & a1 & _ & H)%att_bind_ok.
  destruct (dispatch_spec sql values win a1) as (t & l & s & e & n & rows' & Hd & Hl & _ & _ & Hok). cbv zeta in Hd. rewrite Hd in H.
  destruct e as [e|]; [done|]. destruct (tp_close t n) as [e|] eqn:Ec; [done|]. injection H as <- <- <-.
  destruct Hok as (-> & -> & Hb & Hn & Hf); [done|]. exists t. split; [|by repeat split].
  change (log_of _) with (se_log s). rewrite Hl. apply elem_of_app. right. by left.
Qed.

(** What stands behind a delivered result. *)
Record delivered (inp : PGExecuteInput) (disc : option policy_reader) (l : list pg_call) (out : PGVerifiedResult)
    (dplan : option pgDisclosurePlan) (bind : PGBindResult) (rw : RewriteResult) (t : transport) : Prop := {
  de_prepared : ∃ deadline win values gr plan nav, prepared deadline inp disc bind rw win dplan values gr plan nav
    ∧ CResult (rw_SQL rw) values t ∈ l
    ∧ (Z.of_nat (length (tp_rows t)) <= Z.max 0 (pw_FetchCount win))%Z
    ∧ ∃ page cols rows marks, window_Result win (Z.of_nat (length (tp_rows t))) = Some page
      ∧ projectPGPublicResult (fe_type_name fe) (fe_upper fe) (tp_fds t) (take (Z.to_nat (pg_RowCount page)) (tp_rows t)) rw
        = Ok (cols, rows, marks)
      ∧ out = VerifiedResult cols rows (Some marks) page (pw_FetchCount win) (rw_Refs rw) (rw_PublicProofs rw)
                (default ∅ (rw_SourceCatalog rw)) (bound_of bind);
  de_closed : tp_close t (length (tp_rows t)) = None;
  de_bytes : (result_bytes (tp_rows t) <= pgMaxResultBytes)%Z;
  de_columns : (Z.of_nat (length (tp_fds t)) <= pgMaxTransportColumns)%Z;
  de_positions : verifyPGPositions (tp_fds t) (Some rw) (Some (bound_of bind)) = Ok tt;
  de_audited : ∃ derived, audited bind derived l;
}.

Lemma body_ok deadline inp disc (a a' : pgExecAttempt W) out dplan :
  attempt_body fe deadline inp disc a = (Ok (out, dplan), a') →
  (∃ bind rw t, delivered inp disc (log_of a') out dplan bind rw t) ∧ pa_stmtFate a' = pgStmtCompleted ∧ pa_tx a' = true.
Proof.
  unfold attempt_body. intros ([[[[[bind derived] rw] win] dplan'] values] & a1 & ((gr & plan & nav & Hp) & Htx)%prepare_ok & H)%att_bind_ok.
  match type of H with ?m ?b = _ => assert (holding m) as Hh; [|specialize (Hh b)] end.
  { apply holding_bind; [holding|]. intros ?. apply holding_bind; [holding|]. intros [fds rows]. holding. }
  rewrite H in Hh. destruct Hh as [Hh _]. cbn [snd] in Hh. rewrite Hh, Htx.
  apply att_bind_ok in H as (? & a2 & _ & H). apply att_bind_ok in H as ([fds rows] & a3 & He & H).
  apply execute_ok in He as (t & Ht & -> & -> & Hc & Hf & Hb & Hn & Hcols).
  assert (later a3 a') as [HL1 HL2].
  { apply (later_ok _ _ _ _ H). do 2 (apply keeps_bind; [auto with keeps|]; intros ?). apply keeps_bind; [apply keeps_check, _|]. intros ?.
    apply keeps_bind; [auto with keeps|]. intros ?. apply keeps_bind; [apply audit_keeps, _|]. intros ?.
    apply keeps_bind; [apply keeps_check, _|]. intros ?. apply keeps_bind; [auto with keeps|]. intros ?.
    apply keeps_bind; [apply deliver_keeps, _|]. intros. apply keeps_ret. }
  split; [|by rewrite HL2].
  apply att_bind_ok in H as (? & a4 & _ & H). apply att_bind_ok in H as ([] & a5 & Hpos%att_verify_ok & H).
  do 2 (apply att_bind_ok in H as (? & ? & _ & H)). apply att_bind_ok in H as ([] & a6 & Ha%audit_ok & H).
  assert (later a6 a') as HL3.
  { apply (later_ok _ _ _ _ H). apply keeps_bind; [apply keeps_check, _|]. intros ?. apply keeps_bind; [auto with keeps|]. intros ?.
    apply keeps_bind; [apply deliver_keeps, _|]. intros. apply keeps_ret. }
  do 2 (apply att_bind_ok in H as (? & ? & _ & H)). apply att_bind_ok in H as (out' & a7 & Hd & [= <- <- _]).
  unfold deliver in Hd. apply att_bind_ok in Hd as (page & ? & Hw & Hd). apply att_of_ok in Hw.
  apply att_bind_ok in Hd as ([[cols rows] marks] & ? & Hproj%att_verify_ok & Hd). apply att_bind_ok in Hd as (? & ? & _ & [= <- _]).
  exists bind, rw, t. split; try done.
  - exists deadline, win, values, gr, plan, nav. split; [done|]. split; [eapply later_in; [by split|done]|]. split; [done|].
    exists page, cols, rows, marks. split; [by destruct (window_Result _ _); simplify_eq|]. done.
  - destruct Ha as (pid & vxid & ans & observed & Hin & Hr). exists derived, pid, vxid, ans, observed. split; [by eapply later_in|done].
Qed.

Lemma attempt_delivered inp disc w out dplan ev a :
  runPGGovernedAttempt fe inp disc w = (Ok (out, dplan), ev, a) →
  (∃ bind rw t, delivered inp disc (log_of a) out dplan bind rw t)
  ∧ CRollback (Ok tt) ∈ log_of a
  ∧ ev_Status ev = QueryExecutionSuccess ∧ ev_RemoteState ev = QueryExecutionRemoteCompleted ∧ ev_UserSQLSent ev = true.
Proof.
  intros Hrun. destruct (acceptable inp) eqn:Hin; [|unfold runPGGovernedAttempt in Hrun; by rewrite acceptable_guard, Hin in Hrun].
  destruct (run_spec inp disc w Hin) as (deadline & w1 & a0 & rb & observed & _ & Ha0 & H). rewrite Hrun in H.
  destruct H as (Hlog & Hr & Hev & Hrem & _). destruct (proj1 (Hr _) eq_refl) as [Hok Hrb].
  rewrite Hok in Ha0. specialize (Ha0 eq_refl).
  destruct (attempt_body fe deadline inp disc (new_attempt w1)) as [r1 a1] eqn:Hbody. cbn in Hok, Ha0. subst r1 a0.
  apply body_ok in Hbody as ((bind & rw & t & Hd) & Hf & Htx). rewrite Hf in Hrem. rewrite Htx in Hlog, Hrb.
  split; [|split; [|split; [by rewrite Hev|split; [done|by rewrite Hev; cbn; rewrite Hf]]]].
  - exists bind, rw, t. destruct Hd as [Hp ? ? ? ? (derived & pid & vxid & ans & obs & Hq & Ho)]. rewrite Hlog. split; try done.
    + destruct Hp as (d & win & values & gr & plan & nav & ? & Hc & ?). exists d, win, values, gr, plan, nav. split; [done|].
      split; [apply elem_of_app; by left|done].
    + exists derived, pid, vxid, ans, obs. split; [apply elem_of_app; by left|done].
  - rewrite Hlog. destruct rb as [[]|]; [|by specialize (Hrb eq_refl)]. apply elem_of_app. right. by left.
Qed.

(** C6: Only a verified result is delivered. A success means: the statement was
    guarded, bound, rewritten and authorised; the one execution's result was read
    to its end, within the row window, the column ceiling and one mebibyte of
    text, and closed without an error; its positions matched the rewriter's
    expectations; the locks the backend held were explained; what is handed over
    is the projection of the page's rows; the transaction was rolled back and
    the recorded outcome is a completed success. *)
Theorem attempt_delivers inp disc w out dplan ev a :
  runPGGovernedAttempt fe inp disc w = (Ok (out, dplan), ev, a) →
  (∃ bind rw t, delivered inp disc (log_of a) out dplan bind rw t)
  ∧ CRollback (Ok tt) ∈ log_of a
  ∧ ev_Status ev = QueryExecutionSuccess ∧ ev_RemoteState ev = QueryExecutionRemoteCompleted ∧ ev_UserSQLSent ev = true.
Proof. apply attempt_delivered. Qed.
End runs.

(** ** Settling an indeterminate statement *)

(** The probe's polling ends within its fuel on any clock that advances by a
    poll in each wait and on which the window expires. *)
Section polling.
Context {W : Type} `{!PGDriver W} (clock : W → Z) (start : Z).
Hypothesis row_forward : ∀ pid w, (clock w <= clock (dv_probe_row pid w).2)%Z.
Hypothesis expired_forward : ∀ w, (clock w <= clock (dv_probe_expired w).2)%Z.
Hypothesis wait_advances : ∀ w w', dv_probe_wait w = (false, w') → (clock w + pgRemoteProbePoll <= clock w')%Z.
Hypothesis window_expires : ∀ w w', dv_probe_expired w = (false, w') → (clock w < start + pgRemoteProbeWindow)%Z.

Lemma poll_within fuel pid want w :
  (start + pgRemoteProbeWindow <= clock w + Z.of_nat fuel * pgRemoteProbePoll)%Z → is_Some (poll (S fuel) pid want w).1.
Proof.
  revert w. induction fuel as [|fuel IH]; intros w Hc.
  - cbn [poll]. destruct (dv_probe_row pid w) as [[row|e] w1] eqn:E1; [|by eexists].
    case_match; [by eexists|]. destruct (dv_probe_expired w1) as [[] w2] eqn:E2; [by eexists|].
    apply window_expires in E2. pose proof (row_forward pid w) as H1. rewrite E1 in H1. cbn in H1. lia.
  - change (poll (S (S fuel)) pid want w) with (match dv_probe_row pid w with
      | (Err _, w) => (Some QueryExecutionRemoteUnknown, w)
      | (Ok row, w) =>
        let verdict := match row with
          | None => pgRemoteStateFromObservation false None 0 want
          | Some (state, start) => pgRemoteStateFromObservation true state start want
          end in
        if negb (verdict =?b QueryExecutionRemoteUnknown) then (Some verdict, w)
        else match dv_probe_expired w with
        | (true, w) => (Some QueryExecutionRemoteUnknown, w)
        | (false, w) => match dv_probe_wait w with
                        | (true, w) => (Some QueryExecutionRemoteUnknown, w)
                        | (false, w) => poll (S fuel) pid want w
                        end
        end
      end).
    pose proof (row_forward pid w) as H1. destruct (dv_probe_row pid w) as [[row|e] w1]; [|by eexists]. cbn in H1. cbv zeta.
    case_if as Ev; [by eexists|]. pose proof (expired_forward w1) as H2. destruct (dv_probe_expired w1) as [[] w2]; [by eexists|].
    cbn in H2. destruct (dv_probe_wait w2) as [[] w3] eqn:E3; [by eexists|]. apply wait_advances in E3. apply IH. lia.
Qed.

(** C18: Settling what happened to an indeterminate statement terminates. The
    polling of the backend's state always reaches a verdict within the model's
    fuel, so the recorded remote state is the probe's own, never the fuel's. *)
Theorem remote_state_settles pid want w : (start <= clock w)%Z → is_Some (poll poll_fuel pid want w).1.
Proof. intros Hs. apply (poll_within 41). unfold pgRemoteProbeWindow, pgRemoteProbePoll. lia. Qed.
End polling.

(** ** The governed and disclosed attempt *)

(** What a disclosed attempt returns. *)
Lemma disclosed_attempt_shown {W} `{!PGDriver W} (fe : pg_frontend W) inp target reader w out ev a :
  (∀ st pinned g r page, quiet (fe_rewrite fe st pinned g r page)) → (∀ m, fe_order fe m ≡ₚ (map_to_list m).*2) →
  ExecutePGGovernedDisclosedOutcome fe inp target (Some reader) w = (Ok out, ev, a) →
  ∃ v plan bind rw t, delivered fe inp (Some reader) (log_of a) v (Some plan) bind rw t
    ∧ applyPGDisclosure (Some plan) (Some v) = Ok out
    ∧ shown_as_governed reader (xi_Database inp) rw (bound_of bind) v out.
Proof.
  intros Hq Ho. unfold ExecutePGGovernedDisclosedOutcome. case_if as Et; [done|].
  destruct (runPGGovernedAttempt fe inp (Some reader) w) as [[r ev'] a'] eqn:Hrun.
  destruct r as [[v dplan]|e]; [|done]. destruct (applyPGDisclosure dplan (Some v)) as [out'|e] eqn:Ha; [|done]. intros [= <- _ <-].
  destruct (attempt_delivered fe Hq Ho inp (Some reader) w v dplan ev' a' Hrun) as ((bind & rw & t & Hd) & _).
  pose proof (de_prepared _ _ _ _ _ _ _ _ _ Hd) as (d & win & values & gr & plan & nav & Hp & _).
  destruct (pp_disclosure _ _ _ _ _ _ _ _ _ _ _ _ Hp) as (p & -> & Hres).
  exists v, p, bind, rw, t. split; [done|]. split; [done|]. by eapply disclosure_governed.
Qed.

(** Governance end to end on PostgreSQL. What a disclosed attempt returns is
    the transform of a delivered, verified result by the plan that was resolved
    before the statement was dispatched; so every cell it shows is governed by
    the stored policies of its own column's sources. *)
Theorem disclosed_attempt_governed {W} `{!PGDriver W} (fe : pg_frontend W) inp target reader w out ev a :
  (∀ st pinned g r page, quiet (fe_rewrite fe st pinned g r page)) → (∀ m, fe_order fe m ≡ₚ (map_to_list m).*2) →
  ExecutePGGovernedDisclosedOutcome fe inp target (Some reader) w = (Ok out, ev, a) →
  ∃ v plan bind rw t, delivered fe inp (Some reader) (log_of a) v (Some plan) bind rw t
    ∧ applyPGDisclosure (Some plan) (Some v) = Ok out
    ∧ shown_as_governed reader (xi_Database inp) rw (bound_of bind) v out.
Proof. apply disclosed_attempt_shown. Qed.

(** ** An attempt *)

(** [SELECT id FROM users] on a server that answers as its catalog says. *)
Module AttemptEx.
Definition ask {R} (q : probe R) : answer R :=
  match q with
  | QIdentity => Answer [] [Ok (4711%Z, gs "3/7", Some 77%Z)] None
  | QLocks _ => Answer [] (Ok <$> sample_locks) None
  | q => BindEx.ask q
  end.
Definition fds (witness : Z) : list FieldDescription :=
  [MkFD (gs "id") 16390 1 23 (-1); MkFD (gs "__chub_w1") 0 0 witness (-1)].
Definition transport_of (witness : Z) : transport := Transport (fds witness) [[Some (gs "7"); Some (gs "(7)")]] (λ _, None).
Section world.
(** The type the server gives the witness column, and the world: a clock. *)
Variable witness : Z.
Definition session_of : PGSession Z := {|
  ps_ctx := λ w, (None, w);
  ps_now := λ w, (w, w);
  ps_exec := λ _ _ w, (Ok tt, w);
  ps_query := λ R q w, (Ok (ask q), w);
  ps_row := λ R q w, (BindEx.ask_row q, w);
|}.
Definition driver_of : PGDriver Z := {|
  dv_session := session_of;
  dv_dialer := {| dl_shell := λ w, (true, w); dl_new := λ w, (Ok tt, w); dl_dial := λ w, (Ok 4711%Z, w);
                  dl_version := λ w, (Ok (gs "170005"), w) |};
  dv_deadline := λ t w, ((w + t)%Z, w);
  dv_begin := λ w, (Ok tt, w);
  dv_describe := λ _ w, (Ok [], w);
  dv_exec_params := λ _ _ _ w, (transport_of witness, w);
  dv_rollback := λ w, (Ok tt, w);
  dv_obs_exec := λ _ _ w, (Ok tt, w);
  dv_obs_query := λ R q w, (Ok (ask q), w);
  dv_probe_connect := λ w, (true, w);
  dv_probe_version := λ w, (Ok (gs "170005"), w);
  dv_probe_row := λ _ w, (Ok (Some (Some (gs "active"), 77%Z)), w);
  dv_probe_expired := λ w, ((pgRemoteProbeWindow <=? w)%Z, w);
  dv_probe_wait := λ w, (false, (w + pgRemoteProbePoll)%Z);
|}.
End world.
Definition rewritten : RewriteResult :=
  MkRewrite (gs "SELECT id, (SELECT users) FROM public.users LIMIT 11")
    [MkWitness (gs "__chub_w1") (gs "public") (gs "users") (gs "users") [0%Z] 0] [1%Z] [gs "id"]
    [MkProof 0 ProofComplete [MkSourceRef 0 (MkSlot SourceSlotColumn 0)]
       (MkFDOrigin FDOriginKnownColumn (MkSourceRef 0 (MkSlot SourceSlotColumn 0)) 16390 1)]
    (Some {[0%Z := MkOccurrence 0 SourceEntityRangeVar 0 true]}) [MkRangeVarRef 0 [] RefEntity (gs "users") [] [] [] 15 true]
    (gs "SELECT id FROM public.users").
Definition window : PageWindow := Window 1 10 10 100 0 11 0 false.
Definition frontend : pg_frontend Z := {|
  fe_guard := unit;
  fe_GuardPG := λ _, Ok tt;
  fe_refs := λ _, [MkRangeVarRef 0 [] RefEntity (gs "users") [] [] [] 15 true];
  fe_intact := λ _, true;
  fe_params := λ _, ∅;
  fe_rewrite := λ _ _ _ _ _, mret (rewritten, window);
  fe_type_name := λ _, Some (gs "int4");
  fe_upper := λ s, s;
  fe_order := BindEx.walk;
|}.
Definition input : PGExecuteInput :=
  ExecuteInput true (gs "app") (gs "public") (gs "SELECT id FROM users") (PageOpts 1 10 100) 30000000000 None None false.
Definition raw_reader (n : nat) (k : pgPolicyKey) : policy_read := PolicyFound ResultDisclosureRawCopyAllowed.
Lemma rewrite_quiet st pinned g r page : quiet (fe_rewrite frontend st pinned g r page).
Proof. apply quiet_ret. Qed.
Lemma order_walks m : fe_order frontend m ≡ₚ (map_to_list m).*2.
Proof. reflexivity. Qed.
End AttemptEx.

(** A delivered row, without its witness cell. *)
Example attempt_delivers_witness :
  let driver := AttemptEx.driver_of 16391 in
  ∃ out ev a, runPGGovernedAttempt AttemptEx.frontend AttemptEx.input None 0%Z = (Ok (out, None), ev, a)
    ∧ vr_Rows out = [[Some (gs "7")]] ∧ CRollback (Ok tt) ∈ log_of a.
Proof.
  intros driver.
  destruct (runPGGovernedAttempt AttemptEx.frontend AttemptEx.input None 0%Z) as [[[[out dplan]|e] ev] a] eqn:E; [|by vm_compute in E].
  assert (dplan = None ∧ vr_Rows out = [[Some (gs "7")]]) as [-> Hrows] by (vm_compute in E; by injection E as <- <- _ _).
  exists out, ev, a. split; [done|]. split; [done|].
  by destruct (attempt_delivers AttemptEx.frontend AttemptEx.rewrite_quiet AttemptEx.order_walks _ _ _ _ _ _ _ E) as (_ & H & _).
Defined.


Example attempt_evidence_truthful_witness :
  let driver := AttemptEx.driver_of 99999 in
  (runPGGovernedAttempt AttemptEx.frontend AttemptEx.input None 0%Z).1.2
  = AttemptEvidence PGStageVerify QueryExecutionRejected 4711 77 QueryExecutionRemoteCompleted true.
Proof.
  intros driver.
  pose proof (attempt_evidence_truthful AttemptEx.frontend AttemptEx.rewrite_quiet AttemptEx.order_walks AttemptEx.input None 0%Z) as H.
  destruct (runPGGovernedAttempt AttemptEx.frontend AttemptEx.input None 0%Z) as [[r ev] a] eqn:E.
  vm_compute in E. by injection E as _ <- _.
Defined.

(** A backend that never stops: the window runs out. *)
Example remote_state_settles_witness :
  let driver := AttemptEx.driver_of 16391 in
  is_Some (poll poll_fuel 4711 77 0%Z).1 ∧ (poll poll_fuel 4711 77 0%Z).1 = Some QueryExecutionRemoteUnknown.
Proof.
  intros driver. split; [|by vm_compute].
  apply (remote_state_settles (λ w, w) 0); cbn; try (intros; lia).
  - intros w w' [= <-]. lia.
  - intros w w' [= H <-]. lia.
Defined.

Example disclosed_attempt_governed_witness :
  let driver := AttemptEx.driver_of 16391 in
  ∃ out ev a, ExecutePGGovernedDisclosedOutcome AttemptEx.frontend AttemptEx.input 9 (Some AttemptEx.raw_reader) 0%Z = (Ok out, ev, a)
    ∧ pd_Rows out = Some [[Some (gs "7")]]
    ∧ ∃ v rw refs, shown_as_governed AttemptEx.raw_reader (gs "app") rw refs v out.
Proof.
  intros driver.
  destruct (ExecutePGGovernedDisclosedOutcome AttemptEx.frontend AttemptEx.input 9 (Some AttemptEx.raw_reader) 0%Z)
    as [[[out|e] ev] a] eqn:E; [|by vm_compute in E].
  exists out, ev, a. split; [done|]. split; [vm_compute in E; by injection E as <- _ _|].
  destruct (disclosed_attempt_governed _ _ _ _ _ _ _ _ AttemptEx.rewrite_quiet AttemptEx.order_walks E) as (v & plan & bind & rw & t & _ & _ & H).
  by exists v, rw, (bound_of bind).
Defined.
