(* ===== verification/PgClaimed.v ===== *)
(** * The keyed PostgreSQL entry and its runner

    [internal/service/query_pg_orchestration.go]: one runner claims the key, runs
    the governed attempt, checks its answer, writes the one keyed record and
    decides the delivery; the ordinary entry resolves a request for it. Handlers
    are the state transformers of MysqlAttempt over the same evidence store. *)
From S2P Require Import Prelude GoText ClaimDigest ExecModel ResultContract ClaimStore TargetAccess MysqlAttempt Disclosure PgLexer PgPagination PgErrors PgVerifier PgDisclosure PgParams PgAttempt.

(** ** Constants, requests, answers *)

Definition pgClaimDefaultPageSize : Z := 50.
Definition pgClaimDefaultMaxRows : Z := 100.
Definition pgClaimHardMaxRows : Z := 500.
Definition pgClaimedWithheldPreview : bytes := gs "[statement withheld]".

Record PGClaimedExecuteRequest : Type := ClaimedExecuteRequest {
  xr_ClientExecutionID : bytes;
  xr_Database : bytes;
  xr_Schema : bytes;
  xr_Statement : bytes;
  xr_Page : Z;
  xr_PageSize : Z;
  xr_MaxRows : Z;
  xr_Capabilities : list bytes;
}.

Record PGClaimedDeliveryFacts : Type := DeliveryFacts {
  df_Database : bytes;
  df_Schema : bytes;
  df_Page : Z;
  df_PageSize : Z;
  df_MaxRows : Z;
  df_LimitApplied : Z;
  df_DurationMs : Z;
  df_ExecutedAt : option Z; (** [None] is the zero time *)
}.

Record PGClaimedOutcome : Type := ClaimedOutcome {
  co_ExecutionID : Z;
  co_Status : bytes;
  co_Result : option PGDisclosedResult;
  co_Evidence : option PGAttemptEvidence;
  co_Delivery : PGClaimedDeliveryFacts;
}.
(** The zero values. *)
Definition no_facts : PGClaimedDeliveryFacts := DeliveryFacts [] [] 0 0 0 0 0 None.
Definition no_outcome : PGClaimedOutcome := ClaimedOutcome 0 [] None None no_facts.

(** The errors the three entries return. *)
Inductive pg_entry_error : Type :=
  | PgValidation                               (** [ErrQueryValidationFailed] *)
  | PgTargetNotFound
  | PgNotAllowed (msg : bytes)                 (** [ErrQueryNotAllowed] with its fixed text *)
  | PgConnectionNotFound | PgConnectionDisabled | PgBindingMismatch
  | PgBackendFailure                           (** the bare [ErrQueryBackendFailure] *)
  | PgPersistAttempt                           (** [errPersistAttempt] *)
  | PgAlreadyExists | PgConflict
  | PgError (e : pg_error)                     (** the attempt's error, or a bare sentinel *)
  | PgDelivery (e : contract_error)
  | PgSavedNotFound
  | PgTemplateValues (fields : gmap bytes bytes)
  | PgNavigationSource | PgNavigationValues
  | PgPanic.                                   (** a failed type assertion *)

(** Every entry returns an outcome next to its error. *)
Definition pg_answer : Type := PGClaimedOutcome * option pg_entry_error.

(** ** Entry kinds *)

Definition pgClaimedEntryKind : Type := Z.
Definition pgClaimedEntryOrdinary : pgClaimedEntryKind := 0%Z.
Definition pgClaimedEntrySaved : pgClaimedEntryKind := 1%Z.
Definition pgClaimedEntryNavigation : pgClaimedEntryKind := 2%Z.

Definition keyedAuditEvent (k : pgClaimedEntryKind) : bytes :=
  if (k =? pgClaimedEntryNavigation)%Z then gs "related_record_navigation" else gs "query.executed".
Definition pgEvidenceKind (k : pgClaimedEntryKind) : executionEvidenceKind :=
  if (k =? pgClaimedEntryNavigation)%Z then executionEvidenceNavigation else executionEvidenceQuery.
Definition persistsStatement (k : pgClaimedEntryKind) : bool := (k =? pgClaimedEntryOrdinary)%Z.
(** The cases of the runner's switch. *)
Definition known_kind (k : pgClaimedEntryKind) : bool :=
  (k =? pgClaimedEntryOrdinary)%Z || (k =? pgClaimedEntrySaved)%Z || (k =? pgClaimedEntryNavigation)%Z.

(** ** The prepared request *)

Record pgClaimedPrepared : Type := ClaimedPrepared {
  cp_kind : pgClaimedEntryKind;
  cp_access : BoundTargetAccess;
  cp_identity : QueryExecutionIdentity;
  cp_targetID : Z;
  cp_clientKey : bytes;
  cp_database : bytes;
  cp_schema : bytes;
  cp_page : Z;
  cp_pageSize : Z;
  cp_maxRows : Z;
  cp_timeout : Z;
  cp_start : Z;
  cp_statement : bytes;
  cp_digest : bytes;
  cp_capabilities : list bytes;
  cp_nullKeyDatabase : bytes;
  cp_nullKeySchema : bytes;
  cp_nullKeyDigest : bytes;
  cp_parameters : option pgParameterPlan;
  cp_requirePinnedSchema : bool;
  cp_navigation : option pgNavigationBinding;
}.

Record PGDisclosureInput : Type := DisclosureInput {
  xd_Execute : PGExecuteInput;
  xd_TargetResourceID : Z;
  xd_Policies : option (Z → policy_reader); (** the stored policies of each target *)
}.

(** What the governed attempt returns; any combination is possible in Go. *)
Abbreviation pg_attempt_result := (option PGDisclosedResult * option PGAttemptEvidence * option pg_error)%type.

(** What the service is wired with. [pv_outcome] also takes the DSN, whose
    parsed form is the connection config of a resolved access. *)
Record pg_service : Type := PgService {
  pv_access : access_env;
  pv_policies : option (Z → policy_reader);
  pv_outcome : option (bytes → PGDisclosureInput → pg_attempt_result);
}.

Definition disclosure_input (policies : option (Z → policy_reader)) (p : pgClaimedPrepared) : PGDisclosureInput :=
  DisclosureInput
    (ExecuteInput true (cp_database p) (cp_schema p) (cp_statement p) (PageOpts (cp_page p) (cp_pageSize p) (cp_maxRows p))
       (cp_timeout p) (cp_parameters p) (cp_navigation p) (cp_requirePinnedSchema p))
    (cp_targetID p) policies.

(** ** Previews, shapes and defaults *)

(** The scan has enough fuel on every statement, so the default is not used. *)
Definition pgClaimedStatementPreview (stmt : bytes) : bytes :=
  let preview := default [] (SafeStatementPreview stmt 512) in
  if negb (trim_space preview =?b []) then preview else pgClaimedWithheldPreview.

(** The loops' bodies. *)
Definition any_of_text (c : option bytes) : cell := match c with Some text => CString text | None => CNil end.
Definition text_of_any (c : cell) : option bytes := match c with CString text => Some text | _ => None end.
Definition pgDisclosedRowsAny (rows : option text_rows) : page_rows :=
  match rows with None => None | Some rows => Some (map (map any_of_text) rows) end.
Definition pgDecisionRowsDisclosed (rows : page_rows) : option text_rows :=
  match rows with None => None | Some rows => Some (map (map text_of_any) rows) end.
Definition pgDisclosedModelColumns (cols : list PGDisclosedColumn) : list QueryResultColumn :=
  (λ c, ResultColumn (pc_Name (dc_Column c)) (pc_DatabaseType (dc_Column c)) false (dc_DisplayMode c) (dc_CopyAllowed c)) <$> cols.

Definition resolvePGClaimPagination (page pageSize : Z) : option (Z * Z) :=
  if (page =? 0)%Z && (pageSize =? 0)%Z then Some (1%Z, pgClaimDefaultPageSize)
  else if (page <=? 0)%Z || (pageSize <=? 0)%Z then None
  else if is_ok (ValidatePagination page pageSize) then Some (page, pageSize) else None.

Definition resolvePGClaimMaxRows (environment : bytes) (requested : Z) : Z :=
  let maxRows := if (requested <=? 0)%Z then pgClaimDefaultMaxRows else requested in
  let maxRows := clampProductionMaxRows environment maxRows in
  if (pgClaimHardMaxRows <? maxRows)%Z then pgClaimHardMaxRows else maxRows.

Definition resolvePGClaimedDefaults (access : BoundTargetAccess) (schema : bytes) (maxRows : Z) : bytes * Z * Z :=
  let environment := tg_Environment (ba_Target access) in
  let schema := if schema =?b [] then cm_DefaultSchema (ba_Credential access) else schema in
  (schema, resolvePGClaimMaxRows environment maxRows, query_timeout environment).

(** ** Evidence texts *)

Definition pgClaimedTerminalEvidence (execErr : option pg_error) (status : bytes) : bytes * bytes :=
  match execErr with
  | None => ([], [])
  | Some e =>
    let governed := gs "query rejected by governance" in
    if status =?b QueryExecutionRejected then
      if error_is e IsBlocked then (gs "query_result_disclosure_blocked", gs "query blocked by result disclosure policy")
      else match pe_Reject e with
      | Some re => if negb (re_Code re =?b []) then (re_Code re, governed) else (gs "query_rejected", governed)
      | None => (gs "query_rejected", governed)
      end
    else if status =?b QueryExecutionTimeout then (gs "query_timeout", gs "query exceeded the time limit")
    else if status =?b QueryExecutionCancelled then (gs "query_cancelled", gs "query canceled")
    else (gs "query_backend_error", gs "target database query failed")
  end.

Definition accessErrMessage (e : access_error) : bytes :=
  match e with
  | AccessDenied _ status => access_message status
  | _ => gs "target is not enabled for execution"
  end.

Definition pgAccessRefusalError (e : access_error) : pg_entry_error :=
  match e with
  | AccessConnectionNotFound _ => PgConnectionNotFound
  | AccessConnectionDisabled _ => PgConnectionDisabled
  | AccessBindingMismatch _ => PgBindingMismatch
  | _ => PgNotAllowed (accessErrMessage e)
  end.

(** ** The coordinator's own copies *)

(** The delivery snapshot, whose rows and matrix are still to be filled in. *)
Definition delivery_snapshot (res : PGDisclosedResult) : PGDisclosedResult :=
  DisclosedResult ([] ++ pd_Columns res) None None (pd_Page res) (pd_FetchCount res) (clonePGRefSlice (pd_Refs res))
    (clonePGProofSlice (pd_PublicProofs res)) (clonePGSourceCatalog (pd_Sources res)) (clonePGBoundRefMap (pd_BoundRefs res)).
Definition fill_delivery (delivery : PGDisclosedResult) (rows : option text_rows) (m : matrix) : PGDisclosedResult :=
  DisclosedResult (pd_Columns delivery) rows m (pd_Page delivery) (pd_FetchCount delivery) (pd_Refs delivery)
    (pd_PublicProofs delivery) (pd_Sources delivery) (pd_BoundRefs delivery).

Definition is_success (ev : option PGAttemptEvidence) : bool :=
  match ev with Some ev => ev_Status ev =?b QueryExecutionSuccess | None => false end.

(** The consistency gate, and the shape of a result that is there. *)
Definition contract_fault (a : pg_attempt_result) : bool :=
  let '(res, ev, execErr) := a in
  let inconsistent :=
    match execErr with
    | None => negb (bool_decide (is_Some res)) || negb (is_success ev)
    | Some _ => is_success ev
    end in
  inconsistent ||
  match res with
  | None => false
  | Some res => negb (is_ok (validateCellTruncatedMatrix (length (pgDisclosedModelColumns (pd_Columns (delivery_snapshot res))))
                              (pgDisclosedRowsAny (pd_Rows res)) (CloneCellTruncated (pd_CellTruncated res))))
  end.

(** Missing evidence is a wiring fault, recorded as failed. *)
Definition default_evidence (ev : option PGAttemptEvidence) : PGAttemptEvidence :=
  default (AttemptEvidence PGStageInput QueryExecutionFailed 0 0 [] false) ev.

(** The recorded status, row count, code and message. *)
Definition verdict_fields (a : pg_attempt_result) : bytes * Z * bytes * bytes :=
  let '(res, ev, execErr) := a in
  if contract_fault a then
    (QueryExecutionFailed, 0%Z, gs "query_internal_error", gs "internal execution contract violation")
  else match res, execErr with
  | Some res, None => (QueryExecutionSuccess, Z.of_nat (length (rows_of (pd_Rows res))), [], [])
  | _, _ =>
    let status := ev_Status (default_evidence ev) in
    let '(code, msg) := pgClaimedTerminalEvidence execErr status in (status, 0%Z, code, msg)
  end.

Definition align_evidence (ev : PGAttemptEvidence) (status : bytes) : PGAttemptEvidence :=
  if negb (ev_Status ev =?b status)
  then AttemptEvidence (ev_Stage ev) status (ev_BackendPID ev) (ev_BackendStart ev) (ev_RemoteState ev) (ev_UserSQLSent ev)
  else ev.

(** The record of the one keyed finalize. *)
Definition claimed_record (p : pgClaimedPrepared) (a : pg_attempt_result) (finished : Z) : QueryExecutionRecord :=
  let '(status, rowCount, code, msg) := verdict_fields a in
  let ev := default_evidence a.1.2 in
  let persists := persistsStatement (cp_kind p) in
  let user := id_Kind (cp_identity p) =?b QueryExecutionActorUser in
  ExecutionRecord 0 (cp_targetID p)
    (if user then id_ID (cp_identity p) else 0%Z) (if user then 0%Z else id_ID (cp_identity p))
    (tg_Engine (ba_Target (cp_access p))) (cp_database p) (cp_schema p) (cp_digest p)
    (if persists then pgClaimedStatementPreview (cp_statement p) else pgClaimedWithheldPreview)
    (if user && (status =?b QueryExecutionSuccess) && persists then cp_statement p else [])
    status rowCount (milliseconds (time_sub finished (cp_start p))) code msg
    (if negb (ev_BackendPID ev =? 0)%Z then Some (ev_BackendPID ev) else None)
    (ev_RemoteState ev) (Some (cp_clientKey p)) (Some finished).

Definition delivery_facts (p : pgClaimedPrepared) (rec : QueryExecutionRecord) (delivery : option PGDisclosedResult)
    : PGClaimedDeliveryFacts :=
  DeliveryFacts (cp_database p) (cp_schema p) (cp_page p) (cp_pageSize p) (cp_maxRows p)
    (match delivery with Some d => pd_FetchCount d | None => 0%Z end) (er_DurationMs rec) (er_CreatedAt rec).

(** What the runner answers once the record is stored. *)
Definition delivered_answer (p : pgClaimedPrepared) (a : pg_attempt_result) (rec : QueryExecutionRecord) (execID : Z)
    : pg_answer :=
  let '(res, ev, execErr) := a in
  let delivery := delivery_snapshot <$> res in
  let status := er_Status rec in
  let out := λ r, ClaimedOutcome execID status r (Some (align_evidence (default_evidence ev) status))
                    (delivery_facts p rec delivery) in
  if contract_fault a then (out None, Some PgBackendFailure)
  else match execErr with
  | Some e => (out None, Some (PgError e))
  | None =>
    let columns := match delivery with Some d => pgDisclosedModelColumns (pd_Columns d) | None => [] end in
    let rows := match res with Some res => pgDisclosedRowsAny (pd_Rows res) | None => None end in
    let m := match res with Some res => CloneCellTruncated (pd_CellTruncated res) | None => None end in
    match DecideResultDelivery (DeliveryInput None columns rows m (cp_capabilities p)) with
    | Err e => (out None, Some (PgDelivery e))
    | Ok decision =>
      match delivery with
      | None => (no_outcome, Some PgPanic)
      | Some d => (out (Some (fill_delivery d (pgDecisionRowsDisclosed (dd_Rows decision)) (dd_CellTruncated decision))), None)
      end
    end
  end.

(** ** The operations *)

Section claimed.
Context {S : Type} `{!EvidenceStore S} (now : nat → Z) (svc_ : pg_service).

(** The duration is read before the timestamp. *)
Definition buildPGClaimEvidenceRecord (target : QueryTarget) (identity : QueryExecutionIdentity)
    (database schema digest status code msg : bytes) (start : Z) : svc S QueryExecutionRecord :=
  t1 ← tick now;
  t2 ← tick now;
  let user := id_Kind identity =?b QueryExecutionActorUser in
  mret (ExecutionRecord 0 (tg_ResourceID target)
    (if user then id_ID identity else 0%Z) (if user then 0%Z else id_ID identity)
    (tg_Engine target) database schema digest pgClaimedWithheldPreview []
    status 0 (milliseconds (time_sub t1 start)) code msg None [] None (Some t2)).

(** Every refusal before a claim: one keyless pair, then the refusal. *)
Definition record_refusal (target : QueryTarget) (identity : QueryExecutionIdentity) (kind : pgClaimedEntryKind)
    (database schema digest status code msg : bytes) (retErr : pg_entry_error) (start : Z) : svc S pg_answer :=
  rec ← buildPGClaimEvidenceRecord target identity database schema digest status code msg start;
  r ← persistEvidencePair rec (pgEvidenceKind kind);
  mret (no_outcome, Some (match r with Ok _ => retErr | Err _ => PgPersistAttempt end)).

Definition rejectPGClaimedAccess (target : QueryTarget) (identity : QueryExecutionIdentity) (kind : pgClaimedEntryKind)
    (database schema digest : bytes) (accessErr : access_error) (start : Z) : svc S pg_answer :=
  record_refusal target identity kind database schema digest QueryExecutionRejected (gs "query_not_allowed")
    (accessErrMessage accessErr) (pgAccessRefusalError accessErr) start.

Definition failPGClaimedAccess (target : QueryTarget) (identity : QueryExecutionIdentity) (kind : pgClaimedEntryKind)
    (database schema digest : bytes) (start : Z) : svc S pg_answer :=
  record_refusal target identity kind database schema digest QueryExecutionFailed (gs "query_backend_error")
    (gs "target database query failed") PgBackendFailure start.

Definition pg_claim_input (p : pgClaimedPrepared) (t : Z) : QueryExecutionClaimInput :=
  ClaimInput (cp_targetID p) (cp_clientKey p) (cp_identity p) (cp_database p) (cp_schema p) (cp_digest p)
    (milliseconds (cp_timeout p)) (Some t).

(** The runner once the key is owned. *)
Definition run_claimed (outcome : bytes → PGDisclosureInput → pg_attempt_result) (p : pgClaimedPrepared) : svc S pg_answer :=
  let a := outcome (ba_dsn (cp_access p)) (disclosure_input (pv_policies svc_) p) in
  finished ← tick now;
  let rec := claimed_record p a finished in
  r ← store_finalize rec (keyedAuditEvent (cp_kind p)) (auditResultFor (er_Status rec));
  mret (match r with
        | Err _ => (no_outcome, Some PgPersistAttempt)
        | Ok execID => delivered_answer p a rec execID
        end).

(** [outcome] is the wired [pgOutcomeFn], which every entry checks first. *)
Definition executePGClaimedPrepared (outcome : bytes → PGDisclosureInput → pg_attempt_result) (p : pgClaimedPrepared)
    : svc S pg_answer :=
  if negb es_claim_capable then mret (no_outcome, Some PgBackendFailure)
  else if negb (known_kind (cp_kind p)) then mret (no_outcome, Some PgBackendFailure)
  else
    t ← tick now;
    r ← store_claim (pg_claim_input p t);
    match r with
    | Err ErrQueryExecutionClaimExists => mret (no_outcome, Some PgAlreadyExists)
    | Err ErrQueryExecutionClaimConflict => mret (no_outcome, Some PgConflict)
    | Err _ =>
      failPGClaimedAccess (ba_Target (cp_access p)) (cp_identity p) (cp_kind p)
        (cp_nullKeyDatabase p) (cp_nullKeySchema p) (cp_nullKeyDigest p) (cp_start p)
    | Ok _ => run_claimed outcome p
    end.

Definition pgClaimedOrdinaryRawDigest (req : PGClaimedExecuteRequest) : bytes :=
  DigestOrdinaryExecute (OrdinaryInput (xr_Database req) (xr_Schema req) (xr_Statement req) (xr_Page req)
                           (xr_PageSize req) (xr_MaxRows req)).

(** The shape checks of the ordinary entry, before any access. *)
Definition claimed_shape (identity : QueryExecutionIdentity) (req : PGClaimedExecuteRequest) : option (Z * Z) :=
  if negb (is_ok (identity_Validate identity)) then None
  else if xr_ClientExecutionID req =?b [] then None
  else if negb (is_ok (ValidateClientExecutionID (xr_ClientExecutionID req))) then None
  else if contains_byte nul (xr_ClientExecutionID req) then None
  else if trim_space (xr_Statement req) =?b [] then None
  else if (MaxStatementLength <? Z.of_nat (rune_count (xr_Statement req)))%Z then None
  else if negb (ValidateIdentifierShape (xr_Database req) true) then None
  else if negb (ValidateIdentifierShape (xr_Schema req) false) then None
  else match resolvePGClaimPagination (xr_Page req) (xr_PageSize req) with
  | None => None
  | Some window => if (xr_MaxRows req <? 0)%Z then None else Some window
  end.

Definition refused (e : pg_entry_error) : svc S pg_answer := mret (no_outcome, Some e).

(** A failed resolution: one refused record, except where there is nothing to
    attribute it to. *)
Definition access_refusal (e : access_error) (deny : QueryTarget → svc S pg_answer) : svc S pg_answer :=
  match e with
  | AccessTargetNotFound => refused PgTargetNotFound
  | AccessSchemaValidationFailed _ => refused PgValidation
  | AccessDenied target _ | AccessConnectionNotFound target | AccessConnectionDisabled target | AccessBindingMismatch target =>
    deny target
  end.

(** Steps 3 and 4: the prepared request over resolved values. *)
Definition ordinary_prepared (identity : QueryExecutionIdentity) (targetID : Z) (req : PGClaimedExecuteRequest)
    (access : BoundTargetAccess) (page pageSize start : Z) : pgClaimedPrepared :=
  let '(schema, maxRows, timeout) := resolvePGClaimedDefaults access (xr_Schema req) (xr_MaxRows req) in
  let database := cm_DatabaseName (ba_Credential access) in
  let digest := DigestOrdinaryExecute (OrdinaryInput database schema (xr_Statement req) page pageSize maxRows) in
  ClaimedPrepared pgClaimedEntryOrdinary access identity targetID (xr_ClientExecutionID req) database schema page pageSize
    maxRows timeout start (xr_Statement req) digest (xr_Capabilities req)
    (xr_Database req) (xr_Schema req) (pgClaimedOrdinaryRawDigest req) None false None.

Definition ExecutePGClaimed (identity : QueryExecutionIdentity) (targetID : Z) (req : PGClaimedExecuteRequest)
    : svc S pg_answer :=
  match claimed_shape identity req with
  | None => refused PgValidation
  | Some (page, pageSize) =>
    match pv_policies svc_, pv_outcome svc_ with
    | Some _, Some outcome =>
      if negb es_claim_capable then refused PgBackendFailure
      else
        start ← tick now;
        match ResolvePGExecution (pv_access svc_) targetID (xr_Database req) with
        | Err e =>
          access_refusal e (λ target,
            rejectPGClaimedAccess target identity pgClaimedEntryOrdinary (xr_Database req) (xr_Schema req)
              (pgClaimedOrdinaryRawDigest req) e start)
        | Ok access =>
          executePGClaimedPrepared outcome (ordinary_prepared identity targetID req access page pageSize start)
        end
    | _, _ => refused PgBackendFailure
    end
  end.
End claimed.

(** ** Lemmas *)

Lemma rows_roundtrip rows : pgDecisionRowsDisclosed (pgDisclosedRowsAny rows) = rows.
Proof.
  destruct rows as [rows|]; [|done]. cbn. f_equal. rewrite map_map. etrans; [|apply map_id]. apply map_ext. intros row.
  rewrite map_map. etrans; [|apply map_id]. apply map_ext. by intros [].
Qed.

Lemma fill_snapshot res : fill_delivery (delivery_snapshot res) (pd_Rows res) (pd_CellTruncated res) = res.
Proof. destruct res. unfold fill_delivery, delivery_snapshot. cbn. by rewrite clone_refs_id, clone_proofs_id, clone_catalog_id, clone_bound_id. Qed.

(** The shape a page must have: one mark for each cell, each row of the columns' width. *)
Definition well_shaped (res : PGDisclosedResult) : Prop :=
  aligned (length (pd_Columns res)) (pgDisclosedRowsAny (pd_Rows res)) (pd_CellTruncated res).

(** The attempt's answers that tell one story. *)
Definition consistent (a : pg_attempt_result) : Prop :=
  match a with
  | (Some res, Some ev, None) => ev_Status ev = QueryExecutionSuccess ∧ well_shaped res
  | (_, _, None) => False
  | (res, ev, Some _) =>
      (∀ e, ev = Some e → ev_Status e ≠ QueryExecutionSuccess) ∧ (∀ r, res = Some r → well_shaped r)
  end.

Lemma fault_spec a : contract_fault a = false ↔ consistent a.
Proof.
  destruct a as [[res ev] err]. unfold contract_fault, consistent. rewrite orb_false_iff.
  assert (∀ r, negb (is_ok (validateCellTruncatedMatrix (length (pgDisclosedModelColumns (pd_Columns (delivery_snapshot r))))
    (pgDisclosedRowsAny (pd_Rows r)) (CloneCellTruncated (pd_CellTruncated r)))) = false ↔ well_shaped r) as Hshape.
  { intros r. unfold well_shaped. rewrite <- matrix_valid, clone_matrix. cbn. unfold pgDisclosedModelColumns. rewrite length_fmap.
    destruct (validateCellTruncatedMatrix _ _ _) as [[]|]; done. }
  assert (is_success ev = false ↔ ∀ e, ev = Some e → ev_Status e ≠ QueryExecutionSuccess) as Hev.
  { destruct ev as [ev|]; cbn; [|done]. rewrite bool_decide_eq_false. split; [by intros H ? [= <-]|eauto]. }
  destruct err as [err|].
  - rewrite Hev. destruct res as [r|]; [rewrite Hshape|]; destruct ev; naive_solver.
  - destruct res as [r|]; [rewrite Hshape|split; [by intros [H _]|done]].
    destruct ev as [ev|]; [|split; [by intros [H _]|done]]. cbn.
    rewrite negb_false_iff, bool_decide_eq_true. done.
Qed.

Lemma delivered_released p res ev rec execID :
  ev_Status ev = QueryExecutionSuccess → well_shaped res → er_Status rec = QueryExecutionSuccess →
  let out := λ r, ClaimedOutcome execID QueryExecutionSuccess r (Some ev)
                    (delivery_facts p rec (Some (delivery_snapshot res))) in
  (delivered_answer p (Some res, Some ev, None) rec execID = (out (Some res), None)
   ∧ (no_cell_truncated (pd_CellTruncated res) ∨ CapabilityCellTruncated ∈ cp_capabilities p))
  ∨ (delivered_answer p (Some res, Some ev, None) rec execID = (out None, Some (PgDelivery ErrResultContractUpgradeRequired))
     ∧ CapabilityCellTruncated ∉ cp_capabilities p).
Proof.
  intros He Hw Hs. cbv zeta. unfold delivered_answer. rewrite (proj2 (fault_spec _)) by done.
  cbn [fmap option_fmap option_map default_evidence default]. unfold id, align_evidence. rewrite Hs, He, bool_decide_eq_true_2 by done.
  cbn [negb]. rewrite clone_matrix.
  destruct (delivery_of_valid (pgDisclosedModelColumns (pd_Columns (delivery_snapshot res))) (pgDisclosedRowsAny (pd_Rows res))
    (pd_CellTruncated res) (cp_capabilities p)) as [(d & -> & Hr & Hm & Hc)|[-> Hc]].
  - unfold pgDisclosedModelColumns. rewrite length_fmap. exact Hw.
  - left. rewrite Hr, Hm, rows_roundtrip, fill_snapshot. done.
  - by right.
Qed.

(** ** The runner's contract *)

(** Whose record it is. *)
Definition pg_attributed (identity : QueryExecutionIdentity) (target : QueryTarget) (rec : QueryExecutionRecord) : Prop :=
  er_TargetResourceID rec = tg_ResourceID target ∧ er_Engine rec = tg_Engine target
  ∧ (er_ActorUserID rec, er_ActorMachinePrincipalID rec) =
      (if id_Kind identity =?b QueryExecutionActorUser then (id_ID identity, 0%Z) else (0%Z, id_ID identity)).

(** A record before any claim: no key, no statement, nothing of a backend. *)
Definition keyless (identity : QueryExecutionIdentity) (target : QueryTarget) (rec : QueryExecutionRecord) : Prop :=
  pg_attributed identity target rec ∧ er_ClientExecutionID rec = None ∧ er_RowCount rec = 0%Z
  ∧ er_StatementPreview rec = pgClaimedWithheldPreview ∧ er_FullStatement rec = []
  ∧ er_BackendPID rec = None ∧ er_RemoteState rec = QueryExecutionRemoteNone.

(** The statement a kind may leave in history. *)
Definition pg_private (p : pgClaimedPrepared) (rec : QueryExecutionRecord) : Prop :=
  if persistsStatement (cp_kind p)
  then er_StatementPreview rec = pgClaimedStatementPreview (cp_statement p)
       ∧ (er_FullStatement rec = [] ∨ er_FullStatement rec = cp_statement p ∧ er_Status rec = QueryExecutionSuccess
                                      ∧ id_Kind (cp_identity p) = QueryExecutionActorUser)
  else er_StatementPreview rec = pgClaimedWithheldPreview ∧ er_FullStatement rec = [].

Definition keyed_of (p : pgClaimedPrepared) (rec : QueryExecutionRecord) : Prop :=
  er_TargetResourceID rec = cp_targetID p ∧ er_Engine rec = tg_Engine (ba_Target (cp_access p))
  ∧ (er_ActorUserID rec, er_ActorMachinePrincipalID rec) =
      (if id_Kind (cp_identity p) =?b QueryExecutionActorUser then (id_ID (cp_identity p), 0%Z) else (0%Z, id_ID (cp_identity p)))
  ∧ er_ClientExecutionID rec = Some (cp_clientKey p)
  ∧ er_DatabaseName rec = cp_database p ∧ er_SchemaName rec = cp_schema p ∧ er_StatementDigest rec = cp_digest p
  ∧ pg_private p rec.

(** What is recorded of the attempt's answer. *)
Definition recorded_as (a : pg_attempt_result) (rec : QueryExecutionRecord) : Prop :=
  let '(res, ev, err) := a in
  er_RemoteState rec = ev_RemoteState (default_evidence ev)
  ∧ er_BackendPID rec = (if negb (ev_BackendPID (default_evidence ev) =? 0)%Z then Some (ev_BackendPID (default_evidence ev)) else None)
  ∧ (¬ consistent a → er_Status rec = QueryExecutionFailed ∧ er_ErrorCode rec = gs "query_internal_error" ∧ er_RowCount rec = 0%Z)
  ∧ (consistent a →
       match err with
       | None => er_Status rec = QueryExecutionSuccess ∧ er_ErrorCode rec = [] ∧ er_ErrorMessage rec = []
                 ∧ ∀ r, res = Some r → er_RowCount rec = Z.of_nat (length (rows_of (pd_Rows r)))
       | Some e => er_Status rec = ev_Status (default_evidence ev) ∧ er_Status rec ≠ QueryExecutionSuccess ∧ er_RowCount rec = 0%Z
                   ∧ (er_ErrorCode rec, er_ErrorMessage rec) = pgClaimedTerminalEvidence (Some e) (er_Status rec)
       end).

(** What is released of it: the disclosed result itself, and only when nothing
    was cut or the client declared it understands cut cells. *)
Definition released_as (caps : list bytes) (a : pg_attempt_result) (ans : pg_answer) : Prop :=
  match a with
  | (Some res, _, None) =>
      consistent a ∧ ans.2 = None ∧ co_Result ans.1 = Some res
        ∧ (no_cell_truncated (pd_CellTruncated res) ∨ CapabilityCellTruncated ∈ caps)
      ∨ consistent a ∧ ans.2 = Some (PgDelivery ErrResultContractUpgradeRequired) ∧ co_Result ans.1 = None
        ∧ CapabilityCellTruncated ∉ caps
      ∨ ¬ consistent a ∧ ans.2 = Some PgBackendFailure ∧ co_Result ans.1 = None
  | (_, _, err) => co_Result ans.1 = None
      ∧ (consistent a ∧ ans.2 = PgError <$> err ∨ ¬ consistent a ∧ ans.2 = Some PgBackendFailure)
  end.

(** The answer next to the stored record. *)
Definition stored_answer (p : pgClaimedPrepared) (a : pg_attempt_result) (rec : QueryExecutionRecord) (id : Z) (ans : pg_answer)
    : Prop :=
  co_ExecutionID ans.1 = id ∧ co_Status ans.1 = er_Status rec
  ∧ (∃ ev, co_Evidence ans.1 = Some ev ∧ ev_Status ev = er_Status rec ∧ ev_RemoteState ev = er_RemoteState rec)
  ∧ co_Delivery ans.1 = delivery_facts p rec (delivery_snapshot <$> a.1.1)
  ∧ released_as (cp_capabilities p) a ans.

Inductive runner_answer (p : pgClaimedPrepared) (a : pg_attempt_result) : pg_answer → list store_call → Prop :=
  (** the key already belongs to somebody *)
  | ra_taken c e w :
      (w = ErrQueryExecutionClaimExists ∧ e = PgAlreadyExists) ∨ (w = ErrQueryExecutionClaimConflict ∧ e = PgConflict) →
      (∃ t, c = pg_claim_input p t) →
      runner_answer p a (no_outcome, Some e) [CallClaim c (Err w)]
  (** the claim could not be decided *)
  | ra_undecided c w rec r :
      w ≠ ErrQueryExecutionClaimExists → w ≠ ErrQueryExecutionClaimConflict → (∃ t, c = pg_claim_input p t) →
      keyless (cp_identity p) (ba_Target (cp_access p)) rec → er_Status rec = QueryExecutionFailed →
      runner_answer p a (no_outcome, Some (match r with Ok _ => PgBackendFailure | Err _ => PgPersistAttempt end))
        [CallClaim c (Err w); CallInsert rec (keyedAuditEvent (cp_kind p)) (gs "failed") r]
  (** the key was claimed: exactly one finalize *)
  | ra_finalized c rec r ans :
      (∃ t, c = pg_claim_input p t) → keyed_of p rec → recorded_as a rec →
      match r with Ok id => stored_answer p a rec id ans | Err _ => ans = (no_outcome, Some PgPersistAttempt) end →
      runner_answer p a ans
        [CallClaim c (Ok tt); CallFinalize rec (keyedAuditEvent (cp_kind p)) (auditResultFor (er_Status rec)) r].

Section runner.
Context {S : Type} `{!EvidenceStore S} (now : nat → Z) (svc_ : pg_service).

Lemma evidence_event k : evidenceEventType (pgEvidenceKind k) = keyedAuditEvent k.
Proof. unfold pgEvidenceKind, keyedAuditEvent. by destruct (k =? _)%Z. Qed.

Lemma refusal_spec target identity kind database schema digest status code msg retErr start :
  triple (record_refusal (S := S) now target identity kind database schema digest status code msg retErr start)
    (λ ans t, ∃ rec r, t = [CallInsert rec (keyedAuditEvent kind) (auditResultFor status) r]
       ∧ keyless identity target rec ∧ er_Status rec = status ∧ er_ErrorCode rec = code ∧ er_ErrorMessage rec = msg
       ∧ er_DatabaseName rec = database ∧ er_SchemaName rec = schema ∧ er_StatementDigest rec = digest
       ∧ ans = (no_outcome, Some (match r with Ok _ => retErr | Err _ => PgPersistAttempt end))).
Proof.
  unfold record_refusal, buildPGClaimEvidenceRecord, persistEvidencePair.
  eapply triple_bind with (P := λ rec t, t = [] ∧ keyless identity target rec ∧ er_Status rec = status ∧ er_ErrorCode rec = code
    ∧ er_ErrorMessage rec = msg ∧ er_DatabaseName rec = database ∧ er_SchemaName rec = schema ∧ er_StatementDigest rec = digest).
  - eapply triple_bind; [apply triple_tick|]. intros t1 ? ->. eapply triple_bind; [apply triple_tick|]. intros t2 ? ->.
    apply triple_ret. split; [done|]. split; [|done]. unfold keyless, pg_attributed. cbn. by case_bool_decide.
  - intros rec ? (-> & Hk & Hs & Hrest). rewrite Hs, evidence_event.
    eapply triple_bind; [apply triple_insert|]. intros r ? ->. apply triple_ret. exists rec, r. tauto.
Qed.

Lemma verdict_of_consistent a : consistent a →
  ∃ code msg rows, verdict_fields a = (match a.2 with None => QueryExecutionSuccess | Some _ => ev_Status (default_evidence a.1.2) end, rows, code, msg)
    ∧ match a.2 with
      | None => code = [] ∧ msg = [] ∧ ∀ r, a.1.1 = Some r → rows = Z.of_nat (length (rows_of (pd_Rows r)))
      | Some e => rows = 0%Z ∧ (code, msg) = pgClaimedTerminalEvidence (Some e) (ev_Status (default_evidence a.1.2))
      end.
Proof.
  intros Hc. destruct a as [[res ev] err]. unfold verdict_fields. rewrite (proj2 (fault_spec _)) by done. cbn [fst snd].
  destruct err as [e|].
  - destruct (pgClaimedTerminalEvidence (Some e) (ev_Status (default_evidence ev))) as [code msg] eqn:E.
    exists code, msg, 0%Z. by destruct res.
  - destruct res as [res|]; [|by destruct ev]. eexists _, _, _. split; [done|]. split; [done|]. split; [done|]. by intros r [= ->].
Qed.

Lemma verdict_of_fault a : ¬ consistent a →
  verdict_fields a = (QueryExecutionFailed, 0%Z, gs "query_internal_error", gs "internal execution contract violation").
Proof.
  intros Hc. destruct a as [[res ev] err]. unfold verdict_fields. rewrite <- fault_spec in Hc. by destruct (contract_fault _).
Qed.

Lemma consistent_dec a : Decision (consistent a).
Proof. destruct (contract_fault a) eqn:E; [right|left]; rewrite <- fault_spec; congruence. Qed.

Lemma failed_not_success : QueryExecutionFailed ≠ QueryExecutionSuccess.
Proof. by vm_compute. Qed.

Lemma claimed_record_spec p a finished : keyed_of p (claimed_record p a finished) ∧ recorded_as a (claimed_record p a finished).
Proof.
  unfold claimed_record. destruct (verdict_fields a) as [[[status rows] code] msg] eqn:Ev. split.
  - unfold keyed_of, pg_private. cbn. split_and!; try done; [by case_bool_decide|]. destruct (persistsStatement _); [|by rewrite andb_false_r].
    split; [done|]. rewrite andb_true_r. destruct (_ && _) eqn:Eu; [|by left]. right. apply andb_prop in Eu as [? ?]. by bool_inv.
  - destruct a as [[res ev] err]. unfold recorded_as. cbn [er_RemoteState er_BackendPID er_Status er_ErrorCode er_RowCount er_ErrorMessage fst snd].
    split; [done|]. split; [done|]. split.
    + intros Hc. rewrite verdict_of_fault in Ev by done. by injection Ev as <- <- <- <-.
    + intros Hc. pose proof Hc as Hc'. apply verdict_of_consistent in Hc as (code' & msg' & rows' & Hv & Hf). rewrite Hv in Ev. cbn [fst snd] in *.
      injection Ev as <- <- <- <-. destruct err as [e|]; [|by destruct Hf as (-> & -> & ?)].
      destruct Hf as [-> Hf]. split; [done|]. split; [|done]. destruct ev as [ev|]; cbn; [|apply failed_not_success].
      destruct res; cbn in Hc'; by apply Hc'.
Qed.

Lemma aligned_evidence ev status : ev_Status (align_evidence ev status) = status ∧ ev_RemoteState (align_evidence ev status) = ev_RemoteState ev.
Proof. unfold align_evidence. case_if as E; [done|]. by bool_inv. Qed.

Lemma delivered_answer_spec p a rec i : recorded_as a rec → stored_answer p a rec i (delivered_answer p a rec i).
Proof.
  destruct a as [[res ev] err]. intros (Hrem & _ & Hbad & Hgood). destruct (consistent_dec (res, ev, err)) as [Hc|Hc].
  - specialize (Hgood Hc). destruct err as [e|].
    + unfold delivered_answer. rewrite (proj2 (fault_spec _)) by done.
      destruct (aligned_evidence (default_evidence ev) (er_Status rec)) as [Ha1 Ha2].
      unfold stored_answer. cbn. split_and!; try done; [eexists; split; [done|by rewrite Ha1, Ha2, Hrem]|].
      destruct res; cbn; (split; [done|]; left; done).
    + destruct res as [res|], ev as [ev|]; try done. destruct Hc as [He Hw]. destruct Hgood as (Hs & _).
      cbn in Hrem. unfold id in Hrem. destruct (delivered_released p res ev rec i He Hw Hs) as [[-> Hcap]|[-> Hcap]];
        unfold stored_answer; cbn; (split; [done|]); (split; [done|]);
        (split; [exists ev; by rewrite He, Hs|]); (split; [done|]); [left|right; left]; by split_and!.
  - destruct (Hbad Hc) as (Hs & _). unfold delivered_answer. rewrite <- fault_spec in Hc.
    destruct (contract_fault (res, ev, err)) eqn:Ef; [|done].
    destruct (aligned_evidence (default_evidence ev) (er_Status rec)) as [Ha1 Ha2].
    unfold stored_answer. cbn [fst snd co_ExecutionID co_Status co_Evidence co_Delivery].
    split; [done|]. split; [done|]. split; [eexists; split; [done|by rewrite Ha1, Ha2, Hrem]|]. split; [done|].
    assert (¬ consistent (res, ev, err)) as Hn by (rewrite <- fault_spec; congruence).
    unfold released_as. destruct res, err; cbn; try (split; [done|]; right; done). right. by right.
Qed.

Lemma run_claimed_spec outcome p c :
  (∃ t, c = pg_claim_input p t) →
  triple (run_claimed (S := S) now svc_ outcome p)
    (λ ans t, runner_answer p (outcome (ba_dsn (cp_access p)) (disclosure_input (pv_policies svc_) p)) ans (CallClaim c (Ok tt) :: t)).
Proof.
  intros Hc. unfold run_claimed. eapply triple_bind; [apply triple_tick|]. intros finished ? ->.
  eapply triple_bind; [apply triple_finalize|]. intros r ? ->. apply triple_ret. cbn [app].
  destruct (claimed_record_spec p (outcome (ba_dsn (cp_access p)) (disclosure_input (pv_policies svc_) p)) finished) as [Hk Hr].
  apply ra_finalized; try done. destruct r as [id|e]; [|done]. by apply delivered_answer_spec.
Qed.

(** The runner's contract holds of every prepared request of a known kind. *)
Lemma runner_spec outcome p :
  es_claim_capable = true → known_kind (cp_kind p) = true →
  triple (executePGClaimedPrepared (S := S) now svc_ outcome p)
    (runner_answer p (outcome (ba_dsn (cp_access p)) (disclosure_input (pv_policies svc_) p))).
Proof.
  intros Hcap Hk. unfold executePGClaimedPrepared. rewrite Hcap, Hk. cbn [negb].
  eapply triple_bind; [apply triple_tick|]. intros tc ? ->. eapply triple_bind; [apply triple_claim|]. intros w ? ->. cbn [app].
  assert (∃ t, pg_claim_input p tc = pg_claim_input p t) as Hc by eauto. generalize dependent (pg_claim_input p tc). intros c Hc.
  destruct w as [[]|w]; [by apply run_claimed_spec|].
  assert (w ≠ ErrQueryExecutionClaimExists → w ≠ ErrQueryExecutionClaimConflict →
    triple (failPGClaimedAccess now (ba_Target (cp_access p)) (cp_identity p) (cp_kind p)
      (cp_nullKeyDatabase p) (cp_nullKeySchema p) (cp_nullKeyDigest p) (cp_start p))
      (λ ans t, runner_answer p (outcome (ba_dsn (cp_access p)) (disclosure_input (pv_policies svc_) p)) ans (CallClaim c (Err w) :: t))) as Hlost.
  { intros H1 H2. eapply triple_mono; [apply refusal_spec|]. cbn beta. intros ans t (rec & r & -> & Hkl & Hs & _ & _ & _ & _ & _ & ->).
    by apply ra_undecided. }
  destruct w; try (by apply Hlost); apply triple_ret; apply ra_taken; auto.
Qed.
End runner.

(** ** The entries' contract *)

(** Answers that leave nothing: there is no target to attribute a record to, or
    the service is not wired for the entry. *)
Definition pg_silent (e : pg_entry_error) : Prop := e = PgValidation ∨ e = PgTargetNotFound ∨ e = PgBackendFailure.

(** The status recorded for a refusal before the claim. *)
Definition refusal_status (e : pg_entry_error) : bytes :=
  match e with
  | PgBackendFailure => QueryExecutionFailed
  | PgError e => pgAttemptStatus (Some e)
  | _ => QueryExecutionRejected
  end.

(** [mine] holds of the prepared requests of this entry, [run] is its attempt. *)
Inductive pg_entry_outcome (identity : QueryExecutionIdentity) (targetID : Z) (kind : pgClaimedEntryKind)
    (mine : pgClaimedPrepared → Prop) (run : pgClaimedPrepared → pg_attempt_result) : pg_answer → list store_call → Prop :=
  | po_silent e : pg_silent e → pg_entry_outcome identity targetID kind mine run (no_outcome, Some e) []
  | po_refused e target rec r :
      tg_ResourceID target = targetID → keyless identity target rec → er_Status rec = refusal_status e →
      pg_entry_outcome identity targetID kind mine run
        (no_outcome, Some (match r with Ok _ => e | Err _ => PgPersistAttempt end))
        [CallInsert rec (keyedAuditEvent kind) (auditResultFor (er_Status rec)) r]
  | po_run p ans t :
      mine p → cp_kind p = kind → runner_answer p (run p) ans t →
      pg_entry_outcome identity targetID kind mine run ans t.

(** The attempt a service makes of a prepared request. *)
Definition attempt_of (svc_ : pg_service) (p : pgClaimedPrepared) : pg_attempt_result :=
  match pv_outcome svc_ with
  | Some outcome => outcome (ba_dsn (cp_access p)) (disclosure_input (pv_policies svc_) p)
  | None => (None, None, None)
  end.

(** The request the ordinary entry hands to the runner. *)
Definition ordinary_request (svc_ : pg_service) (identity : QueryExecutionIdentity) (targetID : Z) (req : PGClaimedExecuteRequest)
    (p : pgClaimedPrepared) : Prop :=
  ∃ access page pageSize start, claimed_shape identity req = Some (page, pageSize)
    ∧ ResolvePGExecution (pv_access svc_) targetID (xr_Database req) = Ok access
    ∧ p = ordinary_prepared identity targetID req access page pageSize start.

Lemma pg_resolve_target env targetID database t :
  access_target (ResolvePGExecution env targetID database) = Some t → tg_ResourceID t = targetID.
Proof.
  intros H. apply (findTarget_id env). revert H. unfold ResolvePGExecution, resolvePGMetadata, access_target.
  destruct (findTarget env targetID) as [target|e] eqn:E; cbn [mbind result_bind].
  - intros H. f_equal. repeat case_match; simplify_eq; done.
  - unfold findTarget in E. by repeat case_match; simplify_eq.
Qed.

Section entry.
Context {S : Type} `{!EvidenceStore S} (now : nat → Z) (svc_ : pg_service).
Implicit Types (identity : QueryExecutionIdentity) (kind : pgClaimedEntryKind).

Lemma refused_spec identity targetID kind mine run e :
  pg_silent e → triple (refused (S := S) e) (pg_entry_outcome identity targetID kind mine run).
Proof. intros He. apply triple_ret. by apply po_silent. Qed.

Lemma refusal_outcome target identity targetID kind mine run database schema digest status code msg retErr start :
  tg_ResourceID target = targetID → status = refusal_status retErr →
  triple (record_refusal (S := S) now target identity kind database schema digest status code msg retErr start)
    (pg_entry_outcome identity targetID kind mine run).
Proof.
  intros Ht Hs. eapply triple_mono; [apply refusal_spec|]. cbn beta. intros ans t (rec & r & -> & Hk & <- & _ & _ & _ & _ & _ & ->).
  by eapply po_refused.
Qed.

Lemma fail_outcome target identity targetID kind mine run database schema digest start :
  tg_ResourceID target = targetID →
  triple (failPGClaimedAccess (S := S) now target identity kind database schema digest start)
    (pg_entry_outcome identity targetID kind mine run).
Proof. intros Ht. by apply refusal_outcome. Qed.

Lemma run_outcome identity targetID kind (mine : pgClaimedPrepared → Prop) outcome p :
  es_claim_capable = true → known_kind kind = true → cp_kind p = kind → mine p → pv_outcome svc_ = Some outcome →
  triple (executePGClaimedPrepared (S := S) now svc_ outcome p) (pg_entry_outcome identity targetID kind mine (attempt_of svc_)).
Proof.
  intros Hc Hk Hp Hm Ho. eapply triple_mono; [apply (runner_spec now svc_ outcome p Hc); by rewrite Hp|].
  cbn beta. intros ans t H. eapply po_run; [done|done|]. unfold attempt_of. by rewrite Ho.
Qed.

Lemma access_refusal_spec identity targetID kind mine run database schema digest start e db :
  ResolvePGExecution (pv_access svc_) targetID db = Err e →
  triple (access_refusal e (λ target, rejectPGClaimedAccess now target identity kind database schema digest e start))
    (pg_entry_outcome identity targetID kind mine run).
Proof.
  intros He. pose proof (pg_resolve_target (pv_access svc_) targetID db) as Ht. rewrite He in Ht.
  destruct e; cbn [access_refusal]; first [by apply refused_spec; unfold pg_silent; auto|by apply refusal_outcome; [apply Ht|]].
Qed.

Lemma execute_claimed_outcome identity targetID req :
  triple (ExecutePGClaimed (S := S) now svc_ identity targetID req)
    (pg_entry_outcome identity targetID pgClaimedEntryOrdinary (ordinary_request svc_ identity targetID req) (attempt_of svc_)).
Proof.
  assert (∀ e, pg_silent e → triple (refused (S := S) e) (pg_entry_outcome identity targetID pgClaimedEntryOrdinary
    (ordinary_request svc_ identity targetID req) (attempt_of svc_))) as Hq by (intros; by apply refused_spec).
  unfold ExecutePGClaimed. destruct (claimed_shape identity req) as [[page pageSize]|] eqn:Es; [|apply Hq; by left].
  destruct (pv_policies svc_), (pv_outcome svc_) as [outcome|] eqn:Eo; try (apply Hq; unfold pg_silent; by auto).
  destruct es_claim_capable eqn:Ec; cbn [negb]; [|apply Hq; unfold pg_silent; by auto].
  eapply triple_bind; [apply triple_tick|]. intros start ? ->. cbn [app].
  destruct (ResolvePGExecution _ _ _) as [access|e] eqn:Ea.
  - apply run_outcome; try done. by exists access, page, pageSize, start.
  - by eapply access_refusal_spec.
Qed.
End entry.

(** ** Resolved budgets *)

Lemma max_rows_bounds environment requested :
  let rows := resolvePGClaimMaxRows environment requested in
  (1 ≤ rows ≤ pgClaimHardMaxRows)%Z
  ∧ (isProductionEnvironment environment = true → rows ≤ productionHardMaxRows)%Z
  ∧ (1 ≤ requested ≤ (if isProductionEnvironment environment then productionHardMaxRows else pgClaimHardMaxRows) → rows = requested)%Z.
Proof.
  cbv zeta. unfold resolvePGClaimMaxRows, clampProductionMaxRows, pgClaimHardMaxRows, pgClaimDefaultMaxRows, productionHardMaxRows.
  destruct (isProductionEnvironment environment); cbn [andb];
    repeat match goal with |- context [if ?b then _ else _] =>
      lazymatch b with context [if _ then _ else _] => fail | _ => destruct b eqn:?; bool_inv end end; lia.
Qed.

Lemma claim_window page pageSize window :
  resolvePGClaimPagination page pageSize = Some window →
  ValidatePagination window.1 window.2 = Ok tt ∧ ((page, pageSize) ≠ (0, 0)%Z → window = (page, pageSize)).
Proof.
  unfold resolvePGClaimPagination. case_if as E; [intros [= <-]; bool_inv; by subst|].
  case_if as E1; [done|]. destruct (ValidatePagination page pageSize) as [[]|] eqn:Ev; [|done]. by intros [= <-].
Qed.

(** The budgets of a PostgreSQL execution. Whatever the client asks for, the
    prepared request fetches between 1 and 500 rows in total, at most 100 in
    production, and exactly what was asked when that is allowed; its page window
    is a valid one, the requested one unless none was given; its time budget is
    the environment's; and its schema is the requested one, byte for byte, or
    else the connection's default. *)
Theorem pg_request_budget svc_ identity targetID req p :
  ordinary_request svc_ identity targetID req p →
  let environment := tg_Environment (ba_Target (cp_access p)) in
  (1 ≤ cp_maxRows p ≤ pgClaimHardMaxRows)%Z
  ∧ (isProductionEnvironment environment = true → cp_maxRows p ≤ productionHardMaxRows)%Z
  ∧ (1 ≤ xr_MaxRows req ≤ (if isProductionEnvironment environment then productionHardMaxRows else pgClaimHardMaxRows)
     → cp_maxRows p = xr_MaxRows req)%Z
  ∧ ValidatePagination (cp_page p) (cp_pageSize p) = Ok tt
  ∧ ((xr_Page req, xr_PageSize req) ≠ (0, 0)%Z → (cp_page p, cp_pageSize p) = (xr_Page req, xr_PageSize req))
  ∧ cp_timeout p = query_timeout environment
  ∧ cp_schema p = (if xr_Schema req =?b [] then cm_DefaultSchema (ba_Credential (cp_access p)) else xr_Schema req).
Proof.
  intros (access & page & pageSize & start & Hs & _ & ->). unfold ordinary_prepared, resolvePGClaimedDefaults. cbn.
  pose proof (max_rows_bounds (tg_Environment (ba_Target access)) (xr_MaxRows req)) as (H1 & H2 & H3).
  split; [done|]. split; [done|]. split; [done|].
  assert (resolvePGClaimPagination (xr_Page req) (xr_PageSize req) = Some (page, pageSize)) as Hw.
  { revert Hs. unfold claimed_shape. do 8 (case_if as E; [done|]; clear E). destruct (resolvePGClaimPagination _ _) as [w|]; [|done].
    case_if as E; [done|]. by intros [= ->]. }
  apply claim_window in Hw as [Hv Hq]. split; [done|]. split; [done|]. done.
Qed.

(** ** The ordinary entry *)

