(* ===== verification/PgSaved.v ===== *)
(** * The keyed PostgreSQL saved-statement entry

    [internal/service/query_pg_saved_orchestration.go]: one snapshot of the
    statement is read and authorised, its values are checked and compiled into a
    parameter plan, and the runner of PgClaimed does the rest. *)
From S2P Require Import Prelude GoText GoJson ClaimDigest ExecModel ResultContract ClaimStore TargetAccess QueryGuard MysqlAttempt PgLexer TemplateCompiler.
From S2P Require Import SavedLibrary MysqlSaved PgPagination PgErrors PgVerifier PgDisclosure PgParams PgAttempt PgClaimed.

(** ** What the entry is wired with *)

(** The sentinels the entry looks for in the reader's error, in its order. *)
Record pg_read_failure : Type := PgReadFailure {
  gf_canceled : bool;
  gf_timeout : bool; (** a deadline, or [ErrQueryTimeout] *)
  gf_no_rows : bool;
}.

Record saved_wiring : Type := SavedWiring {
  sw_statements : option (Z → Z → result pg_read_failure QuerySavedStatement);
  sw_compiler : bool;
}.

(** ** The request *)

Definition saved_window (req : QuerySavedStatementExecuteRequest) : Z * Z :=
  match xq_Pagination req with
  | Some p => (pr_Page p, pr_PageSize p)
  | None => (1%Z, pgClaimDefaultPageSize)
  end.

Definition saved_shape (identity : QueryExecutionIdentity) (statementID : Z) (req : QuerySavedStatementExecuteRequest) : bool :=
  is_ok (identity_Validate identity)
  && (id_Kind identity =?b QueryExecutionActorUser)
  && negb (statementID =? 0)%Z
  && negb (xq_ClientExecutionID req =?b [])
  && is_ok (ValidateClientExecutionID (xq_ClientExecutionID req))
  && negb (contains_byte nul (xq_ClientExecutionID req))
  && saved_execute_Validate req.

(** The statement and its window, and no value. *)
Definition saved_raw_digest (statementID : Z) (req : QuerySavedStatementExecuteRequest) : bytes :=
  let '(page, pageSize) := saved_window req in
  DigestSavedStatement (SavedInput [] [] statementID [] page pageSize (xq_MaxRows req)).

(** Outer [None]: a type assertion fails. *)
Definition pg_digest_value (d : TemplateParameterDefinition) (v : tvalue) : option (option ClaimDigestNamedValue) :=
  let named nv := Some (Some (NamedValue (td_Name d) (nv_Kind nv) (nv_Text nv))) in
  if td_Type d =?b TemplateParameterString then
    match v with TString text => named (ClaimDigestString text) | _ => None end
  else if td_Type d =?b TemplateParameterInteger then
    match v with TInt64 n => named (ClaimDigestInteger n) | _ => None end
  else if td_Type d =?b TemplateParameterDecimal then
    match v with TString text => named (ClaimDigestDecimal text) | _ => None end
  else if td_Type d =?b TemplateParameterBoolean then
    match v with TBool b => named (ClaimDigestBoolean b) | _ => None end
  else Some None.

Fixpoint pgClaimedSavedDigestValues (definitions : list TemplateParameterDefinition) (values : gmap bytes tvalue)
    : option (list ClaimDigestNamedValue) :=
  match definitions with
  | [] => Some []
  | d :: definitions =>
    match values !! td_Name d with
    | None => pgClaimedSavedDigestValues definitions values
    | Some v =>
      nv ← pg_digest_value d v;
      rest ← pgClaimedSavedDigestValues definitions values;
      Some (match nv with Some nv => nv :: rest | None => rest end)
    end
  end.

Definition saved_database (stmt : QuerySavedStatement) : bytes := sq_Database (ss_Content stmt).
Definition saved_schema (stmt : QuerySavedStatement) : bytes := sq_Schema (ss_Content stmt).

(** The statement is the requested one, visible to the caller, and on the
    database the caller's scope names, if it names one. *)
Definition saved_in_scope (identity : QueryExecutionIdentity) (targetID statementID : Z)
    (req : QuerySavedStatementExecuteRequest) (stmt : QuerySavedStatement) : bool :=
  visible (id_ID identity) targetID statementID stmt
  && negb (negb (xq_ScopeDatabase req =?b []) && negb (xq_ScopeDatabase req =?b saved_database stmt)).

Definition saved_prepared (identity : QueryExecutionIdentity) (targetID statementID : Z)
    (req : QuerySavedStatementExecuteRequest) (stmt : QuerySavedStatement) (access : BoundTargetAccess)
    (plan : pgParameterPlan) (named : list ClaimDigestNamedValue) (start : Z) : pgClaimedPrepared :=
  let '(page, pageSize) := saved_window req in
  let '(schema, maxRows, timeout) := resolvePGClaimedDefaults access (saved_schema stmt) (xq_MaxRows req) in
  let database := cm_DatabaseName (ba_Credential access) in
  let digest := DigestSavedStatement (SavedInput database schema statementID named page pageSize maxRows) in
  ClaimedPrepared pgClaimedEntrySaved access identity targetID (xq_ClientExecutionID req) database schema page pageSize
    maxRows timeout start (pn_statement plan) digest (xq_Capabilities req)
    (saved_database stmt) (saved_schema stmt) (saved_raw_digest statementID req) (Some plan) true None.

(** ** The operations *)

Section saved.
Context {S : Type} `{!EvidenceStore S} (now : nat → Z) (svc_ : pg_service) (wiring : saved_wiring).

Definition rejectPGClaimedSavedNotFound (target : QueryTarget) (identity : QueryExecutionIdentity) (digest : bytes) (start : Z)
    : svc S pg_answer :=
  record_refusal now target identity pgClaimedEntrySaved [] [] digest QueryExecutionRejected
    (gs "saved_statement_not_found") (gs "saved statement not found") PgSavedNotFound start.

Definition terminalPGClaimedSavedRead (target : QueryTarget) (identity : QueryExecutionIdentity) (digest status code msg : bytes)
    (retErr : pg_entry_error) (start : Z) : svc S pg_answer :=
  record_refusal now target identity pgClaimedEntrySaved [] [] digest status code msg retErr start.

(** The reader's failure; its own error never leaves this switch. *)
Definition saved_read_failed (target : QueryTarget) (identity : QueryExecutionIdentity) (digest : bytes)
    (f : pg_read_failure) (start : Z) : svc S pg_answer :=
  if gf_canceled f then
    terminalPGClaimedSavedRead target identity digest QueryExecutionCancelled (gs "query_cancelled") (gs "query canceled")
      (PgError (wrap IsCanceled)) start
  else if gf_timeout f then
    terminalPGClaimedSavedRead target identity digest QueryExecutionTimeout (gs "query_timeout")
      (gs "query exceeded the time limit") (PgError (wrap IsTimeout)) start
  else if gf_no_rows f then rejectPGClaimedSavedNotFound target identity digest start
  else failPGClaimedAccess now target identity pgClaimedEntrySaved [] [] digest start.

(** Steps 6 to 9, with the statement and its access at hand. *)
Definition saved_run (outcome : bytes → PGDisclosureInput → pg_attempt_result) (target : QueryTarget)
    (identity : QueryExecutionIdentity) (targetID statementID : Z) (req : QuerySavedStatementExecuteRequest)
    (stmt : QuerySavedStatement) (access : BoundTargetAccess) (start : Z) : svc S pg_answer :=
  let refuse := λ msg err,
    record_refusal now target identity pgClaimedEntrySaved (saved_database stmt) (saved_schema stmt)
      (saved_raw_digest statementID req) QueryExecutionRejected (gs "validation_failed") msg err start in
  let '(values, fields) := validateTemplateValues (ss_Parameters stmt) (xq_Values req) in
  if negb (bool_decide (fields = ∅)) then refuse (gs "template parameter validation failed") (PgTemplateValues fields)
  else match compilePGPlan (saved_input stmt values) with
  | Err _ => refuse (gs "saved statement validation failed") PgValidation
  | Ok plan =>
    match pgClaimedSavedDigestValues (ss_Parameters stmt) values with
    | None => refused PgPanic
    | Some named =>
      executePGClaimedPrepared now svc_ outcome
        (saved_prepared identity targetID statementID req stmt access plan named start)
    end
  end.

(** Steps 3 to 5, once the target is known. *)
Definition saved_load (outcome : bytes → PGDisclosureInput → pg_attempt_result)
    (read : Z → Z → result pg_read_failure QuerySavedStatement) (target : QueryTarget)
    (identity : QueryExecutionIdentity) (targetID statementID : Z) (req : QuerySavedStatementExecuteRequest) (start : Z)
    : svc S pg_answer :=
  let digest := saved_raw_digest statementID req in
  match read targetID statementID with
  | Err f => saved_read_failed target identity digest f start
  | Ok stmt =>
    if negb (saved_in_scope identity targetID statementID req stmt)
    then rejectPGClaimedSavedNotFound target identity digest start
    else match ResolvePGExecution (pv_access svc_) targetID (saved_database stmt) with
    | Err AccessTargetNotFound => refused PgTargetNotFound
    | Err (AccessSchemaValidationFailed _) =>
      failPGClaimedAccess now target identity pgClaimedEntrySaved (saved_database stmt) (saved_schema stmt) digest start
    | Err ((AccessDenied denied _ | AccessConnectionNotFound denied | AccessConnectionDisabled denied
            | AccessBindingMismatch denied) as e) =>
      rejectPGClaimedAccess now denied identity pgClaimedEntrySaved (saved_database stmt) (saved_schema stmt) digest e start
    | Ok access => saved_run outcome target identity targetID statementID req stmt access start
    end
  end.

Definition ExecutePGSavedStatementClaimed (identity : QueryExecutionIdentity) (targetID statementID : Z)
    (req : QuerySavedStatementExecuteRequest) : svc S pg_answer :=
  if negb (saved_shape identity statementID req) then refused PgValidation
  else match sw_statements wiring, sw_compiler wiring, pv_policies svc_, pv_outcome svc_ with
  | Some read, true, Some _, Some outcome =>
    if negb es_claim_capable then refused PgBackendFailure
    else
      start ← tick now;
      match findTarget (pv_access svc_) targetID with
      | Err _ => refused PgTargetNotFound
      | Ok target => saved_load outcome read target identity targetID statementID req start
      end
  | _, _, _, _ => refused PgBackendFailure
  end.
End saved.

(** ** Lemmas *)

Lemma decode_pg_digests d m v : decodeTemplateValue d m = Ok v → is_Some (pg_digest_value d v).
Proof.
  unfold decodeTemplateValue, pg_digest_value. cbv zeta. destruct (decode_scalar m) as [[text|text|b]|]; [| | |done].
  - case_if as E1; [|case_if as E2; [|done]].
    + case_if as E2; [done|]. intros [= <-]. by eexists.
    + case_if as E3; [done|]. case_if as E4; [|done]. intros [= <-]. case_if as E5; [by bool_inv; rewrite E2 in E5|]. by eexists.
  - case_if as E1; [|done]. destruct (parse_int text) as [n|]; [|done]. intros [= <-]. bool_inv. rewrite E1. by eexists.
  - case_if as E1; [|done]. intros [= <-]. bool_inv. rewrite E1. by eexists.
Qed.

Lemma plan_names input plan : compilePGPlan input = Ok plan → NoDup (td_Name <$> ti_Definitions input).
Proof.
  unfold compilePGPlan, CompilePG. intros H. res_inv.
  match goal with H : compilePGDeclaration _ _ = Ok _ |- _ => apply compilePGDeclaration_ok in H as (declared & markers & Hd & _) end.
  unfold templateDeclarations in Hd. test_in Hd as El; [done|]. by apply declare_ok in Hd as [Hnd _].
Qed.

Lemma pg_digest_values_some ds values :
  (∀ d v, d ∈ ds → values !! td_Name d = Some v → is_Some (pg_digest_value d v)) → is_Some (pgClaimedSavedDigestValues ds values).
Proof.
  induction ds as [|d ds IH]; intros Hin; cbn [pgClaimedSavedDigestValues]; [by eexists|].
  destruct IH as [rest Hrest]; [intros d' v Hd'; apply Hin; by right|]. destruct (values !! td_Name d) as [v|] eqn:Ev; [|by eexists].
  destruct (Hin d v ltac:(by left) Ev) as [nv ->]. cbn [mbind option_bind]. rewrite Hrest. by destruct nv; eexists.
Qed.

(** Once the values are checked and the statement compiles, no assertion fails. *)
Lemma saved_digest_total input raw values plan :
  validateTemplateValues (ti_Definitions input) raw = (values, ∅) → compilePGPlan input = Ok plan →
  is_Some (pgClaimedSavedDigestValues (ti_Definitions input) values).
Proof.
  intros Hv Hp. apply plan_names in Hp. apply pg_digest_values_some. intros d v Hd Hl.
  unfold validateTemplateValues in Hv. apply fold_values in Hv as (_ & Hin & _); [|done].
  destruct (Hin d Hd) as (m & v' & _ & Hdec & Hl'). rewrite Hl in Hl'. injection Hl' as <-. by eapply decode_pg_digests.
Qed.

(** ** The contract *)

Section contract.
Context {S : Type} `{!EvidenceStore S} (now : nat → Z) (svc_ : pg_service) (wiring : saved_wiring).
Context (identity : QueryExecutionIdentity) (targetID statementID : Z) (req : QuerySavedStatementExecuteRequest).

(** What the caller may run: the requested statement of that target, shared or the
    caller's own, on the database of the caller's scope where one is named. *)
Definition readable (stmt : QuerySavedStatement) : Prop :=
  ss_ID stmt = statementID ∧ ss_TargetResourceID stmt = targetID
  ∧ (ss_Scope stmt = QuerySavedStatementSharedTemplate ∨ ss_Scope stmt = QuerySavedStatementPersonal ∧ ss_OwnerUserID stmt = id_ID identity)
  ∧ (xq_ScopeDatabase req = [] ∨ xq_ScopeDatabase req = saved_database stmt).

(** The request the entry hands to the runner: the requested statement, visible
    to its caller and in the caller's scope, on its own database, compiled with
    values that were all accepted. *)
Definition saved_request (p : pgClaimedPrepared) : Prop :=
  ∃ read stmt access values plan named start,
    sw_statements wiring = Some read ∧ read targetID statementID = Ok stmt
    ∧ readable stmt
    ∧ ResolvePGExecution (pv_access svc_) targetID (saved_database stmt) = Ok access
    ∧ validateTemplateValues (ss_Parameters stmt) (xq_Values req) = (values, ∅)
    ∧ compilePGPlan (saved_input stmt values) = Ok plan
    ∧ pgClaimedSavedDigestValues (ss_Parameters stmt) values = Some named
    ∧ p = saved_prepared identity targetID statementID req stmt access plan named start.

Abbreviation saved_outcome := (pg_entry_outcome identity targetID pgClaimedEntrySaved saved_request (attempt_of svc_)).

Lemma in_scope_readable stmt : saved_in_scope identity targetID statementID req stmt = true ↔ readable stmt.
Proof.
  unfold saved_in_scope, visible, scope_Validate, readable.
  assert (QuerySavedStatementPersonal ≠ QuerySavedStatementSharedTemplate) by by vm_compute.
  destruct (Z.eqb_spec (ss_ID stmt) statementID), (Z.eqb_spec (ss_TargetResourceID stmt) targetID), (Z.eqb_spec (ss_OwnerUserID stmt) (id_ID identity));
    repeat case_bool_decide; cbn; intuition congruence.
Qed.

Lemma saved_prepared_kind stmt access plan named start :
  cp_kind (saved_prepared identity targetID statementID req stmt access plan named start) = pgClaimedEntrySaved.
Proof. unfold saved_prepared. by destruct (saved_window req). Qed.

Lemma saved_run_outcome outcome read target stmt access start :
  es_claim_capable = true → pv_outcome svc_ = Some outcome → tg_ResourceID target = targetID →
  sw_statements wiring = Some read → read targetID statementID = Ok stmt →
  saved_in_scope identity targetID statementID req stmt = true →
  ResolvePGExecution (pv_access svc_) targetID (saved_database stmt) = Ok access →
  triple (saved_run (S := S) now svc_ outcome target identity targetID statementID req stmt access start) saved_outcome.
Proof.
  intros Hc Ho Ht Hw Hr Hs Ha. unfold saved_run. destruct (validateTemplateValues _ _) as [values fields] eqn:Ev.
  case_bool_decide as Ef; cbn [negb]; [|by apply refusal_outcome]. subst fields.
  destruct (compilePGPlan _) as [plan|e] eqn:Ep; [|by apply refusal_outcome].
  destruct (saved_digest_total (saved_input stmt values) _ _ _ Ev Ep) as [named Hn]. cbn [ti_Definitions saved_input] in Hn. rewrite Hn.
  apply in_scope_readable in Hs. apply run_outcome; try done; [by apply saved_prepared_kind|]. by exists read, stmt, access, values, plan, named, start.
Qed.

Lemma saved_load_outcome outcome read target start :
  es_claim_capable = true → pv_outcome svc_ = Some outcome → tg_ResourceID target = targetID → sw_statements wiring = Some read →
  triple (saved_load (S := S) now svc_ outcome read target identity targetID statementID req start) saved_outcome.
Proof.
  intros Hc Ho Ht Hw. unfold saved_load. destruct (read targetID statementID) as [stmt|f] eqn:Er.
  2: { unfold saved_read_failed. repeat case_match; by apply refusal_outcome. }
  destruct (saved_in_scope _ _ _ _ _) eqn:Es; cbn [negb]; [|by apply refusal_outcome].
  destruct (ResolvePGExecution _ _ _) as [access|e] eqn:Ea; [by eapply saved_run_outcome|].
  pose proof (pg_resolve_target (pv_access svc_) targetID (saved_database stmt)) as Htr. rewrite Ea in Htr.
  destruct e; try (apply refusal_outcome; [first [done|by apply Htr]|done]).
  apply refused_spec. unfold pg_silent. auto.
Qed.

Lemma saved_claimed_outcome :
  triple (ExecutePGSavedStatementClaimed (S := S) now svc_ wiring identity targetID statementID req) saved_outcome.
Proof.
  assert (∀ e, pg_silent e → triple (refused (S := S) e) saved_outcome) as Hq by (intros; by apply refused_spec).
  unfold ExecutePGSavedStatementClaimed. destruct (saved_shape _ _ _); cbn [negb]; [|apply Hq; by left].
  destruct (sw_statements wiring) as [read|] eqn:Er, (sw_compiler wiring), (pv_policies svc_), (pv_outcome svc_) as [outcome|] eqn:Eo;
    try (apply Hq; unfold pg_silent; by auto).
  destruct es_claim_capable eqn:Ec; cbn [negb]; [|apply Hq; unfold pg_silent; by auto].
  eapply triple_bind; [apply triple_tick|]. intros start ? ->. cbn [app].
  destruct (findTarget _ _) as [target|e] eqn:Ef; [|apply Hq; unfold pg_silent; by auto].
  apply saved_load_outcome; try done. by apply findTarget_id in Ef.
Qed.
End contract.

(** The same contract for PostgreSQL saved statements. The claim and the run
    are of the requested statement, shared or the caller's own, on its own
    database and schema, compiled with values that were all accepted; what the
    claim covers are those typed values; and no record carries any text of the
    statement, before the claim or after it. *)
Theorem pg_saved_contract {S} `{!EvidenceStore S} now svc_ wiring identity targetID statementID req :
  triple (ExecutePGSavedStatementClaimed (S := S) now svc_ wiring identity targetID statementID req)
    (pg_entry_outcome identity targetID pgClaimedEntrySaved (saved_request svc_ wiring identity targetID statementID req)
       (attempt_of svc_)).
Proof. apply saved_claimed_outcome. Qed.

(** The reader with one statement hidden: it answers no rows. *)
Definition hide_statement (read : Z → Z → result pg_read_failure QuerySavedStatement) (targetID statementID : Z)
    : Z → Z → result pg_read_failure QuerySavedStatement :=
  λ t i, if (t =? targetID)%Z && (i =? statementID)%Z then Err (PgReadFailure false false true) else read t i.

(** On PostgreSQL too, a statement the caller may not see, because it is
    somebody else's personal one or outside the caller's database scope, answers
    exactly like one that does not exist: the same error, the same record, no
    claim. *)
Theorem pg_execution_hidden {S} `{!EvidenceStore S} now svc_ read compiler identity targetID statementID req stmt (st : svc_state S) :
  read targetID statementID = Ok stmt → ¬ readable identity targetID statementID req stmt →
  ExecutePGSavedStatementClaimed now svc_ (SavedWiring (Some read) compiler) identity targetID statementID req st
  = ExecutePGSavedStatementClaimed now svc_ (SavedWiring (Some (hide_statement read targetID statementID)) compiler)
      identity targetID statementID req st.
Proof.
  intros Hr Hs. rewrite <- in_scope_readable in Hs. apply not_true_is_false in Hs.
  unfold ExecutePGSavedStatementClaimed. cbn [sw_statements sw_compiler].
  destruct (saved_shape _ _ _); [|done]. cbn [negb]. destruct compiler, (pv_policies svc_), (pv_outcome svc_); try done.
  destruct es_claim_capable; [|done]. cbn [negb]. unfold mbind, svc_bind. destruct (tick now st) as [start st'].
  destruct (findTarget _ _); [|done]. unfold saved_load. rewrite Hr, Hs. unfold hide_statement. rewrite !Z.eqb_refl. done.
Qed.
