(* ===== verification/PgNavigate.v ===== *)
(** * The keyed PostgreSQL navigation entry

    [internal/service/query_pg_navigation_orchestration.go] and
    [preparePGNavigation] of [pg_navigation.go]: the foreign key is read in one
    read-only transaction before any claim, the locator values become a
    navigation plan, and the runner of PgClaimed does the rest. *)
From S2P Require Import Prelude GoText ClaimDigest ExecModel ResultContract ClaimStore TargetAccess MysqlAttempt MysqlEntries Disclosure.
From S2P Require Import PgPagination PgErrors PgVerifier PgDisclosure PgParams PgSession PgPool PgAttempt PgClaimed.

(** ** Preparation *)

Section prepare.
Context {W : Type} `{!PGDriver W}.

Definition or_prep_fail {A} (m : pg W A) : pg W A := on_error m (λ e, throw (navPrepFail e)).

(** Inside the transaction. *)
Definition nav_transaction (deadline : Z) (database schema object fk : bytes) : pg W pgNavigationBinding :=
  _ ← or_prep_fail (arm deadline);
  current ← or_prep_fail (query_row QCurrentDatabase);
  if negb (current =?b database) then throw errPGNavMetaInternal
  else
    ans ← or_prep_fail (query (QNavigation schema object fk));
    binding ← or_prep_fail (of_result (readPGNavigationBinding (an_rows ans) (an_err ans) fk));
    match binding with
    | None => throw (wrap IsNavNoSource)
    | Some binding => mret binding
    end.

(** The deferred calls, innermost first. *)
Definition nav_log (c : pg_call) (s : session W) : session W := Session (se_world s) (se_log s ++ [c]).
Definition nav_rollback {A} (m : pg W A) : pg W A := λ s,
  let '(r, s) := m s in
  let '(rb, w) := dv_rollback (se_world s) in
  (match r, rb with Ok _, Err _ => Err errPGNavMetaInternal | _, _ => r end, Session w (se_log s ++ [CRollback rb])).
Definition nav_deferred {A} (c : pg_call) (m : pg W A) : pg W A := λ s, let '(r, s) := m s in (r, nav_log c s).

Definition preparePGNavigation (database schema object fk : bytes) (timeout : Z) (w : W)
    : result pg_error pgNavigationBinding * session W :=
  let '(deadline, w) := dv_deadline timeout w in
  (_ ← or_prep_fail open_pool;
   nav_deferred CClosePools (
     _ ← or_prep_fail acquire_conn;
     nav_deferred CRelease (
       _ ← or_prep_fail driver_begin;
       nav_rollback (nav_transaction deadline database schema object fk)))) (Session w []).
End prepare.

(** ** Requests and answers *)

(** [nq_request] holds the fields shared with the public request. *)
Record PGClaimedNavigationRequest : Type := ClaimedNavigationRequest {
  nq_request : RelatedRecordNavigationRequest;
  nq_Page : Z;
  nq_PageSize : Z;
}.

Record PGNavigationRelation : Type := NavigationRelation {
  rl_Database : bytes;
  rl_SourceSchema : bytes;
  rl_SourceObject : bytes;
  rl_ForeignKey : bytes;
  rl_SourceColumns : list bytes;
  rl_ReferencedSchema : bytes;
  rl_ReferencedObject : bytes;
  rl_ReferencedColumns : list bytes;
}.

Record PGClaimedNavigationOutcome : Type := ClaimedNavigationOutcome {
  cn_Outcome : PGClaimedOutcome;
  cn_Relation : option PGNavigationRelation;
}.
Definition nav_answer : Type := PGClaimedNavigationOutcome * option pg_entry_error.
(** An answer of the shared helpers, without a relation. *)
Definition without_relation (a : pg_answer) : nav_answer := (ClaimedNavigationOutcome a.1 None, a.2).
Definition plain_answer (a : nav_answer) : pg_answer := (cn_Outcome a.1, a.2).

(** What prepares the mapping: DSN, database, schema, object, foreign key, timeout. *)
Abbreviation nav_prepare := (bytes → bytes → bytes → bytes → bytes → Z → result pg_error (option pgNavigationBinding)).

Definition nav_field_ok (value : bytes) : bool := ValidateIdentifierShape value true && valid_string value.

Definition nav_shape (identity : QueryExecutionIdentity) (q : PGClaimedNavigationRequest) : option (Z * Z) :=
  let req := nq_request q in
  let key := nr_ClientExecutionID req in
  if negb (is_ok (identity_Validate identity)) || negb (id_Kind identity =?b QueryExecutionActorUser)
     || (key =?b []) || negb (is_ok (ValidateClientExecutionID key)) || contains_byte nul key
     || negb (is_ok (navigation_Validate req))
  then None
  else match resolvePGClaimPagination (nq_Page q) (nq_PageSize q) with
  | None => None
  | Some window =>
    if forallb nav_field_ok [nr_Database req; nr_Schema req; nr_Object req; nr_ForeignKey req]
       && forallb (λ v, valid_string v && negb (contains_byte nul v)) (nr_LocalValues req)
    then Some window else None
  end.

(** Source identity and window, and no locator value. *)
Definition nav_raw_digest (req : RelatedRecordNavigationRequest) (page pageSize : Z) : bytes :=
  DigestRelatedRecords (RelatedInput (nr_Database req) (nr_Schema req) (nr_Schema req) (nr_Object req) []
                          (nr_ForeignKey req) [] page pageSize (nr_MaxRows req)).

Definition nav_prepared (identity : QueryExecutionIdentity) (targetID : Z) (req : RelatedRecordNavigationRequest)
    (page pageSize : Z) (access : BoundTargetAccess) (binding : pgNavigationBinding) (plan : pgParameterPlan) (start : Z)
    : pgClaimedPrepared :=
  let '(schema, maxRows, timeout) := resolvePGClaimedDefaults access (nr_Schema req) (nr_MaxRows req) in
  let database := cm_DatabaseName (ba_Credential access) in
  let digest := DigestRelatedRecords (RelatedInput database schema (nl_schema (nb_source binding)) (nl_name (nb_source binding))
                  (nc_localName <$> nb_pairs binding) (nb_fkName binding) (nr_LocalValues req) page pageSize maxRows) in
  ClaimedPrepared pgClaimedEntryNavigation access identity targetID (nr_ClientExecutionID req) database schema page pageSize
    maxRows timeout start (pn_statement plan) digest (nr_Capabilities req)
    (nr_Database req) (nr_Schema req) (nav_raw_digest req page pageSize) (Some plan) true (Some binding).

Definition nav_relation (access : BoundTargetAccess) (binding : pgNavigationBinding) : PGNavigationRelation :=
  NavigationRelation (cm_DatabaseName (ba_Credential access)) (nl_schema (nb_source binding)) (nl_name (nb_source binding))
    (nb_fkName binding) (nc_localName <$> nb_pairs binding) (nl_schema (nb_target binding)) (nl_name (nb_target binding))
    (nc_refName <$> nb_pairs binding).

(** ** The operations *)

Section navigate.
Context {S : Type} `{!EvidenceStore S} (now : nat → Z) (svc_ : pg_service).

Definition terminalPGClaimedNavigation (target : QueryTarget) (identity : QueryExecutionIdentity)
    (database schema digest status code msg : bytes) (retErr : pg_entry_error) (start : Z) : svc S pg_answer :=
  record_refusal now target identity pgClaimedEntryNavigation database schema digest status code msg retErr start.

(** The preparation's failure, canonical before it is looked at. *)
Definition nav_prepare_failed (target : QueryTarget) (identity : QueryExecutionIdentity) (database schema digest : bytes)
    (err : pg_error) (start : Z) : svc S pg_answer :=
  let err := navPrepFail err in
  let terminal := terminalPGClaimedNavigation target identity database schema digest in
  if error_is err IsCanceled then
    terminal QueryExecutionCancelled (gs "query_cancelled") (gs "query canceled") (PgError (wrap IsCanceled)) start
  else if error_is err IsTimeout then
    terminal QueryExecutionTimeout (gs "query_timeout") (gs "database query timed out") (PgError (wrap IsTimeout)) start
  else if error_is err IsNavNoSource then
    terminal QueryExecutionRejected (gs "navigation_source_not_found")
      (gs "navigation source object or foreign key not found") PgNavigationSource start
  else if error_is err IsVersionUnsupported || error_is err IsConnectFailed || error_is err IsVersionReadFailed then
    terminal QueryExecutionFailed (gs "query_backend_error") (gs "target database query failed") (PgError err) start
  else failPGClaimedAccess now target identity pgClaimedEntryNavigation database schema digest start.

(** Steps 4 and 5, with the coordinator's own binding. *)
Definition nav_run (outcome : bytes → PGDisclosureInput → pg_attempt_result) (identity : QueryExecutionIdentity) (targetID : Z)
    (req : RelatedRecordNavigationRequest) (page pageSize : Z) (access : BoundTargetAccess) (binding : pgNavigationBinding)
    (start : Z) : svc S nav_answer :=
  let target := ba_Target access in
  let '(schema, _, _) := resolvePGClaimedDefaults access (nr_Schema req) (nr_MaxRows req) in
  let digest := nav_raw_digest req page pageSize in
  if negb (length (nr_LocalValues req) =? length (nb_pairs binding)) then
    a ← terminalPGClaimedNavigation target identity (nr_Database req) schema digest QueryExecutionRejected
          (gs "navigation_value_mismatch") (gs "navigation local values do not match the foreign key") PgNavigationValues start;
    mret (without_relation a)
  else match newPGNavigationPlan (Some binding) (nr_LocalValues req) with
  | Err _ =>
    a ← failPGClaimedAccess now target identity pgClaimedEntryNavigation (nr_Database req) schema digest start;
    mret (without_relation a)
  | Ok plan =>
    '(out, err) ← executePGClaimedPrepared now svc_ outcome (nav_prepared identity targetID req page pageSize access binding plan start);
    mret (ClaimedNavigationOutcome out
            (if co_Status out =?b QueryExecutionSuccess then Some (nav_relation access binding) else None), err)
  end.

(** Step 3, with the access resolved. *)
Definition nav_load (outcome : bytes → PGDisclosureInput → pg_attempt_result) (prepare : nav_prepare)
    (identity : QueryExecutionIdentity) (targetID : Z) (req : RelatedRecordNavigationRequest) (page pageSize : Z)
    (access : BoundTargetAccess) (start : Z) : svc S nav_answer :=
  let target := ba_Target access in
  let '(schema, _, timeout) := resolvePGClaimedDefaults access (nr_Schema req) (nr_MaxRows req) in
  let digest := nav_raw_digest req page pageSize in
  let fail := a ← failPGClaimedAccess now target identity pgClaimedEntryNavigation (nr_Database req) schema digest start;
              mret (without_relation a) in
  match prepare (ba_dsn access) (cm_DatabaseName (ba_Credential access)) (nr_Schema req) (nr_Object req) (nr_ForeignKey req) timeout with
  | Err e =>
    a ← nav_prepare_failed target identity (nr_Database req) schema digest e start;
    mret (without_relation a)
  | Ok binding =>
    match snapshotPGNavigationBinding binding with
    | Err _ | Ok None => fail
    | Ok (Some binding) => nav_run outcome identity targetID req page pageSize access binding start
    end
  end.

Definition NavigatePGRelatedRecordsClaimed (prepare : option nav_prepare) (identity : QueryExecutionIdentity) (targetID : Z)
    (q : PGClaimedNavigationRequest) : svc S nav_answer :=
  let req := nq_request q in
  let quiet := λ e, mret (without_relation (no_outcome, Some e)) in
  match nav_shape identity q with
  | None => quiet PgValidation
  | Some (page, pageSize) =>
    match pv_policies svc_, pv_outcome svc_, prepare with
    | Some _, Some outcome, Some prepare =>
      if negb es_claim_capable then quiet PgBackendFailure
      else
        start ← tick now;
        match ResolvePGExecution (pv_access svc_) targetID (nr_Database req) with
        | Err e =>
          a ← access_refusal e (λ target,
                rejectPGClaimedAccess now target identity pgClaimedEntryNavigation (nr_Database req) (nr_Schema req)
                  (nav_raw_digest req page pageSize) e start);
          mret (without_relation a)
        | Ok access => nav_load outcome prepare identity targetID req page pageSize access start
        end
    | _, _, _ => quiet PgBackendFailure
    end
  end.
End navigate.

(** ** The preparation's behaviour *)

(** The errors a preparation can answer: bare sentinels, never the driver's. *)
Definition nav_errors : list pg_error :=
  [wrap IsCanceled; wrap IsTimeout; wrap IsVersionUnsupported; wrap IsConnectFailed; wrap IsVersionReadFailed;
   wrap IsNavNoSource; errPGNavMetaInternal].

Lemma prep_fail_fixed e : navPrepFail e ∈ nav_errors.
Proof. unfold navPrepFail, nav_errors. repeat case_match; set_solver. Qed.

(** The calls of the transaction: the budget and the two fixed reads. *)
Definition nav_call (c : pg_call) : Prop :=
  match c with
  | CExec sql _ _ => sql = set_timeout_sql
  | CRow QCurrentDatabase _ | CQuery (QNavigation _ _ _) _ => True
  | _ => False
  end.

(** [appends m P]: [m] only adds calls satisfying [P] to the log. *)
Definition appends {W A} (m : pg W A) (P : list pg_call → result pg_error A → Prop) : Prop :=
  ∀ s, let '(r, s') := m s in ∃ l, se_log s' = se_log s ++ l ∧ P l r.

Section appends.
Context {W : Type}.

Lemma appends_mono {A} (m : pg W A) (P Q : list pg_call → result pg_error A → Prop) :
  appends m P → (∀ l r, P l r → Q l r) → appends m Q.
Proof. intros Hm H s. specialize (Hm s). destruct (m s) as [r s']. destruct Hm as (l & ? & ?). eauto. Qed.

Lemma appends_ret {A} (x : A) (P : list pg_call → result pg_error A → Prop) : P [] (Ok x) → appends (W := W) (mret x) P.
Proof. intros H s. exists []. cbn. by rewrite app_nil_r. Qed.
Lemma appends_throw {A} e (P : list pg_call → result pg_error A → Prop) : P [] (Err e) → appends (W := W) (throw e) P.
Proof. intros H s. exists []. cbn. by rewrite app_nil_r. Qed.
Lemma appends_of {A} (r : result pg_error A) : appends (W := W) (of_result r) (λ l r', l = [] ∧ r' = r).
Proof. intros s. exists []. cbn. by rewrite app_nil_r. Qed.

Lemma appends_bind {A B} (m : pg W A) (f : A → pg W B) (P : list pg_call → result pg_error A → Prop) Q :
  appends m P → (∀ l e, P l (Err e) → Q l (Err e)) →
  (∀ l x, P l (Ok x) → appends (f x) (λ l' r, Q (l ++ l') r)) → appends (m ≫= f) Q.
Proof.
  intros Hm He Hf s. unfold mbind, pg_bind. specialize (Hm s). destruct (m s) as [[x|e] s1]; destruct Hm as (l & Hl & HP); [|eauto].
  specialize (Hf l x HP s1). destruct (f x s1) as [r s2]. destruct Hf as (l' & Hl' & HQ). exists (l ++ l').
  by rewrite Hl', Hl, app_assoc.
Qed.

Lemma appends_prep {A} (m : pg W A) (P Q : list pg_call → result pg_error A → Prop) :
  appends m P → (∀ l x, P l (Ok x) → Q l (Ok x)) → (∀ l e, P l (Err e) → Q l (Err (navPrepFail e))) → appends (or_prep_fail m) Q.
Proof.
  intros Hm Ho He s. unfold or_prep_fail, on_error. specialize (Hm s). destruct (m s) as [[x|e] s']; destruct Hm as (l & Hl & HP);
    exists l; (split; [done|]); [by apply Ho|by apply He].
Qed.
End appends.

Section preparation.
Context {W : Type} `{!PGDriver W}.

(** Every call is one of [nav_call], and every error a bare sentinel. *)
Definition nav_step_post {A} (l : list pg_call) (r : result pg_error A) : Prop :=
  Forall nav_call l ∧ ∀ e, r = Err e → e ∈ nav_errors.

Lemma step_err {A B} l l' e : Forall nav_call l' → nav_step_post (A := A) l (Err e) → nav_step_post (A := B) (l' ++ l) (Err e).
Proof. intros Hl [H1 H2]. split; [by apply Forall_app|]. intros ? [= <-]. by apply H2. Qed.

Lemma prep_step {A} (m : pg W A) : appends m (λ l _, Forall nav_call l) → appends (or_prep_fail m) (nav_step_post (A := A)).
Proof.
  intros Hm. eapply appends_prep; [exact Hm|..]; cbn beta; intros; (split; [done|]); [done|].
  intros ? [= <-]. apply prep_fail_fixed.
Qed.

Lemma arm_appends deadline : appends (W := W) (arm deadline) (λ l _, Forall nav_call l).
Proof.
  intros s. unfold arm. cbv [mbind pg_bind now]. destruct (ps_now _) as [t w]. destruct (pgRemainingStatementTimeoutMs _ _) as [ms|].
  - unfold exec. destruct (ps_exec _ _ _) as [r w']. eexists. split; [done|]. by repeat constructor.
  - exists []. cbn. by rewrite app_nil_r.
Qed.

(** What a mapping was read from: the database the transaction really is on,
    and the rows of the one metadata probe. *)
Definition nav_read (database schema object fk : bytes) (l : list pg_call) (binding : pgNavigationBinding) : Prop :=
  CRow QCurrentDatabase (Ok database) ∈ l
  ∧ ∃ ans, CQuery (QNavigation schema object fk) (Ok ans) ∈ l
      ∧ readPGNavigationBinding (an_rows ans) (an_err ans) fk = Ok (Some binding).

Lemma transaction_appends deadline database schema object fk :
  appends (W := W) (nav_transaction deadline database schema object fk)
    (λ l r, nav_step_post l r ∧ ∀ b, r = Ok b → nav_read database schema object fk l b).
Proof.
  unfold nav_transaction.
  eapply appends_bind; [apply prep_step, arm_appends|intros l e H; split; [exact (step_err l [] e (Forall_nil_2 _) H)|done]|]. intros l1 [] [H1 _].
  eapply appends_bind with (P := λ l r, nav_step_post l r ∧ ∀ x, r = Ok x → CRow QCurrentDatabase (Ok x) ∈ l).
  { eapply appends_prep with (P := λ l r, l = [CRow QCurrentDatabase r]).
    - intros s. unfold query_row. destruct (ps_row _ _). by eexists.
    - intros l x ->. split; [by split; [repeat constructor|]|]. intros ? [= <-]. by left.
    - intros l e ->. split; [|done]. split; [by repeat constructor|]. intros ? [= <-]. apply prep_fail_fixed. }
  { intros l e [H2 _]. split; [by eapply step_err|done]. }
  intros l2 current [[H2 _] Hc]. specialize (Hc _ eq_refl). case_if as Ed.
  { apply appends_throw. split; [|done]. rewrite app_nil_r. split; [by apply Forall_app|]. intros ? [= <-]. unfold nav_errors. set_solver. }
  bool_inv. subst current.
  eapply appends_bind with (P := λ l r, nav_step_post l r ∧ ∀ x, r = Ok x → CQuery (QNavigation schema object fk) (Ok x) ∈ l).
  { eapply appends_prep with (P := λ l r, l = [CQuery (QNavigation schema object fk) r]).
    - intros s. unfold query. destruct (ps_query _ _). by eexists.
    - intros l x ->. split; [by split; [repeat constructor|]|]. intros ? [= <-]. by left.
    - intros l e ->. split; [|done]. split; [by repeat constructor|]. intros ? [= <-]. apply prep_fail_fixed. }
  { intros l e [H3 _]. split; [|done]. rewrite app_assoc. eapply step_err; [by apply Forall_app|exact H3]. }
  intros l3 ans [[H3 _] Hq]. specialize (Hq _ eq_refl).
  assert (Forall nav_call (l1 ++ l2 ++ l3)) as Hall by (by repeat (apply Forall_app; split)).
  eapply appends_bind with (P := λ l r, nav_step_post l r ∧ l = [] ∧ ∀ x, r = Ok x → readPGNavigationBinding (an_rows ans) (an_err ans) fk = Ok x).
  { eapply appends_prep; [apply appends_of| |]; cbn beta.
    - intros l x [-> <-]. split; [by split; [constructor|]|]. split; [done|]. by intros ? [= <-].
    - intros l e [-> _]. split; [|done]. split; [constructor|]. intros ? [= <-]. apply prep_fail_fixed. }
  { intros l e [H4 _]. split; [|done]. rewrite !app_assoc, <- (app_assoc l1). eapply step_err; [exact Hall|exact H4]. }
  intros l4 binding [_ [-> Hb]]. specialize (Hb _ eq_refl). destruct binding as [binding|].
  - apply appends_ret. rewrite !app_nil_r. split; [by split|]. intros ? [= <-]. split.
    + apply elem_of_app; right; apply elem_of_app; left. exact Hc.
    + exists ans. split; [|done]. by do 2 (apply elem_of_app; right).
  - apply appends_throw. rewrite !app_nil_r. split; [|done]. split; [done|]. intros ? [= <-]. unfold nav_errors. set_solver.
Qed.

(** The calls of one preparation, and what it answers. *)
Inductive nav_prepare_run (read : list pg_call → pgNavigationBinding → Prop) : result pg_error pgNavigationBinding → list pg_call → Prop :=
  | np_no_pool e e' : e' ∈ nav_errors → nav_prepare_run read (Err e') [CPool (Err e)]
  | np_no_connection e e' : e' ∈ nav_errors → nav_prepare_run read (Err e') [CPool (Ok tt); CAcquire (Err e); CClosePools]
  | np_no_transaction pid e e' :
      e' ∈ nav_errors →
      nav_prepare_run read (Err e') [CPool (Ok tt); CAcquire (Ok pid); CBegin (Err e); CRelease; CClosePools]
  | np_ran pid calls r rb :
      Forall nav_call calls → (∀ e, r = Err e → e ∈ nav_errors) → (∀ b, r = Ok b → rb = Ok tt ∧ read calls b) →
      nav_prepare_run read r ([CPool (Ok tt); CAcquire (Ok pid); CBegin (Ok tt)] ++ calls ++ [CRollback rb; CRelease; CClosePools]).

Lemma pool_appends : appends (W := W) open_pool (λ l r, l = [CPool r]).
Proof.
  intros s. unfold open_pool. pose proof (open_silent true s) as Hl. destruct (openPostgresPool true s) as [r s1].
  cbn in Hl |- *. rewrite Hl. by eexists.
Qed.
Lemma conn_appends : appends (W := W) acquire_conn (λ l r, l = [CAcquire r]).
Proof.
  intros s. unfold acquire_conn. pose proof (acquire_silent s) as Hl. destruct (acquire s) as [r s1].
  cbn in Hl |- *. rewrite Hl. by eexists.
Qed.
Lemma begin_appends : appends (W := W) driver_begin (λ l r, l = [CBegin r]).
Proof. intros s. unfold driver_begin, logged_result. destruct (dv_begin _) as [r w]. by eexists. Qed.

Lemma deferred_appends {A} c (m : pg W A) (P : list pg_call → result pg_error A → Prop) :
  appends m P → appends (nav_deferred c m) (λ l r, ∃ l', l = l' ++ [c] ∧ P l' r).
Proof.
  intros Hm s. unfold nav_deferred. specialize (Hm s). destruct (m s) as [r s']. destruct Hm as (l & Hl & HP).
  cbn. exists (l ++ [c]). rewrite Hl, <- app_assoc. eauto.
Qed.

Lemma rollback_appends {A} (m : pg W A) (P : list pg_call → result pg_error A → Prop) :
  appends m P → appends (nav_rollback m) (λ l r, ∃ l' r' rb, l = l' ++ [CRollback rb] ∧ P l' r'
    ∧ r = match r', rb with Ok _, Err _ => Err errPGNavMetaInternal | _, _ => r' end).
Proof.
  intros Hm s. unfold nav_rollback. specialize (Hm s). destruct (m s) as [r s']. destruct Hm as (l & Hl & HP).
  destruct (dv_rollback _) as [rb w]. cbn. exists (l ++ [CRollback rb]). rewrite Hl, <- app_assoc. split; [done|].
  exists l, r, rb. by destruct r, rb.
Qed.

(** A call whose failure is made canonical at once. *)
Lemma prep_call {A} (m : pg W A) (mk : result pg_error A → pg_call) :
  appends m (λ l r, l = [mk r]) →
  appends (or_prep_fail m) (λ l r, match r with Ok x => l = [mk (Ok x)] | Err e' => e' ∈ nav_errors ∧ ∃ e, l = [mk (Err e)] end).
Proof.
  intros Hm. eapply appends_prep; [exact Hm|done|]. cbn. intros l e ->. split; [apply prep_fail_fixed|eauto].
Qed.

Abbreviation nav_run_of := (λ database schema object fk l r, nav_prepare_run (nav_read database schema object fk) r l).

Lemma begun_appends deadline database schema object fk pid :
  appends (W := W) (_ ← or_prep_fail driver_begin; nav_rollback (nav_transaction deadline database schema object fk))
    (λ l r, nav_run_of database schema object fk ([CPool (Ok tt); CAcquire (Ok pid)] ++ l ++ [CRelease; CClosePools]) r).
Proof.
  eapply appends_bind; [apply (prep_call _ CBegin), begin_appends|by intros l e' [He [e ->]]; constructor|].
  intros ? [] ->. eapply appends_mono; [apply rollback_appends, transaction_appends|]. cbn beta.
  intros ? r (calls & r' & rb & -> & [[Hc He] Hr] & ->). cbn [app]. rewrite <- app_assoc.
  apply (np_ran _ pid calls _ rb); [done|..]; destruct r' as [b|e'], rb as [[]|e]; intros ? [= <-].
  - unfold nav_errors. set_solver.
  - by apply He.
  - by apply He.
  - split; [done|by apply Hr].
Qed.

Lemma acquired_appends deadline database schema object fk :
  appends (W := W) (_ ← or_prep_fail acquire_conn;
      nav_deferred CRelease (_ ← or_prep_fail driver_begin; nav_rollback (nav_transaction deadline database schema object fk)))
    (λ l r, nav_run_of database schema object fk ([CPool (Ok tt)] ++ l ++ [CClosePools]) r).
Proof.
  eapply appends_bind; [apply (prep_call _ CAcquire), conn_appends|by intros l e' [He [e ->]]; constructor|].
  intros ? pid ->. eapply appends_mono; [apply deferred_appends, (begun_appends deadline database schema object fk pid)|].
  cbn beta. intros ? r (l & -> & H). cbn [app] in *. by rewrite <- app_assoc.
Qed.

(** Reading the foreign key leaves nothing behind. The preparation asks the
    database only for its budget, its name and the fixed metadata; whatever
    happens it rolls back a transaction it began, releases a connection it took
    and closes a pool it opened, in that order and last; its errors are bare
    sentinels; and a mapping comes from the rows the requested database itself
    answered, in a transaction that was rolled back cleanly. *)
Theorem prepare_navigation_clean database schema object fk timeout (w : W) :
  let '(r, s) := preparePGNavigation database schema object fk timeout w in
  nav_prepare_run (nav_read database schema object fk) r (se_log s).
Proof.
  unfold preparePGNavigation. destruct (dv_deadline timeout w) as [deadline w0].
  match goal with |- let '(r, s) := ?m (Session w0 []) in _ =>
    assert (appends m (λ l r, nav_prepare_run (nav_read database schema object fk) r l)) as H
  end.
  2: { specialize (H (Session w0 [])). match type of H with let '(_, _) := ?m in _ => destruct m as [r s] end. destruct H as (l & Hl & Hr). cbn in Hl. by rewrite Hl. }
  eapply appends_bind; [apply (prep_call _ CPool), pool_appends|by intros l e' [He [e ->]]; constructor|].
  intros ? [] ->. eapply appends_mono; [apply deferred_appends, acquired_appends|]. by intros ? r (l & -> & H).
Qed.
End preparation.

(** ** The contract *)

Lemma plain_without a : plain_answer (without_relation a) = a.
Proof. by destruct a. Qed.

Section contract.
Context {S : Type} `{!EvidenceStore S} (now : nat → Z) (svc_ : pg_service) (prepare : option nav_prepare).
Context (identity : QueryExecutionIdentity) (targetID : Z) (q : PGClaimedNavigationRequest).

(** The mapping the entry works with: the prepared one, as its own valid copy. *)
Definition nav_binding_of (access : BoundTargetAccess) (binding : pgNavigationBinding) : Prop :=
  ∃ f b, prepare = Some f
    ∧ f (ba_dsn access) (cm_DatabaseName (ba_Credential access)) (nr_Schema (nq_request q)) (nr_Object (nq_request q))
        (nr_ForeignKey (nq_request q)) (query_timeout (tg_Environment (ba_Target access))) = Ok b
    ∧ snapshotPGNavigationBinding b = Ok (Some binding).

(** The request the entry hands to the runner. *)
Definition nav_request (access : BoundTargetAccess) (binding : pgNavigationBinding) (p : pgClaimedPrepared) : Prop :=
  ∃ page pageSize plan start,
    nav_shape identity q = Some (page, pageSize)
    ∧ ResolvePGExecution (pv_access svc_) targetID (nr_Database (nq_request q)) = Ok access
    ∧ nav_binding_of access binding
    ∧ length (nr_LocalValues (nq_request q)) = length (nb_pairs binding)
    ∧ newPGNavigationPlan (Some binding) (nr_LocalValues (nq_request q)) = Ok plan
    ∧ p = nav_prepared identity targetID (nq_request q) page pageSize access binding plan start.
Definition nav_requests (p : pgClaimedPrepared) : Prop := ∃ access binding, nav_request access binding p.

(** The relation is named exactly next to a stored success, and it is the one
    the run was prepared for. *)
Definition nav_relation_told (ans : nav_answer) : Prop :=
  match cn_Relation ans.1 with
  | None => co_Status (cn_Outcome ans.1) ≠ QueryExecutionSuccess
  | Some rel => co_Status (cn_Outcome ans.1) = QueryExecutionSuccess
      ∧ ∃ access binding p, nav_request access binding p ∧ rel = nav_relation access binding
  end.

Definition nav_outcome (ans : nav_answer) (t : list store_call) : Prop :=
  pg_entry_outcome identity targetID pgClaimedEntryNavigation nav_requests (attempt_of svc_) (plain_answer ans) t
  ∧ nav_relation_told ans.

Lemma no_outcome_status : co_Status no_outcome ≠ QueryExecutionSuccess.
Proof. by vm_compute. Qed.

(** A refusal, answered without a relation. *)
Lemma nav_refused (m : svc S pg_answer) :
  triple m (λ ans t, pg_entry_outcome identity targetID pgClaimedEntryNavigation nav_requests (attempt_of svc_) ans t ∧ ans.1 = no_outcome) →
  triple (a ← m; mret (without_relation a)) nav_outcome.
Proof.
  intros Hm. eapply triple_bind; [exact Hm|]. cbn beta. intros a t [Ho Ha]. apply triple_ret. rewrite app_nil_r.
  split; [by rewrite plain_without|]. unfold nav_relation_told. cbn. rewrite Ha. apply no_outcome_status.
Qed.

Lemma nav_refusal target database schema digest status code msg retErr start :
  tg_ResourceID target = targetID → status = refusal_status retErr →
  triple (a ← record_refusal (S := S) now target identity pgClaimedEntryNavigation database schema digest status code msg retErr start;
          mret (without_relation a)) nav_outcome.
Proof.
  intros Ht Hs. apply nav_refused. eapply triple_mono; [apply refusal_spec|]. cbn beta.
  intros ans t (rec & r & -> & Hk & <- & _ & _ & _ & _ & _ & ->). split; [|done]. by eapply po_refused.
Qed.

Lemma nav_silent e : pg_silent e → triple (S := S) (mret (without_relation (no_outcome, Some e))) nav_outcome.
Proof.
  intros He. apply triple_ret. split; [by apply po_silent|]. apply no_outcome_status.
Qed.

Lemma prep_failed_outcome target database schema digest err start :
  tg_ResourceID target = targetID →
  triple (a ← nav_prepare_failed (S := S) now target identity database schema digest err start; mret (without_relation a)) nav_outcome.
Proof.
  intros Ht. pose proof (prep_fail_fixed err) as Hf. unfold nav_prepare_failed. cbv zeta. revert Hf. generalize (navPrepFail err). clear err.
  intros err Hf. unfold nav_errors in Hf. rewrite !elem_of_cons, elem_of_nil in Hf.
  destruct Hf as [->|[->|[->|[->|[->|[->|[->|[]]]]]]]]; by apply nav_refusal.
Qed.

Lemma prepared_schema access : resolvePGClaimedDefaults access (nr_Schema (nq_request q)) (nr_MaxRows (nq_request q))
  = (if nr_Schema (nq_request q) =?b [] then cm_DefaultSchema (ba_Credential access) else nr_Schema (nq_request q),
     resolvePGClaimMaxRows (tg_Environment (ba_Target access)) (nr_MaxRows (nq_request q)), query_timeout (tg_Environment (ba_Target access))).
Proof. done. Qed.

Lemma nav_run_outcome outcome page pageSize access binding start :
  es_claim_capable = true → pv_outcome svc_ = Some outcome → nav_shape identity q = Some (page, pageSize) →
  ResolvePGExecution (pv_access svc_) targetID (nr_Database (nq_request q)) = Ok access → nav_binding_of access binding →
  triple (nav_run (S := S) now svc_ outcome identity targetID (nq_request q) page pageSize access binding start) nav_outcome.
Proof.
  intros Hc Ho Hs Ha Hb. assert (tg_ResourceID (ba_Target access) = targetID) as Ht.
  { apply (pg_resolve_target (pv_access svc_) targetID (nr_Database (nq_request q))). by rewrite Ha. }
  unfold nav_run. rewrite prepared_schema. case_if as El; [by apply nav_refusal|]. bool_inv.
  destruct (newPGNavigationPlan _ _) as [plan|e] eqn:Ep; [|by apply nav_refusal].
  assert (nav_request access binding (nav_prepared identity targetID (nq_request q) page pageSize access binding plan start)) as Hn
    by (by exists page, pageSize, plan, start).
  eapply triple_bind; [apply (run_outcome now svc_ identity targetID pgClaimedEntryNavigation nav_requests); try done; by exists access, binding|].
  cbn beta. intros [out err] t H. apply triple_ret. rewrite app_nil_r. split; [exact H|].
  unfold nav_relation_told. cbn. case_if as Es; cbn; bool_inv; [|done]. split; [done|]. eauto.
Qed.

Lemma nav_load_outcome outcome f page pageSize access start :
  es_claim_capable = true → pv_outcome svc_ = Some outcome → prepare = Some f → nav_shape identity q = Some (page, pageSize) →
  ResolvePGExecution (pv_access svc_) targetID (nr_Database (nq_request q)) = Ok access →
  triple (nav_load (S := S) now svc_ outcome f identity targetID (nq_request q) page pageSize access start) nav_outcome.
Proof.
  intros Hc Ho Hp Hs Ha. assert (tg_ResourceID (ba_Target access) = targetID) as Ht.
  { apply (pg_resolve_target (pv_access svc_) targetID (nr_Database (nq_request q))). by rewrite Ha. }
  unfold nav_load. rewrite prepared_schema. destruct (f _ _ _ _ _ _) as [b|e] eqn:Ef; [|by apply prep_failed_outcome].
  destruct (snapshotPGNavigationBinding b) as [[binding|]|e] eqn:Eb; [|by apply nav_refusal..].
  apply nav_run_outcome; try done. by exists f, b.
Qed.

Lemma navigate_claimed_outcome :
  triple (NavigatePGRelatedRecordsClaimed (S := S) now svc_ prepare identity targetID q) nav_outcome.
Proof.
  unfold NavigatePGRelatedRecordsClaimed. destruct (nav_shape identity q) as [[page pageSize]|] eqn:Es; [|apply nav_silent; by left].
  destruct (pv_policies svc_), (pv_outcome svc_) as [outcome|] eqn:Eo, prepare as [f|] eqn:Ep;
    try (apply nav_silent; unfold pg_silent; by auto).
  destruct es_claim_capable eqn:Ec; cbn [negb]; [|apply nav_silent; unfold pg_silent; by auto].
  eapply triple_bind; [apply triple_tick|]. intros start ? ->. cbn [app].
  pose proof (pg_resolve_target (pv_access svc_) targetID (nr_Database (nq_request q))) as Htr.
  destruct (ResolvePGExecution _ _ _) as [access|e] eqn:Ea; [by eapply nav_load_outcome|].
  destruct e; cbn [access_refusal];
    first [apply nav_silent; unfold pg_silent; by auto|apply nav_refusal; [by apply Htr|done]].
Qed.
End contract.

(** The same contract for PostgreSQL navigation. The claim and the run are of
    the mapping that was prepared on the source's own database, with one locator
    value for each of its columns; what the claim covers are the resolved columns
    and the ordered values; no record carries the generated statement or a value;
    and the answer names the relation exactly when the success was stored. *)
Theorem pg_navigate_contract {S} `{!EvidenceStore S} now svc_ prepare identity targetID q :
  triple (NavigatePGRelatedRecordsClaimed (S := S) now svc_ prepare identity targetID q)
    (nav_outcome svc_ prepare identity targetID q).
Proof. apply navigate_claimed_outcome. Qed.
