(* ===== verification/PgEntries.v ===== *)
(** * The PostgreSQL entries in the service

    [internal/service/query_pg_http_adapter.go] and the engine dispatch: the
    public requests as keyed ones, the outcomes as public responses, and the
    entries of PgClaimed, PgSaved and PgNavigate over the governed attempt of
    PgAttempt and the claim store of ClaimStore. *)
From S2P Require Import Prelude GoText ClaimDigest ExecModel ResultContract ClaimStore TargetAccess QueryGuard MysqlAttempt MysqlEntries MysqlDurable.
From S2P Require Import TemplateCompiler SavedLibrary MysqlSaved PgPagination PgErrors PgVerifier PgDisclosure PgParams PgSession PgPool PgAttempt PgClaimed PgSaved PgNavigate.

(** ** Public responses *)

Record QueryExecutionContext : Type := ExecutionContext { ec_Database : bytes; ec_Schema : bytes }.

(** The shared envelope with the context the PostgreSQL entries add. *)
Record PGExecuteResponse : Type := PgExecuteResponse {
  xp_Response : QueryExecuteResponse;
  xp_Context : QueryExecutionContext;
}.
Record PGNavigationResponse : Type := PgNavigationResponse {
  np_Response : RelatedRecordNavigationResponse;
  np_SourceSchema : bytes;
  np_ReferencedSchema : bytes;
  np_Context : QueryExecutionContext;
}.

Definition pgPublicColumns (cols : list PGDisclosedColumn) : list QueryResultColumn :=
  (λ c, ResultColumn (pc_Name (dc_Column c)) (pc_DatabaseType (dc_Column c)) true (dc_DisplayMode c) (dc_CopyAllowed c)) <$> cols.
Definition pgPublicRows (rows : option text_rows) : page_rows :=
  match pgDisclosedRowsAny rows with None => Some [] | Some out => Some out end.

(** The fields both responses share. A delivered outcome has its timestamp. *)
Definition pg_page_fields (target : QueryTarget) (out : PGClaimedOutcome) (res : PGDisclosedResult)
    (pagination : option QueryExecutePaginationResponse) : QueryExecuteResponse :=
  let facts := co_Delivery out in
  ExecuteResponse (co_ExecutionID out) (co_Status out) (tg_ResourceID target) (tg_Engine target)
    (pgPublicColumns (pd_Columns res)) (pgPublicRows (pd_Rows res)) (pg_RowCount (pd_Page res)) (pd_CellTruncated res)
    (pg_BudgetReached (pd_Page res)) (df_DurationMs facts) (df_LimitApplied facts) (default 0%Z (df_ExecutedAt facts)) pagination.

Definition pg_context (facts : PGClaimedDeliveryFacts) : QueryExecutionContext :=
  ExecutionContext (df_Database facts) (df_Schema facts).

Definition pgExecuteResponse (target : QueryTarget) (out : PGClaimedOutcome) (res : PGDisclosedResult) : PGExecuteResponse :=
  let facts := co_Delivery out in
  PgExecuteResponse
    (pg_page_fields target out res
       (Some (PaginationResponse (df_Page facts) (df_PageSize facts) (1 <? df_Page facts)%Z (pg_HasMore (pd_Page res)))))
    (pg_context facts).

Definition pgNavigationResponse (target : QueryTarget) (out : PGClaimedOutcome) (res : PGDisclosedResult)
    (rel : PGNavigationRelation) : PGNavigationResponse :=
  PgNavigationResponse
    (NavigationResponse (pg_page_fields target out res None) (rl_Database rel) (rl_SourceObject rel) (rl_ForeignKey rel)
       (rl_Database rel) (rl_ReferencedObject rel) ([] ++ rl_ReferencedColumns rel))
    (rl_SourceSchema rel) (rl_ReferencedSchema rel) (pg_context (co_Delivery out)).

(** ** The adapters *)

Definition pg_ordinary_request (req : QueryExecuteRequest) : PGClaimedExecuteRequest :=
  let '(page, pageSize) :=
    match rq_Pagination req with Some p => (pr_Page p, pr_PageSize p) | None => (0%Z, 0%Z) end in
  ClaimedExecuteRequest (rq_ClientExecutionID req) (rq_Database req) (rq_Schema req) (rq_Statement req) page pageSize
    (rq_MaxRows req) ([] ++ rq_Capabilities req).

(** The public request carries no page. *)
Definition pg_navigation_request (req : RelatedRecordNavigationRequest) : PGClaimedNavigationRequest :=
  ClaimedNavigationRequest req 0 0.

Section adapters.
Context {S : Type} `{!EvidenceStore S} (now : nat → Z) (svc_ : pg_service).

Definition project_outcome (target : QueryTarget) (a : pg_answer) : result pg_entry_error PGExecuteResponse :=
  match a.2 with
  | Some e => Err e
  | None => match co_Result a.1 with
            | None => Err PgBackendFailure
            | Some res => Ok (pgExecuteResponse target a.1 res)
            end
  end.

Definition executePGHTTP (identity : QueryExecutionIdentity) (target : QueryTarget) (req : QueryExecuteRequest)
    : svc S (result pg_entry_error PGExecuteResponse) :=
  a ← ExecutePGClaimed now svc_ identity (tg_ResourceID target) (pg_ordinary_request req);
  mret (project_outcome target a).

Definition executeSavedPGHTTP (wiring : saved_wiring) (identity : QueryExecutionIdentity) (target : QueryTarget) (statementID : Z)
    (req : QuerySavedStatementExecuteRequest) : svc S (result pg_entry_error PGExecuteResponse) :=
  a ← ExecutePGSavedStatementClaimed now svc_ wiring identity (tg_ResourceID target) statementID req;
  mret (project_outcome target a).

Definition navigatePGHTTP (prepare : option nav_prepare) (identity : QueryExecutionIdentity) (target : QueryTarget)
    (req : RelatedRecordNavigationRequest) : svc S (result pg_entry_error PGNavigationResponse) :=
  a ← NavigatePGRelatedRecordsClaimed now svc_ prepare identity (tg_ResourceID target) (pg_navigation_request req);
  mret (match a.2 with
        | Some e => Err e
        | None => match co_Result (cn_Outcome a.1), cn_Relation a.1 with
                  | Some res, Some rel => Ok (pgNavigationResponse target (cn_Outcome a.1) res rel)
                  | _, _ => Err PgBackendFailure
                  end
        end).

(** ** The whole service *)

(** What either engine's path answers. *)
Inductive service_answer (A B : Type) : Type :=
  | FromMysql (r : result svc_error A)
  | FromPG (r : result pg_entry_error B).
Arguments FromMysql {_ _} _.
Arguments FromPG {_ _} _.

Context {Plan : Type} (mysql : mysql_service Plan).

Definition route {A B} (m : svc S (entry_answer A)) (pg : QueryTarget → svc S (result pg_entry_error B)) : svc S (service_answer A B) :=
  r ← m;
  match r with
  | Answered r => mret (FromMysql r)
  | RoutedToPG target => b ← pg target; mret (FromPG b)
  end.

Definition ServeExecute (identity : QueryExecutionIdentity) (targetID : Z) (req : QueryExecuteRequest)
    : svc S (service_answer QueryExecuteResponse PGExecuteResponse) :=
  route (Execute now mysql identity targetID req) (λ target, executePGHTTP identity target req).

Definition ServeSavedStatement (wired : option saved_service) (wiring : saved_wiring) (actorUserID targetID statementID : Z)
    (req : QuerySavedStatementExecuteRequest) : svc S (service_answer QueryExecuteResponse PGExecuteResponse) :=
  route (ExecuteSavedStatement now mysql wired actorUserID targetID statementID req)
    (λ target, executeSavedPGHTTP wiring (Identity QueryExecutionActorUser actorUserID) target statementID req).

Definition ServeNavigation (prepare : option nav_prepare) (actorUserID targetID : Z) (req : RelatedRecordNavigationRequest)
    : svc S (service_answer RelatedRecordNavigationResponse PGNavigationResponse) :=
  route (NavigateRelatedRecords now mysql actorUserID targetID req)
    (λ target, navigatePGHTTP prepare (Identity QueryExecutionActorUser actorUserID) target req).
End adapters.

(** ** The governed attempt as the entries' attempt *)

(** [ExecutePGGovernedDisclosedOutcome] with the drivers' world at the time of
    the call, which the DSN leads to. *)
Definition governed_outcome {W} `{!PGDriver W} (fe : pg_frontend W) (connect : bytes → W) (dsn : bytes) (input : PGDisclosureInput)
    : pg_attempt_result :=
  let target := xd_TargetResourceID input in
  let '(r, ev, _) := ExecutePGGovernedDisclosedOutcome fe (xd_Execute input) target ((λ f, f target) <$> xd_Policies input) (connect dsn) in
  match r with
  | Ok out => (Some out, Some ev, None)
  | Err e => (None, Some ev, Some e)
  end.

Definition governed_service {W} `{!PGDriver W} (env : access_env) (policies : Z → policy_reader) (fe : pg_frontend W)
    (connect : bytes → W) : pg_service :=
  PgService env (Some policies) (Some (governed_outcome fe connect)).

(** [preparePGNavigation] likewise. *)
Definition governed_prepare {W} `{!PGDriver W} (connect : bytes → W) : nav_prepare :=
  λ dsn database schema object fk timeout,
    Some <$> (preparePGNavigation database schema object fk timeout (connect dsn)).1.

(** ** Released answers *)

(** What stands behind an answer without an error. *)
Record released (caps : list bytes) (run : pg_attempt_result) (p : pgClaimedPrepared) (out : PGClaimedOutcome) (t : list store_call)
    (res : PGDisclosedResult) (rec : QueryExecutionRecord) : Prop := {
  rd_calls : ∃ tc ev, t = [CallClaim (pg_claim_input p tc) (Ok tt);
                           CallFinalize rec ev (auditResultFor (er_Status rec)) (Ok (co_ExecutionID out))];
  rd_keyed : keyed_of p rec;
  rd_run : ∃ ev, run = (Some res, Some ev, None);
  rd_shape : well_shaped res;
  rd_result : co_Result out = Some res;
  rd_status : co_Status out = QueryExecutionSuccess ∧ er_Status rec = QueryExecutionSuccess;
  rd_rows : er_RowCount rec = Z.of_nat (length (rows_of (pd_Rows res)));
  rd_facts : co_Delivery out = delivery_facts p rec (Some (delivery_snapshot res));
  rd_marks : no_cell_truncated (pd_CellTruncated res) ∨ CapabilityCellTruncated ∈ caps;
}.

Lemma runner_released p a out t :
  runner_answer p a (out, None) t → ∃ res rec, released (cp_capabilities p) a p out t res rec.
Proof.
  inversion 1 as [c e w Hw Hc|c w rec r _ _ _ _ _|c rec r ans (tc & ->) Hk Hr Hans]; subst.
  destruct r as [i|e]; [|by injection Hans]. destruct Hans as (Hid & Hst & _ & Hfacts & Hrel). cbn [fst snd] in *.
  destruct a as [[[res|] ev] [e|]]; cbn in Hrel.
  - destruct Hrel as (_ & [[_ H']|[_ H']]); discriminate H'.
  - destruct Hrel as [(Hc & _ & Hres & Hm)|[(_ & H' & _)|(_ & H' & _)]]; [|discriminate H'..].
    destruct Hr as (_ & _ & _ & Hgood). specialize (Hgood Hc) as (Hs & _ & _ & Hrows). destruct ev as [ev|]; [|done]. destruct Hc as [He Hw].
    exists res, rec. split; try done; [subst i; by eexists _, _|by exists ev|by rewrite Hst, Hs|by apply Hrows].
  - destruct Hrel as (_ & [[_ H']|[_ H']]); discriminate H'.
  - destruct Hrel as (_ & [[H' _]|[_ H']]); [by destruct ev|discriminate H'].
Qed.

Lemma outcome_released identity targetID kind mine run out t :
  pg_entry_outcome identity targetID kind mine run (out, None) t →
  ∃ p res rec, mine p ∧ released (cp_capabilities p) (run p) p out t res rec.
Proof.
  inversion 1 as [|e target rec r|p ans t' Hm Hk Hr]; subst.
  apply runner_released in Hr as (res & rec & Hrel). by exists p, res, rec.
Qed.

(** A released answer is recorded. *)
Lemma released_recorded {S} `{EvidenceLaws S} caps run p out t res rec s s' :
  released caps run p out t res rec → es_valid s → replays t s s' → es_recorded s' (co_ExecutionID out) rec.
Proof.
  intros Hr Hv Ht. destruct (rd_calls _ _ _ _ _ _ _ Hr) as (tc & ev & ->).
  inversion Ht as [|? ? ? s1 ? Hc Hn]; subst. inversion Hn as [|? ? ? s2 ? Hf Hn']; subst. inversion Hn'; subst.
  eapply es_finalize_recorded; [|exact Hf]. by eapply es_call_valid.
Qed.

(** ** The governed attempt never contradicts itself *)

Lemma failed_status e : pgAttemptStatus (Some e) ≠ QueryExecutionSuccess.
Proof. unfold pgAttemptStatus. repeat case_match; by vm_compute. Qed.

Section governed.
Context {W : Type} `{!PGDriver W} (fe : pg_frontend W) (connect : bytes → W).
Hypothesis rewrite_quiet : ∀ st pinned g r page, quiet (fe_rewrite fe st pinned g r page).
Hypothesis order_walks : ∀ m, fe_order fe m ≡ₚ (map_to_list m).*2.

Lemma governed_run_status inp disc w r ev a :
  runPGGovernedAttempt fe inp disc w = (r, ev, a) →
  ev_Status ev = pgAttemptStatus (match r with Ok _ => None | Err e => Some e end).
Proof.
  unfold runPGGovernedAttempt. destruct (_ || _); [by intros [= <- <- _]|]. destruct (dv_deadline _ _) as [d w'].
  destruct (attempt_body _ _ _ _ _) as [r1 a1].
  destruct (match r1 with Ok out => _ | Err e => _ end) as [r2 a2]. destruct (attempt_close a2) as [[first remote] a3].
  intros [= <- <- _]. done.
Qed.

(** A disclosed result has the shape of its own matrix. *)
Lemma disclosed_shape plan v out : applyPGDisclosure (Some plan) (Some v) = Ok out → well_shaped out.
Proof.
  intros [(_ & Hc & _ & Hr & Hm) ->]%apply_ok. unfold well_shaped, aligned, PgDisclosure.disclosed. cbn.
  rewrite length_zip_with, Hc, Nat.min_id, length_map, length_fmap. split.
  - apply Forall_map, Forall_fmap. eapply Forall_impl; [exact Hr|]. intros row Hrow. cbn in Hrow |- *.
    rewrite length_map, length_zip_with. lia.
  - rewrite Hc in Hm. destruct (vr_CellTruncated v) as [mm|]; [done|]. by rewrite Hm.
Qed.

(** The governed attempt's answer always tells one story. *)
Lemma governed_consistent dsn input policies :
  xd_Policies input = Some policies → consistent (governed_outcome fe connect dsn input).
Proof.
  intros Hp. unfold governed_outcome. rewrite Hp. cbn [fmap option_fmap option_map].
  unfold ExecutePGGovernedDisclosedOutcome. destruct (_ =? 0)%Z; [by split; [intros ? [= <-]; vm_compute|]|].
  destruct (runPGGovernedAttempt _ _ _ _) as [[r ev] a] eqn:Hrun. apply governed_run_status in Hrun as Hst.
  destruct r as [[v dplan]|e].
  2: { split; [|done]. intros ? [= <-]. rewrite Hst. apply failed_status. }
  destruct (applyPGDisclosure dplan (Some v)) as [out|e] eqn:Ha.
  - split; [exact Hst|]. destruct dplan as [plan|]; [by eapply disclosed_shape|done].
  - split; [|done]. intros ? [= <-]. apply failed_status.
Qed.
End governed.

(** ** What the entries release *)

(** A stored success of this key, and a page that the stored policies of this
    target govern cell by cell. *)
Definition governed_release {S} `{EvidenceLaws S} (policies : Z → policy_reader) (targetID : Z) (key : bytes) (s : S)
    (out : PGClaimedOutcome) : Prop :=
  ∃ res rec, co_Result out = Some res
    ∧ es_recorded s (co_ExecutionID out) rec
    ∧ er_Status rec = QueryExecutionSuccess ∧ er_TargetResourceID rec = targetID ∧ er_ClientExecutionID rec = Some key
    ∧ er_RowCount rec = Z.of_nat (length (rows_of (pd_Rows res)))
    ∧ ∃ v rw refs, shown_as_governed (policies targetID) (er_DatabaseName rec) rw refs v res.

Section releases.
Context {W : Type} `{!PGDriver W} (fe : pg_frontend W) (connect : bytes → W).
Hypothesis rewrite_quiet : ∀ st pinned g r page, quiet (fe_rewrite fe st pinned g r page).
Hypothesis order_walks : ∀ m, fe_order fe m ≡ₚ (map_to_list m).*2.
Context (env : access_env) (policies : Z → policy_reader).

Let svc_ : pg_service := governed_service env policies fe connect.

Lemma governed_shown p res ev :
  attempt_of svc_ p = (Some res, ev, None) → ∃ v rw refs, shown_as_governed (policies (cp_targetID p)) (cp_database p) rw refs v res.
Proof.
  unfold attempt_of. cbn [pv_outcome pv_policies svc_ governed_service]. unfold governed_outcome. cbn [xd_Policies disclosure_input fmap option_fmap option_map].
  destruct (ExecutePGGovernedDisclosedOutcome _ _ _ _ _) as [[r ev'] a] eqn:He. destruct r as [out|e]; [|done]. intros [= -> _].
  apply disclosed_attempt_shown in He as (v & plan & bind & rw & t & _ & _ & Hg); [|done..]. by exists v, rw, (bound_of bind).
Qed.

Lemma governed_plain p : consistent (attempt_of svc_ p).
Proof. unfold attempt_of. cbn [pv_outcome svc_ governed_service]. by eapply governed_consistent. Qed.

Lemma entry_release {S} `{EvidenceLaws S} identity targetID kind key mine out t s s' :
  (∀ p, mine p → cp_targetID p = targetID ∧ cp_clientKey p = key) →
  pg_entry_outcome identity targetID kind mine (attempt_of svc_) (out, None) t → es_valid s → replays t s s' →
  governed_release policies targetID key s' out.
Proof.
  intros Hm Ho Hv Ht. apply outcome_released in Ho as (p & res & rec & Hp & Hr).
  pose proof (released_recorded _ _ _ _ _ _ _ _ _ Hr Hv Ht) as Hrec. destruct (rd_run _ _ _ _ _ _ _ Hr) as [ev He].
  apply governed_shown in He. destruct (Hm p Hp) as [Hti Hke]. destruct (rd_keyed _ _ _ _ _ _ _ Hr) as (H1 & _ & _ & H2 & H3 & _).
  exists res, rec. rewrite H3, <- Hti, <- Hke. split_and!; try done; by apply Hr.
Qed.

(** Without an answered error, the outcome is released; next to a recorded
    attempt, the error is the attempt's or the delivery's. *)
Lemma entry_plain identity targetID kind mine ans t :
  pg_entry_outcome identity targetID kind mine (attempt_of svc_) ans t → ans.2 = Some PgBackendFailure → ans.1 = no_outcome.
Proof.
  inversion 1 as [|e target rec r|p ans' t' Hm Hk Hr]; subst; [done..|]. intros Hb.
  inversion Hr as [| |c rec r ans'' _ _ Hrec Hans]; subst; [done..|]. destruct r as [i|e]; [|by rewrite Hans in Hb].
  destruct Hans as (_ & _ & _ & _ & Hrel). pose proof (governed_plain p) as Hc. unfold released_as in Hrel.
  destruct (attempt_of svc_ p) as [[[res|] ev] [e|]]; naive_solver.
Qed.
End releases.

(** The requests of an entry are of its target and key. *)
Lemma ordinary_mine svc_ identity targetID req p :
  ordinary_request svc_ identity targetID req p → cp_targetID p = targetID ∧ cp_clientKey p = xr_ClientExecutionID req.
Proof. by intros (access & page & pageSize & start & _ & _ & ->). Qed.
Lemma saved_mine svc_ wiring identity targetID statementID req p :
  saved_request svc_ wiring identity targetID statementID req p → cp_targetID p = targetID ∧ cp_clientKey p = xq_ClientExecutionID req.
Proof.
  intros (read & stmt & access & values & plan & named & start & _ & _ & _ & _ & _ & _ & _ & ->). unfold saved_prepared.
  by destruct (saved_window req).
Qed.
Lemma nav_mine svc_ prepare identity targetID q p :
  nav_requests svc_ prepare identity targetID q p → cp_targetID p = targetID ∧ cp_clientKey p = nr_ClientExecutionID (nq_request q).
Proof. by intros (access & binding & page & pageSize & plan & start & _ & _ & _ & _ & _ & ->). Qed.

Lemma triple_run {S} `{!EvidenceStore S} {A} (m : svc S A) (Q : A → list store_call → Prop) st x st' :
  triple m Q → m st = (x, st') → ∃ t, ss_trace st' = ss_trace st ++ t ∧ replays t (ss_store st) (ss_store st') ∧ Q x t.
Proof. intros Hm H. specialize (Hm st). by rewrite H in Hm. Qed.


(** The consistency gate never fires on the governed attempt: no entry
    answers a backend failure next to a claimed execution. *)
Theorem pg_gate_never_fires {W} `{!PGDriver W} {S} `{!EvidenceStore S} (fe : pg_frontend W) connect env policies now
    identity targetID (st : svc_state S) :
  let svc_ := governed_service env policies fe connect in
  let fine ans := ans.2 = Some PgBackendFailure → ans.1 = no_outcome in
  (∀ req, fine (ExecutePGClaimed now svc_ identity targetID req st).1)
  ∧ (∀ wiring statementID req, fine (ExecutePGSavedStatementClaimed now svc_ wiring identity targetID statementID req st).1)
  ∧ (∀ prepare q, fine (plain_answer (NavigatePGRelatedRecordsClaimed now svc_ prepare identity targetID q st).1)).
Proof.
  intros svc_ fine. split; [|split].
  - intros req. pose proof (execute_claimed_outcome now svc_ identity targetID req st) as H.
    destruct (ExecutePGClaimed _ _ _ _ _ _) as [ans st']. destruct H as (t & _ & _ & H). unfold fine. cbn [fst]. by eapply entry_plain.
  - intros wiring statementID req. pose proof (saved_claimed_outcome now svc_ wiring identity targetID statementID req st) as H.
    destruct (ExecutePGSavedStatementClaimed _ _ _ _ _ _ _ _) as [ans st']. destruct H as (t & _ & _ & H). unfold fine. cbn [fst]. by eapply entry_plain.
  - intros prepare q. pose proof (navigate_claimed_outcome now svc_ prepare identity targetID q st) as H.
    destruct (NavigatePGRelatedRecordsClaimed _ _ _ _ _ _ _) as [ans st']. destruct H as (t & _ & _ & H & _). unfold fine. cbn [fst]. by eapply entry_plain.
Qed.

(** ** One execution per key, across entries and engines *)

(** On an occupied key a PostgreSQL entry answers an error and finalizes nothing. *)
Lemma occupied_pg identity targetID kind mine run key ans t (s s' : faulty_db) old :
  claims (fd_db s) !! (targetID, key) = Some old →
  (∀ p, mine p → cp_targetID p = targetID ∧ cp_clientKey p = key) →
  pg_entry_outcome identity targetID kind mine run ans t → replays t s s' → is_Some ans.2 ∧ no_finalize t.
Proof.
  intros Hold Hm Ho Hr. inversion Ho as [|e target rec r|p ans' t' Hp Hk Hrun]; subst.
  - split; [by eexists|constructor].
  - split; [by eexists|by repeat constructor].
  - destruct (Hm p Hp) as [<- <-]. inversion Hrun as [| |c rec r ans'' [tc ->] _ _ _]; subst.
    + split; [by eexists|by repeat constructor].
    + split; [by eexists|by repeat constructor].
    + exfalso. inversion Hr; subst. eapply (occupied_claim _ _ (pg_claim_input p tc) old); [exact Hold|eassumption].
Qed.

(** The claim row a released page leaves behind. *)
Lemma released_pg_claim caps run p out t res rec (s s' : faulty_db) :
  released caps run p out t res rec → replays t s s' → ∃ c, claims (fd_db s') !! (cp_targetID p, cp_clientKey p) = Some c.
Proof.
  intros Hr Ht. destruct (rd_calls _ _ _ _ _ _ _ Hr) as (tc & ev & ->). inversion Ht as [|? ? ? s1 ? Ha Hn]; subst.
  assert (∃ row, claims (fd_db s1) !! (cp_targetID p, cp_clientKey p) = Some row) as [row Hrow].
  { apply answers_claim in Ha as [f Ha]. apply claim_outcome in Ha as [(actor & _ & _ & _ & -> & _)|[_ [? ?]]]; [|done].
    cbn. rewrite lookup_insert_eq. eauto. }
  destruct (steps_claims _ _ _ _ (replays_steps _ _ _ Hn) Hrow) as (c' & Hc' & _). eauto.
Qed.

(** Nothing is released or finalized under that key any more. *)
Definition key_spent (targetID : Z) (key : bytes) (st : svc_state faulty_db) : Prop :=
  (∀ now svc_ identity req ans st', xr_ClientExecutionID req = key →
     ExecutePGClaimed now svc_ identity targetID req st = (ans, st') →
     is_Some ans.2 ∧ ∃ t, ss_trace st' = ss_trace st ++ t ∧ no_finalize t)
  ∧ (∀ now svc_ wiring identity statementID req ans st', xq_ClientExecutionID req = key →
     ExecutePGSavedStatementClaimed now svc_ wiring identity targetID statementID req st = (ans, st') →
     is_Some ans.2 ∧ ∃ t, ss_trace st' = ss_trace st ++ t ∧ no_finalize t)
  ∧ (∀ now svc_ prepare identity q ans st', nr_ClientExecutionID (nq_request q) = key →
     NavigatePGRelatedRecordsClaimed now svc_ prepare identity targetID q st = (ans, st') →
     is_Some ans.2 ∧ ∃ t, ss_trace st' = ss_trace st ++ t ∧ no_finalize t)
  ∧ (∀ Plan now (svc_ : mysql_service Plan) identity req r st', rq_ClientExecutionID req = key →
     Execute now svc_ identity targetID req st = (Answered r, st') →
     (∃ e, r = Err e) ∧ ∃ t, ss_trace st' = ss_trace st ++ t ∧ no_finalize t).

Lemma occupied_spent targetID key st old :
  key ≠ [] → claims (fd_db (ss_store st)) !! (targetID, key) = Some old → key_spent targetID key st.
Proof.
  intros Hkey Hold. split; [|split; [|split]].
  - intros now svc_ identity req ans st' Hk He.
    apply (triple_run _ _ _ _ _ (execute_claimed_outcome now svc_ identity targetID req)) in He as (t & Ht & Hr & Ho).
    eapply occupied_pg in Ho as [? ?]; [eauto|done| |done]. intros p Hp%ordinary_mine. by rewrite <- Hk.
  - intros now svc_ wiring identity statementID req ans st' Hk He.
    apply (triple_run _ _ _ _ _ (saved_claimed_outcome now svc_ wiring identity targetID statementID req)) in He as (t & Ht & Hr & Ho).
    eapply occupied_pg in Ho as [? ?]; [eauto|done| |done]. intros p Hp%saved_mine. by rewrite <- Hk.
  - intros now svc_ prepare identity q ans st' Hk He.
    apply (triple_run _ _ _ _ _ (navigate_claimed_outcome now svc_ prepare identity targetID q)) in He as (t & Ht & Hr & Ho & _).
    eapply occupied_pg in Ho as [? ?]; [eauto|done| |done]. intros p Hp%nav_mine. by rewrite <- Hk.
  - intros Plan now svc_ identity req r st' Hk He.
    pose proof (execute_outcome now svc_ identity targetID req st) as Hc. rewrite He in Hc. destruct Hc as (t & Ht & Hr & Ho).
    rewrite Hk in Ho. eapply occupied_entry in Ho as [? ?]; [eauto|done|done|by intros ? [? _]|done].
Qed.


(** ** What the client sees *)

(** A public page is the disclosed result and nothing else: its texts and nulls
    in their places, one mark per cell, the disclosure of each column, and the
    recorded timing and scope. *)
Definition public_page (resp : PGExecuteResponse) (res : PGDisclosedResult) (rec : QueryExecutionRecord) : Prop :=
  let r := xp_Response resp in
  rs_Status r = QueryExecutionSuccess
  ∧ pgDecisionRowsDisclosed (rs_Rows r) = Some (rows_of (pd_Rows res))
  ∧ rs_CellTruncated r = pd_CellTruncated res
  ∧ aligned (length (rs_Columns r)) (rs_Rows r) (rs_CellTruncated r)
  ∧ (λ c, (col_Name c, col_DisplayMode c, col_CopyAllowed c)) <$> rs_Columns r
    = (λ c, (pc_Name (dc_Column c), dc_DisplayMode c, dc_CopyAllowed c)) <$> pd_Columns res
  ∧ rs_LimitApplied r = pd_FetchCount res
  ∧ rs_DurationMs r = er_DurationMs rec ∧ rs_ExecutedAt r = default 0%Z (er_CreatedAt rec)
  ∧ xp_Context resp = ExecutionContext (er_DatabaseName rec) (er_SchemaName rec).

Lemma public_rows rows : pgPublicRows rows = pgDisclosedRowsAny (Some (rows_of rows)).
Proof. by destruct rows. Qed.

Lemma projected_public caps run p out t res rec target resp :
  released caps run p out t res rec → project_outcome target (out, None) = Ok resp →
  public_page resp res rec ∧ rs_ExecutionID (xp_Response resp) = co_ExecutionID out
  ∧ rs_TargetResourceID (xp_Response resp) = tg_ResourceID target.
Proof.
  intros Hr. unfold project_outcome. cbn [fst snd]. rewrite (rd_result _ _ _ _ _ _ _ Hr). intros [= <-]. split; [|done].
  unfold public_page, pgExecuteResponse, pg_page_fields, pg_context. cbn. rewrite (rd_facts _ _ _ _ _ _ _ Hr).
  destruct (rd_status _ _ _ _ _ _ _ Hr) as [Hs _]. destruct (rd_keyed _ _ _ _ _ _ _ Hr) as (_ & _ & _ & _ & Hd & Hsc & _).
  rewrite public_rows, rows_roundtrip. split; [done|]. split; [done|]. split; [done|]. split.
  - pose proof (rd_shape _ _ _ _ _ _ _ Hr) as Hw. unfold well_shaped in Hw. unfold pgPublicColumns. rewrite length_fmap.
    destruct (pd_Rows res); exact Hw.
  - split; [unfold pgPublicColumns; by rewrite <- list_fmap_compose|]. cbn. by rewrite Hd, Hsc.
Qed.

(** The HTTP response tells what was recorded. A page the PostgreSQL adapter
    returns is the result of the one attempt that was made of this request, text
    for text and mark for mark, with the disclosure the policies gave each column
    and none of the driver's identifiers; its id, status, timing and context are
    those of the success that was stored before. *)
Theorem pg_http_faithful {S} `{EvidenceLaws S} now svc_ identity target req (st : svc_state S) resp st' :
  es_valid (ss_store st) →
  executePGHTTP now svc_ identity target req st = (Ok resp, st') →
  ∃ p res ev rec, ordinary_request svc_ identity (tg_ResourceID target) (pg_ordinary_request req) p
    ∧ attempt_of svc_ p = (Some res, Some ev, None)
    ∧ es_recorded (ss_store st') (rs_ExecutionID (xp_Response resp)) rec ∧ er_Status rec = QueryExecutionSuccess
    ∧ er_ClientExecutionID rec = Some (rq_ClientExecutionID req)
    ∧ public_page resp res rec.
Proof.
  intros Hv He. unfold executePGHTTP in He. cbv [mbind svc_bind] in He.
  destruct (ExecutePGClaimed now svc_ identity (tg_ResourceID target) (pg_ordinary_request req) st) as [[out err] st1] eqn:Hx.
  cbv [mret svc_ret] in He. injection He as He <-.
  destruct err as [e|]; [by unfold project_outcome in He|].
  apply (triple_run _ _ _ _ _ (execute_claimed_outcome now svc_ identity _ _)) in Hx as (t & _ & Ht & Ho).
  apply outcome_released in Ho as (p & res & rec & Hp & Hr).
  pose proof (released_recorded _ _ _ _ _ _ _ _ _ Hr Hv Ht) as Hrec. destruct (rd_run _ _ _ _ _ _ _ Hr) as [ev Hev].
  destruct (projected_public _ _ _ _ _ _ _ _ _ Hr He) as (Hpub & Hid & _). exists p, res, ev, rec.
  destruct (rd_keyed _ _ _ _ _ _ _ Hr) as (_ & _ & _ & Hk & _). destruct (rd_status _ _ _ _ _ _ _ Hr) as [_ Hs].
  apply ordinary_mine in Hp as Hm. destruct Hm as [_ Hkey]. rewrite Hid, Hk, Hkey.
  split; [done|]. split; [done|]. split; [done|]. split; [done|]. split; [|done].
  unfold pg_ordinary_request. by destruct (rq_Pagination req).
Qed.

(** ** Runs *)

Module EntryEx.
Definition target : QueryTarget := Target 3 (gs "staging") (gs "PostgreSQL") (gs "db.internal") 5432.
Definition credential : QueryCredentialMetadata :=
  Credential 3 (gs "app") (gs "public") (gs "postgresql") (gs "PG_MAIN") true QueryEnvPolicyAllEnvironments.
Definition env : access_env :=
  AccessEnv (λ _, Some [target]) (λ _ _, ReadOk credential) (λ _, Some (gs "postgres://db.internal")) (λ _, None) (λ _ _ _, true).
Definition policies (targetID : Z) : policy_reader := AttemptEx.raw_reader.
Definition user : QueryExecutionIdentity := Identity QueryExecutionActorUser 7.
Definition request : QueryExecuteRequest :=
  ExecuteRequest (gs "SELECT id FROM users") 100 (Some (PaginationRequest 1 10)) (gs "app") [] (gs "key-1") [].
Definition claimed : PGClaimedExecuteRequest := pg_ordinary_request request.
Section world.
Variable witness : Z.
Definition service : pg_service :=
  let driver := AttemptEx.driver_of witness in governed_service env policies AttemptEx.frontend (λ _, 0%Z).
Definition run := ExecutePGClaimed sample_clock service user 3 claimed sample_start.
Definition served := executePGHTTP sample_clock service user target request sample_start.
End world.
End EntryEx.

(** The page of [PgAttempt.AttemptEx], and the same attempt against a server
    whose witness has another type: a keyed rejected record. *)
Lemma entry_runs :
  (EntryEx.run 16391).1.2 = None
  ∧ match (EntryEx.run 99999).1 with
    | (out, Some (PgError e)) => co_Status out = QueryExecutionRejected ∧ is_Some (pe_Reject e) | _ => False end.
Proof. split; [by vm_compute|]. vm_compute. by split; [|eexists]. Qed.
Lemma entry_serves :
  match (EntryEx.served 16391).1 with
  | Ok resp => rs_Rows (xp_Response resp) = Some [[CString (gs "7")]] ∧ rs_ExecutionID (xp_Response resp) = 1%Z
  | Err _ => False
  end.
Proof. by vm_compute. Qed.



Example pg_http_faithful_witness :
  ∃ resp rec, (EntryEx.served 16391).1 = Ok resp ∧ rs_Rows (xp_Response resp) = Some [[CString (gs "7")]]
    ∧ recorded (ss_store (EntryEx.served 16391).2) 1 rec ∧ er_ClientExecutionID rec = Some (gs "key-1").
Proof.
  pose proof entry_serves as Hserved. destruct (EntryEx.served 16391) as [r st'] eqn:E. cbn [fst] in Hserved.
  destruct r as [resp|e]; [destruct Hserved as [Hrows Hid]|destruct Hserved].
  destruct (pg_http_faithful sample_clock (EntryEx.service 16391) EntryEx.user EntryEx.target EntryEx.request sample_start resp st'
    sample_start_valid E) as (p & res & ev & rec & _ & _ & Hrec & _ & Hk & _).
  rewrite Hid in Hrec. exists resp, rec. split; [reflexivity|]. split; [exact Hrows|]. split; [exact Hrec|exact Hk].
Defined.

Example pg_request_budget_witness :
  ∃ p, ordinary_request (EntryEx.service 16391) EntryEx.user 3 EntryEx.claimed p ∧ cp_maxRows p = 100%Z ∧ cp_schema p = gs "public".
Proof.
  assert (ordinary_request (EntryEx.service 16391) EntryEx.user 3 EntryEx.claimed
    (ordinary_prepared EntryEx.user 3 EntryEx.claimed (BoundAccess EntryEx.target EntryEx.credential (gs "postgres://db.internal")) 1 10 0)) as H.
  { eexists _, 1%Z, 10%Z, 0%Z. split; [by vm_compute|]. split; [by vm_compute|done]. }
  eexists. split; [exact H|].
  destruct (pg_request_budget _ _ _ _ _ H) as (_ & _ & Hrows & _ & _ & _ & Hschema).
  split; [apply Hrows; by vm_compute|rewrite Hschema; by vm_compute].
Defined.

(** Alice's statement, asked for by somebody else. *)
Definition alice_statement : QuerySavedStatement :=
  SavedStatement 1 3 8 QuerySavedStatementPersonal (SavedRequest (gs "mine") (gs "SELECT id FROM users") [] (gs "app") []) [].
Definition saved_ask : QuerySavedStatementExecuteRequest := SavedExecuteRequest ∅ 0 None (gs "key-2") [] [].
Example pg_execution_hidden_witness :
  ExecutePGSavedStatementClaimed sample_clock (EntryEx.service 16391) (SavedWiring (Some (λ _ _, Ok alice_statement)) true)
    EntryEx.user 3 1 saved_ask sample_start
  = ExecutePGSavedStatementClaimed sample_clock (EntryEx.service 16391)
      (SavedWiring (Some (hide_statement (λ _ _, Ok alice_statement) 3 1)) true) EntryEx.user 3 1 saved_ask sample_start.
Proof.
  assert (¬ readable EntryEx.user 3 1 saved_ask alice_statement) as Hn.
  { intros (_ & _ & [H|[_ H]] & _); [by vm_compute in H|discriminate H]. }
  exact (pg_execution_hidden sample_clock (EntryEx.service 16391) (λ _ _, Ok alice_statement) true EntryEx.user 3 1 saved_ask
    alice_statement sample_start eq_refl Hn).
Defined.

(** Bob may run it: it is compiled, claimed and run. *)
Example saved_entry_runs :
  (ExecutePGSavedStatementClaimed sample_clock (EntryEx.service 16391) (SavedWiring (Some (λ _ _, Ok alice_statement)) true)
     (Identity QueryExecutionActorUser 8) 3 1 saved_ask sample_start).1.2 = None.
Proof. vm_compute. done. Qed.

(** A navigation whose attempt delivers one cell; the relation is named. *)
Definition sample_mapping : pgNavigationBinding :=
  NavBinding 5 900 (gs "orders_user_fk") (NavRelation 16400 16401 (gs "r") (gs "public") (gs "orders"))
    (NavRelation 16390 16391 (gs "r") (gs "public") (gs "users")) [NavPair 2 (gs "user_id") 23 (-1) 1 (gs "id") 23 (-1)].
Definition sample_delivered : PGDisclosedResult :=
  DisclosedResult [DisclosedColumn (MkPGColumn (gs "id") (gs "INT4") 23 (-1) 16390 1) ResultDisclosureRawCopyAllowed true]
    (Some [[Some (gs "7")]]) (Some [[false]]) (PageRes 1 false false) 51 [] [] ∅ ∅.
Definition stub_service : pg_service :=
  PgService EntryEx.env (Some EntryEx.policies)
    (Some (λ _ _, (Some sample_delivered, Some (AttemptEvidence PGStageDeliver QueryExecutionSuccess 4711 77 QueryExecutionRemoteCompleted true), None))).
Definition navigate_ask (values : list bytes) : RelatedRecordNavigationRequest :=
  NavigationRequest (gs "app") (gs "public") (gs "orders") (gs "table") (gs "orders_user_fk") values 0 (gs "key-3") [].
Definition navigate_run (values : list bytes) :=
  (navigatePGHTTP sample_clock stub_service (Some (λ _ _ _ _ _ _, Ok (Some sample_mapping))) EntryEx.user EntryEx.target
     (navigate_ask values) sample_start).1.
Example navigation_runs :
  match navigate_run [gs "7"] with
  | Ok r => nv_ReferencedObject (np_Response r) = gs "users" ∧ nv_ReferencedColumns (np_Response r) = [gs "id"] ∧ np_SourceSchema r = gs "public"
  | Err _ => False
  end
  ∧ navigate_run [gs "7"; gs "8"] = Err PgNavigationValues.
Proof. split; by vm_compute. Qed.
