(* ===== verification/ExplainPlan.v ===== *)
(** * EXPLAIN plans

    [model/query_explain.go], [service/query_explain_normalizer.go] and
    [service/pg_explain_normalizer.go]: the decoded plan document of an engine
    becomes a bounded list of nodes and risks from a fixed vocabulary. *)
From S2P Require Import Prelude GoText ExecModel.
From Stdlib Require Import SpecFloat.

(** ** The decoded document *)

(** What [json.Unmarshal] stores in an [interface{}]: numbers are float64. *)
Inductive json : Type :=
  | JNull
  | JBoolean (b : bool)
  | JFloat (f : spec_float)
  | JText (s : bytes)
  | JArray (items : list json)
  | JObject (fields : gmap bytes json).
Abbreviation json_object := (gmap bytes json).

Definition as_object (v : option json) : option json_object := match v with Some (JObject m) => Some m | _ => None end.
Definition as_array (v : option json) : option (list json) := match v with Some (JArray l) => Some l | _ => None end.
Definition as_text (v : option json) : option bytes := match v with Some (JText s) => Some s | _ => None end.
Definition as_float (v : option json) : option spec_float := match v with Some (JFloat f) => Some f | _ => None end.
(** [b, ok := v.(bool); ok && b] *)
Definition is_set (v : option json) : bool := match v with Some (JBoolean b) => b | _ => false end.

(** ** The public model *)

Definition ExplainFormatVersion : Z := 1.
Definition ExplainEngineMySQL : bytes := gs "mysql".
Definition ExplainEnginePostgreSQL : bytes := gs "postgresql".
Definition engine_Validate (e : bytes) : bool := bool_decide (e ∈ [ExplainEngineMySQL; ExplainEnginePostgreSQL]).

Definition ExplainOpTableAccess : bytes := gs "table_access".
Definition ExplainOpIndexAccess : bytes := gs "index_access".
Definition ExplainOpNestedLoop : bytes := gs "nested_loop".
Definition ExplainOpSort : bytes := gs "sort".
Definition ExplainOpAggregate : bytes := gs "aggregate".
Definition ExplainOpTemporaryTbl : bytes := gs "temporary_table".
Definition ExplainOpContainer : bytes := gs "container".
Definition ExplainOpUnknown : bytes := gs "unknown".
Definition operation_Validate (o : bytes) : bool :=
  bool_decide (o ∈ [ExplainOpTableAccess; ExplainOpIndexAccess; ExplainOpNestedLoop; ExplainOpSort; ExplainOpAggregate;
                    ExplainOpTemporaryTbl; ExplainOpContainer; ExplainOpUnknown]).

Definition ExplainAccessFullScan : bytes := gs "full_scan".
Definition ExplainAccessIndex : bytes := gs "index".
Definition ExplainAccessUniqueRow : bytes := gs "unique_row".
Definition ExplainAccessRange : bytes := gs "range".
Definition ExplainAccessUnknown : bytes := gs "unknown".
Definition access_Validate (a : bytes) : bool :=
  bool_decide (a ∈ [ExplainAccessFullScan; ExplainAccessIndex; ExplainAccessUniqueRow; ExplainAccessRange; ExplainAccessUnknown]).

Definition ExplainRiskFullTableScan : bytes := gs "full_table_scan".
Definition ExplainRiskFilesort : bytes := gs "filesort".
Definition ExplainRiskTemporaryTable : bytes := gs "temporary_table".
Definition ExplainRiskHighEstimatedRows : bytes := gs "high_estimated_rows".
Definition ExplainRiskUnknownPlanShape : bytes := gs "unknown_plan_shape".
Definition risk_codes : list bytes :=
  [ExplainRiskFullTableScan; ExplainRiskFilesort; ExplainRiskTemporaryTable; ExplainRiskHighEstimatedRows; ExplainRiskUnknownPlanShape].
Definition risk_code_Validate (c : bytes) : bool := bool_decide (c ∈ risk_codes).

Definition ExplainSeverityInfo : bytes := gs "info".
Definition ExplainSeverityWarning : bytes := gs "warning".
Definition ExplainSeverityCritical : bytes := gs "critical".
Definition severity_Validate (s : bytes) : bool :=
  bool_decide (s ∈ [ExplainSeverityInfo; ExplainSeverityWarning; ExplainSeverityCritical]).

Definition MaxExplainNodeLabelLen : nat := 64.

Record ExplainNode : Type := PlanNode {
  en_ID : bytes;
  en_ParentID : option bytes;
  en_Operation : bytes;
  en_Access : bytes;
  en_EstimatedRows : option Z;
  en_UsesIndex : option bool;
  en_Label : bytes;
  en_StartupCost : option spec_float;
  en_TotalCost : option spec_float;
}.
Record ExplainRisk : Type := PlanRisk { ri_Code : bytes; ri_Severity : bytes }.
Record ExplainResponse : Type := MkExplainResponse {
  er_Target : Z;
  er_ExplainEngine : bytes;
  er_FormatVersion : Z;
  er_Nodes : list ExplainNode;
  er_Risks : list ExplainRisk;
  er_Truncated : bool;
}.

Definition node_Validate (n : ExplainNode) : bool :=
  negb (en_ID n =?b []) && operation_Validate (en_Operation n) && access_Validate (en_Access n)
  && negb (MaxExplainNodeLabelLen <? length (en_Label n)).
Definition risk_Validate (r : ExplainRisk) : bool := risk_code_Validate (ri_Code r) && severity_Validate (ri_Severity r).
Definition response_Validate (r : ExplainResponse) : bool :=
  engine_Validate (er_ExplainEngine r) && (er_FormatVersion r =? ExplainFormatVersion)%Z
  && forallb node_Validate (er_Nodes r) && forallb risk_Validate (er_Risks r).

(** ** The walking state *)

Definition MaxExplainNodes : nat := 64.
Definition MaxExplainRisks : nat := 16.
Definition MaxExplainPlanDepth : nat := 64.
Definition HighEstimatedRowsThreshold : Z := 100000.
Definition maxSafeJSInteger : Z := 2 ^ 53 - 1.

Record NormalizeResult : Type := Normalized {
  nr_Nodes : list ExplainNode;
  nr_Risks : list ExplainRisk;
  nr_Truncated : bool;
}.

Record normCtx : Type := NormCtx {
  nc_nodes : list ExplainNode;
  nc_risks : list ExplainRisk;
  nc_seenRisks : gset bytes;
  nc_nextID : Z;
  nc_truncated : bool;
  nc_unknownShape : bool;
}.
Definition empty_ctx : normCtx := NormCtx [] [] ∅ 0 false false.

Definition set_truncated (c : normCtx) : normCtx :=
  NormCtx (nc_nodes c) (nc_risks c) (nc_seenRisks c) (nc_nextID c) true (nc_unknownShape c).
Definition set_unknown (c : normCtx) : normCtx :=
  NormCtx (nc_nodes c) (nc_risks c) (nc_seenRisks c) (nc_nextID c) (nc_truncated c) true.

Definition allocID (c : normCtx) : bytes * normCtx :=
  (format_int (nc_nextID c),
   NormCtx (nc_nodes c) (nc_risks c) (nc_seenRisks c) (nc_nextID c + 1) (nc_truncated c) (nc_unknownShape c)).
Definition lastID (c : normCtx) : bytes := if (nc_nextID c =? 0)%Z then [] else format_int (nc_nextID c - 1).
Definition maybeParent (parentID : bytes) : option bytes := if parentID =?b [] then None else Some parentID.

Definition appendNode (n : ExplainNode) (c : normCtx) : normCtx :=
  if MaxExplainNodes <=? length (nc_nodes c) then set_truncated c
  else NormCtx (nc_nodes c ++ [n]) (nc_risks c) (nc_seenRisks c) (nc_nextID c) (nc_truncated c) (nc_unknownShape c).
Definition atNodeCap (c : normCtx) : bool := MaxExplainNodes <=? length (nc_nodes c).

Definition addRisk (code severity : bytes) (c : normCtx) : normCtx :=
  if bool_decide (code ∈ nc_seenRisks c) then c
  else if MaxExplainRisks <=? length (nc_risks c) then set_truncated c
  else NormCtx (nc_nodes c) (nc_risks c ++ [PlanRisk code severity]) ({[code]} ∪ nc_seenRisks c) (nc_nextID c)
         (nc_truncated c) (nc_unknownShape c).

(** The emitters that stop at the cap before taking an id. *)
Definition emit_plain (operation : bytes) (parentID : bytes) (c : normCtx) : normCtx :=
  if atNodeCap c then set_truncated c
  else
    let '(id, c) := allocID c in
    appendNode (PlanNode id (maybeParent parentID) operation ExplainAccessUnknown None None [] None None) c.
Definition emitNestedLoopNode : bytes → normCtx → normCtx := emit_plain ExplainOpNestedLoop.
Definition emitTempTableNode : bytes → normCtx → normCtx := emit_plain ExplainOpTemporaryTbl.
Definition emitUnknown (parentID : bytes) (c : normCtx) : normCtx :=
  if atNodeCap c then set_truncated c else set_unknown (emit_plain ExplainOpUnknown parentID c).
Definition unknown_shape (parentID : bytes) (c : normCtx) : normCtx :=
  addRisk ExplainRiskUnknownPlanShape ExplainSeverityInfo (emitUnknown parentID c).

Section normalizers.
(** Go leaves the conversion of a float64 beyond the range of uint64 to the
    implementation. *)
Context (beyond_uint64 : spec_float → Z).

(** The conversion of a finite, positive float64 drops its fraction. *)
Definition float_floor (m : positive) (e : Z) : Z := Z.shiftl (Zpos m) e.

Definition toUint64 (v : json) : option Z :=
  match v with
  | JFloat ((S754_finite false m e) as f) =>
    let u := float_floor m e in Some (if (u <=? max_uint64)%Z then u else to_uint64 (beyond_uint64 f))
  | JFloat (S754_zero _) => Some 0%Z
  | JText s => parse_uint s
  | _ => None
  end.

(** The estimate of a node: its risk, and the value where a client can hold it. *)
Definition estimate_risk (est : option Z) (c : normCtx) : normCtx :=
  match est with
  | Some est => if (HighEstimatedRowsThreshold <=? est)%Z then addRisk ExplainRiskHighEstimatedRows ExplainSeverityWarning c else c
  | None => c
  end.
Definition safe_estimate (est : option Z) : option Z :=
  match est with Some est => if (est <=? maxSafeJSInteger)%Z then Some est else None | None => None end.

(** ** MySQL *)

Definition mapAccessType (tbl : json_object) : bytes :=
  let at_ := default [] (as_text (tbl !! gs "access_type")) in
  if at_ =?b gs "ALL" then ExplainAccessFullScan
  else if at_ =?b gs "index" then ExplainAccessIndex
  else if bool_decide (at_ ∈ [gs "const"; gs "eq_ref"; gs "system"; gs "NULL"]) then ExplainAccessUniqueRow
  else if bool_decide (at_ ∈ [gs "range"; gs "ref"; gs "ref_or_null"; gs "fulltext"; gs "index_merge"]) then ExplainAccessRange
  else ExplainAccessUnknown.

Fixpoint first_estimate (keys : list bytes) (tbl : json_object) : option Z :=
  match keys with
  | [] => None
  | key :: keys =>
    match tbl !! key with
    | Some v => match toUint64 v with Some u => Some u | None => first_estimate keys tbl end
    | None => first_estimate keys tbl
    end
  end.
Definition extractEstimatedRows : json_object → option Z :=
  first_estimate [gs "rows_examined_per_scan"; gs "rows_produced_per_join"].

(** The node of a table block, which takes its id whether there is room or not. *)
Definition table_operation (access : bytes) : bytes :=
  if (access =?b ExplainAccessIndex) || (access =?b ExplainAccessUniqueRow) || (access =?b ExplainAccessRange)
  then ExplainOpIndexAccess else ExplainOpTableAccess.
Definition table_index (tbl : json_object) (access : bytes) : option bool :=
  if bool_decide (is_Some (tbl !! gs "key")) then Some true
  else if access =?b ExplainAccessFullScan then Some false else None.

Definition emitTableNode (block : json_object) (parentID : bytes) (c : normCtx) : normCtx :=
  match as_object (block !! gs "table") with
  | None => unknown_shape parentID c
  | Some tbl =>
    let access := mapAccessType tbl in
    let '(id, c) := allocID c in
    let est := extractEstimatedRows tbl in
    let c := estimate_risk est c in
    let c := appendNode (PlanNode id (maybeParent parentID) (table_operation access) access (safe_estimate est)
                           (table_index tbl access) [] None None) c in
    if access =?b ExplainAccessFullScan then addRisk ExplainRiskFullTableScan ExplainSeverityWarning c else c
  end.

(** The flags of a block that are set. *)
Definition flag_filesort (op : json_object) (c : normCtx) : normCtx :=
  if is_set (op !! gs "using_filesort") then addRisk ExplainRiskFilesort ExplainSeverityWarning c else c.
Definition flag_temporary (op : json_object) (parentID : bytes) (c : normCtx) : normCtx :=
  if is_set (op !! gs "using_temporary_table")
  then addRisk ExplainRiskTemporaryTable ExplainSeverityWarning (emitTempTableNode parentID c) else c.

(** The nested loop of a block: its node, then each child under it. *)
Definition walk_loop (f : json_object → bytes → normCtx → normCtx) (block : json_object) (parentID : bytes) (c : normCtx) : normCtx :=
  match block !! gs "nested_loop" with
  | None => c
  | Some nl =>
    let c := emitNestedLoopNode parentID c in
    let nestedLoopID := lastID c in
    match as_array (Some nl) with
    | None => c
    | Some arr =>
      foldl (λ c child, match as_object (Some child) with Some m => f m nestedLoopID c | None => c end) c arr
    end
  end.
(** An operation of a block: its flags, then its own block. *)
Definition walk_operation (f : json_object → bytes → normCtx → normCtx) (block : json_object) (key parentID : bytes)
    (flags : json_object → normCtx → normCtx) (c : normCtx) : normCtx :=
  match as_object (block !! key) with None => c | Some op => f op parentID (flags op c) end.

(** [room] is [MaxExplainPlanDepth + 1 - depth]: at zero the depth is exceeded. *)
Fixpoint walk (room : nat) (block : json_object) (parentID : bytes) (c : normCtx) : normCtx :=
  match room with
  | O => set_truncated (unknown_shape parentID c)
  | S room =>
    let c := if bool_decide (is_Some (block !! gs "table")) then emitTableNode block parentID c else c in
    let c := walk_loop (walk room) block parentID c in
    let c := walk_operation (walk room) block (gs "ordering_operation") parentID flag_filesort c in
    let c := walk_operation (walk room) block (gs "grouping_operation") parentID
               (λ grp c, flag_filesort grp (flag_temporary grp parentID c)) c in
    walk_operation (walk room) block (gs "duplicates_removal") parentID (λ dut, flag_temporary dut parentID) c
  end.

Definition finish_walk (c : normCtx) : option NormalizeResult :=
  match nc_nodes c with [] => None | _ => Some (Normalized (nc_nodes c) (nc_risks c) (nc_truncated c)) end.

Definition mysql_root (raw : json) : option json_object :=
  root ← as_object (Some raw);
  as_object (root !! gs "query_block").
(** [None] is [ErrQueryExplainNotSupported]. *)
Definition Normalize (raw : json) : option NormalizeResult :=
  qb ← mysql_root raw;
  finish_walk (walk (S MaxExplainPlanDepth) qb [] empty_ctx).

(** ** PostgreSQL *)

Definition pgStructuralNodes : list bytes :=
  [gs "Result"; gs "ProjectSet"; gs "Limit"; gs "Hash"; gs "Gather"; gs "Gather Merge"; gs "Append"; gs "Merge Append";
   gs "Unique"; gs "WindowAgg"; gs "Subquery Scan"; gs "LockRows"; gs "SetOp"; gs "Recursive Union"; gs "Named Tuplestore Scan"].

Definition pgNodeLabel (node : json_object) : bytes :=
  let label := default [] (as_text (node !! gs "Node Type")) in
  if MaxExplainNodeLabelLen <? length label then [] else label.
Definition extractPGPlanRows (node : json_object) : option Z :=
  match node !! gs "Plan Rows" with Some v => toUint64 v | None => None end.

(** The cases of [pgWalk]: operation, access, index use and risk. *)
Definition pg_case (nodeType : bytes) : bytes * bytes * option bool * option (bytes * bytes) :=
  let among l := bool_decide (nodeType ∈ l) in
  if among [gs "Seq Scan"] then
    (ExplainOpTableAccess, ExplainAccessFullScan, Some false, Some (ExplainRiskFullTableScan, ExplainSeverityWarning))
  else if among [gs "Index Scan"; gs "Index Only Scan"; gs "Bitmap Index Scan"] then
    (ExplainOpIndexAccess, ExplainAccessIndex, Some true, None)
  else if among [gs "Bitmap Heap Scan"] then (ExplainOpIndexAccess, ExplainAccessIndex, Some true, None)
  else if among [gs "Tid Scan"] then (ExplainOpTableAccess, ExplainAccessUniqueRow, Some true, None)
  else if among [gs "Tid Range Scan"] then (ExplainOpTableAccess, ExplainAccessRange, None, None)
  else if among [gs "Nested Loop"; gs "Hash Join"; gs "Merge Join"] then (ExplainOpNestedLoop, ExplainAccessUnknown, None, None)
  else if among [gs "Sort"; gs "Incremental Sort"] then
    (ExplainOpSort, ExplainAccessUnknown, None, Some (ExplainRiskFilesort, ExplainSeverityWarning))
  else if among [gs "Aggregate"; gs "HashAggregate"; gs "GroupAggregate"; gs "Partial HashAggregate"] then
    (ExplainOpAggregate, ExplainAccessUnknown, None, None)
  else if among [gs "Materialize"; gs "CTE Scan"; gs "WorkTable Scan"; gs "Memoize"] then
    (ExplainOpTemporaryTbl, ExplainAccessUnknown, None, Some (ExplainRiskTemporaryTable, ExplainSeverityWarning))
  else if among [gs "Function Scan"; gs "Values Scan"; gs "Table Function Scan"; gs "Sample Scan"; gs "Foreign Scan"] then
    (ExplainOpTableAccess, ExplainAccessUnknown, None, None)
  else if among pgStructuralNodes then (ExplainOpContainer, ExplainAccessUnknown, None, None)
  else (ExplainOpUnknown, ExplainAccessUnknown, None, Some (ExplainRiskUnknownPlanShape, ExplainSeverityInfo)).

Definition pg_node (id : bytes) (parent : option bytes) (operation access : bytes) (node : json_object) (usesIndex : option bool)
    : ExplainNode :=
  PlanNode id parent operation access (safe_estimate (extractPGPlanRows node)) usesIndex (pgNodeLabel node)
    (as_float (node !! gs "Startup Cost")) (as_float (node !! gs "Total Cost")).

Definition emitPGNode (parentID operation access : bytes) (node : json_object) (usesIndex : option bool) (c : normCtx)
    : bytes * normCtx :=
  if atNodeCap c then (parentID, set_truncated c)
  else
    let '(id, c) := allocID c in
    let c := estimate_risk (extractPGPlanRows node) c in
    (id, appendNode (pg_node id (maybeParent parentID) operation access node usesIndex) c).

Fixpoint pgWalk (room : nat) (node : json_object) (parentID : bytes) (c : normCtx) : normCtx :=
  match room with
  | O => set_truncated (unknown_shape parentID c)
  | S room =>
    let '(operation, access, usesIndex, risk) := pg_case (default [] (as_text (node !! gs "Node Type"))) in
    let '(emitParent, c) := emitPGNode parentID operation access node usesIndex c in
    let c := match risk with Some (code, severity) => addRisk code severity c | None => c end in
    match as_array (node !! gs "Plans") with
    | None => c
    | Some children =>
      foldl (λ c child, match as_object (Some child) with Some m => pgWalk room m emitParent c | None => c end) c children
    end
  end.

Definition pg_root (raw : json) : option json_object :=
  arr ← as_array (Some raw);
  env ← as_object (head arr);
  as_object (env !! gs "Plan").
Definition PGNormalize (raw : json) : option NormalizeResult :=
  root ← pg_root raw;
  finish_walk (pgWalk (S MaxExplainPlanDepth) root [] empty_ctx).
End normalizers.

(** ** The reference: a plan in preorder

    An entry is a plan node with the position of its parent; a summary is the
    entries of a plan with the risks that do not depend on there being room. *)
Record plan_entry : Type := PlanEntry {
  pe_parent : option nat;
  pe_node : bytes → option bytes → ExplainNode;
  pe_risks : list bytes; (** risks of the node if there is room for it *)
  pe_deep : bool;        (** stands for everything below the depth limit *)
}.
Definition plan_summary : Type := list plan_entry * list bytes.
Definition merge (a b : plan_summary) : plan_summary := (a.1 ++ b.1, a.2 ++ b.2).
Infix "⊕" := merge (at level 50, left associativity).

Definition plain_node (operation id : bytes) (parent : option bytes) : ExplainNode :=
  PlanNode id parent operation ExplainAccessUnknown None None [] None None.
Definition plain_entry (operation : bytes) (parent : option nat) : plan_entry := PlanEntry parent (plain_node operation) [] false.
Definition unknown_summary (parent : option nat) : plan_summary :=
  ([plain_entry ExplainOpUnknown parent], [ExplainRiskUnknownPlanShape]).
Definition deep_summary (parent : option nat) : plan_summary :=
  ([PlanEntry parent (plain_node ExplainOpUnknown) [] true], [ExplainRiskUnknownPlanShape]).
Definition note (b : bool) (code : bytes) : plan_summary := ([], if b then [code] else []).
Definition high_rows (est : option Z) : bool :=
  match est with Some est => (HighEstimatedRowsThreshold <=? est)%Z | None => false end.

(** The children that are objects, each after what is already there. *)
Definition children_summary (f : nat → json_object → plan_summary) (next : nat) (acc : plan_summary) (children : list json)
    : plan_summary :=
  foldl (λ acc child, match as_object (Some child) with Some m => acc ⊕ f (next + length acc.1) m | None => acc end) acc children.

Section reference.
Context (beyond_uint64 : spec_float → Z).

Definition table_summary (parent : option nat) (block : json_object) : plan_summary :=
  match as_object (block !! gs "table") with
  | None => unknown_summary parent
  | Some tbl =>
    let access := mapAccessType tbl in
    let est := extractEstimatedRows beyond_uint64 tbl in
    note (high_rows est) ExplainRiskHighEstimatedRows
    ⊕ ([PlanEntry parent (λ id parent, PlanNode id parent (table_operation access) access (safe_estimate est)
                                         (table_index tbl access) [] None None) [] false], [])
    ⊕ note (access =?b ExplainAccessFullScan) ExplainRiskFullTableScan
  end.
Definition temporary_summary (parent : option nat) (op : json_object) : plan_summary :=
  if is_set (op !! gs "using_temporary_table")
  then ([plain_entry ExplainOpTemporaryTbl parent], [ExplainRiskTemporaryTable]) else ([], []).
Definition filesort_summary (op : json_object) : plan_summary := note (is_set (op !! gs "using_filesort")) ExplainRiskFilesort.

(** The operation under a key of a block: its own risks and entry, then its block. *)
Definition below_summary (f : nat → option nat → json_object → plan_summary) (next : nat) (parent : option nat)
    (block : json_object) (key : bytes) (own : json_object → plan_summary) (acc : plan_summary) : plan_summary :=
  match as_object (block !! key) with
  | None => acc
  | Some op => let acc := acc ⊕ own op in acc ⊕ f (next + length acc.1) parent op
  end.
Definition loop_summary (f : nat → option nat → json_object → plan_summary) (next : nat) (parent : option nat)
    (block : json_object) (acc : plan_summary) : plan_summary :=
  match block !! gs "nested_loop" with
  | None => acc
  | Some nl =>
    let here := next + length acc.1 in
    children_summary (λ at_ m, f at_ (Some here) m) next (acc ⊕ ([plain_entry ExplainOpNestedLoop parent], []))
      (default [] (as_array (Some nl)))
  end.

(** A block whose first entry stands at [next]. *)
Fixpoint mysql_summary (room next : nat) (parent : option nat) (block : json_object) : plan_summary :=
  match room with
  | O => deep_summary parent
  | S room =>
    let f := mysql_summary room in
    below_summary f next parent block (gs "duplicates_removal") (temporary_summary parent)
      (below_summary f next parent block (gs "grouping_operation") (λ op, temporary_summary parent op ⊕ filesort_summary op)
         (below_summary f next parent block (gs "ordering_operation") filesort_summary
            (loop_summary f next parent block
               (if bool_decide (is_Some (block !! gs "table")) then table_summary parent block else ([], [])))))
  end.

Definition pg_entry (parent : option nat) (node : json_object) : plan_summary :=
  let '(operation, access, usesIndex, risk) := pg_case (default [] (as_text (node !! gs "Node Type"))) in
  let high := high_rows (extractPGPlanRows beyond_uint64 node) in
  ([PlanEntry parent (λ id parent, pg_node beyond_uint64 id parent operation access node usesIndex)
      (if high then [ExplainRiskHighEstimatedRows] else []) false],
   match risk with Some (code, _) => [code] | None => [] end).

(** A node at position [next], then its children under it. *)
Fixpoint pg_summary (room next : nat) (parent : option nat) (node : json_object) : plan_summary :=
  match room with
  | O => deep_summary parent
  | S room =>
    children_summary (λ at_ m, pg_summary room at_ (Some next) m) next (pg_entry parent node)
      (default [] (as_array (node !! gs "Plans")))
  end.
End reference.

(** The nodes of a summary, numbered from a position. *)
Definition number (i : nat) : bytes := format_int (Z.of_nat i).
Definition render (i : nat) (e : plan_entry) : ExplainNode := pe_node e (number i) (number <$> pe_parent e).
Definition render_from (n : nat) (l : list plan_entry) : list ExplainNode := imap (λ i, render (n + i)) l.

(** The risks of a summary whose first entry stands at [n]. *)
Definition noted (n : nat) (s : plan_summary) (code : bytes) : Prop :=
  code ∈ s.2 ∨ ∃ i e, s.1 !! i = Some e ∧ n + i < MaxExplainNodes ∧ code ∈ pe_risks e.
Definition overflows (n : nat) (s : plan_summary) : bool := (MaxExplainNodes <? n + length s.1) || existsb pe_deep s.1.

(** ** Lemmas *)

Definition risk_severity (code : bytes) : bytes :=
  if code =?b ExplainRiskUnknownPlanShape then ExplainSeverityInfo else ExplainSeverityWarning.
Definition codes (c : normCtx) : list bytes := ri_Code <$> nc_risks c.

Record sane (c : normCtx) : Prop := {
  sn_length : length (nc_nodes c) ≤ MaxExplainNodes;
  sn_next : length (nc_nodes c) < MaxExplainNodes → nc_nextID c = Z.of_nat (length (nc_nodes c));
  sn_seen : ∀ code, code ∈ nc_seenRisks c ↔ code ∈ codes c;
  sn_nodup : NoDup (codes c);
  sn_risks : Forall (λ r, ri_Code r ∈ risk_codes ∧ ri_Severity r = risk_severity (ri_Code r)) (nc_risks c);
}.

(** [c'] is [c] with a summary walked. *)
Record walked (s : plan_summary) (c c' : normCtx) : Prop := {
  wk_sane : sane c';
  wk_nodes : nc_nodes c' = take MaxExplainNodes (nc_nodes c ++ render_from (length (nc_nodes c)) s.1);
  wk_truncated : nc_truncated c' = nc_truncated c || overflows (length (nc_nodes c)) s;
  wk_codes : ∀ code, code ∈ codes c' ↔ code ∈ codes c ∨ noted (length (nc_nodes c)) s code;
}.

Lemma codes_bound c : sane c → length (nc_risks c) ≤ 5.
Proof.
  intros Hs. rewrite <- (length_fmap ri_Code). apply (submseteq_length _ risk_codes), NoDup_submseteq; [apply Hs|].
  intros code (r & -> & Hr)%list_elem_of_fmap. pose proof (sn_risks _ Hs) as Hf. rewrite Forall_forall in Hf. by apply Hf.
Qed.

Lemma render_from_app n l k : render_from n (l ++ k) = render_from n l ++ render_from (n + length l) k.
Proof.
  unfold render_from. rewrite imap_app. f_equal. apply imap_ext. intros i e _. cbn. f_equal. lia.
Qed.
Lemma length_render n l : length (render_from n l) = length l.
Proof. apply length_imap. Qed.

#[local] Arguments overflows : simpl never.
Lemma overflows_spec n s : overflows n s = bool_decide (MaxExplainNodes < n + length s.1) || existsb pe_deep s.1.
Proof. unfold overflows. f_equal. by destruct (Nat.ltb_spec MaxExplainNodes (n + length s.1)); case_bool_decide; try lia. Qed.
Lemma overflows_none n s : n + length s.1 ≤ MaxExplainNodes → existsb pe_deep s.1 = false → overflows n s = false.
Proof. rewrite overflows_spec. intros ? ->. case_bool_decide; [lia|done]. Qed.

Lemma walked_refl c : sane c → walked ([], []) c c.
Proof.
  intros Hs. split; [done| | |].
  - cbn. rewrite app_nil_r, take_ge; [done|apply Hs].
  - rewrite overflows_none; [by rewrite orb_false_r| |done]. cbn. pose proof (sn_length _ Hs). lia.
  - intros code. unfold noted. cbn. split; [by left|]. intros [?|[?|(i & e & ? & _)]]; [done|by apply not_elem_of_nil in H|done].
Qed.

(** Under room, the nodes are all there and the next one is at the end. *)
Lemma walked_room s c c' : walked s c c' → sane c → length (nc_nodes c') < MaxExplainNodes →
  length (nc_nodes c) < MaxExplainNodes ∧ length (nc_nodes c') = length (nc_nodes c) + length s.1.
Proof.
  intros Hw Hs. rewrite (wk_nodes _ _ _ Hw), length_take, length_app, length_render. pose proof (sn_length _ Hs). lia.
Qed.

Lemma take_cut {A} n (a b b' : list A) : (length a < n → b = b') → take n (take n a ++ b) = take n (a ++ b').
Proof.
  intros Hb. destruct (decide (length a < n)) as [Hl|Hl]; [rewrite (take_ge a) by lia; by rewrite Hb|].
  rewrite (take_app_le a) by lia. rewrite take_app_le by (rewrite length_take; lia). by rewrite take_take, Nat.min_id.
Qed.

Lemma walked_trans s1 s2 c c1 c2 : sane c → walked s1 c c1 → walked s2 c1 c2 → walked (s1 ⊕ s2) c c2.
Proof.
  intros Hs H1 H2. pose proof (wk_nodes _ _ _ H1) as Hn. set (n := length (nc_nodes c)) in *.
  assert (length (nc_nodes c1) = MaxExplainNodes `min` (n + length s1.1)) as Hl.
  { by rewrite Hn, length_take, length_app, length_render. }
  split; [apply H2| | |].
  - rewrite (wk_nodes _ _ _ H2), Hl, Hn. cbn [merge fst]. rewrite render_from_app, app_assoc. apply take_cut.
    rewrite length_app, length_render. fold n. intros Hroom. by rewrite Nat.min_r by lia.
  - rewrite (wk_truncated _ _ _ H2), (wk_truncated _ _ _ H1), Hl. fold n. rewrite !overflows_spec. cbn [merge fst].
    rewrite existsb_app, length_app. repeat case_bool_decide; try lia; by repeat destruct (existsb _ _); destruct (nc_truncated c).
  - intros code. rewrite (wk_codes _ _ _ H2), (wk_codes _ _ _ H1), Hl. fold n. unfold noted. cbn [merge fst snd].
    rewrite elem_of_app. split.
    + intros [[?|[?|(i & e & ? & ? & ?)]]|[?|(i & e & ? & ? & ?)]]; [by left|by right; left; left| |by right; left; right|].
      * right. right. exists i, e. split_and!; [by apply lookup_app_l_Some|done|done].
      * right. right. exists (length s1.1 + i), e. split_and!; [|lia|done].
        rewrite lookup_app_r by lia. by replace (length s1.1 + i - length s1.1) with i by lia.
    + intros [?|[[?|?]|(i & e & [He|[Hi He]]%lookup_app_Some & ? & ?)]]; [by left; left|by left; right; left|by right; left| |].
      * left. right. right. by exists i, e.
      * right. right. exists (i - length s1.1), e. split_and!; [done|lia|done].
Qed.

Lemma walked_risk b code c : sane c → code ∈ risk_codes →
  walked (note b code) c (if b then addRisk code (risk_severity code) c else c).
Proof.
  intros Hs Hc. destruct b; [|by apply walked_refl]. pose proof (codes_bound c Hs) as Hb. unfold addRisk.
  assert (∀ k, noted (length (nc_nodes c)) (note true code) k ↔ k = code) as Hn.
  { intros k. unfold noted. cbn. rewrite list_elem_of_singleton. split; [by intros [?|(? & ? & ? & _)]|by left]. }
  pose proof (wk_truncated _ _ _ (walked_refl c Hs)) as Ht. pose proof (wk_nodes _ _ _ (walked_refl c Hs)) as Hno.
  case_bool_decide as Hin; [|destruct (Nat.leb_spec MaxExplainRisks (length (nc_risks c))); [unfold MaxExplainRisks in *; lia|]].
  - split; [done|done|done|]. intros k. rewrite Hn. split; [by left|]. intros [?| ->]; [done|by apply Hs].
  - split; [|done|done|].
    + destruct Hs as [H1 H2 H3 H4 H5]. split; [done|done| | |].
      * intros k. cbn. unfold codes in *. cbn. rewrite fmap_app, elem_of_app, elem_of_union, elem_of_singleton, H3. cbn. rewrite list_elem_of_singleton. naive_solver.
      * unfold codes. cbn. rewrite fmap_app. apply NoDup_app. split_and!; [done| |apply NoDup_singleton].
        intros k Hk. cbn. rewrite list_elem_of_singleton. intros ->. by apply Hin, H3.
      * apply Forall_app. split; [done|]. by apply Forall_singleton.
    + intros k. rewrite Hn. unfold codes. cbn. rewrite fmap_app, elem_of_app. cbn. by rewrite list_elem_of_singleton.
Qed.

(** A node that takes the next id, and is appended if there is room. *)
Definition put (mk : bytes → ExplainNode) (c : normCtx) : normCtx := let '(id, c) := allocID c in appendNode (mk id) c.

Definition parent_text (parentID : bytes) (parent : option nat) (c : normCtx) : Prop :=
  length (nc_nodes c) < MaxExplainNodes → maybeParent parentID = number <$> parent.

Lemma walked_full c : sane c → MaxExplainNodes <= length (nc_nodes c) → ∀ e fs, pe_deep e = false ∨ fs = true →
  ∀ id : Z, walked ([e], []) c (NormCtx (nc_nodes c) (nc_risks c) (nc_seenRisks c) id true (nc_unknownShape c)).
Proof.
  intros Hs Hfull e fs _ id. pose proof (sn_length _ Hs). assert (length (nc_nodes c) = MaxExplainNodes) as Hl by lia.
  split.
  - destruct Hs as [H1 H2 H3 H4 H5]. split; try done. cbn. lia.
  - cbn [nc_nodes]. rewrite take_app_le, take_ge by lia. done.
  - rewrite overflows_spec. cbn [nc_truncated fst length]. rewrite bool_decide_true by lia. by rewrite orb_true_r.
  - intros k. unfold noted. cbn. split; [by left|]. intros [?|[?%not_elem_of_nil|(i & e' & ? & ? & ?)]]; [done|done|lia].
Qed.

Lemma walked_put parentID parent mk c : sane c → parent_text parentID parent c →
  walked ([PlanEntry parent mk [] false], []) c (put (λ id, mk id (maybeParent parentID)) c).
Proof.
  intros Hs Hp. unfold put, allocID, appendNode. cbn [nc_nodes].
  destruct (Nat.leb_spec MaxExplainNodes (length (nc_nodes c))) as [Hfull|Hroom].
  - unfold set_truncated. cbn. by apply (walked_full c Hs Hfull _ true); right.
  - assert (nc_nodes c ++ [mk (format_int (nc_nextID c)) (maybeParent parentID)]
      = nc_nodes c ++ render_from (length (nc_nodes c)) [PlanEntry parent mk [] false]) as Heq.
    { f_equal. unfold render_from, render. cbn. rewrite Nat.add_0_r, (Hp Hroom), (sn_next _ Hs Hroom). done. }
    split.
    + destruct Hs as [H1 H2 H3 H4 H5]. split; try done; cbn; rewrite length_app; cbn; [lia|]. intros _. rewrite (H2 Hroom). lia.
    + cbn [nc_nodes fst]. rewrite <- Heq, take_ge; [done|]. rewrite length_app. cbn. lia.
    + rewrite overflows_none; [by rewrite orb_false_r| |done]. cbn. lia.
    + intros k. unfold noted, codes. cbn. split; [by left|]. intros [?|[?%not_elem_of_nil|(i & e & He & _ & Hk)]]; [done|done|].
      destruct i; cbn in He; [|done]. injection He as <-. by apply not_elem_of_nil in Hk.
Qed.

(** ** The emitters *)

Lemma merge_nil_l s : ([], []) ⊕ s = s.
Proof. by destruct s. Qed.
Lemma merge_nil_r s : s ⊕ ([], []) = s.
Proof. unfold merge. cbn. rewrite !app_nil_r. by destruct s. Qed.
Lemma merge_assoc s t u : s ⊕ t ⊕ u = s ⊕ (t ⊕ u).
Proof. unfold merge. cbn. by rewrite !app_assoc. Qed.

Lemma walked_emit operation parentID parent c : sane c → parent_text parentID parent c →
  walked ([plain_entry operation parent], []) c (emit_plain operation parentID c).
Proof.
  intros Hs Hp. unfold emit_plain, atNodeCap. destruct (Nat.leb_spec MaxExplainNodes (length (nc_nodes c))) as [Hfull|Hroom].
  - by apply (walked_full c Hs Hfull _ true); right.
  - by apply (walked_put parentID parent (plain_node operation)).
Qed.

(** Neither flag is part of what a walk is judged by. *)
Lemma walked_unknown s c c' : walked s c c' → walked s c (set_unknown c').
Proof. intros [[] ? ? ?]. split; [by split|done|done|done]. Qed.

(** Membership in a closed list of texts. *)
Ltac risk := by (apply (bool_decide_unpack _); vm_compute).

Lemma walked_unknown_shape parentID parent c : sane c → parent_text parentID parent c →
  walked (unknown_summary parent) c (unknown_shape parentID c).
Proof.
  intros Hs Hp. unfold unknown_shape.
  assert (walked ([plain_entry ExplainOpUnknown parent], []) c (emitUnknown parentID c)) as Hw.
  { pose proof (walked_emit ExplainOpUnknown _ _ _ Hs Hp) as Hw. unfold emitUnknown.
    destruct (atNodeCap c) eqn:E; [unfold emit_plain in Hw; by rewrite E in Hw|by apply walked_unknown]. }
  apply (walked_trans _ (note true ExplainRiskUnknownPlanShape) _ _ _ Hs Hw), (walked_risk true); [apply Hw|risk].
Qed.

Lemma walked_deep parentID parent c : sane c → parent_text parentID parent c →
  walked (deep_summary parent) c (set_truncated (unknown_shape parentID c)).
Proof.
  intros Hs Hp. destruct (walked_unknown_shape parentID parent c Hs Hp) as [[H1 H2 H3 H4 H5] Hn _ Hc]. split; [done|exact Hn| |].
  - rewrite overflows_spec. cbn. by rewrite !orb_true_r.
  - intros code. etransitivity; [apply Hc|]. unfold noted. cbn [unknown_summary deep_summary fst snd]. f_equiv. f_equiv.
    split; intros (i & e & He & ? & Hk); (destruct i; cbn in He; [|done]); injection He as <-; by apply not_elem_of_nil in Hk.
Qed.

Lemma walked_estimate est c : sane c → walked (note (high_rows est) ExplainRiskHighEstimatedRows) c (estimate_risk est c).
Proof.
  intros Hs. pose proof (walked_risk (high_rows est) ExplainRiskHighEstimatedRows c Hs) as Hw.
  destruct est as [est|]; [apply Hw; risk|by apply walked_refl].
Qed.

(** The estimate's risk does not look at the next id. *)
Lemma estimate_alloc est c : estimate_risk est (allocID c).2 = (allocID (estimate_risk est c)).2 ∧ nc_nextID (estimate_risk est c) = nc_nextID c
  ∧ nc_nodes (estimate_risk est c) = nc_nodes c.
Proof.
  unfold estimate_risk, addRisk. destruct est as [est|]; [|done]. destruct (_ <=? _)%Z; [|done]. cbn [allocID snd nc_seenRisks nc_risks].
  case_bool_decide; [done|]. by destruct (_ <=? _).
Qed.

Section walks.
Context (beyond_uint64 : spec_float → Z).

Lemma walked_table parentID parent block c : sane c → parent_text parentID parent c →
  walked (table_summary beyond_uint64 parent block) c (emitTableNode beyond_uint64 block parentID c).
Proof.
  intros Hs Hp. unfold emitTableNode, table_summary. destruct (as_object _) as [tbl|]; [|by apply walked_unknown_shape].
  set (est := extractEstimatedRows beyond_uint64 tbl). set (access := mapAccessType tbl).
  pose proof (walked_estimate est c Hs) as H1. destruct (estimate_alloc est c) as (Ha & Hid & Hno).
  assert (parent_text parentID parent (estimate_risk est c)) as Hp1 by (intros H; apply Hp; by rewrite <- Hno).
  set (mk := λ id parent, PlanNode id parent (table_operation access) access (safe_estimate est) (table_index tbl access) [] None None).
  pose proof (walked_put parentID parent mk _ (wk_sane _ _ _ H1) Hp1) as H2.
  pose proof (walked_trans _ _ _ _ _ Hs H1 H2) as H12.
  unfold put in H2, H12. unfold allocID in Ha, H2, H12 |- *. cbn [snd] in Ha. rewrite Ha, <- Hid.
  eapply (walked_trans _ _ _ _ _ Hs H12). apply (walked_risk _ ExplainRiskFullTableScan); [apply H12|risk].
Qed.

Lemma walked_filesort op c : sane c → walked (filesort_summary op) c (flag_filesort op c).
Proof. intros Hs. unfold filesort_summary, flag_filesort. apply (walked_risk _ ExplainRiskFilesort); [done|risk]. Qed.

Lemma walked_temporary op parentID parent c : sane c → parent_text parentID parent c →
  walked (temporary_summary parent op) c (flag_temporary op parentID c).
Proof.
  intros Hs Hp. unfold temporary_summary, flag_temporary. destruct (is_set _); [|by apply walked_refl].
  pose proof (walked_emit ExplainOpTemporaryTbl _ _ _ Hs Hp) as Hw.
  apply (walked_trans _ (note true ExplainRiskTemporaryTable) _ _ _ Hs Hw), (walked_risk true); [apply Hw|risk].
Qed.

(** What a walk does where its first entry is to stand at [next]. *)
Definition stands (next : nat) (c : normCtx) : Prop := length (nc_nodes c) < MaxExplainNodes → next = length (nc_nodes c).
Definition follows (f : json_object → bytes → normCtx → normCtx) (g : nat → option nat → json_object → plan_summary) : Prop :=
  ∀ m parentID parent next c, sane c → parent_text parentID parent c → stands next c → walked (g next parent m) c (f m parentID c).

Lemma stands_after next s c c' : sane c → stands next c → walked s c c' → stands (next + length s.1) c'.
Proof. intros Hs Hn Hw Hr. destruct (walked_room _ _ _ Hw Hs Hr) as [Hl ->]. by rewrite (Hn Hl). Qed.
Lemma parent_after parentID parent s c c' : sane c → parent_text parentID parent c → walked s c c' → parent_text parentID parent c'.
Proof. intros Hs Hp Hw Hr. destruct (walked_room _ _ _ Hw Hs Hr) as [Hl _]. by apply Hp. Qed.

(** One more walk after what was walked. *)
Lemma walked_then f g m parentID parent next s c c' : follows f g → sane c → parent_text parentID parent c' → stands next c →
  walked s c c' → walked (s ⊕ g (next + length s.1) parent m) c (f m parentID c').
Proof.
  intros Hf Hs Hp Hn Hw. eapply walked_trans; [done|done|]. apply Hf; [apply Hw|done|by eapply stands_after].
Qed.

Lemma walked_children f g parentID parent next c children : follows f g → sane c → stands next c →
  ∀ acc c', walked acc c c' → parent_text parentID parent c' →
  walked (children_summary (λ at_ m, g at_ parent m) next acc children) c
    (foldl (λ c child, match as_object (Some child) with Some m => f m parentID c | None => c end) c' children).
Proof.
  intros Hf Hs Hn. unfold children_summary. induction children as [|child children IH]; intros acc c' Hw Hp; [done|]. cbn [foldl].
  destruct (as_object (Some child)) as [m|]; [|by apply IH].
  assert (walked (acc ⊕ g (next + length acc.1) parent m) c (f m parentID c')) as Hw' by by eapply walked_then.
  apply IH; [done|]. eapply parent_after; [apply Hw|exact Hp|]. apply Hf; [apply Hw|done|by eapply stands_after].
Qed.

Lemma number_not_nil i : number i ≠ [].
Proof.
  unfold number, format_int. destruct (_ <? _)%Z; [done|]. unfold format_uint. apply digits_nonempty. left. lia.
Qed.
Lemma maybe_number i : maybeParent (number i) = Some (number i).
Proof. unfold maybeParent. case_bool_decide as E; [by apply number_not_nil in E|done]. Qed.

(** A node whose own risk counts only where there is room for it. *)
Lemma walked_pg_node operation access usesIndex node parentID parent c : sane c → parent_text parentID parent c →
  let '(id, c1) := emitPGNode beyond_uint64 parentID operation access node usesIndex c in
  walked ([PlanEntry parent (λ id parent, pg_node beyond_uint64 id parent operation access node usesIndex)
             (if high_rows (extractPGPlanRows beyond_uint64 node) then [ExplainRiskHighEstimatedRows] else []) false], []) c c1
  ∧ (length (nc_nodes c) < MaxExplainNodes → id = number (length (nc_nodes c))).
Proof.
  intros Hs Hp. unfold emitPGNode, atNodeCap. set (est := extractPGPlanRows beyond_uint64 node).
  destruct (Nat.leb_spec MaxExplainNodes (length (nc_nodes c))) as [Hfull|Hroom].
  { split; [by apply (walked_full c Hs Hfull _ true); right|lia]. }
  pose proof (walked_estimate est c Hs) as H1. destruct (estimate_alloc est c) as (Ha & Hid & Hno).
  assert (parent_text parentID parent (estimate_risk est c)) as Hp1 by (intros H; apply Hp; by rewrite <- Hno).
  pose proof (walked_put parentID parent (λ id parent, pg_node beyond_uint64 id parent operation access node usesIndex) _ (wk_sane _ _ _ H1) Hp1) as H2.
  pose proof (walked_trans _ _ _ _ _ Hs H1 H2) as [K1 K2 K3 K4].
  unfold put, allocID in *. cbn [snd] in Ha. rewrite Ha, <- Hid. split; [|intros _; rewrite Hid; by rewrite (sn_next _ Hs Hroom)].
  split; [exact K1|exact K2|exact K3|]. intros code. etransitivity; [apply K4|]. unfold noted, note, merge. cbn [fst snd app]. f_equiv.
  rewrite app_nil_r. split.
  - intros [H|(i & e & He & ? & Hk)]; [right; exists 0; eexists; split; [done|]; split; [lia|by case_match]|].
    destruct i; cbn in He; [|done]. injection He as <-. by apply not_elem_of_nil in Hk.
  - intros [H%not_elem_of_nil|(i & e & He & ? & Hk)]; [done|]. destruct i; cbn in He; [|done]. injection He as <-. left. cbn in Hk. by case_match.
Qed.

Lemma pg_case_risk nodeType code severity : (pg_case nodeType).2 = Some (code, severity) → code ∈ risk_codes ∧ severity = risk_severity code.
Proof. unfold pg_case. repeat (case_bool_decide; [first [done|intros [= <- <-]; split; [risk|by vm_compute]]|]). intros [= <- <-]. split; [risk|by vm_compute]. Qed.

Lemma pg_walked room : follows (pgWalk beyond_uint64 room) (pg_summary beyond_uint64 room).
Proof.
  induction room as [|room IH]; intros m parentID parent next c Hs Hp Hn; [by apply walked_deep|]. cbn [pgWalk pg_summary].
  unfold pg_entry. pose proof (pg_case_risk (default [] (as_text (m !! gs "Node Type")))) as Hr.
  destruct (pg_case _) as [[[operation access] usesIndex] risk]. cbn [snd] in Hr.
  pose proof (walked_pg_node operation access usesIndex m parentID parent c Hs Hp) as Hw.
  destruct (emitPGNode _ _ _ _ _ _ _) as [id c1]. destruct Hw as [Hw Hid].
  eassert (walked (_, match risk with Some (code, _) => [code] | None => [] end) c
            (match risk with Some (code, severity) => addRisk code severity c1 | None => c1 end)) as Hw2.
  { destruct risk as [[code severity]|]; [|exact Hw]. destruct (Hr _ _ eq_refl) as [Hcode ->].
    apply (walked_trans _ (note true code) _ _ _ Hs Hw), (walked_risk true); [apply Hw|done]. }
  assert (parent_text id (Some next) (match risk with Some (code, severity) => addRisk code severity c1 | None => c1 end)) as Hp2.
  { intros Hroom. destruct (walked_room _ _ _ Hw2 Hs Hroom) as [Hl _]. rewrite (Hid Hl), (Hn Hl). apply maybe_number. }
  destruct (as_array _) as [children|]; [|exact Hw2]. by eapply (walked_children _ _ _ _ _ _ _ IH).
Qed.

(** An operation below a block: its own entry and risks, then its block. *)
Lemma walked_below (room next : nat) (block : json_object) (key parentID : bytes) (parent : option nat) (own : json_object → plan_summary) (flag : json_object → normCtx → normCtx) :
  follows (walk beyond_uint64 room) (mysql_summary beyond_uint64 room) →
  (∀ op c, sane c → parent_text parentID parent c → walked (own op) c (flag op c)) →
  ∀ (acc : plan_summary) (c c' : normCtx), sane c → stands next c → parent_text parentID parent c → walked acc c c' →
  walked (below_summary (mysql_summary beyond_uint64 room) next parent block key own acc) c
    (walk_operation (walk beyond_uint64 room) block key parentID flag c').
Proof.
  intros IH Hf acc c c' Hs Hn Hp Hw. unfold below_summary, walk_operation. destruct (as_object _) as [op|]; [|done]. cbv zeta.
  assert (walked (acc ⊕ own op) c (flag op c')) as Hw1.
  { eapply walked_trans; [done|done|]. apply Hf; [apply Hw|by eapply parent_after]. }
  eapply walked_then; try done. by eapply parent_after.
Qed.

Lemma mysql_walked room : follows (walk beyond_uint64 room) (mysql_summary beyond_uint64 room).
Proof.
  induction room as [|room IH]; intros m parentID parent next c Hs Hp Hn; [by apply walked_deep|]. cbn [walk mysql_summary].
  set (acc0 := if bool_decide (is_Some (m !! gs "table")) then table_summary beyond_uint64 parent m else ([], [])).
  set (c0 := if bool_decide (is_Some (m !! gs "table")) then emitTableNode beyond_uint64 m parentID c else c).
  assert (walked acc0 c c0) as H0 by (unfold acc0, c0; case_bool_decide; [by apply walked_table|by apply walked_refl]).
  apply walked_below; try done.
  { intros. by apply walked_temporary. }
  apply walked_below; try done.
  { intros op c1 Hs1 Hp1. pose proof (walked_temporary op _ _ _ Hs1 Hp1) as Hw. eapply walked_trans; [done|done|].
    apply walked_filesort, Hw. }
  apply walked_below; try done.
  { intros. by apply walked_filesort. }
  unfold loop_summary, walk_loop. destruct (m !! gs "nested_loop") as [nl|]; [|exact H0].
  pose proof (walked_emit ExplainOpNestedLoop _ _ _ (wk_sane _ _ _ H0) (parent_after _ _ _ _ _ Hs Hp H0)) as H1.
  fold (emitNestedLoopNode parentID c0) in H1. pose proof (walked_trans _ _ _ _ _ Hs H0 H1) as H2.
  assert (parent_text (lastID (emitNestedLoopNode parentID c0)) (Some (next + length acc0.1)) (emitNestedLoopNode parentID c0)) as Hp2.
  { intros Hroom. destruct (walked_room _ _ _ H2 Hs Hroom) as [Hl Hlen].
    pose proof (sn_next _ (wk_sane _ _ _ H1) Hroom) as Hid. rewrite Hlen in Hid. cbn [merge fst] in Hid. rewrite length_app in Hid. cbn in Hid.
    unfold lastID. rewrite Hid. destruct (Z.eqb_spec (Z.of_nat (length (nc_nodes c) + (length acc0.1 + 1))) 0); [lia|].
    rewrite (Hn Hl). etransitivity; [|apply maybe_number]. unfold number. do 2 f_equal. lia. }
  destruct (as_array (Some nl)) as [arr|]; [|exact H2].
  by apply (walked_children (walk beyond_uint64 room) (mysql_summary beyond_uint64 room)).
Qed.
End walks.

(** ** What the nodes are *)

Record entry_ok (labelled : bool) (e : plan_entry) : Prop := {
  eo_id : ∀ id parent, en_ID (pe_node e id parent) = id;
  eo_parent : ∀ id parent, en_ParentID (pe_node e id parent) = parent;
  eo_valid : ∀ id parent, id ≠ [] → node_Validate (pe_node e id parent) = true;
  eo_rows : ∀ id parent est, en_EstimatedRows (pe_node e id parent) = Some est → (0 ≤ est ≤ maxSafeJSInteger)%Z;
  eo_plain : ∀ id parent, let n := pe_node e id parent in labelled = false → en_Label n = [] ∧ en_StartupCost n = None ∧ en_TotalCost n = None;
}.

(** Entries from position [next] on, under [parent]: each parent stands before. *)
Definition entries_ok (labelled : bool) (next : nat) (parent : option nat) (s : plan_summary) : Prop :=
  ∀ i e, s.1 !! i = Some e →
    entry_ok labelled e ∧ (pe_parent e = parent ∨ ∃ p, pe_parent e = Some p ∧ next ≤ p < next + i).

Lemma ok_nil labelled next parent codes_ : entries_ok labelled next parent ([], codes_).
Proof. by intros i e. Qed.
Lemma ok_one labelled next parent e codes_ : entry_ok labelled e → pe_parent e = parent → entries_ok labelled next parent ([e], codes_).
Proof. intros He Hp i e' Hi. destruct i; cbn in Hi; [|done]. injection Hi as <-. by split; [|left]. Qed.

Lemma ok_merge labelled next parent parent' s t :
  entries_ok labelled next parent s → entries_ok labelled (next + length s.1) parent' t →
  parent' = parent ∨ (∃ p, parent' = Some p ∧ next ≤ p < next + length s.1) →
  entries_ok labelled next parent (s ⊕ t).
Proof.
  intros Hs Ht Hp i e. cbn [merge fst]. intros [He|[Hi He]]%lookup_app_Some; [by apply Hs|].
  destruct (Ht _ _ He) as [Hok Hpar]. split; [done|].
  destruct Hpar as [->|(p & -> & Hr)]; [|right; exists p; split; [done|lia]].
  destruct Hp as [->|(p & -> & Hr)]; [by left|right; exists p; split; [done|lia]].
Qed.

Lemma ok_children labelled f next parent parent' children :
  (∀ at_ m, entries_ok labelled at_ parent' (f at_ m)) → ∀ acc, entries_ok labelled next parent acc →
  parent' = parent ∨ (∃ p, parent' = Some p ∧ next ≤ p < next + length acc.1) →
  entries_ok labelled next parent (children_summary f next acc children).
Proof.
  intros Hf. unfold children_summary. induction children as [|child children IH]; intros acc Ha Hp; [done|]. cbn [foldl].
  destruct (as_object (Some child)) as [m|]; [|by apply IH]. apply IH; [by eapply ok_merge|].
  destruct Hp as [->|(p & -> & Hr)]; [by left|right]. exists p. split; [done|]. cbn [merge fst]. rewrite length_app. lia.
Qed.

Lemma parse_uint_nonneg s u : parse_uint s = Some u → (0 ≤ u)%Z.
Proof.
  unfold parse_uint. destruct (_ || _) eqn:E; [done|]. destruct (_ <=? _)%Z; [|done]. intros [= <-]. apply orb_false_iff in E as [_ E%negb_false_iff].
  unfold digits_value. assert (∀ a, (0 ≤ a)%Z → (0 ≤ foldl (λ acc c, acc * 10 + (bv c - 48)) a s)%Z) as H; [|by apply H].
  induction s as [|c s IH]; intros a Ha; [done|]. cbn in E |- *. apply andb_prop in E as [Hc E]. apply in_range_spec in Hc. apply IH; [done|lia].
Qed.
Lemma safe_rows est n : (∀ z, est = Some z → (0 ≤ z)%Z) → safe_estimate est = Some n → (0 ≤ n ≤ maxSafeJSInteger)%Z.
Proof. unfold safe_estimate. destruct est as [z|]; [|done]. intros Hz. destruct (Z.leb_spec z maxSafeJSInteger); [|done]. intros [= <-]. specialize (Hz z eq_refl). lia. Qed.

Lemma plain_ok labelled operation risks deep parent : operation_Validate operation = true →
  entry_ok labelled (PlanEntry parent (plain_node operation) risks deep).
Proof.
  intros Ho. split; cbn; try done. intros id p Hid. unfold node_Validate. cbn. rewrite Ho.
  rewrite bool_decide_false by done. by vm_compute.
Qed.

Section nodes.
Context (beyond_uint64 : spec_float → Z).

Lemma toUint64_nonneg v u : toUint64 beyond_uint64 v = Some u → (0 ≤ u)%Z.
Proof.
  destruct v as [| |[| | |[] m e]|text| |]; cbn; try done.
  - by intros [= <-].
  - intros [= <-]. destruct (_ <=? _)%Z; [by apply Z.shiftl_nonneg|apply Z.mod_pos_bound; lia].
  - apply parse_uint_nonneg.
Qed.
Lemma first_estimate_nonneg keys tbl u : first_estimate beyond_uint64 keys tbl = Some u → (0 ≤ u)%Z.
Proof.
  induction keys as [|key keys IH]; [done|]. cbn. destruct (tbl !! key) as [v|]; [|done].
  destruct (toUint64 _ v) eqn:E; [|done]. intros [= <-]. by eapply toUint64_nonneg.
Qed.

Lemma access_ok tbl :
  operation_Validate (table_operation (mapAccessType tbl)) = true ∧ access_Validate (mapAccessType tbl) = true.
Proof. unfold mapAccessType. generalize (default [] (as_text (tbl !! gs "access_type"))). intros at_. repeat case_bool_decide; by vm_compute. Qed.

Lemma table_ok labelled next parent block : entries_ok labelled next parent (table_summary beyond_uint64 parent block).
Proof.
  unfold table_summary. destruct (as_object _) as [tbl|]; [|apply ok_one; [by apply plain_ok|done]].
  cbv zeta. unfold note, merge. cbn [fst snd app]. apply ok_one; [|done]. split; try done.
  - intros id p Hid. unfold node_Validate. cbn [pe_node en_ID en_Operation en_Access en_Label].
    destruct (access_ok tbl) as [-> ->]. rewrite bool_decide_false by done. by vm_compute.
  - intros id p est. cbn [pe_node en_EstimatedRows]. apply safe_rows. intros z. apply first_estimate_nonneg.
Qed.

Lemma temporary_ok labelled next parent op : entries_ok labelled next parent (temporary_summary parent op).
Proof. unfold temporary_summary. destruct (is_set _); [apply ok_one; [by apply plain_ok|done]|apply ok_nil]. Qed.

Lemma below_ok labelled f next parent block key own acc :
  (∀ at_ m, entries_ok labelled at_ parent (f at_ parent m)) → (∀ at_ op, entries_ok labelled at_ parent (own op)) →
  entries_ok labelled next parent acc → entries_ok labelled next parent (below_summary f next parent block key own acc).
Proof.
  intros Hf Ho Ha. unfold below_summary. destruct (as_object _) as [op|]; [|done]. cbv zeta.
  eapply ok_merge; [|apply Hf|by left]. eapply ok_merge; [done|apply Ho|by left].
Qed.

Lemma mysql_ok labelled room next parent block : entries_ok labelled next parent (mysql_summary beyond_uint64 room next parent block).
Proof.
  revert next parent block. induction room as [|room IH]; intros next parent block; [apply ok_one; [by apply plain_ok|done]|]. cbn [mysql_summary].
  apply below_ok; [done|intros; apply temporary_ok|]. apply below_ok; [done| |].
  { intros at_ op. eapply ok_merge; [apply temporary_ok|apply ok_nil|by left]. }
  apply below_ok; [done|intros; apply ok_nil|].
  assert (entries_ok labelled next parent (if bool_decide (is_Some (block !! gs "table")) then table_summary beyond_uint64 parent block else ([], []))) as H0
    by (case_bool_decide; [apply table_ok|apply ok_nil]).
  unfold loop_summary. destruct (block !! gs "nested_loop") as [nl|]; [|done]. cbv zeta. eapply ok_children; [intros; apply IH| |].
  - eapply ok_merge; [done| |by left]. apply ok_one; [by apply plain_ok|done].
  - right. eexists. split; [done|]. cbn [merge fst]. rewrite length_app. cbn. lia.
Qed.

Lemma pg_case_ok nodeType : operation_Validate (pg_case nodeType).1.1.1 = true ∧ access_Validate (pg_case nodeType).1.1.2 = true.
Proof. unfold pg_case. repeat (case_bool_decide; [by vm_compute|]). by vm_compute. Qed.

Lemma pg_entry_ok next parent node : entries_ok true next parent (pg_entry beyond_uint64 parent node).
Proof.
  unfold pg_entry. pose proof (pg_case_ok (default [] (as_text (node !! gs "Node Type")))) as Hok.
  destruct (pg_case _) as [[[operation access] usesIndex] risk]. cbn [fst snd] in Hok. destruct Hok as [Ho Ha].
  apply ok_one; [|done]. split; try done.
  - intros id p Hid. unfold node_Validate, pg_node. cbn [pe_node en_ID en_Operation en_Access en_Label]. rewrite Ho, Ha, bool_decide_false by done.
    unfold pgNodeLabel. destruct (Nat.ltb_spec MaxExplainNodeLabelLen (length (default [] (as_text (node !! gs "Node Type"))))); [done|].
    apply andb_true_iff. split; [done|]. apply negb_true_iff, Nat.ltb_ge. lia.
  - intros id p est. apply safe_rows. intros z. unfold extractPGPlanRows. destruct (node !! _); [|done]. apply toUint64_nonneg.
Qed.

Lemma pg_ok room next parent node : entries_ok true next parent (pg_summary beyond_uint64 room next parent node).
Proof.
  revert next parent node. induction room as [|room IH]; intros next parent node; [apply ok_one; [by apply plain_ok|done]|]. cbn [pg_summary].
  eapply ok_children; [intros; apply IH|apply pg_entry_ok|]. right. exists next. split; [done|].
  unfold pg_entry. destruct (pg_case _) as [[[? ?] ?] ?]. cbn. lia.
Qed.
End nodes.

(** ** Theorems *)

Section theorems.
Context (beyond_uint64 : spec_float → Z).

Lemma empty_sane : sane empty_ctx.
Proof. split; cbn; try done; [lia|intros; by rewrite elem_of_nil|constructor]. Qed.

(** The normal form of a summary: its first nodes, whether some are missing, and
    its risks. *)
Record plan_of (s : plan_summary) (r : NormalizeResult) : Prop := {
  po_nodes : nr_Nodes r = take MaxExplainNodes (render_from 0 s.1);
  po_truncated : nr_Truncated r = overflows 0 s;
  po_risks : ∀ code, code ∈ ri_Code <$> nr_Risks r ↔ noted 0 s code;
}.

(** The summary of a document, where its root is an object of that shape. *)
Definition mysql_plan (raw : json) : option plan_summary :=
  mysql_summary beyond_uint64 (S MaxExplainPlanDepth) 0 None <$> mysql_root raw.
Definition pg_plan (raw : json) : option plan_summary :=
  pg_summary beyond_uint64 (S MaxExplainPlanDepth) 0 None <$> pg_root raw.

(** An answer to a plan: nothing exactly where there is no node to show. *)
Definition answers_plan (plan : option plan_summary) (r : option NormalizeResult) : Prop :=
  match plan, r with
  | Some s, Some r => s.1 ≠ [] ∧ plan_of s r
  | Some s, None => s.1 = []
  | None, r => r = None
  end.

Lemma finish_answers s c : walked s empty_ctx c → answers_plan (Some s) (finish_walk c).
Proof.
  intros [Hs Hn Ht Hc]. cbn [empty_ctx nc_nodes length app] in Hn, Ht, Hc. unfold finish_walk, answers_plan.
  destruct (nc_nodes c) as [|n nodes] eqn:E.
  - apply (f_equal length) in Hn. rewrite length_take, length_render in Hn. cbn in Hn. unfold MaxExplainNodes in Hn.
    destruct s.1; [done|cbn in Hn; lia].
  - split; [intros Heq; by rewrite Heq in Hn|]. split; [by rewrite <- Hn|exact Ht|].
    intros code. etransitivity; [apply Hc|]. unfold codes. cbn. rewrite elem_of_nil. naive_solver.
Qed.

Lemma mysql_answers raw : answers_plan (mysql_plan raw) (Normalize beyond_uint64 raw).
Proof.
  unfold mysql_plan, Normalize. destruct (mysql_root raw) as [block|]; [|done].
  apply finish_answers, mysql_walked; [apply empty_sane|done|done].
Qed.
Lemma pg_answers raw : answers_plan (pg_plan raw) (PGNormalize beyond_uint64 raw).
Proof.
  unfold pg_plan, PGNormalize. destruct (pg_root raw) as [node|]; [|done].
  apply finish_answers, pg_walked; [apply empty_sane|done|done].
Qed.


(** A well-formed plan: at most 64 nodes numbered in order, each after its
    parent, estimates a JavaScript client can hold, and each risk once. *)
Record plan_wf (labelled : bool) (r : NormalizeResult) : Prop := {
  pw_nodes : 1 ≤ length (nr_Nodes r) ≤ MaxExplainNodes;
  pw_node : ∀ i n, nr_Nodes r !! i = Some n →
    node_Validate n = true ∧ en_ID n = number i
    ∧ (en_ParentID n = None ∨ ∃ p, p < i ∧ en_ParentID n = Some (number p))
    ∧ (∀ est, en_EstimatedRows n = Some est → (0 ≤ est ≤ maxSafeJSInteger)%Z)
    ∧ (labelled = false → en_Label n = [] ∧ en_StartupCost n = None ∧ en_TotalCost n = None);
  pw_risks : NoDup (ri_Code <$> nr_Risks r) ∧ length (nr_Risks r) ≤ 5;
  pw_risk : forallb risk_Validate (nr_Risks r) = true;
}.

Lemma finish_wf labelled s c r : walked s empty_ctx c → entries_ok labelled 0 None s → finish_walk c = Some r → plan_wf labelled r.
Proof.
  intros Hw Hok Hf. pose proof (finish_answers _ _ Hw) as Ha. rewrite Hf in Ha. destruct Ha as [_ [Hn _ _]].
  destruct Hw as [Hs _ _ _]. unfold finish_walk in Hf. destruct (nc_nodes c) as [|n0 nodes] eqn:E; [done|]. injection Hf as <-. split.
  - pose proof (sn_length _ Hs) as Hl. rewrite E in Hl. cbn in Hl |- *. lia.
  - intros i n Hi. rewrite Hn in Hi. apply lookup_take_Some in Hi as [Hi _]. unfold render_from in Hi.
    rewrite list_lookup_imap in Hi. destruct (s.1 !! i) as [e|] eqn:He; [|done]. injection Hi as <-. cbn.
    destruct (Hok _ _ He) as [[H1 H2 H3 H4 H5] Hp]. unfold render. split_and!; [apply H3, number_not_nil|apply H1| |apply H4|apply H5].
    rewrite H2. destruct Hp as [->|(p & -> & Hr)]; [by left|right; exists p; split; [lia|done]].
  - split; [apply Hs|by apply codes_bound].
  - cbn [nr_Risks]. apply Is_true_eq_true, forallb_True, (Forall_impl _ _ _ (sn_risks _ Hs)). intros rk [Hc Hv]. unfold risk_Validate. rewrite Hv.
    unfold risk_code_Validate. rewrite bool_decide_true by done. apply Is_true_eq_left. unfold risk_severity. by case_bool_decide.
Qed.

Lemma mysql_wf raw r : Normalize beyond_uint64 raw = Some r → plan_wf false r.
Proof.
  unfold Normalize. destruct (mysql_root raw) as [block|]; [|done]. cbn [mbind option_bind]. apply (finish_wf _ (mysql_summary beyond_uint64 (S MaxExplainPlanDepth) 0 None block)).
  - apply mysql_walked; [apply empty_sane|done|done].
  - apply mysql_ok.
Qed.
Lemma pg_wf raw r : PGNormalize beyond_uint64 raw = Some r → plan_wf true r.
Proof.
  unfold PGNormalize. destruct (pg_root raw) as [node|]; [|done]. cbn [mbind option_bind]. apply (finish_wf _ (pg_summary beyond_uint64 (S MaxExplainPlanDepth) 0 None node)).
  - apply pg_walked; [apply empty_sane|done|done].
  - apply pg_ok.
Qed.

(** Whatever document the engine sent, an answer is well formed: 1 to 64
    nodes with the ids 0, 1, 2, ..., each after its parent, every operation,
    access, risk and severity one of the published ones, no estimate a client
    cannot hold, and no risk twice; MySQL plans carry no text of the document. *)
Theorem explain_plan_wf raw r :
  (Normalize beyond_uint64 raw = Some r → plan_wf false r) ∧ (PGNormalize beyond_uint64 raw = Some r → plan_wf true r).
Proof. split; [apply mysql_wf|apply pg_wf]. Qed.
End theorems.

(** ** Runs *)

Module PlanEx.
Definition text (s : string) : json := JText (gs s).
Definition object (l : list (string * json)) : json := JObject (list_to_map ((λ '(k, v), (gs k, v)) <$> l)).
Definition float (m : positive) (e : Z) : json := JFloat (S754_finite false m e).
(** Two scans under a join, on each engine. *)
Definition pg_document : json :=
  JArray [object [("Plan"%string, object
    [("Node Type", text "Hash Join"); ("Plan Rows", float 3 40);
     ("Plans", JArray [object [("Node Type", text "Seq Scan"); ("Relation Name", text "secret")];
                       object [("Node Type", text "Index Scan"); ("Total Cost", float 1 3)]])]%string)]].
Definition mysql_document : json :=
  object [("query_block"%string, object [("nested_loop"%string, JArray
    [object [("table"%string, object [("access_type", text "ALL"); ("rows_examined_per_scan", text "100000"); ("table_name", text "secret")]%string)];
     object [("table"%string, object [("access_type", text "ref"); ("key", text "by_user")]%string)]])])].
Definition outline (r : option NormalizeResult) : option (list (bytes * option bytes * bytes) * list bytes * bool) :=
  (λ r, ((λ n, (en_ID n, en_ParentID n, en_Operation n)) <$> nr_Nodes r, ri_Code <$> nr_Risks r, nr_Truncated r)) <$> r.
End PlanEx.

Example pg_plan_runs :
  PlanEx.outline (PGNormalize (λ _, 0%Z) PlanEx.pg_document)
  = Some ([(gs "0", None, ExplainOpNestedLoop); (gs "1", Some (gs "0"), ExplainOpTableAccess); (gs "2", Some (gs "0"), ExplainOpIndexAccess)],
          [ExplainRiskHighEstimatedRows; ExplainRiskFullTableScan], false).
Proof. by vm_compute. Qed.
Example mysql_plan_runs :
  PlanEx.outline (Normalize (λ _, 0%Z) PlanEx.mysql_document)
  = Some ([(gs "0", None, ExplainOpNestedLoop); (gs "1", Some (gs "0"), ExplainOpTableAccess); (gs "2", Some (gs "0"), ExplainOpIndexAccess)],
          [ExplainRiskHighEstimatedRows; ExplainRiskFullTableScan], false).
Proof. by vm_compute. Qed.
Example explain_plan_wf_witness : ∃ r, Normalize (λ _, 0%Z) PlanEx.mysql_document = Some r ∧ plan_wf false r.
Proof.
  destruct (Normalize (λ _, 0%Z) PlanEx.mysql_document) as [r|] eqn:E; [|by vm_compute in E].
  exists r. split; [done|]. exact (proj1 (explain_plan_wf (λ _, 0%Z) PlanEx.mysql_document r) E).
Defined.
