(* ===== verification/Explain.v ===== *)
(** * The EXPLAIN service

    [service/query_explain_service.go] with [NewExplainStatement] of
    [query_explain_executor.go]: access, guard, one run, the plan of ExplainPlan,
    and one audit event for every attempt on a known target. *)
From S2P Require Import Prelude GoText ExecModel TargetAccess QueryGuard MysqlAttempt PgParams PgSession PgAttempt PgClaimed ExplainPlan.
From Stdlib Require Import SpecFloat.

(** ** Calls and answers *)

Definition defaultExplainTimeout : Z := 10 * 1000000000.
Definition productionExplainTimeout : Z := 5 * 1000000000.

Definition ExplainAuditSuccess : bytes := gs "success".
Definition ExplainAuditRejected : bytes := gs "rejected".
Definition ExplainAuditUnsupported : bytes := gs "unsupported".
Definition ExplainAuditError : bytes := gs "error".

Record ExplainRequest : Type := MkExplainRequest {
  xr_ExplainStatement : bytes;
  xr_ExplainDatabase : bytes;
  xr_ExplainSchema : bytes;
}.

(** The sentinels the service looks for in a runner's error. *)
Record run_failure : Type := RunFailure {
  rf_deadline : bool;    (** [context.DeadlineExceeded] *)
  rf_timeout : bool;     (** [ErrQueryTimeout] *)
  rf_unsupported : bool; (** [ErrQueryExplainNotSupported] *)
}.

Inductive explain_error : Type :=
  | ExTargetNotFound
  | ExNotAllowed (status : QueryCredentialRuntimeStatus)
  | ExAccess                       (** any other access error *)
  | ExRefused (e : pg_entry_error) (** [pgAccessRefusalError] *)
  | ExSchemaValidation
  | ExValidation
  | ExNotSupported
  | ExTimeout
  | ExBackendFailure.

(** What the service asks of its collaborators, in order. *)
Inductive explain_call : Type :=
  | CallRun (dsn wrapped : bytes) (timeout : Z)
  | CallRunPG (dsn schema statement : bytes) (timeout : Z)
  | CallAudit (actor target : Z) (outcome : bytes).

(** [NewExplainStatement]: the only text a runner is handed. *)
Definition NewExplainStatement (guardedSelect : bytes) : bytes := gs "EXPLAIN FORMAT=JSON " ++ guardedSelect.

Definition normalizeEngineName (engine : bytes) : bytes := to_lower (trim_space engine).
Definition isExplainEngine (engine : bytes) : bool :=
  bool_decide (normalizeEngineName engine ∈ [gs "mysql"; gs "postgresql"]).

(** ** The runners *)

(** A driver's error: whether it is [context.DeadlineExceeded], and the sentinels
    of this package it may be. *)
Abbreviation driver_answer A := (result run_failure A).

(** [classifyExplainDriverError]. *)
Definition classifyExplainDriverError (f : run_failure) : run_failure :=
  if rf_deadline f then RunFailure false true false else RunFailure false false false.
Definition not_supported : run_failure := RunFailure false false true.

Definition MaxExplainPlanBytes : Z := 1048576.
Definition pgExplainMaxStatementBytes : Z := 1048576.

(** What a target answers: the row, if any, its cell and the error after it. *)
Record plan_rows : Type := PlanRows { px_next : bool; px_scan : driver_answer bytes; px_err : option run_failure }.
Record explain_driver : Type := ExplainDriver {
  xd_open : driver_answer unit;      (** the handle or the pool *)
  xd_acquire : driver_answer unit;   (** PostgreSQL only *)
  xd_begin : driver_answer unit;     (** a read-only transaction *)
  xd_exec : bytes → list bytes → driver_answer unit;
  xd_query : bytes → driver_answer plan_rows;
  xd_budget : option Z;              (** the milliseconds left *)
}.

Section runners.
Context (unmarshal : bytes → option json).

(** The cell of the one row that is looked at. *)
Definition read_plan (rows : plan_rows) : result run_failure json :=
  if negb (px_next rows) then Err not_supported
  else match px_scan rows with
  | Err f => Err (classifyExplainDriverError f)
  | Ok raw =>
    match px_err rows with
    | Some f => Err (classifyExplainDriverError f)
    | None =>
      if (raw =?b []) || (MaxExplainPlanBytes <? Z.of_nat (length raw))%Z then Err not_supported
      else match unmarshal raw with Some tree => Ok tree | None => Err not_supported end
    end
  end.

(** The transaction is rolled back and the handle closed on every path. *)
Definition MySQLExplain (driver : explain_driver) (wrapped : bytes) : result run_failure json :=
  _ ← xd_open driver;
  _ ← xd_begin driver;
  match xd_query driver wrapped with
  | Err f => Err (classifyExplainDriverError f)
  | Ok rows => read_plan rows
  end.

Definition classified {A} (r : driver_answer A) : driver_answer A :=
  match r with Ok a => Ok a | Err f => Err (classifyExplainDriverError f) end.

Definition armExplainStatementTimeout (driver : explain_driver) : result run_failure unit :=
  match xd_budget driver with
  | None => Err (RunFailure false true false)
  | Some ms => classified (xd_exec driver set_timeout_sql [format_int ms ++ gs "ms"])
  end.

(** The attempt's context always has a deadline. *)
Definition PGExplain (driver : explain_driver) (schema statement : bytes) : result run_failure json :=
  let wrapped := gs "EXPLAIN (FORMAT JSON) " ++ statement in
  if (pgExplainMaxStatementBytes <? Z.of_nat (length wrapped))%Z then Err not_supported
  else
    _ ← classified (xd_open driver);
    _ ← classified (xd_acquire driver);
    _ ← classified (xd_begin driver);
    _ ← classified (xd_exec driver search_path_sql [pgQuoteIdent schema ++ gs ",pg_catalog"]);
    _ ← classified (xd_exec driver timezone_sql []);
    _ ← armExplainStatementTimeout driver;
    rows ← classified (xd_query driver wrapped);
    read_plan rows.
End runners.

(** What the service is wired with: [ev_pg] is the PostgreSQL capability, with
    its guard. *)
Record explain_service : Type := ExplainService {
  ev_access : access_env;
  ev_parser : sql_parser;
  ev_run : bytes → bytes → result run_failure json;
  ev_pg_guard : bytes → bool;
  ev_pg : option (bytes → bytes → bytes → result run_failure json);
  ev_audit : bool;
  ev_beyond_uint64 : spec_float → Z;
}.

Definition explain_timeout (target : QueryTarget) : Z :=
  if isProductionEnvironment (tg_Environment target) then productionExplainTimeout else defaultExplainTimeout.

Section explain.
Context (svc : explain_service).

Abbreviation explained := (result explain_error ExplainResponse * list explain_call)%type.

(** Best effort: a failed write changes nothing. *)
Definition recordAudit (actor target : Z) (outcome : bytes) : list explain_call :=
  if ev_audit svc then [CallAudit actor target outcome] else [].

(** The answer to a run, which was the only call before. *)
Definition explain_finish (actor : Z) (target : QueryTarget) (engine : bytes) (call : explain_call) (fault : run_failure → bool)
    (normalize : json → option NormalizeResult) (raw : result run_failure json) : explained :=
  let audit := recordAudit actor (tg_ResourceID target) in
  match raw with
  | Err f =>
    if fault f then (Err ExTimeout, call :: audit ExplainAuditError)
    else if rf_unsupported f then (Err ExNotSupported, call :: audit ExplainAuditUnsupported)
    else (Err ExBackendFailure, call :: audit ExplainAuditError)
  | Ok raw =>
    match normalize raw with
    | None => (Err ExNotSupported, call :: audit ExplainAuditUnsupported)
    | Some r =>
      (Ok (MkExplainResponse (tg_ResourceID target) engine ExplainFormatVersion (nr_Nodes r) (nr_Risks r) (nr_Truncated r)),
       call :: audit ExplainAuditSuccess)
    end
  end.

Definition explainPG (actor : Z) (target : QueryTarget) (req : ExplainRequest) : explained :=
  let audit := recordAudit actor (tg_ResourceID target) in
  match ev_pg svc with
  | None => (Err ExNotSupported, audit ExplainAuditUnsupported)
  | Some run =>
    match ResolvePGExecution (ev_access svc) (tg_ResourceID target) (xr_ExplainDatabase req) with
    | Err AccessTargetNotFound => (Err ExTargetNotFound, [])
    | Err (AccessSchemaValidationFailed _) => (Err ExSchemaValidation, audit ExplainAuditRejected)
    | Err e => (Err (ExRefused (pgAccessRefusalError e)), audit ExplainAuditRejected)
    | Ok access =>
      if negb (ev_pg_guard svc (xr_ExplainStatement req)) then (Err ExValidation, audit ExplainAuditRejected)
      else
        let schema := if xr_ExplainSchema req =?b [] then cm_DefaultSchema (ba_Credential access) else xr_ExplainSchema req in
        explain_finish actor target ExplainEnginePostgreSQL
          (CallRunPG (ba_dsn access) schema (xr_ExplainStatement req) (explain_timeout target))
          (λ f, rf_deadline f || rf_timeout f) (PGNormalize (ev_beyond_uint64 svc))
          (run (ba_dsn access) schema (xr_ExplainStatement req))
    end
  end.

Definition Explain (actor targetID : Z) (req : ExplainRequest) : explained :=
  match findTarget (ev_access svc) targetID with
  | Err _ => (Err ExTargetNotFound, [])
  | Ok target =>
    if isPGEngine (tg_Engine target) then explainPG actor target req
    else match Resolve (ev_access svc) targetID with
    | Err AccessTargetNotFound => (Err ExTargetNotFound, [])
    | Err (AccessDenied denied status) => (Err (ExNotAllowed status), recordAudit actor (tg_ResourceID denied) ExplainAuditRejected)
    | Err _ => (Err ExAccess, [])
    | Ok access =>
      let audit := recordAudit actor (tg_ResourceID target) in
      if negb (isExplainEngine (tg_Engine target)) then (Err ExNotSupported, audit ExplainAuditUnsupported)
      else match GuardExplainSelect (ev_parser svc) (xr_ExplainStatement req) with
      | Err _ => (Err ExValidation, audit ExplainAuditRejected)
      | Ok guarded =>
        let wrapped := NewExplainStatement (gq_ExecutableSQL guarded) in
        explain_finish actor target ExplainEngineMySQL (CallRun (ba_dsn access) wrapped (explain_timeout target))
          rf_deadline (Normalize (ev_beyond_uint64 svc)) (ev_run svc (ba_dsn access) wrapped)
      end
    end
  end.
End explain.

(** ** Lemmas *)

Lemma resolve_denied env id target e : findTarget env id = Ok target → Resolve env id = Err e → ∃ status, e = AccessDenied target status.
Proof. intros Hf. unfold Resolve. rewrite Hf. cbn [mbind result_bind]. repeat case_match; intros; simplify_eq; eauto. Qed.

Lemma resolve_pg_known env id target database e : findTarget env id = Ok target →
  ResolvePGExecution env id database = Err e → e ≠ AccessTargetNotFound.
Proof. intros Hf. unfold ResolvePGExecution, resolvePGMetadata. rewrite Hf. cbn [mbind result_bind]. repeat case_match; intros; by simplify_eq. Qed.

(** What the guard lets through is one read-only SELECT, printed by the parser. *)
Lemma guard_explain parser statement g : GuardExplainSelect parser statement = Ok g →
  ∃ s, parses parser (trim_space statement) (StSelect s) ∧ read_only_select s
    ∧ gq_ExecutableSQL g = sp_string parser (trim_space statement) None.
Proof.
  unfold GuardExplainSelect, trimQueryStatement. case_bool_decide; [done|]. cbn [mbind result_bind].
  destruct (parseSingleStatement _ _) as [stmt|] eqn:Ep; [|done]. cbn [mbind result_bind]. apply parse_single in Ep.
  destruct stmt as [s| | | |]; try done. destruct (validateSelect s) as [[]|] eqn:Ev; [|done]. cbn [mbind result_bind].
  intros [= <-]. exists s. split_and!; [done|by apply validate_select|done].
Qed.

Section contract.
Context (svc : explain_service) (actor targetID : Z) (req : ExplainRequest).

(** The audit outcome of an answer: of a run, and of a refusal before it. *)
Definition run_outcome (r : result explain_error ExplainResponse) : bytes :=
  match r with Ok _ => ExplainAuditSuccess | Err ExNotSupported => ExplainAuditUnsupported | Err _ => ExplainAuditError end.
Definition refusal_outcome (e : explain_error) : bytes :=
  match e with ExNotSupported => ExplainAuditUnsupported | _ => ExplainAuditRejected end.

(** What a run can answer. *)
Definition run_answer (engine : bytes) (r : result explain_error ExplainResponse) : Prop :=
  match r with
  | Ok resp => response_Validate resp = true ∧ er_Target resp = targetID ∧ er_ExplainEngine resp = engine
      ∧ 1 ≤ length (er_Nodes resp) ≤ MaxExplainNodes
  | Err e => e = ExTimeout ∨ e = ExNotSupported ∨ e = ExBackendFailure
  end.

(** One run of a governed statement on the resolved target, or none; then one
    audit event of this actor and target, which tells what was answered. *)
Inductive explain_outcome : result explain_error ExplainResponse * list explain_call → Prop :=
  | explain_unknown : (∀ t, findTarget (ev_access svc) targetID ≠ Ok t) → explain_outcome (Err ExTargetNotFound, [])
  | explain_refused target e :
      findTarget (ev_access svc) targetID = Ok target → e ≠ ExTargetNotFound → e ≠ ExTimeout → e ≠ ExBackendFailure →
      explain_outcome (Err e, recordAudit svc actor targetID (refusal_outcome e))
  | explain_mysql target access s sql r :
      findTarget (ev_access svc) targetID = Ok target → isPGEngine (tg_Engine target) = false →
      isExplainEngine (tg_Engine target) = true → Resolve (ev_access svc) targetID = Ok access →
      parses (ev_parser svc) (trim_space (xr_ExplainStatement req)) (StSelect s) → read_only_select s →
      sql = sp_string (ev_parser svc) (trim_space (xr_ExplainStatement req)) None →
      run_answer ExplainEngineMySQL r →
      explain_outcome (r, CallRun (ba_dsn access) (gs "EXPLAIN FORMAT=JSON " ++ sql) (explain_timeout target)
                            :: recordAudit svc actor targetID (run_outcome r))
  | explain_pg target access schema r :
      findTarget (ev_access svc) targetID = Ok target → isPGEngine (tg_Engine target) = true →
      ResolvePGExecution (ev_access svc) targetID (xr_ExplainDatabase req) = Ok access →
      ev_pg_guard svc (xr_ExplainStatement req) = true →
      (schema = xr_ExplainSchema req ∧ schema ≠ [] ∨ xr_ExplainSchema req = [] ∧ schema = cm_DefaultSchema (ba_Credential access)) →
      run_answer ExplainEnginePostgreSQL r →
      explain_outcome (r, CallRunPG (ba_dsn access) schema (xr_ExplainStatement req) (explain_timeout target)
                            :: recordAudit svc actor targetID (run_outcome r)).

(** A well-formed plan makes a valid response. *)
Lemma plan_valid labelled r engine : engine_Validate engine = true → plan_wf labelled r →
  response_Validate (MkExplainResponse targetID engine ExplainFormatVersion (nr_Nodes r) (nr_Risks r) (nr_Truncated r)) = true.
Proof.
  intros He [_ Hn _ Hr]. unfold response_Validate. cbn [er_ExplainEngine er_FormatVersion er_Nodes er_Risks]. rewrite He, Hr, Z.eqb_refl, andb_true_r.
  cbn [andb]. apply Is_true_eq_true, forallb_True, Forall_lookup. intros i n Hi. apply Is_true_eq_left. by destruct (Hn _ _ Hi).
Qed.

(** The end of a run, whatever the engine. *)
Lemma finish_answer labelled target engine call fault normalize raw :
  tg_ResourceID target = targetID → engine_Validate engine = true → (∀ raw r, normalize raw = Some r → plan_wf labelled r) →
  let '(r, calls) := explain_finish svc actor target engine call fault normalize raw in
  run_answer engine r ∧ calls = call :: recordAudit svc actor targetID (run_outcome r).
Proof.
  intros Ht He Hn. unfold explain_finish. rewrite Ht. destruct raw as [raw|f].
  2: { destruct (fault f), (rf_unsupported f); (split; [cbn; auto|done]). }
  destruct (normalize raw) as [r|] eqn:Er; [|split; [cbn; auto|done]]. apply Hn in Er. split; [|done].
  cbn. split_and!; try done; [by eapply plan_valid|apply Er..].
Qed.

Lemma explain_pg_spec target : findTarget (ev_access svc) targetID = Ok target → isPGEngine (tg_Engine target) = true →
  explain_outcome (explainPG svc actor target req).
Proof.
  intros Hf Hpg. pose proof (findTarget_id _ _ _ Hf) as Ht. unfold explainPG. rewrite Ht.
  destruct (ev_pg svc) as [run|]; [|by eapply (explain_refused target ExNotSupported)].
  destruct (ResolvePGExecution _ _ _) as [access|e] eqn:Ea.
  2: { pose proof (resolve_pg_known _ _ _ _ _ Hf Ea).
       destruct e; try done; by first [eapply (explain_refused target (ExRefused _))|eapply (explain_refused target ExSchemaValidation)]. }
  destruct (ev_pg_guard _ _) eqn:Eg; cbn [negb]; [|by eapply (explain_refused target ExValidation)].
  set (schema := if xr_ExplainSchema req =?b [] then cm_DefaultSchema (ba_Credential access) else xr_ExplainSchema req).
  pose proof (finish_answer true target ExplainEnginePostgreSQL (CallRunPG (ba_dsn access) schema (xr_ExplainStatement req) (explain_timeout target))
    (λ f, rf_deadline f || rf_timeout f) (PGNormalize (ev_beyond_uint64 svc)) (run (ba_dsn access) schema (xr_ExplainStatement req))
    Ht eq_refl (pg_wf (ev_beyond_uint64 svc))) as Hfin.
  destruct (explain_finish _ _ _ _ _ _ _ _) as [r calls]. destruct Hfin as [Hr ->].
  eapply explain_pg; try done. unfold schema. case_bool_decide; auto.
Qed.

Lemma explain_spec : explain_outcome (Explain svc actor targetID req).
Proof.
  unfold Explain. destruct (findTarget _ _) as [target|e] eqn:Hf; [|apply explain_unknown; by rewrite Hf].
  pose proof (findTarget_id _ _ _ Hf) as Ht. destruct (isPGEngine _) eqn:Hpg; [by apply explain_pg_spec|].
  destruct (Resolve _ _) as [access|e] eqn:Ea.
  2: { destruct (resolve_denied _ _ _ _ Hf Ea) as [status ->]. rewrite Ht. by eapply (explain_refused target (ExNotAllowed _)). }
  rewrite Ht. destruct (isExplainEngine _) eqn:Ee; cbn [negb]; [|by eapply (explain_refused target ExNotSupported)].
  destruct (GuardExplainSelect _ _) as [g|] eqn:Eg; [|by eapply (explain_refused target ExValidation)].
  apply guard_explain in Eg as (s & Hp & Hro & Hsql). set (wrapped := NewExplainStatement _).
  pose proof (finish_answer false target ExplainEngineMySQL (CallRun (ba_dsn access) wrapped (explain_timeout target)) rf_deadline
    (Normalize (ev_beyond_uint64 svc)) (ev_run svc (ba_dsn access) wrapped) Ht eq_refl (mysql_wf (ev_beyond_uint64 svc))) as Hfin.
  destruct (explain_finish _ _ _ _ _ _ _ _) as [r calls]. destruct Hfin as [Hr ->]. unfold wrapped, NewExplainStatement. rewrite Hsql. by eapply explain_mysql.
Qed.
End contract.


(** The target answers everything but the plan, for which it takes too long. *)
Definition too_slow (drv : explain_driver) : Prop :=
  xd_open drv = Ok tt ∧ xd_acquire drv = Ok tt ∧ xd_begin drv = Ok tt ∧ (∀ sql args, xd_exec drv sql args = Ok tt)
  ∧ is_Some (xd_budget drv) ∧ ∃ f, rf_deadline f = true ∧ ∀ sql, xd_query drv sql = Err f.

Lemma mysql_too_slow unmarshal drv wrapped : too_slow drv → MySQLExplain unmarshal drv wrapped = Err (RunFailure false true false).
Proof.
  intros (Ho & _ & Hb & _ & _ & f & Hf & Hq). unfold MySQLExplain. rewrite Ho, Hb, Hq. unfold classifyExplainDriverError. by rewrite Hf.
Qed.
Lemma pg_too_slow unmarshal drv schema statement : too_slow drv →
  (Z.of_nat (length (gs "EXPLAIN (FORMAT JSON) " ++ statement)) ≤ pgExplainMaxStatementBytes)%Z →
  PGExplain unmarshal drv schema statement = Err (RunFailure false true false).
Proof.
  intros (Ho & Ha & Hb & He & [ms Hms] & f & Hf & Hq) Hl. unfold PGExplain, armExplainStatementTimeout. rewrite Ho, Ha, Hb, Hms, !He, !Hq.
  destruct (Z.ltb_spec pgExplainMaxStatementBytes (Z.of_nat (length (gs "EXPLAIN (FORMAT JSON) " ++ statement)))); [lia|].
  cbn [mbind result_bind classified]. unfold classifyExplainDriverError. by rewrite Hf.
Qed.

Lemma audit_no_run svc actor target o c rest : recordAudit svc actor target o = c :: rest → c = CallAudit actor target o.
Proof. unfold recordAudit. destruct (ev_audit svc); [by intros [= <- _]|done]. Qed.
Lemma finish_call svc actor target engine call fault normalize raw r c rest :
  explain_finish svc actor target engine call fault normalize raw = (r, c :: rest) → c = call.
Proof. unfold explain_finish. repeat case_match; by intros [= _ <-]. Qed.
Ltac no_run := first [intros [= _ ?%audit_no_run]; discriminate | discriminate].

(** A MySQL EXPLAIN that runs into its time limit while the statement is
    running is answered as a failure of the target: the runner reports a passed
    deadline as [ErrQueryTimeout], which the service does not look for on this
    path. On the PostgreSQL path the same deadline is answered as a timeout. *)
Theorem explain_timeout_lost svc unmarshal drv actor targetID req :
  ev_run svc = (λ _, MySQLExplain unmarshal drv) → ev_pg svc = Some (λ _, PGExplain unmarshal drv) → too_slow drv →
  (∀ r dsn wrapped t rest, Explain svc actor targetID req = (r, CallRun dsn wrapped t :: rest) → r = Err ExBackendFailure)
  ∧ (∀ r dsn schema statement t rest, Explain svc actor targetID req = (r, CallRunPG dsn schema statement t :: rest) →
     (Z.of_nat (length (gs "EXPLAIN (FORMAT JSON) " ++ statement)) ≤ pgExplainMaxStatementBytes)%Z → r = Err ExTimeout).
Proof.
  intros Hrun Hpg Hslow. unfold Explain, explainPG. rewrite Hpg, Hrun. split.
  - intros r dsn wrapped t rest. destruct (findTarget _ _) as [target|]; [|no_run]. destruct (isPGEngine _).
    + destruct (ResolvePGExecution _ _ _) as [access|[]]; [|no_run..]. destruct (negb _); [no_run|].
      by intros ?%finish_call.
    + destruct (Resolve _ _) as [access|[]]; [|no_run..]. destruct (negb _); [no_run|].
      destruct (GuardExplainSelect _ _); [|no_run]. unfold explain_finish. rewrite mysql_too_slow by done. cbn. by intros [= <- _].
  - intros r dsn schema statement t rest. destruct (findTarget _ _) as [target|]; [|no_run]. destruct (isPGEngine _).
    + destruct (ResolvePGExecution _ _ _) as [access|[]]; [|no_run..]. destruct (negb _); [no_run|].
      intros He Hl. pose proof (finish_call _ _ _ _ _ _ _ _ _ _ _ He) as Hc. injection Hc as _ _ Hst _. subst statement.
      revert He. rewrite pg_too_slow by done. unfold explain_finish. cbn. by intros [= <- _].
    + destruct (Resolve _ _) as [access|[]]; [|no_run..]. destruct (negb _); [no_run|].
      destruct (GuardExplainSelect _ _); [|no_run]. by intros ?%finish_call.
Qed.

(** ** Runs *)

Module ExplainEx.
Definition target : QueryTarget := Target 3 (gs "staging") (gs "MySQL") (gs "db1") 4000.
Definition credential : QueryCredentialMetadata := Credential 3 [] [] (gs "mysql") (gs "DB_MAIN") true QueryEnvPolicyAllEnvironments.
Definition env : access_env :=
  AccessEnv (λ _, Some [target]) (λ _ _, ReadOk credential) (λ _, Some (gs "user@tcp(db1:4000)/")) sample_parse (λ _ _ _, false).
Definition slow : explain_driver :=
  ExplainDriver (Ok tt) (Ok tt) (Ok tt) (λ _ _, Ok tt) (λ _, Err (RunFailure true false false)) (Some 5000%Z).
Definition request : ExplainRequest := MkExplainRequest (gs "SELECT f(x)") [] [].
(** A service on one MySQL target, with a given runner. *)
Definition service (run : bytes → bytes → result run_failure json) : explain_service :=
  ExplainService env (sample_parser (gs "f")) run (λ _, true) (Some (λ _, PGExplain (λ _, None) slow)) true (λ _, 0%Z).
End ExplainEx.

Example explain_runs :
  let '(r, calls) := Explain (ExplainEx.service (λ _ _, Ok PlanEx.mysql_document)) 7 3 ExplainEx.request in
  match r with Ok resp => length (er_Nodes resp) = 3 | Err _ => False end ∧ length calls = 2.
Proof. by vm_compute. Qed.

Example explain_timeout_lost_witness :
  (Explain (ExplainEx.service (λ _, MySQLExplain (λ _, None) ExplainEx.slow)) 7 3 ExplainEx.request).1 = Err ExBackendFailure.
Proof.
  set (svc := ExplainEx.service (λ _, MySQLExplain (λ _, None) ExplainEx.slow)).
  assert (too_slow ExplainEx.slow) as Hslow.
  { split_and!; try done. exists (RunFailure true false false). done. }
  destruct (Explain svc 7 3 ExplainEx.request) as [r calls] eqn:E.
  destruct (explain_timeout_lost svc (λ _, None) ExplainEx.slow 7 3 ExplainEx.request eq_refl eq_refl Hslow) as [H _].
  assert (∃ dsn w t rest, calls = CallRun dsn w t :: rest) as (dsn & w & t & rest & ->).
  { vm_compute in E. injection E as _ <-. by eexists _, _, _, _. }
  exact (H r dsn w t rest E).
Defined.
