(* ===== verification/Inventory.v ===== *)
(** * Inventory data

    [model/taxonomy.go], [model/resource.go], [model/relation.go],
    [model/health_observation.go] and [service/relation_rules.go]: the
    dictionaries of the inventory, its records, the effective health of a
    resource, and the rules that say which resources may be related. *)
From S2P Require Import Prelude GoText.

(** ** Dictionaries *)

Record DictionaryItem : Type := Item { di_Key : bytes; di_Label : bytes; di_Description : bytes }.

Definition ResourceTypeHost : bytes := gs "host".
Definition ResourceTypeDatabaseInstance : bytes := gs "database_instance".
Definition ResourceTypeDatabaseCluster : bytes := gs "database_cluster".
Definition ResourceTypeService : bytes := gs "service".
Definition ResourceTypeDomainName : bytes := gs "domain_name".
Definition ResourceTypeVirtualIP : bytes := gs "virtual_ip".
Definition ResourceTypeDatabaseProxy : bytes := gs "database_proxy".
Definition ResourceTypeControlPlaneComponent : bytes := gs "control_plane_component".
Definition LifecycleStatusProvisioning : bytes := gs "provisioning".
Definition LifecycleStatusRunning : bytes := gs "running".
Definition LifecycleStatusStopped : bytes := gs "stopped".
Definition LifecycleStatusDegraded : bytes := gs "degraded".
Definition LifecycleStatusDecommissioning : bytes := gs "decommissioning".
Definition HealthStatusHealthy : bytes := gs "healthy".
Definition HealthStatusWarning : bytes := gs "warning".
Definition HealthStatusCritical : bytes := gs "critical".
Definition HealthStatusUnknown : bytes := gs "unknown".
Definition RelationTypeDependsOn : bytes := gs "depends_on".
Definition RelationTypeMemberOf : bytes := gs "member_of".
Definition RelationTypeRunsOn : bytes := gs "runs_on".
Definition RelationTypePointsTo : bytes := gs "points_to".
Definition RelationTypeFronts : bytes := gs "fronts".
Definition RelationTypeManages : bytes := gs "manages".
Definition RelationTypeReplicatesTo : bytes := gs "replicates_to".
Definition lifecycleStatusDictionaryItems : list DictionaryItem :=
  [ Item LifecycleStatusProvisioning (gs "Provisioning")
      (gs "Resource is being created or configured.");
    Item LifecycleStatusRunning (gs "Running")
      (gs "Resource is active and serving expected workload.");
    Item LifecycleStatusStopped (gs "Stopped")
      (gs "Resource is provisioned but currently inactive.");
    Item LifecycleStatusDegraded (gs "Degraded")
      (gs "Resource is operating below expected capacity.");
    Item LifecycleStatusDecommissioning (gs "Decommissioning")
      (gs "Resource is being retired or removed.") ].
Definition healthStatusDictionaryItems : list DictionaryItem :=
  [ Item HealthStatusHealthy (gs "Healthy")
      (gs "Resource is functioning normally with no issues.");
    Item HealthStatusWarning (gs "Warning")
      (gs "Resource has minor issues that may need attention.");
    Item HealthStatusCritical (gs "Critical")
      (gs "Resource has significant issues requiring immediate action.");
    Item HealthStatusUnknown (gs "Unknown")
      (gs "Health status cannot be determined.") ].
Definition resourceTypeDictionaryItems : list DictionaryItem :=
  [ Item ResourceTypeHost (gs "Host")
      (gs "Infrastructure carrier resource for workloads or data services.");
    Item ResourceTypeDatabaseInstance (gs "Database Instance")
      (gs "Running database node or instance with engine-specific identity.");
    Item ResourceTypeDatabaseCluster (gs "Database Cluster")
      (gs "Logical database service boundary that groups related instances.");
    Item ResourceTypeService (gs "Service")
      (gs "Application or platform service that depends on infrastructure or data resources.");
    Item ResourceTypeDomainName (gs "Domain Name")
      (gs "DNS name resource used as a routable or discoverable entry point.");
    Item ResourceTypeVirtualIP (gs "Virtual IP")
      (gs "Virtual or floating IP resource exposed independently from a host.");
    Item ResourceTypeDatabaseProxy (gs "Database Proxy")
      (gs "Database-facing proxy layer such as ProxySQL or similar routing components.");
    Item ResourceTypeControlPlaneComponent (gs "Control Plane Component")
      (gs "Control or HA management component such as orchestrators or schedulers.") ].
Definition relationTypeDictionaryItems : list DictionaryItem :=
  [ Item RelationTypeDependsOn (gs "Depends On")
      (gs "The source resource functionally depends on the target resource.");
    Item RelationTypeMemberOf (gs "Member Of")
      (gs "The source resource belongs to the target logical grouping.");
    Item RelationTypeRunsOn (gs "Runs On")
      (gs "The source resource is carried or hosted by the target resource.");
    Item RelationTypePointsTo (gs "Points To")
      (gs "The source resource resolves or routes traffic to the target resource.");
    Item RelationTypeFronts (gs "Fronts")
      (gs "The source resource fronts the target resource as an entry or proxy layer.");
    Item RelationTypeManages (gs "Manages")
      (gs "The source resource manages or orchestrates the target resource.");
    Item RelationTypeReplicatesTo (gs "Replicates To")
      (gs "The source resource replicates data or state to the target resource.") ].
Definition resourceSubtypeMap : gmap bytes (list DictionaryItem) :=
  list_to_map [
    (ResourceTypeDatabaseInstance, [ Item (gs "mysql") (gs "MySQL") [];
       Item (gs "postgresql") (gs "PostgreSQL") [];
       Item (gs "redis") (gs "Redis") [];
       Item (gs "clickhouse") (gs "ClickHouse") [];
       Item (gs "mongodb") (gs "MongoDB") [];
       Item (gs "tidb") (gs "TiDB") [] ]);
    (ResourceTypeDatabaseCluster, [ Item (gs "mysql") (gs "MySQL") [];
       Item (gs "postgresql") (gs "PostgreSQL") [];
       Item (gs "redis") (gs "Redis") [];
       Item (gs "clickhouse") (gs "ClickHouse") [];
       Item (gs "mongodb") (gs "MongoDB") [];
       Item (gs "tidb") (gs "TiDB") [] ]);
    (ResourceTypeDatabaseProxy, [ Item (gs "proxysql") (gs "ProxySQL") [];
       Item (gs "chproxy") (gs "CHProxy") [];
       Item (gs "haproxy") (gs "HAProxy") [];
       Item (gs "maxscale") (gs "MaxScale") [] ]);
    (ResourceTypeHost, [ Item (gs "vm") (gs "Virtual Machine") [];
       Item (gs "physical") (gs "Physical Server") [];
       Item (gs "container") (gs "Container") [] ]);
    (ResourceTypeService, [ Item (gs "api") (gs "API Service") [];
       Item (gs "web") (gs "Web Application") [];
       Item (gs "job") (gs "Batch Job") [];
       Item (gs "cron") (gs "Cron Job") [];
       Item (gs "worker") (gs "Worker") [] ]);
    (ResourceTypeControlPlaneComponent, [ Item (gs "orchestrator") (gs "Orchestrator") [];
       Item (gs "ha_monitor") (gs "HA Monitor") [];
       Item (gs "backup_manager") (gs "Backup Manager") [] ]);
    (ResourceTypeDomainName, [ Item (gs "dns") (gs "DNS") [] ]);
    (ResourceTypeVirtualIP, [ Item (gs "floating") (gs "Floating") [] ]) ].

(** The slices handed out are copies: values here. *)
Definition ResourceTypeDictionary : list DictionaryItem := resourceTypeDictionaryItems.
Definition LifecycleStatusDictionary : list DictionaryItem := lifecycleStatusDictionaryItems.
Definition HealthStatusDictionary : list DictionaryItem := healthStatusDictionaryItems.
Definition RelationTypeDictionary : list DictionaryItem := relationTypeDictionaryItems.
Definition ResourceSubtypeDictionary (resourceType : bytes) : list DictionaryItem :=
  default [] (resourceSubtypeMap !! resourceType).

Definition in_dictionary (items : list DictionaryItem) (key : bytes) : bool := existsb (λ i, di_Key i =?b key) items.
Definition LifecycleStatus_Validate (l : bytes) : bool := in_dictionary lifecycleStatusDictionaryItems l.
Definition HealthStatus_Validate (h : bytes) : bool := in_dictionary healthStatusDictionaryItems h.
Definition ResourceType_Validate (r : bytes) : bool := in_dictionary resourceTypeDictionaryItems r.
Definition RelationType_Validate (r : bytes) : bool := in_dictionary relationTypeDictionaryItems r.

Inductive subtype_error : Type := SubtypeRequired | SubtypeInvalid.
Definition ValidateResourceSubtype (resourceType subtype : bytes) : result subtype_error () :=
  match resourceSubtypeMap !! resourceType with
  | None => Ok ()
  | Some items =>
      _ ← guard_err (subtype =?b []) SubtypeRequired;
      guard_err (negb (in_dictionary items subtype)) SubtypeInvalid
  end.

(** ** Resources and relations *)

Record ResourceExternalIdentifier : Type := ExternalIdentifier { xi_System : bytes; xi_Value : bytes }.
#[export] Instance external_identifier_eq_dec : EqDecision ResourceExternalIdentifier.
Proof. solve_decision. Defined.

Record ProfileSummary : Type := Profile {
  ps_Hostname : bytes;
  ps_IP : bytes;
  ps_Port : Z;
  ps_NodeCount : Z;
  ps_Engine : bytes;
  ps_Version : bytes;
  ps_Role : bytes;
}.

(** The fields of [model.Resource] that the modelled operations read or write;
    instants are nanoseconds since Go's zero time. *)
Record Resource : Type := MkResource {
  rs_ID : Z;
  rs_ResourceType : bytes;
  rs_ResourceSubtype : bytes;
  rs_Name : bytes;
  rs_DisplayName : bytes;
  rs_EnvironmentID : Z;
  rs_OwnerID : Z;
  rs_LifecycleStatus : bytes;
  rs_HealthStatus : bytes;
  rs_ManualHealthOverride : option bytes;
  rs_Origin : bytes;
  rs_Aliases : list bytes;
  rs_ExternalIdentifiers : list ResourceExternalIdentifier;
  rs_Labels : gmap bytes bytes;
  rs_ProfileSummary : option ProfileSummary;
  rs_ArchivedAt : option Z;
}.
Definition IsArchived (r : Resource) : bool := bool_decide (is_Some (rs_ArchivedAt r)).

Definition ResourceOriginManual : bytes := gs "manual".
Definition ResourceOriginImported : bytes := gs "imported".
Definition ResourceOriginDiscovered : bytes := gs "discovered".
Definition Origin_Validate (o : bytes) : bool :=
  bool_decide (o ∈ [ResourceOriginManual; ResourceOriginImported; ResourceOriginDiscovered]).

Definition OriginFromSource (source : bytes) : option bytes :=
  if bool_decide (source ∈ [ []; gs "manual" ]) then Some ResourceOriginManual
  else if bool_decide (source ∈ [gs "import"; gs "imported"; gs "terraform"]) then Some ResourceOriginImported
  else if bool_decide (source ∈ [gs "discovery"; gs "discovered"]) then Some ResourceOriginDiscovered
  else None.

Record ResourceRelation : Type := Relation {
  rr_ID : Z;
  rr_FromResourceID : Z;
  rr_ToResourceID : Z;
  rr_RelationType : bytes;
  rr_CreatedAt : Z;
}.
#[export] Instance resource_relation_eq_dec : EqDecision ResourceRelation.
Proof. solve_decision. Defined.

Record RelationCreateInput : Type := RelationInput {
  ri_FromResourceID : Z;
  ri_ToResourceID : Z;
  ri_RelationType : bytes;
}.

(** ** Health *)

Inductive HealthFreshness : Type := FreshnessFresh | FreshnessStale | FreshnessNever.
#[export] Instance health_freshness_eq_dec : EqDecision HealthFreshness.
Proof. solve_decision. Defined.

(** 24 h *)
Definition DefaultHealthFreshnessThreshold : Z := 86400000000000%Z.

Record HealthObservation : Type := Observation { ho_Status : bytes; ho_ObservedAt : Z; ho_Observer : bytes }.

Definition FreshnessAt (o : HealthObservation) (now threshold : Z) : HealthFreshness :=
  if (ho_ObservedAt o =? 0)%Z then FreshnessNever
  else if (ho_ObservedAt o <? now - threshold)%Z then FreshnessStale
  else FreshnessFresh.

(** [HealthFreshnessThresholds.For]; a missing entry reads 0. *)
Definition threshold_For (t : gmap bytes Z) (resourceType : bytes) : Z :=
  let threshold := default 0%Z (t !! resourceType) in
  if (0 <? threshold)%Z then threshold else DefaultHealthFreshnessThreshold.

Definition healthStatusRank (status : bytes) : Z :=
  if status =?b HealthStatusCritical then 3
  else if status =?b HealthStatusWarning then 2
  else if status =?b HealthStatusUnknown then 1
  else 0.

(** [observation.ObservedAt.After(selected.ObservedAt)] *)
Definition observed_after (o s : HealthObservation) : bool := (ho_ObservedAt s <? ho_ObservedAt o)%Z.

Definition select_fresh (now threshold : Z) (selected : option HealthObservation) (o : HealthObservation) :
    option HealthObservation :=
  if negb (bool_decide (FreshnessAt o now threshold = FreshnessFresh)) then selected
  else match selected with
       | None => Some o
       | Some s =>
           if ((healthStatusRank (ho_Status s) <? healthStatusRank (ho_Status o))%Z
               || ((healthStatusRank (ho_Status o) =? healthStatusRank (ho_Status s))%Z && observed_after o s))
           then Some o else selected
       end.

Definition select_latest (selected : option HealthObservation) (o : HealthObservation) : option HealthObservation :=
  match selected with
  | None => Some o
  | Some s => if observed_after o s then Some o else selected
  end.

Definition apply_override (status : bytes) (manualOverride : option bytes) : bytes :=
  match manualOverride with
  | Some m => if (healthStatusRank status <? healthStatusRank m)%Z then m else status
  | None => status
  end.

Definition ResolveHealth (now threshold : Z) (manualOverride : option bytes) (observations : list HealthObservation) :
    bytes * HealthFreshness * option (Z * bytes) :=
  let fresh := foldl (select_fresh now threshold) None observations in
  let '(status, freshness, selected) :=
    match fresh with
    | Some s => (ho_Status s, FreshnessFresh, Some s)
    | None =>
        if (0 <? length observations)%nat then (HealthStatusUnknown, FreshnessStale, foldl select_latest None observations)
        else (HealthStatusUnknown, FreshnessNever, None)
    end in
  (apply_override status manualOverride, freshness, (λ s, (ho_ObservedAt s, ho_Observer s)) <$> selected).

(** ** Relationship rules *)

Inductive inventory_error : Type :=
  | ErrValidationFailed (why : bytes)
  | ErrResourceNotFound
  | ErrResourceArchived
  | ErrRelationNotFound
  | ErrRelationConflict
  | ErrStore
  | ErrResourceConflict
  | ErrResourceNameConflict
  | ErrResourceAliasConflict
  | ErrResourceExternalIdentifierConflict
  | ErrEnvironmentNotFound
  | ErrOwnerNotFound
  | ErrProfileNotSupported
  | ErrFields (fields : gmap bytes bytes)      (** [*ValidationError] *)
  | ErrNoAuditActor
  | ErrIngestionConflict
  | ErrIngestionFingerprintMismatch
  | CollectorScanConflictError (principal : Z) (scanID : bytes)
  | CollectorStateLimitError (principal : Z)
  | ErrCollectorScanConflict
  | ErrCollectorStateLimit
  | ErrCollectorIngestionMetadataInvalid
  | ErrCollectorScan (why : bytes).           (** an input of the scan transitions *)
#[export] Instance inventory_error_eq_dec : EqDecision inventory_error.
Proof. solve_decision. Defined.

Record relationshipRule : Type := Rule { ru_sources : list bytes; ru_targets : list bytes; ru_sameEnvironment : bool }.

Definition allRelationshipResourceTypes : list bytes :=
  [ ResourceTypeHost; ResourceTypeDatabaseInstance; ResourceTypeDatabaseCluster; ResourceTypeService;
    ResourceTypeDomainName; ResourceTypeVirtualIP; ResourceTypeDatabaseProxy; ResourceTypeControlPlaneComponent ].

Definition relationshipRules : gmap bytes relationshipRule := list_to_map [
  (RelationTypeMemberOf, Rule [ResourceTypeDatabaseInstance] [ResourceTypeDatabaseCluster] true);
  (RelationTypeRunsOn, Rule
     [ResourceTypeService; ResourceTypeDatabaseInstance; ResourceTypeDatabaseProxy; ResourceTypeControlPlaneComponent]
     [ResourceTypeHost] true);
  (RelationTypePointsTo, Rule [ResourceTypeDomainName]
     [ResourceTypeVirtualIP; ResourceTypeService; ResourceTypeDatabaseProxy; ResourceTypeDatabaseCluster;
      ResourceTypeDatabaseInstance] false);
  (RelationTypeFronts, Rule [ResourceTypeVirtualIP; ResourceTypeDatabaseProxy]
     [ResourceTypeDatabaseProxy; ResourceTypeDatabaseCluster; ResourceTypeDatabaseInstance] true);
  (RelationTypeManages, Rule [ResourceTypeControlPlaneComponent]
     [ResourceTypeDatabaseCluster; ResourceTypeDatabaseInstance] false);
  (RelationTypeReplicatesTo, Rule [ResourceTypeDatabaseInstance] [ResourceTypeDatabaseInstance] true);
  (RelationTypeDependsOn, Rule allRelationshipResourceTypes allRelationshipResourceTypes false) ].

Definition relationshipRuleOrder : list bytes :=
  [ RelationTypeMemberOf; RelationTypeRunsOn; RelationTypePointsTo; RelationTypeFronts; RelationTypeManages;
    RelationTypeReplicatesTo; RelationTypeDependsOn ].

Definition containsRelationshipResourceType (items : list bytes) (want : bytes) : bool :=
  existsb (λ item, item =?b want) items.

Definition why_types : bytes := gs "relationType is not allowed for these resource types".
Definition why_self : bytes := gs "self-relations are not supported".
Definition why_environment : bytes := gs "relationType requires resources in the same environment".

Definition validateRelationshipRule (from to : Resource) (relationType : bytes) : result inventory_error () :=
  match relationshipRules !! relationType with
  | None => Err (ErrValidationFailed why_types)
  | Some rule =>
      _ ← guard_err (negb (containsRelationshipResourceType (ru_sources rule) (rs_ResourceType from))
                     || negb (containsRelationshipResourceType (ru_targets rule) (rs_ResourceType to)))
            (ErrValidationFailed why_types);
      _ ← guard_err (rs_ID from =? rs_ID to)%Z (ErrValidationFailed why_self);
      guard_err (ru_sameEnvironment rule && negb (rs_EnvironmentID from =? rs_EnvironmentID to)%Z)
        (ErrValidationFailed why_environment)
  end.

Record RelationshipRule : Type := DiscoveredRule {
  dr_RelationType : bytes;
  dr_TargetResourceTypes : list bytes;
  dr_SameEnvironment : bool;
}.
Record RelationshipRulesResponse : Type := RulesResponse {
  rp_SourceResourceID : Z;
  rp_SourceEnvironmentID : Z;
  rp_Rules : list RelationshipRule;
}.

(** A missing entry of the table reads as the zero rule, which has no source. *)
Definition rule_of (relationType : bytes) : relationshipRule := default (Rule [] [] false) (relationshipRules !! relationType).

(** [RelationService.Rules], over the repository's [GetResource]. *)
Definition Rules (GetResource : Z → result inventory_error Resource) (resourceID : Z) :
    result inventory_error RelationshipRulesResponse :=
  _ ← guard_err (resourceID =? 0)%Z (ErrValidationFailed (gs "resource id is required"));
  resource ← GetResource resourceID;
  Ok (RulesResponse resourceID (rs_EnvironmentID resource)
        (mjoin ((λ relationType,
           let rule := rule_of relationType in
           if containsRelationshipResourceType (ru_sources rule) (rs_ResourceType resource)
           then [DiscoveredRule relationType (ru_targets rule) (ru_sameEnvironment rule)] else [])
         <$> relationshipRuleOrder))).

(** ** Facts about the dictionaries and the rules *)

Lemma in_dictionary_spec items key : in_dictionary items key = true ↔ key ∈ di_Key <$> items.
Proof.
  unfold in_dictionary. rewrite existsb_exists, list_elem_of_fmap. split.
  - intros (i & Hi%list_elem_of_In & E). bool_inv. by exists i.
  - intros (i & -> & Hi%list_elem_of_In). exists i. by rewrite bool_decide_eq_true.
Qed.

Lemma contains_type_spec items want : containsRelationshipResourceType items want = true ↔ want ∈ items.
Proof.
  unfold containsRelationshipResourceType. rewrite existsb_exists. split.
  - intros (i & Hi%list_elem_of_In & E). bool_inv. by subst.
  - intros Hi%list_elem_of_In. exists want. by rewrite bool_decide_eq_true.
Qed.

(** The relation types of the table are those of the order, and the dictionary's. *)
Lemma rule_types relationType :
  is_Some (relationshipRules !! relationType) ↔ relationType ∈ relationshipRuleOrder.
Proof.
  rewrite <- elem_of_dom. unfold relationshipRules. rewrite dom_list_to_map_L, elem_of_list_to_set. reflexivity.
Qed.

(** When a relation is permitted, as the table reads. *)
Definition permitted (from to : Resource) (relationType : bytes) : Prop :=
  ∃ rule, relationshipRules !! relationType = Some rule
    ∧ rs_ResourceType from ∈ ru_sources rule ∧ rs_ResourceType to ∈ ru_targets rule
    ∧ rs_ID from ≠ rs_ID to
    ∧ (ru_sameEnvironment rule = true → rs_EnvironmentID from = rs_EnvironmentID to).

Lemma validate_rule_spec from to relationType :
  validateRelationshipRule from to relationType = Ok () ↔ permitted from to relationType.
Proof.
  unfold validateRelationshipRule, permitted. destruct (relationshipRules !! relationType) as [rule|].
  2: { split; [done|]. by intros (? & ? & _). }
  split.
  - intros H. res_inv. bool_inv. exists rule. rewrite <- !contains_type_spec.
    repeat (split; [done|]). intros Hs. rewrite Hs in *.
    destruct (Z.eqb_spec (rs_EnvironmentID from) (rs_EnvironmentID to)); [done|discriminate].
  - intros (? & [= <-] & Hf & Ht & Hid & He). apply contains_type_spec in Hf, Ht. rewrite Hf, Ht. cbn.
    apply Z.eqb_neq in Hid. rewrite Hid. cbn. destruct (ru_sameEnvironment rule); cbn; [|done].
    rewrite (He eq_refl), Z.eqb_refl. done.
Qed.

(** discovery and validation agree: a relation to another resource is
    accepted exactly when the rules listed for its source offer its type with
    that target type, and the environments agree where the listed rule says so.
    A console that follows the listing is never refused by the rules. *)
Theorem rules_discovery_exact GetResource from to relationType :
  rs_ID from ≠ 0%Z → GetResource (rs_ID from) = Ok from →
  ∃ response, Rules GetResource (rs_ID from) = Ok response
    ∧ rp_SourceEnvironmentID response = rs_EnvironmentID from
    ∧ (validateRelationshipRule from to relationType = Ok () ↔
       rs_ID from ≠ rs_ID to
       ∧ ∃ rule, rule ∈ rp_Rules response ∧ dr_RelationType rule = relationType
           ∧ rs_ResourceType to ∈ dr_TargetResourceTypes rule
           ∧ (dr_SameEnvironment rule = true → rs_EnvironmentID from = rs_EnvironmentID to)).
Proof.
  intros Hid Hget. unfold Rules. apply Z.eqb_neq in Hid. rewrite Hid, Hget. cbn [mbind result_bind guard_err].
  eexists. split; [done|]. split; [done|]. cbn [rp_Rules]. rewrite validate_rule_spec. split.
  - intros (rule & Hr & Hf & Ht & Hne & He). split; [done|].
    exists (DiscoveredRule relationType (ru_targets rule) (ru_sameEnvironment rule)). split; [|done].
    apply list_elem_of_join. exists [DiscoveredRule relationType (ru_targets rule) (ru_sameEnvironment rule)].
    split; [by left|]. apply list_elem_of_fmap. exists relationType. split.
    + unfold rule_of. rewrite Hr. cbn. by apply contains_type_spec in Hf as ->.
    + apply rule_types. by eexists.
  - intros (Hne & rule & Hin & <- & Ht & He).
    apply list_elem_of_join in Hin as (l & Hl & Hin). apply list_elem_of_fmap in Hin as (t & -> & Ho).
    apply rule_types in Ho as [r Hr]. unfold rule_of in Hl. rewrite Hr in Hl. cbn in Hl.
    destruct (containsRelationshipResourceType _ _) eqn:Hf; [|by apply elem_of_nil in Hl].
    apply list_elem_of_singleton in Hl as ->. exists r. by rewrite <- contains_type_spec.
Qed.

Lemma rules_discovery_exact_witness :
  let instance := MkResource 2 ResourceTypeDatabaseInstance (gs "mysql") (gs "db-1") (gs "DB 1") 1 1 LifecycleStatusRunning
                    HealthStatusUnknown None ResourceOriginManual [] [] ∅ None None in
  let cluster := MkResource 3 ResourceTypeDatabaseCluster (gs "mysql") (gs "c-1") (gs "C 1") 1 1 LifecycleStatusRunning
                    HealthStatusUnknown None ResourceOriginManual [] [] ∅ None None in
  rs_ID instance ≠ 0%Z ∧
  ∃ response, Rules (λ _, Ok instance) 2 = Ok response
    ∧ (validateRelationshipRule instance cluster RelationTypeMemberOf = Ok () ↔
       ∃ rule, rule ∈ rp_Rules response ∧ dr_RelationType rule = RelationTypeMemberOf
         ∧ ResourceTypeDatabaseCluster ∈ dr_TargetResourceTypes rule).
Proof.
  intros instance cluster. split; [done|].
  destruct (rules_discovery_exact (λ _, Ok instance) instance cluster RelationTypeMemberOf) as (response & H & _ & Hr);
    [done|reflexivity|].
  exists response. split; [exact H|]. rewrite Hr. split.
  - intros (_ & rule & ? & ? & ? & _). by exists rule.
  - intros (rule & ? & ? & ?). split; [done|]. by exists rule.
Defined.

(** ** Facts about health *)

(** The worst rank of a list of observations, and none of them. *)
Definition fresh_at (now threshold : Z) (o : HealthObservation) : Prop := FreshnessAt o now threshold = FreshnessFresh.

(** [s] is among [l], none of [l] is worse, and none as bad is later. *)
Definition worst_latest (s : HealthObservation) (l : list HealthObservation) : Prop :=
  s ∈ l ∧ ∀ o, o ∈ l →
    (healthStatusRank (ho_Status o) ≤ healthStatusRank (ho_Status s))%Z
    ∧ (healthStatusRank (ho_Status o) = healthStatusRank (ho_Status s) → (ho_ObservedAt o ≤ ho_ObservedAt s)%Z).
Definition latest (s : HealthObservation) (l : list HealthObservation) : Prop :=
  s ∈ l ∧ ∀ o, o ∈ l → (ho_ObservedAt o ≤ ho_ObservedAt s)%Z.

#[export] Instance fresh_at_dec now threshold o : Decision (fresh_at now threshold o) := decide (_ = _).

(** What a selection loop keeps after the prefix [l]. *)
Definition selected (P : HealthObservation → list HealthObservation → Prop) (s : option HealthObservation)
    (l : list HealthObservation) : Prop :=
  match s with Some s => P s l | None => l = [] end.

Lemma select_fresh_spec now threshold l :
  selected worst_latest (foldl (select_fresh now threshold) None l) (filter (fresh_at now threshold) l).
Proof.
  induction l as [|o l IH] using rev_ind; [done|]. rewrite foldl_app, filter_app. cbn [foldl].
  set (s := foldl _ None l) in *. unfold select_fresh at 1. rewrite filter_cons, filter_nil.
  fold (fresh_at now threshold o). destruct (decide (fresh_at now threshold o)) as [Hf|Hf].
  2: { rewrite bool_decide_eq_false_2 by done. cbn. by rewrite app_nil_r. }
  rewrite bool_decide_eq_true_2 by done. cbn [negb]. destruct s as [s|]; cbn [selected] in *.
  2: { rewrite IH. split; [by left|]. intros o' ->%list_elem_of_singleton. lia. }
  destruct IH as [Hs Hmax]. unfold observed_after. case_if as E.
  - apply orb_prop in E. rewrite andb_true_iff in E. split; [apply elem_of_app; right; by left|].
    intros o' [Ho| ->%list_elem_of_singleton]%elem_of_app; [|lia]. destruct (Hmax o' Ho) as [H1 H2].
    destruct E as [E|[E1 E2]]; bool_inv; lia.
  - bool_inv. split; [apply elem_of_app; by left|].
    intros o' [Ho| ->%list_elem_of_singleton]%elem_of_app; [by apply Hmax|]. split; [done|].
    intros He. rewrite He, Z.eqb_refl in *. cbn in *. by bool_inv.
Qed.

Lemma select_latest_spec l : selected latest (foldl select_latest None l) l.
Proof.
  induction l as [|o l IH] using rev_ind; [done|]. rewrite foldl_app. cbn [foldl].
  destruct (foldl select_latest None l) as [s|]; cbn [selected select_latest] in *.
  - destruct IH as [Hs Hmax]. unfold observed_after. case_if as E; bool_inv.
    + split; [apply elem_of_app; right; by left|].
      intros o' [Ho| ->%list_elem_of_singleton]%elem_of_app; [|lia]. pose proof (Hmax o' Ho). lia.
    + split; [apply elem_of_app; by left|].
      intros o' [Ho| ->%list_elem_of_singleton]%elem_of_app; [by apply Hmax|lia].
  - subst. split; [by left|]. intros o' ->%list_elem_of_singleton. lia.
Qed.

Lemma health_rank_range h : (0 ≤ healthStatusRank h ≤ 3)%Z.
Proof. unfold healthStatusRank. repeat case_bool_decide; lia. Qed.

(** The rank of the worst of a list of observations. *)
Definition worst_rank (l : list HealthObservation) : Z := foldr Z.max 0%Z (healthStatusRank ∘ ho_Status <$> l).

Lemma worst_latest_rank s l : worst_latest s l → worst_rank l = healthStatusRank (ho_Status s).
Proof.
  intros [Hs Hmax]. unfold worst_rank. apply Z.le_antisymm.
  - assert (∀ o, o ∈ l → healthStatusRank (ho_Status o) ≤ healthStatusRank (ho_Status s))%Z as H by firstorder.
    clear Hs Hmax. induction l as [|o l IH]; cbn; [apply health_rank_range|].
    apply Z.max_lub; [apply H; by left|]. apply IH. intros. apply H. by right.
  - clear Hmax. induction l as [|o l IH]; [by apply elem_of_nil in Hs|]. cbn.
    apply elem_of_cons in Hs as [->|Hs]; [apply Z.le_max_l|]. etrans; [by apply IH|]. apply Z.le_max_r.
Qed.

(** The operator's override, applied last. *)
Lemma override_rank status override :
  let chosen := apply_override status override in
  healthStatusRank chosen = Z.max (healthStatusRank status) (from_option healthStatusRank 0%Z override)
  ∧ (chosen = status ∨ override = Some chosen).
Proof.
  pose proof (health_rank_range status). unfold apply_override. destruct override as [m|]; cbn; [|split; [lia|by left]].
  case_if as E; bool_inv; (split; [lia|]); [by right|by left].
Qed.

(** the effective health is the conservative one: it is as bad as the worst
    fresh observation, or unknown when there is none, or as bad as the operator's
    override if that is worse; the override never improves it, nor hides stale
    or missing evidence. The evidence named with it is the latest of the worst
    fresh observations, or the latest stale one. *)
Theorem resolve_health_conservative now threshold override observations :
  let '(status, freshness, evidence) := ResolveHealth now threshold override observations in
  let fresh := filter (fresh_at now threshold) observations in
  healthStatusRank status = Z.max (if bool_decide (fresh = []) then 1 else worst_rank fresh)
                                  (from_option healthStatusRank 0%Z override)
  ∧ (status = HealthStatusUnknown ∨ override = Some status ∨ status ∈ ho_Status <$> fresh)
  ∧ match freshness with
    | FreshnessFresh => ∃ s, worst_latest s fresh ∧ evidence = Some (ho_ObservedAt s, ho_Observer s)
    | FreshnessStale => fresh = [] ∧ ∃ s, latest s observations ∧ evidence = Some (ho_ObservedAt s, ho_Observer s)
    | FreshnessNever => observations = [] ∧ evidence = None
    end.
Proof.
  unfold ResolveHealth. pose proof (select_fresh_spec now threshold observations) as Hf.
  pose proof (select_latest_spec observations) as Hl.
  destruct (foldl (select_fresh now threshold) None observations) as [s|]; cbn [selected] in Hf.
  - destruct (override_rank (ho_Status s) override) as [Hr Hc]. cbv zeta in *. split; [|split; [|by exists s]].
    + rewrite Hr, (worst_latest_rank s) by done. rewrite bool_decide_eq_false_2; [done|].
      intros He. rewrite He in Hf. by destruct Hf as [?%elem_of_nil _].
    + destruct Hc as [->|]; [|by right; left]. right. right. apply list_elem_of_fmap_2, Hf.
  - destruct (override_rank HealthStatusUnknown override) as [Hr Hc].
    rewrite Hf, bool_decide_eq_true_2 by done.
    destruct observations as [|o l]; cbn [length Nat.ltb Nat.leb]; (split; [exact Hr|]);
      (split; [destruct Hc as [->|]; [by left|by right; left]|]); [done|].
    split; [done|]. destruct (foldl select_latest None (o :: l)) as [s|]; cbn [selected] in Hl; [by exists s|done].
Qed.
