(* ===== verification/Topology.v ===== *)
(** * Topology read model

    [model/topology.go], [service/topology_service.go] and the topology reads of
    [repository/mysql/relation_repository.go]: the bounded breadth-first traversal
    from a root, the list of starting points without one, and the projection of
    the result. Go walks its maps in any order: [order] gives the order at each
    loop over a map. *)
From S2P Require Import Prelude GoText Inventory.

(** ** The model *)

Definition TopologyDirectionBoth : bytes := gs "both".
Definition TopologyDirectionUpstream : bytes := gs "upstream".
Definition TopologyDirectionDownstream : bytes := gs "downstream".

Definition TopologyRoleEntry : bytes := gs "entry".
Definition TopologyRoleProxyActive : bytes := gs "proxy_active".
Definition TopologyRoleProxyStandby : bytes := gs "proxy_standby".
Definition TopologyRoleCluster : bytes := gs "cluster".
Definition TopologyRolePrimary : bytes := gs "primary".
Definition TopologyRoleReplica : bytes := gs "replica".
Definition TopologyRoleReplicaIntermediate : bytes := gs "replica_intermediate".
Definition TopologyRoleHost : bytes := gs "host".
Definition TopologyRoleControlPlane : bytes := gs "control_plane".
Definition TopologyRoleService : bytes := gs "service".
Definition TopologyRoleGeneric : bytes := gs "generic".

Definition TopologyLayerApplication : bytes := gs "application".
Definition TopologyLayerEntry : bytes := gs "entry".
Definition TopologyLayerCluster : bytes := gs "cluster".
Definition TopologyLayerReplication : bytes := gs "replication".
Definition TopologyLayerControlPlane : bytes := gs "control_plane".
Definition TopologyLayerHost : bytes := gs "host".
Definition TopologyLayerGeneric : bytes := gs "generic".

Definition EdgeSemanticTraffic : bytes := gs "traffic".
Definition EdgeSemanticFailover : bytes := gs "failover".
Definition EdgeSemanticReplication : bytes := gs "replication".
Definition EdgeSemanticMembership : bytes := gs "membership".
Definition EdgeSemanticPlacement : bytes := gs "placement".
Definition EdgeSemanticManagement : bytes := gs "management".
Definition EdgeSemanticDependency : bytes := gs "dependency".
Definition EdgeSemanticMonitoring : bytes := gs "monitoring".

Record TopologyQuery : Type := Query {
  tq_EnvironmentID : Z;
  tq_RootID : Z;
  tq_Depth : Z;
  tq_Direction : bytes;
  tq_RelationType : bytes;
}.

Record TopologyProblem : Type := Problem { tp_Severity : bytes; tp_Message : bytes; tp_Code : bytes }.

Record TopologyNode : Type := Node {
  tn_ID : Z;
  tn_ResourceType : bytes;
  tn_ResourceSubtype : bytes;
  tn_Name : bytes;
  tn_DisplayName : bytes;
  tn_EnvironmentID : Z;
  tn_OwnerID : Z;
  tn_LifecycleStatus : bytes;
  tn_HealthStatus : bytes;
  tn_IsRoot : bool;
  tn_Distance : Z;
  tn_TopologyRole : bytes;
  tn_TopologyLayer : bytes;
  tn_GroupKey : bytes;
  tn_VisualImportance : Z;
  tn_IsDatabaseTopology : bool;
  tn_ReplicationDepth : Z;
  tn_ReplicationParentID : option Z;
  tn_Hostname : bytes;
  tn_IP : bytes;
  tn_Port : Z;
  tn_Problems : list TopologyProblem;
  tn_Labels : gmap bytes bytes;
}.

Record TopologyEdge : Type := Edge {
  te_ID : Z;
  te_FromResourceID : Z;
  te_ToResourceID : Z;
  te_RelationType : bytes;
  te_SemanticType : bytes;
}.

Record TopologyGroup : Type := Group {
  tg_ID : Z;
  tg_Label : bytes;
  tg_ResourceType : bytes;
  tg_NodeIDs : list Z;
}.

Record TopologyProblemSummary : Type := ProblemSummary {
  pb_ResourceID : Z;
  pb_ResourceName : bytes;
  pb_ResourceType : bytes;
  pb_Severity : bytes;
  pb_Problems : list TopologyProblem;
}.

Record TopologyResponse : Type := Response {
  ts_RootResourceID : Z;
  ts_Depth : Z;
  ts_Direction : bytes;
  ts_Nodes : list TopologyNode;
  ts_Edges : list TopologyEdge;
  ts_Groups : list TopologyGroup;
  ts_IsDatabaseTopology : bool;
  ts_Truncated : bool;
  ts_Problems : list TopologyProblemSummary;
}.

Inductive topology_error : Type :=
  | ErrInvalidDepth
  | ErrInvalidDirection
  | ErrRepository (e : inventory_error).

Definition MaxTopologyDepth : Z := 32.
Definition TopologyNodeCap : Z := 200.
Definition TopologyEdgeCap : Z := 400.

(** The length of a Go map. *)
Definition len {A} (m : gmap Z A) : Z := Z.of_nat (size m).
Definition has {A} (k : Z) (m : gmap Z A) : bool := bool_decide (is_Some (m !! k)).

(** ** The repository *)

Record TopologyRepository : Type := Repository {
  GetResource : Z → result inventory_error Resource;
  GetResourcesByIDs : list Z → result inventory_error (gmap Z Resource);
  ListTopologyRelationsByResourceIDs : list Z → bytes → bytes → Z → result inventory_error (list ResourceRelation);
  ListTopologyCandidates : Z → Z → result inventory_error (list Resource);
}.

(** [relations[i] < relations[j]] of [sortTopologyRelations], and [order by] of
    the relation query. *)
Definition relation_less (x y : ResourceRelation) : bool :=
  if negb (rr_RelationType x =?b rr_RelationType y) then bytes_less (rr_RelationType x) (rr_RelationType y)
  else if negb (rr_FromResourceID x =? rr_FromResourceID y)%Z then (rr_FromResourceID x <? rr_FromResourceID y)%Z
  else if negb (rr_ToResourceID x =? rr_ToResourceID y)%Z then (rr_ToResourceID x <? rr_ToResourceID y)%Z
  else (rr_ID x <? rr_ID y)%Z.
Definition sortTopologyRelations (relations : list ResourceRelation) : list ResourceRelation :=
  sort_slice relation_less relations.

Definition contains (s : list Z) (id : Z) : bool := existsb (λ v, v =? id)%Z s.

(** The tables the reads are about. *)
Record inventory : Type := Inventory {
  resources : gmap Z Resource;
  relations : gmap Z ResourceRelation;
}.

(** The [where] clause of the relation query. *)
Definition relation_selected (ids : list Z) (direction relationType : bytes) (r : ResourceRelation) : bool :=
  (if direction =?b TopologyDirectionUpstream then contains ids (rr_ToResourceID r)
   else if direction =?b TopologyDirectionDownstream then contains ids (rr_FromResourceID r)
   else contains ids (rr_FromResourceID r) || contains ids (rr_ToResourceID r))
  && ((relationType =?b []) || (rr_RelationType r =?b relationType)).

Definition mysql_ListTopologyRelations (inv : inventory) (ids : list Z) (direction relationType : bytes) (limit : Z) :
    list ResourceRelation :=
  if bool_decide (ids = []) || (limit <=? 0)%Z then []
  else take (Z.to_nat limit)
         (sortTopologyRelations (filter (λ r, relation_selected ids direction relationType r = true)
                                   ((map_to_list (relations inv)).*2))).

Definition mysql_GetResourcesByIDs (inv : inventory) (ids : list Z) : gmap Z Resource :=
  filter (λ '(id, _), contains ids id = true) (resources inv).

Definition mysql_GetResource (inv : inventory) (id : Z) : result inventory_error Resource :=
  match resources inv !! id with Some r => Ok r | None => Err ErrResourceNotFound end.

Definition isTopologyCandidate (res : Resource) : bool :=
  bool_decide (rs_HealthStatus res ∈ [HealthStatusWarning; HealthStatusCritical])
  || bool_decide (rs_ResourceType res ∈ [ResourceTypeService; ResourceTypeDatabaseCluster; ResourceTypeDatabaseProxy]).

(** [order by] of the candidate query: entry types first, then name and id. *)
Definition candidate_rank (r : Resource) : Z :=
  if bool_decide (rs_ResourceType r ∈ [ResourceTypeService; ResourceTypeDatabaseCluster; ResourceTypeDatabaseProxy])
  then 0 else 1.
Definition candidate_less (x y : Resource) : bool :=
  if negb (candidate_rank x =? candidate_rank y)%Z then (candidate_rank x <? candidate_rank y)%Z
  else if negb (rs_Name x =?b rs_Name y) then bytes_less (rs_Name x) (rs_Name y)
  else (rs_ID x <? rs_ID y)%Z.
(** The query selects a superset of the candidates: health observations, not
    only the effective status, can select a resource. [flagged] is that clause. *)
Definition mysql_ListTopologyCandidates (inv : inventory) (flagged : Z → bool) (environmentID limit : Z) : list Resource :=
  if (limit <=? 0)%Z then []
  else take (Z.to_nat limit)
         (sort_slice candidate_less
            (filter (λ r, (rs_EnvironmentID r =? environmentID)%Z && negb (IsArchived r)
                          && (isTopologyCandidate r || flagged (rs_ID r)) = true)
               ((map_to_list (resources inv)).*2))).

Definition mysql_repository (flagged : Z → bool) (inv : inventory) : TopologyRepository := Repository
  (mysql_GetResource inv)
  (λ ids, Ok (mysql_GetResourcesByIDs inv ids))
  (λ ids direction relationType limit, Ok (mysql_ListTopologyRelations inv ids direction relationType limit))
  (λ environmentID limit, Ok (mysql_ListTopologyCandidates inv flagged environmentID limit)).

(** ** The traversal *)

Definition validateTopologyQuery (q : TopologyQuery) : result topology_error () :=
  _ ← guard_err ((tq_Depth q <? 0)%Z || (MaxTopologyDepth <? tq_Depth q)%Z) ErrInvalidDepth;
  guard_err (negb (bool_decide (tq_Direction q ∈
      [TopologyDirectionBoth; TopologyDirectionUpstream; TopologyDirectionDownstream]))) ErrInvalidDirection.

Definition topologyNeighborID (rel : ResourceRelation) (frontier : list Z) (query : TopologyQuery) : option Z :=
  if negb (tq_RelationType query =?b []) && negb (rr_RelationType rel =?b tq_RelationType query) then None
  else
    let fromInFrontier := contains frontier (rr_FromResourceID rel) in
    let toInFrontier := contains frontier (rr_ToResourceID rel) in
    if tq_Direction query =?b TopologyDirectionUpstream then
      if toInFrontier then Some (rr_FromResourceID rel) else None
    else if tq_Direction query =?b TopologyDirectionDownstream then
      if fromInFrontier then Some (rr_ToResourceID rel) else None
    else if fromInFrontier && toInFrontier then Some 0%Z
    else if fromInFrontier then Some (rr_ToResourceID rel)
    else if toInFrontier then Some (rr_FromResourceID rel)
    else None.

(** The variables of the walk. *)
Record walk : Type := Walk {
  nodeSet : gmap Z Resource;
  edgeSet : gmap Z ResourceRelation;
  distance : gmap Z Z;
  truncated : bool;
  frontier : list Z;
}.
Definition truncate (w : walk) : walk := Walk (nodeSet w) (edgeSet w) (distance w) true (frontier w).
Definition add_edge (rel : ResourceRelation) (w : walk) : walk :=
  if has (rr_ID rel) (edgeSet w) then w
  else Walk (nodeSet w) (<[rr_ID rel := rel]> (edgeSet w)) (distance w) (truncated w) (frontier w).
Definition add_node (n : Z) (res : Resource) (hop : nat) (w : walk) : walk :=
  Walk (<[n := res]> (nodeSet w)) (edgeSet w) (<[n := Z.of_nat hop + 1]>%Z (distance w)) (truncated w) (frontier w ++ [n]).

(** The first loop over the relations: the neighbours to fetch. *)
Definition collect_pending (query : TopologyQuery) (w : walk) (pendingIDs : list Z) (rel : ResourceRelation) : list Z :=
  match topologyNeighborID rel (frontier w) query with
  | None => pendingIDs
  | Some neighborID =>
      if (neighborID =? 0)%Z || has neighborID (nodeSet w) || contains pendingIDs neighborID then pendingIDs
      else pendingIDs ++ [neighborID]
  end.

(** The body of the second loop. In [w] the frontier is the next one. *)
Definition visit (query : TopologyQuery) (hop : nat) (current : list Z) (fetched : gmap Z Resource)
    (w : walk) (rel : ResourceRelation) : walk :=
  match topologyNeighborID rel current query with
  | None => w
  | Some neighborID =>
      let edgeSeen := has (rr_ID rel) (edgeSet w) in
      let nodeSeen := has neighborID (nodeSet w) in
      if negb edgeSeen && (TopologyEdgeCap <=? len (edgeSet w))%Z then truncate w
      else if negb (neighborID =? 0)%Z && negb nodeSeen && (TopologyNodeCap <=? len (nodeSet w))%Z then truncate w
      else if negb (neighborID =? 0)%Z && negb nodeSeen then
        match fetched !! neighborID with
        | None => w
        | Some res =>
            if negb (tq_EnvironmentID query =? 0)%Z && negb (rs_EnvironmentID res =? tq_EnvironmentID query)%Z then w
            else add_edge rel (add_node neighborID res hop w)
        end
      else add_edge rel w
  end.

Definition repo_result {A} (r : result inventory_error A) : result topology_error A := map_err ErrRepository r.

(** One hop. The reads see the database at the time of each. *)
Definition expand (for_relations for_resources : TopologyRepository) (query : TopologyQuery) (hop : nat) (w : walk) :
    result topology_error walk :=
  let remainingEdges := (TopologyEdgeCap - len (edgeSet w))%Z in
  found ← repo_result (ListTopologyRelationsByResourceIDs for_relations (frontier w) (tq_Direction query)
                         (tq_RelationType query) (remainingEdges + 1));
  let w := if (remainingEdges <? Z.of_nat (length found))%Z then truncate w else w in
  let found := if (remainingEdges <? Z.of_nat (length found))%Z then take (Z.to_nat remainingEdges) found else found in
  let found := sortTopologyRelations found in
  let pendingIDs := foldl (collect_pending query w) [] found in
  fetched ← (if bool_decide (pendingIDs = []) then Ok ∅ else repo_result (GetResourcesByIDs for_resources pendingIDs));
  Ok (foldl (visit query hop (frontier w) fetched)
        (Walk (nodeSet w) (edgeSet w) (distance w) (truncated w) []) found).

(** The hop loop: [n] hops are left, [repo k] is the repository at the [k]-th read. *)
Fixpoint traverse (repo : nat → TopologyRepository) (query : TopologyQuery) (n hop : nat) (w : walk) :
    result topology_error walk :=
  match n with
  | O => Ok w
  | S n =>
      if bool_decide (frontier w = []) then Ok w
      else w ← expand (repo (S (hop + hop))) (repo (S (S (hop + hop)))) query hop w;
           traverse repo query n (S hop) w
  end.

(** ** The projection *)

Definition databaseProxyRole (res : Resource) : bytes :=
  match rs_ProfileSummary res with
  | Some p => if negb (ps_Role p =?b []) then ps_Role p else default [] (rs_Labels res !! gs "role")
  | None => default [] (rs_Labels res !! gs "role")
  end.

Definition detectDatabaseTopology (nodes : gmap Z Resource) : bool :=
  existsb (λ r, (rs_ResourceType r =?b ResourceTypeDatabaseCluster) || (rs_ResourceType r =?b ResourceTypeDatabaseInstance))
    ((map_to_list nodes).*2).

Definition replicates (rel : ResourceRelation) : bool := rr_RelationType rel =?b RelationTypeReplicatesTo.

Definition classifyNodeRole (res : Resource) (edges : gmap Z ResourceRelation) : bytes :=
  let t := rs_ResourceType res in
  if t =?b ResourceTypeService then TopologyRoleService
  else if (t =?b ResourceTypeDomainName) || (t =?b ResourceTypeVirtualIP) then TopologyRoleEntry
  else if t =?b ResourceTypeDatabaseProxy then
    if databaseProxyRole res =?b gs "standby" then TopologyRoleProxyStandby else TopologyRoleProxyActive
  else if t =?b ResourceTypeDatabaseCluster then TopologyRoleCluster
  else if t =?b ResourceTypeDatabaseInstance then
    let all := (map_to_list edges).*2 in
    let hasOutgoing := existsb (λ rel, replicates rel && (rr_FromResourceID rel =? rs_ID res)%Z) all in
    let hasIncoming := existsb (λ rel, replicates rel && (rr_ToResourceID rel =? rs_ID res)%Z) all in
    if hasOutgoing && negb hasIncoming then TopologyRolePrimary
    else if hasOutgoing && hasIncoming then TopologyRoleReplicaIntermediate
    else TopologyRoleReplica
  else if t =?b ResourceTypeHost then TopologyRoleHost
  else if t =?b ResourceTypeControlPlaneComponent then TopologyRoleControlPlane
  else TopologyRoleGeneric.

Definition classifyTopologyLayer (role : bytes) : bytes :=
  if role =?b TopologyRoleService then TopologyLayerApplication
  else if bool_decide (role ∈ [TopologyRoleEntry; TopologyRoleProxyActive; TopologyRoleProxyStandby]) then TopologyLayerEntry
  else if role =?b TopologyRoleCluster then TopologyLayerCluster
  else if bool_decide (role ∈ [TopologyRolePrimary; TopologyRoleReplica; TopologyRoleReplicaIntermediate])
    then TopologyLayerReplication
  else if role =?b TopologyRoleControlPlane then TopologyLayerControlPlane
  else if role =?b TopologyRoleHost then TopologyLayerHost
  else TopologyLayerGeneric.

Definition classifyVisualImportance (role : bytes) (isRoot : bool) : Z :=
  if isRoot then 10
  else if role =?b TopologyRolePrimary then 9
  else if role =?b TopologyRoleCluster then 8
  else if role =?b TopologyRoleProxyActive then 7
  else if bool_decide (role ∈ [TopologyRoleEntry; TopologyRoleService]) then 6
  else if role =?b TopologyRoleReplicaIntermediate then 5
  else if bool_decide (role ∈ [TopologyRoleReplica; TopologyRoleProxyStandby]) then 4
  else if role =?b TopologyRoleControlPlane then 3
  else if role =?b TopologyRoleHost then 2
  else 1.

Definition classifyEdgeSemanticType (rel : ResourceRelation) (nodes : gmap Z Resource) : bytes :=
  let t := rr_RelationType rel in
  if t =?b RelationTypeReplicatesTo then EdgeSemanticReplication
  else if t =?b RelationTypeMemberOf then EdgeSemanticMembership
  else if t =?b RelationTypeRunsOn then EdgeSemanticPlacement
  else if t =?b RelationTypePointsTo then EdgeSemanticTraffic
  else if t =?b RelationTypeDependsOn then EdgeSemanticDependency
  else if t =?b RelationTypeFronts then
    match nodes !! rr_FromResourceID rel with
    | Some from => if (rs_ResourceType from =?b ResourceTypeDatabaseProxy) && (databaseProxyRole from =?b gs "standby")
                   then EdgeSemanticFailover else EdgeSemanticTraffic
    | None => EdgeSemanticTraffic
    end
  else if t =?b RelationTypeManages then
    match nodes !! rr_FromResourceID rel with
    | Some from => if rs_ResourceSubtype from =?b gs "ha_monitor" then EdgeSemanticMonitoring else EdgeSemanticManagement
    | None => EdgeSemanticManagement
    end
  else EdgeSemanticDependency.

Definition detectNodeProblems (res : Resource) : list TopologyProblem :=
  (if rs_HealthStatus res =?b HealthStatusCritical
   then [Problem (gs "critical") (gs "Resource health is critical") (gs "health_critical")]
   else if rs_HealthStatus res =?b HealthStatusWarning
   then [Problem (gs "warning") (gs "Resource health is degraded") (gs "health_warning")] else [])
  ++ (if rs_LifecycleStatus res =?b LifecycleStatusStopped
      then [Problem (gs "critical") (gs "Resource is stopped") (gs "lifecycle_stopped")]
      else if rs_LifecycleStatus res =?b LifecycleStatusProvisioning
      then [Problem (gs "warning") (gs "Resource is provisioning") (gs "lifecycle_provisioning")]
      else if rs_LifecycleStatus res =?b LifecycleStatusDecommissioning
      then [Problem (gs "warning") (gs "Resource is being decommissioned") (gs "lifecycle_decommissioning")] else []).

Definition buildProblemSummaries (nodes : list TopologyNode) : list TopologyProblemSummary :=
  (λ n, ProblemSummary (tn_ID n) (tn_DisplayName n) (tn_ResourceType n)
          (if existsb (λ p, tp_Severity p =?b gs "critical") (tn_Problems n) then gs "critical" else gs "warning")
          (tn_Problems n))
  <$> filter (λ n, tn_Problems n ≠ []) nodes.

Definition resourceTypeLabel (rt : bytes) : bytes :=
  match list_find (λ item, di_Key item = rt) ResourceTypeDictionary with
  | Some (_, item) => di_Label item
  | None => rt
  end.

(** ** Orders of a map *)

(** The order in which the [site]-th loop over a map walks its entries. *)
Class MapOrder : Type := {
  order : nat → ∀ A : Type, list A → list A;
  order_perm site A (l : list A) : order site A l ≡ₚ l;
}.
Arguments order {_} _ {_} _.

Section projection.
Context `{MapOrder}.

Record replicationEntry : Type := ReplicationEntry { re_depth : Z; re_parentID : option Z }.

(** [forward] and [incoming] are filled in the order the edges are walked. *)
Definition forward_targets (rels : list ResourceRelation) (source : Z) : list Z :=
  rr_ToResourceID <$> filter (λ rel, rr_FromResourceID rel = source) rels.

(** The queue loop; each item is an id, its depth and its parent. *)
Fixpoint replication_loop (fuel : nat) (forward : Z → list Z) (queue : list (Z * Z * option Z))
    (result : gmap Z replicationEntry) : option (gmap Z replicationEntry) :=
  match queue with
  | [] => Some result
  | (id, depth, parent) :: queue =>
      match fuel with
      | O => None
      | S fuel =>
          if has id result then replication_loop fuel forward queue result
          else replication_loop fuel forward (queue ++ ((λ target, (target, (depth + 1)%Z, Some id)) <$> forward id))
                 (<[id := ReplicationEntry depth parent]> result)
      end
  end.

Definition computeReplicationChain (edges : gmap Z ResourceRelation) : option (gmap Z replicationEntry) :=
  let rels := filter (λ rel, replicates rel = true) (order 0 ((map_to_list edges).*2)) in
  let incoming (id : Z) := existsb (λ rel, rr_ToResourceID rel =? id)%Z rels in
  let sources := order 1 (remove_dups (rr_FromResourceID <$> rels)) in
  foldl (λ acc source,
           match acc with
           | None => None
           | Some result => if incoming source then Some result
                            else replication_loop (S (length rels)) (forward_targets rels) [(source, 0%Z, None)] result
           end) (Some ∅) sources.

Definition computeClusterGroupKeys (nodes : gmap Z Resource) (edges : gmap Z ResourceRelation) : gmap Z bytes :=
  let clusterKey (id : Z) : option bytes :=
    match nodes !! id with
    | Some res => if rs_ResourceType res =?b ResourceTypeDatabaseCluster then Some (gs "cluster:" ++ format_uint id) else None
    | None => None
    end in
  foldl (λ instanceGroups rel,
           if rr_RelationType rel =?b RelationTypeMemberOf then
             match clusterKey (rr_ToResourceID rel) with
             | Some key => <[rr_FromResourceID rel := key]> instanceGroups
             | None => instanceGroups
             end
           else instanceGroups) ∅ (order 2 ((map_to_list edges).*2)).

Definition node_less (x y : TopologyNode) : bool :=
  if negb (tn_Distance x =? tn_Distance y)%Z then (tn_Distance x <? tn_Distance y)%Z
  else if negb (tn_ResourceType x =?b tn_ResourceType y) then bytes_less (tn_ResourceType x) (tn_ResourceType y)
  else if negb (tn_Name x =?b tn_Name y) then bytes_less (tn_Name x) (tn_Name y)
  else (tn_ID x <? tn_ID y)%Z.

Definition build_node (dist : gmap Z Z) (edges : gmap Z ResourceRelation) (rootID : Z) (isDatabaseTopology : bool)
    (replicationInfo : gmap Z replicationEntry) (clusterGroupKeys : gmap Z bytes) (id : Z) (res : Resource) : TopologyNode :=
  let role := classifyNodeRole res edges in
  let profile := default (Profile [] [] 0 0 [] [] []) (rs_ProfileSummary res) in
  {| tn_ID := id;
     tn_ResourceType := rs_ResourceType res;
     tn_ResourceSubtype := rs_ResourceSubtype res;
     tn_Name := rs_Name res;
     tn_DisplayName := rs_DisplayName res;
     tn_EnvironmentID := rs_EnvironmentID res;
     tn_OwnerID := rs_OwnerID res;
     tn_LifecycleStatus := rs_LifecycleStatus res;
     tn_HealthStatus := rs_HealthStatus res;
     tn_IsRoot := (id =? rootID)%Z;
     tn_Distance := default 0%Z (dist !! id);
     tn_TopologyRole := role;
     tn_TopologyLayer := classifyTopologyLayer role;
     tn_GroupKey := default [] (clusterGroupKeys !! id);
     tn_VisualImportance := classifyVisualImportance role (id =? rootID)%Z;
     tn_IsDatabaseTopology := isDatabaseTopology;
     tn_ReplicationDepth := from_option re_depth 0%Z (replicationInfo !! id);
     tn_ReplicationParentID := replicationInfo !! id ≫= re_parentID;
     tn_Hostname := ps_Hostname profile;
     tn_IP := ps_IP profile;
     tn_Port := ps_Port profile;
     tn_Problems := detectNodeProblems res;
     tn_Labels := rs_Labels res |}.

Definition buildTopologyNodes (nodes : gmap Z Resource) (dist : gmap Z Z) (edges : gmap Z ResourceRelation) (rootID : Z)
    (isDatabaseTopology : bool) (replicationInfo : gmap Z replicationEntry) (clusterGroupKeys : gmap Z bytes) :
    list TopologyNode :=
  sort_slice node_less
    ((λ '(id, res), build_node dist edges rootID isDatabaseTopology replicationInfo clusterGroupKeys id res)
       <$> order 3 (map_to_list nodes)).

Definition edge_less (x y : TopologyEdge) : bool :=
  if negb (te_RelationType x =?b te_RelationType y) then bytes_less (te_RelationType x) (te_RelationType y)
  else if negb (te_FromResourceID x =? te_FromResourceID y)%Z then (te_FromResourceID x <? te_FromResourceID y)%Z
  else if negb (te_ToResourceID x =? te_ToResourceID y)%Z then (te_ToResourceID x <? te_ToResourceID y)%Z
  else (te_ID x <? te_ID y)%Z.

Definition buildTopologyEdges (edges : gmap Z ResourceRelation) (nodes : gmap Z Resource) : list TopologyEdge :=
  sort_slice edge_less
    ((λ rel, Edge (rr_ID rel) (rr_FromResourceID rel) (rr_ToResourceID rel) (rr_RelationType rel)
               (classifyEdgeSemanticType rel nodes)) <$> order 4 ((map_to_list edges).*2)).

Definition buildTopologyGroups (nodes : gmap Z Resource) : list TopologyGroup :=
  let entries := order 5 (map_to_list nodes) in
  let types := order 6 (remove_dups ((λ '(_, res), rs_ResourceType res) <$> entries)) in
  let groups := (λ rt, (rt, resourceTypeLabel rt,
                        sort_slice Z.ltb ((filter (λ '(_, res), rs_ResourceType res = rt) entries).*1))) <$> types in
  imap (λ index '(rt, label, ids), Group (Z.of_nat index + 1) label rt ids)
    (sort_slice (less_by (λ '(rt, _, _), rt) bytes_less) groups).

(** ** The service *)

Definition candidate_step (st : gmap Z Resource * gmap Z Z * bool) (res : Resource) : gmap Z Resource * gmap Z Z * bool :=
  let '(nodes, dist, truncated) := st in
  if IsArchived res || negb (isTopologyCandidate res) then st
  else if has (rs_ID res) nodes then st
  else if (TopologyNodeCap <=? len nodes)%Z then (nodes, dist, true)
  else (<[rs_ID res := res]> nodes, <[rs_ID res := 0%Z]> dist, truncated).

Definition buildTopologyCandidates (repo : TopologyRepository) (query : TopologyQuery) : result topology_error TopologyResponse :=
  candidates ← repo_result (ListTopologyCandidates repo (tq_EnvironmentID query) (TopologyNodeCap + 1));
  let '(nodes, dist, truncated) :=
    foldl candidate_step (∅, ∅, (TopologyNodeCap <? Z.of_nat (length candidates))%Z) candidates in
  let built := buildTopologyNodes nodes dist ∅ 0 (detectDatabaseTopology nodes) ∅ ∅ in
  Ok (Response 0 (tq_Depth query) (tq_Direction query) built [] (buildTopologyGroups nodes)
        (detectDatabaseTopology nodes) truncated (buildProblemSummaries built)).

Definition defaulted (query : TopologyQuery) : TopologyQuery :=
  Query (tq_EnvironmentID query) (tq_RootID query)
    (if (tq_Depth query =? 0)%Z then 2%Z else tq_Depth query)
    (if tq_Direction query =?b [] then TopologyDirectionBoth else tq_Direction query)
    (tq_RelationType query).

(** What [BuildTopology] makes of the finished walk. *)
Definition respond (query : TopologyQuery) (rootID : Z) (w : walk) (replicationInfo : gmap Z replicationEntry) :
    TopologyResponse :=
  let isDB := detectDatabaseTopology (nodeSet w) in
  let nodes := buildTopologyNodes (nodeSet w) (distance w) (edgeSet w) rootID isDB replicationInfo
                 (computeClusterGroupKeys (nodeSet w) (edgeSet w)) in
  Response rootID (tq_Depth query) (tq_Direction query) nodes (buildTopologyEdges (edgeSet w) (nodeSet w))
    (buildTopologyGroups (nodeSet w)) isDB (truncated w) (buildProblemSummaries nodes).

(** [BuildTopology]; [None] would be a replication walk that ran out of fuel. *)
Definition BuildTopology (repo : nat → TopologyRepository) (query : TopologyQuery) :
    option (result topology_error TopologyResponse) :=
  let query := defaulted query in
  match validateTopologyQuery query with
  | Err e => Some (Err e)
  | Ok _ =>
      if (tq_RootID query =? 0)%Z then Some (buildTopologyCandidates (repo 0) query)
      else match GetResource (repo 0) (tq_RootID query) with
           | Err e => Some (Err (ErrRepository e))
           | Ok root =>
               if negb (tq_EnvironmentID query =? 0)%Z && negb (rs_EnvironmentID root =? tq_EnvironmentID query)%Z
               then Some (Err (ErrRepository ErrResourceNotFound))
               else match traverse repo query (Z.to_nat (tq_Depth query)) 0
                            (Walk {[rs_ID root := root]} ∅ {[rs_ID root := 0%Z]} false [rs_ID root]) with
                    | Err e => Some (Err e)
                    | Ok w => info ← computeReplicationChain (edgeSet w); Some (Ok (respond query (rs_ID root) w info))
                    end
           end
  end.
End projection.

(** ** The repository's promise *)

(** What a snapshot of the tables guarantees: rows under their own ids, which
    an auto-increment column never makes 0. *)
Record wf_inventory (inv : inventory) : Prop := {
  wf_resource id res : resources inv !! id = Some res → rs_ID res = id ∧ id ≠ 0%Z;
  wf_relation id rel : relations inv !! id = Some rel →
    rr_ID rel = id ∧ rr_FromResourceID rel ≠ 0%Z ∧ rr_ToResourceID rel ≠ 0%Z;
}.

Definition selected_relations (inv : inventory) (ids : list Z) (direction relationType : bytes) : list ResourceRelation :=
  filter (λ r, relation_selected ids direction relationType r = true) ((map_to_list (relations inv)).*2).

(** A repository that reads the tables [inv]: each call fails, or answers from
    them; a limited read returns a prefix of some order of the rows. *)
Class Reads (inv : inventory) (repo : TopologyRepository) : Prop := {
  read_resource id res : GetResource repo id = Ok res → resources inv !! id = Some res;
  read_resources ids found : GetResourcesByIDs repo ids = Ok found →
    ∀ id, found !! id = if contains ids id then resources inv !! id else None;
  read_relations ids direction relationType limit found : ids ≠ [] → (0 < limit)%Z →
    ListTopologyRelationsByResourceIDs repo ids direction relationType limit = Ok found →
    ∃ all, all ≡ₚ selected_relations inv ids direction relationType ∧ found = take (Z.to_nat limit) all;
}.

Lemma contains_spec s id : contains s id = true ↔ id ∈ s.
Proof.
  unfold contains. rewrite existsb_exists. split.
  - intros (i & Hi%list_elem_of_In & E). bool_inv. by subst.
  - intros Hi%list_elem_of_In. exists id. by rewrite Z.eqb_refl.
Qed.

Lemma has_spec {A} k (m : gmap Z A) : has k m = true ↔ is_Some (m !! k).
Proof. apply bool_decide_eq_true. Qed.
Lemma has_false {A} k (m : gmap Z A) : has k m = false ↔ m !! k = None.
Proof. unfold has. by rewrite bool_decide_eq_false, <- eq_None_not_Some. Qed.

#[export] Instance mysql_repository_reads flagged inv : Reads inv (mysql_repository flagged inv).
Proof.
  split; cbn.
  - intros id res. unfold mysql_GetResource. destruct (resources inv !! id); congruence.
  - intros ids found [= <-] id. unfold mysql_GetResourcesByIDs. destruct (contains ids id) eqn:E.
    + destruct (resources inv !! id) as [r|] eqn:Hr.
      * by apply map_lookup_filter_Some.
      * apply map_lookup_filter_None. by left.
    + apply map_lookup_filter_None. right. intros r _. by rewrite E.
  - intros ids direction relationType limit found Hids Hlimit [= <-]. unfold mysql_ListTopologyRelations.
    rewrite bool_decide_eq_false_2 by done. apply Z.leb_gt in Hlimit. rewrite Hlimit. cbn.
    eexists. split; [apply sort_slice_perm|done].
Qed.

(** ** The neighbour of a relation *)

(** [rel] leads from [p] to [n] in the direction of the query. *)
Definition joins (query : TopologyQuery) (p n : Z) (rel : ResourceRelation) : Prop :=
  (tq_Direction query ≠ TopologyDirectionDownstream ∧ rr_ToResourceID rel = p ∧ rr_FromResourceID rel = n)
  ∨ (tq_Direction query ≠ TopologyDirectionUpstream ∧ rr_FromResourceID rel = p ∧ rr_ToResourceID rel = n).
Definition type_matches (query : TopologyQuery) (rel : ResourceRelation) : Prop :=
  tq_RelationType query = [] ∨ rr_RelationType rel = tq_RelationType query.

Lemma directions_differ : TopologyDirectionUpstream ≠ TopologyDirectionDownstream.
Proof. discriminate. Qed.

Lemma neighbour_sound query current rel n :
  topologyNeighborID rel current query = Some n →
  type_matches query rel
  ∧ (n = 0%Z ∧ rr_FromResourceID rel ∈ current ∧ rr_ToResourceID rel ∈ current
     ∨ ∃ p, p ∈ current ∧ joins query p n rel).
Proof.
  unfold topologyNeighborID, joins, type_matches. pose proof directions_differ as Hd.
  case_if as E; [done|]. intros H. split.
  { apply andb_false_iff in E as [E|E]; bool_inv; auto. }
  clear E. repeat case_match; bool_inv; rewrite ?contains_spec in *; simplify_eq;
    try (right; eexists; split; [eassumption|]; intuition congruence). by left.
Qed.

Lemma neighbour_complete query current rel p n :
  type_matches query rel → p ∈ current → joins query p n rel →
  topologyNeighborID rel current query = Some n
  ∨ topologyNeighborID rel current query = Some 0%Z ∧ n ∈ current.
Proof.
  unfold topologyNeighborID, joins, type_matches. pose proof directions_differ as Hd. intros Ht Hp Hj.
  assert (negb (tq_RelationType query =?b []) && negb (rr_RelationType rel =?b tq_RelationType query) = false) as ->.
  { destruct Ht as [->| ->]; [done|]. rewrite (bool_decide_eq_true_2 (tq_RelationType query = tq_RelationType query)) by done.
    by rewrite andb_false_r. }
  destruct (contains current (rr_FromResourceID rel)) eqn:Ef, (contains current (rr_ToResourceID rel)) eqn:Et;
    repeat case_bool_decide; rewrite <- ?not_true_iff_false, ?contains_spec in *; cbn;
    destruct Hj as [(? & <- & <-)|(? & <- & <-)]; try congruence; auto.
Qed.

Lemma selected_neighbour query current rel :
  relation_selected current (tq_Direction query) (tq_RelationType query) rel = true
  ↔ is_Some (topologyNeighborID rel current query).
Proof.
  unfold relation_selected, topologyNeighborID.
  destruct (contains current (rr_FromResourceID rel)), (contains current (rr_ToResourceID rel));
    repeat case_bool_decide; cbn; split; try done; try (by intros [? [=]]); by eexists.
Qed.

(** ** The walk stays bounded and closed *)

Section walk_invariant.
Context (query : TopologyQuery) (rootID : Z) (invs : nat → inventory).
Hypothesis snapshots_wf : ∀ k, wf_inventory (invs k).
(** Relations are inserted and deleted, never updated. *)
Hypothesis relations_fixed : ∀ j k id r r',
  relations (invs j) !! id = Some r → relations (invs k) !! id = Some r' → r = r'.

Definition env_ok (res : Resource) : Prop :=
  tq_EnvironmentID query = 0%Z ∨ rs_EnvironmentID res = tq_EnvironmentID query.
Definition known (rel : ResourceRelation) : Prop := ∃ k, relations (invs k) !! rr_ID rel = Some rel.

Record walk_ok (hop : nat) (w : walk) : Prop := {
  ok_nodes_cap : (len (nodeSet w) ≤ TopologyNodeCap)%Z;
  ok_edges_cap : (len (edgeSet w) ≤ TopologyEdgeCap)%Z;
  ok_node id res : nodeSet w !! id = Some res → rs_ID res = id ∧ env_ok res;
  ok_edge id rel : edgeSet w !! id = Some rel → rr_ID rel = id ∧ known rel ∧ type_matches query rel
    ∧ is_Some (distance w !! rr_FromResourceID rel) ∧ is_Some (distance w !! rr_ToResourceID rel);
  ok_distance id : is_Some (distance w !! id) ↔ is_Some (nodeSet w !! id);
  ok_root : distance w !! rootID = Some 0%Z;
  ok_parent id d : distance w !! id = Some d → id = rootID ∧ d = 0%Z
    ∨ (0 < d ≤ Z.of_nat hop)%Z ∧ ∃ p rel, distance w !! p = Some (d - 1)%Z ∧ edgeSet w !! rr_ID rel = Some rel
                                       ∧ joins query p id rel;
}.

(** In the middle of a hop: the ids being expanded, and those found so far. *)
Definition scan_ok (hop : nat) (current : list Z) (w : walk) : Prop :=
  walk_ok (S hop) w
  ∧ Forall (λ id, distance w !! id = Some (Z.of_nat hop)) current
  ∧ Forall (λ id, distance w !! id = Some (Z.of_nat (S hop))) (frontier w).

Lemma walk_ok_weaken hop w : walk_ok hop w → walk_ok (S hop) w.
Proof.
  intros []. split; try done. intros id d Hd. destruct (ok_parent0 id d Hd) as [|[? ?]]; [by left|]. right.
  split; [lia|done].
Qed.

Lemma truncate_ok hop current w : scan_ok hop current w → scan_ok hop current (truncate w).
Proof. intros ([] & ? & ?). repeat split; try done; naive_solver. Qed.

Lemma len_insert {A} (m : gmap Z A) k x : m !! k = None → len (<[k:=x]> m) = (len m + 1)%Z.
Proof. intros. unfold len. rewrite map_size_insert_None by done. lia. Qed.

Lemma known_same rel rel' : known rel → known rel' → rr_ID rel = rr_ID rel' → rel = rel'.
Proof. intros [j Hj] [k Hk] E. rewrite E in Hj. by eapply relations_fixed. Qed.

Lemma is_some_none {A} (o : option A) (P : Prop) : (is_Some o ↔ P) → ¬ P → o = None.
Proof. intros H Hn. apply eq_None_not_Some. tauto. Qed.

(** What recording a relation does to the edges. *)
Lemma add_edge_edges hop rel w :
  walk_ok hop w → known rel → (has (rr_ID rel) (edgeSet w) = false → len (edgeSet w) < TopologyEdgeCap)%Z →
  let edges := edgeSet (add_edge rel w) in
  edges !! rr_ID rel = Some rel ∧ edgeSet w ⊆ edges ∧ (len edges ≤ TopologyEdgeCap)%Z
  ∧ ∀ id r, edges !! id = Some r → edgeSet w !! id = Some r ∨ id = rr_ID rel ∧ r = rel.
Proof.
  intros [] Hk Hcap. unfold add_edge. destruct (has (rr_ID rel) (edgeSet w)) eqn:E; cbn.
  - apply has_spec in E as [r Hr]. destruct (ok_edge0 _ _ Hr) as (Hid & Hkr & _).
    rewrite (known_same r rel Hkr Hk Hid) in Hr. split; [done|]. split; [done|]. split; [done|]. auto.
  - specialize (Hcap eq_refl). apply has_false in E. rewrite lookup_insert_eq, len_insert by done.
    split; [done|]. split; [by apply insert_subseteq|]. split; [lia|]. intros id r [[<- <-]|[_ H]]%lookup_insert_Some; auto.
Qed.

Lemma add_edge_rest rel w :
  nodeSet (add_edge rel w) = nodeSet w ∧ distance (add_edge rel w) = distance w
  ∧ frontier (add_edge rel w) = frontier w ∧ truncated (add_edge rel w) = truncated w.
Proof. unfold add_edge. by destruct (has _ _). Qed.

Lemma add_edge_ok hop current rel w :
  known rel → type_matches query rel →
  is_Some (distance w !! rr_FromResourceID rel) → is_Some (distance w !! rr_ToResourceID rel) →
  (has (rr_ID rel) (edgeSet w) = false → len (edgeSet w) < TopologyEdgeCap)%Z →
  scan_ok hop current w → scan_ok hop current (add_edge rel w).
Proof.
  intros Hk Ht Hfrom Hto Hcap (Hok & Hcur & Hnext).
  destruct (add_edge_edges (S hop) rel w Hok Hk Hcap) as (Hrel & Hsub & Hlen & Hinv).
  destruct (add_edge_rest rel w) as (En & Ed & Ef & _). destruct Hok.
  unfold scan_ok. rewrite ?Ed, ?Ef. split; [|done]. split; rewrite ?En, ?Ed; try done.
  - intros id r [?|[-> ->]]%Hinv; [by apply ok_edge0|done].
  - intros id d Hd. destruct (ok_parent0 id d Hd) as [|(? & p & r & ? & Hr & ?)]; [by left|]. right.
    split; [done|]. exists p, r. split; [done|]. split; [|done]. by eapply lookup_weaken.
Qed.

(** A new node comes with the relation that led to it. *)
Lemma add_node_ok hop current p n res rel w :
  known rel → type_matches query rel → p ∈ current → joins query p n rel →
  rs_ID res = n → env_ok res → nodeSet w !! n = None → (len (nodeSet w) < TopologyNodeCap)%Z →
  (has (rr_ID rel) (edgeSet w) = false → len (edgeSet w) < TopologyEdgeCap)%Z →
  scan_ok hop current w → scan_ok hop current (add_edge rel (add_node n res hop w)).
Proof.
  intros Hk Ht Hp Hj Hid Henv Hn Hcap Hecap (Hok & Hcur & Hnext).
  assert (add_edge rel (add_node n res hop w) = add_node n res hop (add_edge rel w)) as ->.
  { unfold add_edge, add_node. cbn. by destruct (has _ _). }
  destruct (add_edge_edges (S hop) rel w Hok Hk Hecap) as (Hrel & Hsub & Hlen & Hinv).
  destruct (add_edge_rest rel w) as (En & Ed & Ef & _). destruct Hok.
  assert (distance w !! n = None) as Hdn by (eapply is_some_none; [apply ok_distance0|intros [? ?]; congruence]).
  assert (distance w !! p = Some (Z.of_nat hop)) as Hdp by exact (proj1 (Forall_forall _ _) Hcur p Hp).
  set (dist := <[n := (Z.of_nat hop + 1)%Z]> (distance w)).
  assert (distance w ⊆ dist) as Hd by (by apply insert_subseteq).
  assert (∀ id, is_Some (distance w !! id) → is_Some (dist !! id)) as Hmono by (intros id [d ?]; exists d; by eapply lookup_weaken).
  assert (∀ l d, Forall (λ id, distance w !! id = Some d) l → Forall (λ id, dist !! id = Some d) l) as HF.
  { intros l d Hl. eapply Forall_impl; [exact Hl|]. intros id Hx. exact (lookup_weaken _ _ _ _ Hx Hd). }
  assert (dist !! n = Some (Z.of_nat (S hop))) as Hdist by (unfold dist; rewrite lookup_insert_eq; f_equal; lia).
  unfold scan_ok, add_node. cbn. rewrite En, Ed, Ef. fold dist.
  split; [|split; [by apply HF|apply Forall_app; split; [by apply HF|by repeat constructor]]].
  split; cbn; try done.
  - rewrite len_insert by done. lia.
  - intros id r [[<- <-]|[_ H]]%lookup_insert_Some; [done|by apply ok_node0].
  - intros id r [H|[-> ->]]%Hinv.
    + destruct (ok_edge0 id r H) as (? & ? & ? & ? & ?). eauto 10.
    + assert (is_Some (dist !! p) ∧ is_Some (dist !! n)) as [] by (split; [apply Hmono|]; by eexists).
      repeat split; [done..| |]; destruct Hj as [(_ & E1 & E2)|(_ & E1 & E2)]; by rewrite ?E1, ?E2.
  - intros id. unfold dist. rewrite !lookup_insert_is_Some'. by rewrite ok_distance0.
  - by eapply lookup_weaken.
  - intros id d [[<- <-]|[Hne H]]%lookup_insert_Some.
    + right. split; [lia|]. exists p, rel. split; [|done]. eapply lookup_weaken; [|exact Hd]. rewrite Hdp. f_equal. lia.
    + destruct (ok_parent0 id d H) as [|(? & p' & r & ? & Hr & ?)]; [by left|]. right.
      split; [done|]. exists p', r. repeat split; [by eapply lookup_weaken..|done].
Qed.

Lemma known_ends rel : known rel → rr_FromResourceID rel ≠ 0%Z ∧ rr_ToResourceID rel ≠ 0%Z.
Proof. intros [k Hk]. by apply (wf_relation _ (snapshots_wf k)) in Hk as [_ Hk]. Qed.

Lemma joins_nonzero p n rel : known rel → joins query p n rel → n ≠ 0%Z.
Proof. intros [Hf Ht]%known_ends [(_ & _ & <-)|(_ & _ & <-)]; done. Qed.

Lemma visit_ok hop current fetched w rel :
  known rel → (∀ id res, fetched !! id = Some res → rs_ID res = id) →
  scan_ok hop current w → scan_ok hop current (visit query hop current fetched w rel).
Proof.
  intros Hk Hfetched Hw. unfold visit. destruct (topologyNeighborID rel current query) as [n|] eqn:En; [|done].
  apply neighbour_sound in En as [Ht Hn]. case_if as E1; [by apply truncate_ok|]. case_if as E2; [by apply truncate_ok|].
  assert (has (rr_ID rel) (edgeSet w) = false → len (edgeSet w) < TopologyEdgeCap)%Z as Hcap.
  { intros Hh. rewrite Hh in E1. cbn in E1. by bool_inv. }
  assert (∀ id, id ∈ current → is_Some (distance w !! id)) as Hcur.
  { intros id Hid. destruct Hw as (_ & H & _). rewrite Forall_forall in H. rewrite (H id Hid). by eexists. }
  case_if as E3.
  - apply andb_prop in E3 as [Hn0 Hnew%negb_true_iff]. cbn in E2. bool_inv.
    apply has_false in Hnew. destruct Hn as [[-> _]|(p & Hp & Hj)]; [done|].
    destruct (fetched !! n) as [res|] eqn:Ef; [|done]. case_if as E4; [done|].
    apply (add_node_ok hop current p); try done; [by apply Hfetched|].
    unfold env_ok. apply andb_false_iff in E4 as [E4|E4]; bool_inv; auto.
  - destruct Hn as [(-> & Hf & Hto)|(p & Hp & Hj)]; [by apply add_edge_ok; auto|].
    apply andb_false_iff in E3 as [E3|E3]; bool_inv; [by pose proof (joins_nonzero p n rel Hk Hj)|].
    apply has_spec in E3. pose proof Hw as ([] & _). apply ok_distance0 in E3.
    apply add_edge_ok; try done; destruct Hj as [(_ & E5 & E6)|(_ & E5 & E6)]; rewrite ?E5, ?E6; auto.
Qed.

Lemma visits_ok hop current fetched found w :
  Forall known found → (∀ id res, fetched !! id = Some res → rs_ID res = id) →
  scan_ok hop current w → scan_ok hop current (foldl (visit query hop current fetched) w found).
Proof. intros Hk Hf. revert w. induction Hk; intros w Hw; cbn; [done|]. by apply IHHk, visit_ok. Qed.

Lemma read_known inv repo ids limit found k :
  Reads inv repo → inv = invs k → ids ≠ [] → (0 < limit)%Z →
  ListTopologyRelationsByResourceIDs repo ids (tq_Direction query) (tq_RelationType query) limit = Ok found →
  Forall known found.
Proof.
  intros HR -> Hids Hl Hfound. destruct (read_relations _ _ _ _ _ Hids Hl Hfound) as (all & Hall & ->).
  apply Forall_take. rewrite Hall. apply Forall_forall. intros rel [_ Hrel]%list_elem_of_filter.
  apply list_elem_of_fmap in Hrel as ([id r] & -> & Hr%elem_of_map_to_list). exists k. cbn.
  by destruct (wf_relation _ (snapshots_wf k) _ _ Hr) as [-> _].
Qed.

(** At the start of a hop. *)
Definition hop_ok (hop : nat) (w : walk) : Prop :=
  walk_ok hop w ∧ Forall (λ id, distance w !! id = Some (Z.of_nat hop)) (frontier w).

Lemma expand_ok r1 r2 j k hop w w' :
  Reads (invs j) r1 → Reads (invs k) r2 → frontier w ≠ [] → hop_ok hop w →
  expand r1 r2 query hop w = Ok w' → hop_ok (S hop) w'.
Proof.
  intros HR1 HR2 Hfr [Hok Hdist] H. unfold expand, repo_result in H.
  destruct (ListTopologyRelationsByResourceIDs r1 _ _ _ _) as [found|] eqn:El; cbn [map_err mbind result_bind] in H; [|done].
  assert (Forall known found) as Hknown.
  { refine (read_known _ r1 _ _ _ j HR1 eq_refl Hfr _ El). pose proof (ok_edges_cap _ _ Hok). lia. }
  clear El. set (cut := (_ <? Z.of_nat (length found))%Z) in H.
  set (rels := sortTopologyRelations _) in H. assert (Forall known rels) as Hrels.
  { unfold rels, sortTopologyRelations. rewrite sort_slice_perm. destruct cut; [by apply Forall_take|done]. }
  clearbody rels. clear Hknown.
  assert (walk_ok hop (if cut then truncate w else w)
          ∧ Forall (λ id, distance (if cut then truncate w else w) !! id = Some (Z.of_nat hop))
              (frontier (if cut then truncate w else w))) as [Hok' Hdist'].
  { destruct cut; [|done]. split; [|done]. destruct Hok. by split. }
  clear Hok Hdist. set (w1 := if cut then truncate w else w) in *. clearbody w1.
  match type of H with mbind _ ?m = _ => destruct m as [fetched|] eqn:Ef end; cbn [mbind result_bind] in H; [|done].
  injection H as <-. assert (∀ id res, fetched !! id = Some res → rs_ID res = id) as Hfetched.
  { destruct (bool_decide _); [injection Ef as <-; intros id res; by rewrite lookup_empty|].
    destruct (GetResourcesByIDs r2 _) as [m|] eqn:Eg; [|done]. injection Ef as <-. intros id res.
    rewrite (read_resources _ _ Eg). destruct (contains _ id); [|done]. intros Hr. by apply (wf_resource _ (snapshots_wf k)) in Hr as [-> _]. }
  destruct (visits_ok hop (frontier w1) fetched rels
              (Walk (nodeSet w1) (edgeSet w1) (distance w1) (truncated w1) []) Hrels Hfetched) as (? & _ & ?); [|done].
  split; [|by split]. apply walk_ok_weaken in Hok'. by destruct Hok'; split.
Qed.

Lemma traverse_ok repo n hop w w' :
  (∀ k, Reads (invs k) (repo k)) → hop_ok hop w → traverse repo query n hop w = Ok w' →
  walk_ok (hop + n) w'.
Proof.
  intros HR. revert hop w. induction n as [|n IH]; intros hop w Hw; cbn.
  { intros [= <-]. rewrite Nat.add_0_r. apply Hw. }
  assert (∀ m v, walk_ok hop v → walk_ok (hop + m) v) as Hweaken.
  { intros m v Hv. induction m; [by rewrite Nat.add_0_r|]. rewrite Nat.add_succ_r. by apply walk_ok_weaken. }
  case_bool_decide as Hfr.
  - intros [= <-]. apply Hweaken, Hw.
  - destruct (expand _ _ query hop w) as [w1|] eqn:Ee; cbn; [|done]. intros H.
    rewrite Nat.add_succ_r. rewrite <- Nat.add_succ_l. eapply IH; [|done]. by eapply expand_ok.
Qed.
End walk_invariant.

(** ** The replication chain *)

(** The replication edges found, and the nodes that replicate to others and
    from none. *)
Definition replicates_to (edges : gmap Z ResourceRelation) (a b : Z) : Prop :=
  ∃ id rel, edges !! id = Some rel ∧ rr_RelationType rel = RelationTypeReplicatesTo
    ∧ rr_FromResourceID rel = a ∧ rr_ToResourceID rel = b.
Definition primary (edge : relation Z) (a : Z) : Prop := (∃ b, edge a b) ∧ ∀ c, ¬ edge c a.

(** An entry is a primary at depth 0, or one step below its parent; either way
    it is downstream of a primary. *)
Definition entry_ok (edge : relation Z) (result : gmap Z replicationEntry) (id : Z) (e : replicationEntry) : Prop :=
  (∃ s, primary edge s ∧ rtc edge s id)
  ∧ match re_parentID e with
    | None => re_depth e = 0%Z ∧ primary edge id
    | Some p => ∃ ep, result !! p = Some ep ∧ re_depth e = (re_depth ep + 1)%Z ∧ edge p id
    end.

Section replication.
Context (rels : list ResourceRelation) (edge : relation Z).
Hypothesis forward_edge : ∀ a b, b ∈ forward_targets rels a ↔ edge a b.
Implicit Types (result : gmap Z replicationEntry) (queue : list (Z * Z * option Z)).

(** The replication edges whose source is still to be expanded. *)
Definition unexpanded result : nat := length (filter (λ rel, result !! rr_FromResourceID rel = None) rels).

Lemma unexpanded_insert result id e :
  result !! id = None → unexpanded result = unexpanded (<[id:=e]> result) + length (forward_targets rels id).
Proof.
  clear forward_edge. intros Hid. unfold unexpanded, forward_targets. rewrite length_fmap. induction rels as [|rel l IH]; [done|].
  rewrite !filter_cons. destruct (decide (rr_FromResourceID rel = id)) as [<-|Hne].
  - rewrite decide_True by done. rewrite decide_False by (by rewrite lookup_insert_eq). cbn. lia.
  - rewrite lookup_insert_ne by done. destruct (decide (result !! _ = None)); cbn; lia.
Qed.

Lemma replication_loop_total fuel queue result :
  length queue + unexpanded result ≤ fuel → is_Some (replication_loop fuel (forward_targets rels) queue result).
Proof.
  revert queue result. induction fuel as [|fuel IH]; intros [|[[id depth] parent] queue] result; cbn; try lia;
    intros Hf; [by eexists..|].
  destruct (has id result) eqn:E; apply IH; [lia|].
  rewrite length_app, length_fmap. apply has_false in E. rewrite (unexpanded_insert result id (ReplicationEntry depth parent)) in Hf by done.
  lia.
Qed.

Definition chain_ok result : Prop := map_Forall (entry_ok edge result) result.
(** Every target of an expanded node is expanded or queued. *)
Definition closed_but result queue : Prop :=
  ∀ a b, is_Some (result !! a) → edge a b → is_Some (result !! b) ∨ b ∈ queue.*1.*1.

Lemma entry_ok_mono result result' id e : result ⊆ result' → entry_ok edge result id e → entry_ok edge result' id e.
Proof.
  intros Hsub [Hs H]. split; [done|]. destruct (re_parentID e); [|done]. destruct H as (ep & Hep & ?). exists ep.
  split; [|done]. by eapply lookup_weaken.
Qed.

Lemma replication_loop_ok fuel queue result result' :
  chain_ok result → Forall (λ '(id, d, p), entry_ok edge result id (ReplicationEntry d p)) queue →
  closed_but result queue →
  replication_loop fuel (forward_targets rels) queue result = Some result' →
  result ⊆ result' ∧ chain_ok result' ∧ closed_but result' [] ∧ (∀ id, id ∈ queue.*1.*1 → is_Some (result' !! id)).
Proof.
  revert queue result. induction fuel as [|fuel IH]; intros [|[[id depth] parent] queue] result Hc Hq Hcl; cbn; try done.
  1,2: intros [= <-]; split; [done|]; split; [done|]; split; [done|]; by intros ? ?%elem_of_nil.
  apply Forall_cons in Hq as [Hid Hq]. destruct (has id result) eqn:E.
  - apply has_spec in E. intros H. destruct (IH queue result Hc Hq) as (Hsub & ? & ? & Hin); [|done|].
    { intros a b Ha Hab. destruct (Hcl a b Ha Hab) as [|Hb]; [by left|]. cbn in Hb.
      apply elem_of_cons in Hb as [->|]; auto. }
    do 3 (split; [done|]). intros b [->|Hb]%elem_of_cons; [|auto]. destruct E as [e He]. exists e. by eapply lookup_weaken.
  - apply has_false in E. set (e := ReplicationEntry depth parent) in *. intros H.
    assert (result ⊆ <[id:=e]> result) as Hmono by (by apply insert_subseteq).
    apply IH in H as (Hsub & ? & ? & Hin).
    + split; [by etrans|]. split; [done|]. split; [done|]. intros b [->|Hb]%elem_of_cons.
      * exists e. eapply lookup_weaken; [by apply lookup_insert_eq|done].
      * apply Hin. rewrite !fmap_app. apply elem_of_app. by left.
    + intros b eb [[<- <-]|[_ Hb]]%lookup_insert_Some; (eapply entry_ok_mono; [exact Hmono|]); [done|by apply Hc].
    + apply Forall_app. split.
      * eapply Forall_impl; [exact Hq|]. intros [[b d] p]. by apply entry_ok_mono.
      * apply Forall_fmap, Forall_forall. intros b Hb%forward_edge. unfold compose. split; cbn.
        -- destruct Hid as [(s & Hs & Hr) _]. exists s. split; [done|]. by eapply rtc_r.
        -- exists e. by rewrite lookup_insert_eq.
    + intros a b Ha Hab. rewrite !fmap_app, elem_of_app. destruct (decide (a = id)) as [->|Hne].
      * right. right. rewrite <- !list_fmap_compose. apply list_elem_of_fmap. exists b. split; [done|].
        by apply forward_edge.
      * rewrite lookup_insert_ne in Ha by done. destruct (Hcl a b Ha Hab) as [Hb|Hb].
        -- left. destruct (decide (b = id)) as [->|]; [by rewrite lookup_insert_eq; eexists|by rewrite lookup_insert_ne].
        -- cbn in Hb. apply elem_of_cons in Hb as [->|Hb]; [left; by rewrite lookup_insert_eq; eexists|auto].
Qed.
End replication.

Section replication_chain.
Context `{MapOrder}.
Implicit Types edges : gmap Z ResourceRelation.

(** The relations the chain is computed from. *)
Definition replication_rels edges : list ResourceRelation :=
  filter (λ rel, replicates rel = true) (order 0 ((map_to_list edges).*2)).

Lemma replication_rels_edge edges a b : b ∈ forward_targets (replication_rels edges) a ↔ replicates_to edges a b.
Proof.
  unfold forward_targets, replication_rels, replicates_to. rewrite list_elem_of_fmap.
  setoid_rewrite list_elem_of_filter. setoid_rewrite list_elem_of_filter. setoid_rewrite order_perm.
  setoid_rewrite list_elem_of_fmap. split.
  - intros (rel & -> & <- & Hr & [id r] & -> & Hin%elem_of_map_to_list). unfold replicates in Hr. bool_inv.
    by exists id, r.
  - intros (id & rel & Hin%elem_of_map_to_list & Hr & <- & <-). exists rel. split; [done|]. split; [done|].
    split; [by apply bool_decide_eq_true|]. by exists (id, rel).
Qed.

Lemma incoming_spec edges id :
  existsb (λ rel, rr_ToResourceID rel =? id)%Z (replication_rels edges) = true ↔ ∃ a, replicates_to edges a id.
Proof.
  setoid_rewrite <- replication_rels_edge. unfold forward_targets. setoid_rewrite list_elem_of_fmap.
  setoid_rewrite list_elem_of_filter. rewrite existsb_exists. split.
  - intros (rel & Hin%list_elem_of_In & E). bool_inv. exists (rr_FromResourceID rel), rel. done.
  - intros (a & rel & -> & _ & Hin%list_elem_of_In). exists rel. by rewrite Z.eqb_refl.
Qed.

(** One source of the outer loop, as the fold of [computeReplicationChain] takes it. *)
Definition source_step edges (acc : option (gmap Z replicationEntry)) (source : Z) : option (gmap Z replicationEntry) :=
  result ← acc;
  if existsb (λ rel, rr_ToResourceID rel =? source)%Z (replication_rels edges) then Some result
  else replication_loop (S (length (replication_rels edges))) (forward_targets (replication_rels edges))
         [(source, 0%Z, None)] result.

Lemma source_steps_ok edges sources result :
  (∀ a, a ∈ sources → ∃ b, replicates_to edges a b) →
  chain_ok (replicates_to edges) result → closed_but (replicates_to edges) result [] →
  ∃ result', foldl (source_step edges) (Some result) sources = Some result'
    ∧ chain_ok (replicates_to edges) result' ∧ closed_but (replicates_to edges) result' []
    ∧ result ⊆ result' ∧ ∀ a, a ∈ sources → primary (replicates_to edges) a → is_Some (result' !! a).
Proof.
  revert result. induction sources as [|a sources IH]; intros result Hs Hc Hcl; cbn.
  { exists result. do 4 (split; [done|]). by intros a ?%elem_of_nil. }
  assert (∃ b, replicates_to edges a b) as Hout by (apply Hs; by left).
  assert (∀ c, c ∈ sources → ∃ b, replicates_to edges c b) as Hs' by (intros; apply Hs; by right).
  case_if as E.
  - destruct (IH result Hs' Hc Hcl) as (r & -> & ? & ? & ? & Hin). exists r. do 4 (split; [done|]).
    intros b [->|Hb]%elem_of_cons; [|by apply Hin]. intros [_ Hno]. apply incoming_spec in E as [c Hce]. by destruct (Hno c).
  - assert (primary (replicates_to edges) a) as Hp.
    { split; [done|]. intros c Hce. apply not_true_iff_false in E. apply E, incoming_spec. by exists c. }
    destruct (replication_loop_total (replication_rels edges) (S (length (replication_rels edges))) [(a, 0%Z, None)] result)
      as [r1 Hr1].
    { unfold unexpanded. cbn. pose proof (length_filter (λ rel, result !! rr_FromResourceID rel = None) (replication_rels edges)). lia. }
    cbn [mbind option_bind]. cbn in Hr1 |- *. rewrite Hr1.
    destruct (replication_loop_ok (replication_rels edges) (replicates_to edges) (replication_rels_edge edges)
                (S (length (replication_rels edges))) [(a, 0%Z, None)] result r1) as (Hsub & Hc1 & Hcl1 & Hin1); try done.
    { apply Forall_singleton. split; cbn; [|done]. exists a. split; [done|apply rtc_refl]. }
    { intros x b Hx Hxb. destruct (Hcl x b Hx Hxb) as [|Hb]; [by left|]. by apply elem_of_nil in Hb. }
    destruct (IH r1 Hs' Hc1 Hcl1) as (r & Hr & ? & ? & Hsub' & Hin). exists r. split; [exact Hr|].
    split; [done|]. split; [done|]. split; [by etrans|]. intros b [->|Hb]%elem_of_cons Hpb; [|by apply Hin].
    destruct (Hin1 a) as [e He]; [by left|]. exists e. by eapply lookup_weaken.
Qed.
End replication_chain.

(** ** The response *)

Section response.
Context `{MapOrder}.

Lemma response_node query rootID w info n :
  n ∈ ts_Nodes (respond query rootID w info) ↔
  ∃ id res, nodeSet w !! id = Some res
    ∧ n = build_node (distance w) (edgeSet w) rootID (detectDatabaseTopology (nodeSet w)) info
            (computeClusterGroupKeys (nodeSet w) (edgeSet w)) id res.
Proof.
  cbn. unfold buildTopologyNodes. rewrite sort_slice_elem, list_elem_of_fmap. setoid_rewrite order_perm. split.
  - intros ([id res] & -> & Hin%elem_of_map_to_list). by exists id, res.
  - intros (id & res & Hin%elem_of_map_to_list & ->). by exists (id, res).
Qed.

Lemma response_edge query rootID w info e :
  e ∈ ts_Edges (respond query rootID w info) ↔
  ∃ id rel, edgeSet w !! id = Some rel
    ∧ e = Edge (rr_ID rel) (rr_FromResourceID rel) (rr_ToResourceID rel) (rr_RelationType rel)
            (classifyEdgeSemanticType rel (nodeSet w)).
Proof.
  cbn. unfold buildTopologyEdges. rewrite sort_slice_elem, list_elem_of_fmap. setoid_rewrite order_perm.
  setoid_rewrite list_elem_of_fmap. split.
  - intros (rel & -> & [id r] & -> & Hin%elem_of_map_to_list). by exists id, r.
  - intros (id & rel & Hin%elem_of_map_to_list & ->). exists rel. split; [done|]. by exists (id, rel).
Qed.

Lemma response_node_ids query rootID w info :
  tn_ID <$> ts_Nodes (respond query rootID w info) ≡ₚ (map_to_list (nodeSet w)).*1.
Proof.
  cbn. unfold buildTopologyNodes. rewrite sort_slice_perm, order_perm, <- list_fmap_compose.
  apply reflexive_eq, list_fmap_ext. by intros ? [id res] ?.
Qed.

Lemma response_edge_ids query rootID w info :
  (∀ id rel, edgeSet w !! id = Some rel → rr_ID rel = id) →
  te_ID <$> ts_Edges (respond query rootID w info) ≡ₚ (map_to_list (edgeSet w)).*1.
Proof.
  intros Hid. cbn. unfold buildTopologyEdges. rewrite sort_slice_perm, order_perm, <- !list_fmap_compose.
  apply reflexive_eq, list_fmap_ext. intros i [id rel] Hi. cbn. apply Hid, elem_of_map_to_list.
  by apply list_elem_of_lookup_2 in Hi.
Qed.

Lemma build_walk repo query resp :
  tq_RootID query ≠ 0%Z → BuildTopology repo query = Some (Ok resp) →
  ∃ root w info,
    GetResource (repo 0) (tq_RootID query) = Ok root
    ∧ (tq_EnvironmentID query = 0%Z ∨ rs_EnvironmentID root = tq_EnvironmentID query)
    ∧ (1 ≤ tq_Depth (defaulted query) ≤ MaxTopologyDepth)%Z
    ∧ tq_Direction (defaulted query) ∈ [TopologyDirectionBoth; TopologyDirectionUpstream; TopologyDirectionDownstream]
    ∧ traverse repo (defaulted query) (Z.to_nat (tq_Depth (defaulted query))) 0
        (Walk {[rs_ID root := root]} ∅ {[rs_ID root := 0%Z]} false [rs_ID root]) = Ok w
    ∧ computeReplicationChain (edgeSet w) = Some info
    ∧ resp = respond (defaulted query) (rs_ID root) w info.
Proof.
  intros Hroot Hb. unfold BuildTopology in Hb.
  destruct (validateTopologyQuery (defaulted query)) as [u|] eqn:Ev; [|done].
  unfold validateTopologyQuery in Ev. res_inv. bool_inv.
  change (tq_RootID (defaulted query)) with (tq_RootID query) in Hb.
  change (tq_EnvironmentID (defaulted query)) with (tq_EnvironmentID query) in Hb.
  rewrite (proj2 (Z.eqb_neq _ _) Hroot) in Hb.
  destruct (GetResource (repo 0) (tq_RootID query)) as [root|] eqn:Eg; [|done].
  test_in Hb as Ee; [done|]. destruct (traverse _ _ _ _ _) as [w|] eqn:Et; [|done].
  destruct (computeReplicationChain (edgeSet w)) as [info|] eqn:Ei; [|done]. cbn in Hb. injection Hb as <-.
  exists root, w, info. split; [done|]. split.
  { apply andb_false_iff in Ee as [Ee|Ee]; bool_inv; auto. }
  split; [|done]. split; [|lia]. cbn in *. destruct (Z.eqb_spec (tq_Depth query) 0); lia.
Qed.
End response.

(** ** Properties *)

(** The sources of the outer loop. *)
Lemma replication_sources `{MapOrder} edges a :
  a ∈ order 1 (remove_dups (rr_FromResourceID <$> replication_rels edges)) ↔ ∃ b, replicates_to edges a b.
Proof.
  rewrite order_perm, elem_of_remove_dups. setoid_rewrite <- replication_rels_edge.
  generalize (replication_rels edges). intros l.
  unfold forward_targets. setoid_rewrite list_elem_of_fmap. setoid_rewrite list_elem_of_filter. split.
  - intros (rel & -> & ?). by exists (rr_ToResourceID rel), rel.
  - intros (b & rel & -> & <- & ?). by exists rel.
Qed.

Lemma replication_chain_spec `{MapOrder} edges :
  ∃ info, computeReplicationChain edges = Some info
    ∧ chain_ok (replicates_to edges) info ∧ closed_but (replicates_to edges) info []
    ∧ ∀ a, primary (replicates_to edges) a → is_Some (info !! a).
Proof.
  destruct (source_steps_ok edges (order 1 (remove_dups (rr_FromResourceID <$> replication_rels edges))) ∅)
    as (info & Hinfo & Hc & Hcl & _ & Hin).
  { intros a. by apply replication_sources. } { by apply map_Forall_empty. } { intros a b [e He]. by rewrite lookup_empty in He. }
  exists info. do 3 (split; [done|]). intros a Ha. apply Hin; [apply replication_sources, Ha|done].
Qed.

Lemma replication_chain_total `{MapOrder} edges : ∃ info, computeReplicationChain edges = Some info.
Proof. destruct (replication_chain_spec edges) as (info & ? & _). by exists info. Qed.

(** the replication chain is exact and its walk always ends, whatever order
    the maps are walked in and however the replication edges loop: the nodes
    given an entry are those downstream of a primary, and an entry is a primary
    at depth 0 or hangs one level below its parent. *)
Theorem replication_chain_exact `{MapOrder} (edges : gmap Z ResourceRelation) :
  ∃ info, computeReplicationChain edges = Some info
    ∧ (∀ id, is_Some (info !! id) ↔ ∃ s, primary (replicates_to edges) s ∧ rtc (replicates_to edges) s id)
    ∧ map_Forall (entry_ok (replicates_to edges) info) info.
Proof.
  destruct (replication_chain_spec edges) as (info & Hinfo & Hc & Hcl & Hin).
  exists info. split; [exact Hinfo|]. split; [|exact Hc]. intros id. split.
  - intros [e He]. by destruct (Hc _ _ He).
  - intros (s & Hp & Hr). apply Hin in Hp. induction Hr as [|a b c Hab _ IH]; [done|]. apply IH.
    destruct (Hcl a b Hp Hab) as [|Hb]; [done|]. by apply elem_of_nil in Hb.
Qed.

(** The edge leads from [p] to [n] when it is followed in the given direction. *)
Definition leads (direction : bytes) (p n : Z) (e : TopologyEdge) : Prop :=
  (direction ≠ TopologyDirectionDownstream ∧ te_ToResourceID e = p ∧ te_FromResourceID e = n)
  ∨ (direction ≠ TopologyDirectionUpstream ∧ te_FromResourceID e = p ∧ te_ToResourceID e = n).

Lemma walk_start query inv r (root : Resource) :
  wf_inventory inv → Reads inv r → GetResource r (tq_RootID query) = Ok root →
  (tq_EnvironmentID query = 0%Z ∨ rs_EnvironmentID root = tq_EnvironmentID query) →
  rs_ID root = tq_RootID query
  ∧ ∀ invs, hop_ok (defaulted query) (tq_RootID query) invs 0
      (Walk {[rs_ID root := root]} ∅ {[rs_ID root := 0%Z]} false [rs_ID root]).
Proof.
  intros Hwf HR Hget Henv. apply read_resource in Hget. pose proof (wf_resource _ Hwf _ _ Hget) as [Hid _].
  split; [done|]. intros invs. rewrite Hid. split; [|by apply Forall_singleton; cbn; rewrite lookup_singleton_eq].
  split; cbn; try done.
  - unfold len. by rewrite map_size_singleton.
  - intros id res [<- <-]%lookup_singleton_Some. done.
  - intros id. rewrite !lookup_singleton_is_Some. done.
  - by rewrite lookup_singleton_eq.
  - intros id d [<- <-]%lookup_singleton_Some. by left.
Qed.

(** C25: whatever the database does between the reads of a traversal, the graph
    returned is bounded and closed: at most 200 distinct nodes and 400 distinct
    edges, every edge of the requested type and between two of the nodes, every
    node of the requested environment, the root at distance 0, and every other
    node one step further than a node from which a returned edge leads to it. *)
Theorem topology_bounded_closed `{MapOrder} invs repo query resp :
  (∀ k, wf_inventory (invs k)) →
  (∀ j k id r r', relations (invs j) !! id = Some r → relations (invs k) !! id = Some r' → r = r') →
  (∀ k, Reads (invs k) (repo k)) →
  tq_RootID query ≠ 0%Z → BuildTopology repo query = Some (Ok resp) →
  let ids := tn_ID <$> ts_Nodes resp in
  NoDup ids ∧ length ids ≤ 200 ∧ NoDup (te_ID <$> ts_Edges resp) ∧ length (ts_Edges resp) ≤ 400
  ∧ tq_RootID query ∈ ids
  ∧ (∀ e, e ∈ ts_Edges resp → te_FromResourceID e ∈ ids ∧ te_ToResourceID e ∈ ids
      ∧ (tq_RelationType query = [] ∨ te_RelationType e = tq_RelationType query))
  ∧ (∀ n, n ∈ ts_Nodes resp →
      (tq_EnvironmentID query = 0%Z ∨ tn_EnvironmentID n = tq_EnvironmentID query)
      ∧ (tn_ID n = tq_RootID query ∧ tn_Distance n = 0%Z
         ∨ (0 < tn_Distance n ≤ ts_Depth resp)%Z
           ∧ ∃ p e, p ∈ ts_Nodes resp ∧ e ∈ ts_Edges resp ∧ tn_Distance n = (tn_Distance p + 1)%Z
               ∧ leads (ts_Direction resp) (tn_ID p) (tn_ID n) e)).
Proof.
  intros Hwf Hfix HR Hroot Hb. destruct (build_walk _ _ _ Hroot Hb) as (root & w & info & Hget & Henv & Hd & _ & Ht & _ & ->).
  destruct (walk_start query (invs 0) (repo 0) root) as [Hid Hstart]; try done.
  eapply (traverse_ok _ (tq_RootID query) invs) in Ht as []; try done. clear Hb Hget Hstart.
  cbn [Nat.add] in *. rewrite Z2Nat.id in ok_parent0 by lia.
  assert (∀ id, is_Some (distance w !! id) → id ∈ tn_ID <$> ts_Nodes (respond (defaulted query) (rs_ID root) w info)) as Hin.
  { intros id Hs. rewrite response_node_ids. apply ok_distance0 in Hs as [res Hres]. apply list_elem_of_fmap.
    exists (id, res). split; [done|]. by apply elem_of_map_to_list. }
  cbv zeta. rewrite response_node_ids at 1. split; [apply NoDup_fst_map_to_list|].
  split. { rewrite response_node_ids, length_fmap, length_map_to_list. unfold len, TopologyNodeCap in *. lia. }
  rewrite response_edge_ids by (intros; by apply ok_edge0). split; [apply NoDup_fst_map_to_list|].
  split. { rewrite <- (length_fmap te_ID), response_edge_ids, length_fmap, length_map_to_list by (intros; by apply ok_edge0).
    unfold len, TopologyEdgeCap in *. lia. }
  split. { apply Hin. rewrite ok_root0. by eexists. } split.
  - intros e (id & rel & Hrel & ->)%response_edge. destruct (ok_edge0 _ _ Hrel) as (_ & _ & Htype & ? & ?). cbn. auto.
  - intros n (id & res & Hres & ->)%response_node. destruct (ok_node0 _ _ Hres) as [Hri He]. split; [exact He|].
    assert (is_Some (distance w !! id)) as [d Hdist] by (apply ok_distance0; by eexists).
    cbn [tn_ID tn_Distance build_node]. rewrite Hdist. cbn [default from_option].
    destruct (ok_parent0 _ _ Hdist) as [|(Hb & p & rel & Hp & Hrel & Hj)]; [by left|]. right. split; [exact Hb|].
    assert (is_Some (nodeSet w !! p)) as [pr Hpr] by (apply ok_distance0; by eexists).
    eexists _, _. split; [apply response_node; by exists p, pr|]. split; [apply response_edge; by exists (rr_ID rel), rel|].
    cbn [tn_ID tn_Distance build_node]. rewrite Hp. cbn. split; [lia|exact Hj].
Qed.
