(* ===== verification/TopologyGraph.v ===== *)
(** * Topology as a graph

    The traversal of [Topology] against a reference: the graph of visible
    resources and followed relations, and its shortest distances from the root. *)
From S2P Require Import Prelude GoText Inventory Topology.

(** ** An untruncated walk is complete *)

Section completeness.
Context (query : TopologyQuery) (rootID : Z) (inv : inventory).
Hypothesis inv_wf : wf_inventory inv.

(** The graph the query is about: resources of its environment, and relations
    of its type followed in its direction. *)
Definition in_view (id : Z) : Prop := ∃ res, resources inv !! id = Some res ∧ env_ok query res.
Definition followed (rel : ResourceRelation) (a b : Z) : Prop :=
  type_matches query rel ∧ joins query a b rel ∧ in_view b.
Definition link (a b : Z) : Prop := ∃ id rel, relations inv !! id = Some rel ∧ followed rel a b.
Definition shortest (n : nat) (id : Z) : Prop :=
  nsteps link n rootID id ∧ ∀ m, m < n → ¬ nsteps link m rootID id.

Section scan.
Context (N0 : gmap Z Resource) (D0 : gmap Z Z) (E0 : gmap Z ResourceRelation).
Context (hop : nat) (current : list Z) (fetched : gmap Z Resource).
Hypothesis nodes_real : N0 ⊆ resources inv.
Hypothesis edges_real : E0 ⊆ relations inv.
Hypothesis nodes_visible : ∀ id, is_Some (N0 !! id) → in_view id.
Hypothesis nodes_distance : ∀ id, is_Some (D0 !! id) ↔ is_Some (N0 !! id).

Definition discovered (l : list ResourceRelation) (id : Z) : Prop :=
  N0 !! id = None ∧ in_view id ∧ ∃ rel, rel ∈ l ∧ topologyNeighborID rel current query = Some id.
Definition fits (rel : ResourceRelation) : Prop :=
  ∃ n, topologyNeighborID rel current query = Some n ∧ (n = 0%Z ∨ in_view n).

Record scanned (l : list ResourceRelation) (w : walk) : Prop := {
  sc_nodes id res : nodeSet w !! id = Some res ↔ resources inv !! id = Some res ∧ (is_Some (N0 !! id) ∨ discovered l id);
  sc_distance id d : distance w !! id = Some d ↔ D0 !! id = Some d ∨ discovered l id ∧ d = (Z.of_nat hop + 1)%Z;
  sc_frontier id : id ∈ frontier w ↔ discovered l id;
  sc_edges id rel : edgeSet w !! id = Some rel ↔
    relations inv !! id = Some rel ∧ (E0 !! id = Some rel ∨ rel ∈ l ∧ fits rel);
}.

Lemma scanned_start t : scanned [] (Walk N0 E0 D0 t []).
Proof.
  assert (∀ id, ¬ discovered [] id) as Hno by (intros id (_ & _ & rel & ?%elem_of_nil & _); done).
  split; cbn.
  - intros id res. split.
    + intros Hn. split; [by eapply lookup_weaken|]. left. by eexists.
    + intros [Hr [[res' Hn]|?%Hno]]; [|done]. pose proof (lookup_weaken _ _ _ _ Hn nodes_real). congruence.
  - intros id d. split; [by left|]. intros [|[?%Hno _]]; done.
  - intros id. rewrite elem_of_nil. split; [done|apply Hno].
  - intros id rel. split; [intros He; split; [by eapply lookup_weaken|by left]|].
    intros [Hr [|[?%elem_of_nil _]]]; done.
Qed.

(** Membership in a list that grows by one relation. *)
Lemma discovered_snoc l rel id :
  discovered (l ++ [rel]) id ↔
  discovered l id ∨ N0 !! id = None ∧ in_view id ∧ topologyNeighborID rel current query = Some id.
Proof.
  unfold discovered. setoid_rewrite elem_of_app. setoid_rewrite list_elem_of_singleton. split.
  - intros (? & ? & r & [Hr| ->] & Hn); [left|right]; eauto.
  - intros [(? & ? & r & ? & ?)|(? & ? & ?)]; eauto 10.
Qed.

(** A relation that finds nothing new, and is not to be kept, changes nothing. *)
Lemma scanned_skip l rel w :
  (∀ n, topologyNeighborID rel current query = Some n → n ≠ 0%Z ∧ ¬ in_view n) →
  scanned l w → scanned (l ++ [rel]) w.
Proof.
  intros Hn []. assert (∀ id, discovered (l ++ [rel]) id ↔ discovered l id) as Hd.
  { intros id. rewrite discovered_snoc. split; [|by left]. intros [|(_ & Hv & Hid)]; [done|]. by destruct (Hn id Hid). }
  split; intros; rewrite ?Hd; try done. rewrite sc_edges0, elem_of_app, list_elem_of_singleton. split.
  - intros [Hr [He|[Hl Hf]]]; (split; [done|]); [by left|right; split; [by left|done]].
  - intros [Hr [He|[[Hl| ->] Hf]]]; [by split; [|left]|by split; [|right]|].
    destruct Hf as (n & Hid & [->|Hv]); by destruct (Hn _ Hid).
Qed.

(** What is added to the edges when a relation is kept. *)
Lemma kept_edges l rel w id r :
  relations inv !! rr_ID rel = Some rel → fits rel → scanned l w →
  edgeSet (add_edge rel w) !! id = Some r ↔
  relations inv !! id = Some r ∧ (E0 !! id = Some r ∨ r ∈ l ++ [rel] ∧ fits r).
Proof.
  intros Hr Hfit []. rewrite elem_of_app, list_elem_of_singleton. unfold add_edge.
  destruct (has (rr_ID rel) (edgeSet w)) eqn:E.
  - apply has_spec in E as [r' Her]. assert (r' = rel) as -> by (apply sc_edges0 in Her as [? _]; congruence).
    rewrite sc_edges0. split.
    + intros [Hi [He|[Hl Hf]]]; (split; [done|]); [by left|right; split; [by left|done]].
    + intros [Hi [He|[[Hl| ->] Hf]]]; [by split; [|left]|by split; [|right]|].
      destruct (wf_relation _ inv_wf _ _ Hi) as [<- _]. by apply sc_edges0 in Her.
  - cbn. rewrite lookup_insert_Some, sc_edges0. split.
    + intros [[<- <-]|[_ [Hi [He|[Hl Hf]]]]]; (split; [done|]); [right; split; [by right|done]|by left|].
      right. split; [by left|done].
    + intros [Hi Hcase]. destruct (decide (rr_ID rel = id)) as [<-|Hne]; [left; split; [done|congruence]|right].
      split; [done|]. split; [done|]. destruct Hcase as [He|[[Hl| ->] Hf]]; [by left|by right|].
      by destruct (wf_relation _ inv_wf _ _ Hi) as [? _].
Qed.

(** Keeping a relation, when its neighbour is already among the nodes. *)
Lemma scanned_edge l rel w :
  relations inv !! rr_ID rel = Some rel → fits rel →
  (∀ id, topologyNeighborID rel current query = Some id → id = 0%Z ∨ is_Some (nodeSet w !! id)) →
  ¬ in_view 0%Z →
  scanned l w → scanned (l ++ [rel]) (add_edge rel w).
Proof.
  intros Hr Hfit Hseen H0 Hw. pose proof Hw as []. destruct (add_edge_rest rel w) as (En & Ed & Ef & _).
  assert (∀ id, discovered (l ++ [rel]) id ↔ discovered l id) as Hd.
  { intros id. rewrite discovered_snoc. split; [|by left]. intros [|(Hnone & Hv & Hid)]; [done|].
    destruct (Hseen id Hid) as [->|[res Hres]]; [done|]. apply sc_nodes0 in Hres as [_ [[? ?]|?]]; [congruence|done]. }
  split; intros; rewrite ?En, ?Ed, ?Ef, ?Hd; try done. by apply kept_edges.
Qed.

(** Keeping a relation that leads to a new node. *)
Lemma scanned_node l rel n res w :
  relations inv !! rr_ID rel = Some rel → topologyNeighborID rel current query = Some n →
  resources inv !! n = Some res → env_ok query res → nodeSet w !! n = None →
  scanned l w → scanned (l ++ [rel]) (add_edge rel (add_node n res hop w)).
Proof.
  intros Hr Hn Hres Henv Hnew Hw. pose proof Hw as [].
  assert (in_view n) as Hv by (by exists res).
  assert (add_edge rel (add_node n res hop w) = add_node n res hop (add_edge rel w)) as ->.
  { unfold add_edge, add_node. cbn. by destruct (has _ _). }
  destruct (add_edge_rest rel w) as (En & Ed & Ef & _).
  assert (N0 !! n = None) as HN0.
  { apply eq_None_not_Some. intros Hs. assert (nodeSet w !! n = Some res); [|congruence]. apply sc_nodes0. auto. }
  assert (¬ discovered l n) as Hnd.
  { intros Hd. assert (nodeSet w !! n = Some res); [|congruence]. apply sc_nodes0. auto. }
  assert (∀ id, discovered (l ++ [rel]) id ↔ discovered l id ∨ id = n) as Hd.
  { intros id. rewrite discovered_snoc. split; [intros [|(_ & _ & ?)]; [by left|right; congruence]|].
    intros [| ->]; [by left|by right]. }
  split; cbn; intros; rewrite ?En, ?Ed, ?Ef, ?Hd.
  - rewrite lookup_insert_Some, sc_nodes0. split.
    + intros [[<- <-]|[_ [? Hc]]]; (split; [done|]); [by right; right|tauto].
    + intros [Hid Hc]. destruct (decide (n = id)) as [<-|]; [left; split; congruence|right].
      split; [done|]. split; [done|]. destruct Hc as [|[|]]; [by left|by right|congruence].
  - rewrite lookup_insert_Some, sc_distance0. split.
    + intros [[<- <-]|[_ [?|[? ?]]]]; [right; by split; [right|]|by left|right; by split; [left|]].
    + intros Hc. destruct (decide (n = id)) as [<-|Hne].
      * left. split; [done|]. destruct Hc as [Hc|[_ ->]]; [|done].
        assert (is_Some (N0 !! n)) as [? ?] by (apply nodes_distance; by eexists). congruence.
      * right. split; [done|]. destruct Hc as [|[[|] ?]]; [by left|by right|congruence].
  - rewrite elem_of_app, list_elem_of_singleton, sc_frontier0. done.
  - apply kept_edges; try done. exists n. by split; [|right].
Qed.
Lemma node_visible l w id : scanned l w → is_Some (nodeSet w !! id) → in_view id.
Proof. intros [] [res H]. apply sc_nodes0 in H as [_ [?|(_ & ? & _)]]; auto. Qed.

Lemma visit_scanned l rel w :
  relations inv !! rr_ID rel = Some rel →
  (∀ n, topologyNeighborID rel current query = Some n → n ≠ 0%Z → N0 !! n = None → fetched !! n = resources inv !! n) →
  ¬ in_view 0%Z →
  truncated (visit query hop current fetched w rel) = false → scanned l w →
  truncated w = false ∧ scanned (l ++ [rel]) (visit query hop current fetched w rel).
Proof.
  intros Hr Hfetched H0 Ht Hw. unfold visit in *. destruct (topologyNeighborID rel current query) as [n|] eqn:En.
  2: { split; [done|]. apply scanned_skip; [|done]. intros ? E. congruence. }
  test_in Ht as E1; [done|]. test_in Ht as E2; [done|]. test_in Ht as E3.
  - apply andb_prop in E3 as [Hn0%negb_true_iff Hnew%negb_true_iff]. apply Z.eqb_neq in Hn0. apply has_false in Hnew.
    assert (N0 !! n = None) as HN0.
    { apply eq_None_not_Some. intros Hs. pose proof (nodes_visible _ Hs) as (res & Hres & _).
      assert (nodeSet w !! n = Some res); [|congruence]. apply (sc_nodes _ _ Hw). auto. }
    specialize (Hfetched n eq_refl Hn0 HN0). rewrite Hfetched in *. destruct (resources inv !! n) as [res|] eqn:Eres.
    + test_in Ht as E4.
      * split; [done|]. apply scanned_skip; [|done]. intros ? E. rewrite En in E. injection E as <-. split; [done|].
        intros (res' & Hres' & [He|He]); rewrite Eres in Hres'; injection Hres' as <-; apply andb_prop in E4 as [Ea Eb]; bool_inv; done.
      * destruct (add_edge_rest rel (add_node n res hop w)) as (_ & _ & _ & Etr). rewrite Etr in Ht.
        split; [done|]. apply scanned_node; try done. apply andb_false_iff in E4 as [E4|E4]; bool_inv; [by left|by right].
    + split; [done|]. apply scanned_skip; [|done]. intros ? E. rewrite En in E. injection E as <-. split; [done|]. intros (res' & ? & _). congruence.
  - destruct (add_edge_rest rel w) as (_ & _ & _ & Etr). rewrite Etr in Ht. split; [done|].
    assert (n = 0%Z ∨ is_Some (nodeSet w !! n)) as Hseen.
    { apply andb_false_iff in E3 as [E3|E3]; bool_inv; [by left|right; by apply has_spec]. }
    apply scanned_edge; try done; [|intros ? E; rewrite En in E; by injection E as <-]. exists n. split; [done|].
    destruct Hseen as [|Hs]; [by left|right; by eapply node_visible].
Qed.

Lemma visit_truncated rel w : truncated (visit query hop current fetched w rel) = false → truncated w = false.
Proof.
  assert (∀ v, truncated (add_edge rel v) = truncated v) as Hadd by apply (add_edge_rest rel).
  unfold visit. repeat case_match; rewrite ?Hadd; done.
Qed.

Lemma visits_scanned todo l w :
  Forall (λ rel, relations inv !! rr_ID rel = Some rel) todo →
  (∀ rel n, rel ∈ todo → topologyNeighborID rel current query = Some n → n ≠ 0%Z → N0 !! n = None →
     fetched !! n = resources inv !! n) →
  ¬ in_view 0%Z →
  truncated (foldl (visit query hop current fetched) w todo) = false → scanned l w →
  truncated w = false ∧ scanned (l ++ todo) (foldl (visit query hop current fetched) w todo).
Proof.
  revert l w. induction todo as [|rel todo IH]; intros l w Hall Hf H0 Ht Hw; cbn in *.
  { by rewrite app_nil_r. }
  apply Forall_cons in Hall as [Hr Hall].
  assert (∀ w', truncated (foldl (visit query hop current fetched) w' todo) = false → truncated w' = false) as Hback.
  { clear. induction todo as [|r todo IH]; intros w' H; cbn in *; [done|]. by eapply visit_truncated, IH. }
  destruct (visit_scanned l rel w Hr) as [Htw Hs]; try done.
  { intros n. apply Hf. by left. } { by apply Hback. }
  split; [done|]. rewrite cons_middle, (assoc_L (++)). apply IH; try done. intros r n Hin. apply Hf. by right.
Qed.
End scan.
(** *** Shortest distances *)

Hypothesis root_visible : in_view rootID.

Lemma not_visible_zero : ¬ in_view 0%Z.
Proof. intros (res & Hres & _). by apply (wf_resource _ inv_wf) in Hres as []. Qed.

Lemma shortest_visible n id : shortest n id → in_view id.
Proof.
  intros [H _]. destruct n as [|n]; [by inversion H; subst|].
  apply nsteps_inv_r in H as (a & _ & _ & rel & _ & _ & _ & Hv). done.
Qed.

Lemma shortest_unique n m id : shortest n id → shortest m id → n = m.
Proof.
  intros [Hn Hn'] [Hm Hm']. destruct (Nat.lt_trichotomy n m) as [Hlt|[|Hlt]]; [|done|];
    [by destruct (Hm' n Hlt)|by destruct (Hn' m Hlt)].
Qed.

Lemma shortest_pred n b : shortest (S n) b → ∃ a, shortest n a ∧ link a b.
Proof.
  intros [H Hmin]. apply nsteps_inv_r in H as (a & Ha & Hab). exists a. split; [|done]. split; [done|].
  intros m Hm Hsteps. apply (Hmin (S m)); [lia|]. by eapply nsteps_r.
Qed.

(** A walk of [n] steps or fewer has a shortest one, constructively: not none. *)
Lemma shortest_exists n id : nsteps link n rootID id → ¬ ∀ m, m ≤ n → ¬ shortest m id.
Proof.
  intros Hn Hno. assert (∀ m, m ≤ n → ¬ nsteps link m rootID id) as Hnone; [|by apply (Hnone n)].
  intros m. induction m as [m IH] using lt_wf_ind. intros Hle Hm. apply (Hno m Hle). split; [done|].
  intros k Hk. apply IH; lia.
Qed.

Record complete (hop : nat) (w : walk) : Prop := {
  c_nodes id res : nodeSet w !! id = Some res ↔ resources inv !! id = Some res ∧ ∃ n, n ≤ hop ∧ shortest n id;
  c_distance id d : distance w !! id = Some d ↔ ∃ n, n ≤ hop ∧ shortest n id ∧ d = Z.of_nat n;
  c_frontier id : id ∈ frontier w ↔ shortest hop id;
  c_edges id rel : edgeSet w !! id = Some rel ↔
    relations inv !! id = Some rel ∧ ∃ a b n, n < hop ∧ shortest n a ∧ followed rel a b;
}.

Lemma complete_start root : resources inv !! rootID = Some root →
  complete 0 (Walk {[rootID := root]} ∅ {[rootID := 0%Z]} false [rootID]).
Proof.
  intros Hroot. assert (shortest 0 rootID) as H0 by (split; [constructor|lia]).
  assert (∀ n id, n ≤ 0 → shortest n id → id = rootID ∧ n = 0) as Honly.
  { intros n id Hn [H _]. assert (n = 0) as -> by lia. by inversion H. }
  split; cbn.
  - intros id res. rewrite lookup_singleton_Some. split; [intros [<- <-]; eauto|].
    intros (? & n & Hn & [-> _]%Honly); [|done]. split; [done|congruence].
  - intros id d. rewrite lookup_singleton_Some. split; [intros [<- <-]; by exists 0|].
    intros (n & Hn & Hs & ->). by destruct (Honly n id Hn Hs) as [-> ->].
  - intros id. rewrite list_elem_of_singleton. split; [by intros ->|]. intros Hs. by apply Honly in Hs as [-> _].
  - intros id rel. rewrite lookup_empty. split; [done|]. intros (_ & a & b & n & ? & _). lia.
Qed.

(** Nothing lies beyond an empty frontier. *)
Lemma complete_stop hop w k : complete hop w → frontier w = [] → complete (hop + k) w.
Proof.
  intros [] Hf. assert (∀ n id, hop ≤ n → ¬ shortest n id) as Hnone.
  { intros n id Hn. induction Hn as [|n Hn IH] in id |- *.
    - intros Hs. apply c_frontier0 in Hs. rewrite Hf in Hs. by apply elem_of_nil in Hs.
    - intros (a & Ha & _)%shortest_pred. by apply (IH a). }
  assert (∀ n id, shortest n id → n ≤ hop + k → n ≤ hop) as Hle.
  { intros n id Hs _. destruct (decide (n ≤ hop)); [done|]. destruct (Hnone n id); [lia|done]. }
  split.
  - intros id res. rewrite c_nodes0. split; intros (? & n & ? & ?); (split; [done|]); exists n; split; eauto with lia.
  - intros id d. rewrite c_distance0. split; intros (n & ? & ? & ?); exists n; split; eauto with lia.
  - intros id. rewrite Hf, elem_of_nil. split; [done|]. apply Hnone. lia.
  - intros id rel. rewrite c_edges0. split; intros (? & a & b & n & ? & Hs & ?); (split; [done|]);
      exists a, b, n; (split; [|done]); [lia|].
    destruct (decide (n < hop)); [done|]. destruct (Hnone n a); [lia|done].
Qed.
(** *** One hop *)

(** The relations one hop has to look at. *)
Definition hop_relations (current : list Z) (rel : ResourceRelation) : Prop :=
  relations inv !! rr_ID rel = Some rel ∧ is_Some (topologyNeighborID rel current query).

Lemma neighbour_nonzero current rel n : hop_relations current rel → topologyNeighborID rel current query = Some n →
  n = 0%Z ∧ rr_FromResourceID rel ∈ current ∧ rr_ToResourceID rel ∈ current
  ∨ n ≠ 0%Z ∧ ∃ p, p ∈ current ∧ joins query p n rel.
Proof.
  intros [Hr _] [_ [H|(p & Hp & Hj)]]%neighbour_sound; [by left|right].
  destruct (wf_relation _ inv_wf _ _ Hr) as (_ & Hf & Ht). split; [|by exists p].
  destruct Hj as [(_ & _ & <-)|(_ & _ & <-)]; done.
Qed.

Lemma discovered_shortest hop w (l : list ResourceRelation) id :
  complete hop w → (∀ rel, rel ∈ l ↔ hop_relations (frontier w) rel) →
  discovered (nodeSet w) (frontier w) l id ↔ shortest (S hop) id.
Proof.
  intros [] Hl. split.
  - intros (Hnone & Hv & rel & Hrel & Hn). apply Hl in Hrel as Hrel'.
    assert (∀ m, m ≤ hop → ¬ shortest m id) as Hfar.
    { intros m Hm Hs. destruct Hv as (res & Hres & _). assert (nodeSet w !! id = Some res); [|congruence].
      apply c_nodes0. eauto. }
    destruct (neighbour_nonzero _ _ _ Hrel' Hn) as [[-> _]|(_ & p & Hp & Hj)]; [by destruct (not_visible_zero Hv)|].
    apply c_frontier0 in Hp as [Hp _]. split.
    + eapply nsteps_r; [done|]. exists (rr_ID rel), rel. split; [apply Hrel'|]. split; [|done].
      by apply neighbour_sound in Hn as [? _].
    + intros m Hm Hs. apply (shortest_exists m id Hs). intros k Hk. apply Hfar. lia.
  - intros Hs. pose proof (shortest_visible _ _ Hs) as Hv.
    destruct (shortest_pred _ _ Hs) as (a & Ha & rid & rel & Hr & Ht & Hj & _). apply c_frontier0 in Ha as Ha'.
    assert (nodeSet w !! id = None) as Hnone.
    { apply eq_None_not_Some. intros [res Hres]. apply c_nodes0 in Hres as (_ & n & Hn & Hs').
      pose proof (shortest_unique _ _ _ Hs Hs'). lia. }
    destruct (neighbour_complete _ _ _ _ _ Ht Ha' Hj) as [Hn|[_ Hn]].
    + split; [done|]. split; [done|]. exists rel. split; [|done]. apply Hl. split; [|by eexists].
      by destruct (wf_relation _ inv_wf _ _ Hr) as [-> _].
    + apply c_frontier0 in Hn. pose proof (shortest_unique _ _ _ Hs Hn). lia.
Qed.

Lemma fits_followed hop w (l : list ResourceRelation) rel :
  complete hop w → (∀ rel, rel ∈ l ↔ hop_relations (frontier w) rel) → relations inv !! rr_ID rel = Some rel →
  rel ∈ l ∧ fits (frontier w) rel ↔ ∃ a b, shortest hop a ∧ followed rel a b.
Proof.
  intros [] Hl Hr. split.
  - intros (Hrel & n & Hn & Hv). apply Hl in Hrel. pose proof (neighbour_sound _ _ _ _ Hn) as [Ht _].
    destruct (neighbour_nonzero _ _ _ Hrel Hn) as [(_ & Hf & Hto)|(Hn0 & p & Hp & Hj)].
    + apply c_frontier0 in Hf, Hto. pose proof (shortest_visible _ _ Hf). pose proof (shortest_visible _ _ Hto).
      destruct (decide (tq_Direction query = TopologyDirectionDownstream)) as [Hd|Hd].
      * exists (rr_FromResourceID rel), (rr_ToResourceID rel). split; [done|]. split; [done|]. split; [|done].
        right. split; [rewrite Hd; discriminate|done].
      * exists (rr_ToResourceID rel), (rr_FromResourceID rel). split; [done|]. split; [done|]. split; [by left|done].
    + apply c_frontier0 in Hp. exists p, n. split; [done|]. split; [done|]. split; [done|]. by destruct Hv.
  - intros (a & b & Ha & Ht & Hj & Hv). apply c_frontier0 in Ha.
    destruct (neighbour_complete _ _ _ _ _ Ht Ha Hj) as [Hn|[Hn _]].
    + split; [apply Hl; split; [done|by eexists]|]. exists b. by split; [|right].
    + split; [apply Hl; split; [done|by eexists]|]. exists 0%Z. by split; [|left].
Qed.

Lemma scanned_complete hop w (l : list ResourceRelation) w' :
  complete hop w → (∀ rel, rel ∈ l ↔ hop_relations (frontier w) rel) →
  scanned (nodeSet w) (distance w) (edgeSet w) hop (frontier w) l w' → complete (S hop) w'.
Proof.
  intros Hc Hl []. pose proof Hc as [].
  assert (∀ n (P : nat → Prop), (∃ m, m ≤ S n ∧ P m) ↔ (∃ m, m ≤ n ∧ P m) ∨ P (S n)) as Hsplit.
  { intros n P. split.
    - intros (m & Hm & HP). destruct (decide (m = S n)) as [->|]; [by right|left]. exists m. split; [lia|done].
    - intros [(m & Hm & HP)|HP]; [exists m|exists (S n)]; (split; [lia|done]). }
  assert (∀ id res, resources inv !! id = Some res → is_Some (nodeSet w !! id) ↔ ∃ n, n ≤ hop ∧ shortest n id) as Hn.
  { intros id res Hres. split.
    - intros [r Hr]. by apply c_nodes0 in Hr as [_ ?].
    - intros Hs. exists res. by apply c_nodes0. }
  split.
  - intros id res. rewrite sc_nodes0, Hsplit, (discovered_shortest hop w l id Hc Hl).
    split; intros [Hres H]; (split; [done|]); by rewrite (Hn _ _ Hres) in *.
  - intros id d. rewrite sc_distance0, (discovered_shortest hop w l id Hc Hl), c_distance0.
    rewrite (Hsplit hop (λ n, shortest n id ∧ d = Z.of_nat n)). rewrite Nat2Z.inj_succ. reflexivity.
  - intros id. by rewrite sc_frontier0, (discovered_shortest hop w l id Hc Hl).
  - intros id rel. rewrite sc_edges0, c_edges0. split.
    + intros [Hr Hcase]. split; [done|]. destruct Hcase as [(_ & a & b & n & ? & ?)|Hf].
      * exists a, b, n. split; [lia|done].
      * destruct (wf_relation _ inv_wf _ _ Hr) as [Hid _]. rewrite <- Hid in Hr.
        apply (fits_followed hop w l rel Hc Hl Hr) in Hf as (a & b & ? & ?). exists a, b, hop. split; [lia|done].
    + intros [Hr (a & b & n & Hlt & Hs & Hf)]. split; [done|].
      destruct (decide (n = hop)) as [->|]; [right|left; split; [done|]; exists a, b, n; split; [lia|done]].
      destruct (wf_relation _ inv_wf _ _ Hr) as [Hid _]. rewrite <- Hid in Hr.
      apply (fits_followed hop w l rel Hc Hl Hr). by exists a, b.
Qed.
Lemma collect_grows w l acc : acc ⊆ foldl (collect_pending query w) acc l.
Proof.
  revert acc. induction l as [|rel l IH]; intros acc; cbn; [done|]. etrans; [|apply IH].
  unfold collect_pending. repeat case_match; [done|set_solver|done].
Qed.

(** Every neighbour that is not a node yet is fetched. *)
Lemma pending_contains w l acc rel n :
  rel ∈ l → topologyNeighborID rel (frontier w) query = Some n → n ≠ 0%Z → nodeSet w !! n = None →
  n ∈ foldl (collect_pending query w) acc l.
Proof.
  revert acc. induction l as [|r l IH]; intros acc Hin Hn Hn0 Hnew; [by apply elem_of_nil in Hin|]. cbn.
  apply elem_of_cons in Hin as [->|Hin]; [|by apply IH].
  apply (collect_grows w l). unfold collect_pending. rewrite Hn. case_if as E.
  - apply orb_prop in E as [E|E]; [|by apply contains_spec].
    apply orb_prop in E as [E|E]; bool_inv; [done|]. apply has_spec in E as [? ?]. congruence.
  - apply elem_of_app. right. by left.
Qed.

Lemma selected_hop ids direction relationType rel :
  direction = tq_Direction query → relationType = tq_RelationType query →
  rel ∈ selected_relations inv ids direction relationType ↔ hop_relations ids rel.
Proof.
  intros -> ->. unfold selected_relations, hop_relations. rewrite list_elem_of_filter, selected_neighbour, list_elem_of_fmap.
  split.
  - intros (Hs & [id r] & -> & Hr%elem_of_map_to_list). cbn in *. split; [|done]. by destruct (wf_relation _ inv_wf _ _ Hr) as [-> _].
  - intros [Hr Hs]. split; [done|]. exists (rr_ID rel, rel). split; [done|]. by apply elem_of_map_to_list.
Qed.

(** What a complete walk knows is real. *)
Lemma complete_real hop w : complete hop w →
  nodeSet w ⊆ resources inv ∧ edgeSet w ⊆ relations inv
  ∧ (∀ id, is_Some (nodeSet w !! id) → in_view id)
  ∧ (∀ id, is_Some (distance w !! id) ↔ is_Some (nodeSet w !! id)).
Proof.
  intros []. split; [|split; [|split]].
  - apply map_subseteq_spec. intros id res Hr. by apply c_nodes0 in Hr as [? _].
  - apply map_subseteq_spec. intros id rel Hr. by apply c_edges0 in Hr as [? _].
  - intros id [res Hres]. apply c_nodes0 in Hres as (_ & n & _ & Hs). by eapply shortest_visible.
  - intros id. split.
    + intros [d Hd]. apply c_distance0 in Hd as (n & ? & Hs & ->).
      destruct (shortest_visible _ _ Hs) as (res & Hres & _). exists res. apply c_nodes0. eauto.
    + intros [res Hres]. apply c_nodes0 in Hres as (_ & n & ? & ?). exists (Z.of_nat n). apply c_distance0. eauto.
Qed.

(** The truncated flag is never taken back. *)
Lemma visits_truncated hop current fetched v l :
  truncated v = true → truncated (foldl (visit query hop current fetched) v l) = true.
Proof.
  revert v. induction l as [|r l IH]; intros v Hv; [done|]. apply IH.
  destruct (truncated (visit _ _ _ _ v r)) eqn:E; [done|]. apply visit_truncated in E. congruence.
Qed.

Lemma expand_truncated r1 r2 hop w w' :
  expand r1 r2 query hop w = Ok w' → truncated w = true → truncated w' = true.
Proof.
  unfold expand, repo_result. intros H Ht.
  destruct (ListTopologyRelationsByResourceIDs r1 _ _ _ _) as [found|]; cbn [map_err mbind result_bind] in H; [|done].
  match type of H with mbind _ ?m = _ => destruct m as [fetched|]; cbn [mbind result_bind] in H; [|done] end.
  injection H as <-. apply visits_truncated. cbn. by destruct (_ <? _)%Z.
Qed.

Lemma traverse_truncated repo n hop w w' :
  traverse repo query n hop w = Ok w' → truncated w = true → truncated w' = true.
Proof.
  revert hop w. induction n as [|n IH]; intros hop w; cbn; [by intros [= <-]|].
  case_bool_decide; [by intros [= <-]|]. destruct (expand _ _ query hop w) as [w1|] eqn:Ee; cbn; [|done].
  intros H1 Ht. eapply IH; [done|]. by eapply expand_truncated.
Qed.

Lemma expand_complete r1 r2 hop w w' :
  Reads inv r1 → Reads inv r2 → frontier w ≠ [] → (len (edgeSet w) ≤ TopologyEdgeCap)%Z → complete hop w →
  expand r1 r2 query hop w = Ok w' → truncated w' = false → truncated w = false ∧ complete (S hop) w'.
Proof.
  intros HR1 HR2 Hfr Hcap Hc H Htr. unfold expand, repo_result in H.
  set (budget := (TopologyEdgeCap - len (edgeSet w))%Z) in *.
  destruct (ListTopologyRelationsByResourceIDs r1 _ _ _ _) as [found|] eqn:El; cbn [map_err mbind result_bind] in H; [|done].
  assert (0 < budget + 1)%Z as Hbudget by lia.
  destruct (read_relations _ _ _ _ _ Hfr Hbudget El) as (all & Hall & Hfound).
  match type of H with mbind _ ?m = _ => destruct m as [fetched|] eqn:Ef end; cbn [mbind result_bind] in H; [|done].
  injection H as <-.
  destruct (budget <? Z.of_nat (length found))%Z eqn:Ecut; [by rewrite visits_truncated in Htr|].
  assert (found = all) as ->.
  { rewrite Hfound. apply take_ge. bool_inv. rewrite Hfound, length_take in Ecut. lia. }
  set (rels := sortTopologyRelations all) in *.
  assert (∀ rel, rel ∈ rels ↔ hop_relations (frontier w) rel) as Hrels.
  { intros rel. unfold rels, sortTopologyRelations. rewrite sort_slice_elem, Hall. by apply selected_hop. }
  destruct (complete_real _ _ Hc) as (Hn & He & Hv & Hd).
  destruct (visits_scanned (nodeSet w) (distance w) (edgeSet w) hop (frontier w) fetched Hv Hd rels []
              (Walk (nodeSet w) (edgeSet w) (distance w) (truncated w) [])) as [Ht Hs]; try done.
  - apply Forall_forall. intros rel Hrel. by apply Hrels in Hrel as [? _].
  - intros rel n Hrel Hnb Hn0 Hnew. pose proof (pending_contains w rels [] rel n Hrel Hnb Hn0 Hnew) as Hin.
    destruct (bool_decide _) eqn:Enil; [bool_inv; rewrite Enil in Hin; by apply elem_of_nil in Hin|].
    destruct (GetResourcesByIDs r2 _) as [m|] eqn:Eg; [|done]. injection Ef as <-.
    rewrite (read_resources _ _ Eg). by apply contains_spec in Hin as ->.
  - apply not_visible_zero.
  - by apply scanned_start.
  - split; [done|]. by eapply scanned_complete.
Qed.

Lemma traverse_complete repo n hop w w' :
  (∀ k, Reads inv (repo k)) → hop_ok query rootID (λ _, inv) hop w → complete hop w →
  traverse repo query n hop w = Ok w' → truncated w' = false → complete (hop + n) w'.
Proof.
  intros HR. revert hop w. induction n as [|n IH]; intros hop w Hok Hc; cbn.
  { intros [= <-] _. by rewrite Nat.add_0_r. }
  case_bool_decide as Hfr; [intros [= <-] _; by apply complete_stop|].
  destruct (expand _ _ query hop w) as [w1|] eqn:Ee; cbn; [|done]. intros H1 Ht.
  assert (truncated w1 = false) as Ht1.
  { destruct (truncated w1) eqn:E; [|done]. rewrite (traverse_truncated _ _ _ _ _ H1 E) in Ht. done. }
  rewrite Nat.add_succ_r, <- Nat.add_succ_l. apply (IH (S hop) w1); [|eapply expand_complete; try done; apply Hok|done..].
  refine (expand_ok query rootID (λ _, inv) _ _ _ _ 0 0 hop w w1 (HR _) (HR _) Hfr Hok Ee); [done|].
  intros _ _ id r r' E1 E2. congruence.
Qed.
End completeness.

(** ** Properties *)

(** Every call on the repository answers. *)
Lemma mysql_traverse flagged inv query n hop w :
  is_Some (match traverse (λ _, mysql_repository flagged inv) query n hop w with Ok w => Some w | Err _ => None end).
Proof.
  revert hop w. induction n as [|n IH]; intros hop w; cbn; [by eexists|]. case_bool_decide; [by eexists|].
  unfold expand. cbn. case_bool_decide; apply IH.
Qed.

(** The question is one the service accepts. *)
Definition accepted (inv : inventory) (query : TopologyQuery) : Prop :=
  tq_RootID query ≠ 0%Z
  ∧ (0 ≤ tq_Depth query ≤ MaxTopologyDepth)%Z
  ∧ tq_Direction query ∈ [ []; TopologyDirectionBoth; TopologyDirectionUpstream; TopologyDirectionDownstream ]
  ∧ in_view query inv (tq_RootID query).

Lemma accepted_builds `{MapOrder} flagged inv query :
  wf_inventory inv → accepted inv query →
  ∃ w info, BuildTopology (λ _, mysql_repository flagged inv) query
            = Some (Ok (respond (defaulted query) (tq_RootID query) w info))
    ∧ (truncated w = false → complete (defaulted query) (tq_RootID query) inv (Z.to_nat (tq_Depth (defaulted query))) w).
Proof.
  intros Hwf (Hroot & Hd & Hdir & root & Hres & Henv).
  pose proof (mysql_repository_reads flagged inv) as HR.
  assert (GetResource (mysql_repository flagged inv) (tq_RootID query) = Ok root) as Hget.
  { cbn. unfold mysql_GetResource. by rewrite Hres. }
  destruct (walk_start query inv _ root Hwf HR Hget Henv) as [Hid Hstart].
  destruct (mysql_traverse flagged inv (defaulted query) (Z.to_nat (tq_Depth (defaulted query))) 0
              (Walk {[rs_ID root := root]} ∅ {[rs_ID root := 0%Z]} false [rs_ID root])) as [w Hw].
  destruct (traverse _ _ _ _ _) as [w'|] eqn:Et; [|done]. injection Hw as ->.
  destruct (replication_chain_total (edgeSet w)) as [info Hinfo]. exists w, info. split.
  - unfold BuildTopology. assert (validateTopologyQuery (defaulted query) = Ok ()) as ->.
    { unfold validateTopologyQuery, defaulted. cbn [tq_Depth tq_Direction].
      destruct (Z.eqb_spec (tq_Depth query) 0) as [_|]; rewrite (proj2 (Z.ltb_ge _ _)), (proj2 (Z.ltb_ge _ _)) by (unfold MaxTopologyDepth in *; lia);
        cbn [orb guard_err mbind result_bind]; rewrite bool_decide_eq_true_2; try done;
        case_bool_decide; set_solver. }
    cbn [tq_RootID defaulted tq_EnvironmentID] in *. rewrite (proj2 (Z.eqb_neq _ _) Hroot), Hget.
    assert (negb (tq_EnvironmentID query =? 0)%Z && negb (rs_EnvironmentID root =? tq_EnvironmentID query)%Z = false) as ->.
    { destruct Henv as [->| ->]; [done|]. by rewrite (Z.eqb_refl (tq_EnvironmentID query)), andb_false_r. }
    unfold defaulted in Et |- *. cbn [tq_Depth] in Et |- *. rewrite Et, Hinfo. cbn. by rewrite Hid.
  - intros Ht. rewrite <- (Nat.add_0_l (Z.to_nat _)).
    eapply traverse_complete; [done|by exists root| |apply Hstart| |exact Et|done]; [by intros ?|].
    rewrite Hid. by apply complete_start.
Qed.

(** C24: an accepted question is answered, and an answer that is not marked
    truncated is complete and exact: its nodes are the visible resources within
    the requested depth of the root, each at its shortest distance, and its
    edges are the relations followed from a node nearer than that depth. *)
Theorem topology_complete `{MapOrder} flagged inv query :
  wf_inventory inv → accepted inv query →
  ∃ resp, BuildTopology (λ _, mysql_repository flagged inv) query = Some (Ok resp)
    ∧ (ts_Truncated resp = false →
       let q := defaulted query in
       let depth := Z.to_nat (tq_Depth q) in
       (∀ id d, (∃ node, node ∈ ts_Nodes resp ∧ tn_ID node = id ∧ tn_Distance node = d) ↔
          ∃ n, n ≤ depth ∧ shortest q (tq_RootID query) inv n id ∧ d = Z.of_nat n)
       ∧ (∀ id from to type, (∃ sem, Edge id from to type sem ∈ ts_Edges resp) ↔
          ∃ rel, relations inv !! id = Some rel ∧ rr_FromResourceID rel = from ∧ rr_ToResourceID rel = to
            ∧ rr_RelationType rel = type
            ∧ ∃ a b n, n < depth ∧ shortest q (tq_RootID query) inv n a ∧ followed q inv rel a b)).
Proof.
  intros Hwf Hacc. destruct (accepted_builds flagged inv query Hwf Hacc) as (w & info & Hb & Hc).
  eexists. split; [exact Hb|]. intros Ht. specialize (Hc Ht). destruct Hc. cbv zeta. split.
  - intros id d. setoid_rewrite response_node. split.
    + intros (node & (id' & res & Hres & ->) & Hid & Hd). cbn in Hid, Hd. subst id'.
      apply c_nodes0 in Hres as (_ & n & Hn & Hs). exists n. split; [done|]. split; [done|].
      assert (distance w !! id = Some (Z.of_nat n)) as Hdist by (apply c_distance0; eauto). rewrite Hdist in Hd. by subst d.
    + intros (n & Hn & Hs & ->). pose proof Hacc as (_ & _ & _ & Hv). destruct (shortest_visible (defaulted query) _ inv Hv _ _ Hs) as (res & Hres & _).
      eexists. split; [exists id, res; split; [apply c_nodes0; eauto|done]|]. split; [done|]. cbn.
      assert (distance w !! id = Some (Z.of_nat n)) as -> by (apply c_distance0; eauto). done.
  - intros id from to type. setoid_rewrite response_edge. split.
    + intros (sem & id' & rel & Hrel & [= -> -> -> -> ->]). apply c_edges0 in Hrel as [Hrel Hf]. exists rel.
      destruct (wf_relation _ Hwf _ _ Hrel) as [-> _]. done.
    + intros (rel & Hrel & <- & <- & <- & Hf). destruct (wf_relation _ Hwf _ _ Hrel) as [<- _].
      eexists _, (rr_ID rel), rel. split; [|done]. by apply c_edges0.
Qed.

(** ** Examples *)

Definition in_order : MapOrder := {| order _ _ l := l; order_perm _ _ _ := Permutation_refl _ |}.

Definition sample_resource (id : Z) (type : bytes) : Resource :=
  MkResource id type [] (gs "r-" ++ format_uint id) [] 1 1 LifecycleStatusRunning HealthStatusHealthy None
    ResourceOriginManual [] [] ∅ None None.
Definition sample_inventory (rs : list (Z * bytes)) (rels : list (Z * Z * bytes)) : inventory := Inventory
  (list_to_map ((λ '(id, type), (id, sample_resource id type)) <$> rs))
  (list_to_map (imap (λ i '(from, to, type), (Z.of_nat i + 1, Relation (Z.of_nat i + 1) from to type 0)%Z) rels)).

(** [wf_inventory], by evaluation. *)
Definition wf_check (inv : inventory) : bool :=
  forallb (λ '(id, res), (rs_ID res =? id)%Z && negb (id =? 0)%Z) (map_to_list (resources inv))
  && forallb (λ '(id, rel), (rr_ID rel =? id)%Z && negb (rr_FromResourceID rel =? 0)%Z && negb (rr_ToResourceID rel =? 0)%Z)
       (map_to_list (relations inv)).
Lemma wf_check_sound inv : wf_check inv = true → wf_inventory inv.
Proof.
  unfold wf_check. rewrite andb_true_iff, !forallb_forall. intros [H1 H2]. split.
  - intros id res Hr%elem_of_map_to_list%list_elem_of_In%H1. by bool_inv.
  - intros id rel Hr%elem_of_map_to_list%list_elem_of_In%H2. by bool_inv.
Qed.

(** A service on a cluster of one primary and its replica. *)
Definition small_inventory : inventory := sample_inventory
  [(1, ResourceTypeService); (2, ResourceTypeDatabaseCluster); (3, ResourceTypeDatabaseInstance); (4, ResourceTypeDatabaseInstance)]%Z
  [(1, 2, RelationTypeDependsOn); (3, 2, RelationTypeMemberOf); (4, 2, RelationTypeMemberOf); (3, 4, RelationTypeReplicatesTo)]%Z.
Definition from_service : TopologyQuery := Query 1 1 0 [] [].

Lemma topology_complete_witness :
  wf_inventory small_inventory ∧ accepted small_inventory from_service ∧
  ∃ n, n ≤ 2 ∧ shortest (defaulted from_service) 1 small_inventory n 4.
Proof.
  assert (wf_inventory small_inventory) as Hwf by (apply wf_check_sound; vm_compute; reflexivity).
  assert (accepted small_inventory from_service) as Hacc.
  { split; [done|]. split; [done|]. split; [by left|]. eexists. split; [vm_compute; reflexivity|]. by right. }
  split; [exact Hwf|]. split; [exact Hacc|].
  destruct (@topology_complete in_order (λ _, false) small_inventory from_service Hwf Hacc) as (resp & Hb & Hc).
  vm_compute in Hb. injection Hb as <-. destruct (Hc eq_refl) as [Hn _].
  destruct (proj1 (Hn 4%Z 2%Z)) as (n & Hle & Hs & _); [|by exists n].
  eexists. split; [do 3 right; left|]. done.
Defined.

(** A cluster of 101 instances, each a member of it that also depends on it;
    the first instance runs on a host. *)
Definition fleet_host : Z := 103.
Definition fleet_ids : list Z := (λ i, Z.of_nat i + 2)%Z <$> seq 0 101.
Definition fleet : inventory := sample_inventory
  ((1, ResourceTypeDatabaseCluster)%Z :: (fleet_host, ResourceTypeHost) :: ((λ i, (i, ResourceTypeDatabaseInstance)) <$> fleet_ids))
  (((λ i, (i, 1, RelationTypeMemberOf)%Z) <$> fleet_ids) ++ ((λ i, (i, 1, RelationTypeDependsOn)%Z) <$> fleet_ids)
   ++ [(2%Z, fleet_host, RelationTypeRunsOn)]).
Definition from_cluster : TopologyQuery := Query 0 1 2 TopologyDirectionBoth [].

(** Without filters any relation links its ends, either way. *)
Lemma link_unfiltered query inv a b rid rel :
  tq_EnvironmentID query = 0%Z → tq_RelationType query = [] → tq_Direction query = TopologyDirectionBoth →
  relations inv !! rid = Some rel →
  (rr_FromResourceID rel = a ∧ rr_ToResourceID rel = b) ∨ (rr_FromResourceID rel = b ∧ rr_ToResourceID rel = a) →
  is_Some (resources inv !! b) → link query inv a b.
Proof.
  intros He Ht Hd Hrel Hends [res Hres]. exists rid, rel. split; [exact Hrel|]. split; [by left|].
  split; [|exists res; split; [exact Hres|by left]]. unfold joins. rewrite Hd. destruct Hends as [[? ?]|[? ?]]; [right|left]; (split; [discriminate|auto]).
Qed.

Definition cut_short (resp : TopologyResponse) : bool :=
  ts_Truncated resp && negb (contains (tn_ID <$> ts_Nodes resp) fleet_host)
  && (Z.of_nat (length (ts_Nodes resp)) =? 102)%Z && (Z.of_nat (length (ts_Edges resp)) =? 202)%Z.

(** the edge budget of a hop also counts the relations earlier hops already
    returned, so a graph well inside both caps is cut short: of 103 resources and
    203 relations, all within two hops of the root, the traversal marks its
    answer truncated and leaves out the host that the first instance runs on. *)
Theorem topology_budget_recounted :
  wf_inventory fleet ∧ accepted fleet from_cluster
  ∧ (Z.of_nat (size (resources fleet)) = 103 ∧ Z.of_nat (size (relations fleet)) = 203)%Z
  ∧ nsteps (link from_cluster fleet) 2 1%Z fleet_host
  ∧ ∃ resp, @BuildTopology in_order (λ _, mysql_repository (λ _, false) fleet) from_cluster = Some (Ok resp)
      ∧ ts_Truncated resp = true ∧ fleet_host ∉ tn_ID <$> ts_Nodes resp
      ∧ (Z.of_nat (length (ts_Nodes resp)) = 102 ∧ Z.of_nat (length (ts_Edges resp)) = 202)%Z.
Proof.
  split; [apply wf_check_sound; vm_compute; reflexivity|]. split.
  { split; [done|]. split; [done|]. split; [by right; left|]. eexists. split; [vm_compute; reflexivity|]. by left. }
  split; [vm_compute; done|]. split.
  { apply (nsteps_l _ _ _ 2%Z).
    - eapply (link_unfiltered _ _ _ _ 1%Z); [done..| | |]; [vm_compute; reflexivity|right; done|vm_compute; by eexists].
    - apply nsteps_once. eapply (link_unfiltered _ _ _ _ 203%Z); [done..| | |]; [vm_compute; reflexivity|left; done|vm_compute; by eexists]. }
  assert (from_option (λ r, match r with Ok resp => cut_short resp | Err _ => false end) false
            (@BuildTopology in_order (λ _, mysql_repository (λ _, false) fleet) from_cluster) = true) as Hall
    by (vm_compute; reflexivity).
  destruct (BuildTopology _ _) as [[resp|e]|]; [|done..]. exists resp. split; [done|]. cbn in Hall.
  unfold cut_short in Hall. bool_inv. split; [done|]. split; [|done]. by rewrite <- contains_spec, not_true_iff_false.
Qed.

Lemma topology_bounded_closed_witness :
  wf_inventory small_inventory ∧ tq_RootID from_service ≠ 0%Z ∧
  ∃ resp, @BuildTopology in_order (λ _, mysql_repository (λ _, false) small_inventory) from_service = Some (Ok resp)
    ∧ length (tn_ID <$> ts_Nodes resp) ≤ 200 ∧ length (ts_Edges resp) ≤ 400.
Proof.
  assert (wf_inventory small_inventory) as Hwf by (apply wf_check_sound; vm_compute; reflexivity).
  split; [exact Hwf|]. split; [done|].
  destruct (@BuildTopology in_order (λ _, mysql_repository (λ _, false) small_inventory) from_service)
    as [[resp|e]|] eqn:Hb; [|vm_compute in Hb; discriminate..].
  exists resp. split; [reflexivity|].
  destruct (@topology_bounded_closed in_order (λ _, small_inventory) (λ _, mysql_repository (λ _, false) small_inventory)
              from_service resp) as (_ & Hn & _ & He & _); [by intros _|..].
  - intros _ _ id r r' H1 H2. congruence.
  - intros k. apply mysql_repository_reads.
  - done.
  - exact Hb.
  - exact (conj Hn He).
Defined.

(** Two replication sources of one instance: the parent it is given, and so the
    response, follows the order in which the sources are walked. *)
Definition sources_last_first : MapOrder.
Proof.
  refine {| order site _ l := if (site =? 1)%nat then reverse l else l |}.
  intros site A l. destruct (site =? 1)%nat; [apply reverse_Permutation|done].
Defined.
Definition two_sources : gmap Z ResourceRelation :=
  list_to_map [(1, Relation 1 1 3 RelationTypeReplicatesTo 0); (2, Relation 2 2 3 RelationTypeReplicatesTo 0)]%Z.

(** the replication parent reported for an instance with two sources
    depends on the order in which Go happens to walk its maps: the same edges
    give one parent or the other. *)
Theorem replication_parent_unstable :
  ∃ e1 e2 info1 info2,
    @computeReplicationChain in_order two_sources = Some info1
    ∧ @computeReplicationChain sources_last_first two_sources = Some info2
    ∧ info1 !! 3%Z = Some e1 ∧ info2 !! 3%Z = Some e2 ∧ re_parentID e1 ≠ re_parentID e2.
Proof.
  eexists _, _, _, _. split; [vm_compute; reflexivity|]. split; [vm_compute; reflexivity|].
  split; [vm_compute; reflexivity|]. split; [vm_compute; reflexivity|]. done.
Qed.
