(* ===== verification/PgDsn.v ===== *)
(** * PostgreSQL DSN binding

    [service/pg_dsn_binding.go]: the lexer of keyword/value connection strings,
    the decoding of the URI form, and the check that binds a DSN to one target
    endpoint and database. [net/url] and the pgx configuration parser are
    parameters. *)
From S2P Require Import Prelude GoText ExecModel TargetAccess.

Inductive dsn_error : Type :=
  | DSNInvalidKeyword | DSNInvalidKeywordValue | DSNUnterminated
  | DSNPercentEncoding | DSNRawSpace | DSNQueryParameter
  | DSNInvalid | DSNMissing (key : bytes)
  | DSNMultipleEndpoints | DSNUnixSocket | DSNBadPort
  | DSNUnsafeOption | DSNDiverged | DSNSingleEndpoint
  | DSNHostMismatch | DSNPortMismatch | DSNDatabaseMismatch.

(** ** The keyword/value form *)

Definition pgConnInfoSpace : list byte := bz <$> [32; 9; 10; 11; 12; 13]%Z.
Definition is_space (c : byte) : bool := bool_decide (c ∈ pgConnInfoSpace).

(** [strings.TrimLeft(s, pgConnInfoSpace)] and [strings.Trim]. *)
Fixpoint skip_conn_space (s : bytes) : bytes :=
  match s with
  | c :: t => if is_space c then skip_conn_space t else s
  | [] => []
  end.
Definition trim_both (s : bytes) : bytes := reverse (skip_conn_space (reverse (skip_conn_space s))).

Definition single_quote : byte := bz 39.
Definition back_slash : byte := bz 92.

Fixpoint unescapePGKeywordValue (raw : bytes) : bytes :=
  match raw with
  | [] => []
  | c :: t => if c =?b back_slash
              then match t with d :: t => d :: unescapePGKeywordValue t | [] => [] end
              else c :: unescapePGKeywordValue t
  end.

(** The index of the closing single_quote; [None] is an unterminated string. *)
Fixpoint quoted_end (s : bytes) : option nat :=
  match s with
  | [] => None
  | c :: t =>
      if c =?b single_quote then Some 0
      else if c =?b back_slash then
        match t with [] => None | _ :: t => (λ n, S (S n)) <$> quoted_end t end
      else S <$> quoted_end t
  end.

(** The index of the whitespace that ends an unquoted value. *)
Fixpoint unquoted_end (s : bytes) : nat :=
  match s with
  | [] => 0
  | c :: t =>
      if is_space c then 0
      else if c =?b back_slash then match t with [] => 1 | _ :: t => S (S (unquoted_end t)) end
      else S (unquoted_end t)
  end.

(** The value after a key's [=], and what follows it. *)
Definition lex_value (s : bytes) : result dsn_error (bytes * bytes) :=
  match s with
  | c :: t =>
      if c =?b single_quote then
        match quoted_end t with
        | None => Err DSNUnterminated
        | Some e => Ok (unescapePGKeywordValue (take e t), skip_conn_space (drop (S e) t))
        end
      else Ok (unescapePGKeywordValue (take (unquoted_end s) s), skip_conn_space (drop (unquoted_end s) s))
  | [] => Ok ([], [])
  end.

Definition pgCanonicalField (key : bytes) : bytes := if key =?b gs "dbname" then gs "database" else key.

(** The loop of [parsePGConnInfo]: each turn consumes at least its [=]. *)
Fixpoint conninfo_loop (fuel : nat) (s : bytes) (out : gmap bytes bytes) : result dsn_error (gmap bytes bytes) :=
  match s, fuel with
  | [], _ => Ok out
  | _, O => Err DSNInvalidKeywordValue
  | _, S fuel =>
      match index_byte "="%char s with
      | None => Err DSNInvalidKeywordValue
      | Some eq =>
          let key := trim_both (take eq s) in
          if (key =?b []) || existsb is_space key then Err DSNInvalidKeyword
          else
            '(val, rest) ← lex_value (skip_conn_space (drop (S eq) s));
            conninfo_loop fuel rest (<[pgCanonicalField key := val]> out)
      end
  end.
Definition parsePGConnInfo (dsn : bytes) : result dsn_error (gmap bytes bytes) :=
  conninfo_loop (length dsn) (skip_conn_space dsn) ∅.

(** ** The URI form *)

Definition pgHexDigit (c : byte) : option Z :=
  if in_range 48 57 c then Some (bv c - 48)%Z
  else if in_range 97 102 c then Some (bv c - 97 + 10)%Z
  else if in_range 65 70 c then Some (bv c - 65 + 10)%Z
  else None.

Fixpoint skip_blank (s : bytes) : bytes :=
  match s with
  | c :: t => if c =?b " "%char then skip_blank t else s
  | [] => []
  end.

(** The middle loop of [pgURIDecode]: up to a raw space, with what follows. *)
Fixpoint uri_decode_loop (s : bytes) : result dsn_error (bytes * bytes) :=
  match s with
  | [] => Ok ([], [])
  | c :: t =>
      if c =?b " "%char then Ok ([], s)
      else if c =?b "%"%char then
        match t with
        | h :: l :: t =>
            match pgHexDigit h, pgHexDigit l with
            | Some hi, Some lo =>
                if (Z.lor (Z.shiftl hi 4) lo =? 0)%Z then Err DSNPercentEncoding
                else '(v, rest) ← uri_decode_loop t; Ok (bz (Z.lor (Z.shiftl hi 4) lo) :: v, rest)
            | _, _ => Err DSNPercentEncoding
            end
        | _ => Err DSNPercentEncoding
        end
      else '(v, rest) ← uri_decode_loop t; Ok (c :: v, rest)
  end.
Definition pgURIDecode (raw : bytes) : result dsn_error bytes :=
  '(v, rest) ← uri_decode_loop (skip_blank raw);
  _ ← guard_err (negb (skip_blank rest =?b [])) DSNRawSpace;
  Ok v.

(** What [url.Parse] reports of a URI: [Userinfo] already decoded. *)
Record parsed_url : Type := ParsedURL {
  pu_User : option (bytes * bytes);
  pu_Host : bytes;
  pu_Port : bytes;
  pu_EscapedPath : bytes;
  pu_RawQuery : bytes;
}.

(** [strings.Cut] *)
Definition cut (c : byte) (s : bytes) : bytes * option bytes :=
  match index_byte c s with Some i => (take i s, Some (drop (S i) s)) | None => (s, None) end.

Fixpoint uri_params (fuel : nat) (params : bytes) (fields : gmap bytes bytes) : result dsn_error (gmap bytes bytes) :=
  match params, fuel with
  | [], _ => Ok fields
  | _, O => Err DSNQueryParameter
  | _, S fuel =>
      let '(param, rest) := cut "&"%char params in
      let params := default [] rest in
      match cut "="%char param with
      | (_, None) => Err DSNQueryParameter
      | (rawKey, Some rawValue) =>
          _ ← guard_err (contains_byte "="%char rawValue) DSNQueryParameter;
          key ← pgURIDecode rawKey;
          value ← pgURIDecode rawValue;
          uri_params fuel params (<[pgCanonicalField key := value]> fields)
      end
  end.

Definition raw_host (host : bytes) : bytes :=
  let rawHost := match index_byte ":"%char host with
                 | Some i => if is_prefix ["["%char] host then host else take i host
                 | None => host
                 end in
  if is_prefix ["["%char] rawHost then
    match index_byte "]"%char rawHost with Some e => slice 1 e rawHost | None => rawHost end
  else rawHost.

Definition trim_slash (s : bytes) : bytes := match s with c :: t => if c =?b "/"%char then t else s | [] => [] end.

Definition pgURIExplicitFields (u : parsed_url) : result dsn_error (gmap bytes bytes) :=
  let fields : gmap bytes bytes := match pu_User u with
                | Some (user, password) => <[gs "password" := password]> (<[gs "user" := user]> ∅)
                | None => ∅
                end in
  host ← pgURIDecode (raw_host (pu_Host u));
  port ← pgURIDecode (pu_Port u);
  database ← pgURIDecode (trim_slash (pu_EscapedPath u));
  uri_params (length (pu_RawQuery u)) (pu_RawQuery u)
    (<[gs "database" := database]> (<[gs "port" := port]> (<[gs "host" := host]> fields))).

(** ** The binding *)

Definition allowedPGDSNKeys : list bytes :=
  [ gs "user"; gs "password"; gs "host"; gs "port"; gs "dbname"; gs "sslmode"; gs "sslcert"; gs "sslkey"; gs "sslrootcert";
    gs "sslsni"; gs "connect_timeout"; gs "application_name"; gs "target_session_attrs"; gs "krbsrvname" ].
Definition allowedPGRuntimeParams : list bytes := [ gs "application_name" ].

(** The fields of [pgx.ConnConfig] the check reads. *)
Record pgx_config : Type := PgxConfig {
  pc_Host : bytes;
  pc_Port : Z;
  pc_Database : bytes;
  pc_User : bytes;
  pc_Password : bytes;
  pc_RuntimeParams : list bytes;        (** the keys of the map *)
  pc_Fallbacks : list (bytes * Z);
}.

Section binding.
(** [url.Parse], and [pgx.ParseConfigWithOptions] with an allowed-key list. *)
Context (url_parse : bytes → option parsed_url) (parse_config : list bytes → bytes → option pgx_config).

Definition pgExplicitFields (dsn : bytes) : result dsn_error (gmap bytes bytes) :=
  if is_prefix (gs "postgres://") dsn || is_prefix (gs "postgresql://") dsn then
    match url_parse dsn with
    | None => Err DSNInvalid
    | Some u => pgURIExplicitFields u
    end
  else parsePGConnInfo dsn.

(** [fields[key]], the empty string when absent. *)
Definition field (fields : gmap bytes bytes) (key : bytes) : bytes := default [] (fields !! key).

Definition port_ok (text : bytes) : bool :=
  match parse_int text with Some p => (1 <=? p)%Z && (p <=? 65535)%Z | None => false end.

Definition validatePGDSNBinding (dsn host : bytes) (port : Z) (databaseName : bytes) : result dsn_error pgx_config :=
  fields ← pgExplicitFields dsn;
  _ ← for_each (λ key, guard_err (field fields key =?b []) (DSNMissing key))
        [gs "user"; gs "password"; gs "host"; gs "port"; gs "database"];
  _ ← guard_err (contains_byte ","%char (field fields (gs "host")) || contains_byte ","%char (field fields (gs "port")))
        DSNMultipleEndpoints;
  _ ← guard_err (is_prefix (gs "/") (field fields (gs "host"))) DSNUnixSocket;
  _ ← guard_err (is_prefix (gs "@") (field fields (gs "host"))) DSNUnixSocket;
  _ ← guard_err (negb (port_ok (field fields (gs "port")))) DSNBadPort;
  match parse_config allowedPGDSNKeys dsn with
  | None => Err DSNInvalid
  | Some cfg =>
      _ ← guard_err (negb (forallb (λ k, bool_decide (k ∈ allowedPGRuntimeParams)) (pc_RuntimeParams cfg))) DSNUnsafeOption;
      _ ← guard_err (is_prefix (gs "/") (pc_Host cfg) || is_prefix (gs "@") (pc_Host cfg)) DSNUnixSocket;
      _ ← guard_err (negb (pc_User cfg =?b field fields (gs "user"))
                     || negb (pc_Password cfg =?b field fields (gs "password"))
                     || negb (pc_Host cfg =?b field fields (gs "host"))
                     || negb (pc_Database cfg =?b field fields (gs "database"))) DSNDiverged;
      _ ← guard_err (match parse_int (field fields (gs "port")) with
                     | Some p => negb (p =? pc_Port cfg)%Z
                     | None => true
                     end) DSNDiverged;
      _ ← guard_err (existsb (λ '(h, p), negb (h =?b pc_Host cfg) || negb (p =? pc_Port cfg)%Z) (pc_Fallbacks cfg))
            DSNSingleEndpoint;
      _ ← guard_err (negb (pc_Host cfg =?b host)) DSNHostMismatch;
      _ ← guard_err (negb (pc_Port cfg =? port)%Z) DSNPortMismatch;
      _ ← guard_err (negb (pc_Database cfg =?b databaseName)) DSNDatabaseMismatch;
      Ok cfg
  end.

Definition validatePGDSNBindingForTarget (dsn : bytes) (target : QueryTarget) (databaseName : bytes) :
    result dsn_error pgx_config :=
  validatePGDSNBinding dsn (tg_Host target) (tg_Port target) databaseName.

(** The resolver's environment with this check as its PostgreSQL binding. *)
Definition binding_env (env : access_env) : access_env :=
  AccessEnv (ae_targets env) (ae_credential env) (ae_secret env) (ae_parse_dsn env)
    (λ dsn target database, is_ok (validatePGDSNBindingForTarget dsn target database)).
End binding.

(** ** Round trips *)

(** A keyword/value string as a careful client writes it: every value quoted,
    with quotes and backslashes escaped. *)
Definition needs_escape (c : byte) : bool := (c =?b single_quote) || (c =?b back_slash).
Fixpoint escape_value (v : bytes) : bytes :=
  match v with
  | [] => []
  | c :: t => if needs_escape c then back_slash :: c :: escape_value t else c :: escape_value t
  end.
Definition write_pair (kv : bytes * bytes) : bytes := kv.1 ++ "="%char :: single_quote :: escape_value kv.2 ++ [single_quote].
Definition write_conninfo (kvs : list (bytes * bytes)) : bytes := mjoin ((λ kv, write_pair kv ++ [" "%char]) <$> kvs).

(** Keys are bare words. *)
Definition key_ok (key : bytes) : Prop := key ≠ [] ∧ Forall (λ c, is_space c = false ∧ c ≠ "="%char) key.

Lemma needs_escape_false c : needs_escape c = false → (c =?b single_quote) = false ∧ (c =?b back_slash) = false.
Proof. apply orb_false_elim. Qed.

Lemma quoted_end_escape v t : quoted_end (escape_value v ++ single_quote :: t) = Some (length (escape_value v)).
Proof.
  induction v as [|c v IH]; [done|]. cbn [escape_value]. destruct (needs_escape c) eqn:E; cbn [app quoted_end length].
  - change (back_slash =?b single_quote) with false. change (back_slash =?b back_slash) with true. cbv iota. by rewrite IH.
  - apply needs_escape_false in E as [-> ->]. by rewrite IH.
Qed.

Lemma unescape_escape v : unescapePGKeywordValue (escape_value v) = v.
Proof.
  induction v as [|c v IH]; [done|]. cbn [escape_value].
  destruct (needs_escape c) eqn:E; cbn [unescapePGKeywordValue].
  - change (back_slash =?b back_slash) with true. cbv iota. by rewrite IH.
  - apply needs_escape_false in E as [_ ->]. by rewrite IH.
Qed.

Lemma lex_written v rest : lex_value (single_quote :: escape_value v ++ single_quote :: rest) = Ok (v, skip_conn_space rest).
Proof.
  unfold lex_value. rewrite (bool_decide_eq_true_2 (single_quote = single_quote)) by done. rewrite quoted_end_escape, take_app_length, unescape_escape.
  f_equal. f_equal. rewrite cons_middle, (assoc_L (++)), drop_app_length'; [done|]. rewrite length_app. cbn. lia.
Qed.

Lemma skip_conn_space_key key t : key_ok key → skip_conn_space (key ++ t) = key ++ t.
Proof. intros [Hne Hk]. destruct key as [|c key]; [done|]. apply Forall_cons in Hk as [[Hc _] _]. cbn. by rewrite Hc. Qed.

Lemma trim_key key : key_ok key → trim_both key = key.
Proof.
  intros Hk. unfold trim_both. rewrite <- (app_nil_r key), skip_conn_space_key, app_nil_r by done.
  rewrite <- (app_nil_r (reverse key)), skip_conn_space_key, app_nil_r by (destruct Hk as [Hne Hk]; split;
    [by intros H%(f_equal reverse); rewrite reverse_involutive in H|by apply Forall_reverse]). apply reverse_involutive.
Qed.

Lemma index_byte_key key t : key_ok key → index_byte "="%char (key ++ "="%char :: t) = Some (length key).
Proof.
  intros [_ Hk]. induction Hk as [|c key [_ Hc] _ IH]; [done|]. unfold index_byte in *. cbn [app list_find].
  rewrite decide_False by done. destruct (list_find _ (key ++ _)) as [[i d]|]; [|done]. cbn. by injection IH as ->.
Qed.

Lemma length_skip_space s : length (skip_conn_space s) ≤ length s.
Proof. induction s as [|c s IH]; cbn; [done|]. destruct (is_space c); cbn; lia. Qed.

Lemma skip_conn_space_idemp s : skip_conn_space (skip_conn_space s) = skip_conn_space s.
Proof. induction s as [|c s IH]; [done|]. cbn. destruct (is_space c) eqn:E; [done|]. cbn. by rewrite E. Qed.

Lemma key_has_no_space key : key_ok key → existsb is_space key = false.
Proof.
  intros [_ Hk]. induction Hk as [|c key [Hc _] _ IH]; [done|]. cbn. by rewrite Hc, IH.
Qed.

(** One written pair is one turn of the loop. *)
Lemma conninfo_loop_pair fuel key v s out :
  key_ok key →
  conninfo_loop (S fuel) (write_pair (key, v) ++ s) out =
  conninfo_loop fuel (skip_conn_space s) (<[pgCanonicalField key := v]> out).
Proof.
  intros Hk. set (tail := single_quote :: escape_value v ++ single_quote :: s).
  assert (write_pair (key, v) ++ s = key ++ "="%char :: tail) as ->
    by (unfold write_pair, tail; cbn; by rewrite <- !(assoc_L (++)); cbn; rewrite <- (assoc_L (++))).
  assert (∃ c t, key ++ "="%char :: tail = c :: t) as (c & t & Hct) by (destruct key; eauto).
  rewrite Hct at 1. cbn [conninfo_loop]. rewrite <- Hct. rewrite index_byte_key, take_app_length, trim_key by done.
  rewrite (bool_decide_eq_false_2 (key = [])) by apply Hk. rewrite key_has_no_space by done. cbn [orb].
  rewrite cons_middle, (assoc_L (++)), drop_app_length' by (rewrite length_app; cbn; lia).
  unfold tail. cbn [skip_conn_space]. change (is_space single_quote) with false. cbv iota. by rewrite lex_written.
Qed.

Definition set_field (fields : gmap bytes bytes) (kv : bytes * bytes) : gmap bytes bytes :=
  <[pgCanonicalField kv.1 := kv.2]> fields.

Lemma write_conninfo_cons kv kvs : write_conninfo (kv :: kvs) = write_pair kv ++ " "%char :: write_conninfo kvs.
Proof. unfold write_conninfo. cbn [fmap list_fmap mjoin list_join]. by rewrite <- (assoc_L (++)). Qed.

Lemma skip_conn_space_write kvs :
  Forall (λ kv, key_ok kv.1) kvs → skip_conn_space (write_conninfo kvs) = write_conninfo kvs.
Proof.
  intros H. destruct kvs as [|[k v] kvs]; [done|]. apply Forall_cons in H as [Hk _]. rewrite write_conninfo_cons.
  unfold write_pair. rewrite <- !(assoc_L (++)). by apply skip_conn_space_key.
Qed.

Lemma conninfo_loop_write kvs fuel out :
  Forall (λ kv, key_ok kv.1) kvs → length kvs ≤ fuel →
  conninfo_loop fuel (write_conninfo kvs) out = Ok (foldl set_field out kvs).
Proof.
  revert fuel out. induction kvs as [|[k v] kvs IH]; intros fuel out H Hf; [by destruct fuel|].
  apply Forall_cons in H as [Hk H]. cbn in Hf. destruct fuel as [|fuel]; [lia|].
  rewrite write_conninfo_cons, conninfo_loop_pair by done. cbn [skip_conn_space]. change (is_space " "%char) with true.
  cbv iota. rewrite skip_conn_space_write by done. apply IH; [done|by apply le_S_n].
Qed.

Lemma length_write_conninfo kvs : length kvs ≤ length (write_conninfo kvs).
Proof. induction kvs as [|kv kvs IH]; [done|]. rewrite write_conninfo_cons, length_app. cbn [length]. lia. Qed.

(** The keyword/value lexer reads back what a careful client writes: when
    the keys are bare words, a string of [key='value'] pairs — quotes and
    backslashes of the values escaped, the values otherwise arbitrary bytes,
    spaces and [=] included — parses to exactly those pairs, a later spelling of
    the database key ([dbname] or [database]) superseding an earlier one. *)
Theorem conninfo_round_trip kvs :
  Forall (λ kv, key_ok kv.1) kvs →
  parsePGConnInfo (write_conninfo kvs) = Ok (foldl set_field ∅ kvs).
Proof.
  intros H. unfold parsePGConnInfo. rewrite skip_conn_space_write by done.
  apply conninfo_loop_write; [done|apply length_write_conninfo].
Qed.

Definition two_pairs : list (bytes * bytes) := [(gs "dbname", gs "it's \ odd"); (gs "database", gs "a = b")].

Lemma conninfo_round_trip_witness :
  parsePGConnInfo (write_conninfo two_pairs) = Ok {[gs "database" := gs "a = b"]}.
Proof.
  rewrite (conninfo_round_trip two_pairs); [vm_compute; reflexivity|].
  repeat constructor; by vm_compute.
Defined.

(** ** The binding check *)

Section checked.
Context (url_parse : bytes → option parsed_url) (parse_config : list bytes → bytes → option pgx_config).
Notation validate := (validatePGDSNBinding url_parse parse_config).

Definition required_fields : list bytes := [gs "user"; gs "password"; gs "host"; gs "port"; gs "database"].

(** What a bound connection string guarantees of the one parsed configuration
    the callers use. *)
Record dsn_bound (dsn host : bytes) (port : Z) (database : bytes) (cfg : pgx_config) : Prop := {
  bound_driver : parse_config allowedPGDSNKeys dsn = Some cfg;
  bound_host : pc_Host cfg = host;
  bound_port : pc_Port cfg = port;
  bound_database : pc_Database cfg = database;
  bound_tcp : is_prefix (gs "/") host = false ∧ is_prefix (gs "@") host = false ∧ (1 <= port <= 65535)%Z;
  bound_single : Forall (λ f, f = (host, port)) (pc_Fallbacks cfg);
  bound_params : Forall (λ k, k = gs "application_name") (pc_RuntimeParams cfg);
  bound_explicit : ∃ fields, pgExplicitFields url_parse dsn = Ok fields
    ∧ Forall (λ key, ∃ v, fields !! key = Some v ∧ v ≠ []) required_fields
    ∧ fields !! gs "user" = Some (pc_User cfg) ∧ fields !! gs "password" = Some (pc_Password cfg)
    ∧ fields !! gs "host" = Some host ∧ fields !! gs "database" = Some database
    ∧ ∃ text, fields !! gs "port" = Some text ∧ parse_int text = Some port;
}.

Lemma for_each_guard {A E} (bad : A → bool) (e : A → E) l :
  for_each (λ x, guard_err (bad x) (e x)) l = Ok tt → Forall (λ x, bad x = false) l.
Proof. induction l as [|x l IH]; [by constructor|]. cbn. intros H. res_inv. constructor; [done|]. by apply IH. Qed.

Lemma field_present fields key : field fields key ≠ [] → fields !! key = Some (field fields key).
Proof. unfold field. by destruct (fields !! key). Qed.

Lemma forallb_runtime ks :
  forallb (λ k, bool_decide (k ∈ allowedPGRuntimeParams)) ks = true → Forall (λ k, k = gs "application_name") ks.
Proof.
  intros H. apply Forall_forall. intros k Hk. apply forallb_forall with (x := k) in H; [|by apply list_elem_of_In].
  apply bool_decide_eq_true in H. by apply list_elem_of_singleton in H.
Qed.

Lemma existsb_fallbacks (h : bytes) (p : Z) fs :
  existsb (λ '(h', p'), negb (h' =?b h) || negb (p' =? p)%Z) fs = false → Forall (λ f, f = (h, p)) fs.
Proof.
  induction fs as [|[h' p'] fs IH]; [by constructor|]. cbn. intros [H Hr]%orb_false_elim.
  constructor; [|by apply IH]. bool_inv. by subst.
Qed.

Lemma validate_bound dsn host port database cfg :
  validate dsn host port database = Ok cfg → dsn_bound dsn host port database cfg.
Proof.
  unfold validatePGDSNBinding. intros H. res_step. rename a into fields. res_inv. unit_inv.
  destruct (parse_config allowedPGDSNKeys dsn) as [cfg'|] eqn:Ec; [|done]. res_inv. unit_inv. bool_inv. subst.
  apply for_each_guard in E0. unfold port_ok in *.
  destruct (parse_int (field fields (gs "port"))) as [p|] eqn:Ep; [|done]. bool_inv. subst.
  split; auto using forallb_runtime, existsb_fallbacks; try done.
  assert (Hp : ∀ k, k ∈ required_fields → field fields k ≠ [] ∧ fields !! k = Some (field fields k)).
  { intros k Hk. rewrite Forall_forall in E0. specialize (E0 k Hk). bool_inv. split; [done|by apply field_present]. }
  exists fields. split; [done|]. split; [apply Forall_forall; intros k Hk; specialize (Hp k Hk); naive_solver|].
  unfold required_fields in Hp. split_and!; try (etrans; [apply Hp; set_solver|congruence]).
  exists (field fields (gs "port")). split; [apply Hp; set_solver|done].
Qed.
End checked.

(** C26: With this check as the resolver's PostgreSQL binding, governed
    PostgreSQL access is never handed out on a connection string that could
    reach elsewhere: the target is the requested one and runs PostgreSQL, the
    credential is enabled, for its engine and environment, with a well-formed
    reference, and the secret's one parsed configuration addresses exactly the
    target's host and TCP port (every fallback included) and the requested
    database, its user, password, host, port and database are the non-empty
    fields the string itself spells, and no session parameter but
    [application_name] goes to the server. *)
Theorem pg_access_bound url_parse parse_config env id database a :
  ResolvePGExecution (binding_env url_parse parse_config env) id database = Ok a →
  let t := ba_Target a in let c := ba_Credential a in
  tg_ResourceID t = id ∧ isPGEngine (tg_Engine t) = true ∧ database ≠ []
  ∧ ae_credential env id database = ReadOk c ∧ cm_Enabled c = true
  ∧ credentialAllowsExecution c (tg_Engine t) (tg_Environment t) = true
  ∧ ValidateCredentialRef (cm_CredentialRef c) = Ok tt ∧ ae_secret env (cm_CredentialRef c) = Some (ba_dsn a)
  ∧ ∃ cfg, dsn_bound url_parse parse_config (ba_dsn a) (tg_Host t) (tg_Port t) database cfg.
Proof.
  unfold ResolvePGExecution, resolvePGMetadata. set (env' := binding_env _ _ env). intros H.
  destruct (findTarget env' id) as [t|] eqn:Ef; [|done]. cbn [mbind result_bind] in H. apply findTarget_id in Ef.
  destruct (isPGEngine (tg_Engine t)) eqn:Ei; cbn [negb] in H; [|done].
  test_in H as Ec; [done|]. test_in H as Ed; [done|].
  destruct (ae_credential env' (tg_ResourceID t) database) as [c| | |] eqn:Er; try done.
  destruct (ValidateCredentialRef _) as [[]|] eqn:Ev in H; cbn [is_ok negb] in H; [|done].
  destruct (cm_Enabled c) eqn:Ee in H; cbn [negb] in H; [|done].
  destruct (credentialAllowsExecution _ _ _) eqn:Ea in H; cbn [negb] in H; [|done].
  destruct (resolve_secret env' _) as [dsn|] eqn:Es in H; [|done]. apply secret_resolved in Es as (_ & Es & Hne).
  rewrite bool_decide_eq_false_2 in H by done.
  destruct (ae_pg_binding env' dsn t database) eqn:Eb; cbn [negb] in H; [|done]. injection H as <-. cbn in *.
  bool_inv. subst. split_and!; try done.
  destruct (validatePGDSNBindingForTarget _ _ _ _ _) as [cfg|] eqn:Eval; [|done]. exists cfg. by apply validate_bound.
Qed.

(** A driver that configures exactly what the string spells. *)
Definition sample_pgx_config (allowed : list bytes) (dsn : bytes) : option pgx_config :=
  match parsePGConnInfo dsn with
  | Ok fields =>
      match parse_int (field fields (gs "port")) with
      | Some p => Some (PgxConfig (field fields (gs "host")) p (field fields (gs "database")) (field fields (gs "user"))
                          (field fields (gs "password")) [gs "application_name"] [(field fields (gs "host"), p)])
      | None => None
      end
  | Err _ => None
  end.
Definition pg_target : QueryTarget := Target 9 (gs "staging") (gs "postgresql") (gs "db9") 5432.
Definition pg_credential : QueryCredentialMetadata :=
  Credential 9 (gs "orders") [] (gs "postgresql") (gs "DB9_RO") true QueryEnvPolicyNonProdOnly.
Definition pg_dsn (host : bytes) : bytes :=
  write_conninfo [(gs "user", gs "ro"); (gs "password", gs "a b'c"); (gs "host", host); (gs "port", gs "5432");
                  (gs "dbname", gs "orders")].
Definition pg_env (host : bytes) : access_env :=
  AccessEnv (λ _, Some [pg_target]) (λ _ _, ReadOk pg_credential) (λ _, Some (pg_dsn host)) (λ _, None) (λ _ _ _, false).
Definition pg_access (host : bytes) : result access_error BoundTargetAccess :=
  ResolvePGExecution (binding_env (λ _, None) sample_pgx_config (pg_env host)) 9 (gs "orders").

Lemma pg_access_bound_witness :
  is_ok (pg_access (gs "db9")) = true ∧ is_ok (pg_access (gs "db8")) = false
  ∧ ∃ cfg, dsn_bound (λ _, None) sample_pgx_config (pg_dsn (gs "db9")) (gs "db9") 5432 (gs "orders") cfg.
Proof.
  split; [vm_compute; reflexivity|]. split; [vm_compute; reflexivity|].
  destruct (pg_access (gs "db9")) as [a|e] eqn:H; [|vm_compute in H; discriminate H].
  pose proof (pg_access_bound _ _ _ _ _ _ H) as (_ & _ & _ & _ & _ & _ & _ & _ & Hb).
  vm_compute in H. injection H as <-. exact Hb.
Defined.
