(* ===== verification/GoAny.v ===== *)
(** * Dynamic values

    What the code keeps in an [any]: the values [encoding/json] decodes to, with
    [reflect.DeepEqual], the number conversions, the condition under which
    [json.Marshal] fails, [net.ParseIP], and the interface to the Unicode
    tables behind [strings.ToLower]. *)
From S2P Require Import Prelude GoText.
From Stdlib Require Import SpecFloat.

(** ** Values *)

(** [GInt] and [GInt64] are [int] and [int64], [GNumber] is a [json.Number]. *)
Inductive gvalue : Type :=
  | GNull
  | GBool (b : bool)
  | GInt (z : Z)
  | GInt64 (z : Z)
  | GFloat (f : spec_float)
  | GNumber (text : bytes)
  | GString (s : bytes)
  | GArray (items : list gvalue)
  | GObject (fields : gmap bytes gvalue).
Abbreviation gfields := (gmap bytes gvalue).

(** [reflect.DeepEqual]: floats compare as numbers, maps by their keys. *)
Fixpoint deep_equal (v w : gvalue) : bool :=
  match v, w with
  | GNull, GNull => true
  | GBool a, GBool b => Bool.eqb a b
  | GInt a, GInt b => (a =? b)%Z
  | GInt64 a, GInt64 b => (a =? b)%Z
  | GFloat a, GFloat b => SFeqb a b
  | GNumber a, GNumber b => a =?b b
  | GString a, GString b => a =?b b
  | GArray l, GArray l' =>
      (fix go l l' :=
         match l, l' with
         | [], [] => true
         | v :: l, w :: l' => deep_equal v w && go l l'
         | _, _ => false
         end) l l'
  | GObject m, GObject m' =>
      (dom m =?b dom m')
      && map_fold (λ k v acc, acc && match m' !! k with Some w => deep_equal v w | None => false end) true m
  | _, _ => false
  end.

(** The same on what may be absent: an absent value reads as nil. *)
Definition value_at (m : gfields) (key : bytes) : gvalue := default GNull (m !! key).

(** ** Numbers *)

(** [n == math.Trunc(n)] for the finite values, and the conversion that drops the fraction. *)
Definition float_integral (f : spec_float) : bool :=
  match f with
  | S754_finite _ m e => (0 <=? e)%Z || (Zpos m mod 2 ^ (- e) =? 0)%Z
  | S754_nan => false
  | _ => true
  end.
Definition float_trunc (s : bool) (m : positive) (e : Z) : Z := (if s then - Z.shiftl (Zpos m) e else Z.shiftl (Zpos m) e)%Z.

(** Go leaves the conversion of a float64 beyond the range of int64 to the implementation. *)
Class FloatConversion : Type := beyond_int64 : spec_float → Z.

Definition float_to_int64 `{FloatConversion} (f : spec_float) : Z :=
  match f with
  | S754_zero _ => 0
  | S754_finite s m e =>
      let z := float_trunc s m e in if int64_ok z then z else to_int64 (beyond_int64 f)
  | _ => to_int64 (beyond_int64 f)
  end%Z.

(** The text of a JSON number: sign, digits, and the power of ten. *)
Fixpoint number_digits (s : bytes) : bytes * bytes :=
  match s with
  | c :: t => if is_digit c then let '(ds, rest) := number_digits t in (c :: ds, rest) else ([], s)
  | [] => ([], [])
  end.
Definition number_exponent (s : bytes) : Z :=
  match s with
  | c :: t => if (c =?b "e"%char) || (c =?b "E"%char) then default 0%Z (parse_int t) else 0%Z
  | [] => 0%Z
  end.
Definition decimal_parts (text : bytes) : bool * Z * Z :=
  let '(neg, s) := match text with c :: t => if c =?b "-"%char then (true, t) else (false, text) | [] => (false, []) end in
  let '(whole, s) := number_digits s in
  let '(frac, s) := match s with c :: t => if c =?b "."%char then number_digits t else ([], s) | [] => ([], []) end in
  (neg, digits_value (whole ++ frac), (number_exponent s - Z.of_nat (length frac))%Z).

(** [strconv.ParseFloat(text, 64)], an out-of-range number reading as an infinity. *)
Definition parse_float (text : bytes) : spec_float :=
  let '(neg, m, e) := decimal_parts text in
  let magnitude :=
    match m with
    | Zpos p =>
        if (0 <=? e)%Z then binary_normalize 53 1024 (m * 10 ^ e)%Z 0 false
        else match (10 ^ (- e))%Z with
             | Zpos q => SFdiv 53 1024 (S754_finite false p 0) (S754_finite false q 0)
             | _ => S754_nan
             end
    | _ => S754_zero false
    end in
  if neg then SFopp magnitude else magnitude.

(** [normalizeJSONNumbers]: an int where it fits, a float64 otherwise. *)
Definition normalize_number (text : bytes) : gvalue :=
  match parse_int text with Some n => GInt n | None => GFloat (parse_float text) end.
Fixpoint normalizeJSONNumbers (v : gvalue) : gvalue :=
  match v with
  | GObject m => GObject (normalizeJSONNumbers <$> m)
  | GArray l => GArray (normalizeJSONNumbers <$> l)
  | GNumber text => normalize_number text
  | _ => v
  end.

(** [json.Marshal] refuses a number that is not finite, wherever it is. *)
Definition float_finite (f : spec_float) : bool :=
  match f with S754_zero _ | S754_finite _ _ _ => true | _ => false end.
Fixpoint marshal_ok (v : gvalue) : bool :=
  match v with
  | GFloat f => float_finite f
  | GArray l => forallb marshal_ok l
  | GObject m => map_fold (λ _ v acc, acc && marshal_ok v) true m
  | _ => true
  end.

(** ** Lower case *)

(** [strings.ToLower] works code point by code point on Unicode's tables; what
    the code relies on is that it is idempotent and keeps the number of code points. *)
Class UnicodeLower : Type := unicode_lower : bytes → bytes.
Class UnicodeLowerLaws (L : UnicodeLower) : Prop := {
  lower_idemp s : unicode_lower (unicode_lower s) = unicode_lower s;
  lower_rune_count s : rune_count (unicode_lower s) = rune_count s;
}.

(** The restriction to ASCII, as a concrete instance. *)
Definition ascii_lower (s : bytes) : bytes := (λ c, if in_range 65 90 c then bz (bv c + 32) else c) <$> s.

(** ** [net.ParseIP] *)

Definition ip_hex_digit (c : byte) : option Z :=
  if in_range 48 57 c then Some (bv c - 48)%Z
  else if in_range 97 102 c then Some (bv c - 87)%Z
  else if in_range 65 70 c then Some (bv c - 55)%Z
  else None.

(** [parseIPv4Fields]: [first] marks the start of the text, [len] the digits of the octet. *)
Fixpoint ipv4_fields (s : bytes) (first : bool) (val : Z) (len pos : nat) : bool :=
  match s with
  | [] => (3 <=? pos)%nat
  | c :: t =>
      if is_digit c then
        if (len =? 1)%nat && (val =? 0)%Z then false
        else let val := (val * 10 + (bv c - 48))%Z in
             if (255 <? val)%Z then false else ipv4_fields t false val (S len) pos
      else if c =?b "."%char then
        if first || (t =?b []) || (len =? 0)%nat then false
        else if (pos =? 3)%nat then false
        else ipv4_fields t false 0 0 (S pos)
      else false
  end.
Definition parse_ipv4 (s : bytes) : bool := ipv4_fields s true 0 0 0.

(** The digits of one group, their number and value; a fifth digit fails. *)
Fixpoint hex_group (s : bytes) (len : nat) (acc : Z) : option (nat * bytes) :=
  match s with
  | c :: t =>
      match ip_hex_digit c with
      | Some d => if (3 <? len)%nat then None
                  else if (65535 <? acc * 16 + d)%Z then None
                  else hex_group t (S len) (acc * 16 + d)%Z
      | None => Some (len, s)
      end
  | [] => Some (len, [])
  end.

(** The group loop of [parseIPv6]; [bytes_in] is its index [i], [fuel] the groups left. *)
Fixpoint ipv6_groups (fuel : nat) (s : bytes) (bytes_in : nat) (ellipsis : bool) : option (bytes * nat * bool) :=
  match fuel with
  | O => Some (s, bytes_in, ellipsis)
  | S fuel =>
      match hex_group s 0 0 with
      | None => None
      | Some (len, rest) =>
          if (len =? 0)%nat then None
          else match rest with
          | [] => Some ([], bytes_in + 2, ellipsis)
          | c :: t =>
              if c =?b "."%char then
                if negb ellipsis && negb (bytes_in =? 12)%nat then None
                else if (16 <? bytes_in + 4)%nat then None
                else if parse_ipv4 s then Some ([], bytes_in + 4, ellipsis) else None
              else if negb (c =?b ":"%char) then None
              else match t with
              | [] => None
              | d :: t' =>
                  if d =?b ":"%char then
                    if ellipsis then None
                    else if t' =?b [] then Some ([], bytes_in + 2, true)
                    else ipv6_groups fuel t' (bytes_in + 2) true
                  else ipv6_groups fuel t (bytes_in + 2) ellipsis
              end
          end
      end
  end.
Definition parse_ipv6 (s : bytes) : bool :=
  let '(ellipsis, s) := if is_prefix (gs "::") s then (true, drop 2 s) else (false, s) in
  if ellipsis && (s =?b []) then true
  else match ipv6_groups 8 s 0 ellipsis with
       | Some ([], n, ellipsis) => if (n <? 16)%nat then ellipsis else negb ellipsis
       | _ => false
       end.

(** The first [.] or [:] of the text decides the family; a zone is refused. *)
Definition net_ParseIP (s : bytes) : bool :=
  if contains_byte "%"%char s then false
  else match find (λ c, (c =?b "."%char) || (c =?b ":"%char)) s with
       | Some c => if c =?b "."%char then parse_ipv4 s else parse_ipv6 s
       | None => false
       end.

Example ip_samples :
  net_ParseIP <$> [gs "10.0.0.1"; gs "10.0.0.01"; gs "10.0.0"; gs "::1"; gs "fe80::1%eth0"; gs "::ffff:10.0.0.1"; gs "1::2::3"; gs "256.1.1.1"; gs "a:b:c:d:e:f:1:2"; gs "::"; gs "10.0.0.1:80"]
  = [true; false; false; true; false; true; false; false; true; true; false].
Proof. vm_compute. reflexivity. Qed.
Example float_samples :
  (λ t, match parse_float (gs t) with S754_finite s m e => (s, Zpos m, e) | S754_infinity s => (s, 0%Z, 9999%Z) | _ => (false, 0%Z, 0%Z) end)
    <$> ["1.5"; "-0.1"; "1e999"; "12345678901234567890"]%string
  = [(false, 6755399441055744%Z, (-52)%Z); (true, 7205759403792794%Z, (-56)%Z); (false, 0%Z, 9999%Z); (false, 6028163525993441%Z, 11%Z)].
Proof. vm_compute. reflexivity. Qed.
