(* ===== verification/Profiles.v ===== *)
(** * Typed profiles

    [service/profile_service.go] and the profile part of
    [repository/mysql/resource_repository.go]: the field schemas and their
    validation, the typed rows, and the audited mutation in one transaction.
    [%v] of a value that is not a string is a parameter. *)
From S2P Require Import Prelude GoText GoAny Inventory.

(** ** Schemas *)

Inductive profileFieldKind : Type := profileStringField | profileIntField.
Inductive profileFieldFormat : Type := profileFormatNone | profileFormatFQDN | profileFormatIP.
#[export] Instance profile_kind_eq_dec : EqDecision profileFieldKind.
Proof. solve_decision. Defined.
#[export] Instance profile_format_eq_dec : EqDecision profileFieldFormat.
Proof. solve_decision. Defined.

Record profileFieldSpec : Type := FieldSpec {
  fs_key : bytes;
  fs_kind : profileFieldKind;
  fs_maxLen : nat;
  fs_intMin : Z;
  fs_intMax : Z;
  fs_required : bool;
  fs_format : profileFieldFormat;
  fs_identity : bool;
  fs_allowed : list bytes;
}.
Definition text_field (key : string) (maxLen : nat) (required identity : bool) (allowed : list string) : profileFieldSpec :=
  FieldSpec (gs key) profileStringField maxLen 0 0 required profileFormatNone identity (gs <$> allowed).
Definition port_field (required identity : bool) : profileFieldSpec :=
  FieldSpec (gs "port") profileIntField 0 1 65535 required profileFormatNone identity [].

Definition proxy_subtypes : list string := ["proxysql"; "chproxy"; "haproxy"; "maxscale"]%string.
Definition component_subtypes : list string := ["orchestrator"; "ha_monitor"; "backup_manager"]%string.
Definition ha_roles : list string := ["active"; "standby"]%string.

Definition profileFieldSchemas : gmap bytes (list profileFieldSpec) := list_to_map [
  (ResourceTypeHost, [ text_field "hostname" 255 false true []; text_field "ipAddress" 64 false true [];
     text_field "osName" 255 false false [] ]);
  (ResourceTypeDatabaseInstance, [ text_field "engine" 64 false true []; text_field "version" 64 false false [];
     text_field "host" 255 false true []; port_field false true; text_field "role" 64 false false [] ]);
  (ResourceTypeDatabaseCluster, [ text_field "engine" 64 false true []; text_field "topologyMode" 64 false false [];
     text_field "primaryEndpoint" 255 false true [] ]);
  (ResourceTypeService, [ text_field "systemName" 255 false true []; text_field "repositoryUrl" 512 false false [];
     text_field "runtimeEnv" 64 false false [] ]);
  (ResourceTypeDomainName, [ FieldSpec (gs "fqdn") profileStringField 255 0 0 true profileFormatFQDN false [] ]);
  (ResourceTypeVirtualIP, [ FieldSpec (gs "ipAddress") profileStringField 64 0 0 true profileFormatIP false [] ]);
  (ResourceTypeDatabaseProxy, [ text_field "technologySubtype" 64 true false proxy_subtypes;
     text_field "host" 255 true false []; port_field true false; text_field "role" 64 true false ha_roles;
     text_field "version" 64 false false [] ]);
  (ResourceTypeControlPlaneComponent, [ text_field "componentSubtype" 64 true false component_subtypes;
     text_field "endpoint" 255 true false []; text_field "version" 64 false false [];
     text_field "role" 64 true false ha_roles ]) ].

(** ** Validation *)

(** [strings.TrimRight(s, ".")] *)
Fixpoint trim_dots (s : bytes) : bytes :=
  match s with
  | [] => []
  | c :: t => match trim_dots t with
              | [] => if c =?b "."%char then [] else [c]
              | t => c :: t
              end
  end.

Section validation.
Context `{UnicodeLower, FloatConversion}.

Definition normalizeFQDN (value : bytes) : bytes := trim_dots (unicode_lower (trim_space value)).

Definition profileIntValue (v : gvalue) : option Z :=
  match v with
  | GInt n | GInt64 n => Some n
  | GNumber text => parse_int text
  | GFloat f => if float_integral f then Some (float_to_int64 f) else None
  | _ => None
  end.

(** [fmt.Sprintf("%v", list)] of strings. *)
Definition print_list (l : list bytes) : bytes :=
  "["%char :: (match l with [] => [] | x :: l => x ++ mjoin ((λ y, " "%char :: y) <$> l) end) ++ ["]"%char].

Definition spec_of (specs : list profileFieldSpec) (key : bytes) : option profileFieldSpec :=
  find (λ s, fs_key s =?b key) specs.
Definition too_long (spec : profileFieldSpec) (s : bytes) : option bytes :=
  if (fs_maxLen spec <? rune_count s)%nat
  then Some (gs "must be at most " ++ format_int (Z.of_nat (fs_maxLen spec)) ++ gs " characters") else None.

(** A later complaint about the same field replaces an earlier one. *)
Definition complain (later earlier : option bytes) : option bytes := match later with Some _ => later | None => earlier end.

(** One turn of the loop over the submitted fields: the value as the map holds
    it afterwards, and the complaint. *)
Definition check_text (spec : profileFieldSpec) (s : bytes) : bytes * option bytes :=
  match fs_format spec with
  | profileFormatFQDN =>
      let normalized := normalizeFQDN s in
      (normalized, complain (if fs_required spec && (normalized =?b []) then Some (gs "fqdn is required") else None)
                     (too_long spec s))
  | profileFormatIP =>
      let trimmed := trim_space s in
      (trimmed, complain (if fs_required spec && (trimmed =?b []) then Some (gs "ipAddress is required")
                          else if negb (trimmed =?b []) && negb (net_ParseIP trimmed)
                          then Some (gs "must be a single IPv4 or IPv6 address") else None)
                  (too_long spec s))
  | profileFormatNone =>
      (s, complain (if fs_required spec && (s =?b []) then Some (fs_key spec ++ gs " is required")
                    else if negb (s =?b []) && negb (fs_allowed spec =?b []) && negb (bool_decide (s ∈ fs_allowed spec))
                    then Some (gs "must be one of " ++ print_list (fs_allowed spec)) else None)
            (too_long spec s))
  end.
Definition check_field (specs : list profileFieldSpec) (key : bytes) (value : gvalue) : gvalue * option bytes :=
  match spec_of specs key with
  | None => (value, Some (gs "unknown profile field"))
  | Some spec =>
      match fs_kind spec with
      | profileStringField =>
          match value with
          | GString s => let '(s, c) := check_text spec s in (GString s, c)
          | _ => (value, Some (gs "must be a string"))
          end
      | profileIntField =>
          match profileIntValue value with
          | None => (value, Some (gs "must be an integer"))
          | Some n =>
              (value, if (n <? fs_intMin spec)%Z || (fs_intMax spec <? n)%Z
                      then Some (gs "must be between " ++ format_int (fs_intMin spec) ++ gs " and " ++ format_int (fs_intMax spec))
                      else None)
          end
      end
  end.
Definition missing_message (spec : profileFieldSpec) : bytes :=
  match fs_format spec with
  | profileFormatFQDN => gs "fqdn is required"
  | profileFormatIP => gs "ipAddress is required"
  | profileFormatNone => fs_key spec ++ gs " is required"
  end.
Definition missing_fields (specs : list profileFieldSpec) (fields : gfields) : gmap bytes bytes :=
  list_to_map ((λ s, (fs_key s, missing_message s)) <$> filter (λ s, fs_required s = true ∧ fields !! fs_key s = None) specs).

(** The fields come back as the loop leaves them in the caller's map. *)
Definition validateProfileFields (resourceType : bytes) (fields : gfields) (full : bool) : result inventory_error gfields :=
  match profileFieldSchemas !! resourceType with
  | None => Err ErrProfileNotSupported
  | Some specs =>
      let complaints := map_imap (λ key v, (check_field specs key v).2) fields
                        ∪ (if full then missing_fields specs fields else ∅) in
      if complaints =?b ∅ then Ok (map_imap (λ key v, Some (check_field specs key v).1) fields)
      else Err (ErrFields complaints)
  end.

Definition identityValuePresent (spec : profileFieldSpec) (fields : gfields) : bool :=
  match fields !! fs_key spec with
  | None | Some GNull => false
  | Some value =>
      match fs_kind spec with
      | profileStringField => match value with GString s => negb (trim_space s =?b []) | _ => false end
      | profileIntField =>
          match profileIntValue value with Some n => (fs_intMin spec <=? n)%Z && (n <=? fs_intMax spec)%Z | None => false end
      end
  end.
Definition manualIdentityRequired : bytes := gs "is required for manual registration".
Definition validateMinimumManualIdentity (resourceType : bytes) (fields : gfields) : result inventory_error () :=
  match profileFieldSchemas !! resourceType with
  | None => Ok ()
  | Some specs =>
      let missing := filter (λ s, fs_identity s = true ∧ identityValuePresent s fields = false) specs in
      match missing with
      | [] => Ok ()
      | _ => Err (ErrFields (list_to_map ((λ s, (fs_key s, manualIdentityRequired)) <$> missing)))
      end
  end.
End validation.

(** ** Rows *)

(** A row of the profile table of each type. *)
Inductive profile_row : Type :=
  | HostProfile (hostname ipAddress osName : bytes)
  | InstanceProfile (engine version host : bytes) (port : Z) (role : bytes)
  | ClusterProfile (engine topologyMode primaryEndpoint : bytes)
  | ServiceProfile (systemName repositoryUrl runtimeEnv : bytes)
  | DomainNameProfile (fqdn : bytes)
  | VirtualIPProfile (ipAddress : bytes)
  | DatabaseProxyProfile (technologySubtype host : bytes) (port : Z) (role version : bytes)
  | ControlPlaneProfile (componentSubtype endpoint version role : bytes).

(** The type of the resources whose table holds the row. *)
Definition row_type (row : profile_row) : bytes :=
  match row with
  | HostProfile _ _ _ => ResourceTypeHost
  | InstanceProfile _ _ _ _ _ => ResourceTypeDatabaseInstance
  | ClusterProfile _ _ _ => ResourceTypeDatabaseCluster
  | ServiceProfile _ _ _ => ResourceTypeService
  | DomainNameProfile _ => ResourceTypeDomainName
  | VirtualIPProfile _ => ResourceTypeVirtualIP
  | DatabaseProxyProfile _ _ _ _ _ => ResourceTypeDatabaseProxy
  | ControlPlaneProfile _ _ _ _ => ResourceTypeControlPlaneComponent
  end.

Definition fields_of (l : list (string * gvalue)) : gfields := list_to_map ((λ p, (gs p.1, p.2)) <$> l).

(** What a fetch returns of a row. *)
Definition profile_fields (row : profile_row) : gfields :=
  match row with
  | HostProfile hostname ip os =>
      fields_of [("hostname", GString hostname); ("ipAddress", GString ip); ("osName", GString os)]%string
  | InstanceProfile engine version host port role =>
      fields_of [("engine", GString engine); ("version", GString version); ("host", GString host); ("port", GInt port);
                 ("role", GString role)]%string
  | ClusterProfile engine mode endpoint =>
      fields_of [("engine", GString engine); ("topologyMode", GString mode); ("primaryEndpoint", GString endpoint)]%string
  | ServiceProfile name url env =>
      fields_of [("systemName", GString name); ("repositoryUrl", GString url); ("runtimeEnv", GString env)]%string
  | DomainNameProfile fqdn => fields_of [("fqdn", GString fqdn)]%string
  | VirtualIPProfile ip => fields_of [("ipAddress", GString ip)]%string
  | DatabaseProxyProfile subtype host port role version =>
      fields_of [("technologySubtype", GString subtype); ("host", GString host); ("port", GInt port);
                 ("role", GString role); ("version", GString version)]%string
  | ControlPlaneProfile subtype endpoint version role =>
      fields_of [("componentSubtype", GString subtype); ("endpoint", GString endpoint); ("version", GString version);
                 ("role", GString role)]%string
  end.

(** The [varchar] widths of the tables, enforced by strict mode. *)
Definition columns_fit (l : list (bytes * nat)) : bool := forallb (λ '(s, n), (rune_count s <=? n)%nat) l.
Definition int_column (z : Z) : bool := ((- 2 ^ 31 <=? z) && (z <? 2 ^ 31))%Z.
Definition row_fits (row : profile_row) : bool :=
  match row with
  | HostProfile hostname ip os => columns_fit [(hostname, 255); (ip, 64); (os, 255)]
  | InstanceProfile engine version host port role =>
      columns_fit [(engine, 64); (version, 64); (host, 255); (role, 64)] && int_column port
  | ClusterProfile engine mode endpoint => columns_fit [(engine, 64); (mode, 64); (endpoint, 255)]
  | ServiceProfile name url env => columns_fit [(name, 255); (url, 512); (env, 64)]
  | DomainNameProfile fqdn => columns_fit [(fqdn, 255)]
  | VirtualIPProfile ip => columns_fit [(ip, 64)]
  | DatabaseProxyProfile subtype host port role version =>
      columns_fit [(subtype, 64); (host, 255); (role, 64); (version, 64)] && int_column port
  | ControlPlaneProfile subtype endpoint version role =>
      columns_fit [(subtype, 64); (endpoint, 255); (version, 64); (role, 64)]
  end.

Section rows.
Context `{FloatConversion} (sprint : gvalue → bytes).

Definition profileFieldString (fields : gfields) (key : bytes) : bytes :=
  match fields !! key with None => [] | Some (GString s) => s | Some v => sprint v end.
Definition profileFieldInt (fields : gfields) (key : bytes) : Z :=
  match fields !! key with
  | Some (GFloat f) => float_to_int64 f
  | Some (GInt n) | Some (GInt64 n) => n
  | Some (GNumber text) => default 0%Z (parse_int text)
  | _ => 0%Z
  end.
Definition profileFieldStringPtr (fields : gfields) (key : bytes) : option bytes :=
  match fields !! key with None => None | Some _ => Some (profileFieldString fields key) end.
Definition profileFieldIntPtr (fields : gfields) (key : bytes) : option Z :=
  match fields !! key with None => None | Some _ => Some (profileFieldInt fields key) end.

(** The row a full write stores. *)
Definition upsertProfileTx (resourceType : bytes) (fields : gfields) : option profile_row :=
  let s := λ key, profileFieldString fields (gs key) in
  let n := λ key, profileFieldInt fields (gs key) in
  if resourceType =?b ResourceTypeHost then Some (HostProfile (s "hostname") (s "ipAddress") (s "osName"))
  else if resourceType =?b ResourceTypeDatabaseInstance then
    Some (InstanceProfile (s "engine") (s "version") (s "host") (n "port") (s "role"))
  else if resourceType =?b ResourceTypeDatabaseCluster then
    Some (ClusterProfile (s "engine") (s "topologyMode") (s "primaryEndpoint"))
  else if resourceType =?b ResourceTypeService then
    Some (ServiceProfile (s "systemName") (s "repositoryUrl") (s "runtimeEnv"))
  else if resourceType =?b ResourceTypeDomainName then Some (DomainNameProfile (s "fqdn"))
  else if resourceType =?b ResourceTypeDatabaseProxy then
    Some (DatabaseProxyProfile (s "technologySubtype") (s "host") (n "port") (s "role") (s "version"))
  else if resourceType =?b ResourceTypeVirtualIP then Some (VirtualIPProfile (s "ipAddress"))
  else if resourceType =?b ResourceTypeControlPlaneComponent then
    Some (ControlPlaneProfile (s "componentSubtype") (s "endpoint") (s "version") (s "role"))
  else None.

(** [COALESCE(?, column)], the insert branch having the empty column. *)
Definition patchProfile (resourceType : bytes) (fields : gfields) (old : option profile_row) : option profile_row :=
  let s := λ key column, default column (profileFieldStringPtr fields (gs key)) in
  let n := λ key column, default column (profileFieldIntPtr fields (gs key)) in
  if resourceType =?b ResourceTypeHost then
    let '(a, b, c) := match old with Some (HostProfile a b c) => (a, b, c) | _ => ([], [], []) end in
    Some (HostProfile (s "hostname" a) (s "ipAddress" b) (s "osName" c))
  else if resourceType =?b ResourceTypeDatabaseInstance then
    let '(a, b, c, d, e) := match old with Some (InstanceProfile a b c d e) => (a, b, c, d, e) | _ => ([], [], [], 0%Z, []) end in
    Some (InstanceProfile (s "engine" a) (s "version" b) (s "host" c) (n "port" d) (s "role" e))
  else if resourceType =?b ResourceTypeDatabaseCluster then
    let '(a, b, c) := match old with Some (ClusterProfile a b c) => (a, b, c) | _ => ([], [], []) end in
    Some (ClusterProfile (s "engine" a) (s "topologyMode" b) (s "primaryEndpoint" c))
  else if resourceType =?b ResourceTypeService then
    let '(a, b, c) := match old with Some (ServiceProfile a b c) => (a, b, c) | _ => ([], [], []) end in
    Some (ServiceProfile (s "systemName" a) (s "repositoryUrl" b) (s "runtimeEnv" c))
  else if resourceType =?b ResourceTypeDomainName then
    Some (DomainNameProfile (s "fqdn" (match old with Some (DomainNameProfile a) => a | _ => [] end)))
  else if resourceType =?b ResourceTypeDatabaseProxy then
    let '(a, b, c, d, e) := match old with Some (DatabaseProxyProfile a b c d e) => (a, b, c, d, e) | _ => ([], [], 0%Z, [], []) end in
    Some (DatabaseProxyProfile (s "technologySubtype" a) (s "host" b) (n "port" c) (s "role" d) (s "version" e))
  else if resourceType =?b ResourceTypeVirtualIP then
    Some (VirtualIPProfile (s "ipAddress" (match old with Some (VirtualIPProfile a) => a | _ => [] end)))
  else if resourceType =?b ResourceTypeControlPlaneComponent then
    let '(a, b, c, d) := match old with Some (ControlPlaneProfile a b c d) => (a, b, c, d) | _ => ([], [], [], []) end in
    Some (ControlPlaneProfile (s "componentSubtype" a) (s "endpoint" b) (s "version" c) (s "role" d))
  else None.
End rows.

(** ** What is written is what is read back *)

Section stored.
Context `{UnicodeLower, FloatConversion} (sprint : gvalue → bytes).

(** A validated value as a fetch returns it. *)
Definition stored_value (v : gvalue) : gvalue :=
  match v with GString s => GString s | _ => match profileIntValue v with Some n => GInt n | None => v end end.
Definition empty_value (kind : profileFieldKind) : gvalue :=
  match kind with profileStringField => GString [] | profileIntField => GInt 0 end.
(** The field [spec] after writing [fields] over what was there. *)
Definition written_field (fields : gfields) (old : option gvalue) (spec : profileFieldSpec) : gvalue :=
  match fields !! fs_key spec with Some v => stored_value v | None => default (empty_value (fs_kind spec)) old end.

(** The value has the kind its field declares. *)
Definition of_kind (kind : profileFieldKind) (v : gvalue) : Prop :=
  match kind with profileStringField => ∃ s, v = GString s | profileIntField => ∃ n, profileIntValue v = Some n end.
Definition well_kinded (specs : list profileFieldSpec) (fields : gfields) : Prop :=
  ∀ key v, fields !! key = Some v → ∃ spec, spec_of specs key = Some spec ∧ of_kind (fs_kind spec) v.

Lemma check_field_kind specs key v :
  (check_field specs key v).2 = None →
  ∃ spec, spec_of specs key = Some spec ∧ of_kind (fs_kind spec) (check_field specs key v).1.
Proof.
  unfold check_field. destruct (spec_of specs key) as [spec|]; [|done]. intros Hc. exists spec. split; [done|].
  destruct (fs_kind spec); cbn.
  - destruct v; try done. destruct (check_text spec s). cbn. eauto.
  - destruct (profileIntValue v) eqn:E; [|done]. cbn. eauto.
Qed.
Lemma validated_kinds resourceType fields full checked :
  validateProfileFields resourceType fields full = Ok checked →
  ∃ specs, profileFieldSchemas !! resourceType = Some specs ∧ well_kinded specs checked ∧ dom checked = dom fields.
Proof.
  unfold validateProfileFields. destruct (profileFieldSchemas !! resourceType) as [specs|]; [|done].
  case_bool_decide as Hc; [|done]. intros [= <-]. exists specs. split; [done|]. split.
  - intros key v. rewrite map_lookup_imap. intros (v0 & Hv & [= <-])%bind_Some. apply check_field_kind.
    apply (f_equal (λ m, m !! key)) in Hc. rewrite lookup_union, map_lookup_imap, Hv, lookup_empty in Hc. cbn in Hc.
    destruct (check_field specs key v0).2; [|done]. by destruct (_ !! key) in Hc.
  - apply set_eq. intros key. rewrite !elem_of_dom, map_lookup_imap. destruct (fields !! key); cbn; [|done]. split; eauto.
Qed.

(** The columns of a field, of a full write and of a partial one. *)
Definition writes_text (fields : gfields) (spec : profileFieldSpec) : Prop :=
  GString (profileFieldString sprint fields (fs_key spec)) = written_field fields None spec
  ∧ ∀ old, GString (default old (profileFieldStringPtr sprint fields (fs_key spec))) = written_field fields (Some (GString old)) spec.
Definition writes_int (fields : gfields) (spec : profileFieldSpec) : Prop :=
  GInt (profileFieldInt fields (fs_key spec)) = written_field fields None spec
  ∧ ∀ old, GInt (default old (profileFieldIntPtr fields (fs_key spec))) = written_field fields (Some (GInt old)) spec.
Lemma field_written specs fields spec :
  well_kinded specs fields → spec_of specs (fs_key spec) = Some spec →
  match fs_kind spec with profileStringField => writes_text fields spec | profileIntField => writes_int fields spec end.
Proof.
  intros Hw Hs. unfold writes_text, writes_int, profileFieldStringPtr, profileFieldIntPtr, written_field, profileFieldString, profileFieldInt.
  destruct (fields !! fs_key spec) as [v|] eqn:E; [|by destruct (fs_kind spec)].
  destruct (Hw _ _ E) as (spec' & Hs' & Hv). rewrite Hs in Hs'. injection Hs' as <-. destruct (fs_kind spec).
  - by destruct Hv as [s ->].
  - destruct Hv as [n Hn]. destruct v; cbn in *; try done; rewrite ?Hn; cbn; try (split; [|intros ?]; congruence).
    destruct (float_integral f); [split; [|intros ?]; congruence|done].
Qed.

Definition field_of (row : option profile_row) (key : bytes) : option gvalue := row ≫= λ r, profile_fields r !! key.
Definition old_text (row : option profile_row) (key : bytes) : bytes := match field_of row key with Some (GString s) => s | _ => [] end.
Definition old_int (row : option profile_row) (key : bytes) : Z := match field_of row key with Some (GInt n) => n | _ => 0%Z end.
(** The columns by field, of a full write and of a partial one. *)
Definition put_column (fields : gfields) (spec : profileFieldSpec) : gvalue :=
  match fs_kind spec with
  | profileStringField => GString (profileFieldString sprint fields (fs_key spec))
  | profileIntField => GInt (profileFieldInt fields (fs_key spec))
  end.
Definition patch_column (fields : gfields) (old : option profile_row) (spec : profileFieldSpec) : gvalue :=
  match fs_kind spec with
  | profileStringField => GString (default (old_text old (fs_key spec)) (profileFieldStringPtr sprint fields (fs_key spec)))
  | profileIntField => GInt (default (old_int old (fs_key spec)) (profileFieldIntPtr fields (fs_key spec)))
  end.
(** A row with these columns and no others. *)
Definition has_columns (specs : list profileFieldSpec) (column : profileFieldSpec → gvalue) (row : profile_row) : Prop :=
  Forall (λ spec, profile_fields row !! fs_key spec = Some (column spec)) specs ∧ dom (profile_fields row) = list_to_set (fs_key <$> specs).

Lemma profile_dom row specs :
  profileFieldSchemas !! row_type row = Some specs → dom (profile_fields row) = list_to_set (fs_key <$> specs).
Proof.
  destruct row; intros Hs; vm_compute in Hs; injection Hs as <-; cbn [profile_fields]; unfold fields_of;
    rewrite dom_list_to_map_L; reflexivity.
Qed.
Ltac column fields :=
  cbn [fs_key fs_kind text_field port_field];
  repeat match goal with |- context [gs ?s] => let t := eval vm_compute in (gs s) in change (gs s) with t end;
  repeat match goal with
         | |- context [profileFieldString sprint fields ?k] => generalize (profileFieldString sprint fields k); intros ?
         | |- context [profileFieldInt fields ?k] => generalize (profileFieldInt fields k); intros ?
         | |- context [profileFieldStringPtr sprint fields ?k] => generalize (profileFieldStringPtr sprint fields k); intros ?
         | |- context [profileFieldIntPtr fields ?k] => generalize (profileFieldIntPtr fields k); intros ?
         end;
  vm_compute; reflexivity.
Ltac columns fields Hs :=
  eexists; split; [cbn; reflexivity|]; split; [|apply profile_dom; exact Hs];
  unfold put_column, patch_column; repeat (apply Forall_cons_2; [column fields|]); apply Forall_nil_2.
Lemma put_columns resourceType specs fields :
  profileFieldSchemas !! resourceType = Some specs →
  ∃ row, upsertProfileTx sprint resourceType fields = Some row ∧ has_columns specs (put_column fields) row.
Proof.
  intros Hs. pose proof Hs as Hl. apply elem_of_list_to_map_2 in Hl. rewrite !elem_of_cons, elem_of_nil in Hl.
  destruct Hl as [Hl|[Hl|[Hl|[Hl|[Hl|[Hl|[Hl|[Hl|[]]]]]]]]]; injection Hl as -> ->; columns fields Hs.
Qed.
Lemma patch_columns resourceType specs fields old :
  profileFieldSchemas !! resourceType = Some specs → (∀ r, old = Some r → row_type r = resourceType) →
  ∃ row, patchProfile sprint resourceType fields old = Some row ∧ has_columns specs (patch_column fields old) row.
Proof.
  intros Hs Ho. pose proof Hs as Hl. apply elem_of_list_to_map_2 in Hl. rewrite !elem_of_cons, elem_of_nil in Hl.
  destruct Hl as [Hl|[Hl|[Hl|[Hl|[Hl|[Hl|[Hl|[Hl|[]]]]]]]]]; injection Hl as -> ->;
    (destruct old as [r|]; [specialize (Ho r eq_refl); destruct r; try discriminate Ho|]); columns fields Hs.
Qed.

Lemma schema_keys resourceType specs :
  profileFieldSchemas !! resourceType = Some specs → Forall (λ spec, spec_of specs (fs_key spec) = Some spec) specs.
Proof.
  intros Hs. apply elem_of_list_to_map_2 in Hs. rewrite !elem_of_cons, elem_of_nil in Hs.
  destruct Hs as [Hs|[Hs|[Hs|[Hs|[Hs|[Hs|[Hs|[Hs|[]]]]]]]]]; injection Hs as -> ->;
    repeat (apply Forall_cons_2; [vm_compute; reflexivity|]); apply Forall_nil_2.
Qed.
(** What a row holds has the kinds of its fields. *)
Definition column_kind (spec : profileFieldSpec) (v : option gvalue) : Prop :=
  match fs_kind spec with profileStringField => ∃ s, v = Some (GString s) | profileIntField => ∃ n, v = Some (GInt n) end.
Lemma row_kinds row specs :
  profileFieldSchemas !! row_type row = Some specs → Forall (λ spec, column_kind spec (profile_fields row !! fs_key spec)) specs.
Proof.
  destruct row; intros Hs; vm_compute in Hs; injection Hs as <-;
    repeat (apply Forall_cons_2; [eexists; vm_compute; reflexivity|]); apply Forall_nil_2.
Qed.

(** The columns a write computes are the validated values, or the old ones. *)
Lemma columns_written specs checked old spec :
  well_kinded specs checked → spec_of specs (fs_key spec) = Some spec →
  (field_of old (fs_key spec) = None ∨ column_kind spec (field_of old (fs_key spec))) →
  put_column checked spec = written_field checked None spec
  ∧ patch_column checked old spec = written_field checked (field_of old (fs_key spec)) spec.
Proof.
  intros Hw Hs Ho. pose proof (field_written _ _ _ Hw Hs) as Hf.
  unfold put_column, patch_column, column_kind, old_text, old_int in *. destruct (fs_kind spec) eqn:Ek; destruct Hf as [Hput Hpatch];
    (split; [done|]); (destruct Ho as [->|[x ->]]; [|done]); rewrite Hpatch; unfold written_field; rewrite Ek; done.
Qed.

Definition field_of_type (resourceType : bytes) (old : option profile_row) : Prop := ∀ r, old = Some r → row_type r = resourceType.
(** A row of the validated fields over [old], and of no others. *)
Definition row_written (specs : list profileFieldSpec) (checked : gfields) (old : option profile_row) (row : profile_row) : Prop :=
  has_columns specs (λ spec, written_field checked (field_of old (fs_key spec)) spec) row.

(** A profile reads back as it was validated. Fields that pass the
    validation of a type store a row of that type and no other keys: a full
    write holds each submitted field — a text as validated, an integer in any of
    the forms it was accepted in — and the empty value for the others; a partial
    write over an earlier row keeps what the row had there. *)
Theorem profile_round_trip resourceType fields full checked old :
  validateProfileFields resourceType fields full = Ok checked → field_of_type resourceType old →
  ∃ specs put patched, profileFieldSchemas !! resourceType = Some specs ∧ dom checked = dom fields
    ∧ upsertProfileTx sprint resourceType checked = Some put ∧ row_written specs checked None put
    ∧ patchProfile sprint resourceType checked old = Some patched ∧ row_written specs checked old patched.
Proof.
  intros (specs & Hs & Hw & Hd)%validated_kinds Ho.
  destruct (put_columns _ _ checked Hs) as (put & Hput & Hcput & Hdput).
  destruct (patch_columns _ _ checked old Hs Ho) as (patched & Hpatch & Hcpatch & Hdpatch).
  exists specs, put, patched. split; [done|]. split; [done|]. split; [done|]. pose proof (schema_keys _ _ Hs) as Hk.
  assert (Forall (λ spec, field_of old (fs_key spec) = None ∨ column_kind spec (field_of old (fs_key spec))) specs) as Hold.
  { destruct old as [r|]; [|by apply Forall_true; left]. rewrite <- (Ho r eq_refl) in Hs.
    eapply Forall_impl; [by apply row_kinds|]. intros spec ?. by right. }
  rewrite Forall_forall in Hk, Hold. unfold row_written, has_columns in *. rewrite Forall_forall in Hcput, Hcpatch.
  setoid_rewrite Forall_forall. split; [|split; [done|]]; (split; [|done]); intros spec Hin.
  - rewrite (Hcput spec Hin). by rewrite (proj1 (columns_written specs checked old spec Hw (Hk _ Hin) (Hold _ Hin))).
  - rewrite (Hcpatch spec Hin). by rewrite (proj2 (columns_written specs checked old spec Hw (Hk _ Hin) (Hold _ Hin))).
Qed.
End stored.
