(* ===== verification/InventoryDb.v ===== *)
(** * The inventory tables

    The tables behind [repository/mysql/resource_repository.go] and
    [relation_repository.go], with their unique keys, and the transactions that
    write them: any call may fail, a failed transaction leaves the rows as they
    were (the auto-increment counters move on), and a commit may be lost or
    reported lost although it took effect. *)
From S2P Require Import Prelude GoText GoAny Inventory Profiles.

(** ** Rows *)

Record resource_row : Type := ResourceRow {
  rw_ResourceType : bytes;
  rw_ResourceSubtype : bytes;
  rw_Name : bytes;
  rw_DisplayName : bytes;
  rw_EnvironmentID : Z;
  rw_OwnerID : Z;
  rw_LifecycleStatus : bytes;
  rw_HealthStatus : option bytes;        (** the manual override, nullable *)
  rw_Origin : bytes;
  rw_Labels : gmap bytes bytes;
  rw_ArchivedAt : option Z;
}.
Record alias_row : Type := AliasRow { al_ResourceID : Z; al_EnvironmentID : Z; al_Alias : bytes }.
Record identifier_row : Type := IdentifierRow { xr_ResourceID : Z; xr_System : bytes; xr_Value : bytes }.
(** The row of a primary key (resource, source, field). *)
Record observed_row : Type := ObservedRow { ob_ResourceID : Z; ob_Source : bytes; ob_Field : bytes; ob_Value : gvalue; ob_At : Z }.

Inductive AuditChangeOperation : Type := AuditChangeAdd | AuditChangeUpdate | AuditChangeRemove.
#[export] Instance audit_operation_eq_dec : EqDecision AuditChangeOperation.
Proof. solve_decision. Defined.
Record AuditChange : Type := Change {
  ac_Field : bytes;
  ac_Operation : AuditChangeOperation;
  ac_Before : gvalue;                    (** nil when there is none *)
  ac_After : gvalue;
}.
Record audit_event : Type := AuditEvent {
  au_ActorUserID : option Z;             (** a user or a machine principal acted *)
  au_ActorMachinePrincipalID : option Z;
  au_TargetResourceID : Z;
  au_EventType : bytes;
  au_Changes : list AuditChange;
}.

(** The ledger of completed collector scans, a row per (principal, scan id), and
    what each collector last saw of each resource, a row per (principal, resource). *)
Record scan_ledger_row : Type := ScanRow { sl_ID : Z; sl_PayloadHash : bytes; sl_Result : bytes; sl_CompletedAt : Z }.
Record ci_state_row : Type := CIStateRow {
  st_Omissions : Z;
  st_LastSeen : bytes;
  st_LastCompleted : option bytes;
  st_MissingSince : option Z;
}.
#[export] Instance scan_ledger_row_eq_dec : EqDecision scan_ledger_row.
Proof. solve_decision. Defined.
#[export] Instance ci_state_row_eq_dec : EqDecision ci_state_row.
Proof. solve_decision. Defined.

(** A row per (resource, field). *)
Record override_row : Type := OverrideRow { or_Value : gvalue; or_Version : Z; or_UpdatedBy : Z }.
(** The row of a primary key (resource, observer). *)
Record health_row : Type := HealthRow { hr_ResourceID : Z; hr_Observer : bytes; hr_Status : bytes; hr_At : Z }.

Record inv_db : Type := InvDb {
  db_resources : gmap Z resource_row;
  db_aliases : list alias_row;
  db_identifiers : list identifier_row;
  db_profiles : gmap (bytes * Z) profile_row;      (** by table (resource type) and resource *)
  db_observed : list observed_row;
  db_relations : gmap Z ResourceRelation;
  db_audits : list audit_event;
  db_next_resource : Z;
  db_next_relation : Z;
  db_scans : gmap (Z * bytes) scan_ledger_row;
  db_ci_states : gmap (Z * Z) ci_state_row;
  db_next_scan : Z;
  db_overrides : gmap (Z * bytes) override_row;
  db_health : list health_row;
}.
Definition empty_inventory : inv_db := InvDb ∅ [] [] ∅ [] ∅ [] 1 1 ∅ ∅ 1 ∅ [].

Definition put_resources (f : gmap Z resource_row → gmap Z resource_row) (s : inv_db) : inv_db :=
  InvDb (f (db_resources s)) (db_aliases s) (db_identifiers s) (db_profiles s) (db_observed s) (db_relations s) (db_audits s)
    (db_next_resource s) (db_next_relation s) (db_scans s) (db_ci_states s) (db_next_scan s) (db_overrides s) (db_health s).
Definition set_aliases (f : list alias_row → list alias_row) (s : inv_db) : inv_db :=
  InvDb (db_resources s) (f (db_aliases s)) (db_identifiers s) (db_profiles s) (db_observed s) (db_relations s) (db_audits s)
    (db_next_resource s) (db_next_relation s) (db_scans s) (db_ci_states s) (db_next_scan s) (db_overrides s) (db_health s).
Definition set_identifiers (f : list identifier_row → list identifier_row) (s : inv_db) : inv_db :=
  InvDb (db_resources s) (db_aliases s) (f (db_identifiers s)) (db_profiles s) (db_observed s) (db_relations s) (db_audits s)
    (db_next_resource s) (db_next_relation s) (db_scans s) (db_ci_states s) (db_next_scan s) (db_overrides s) (db_health s).
Definition set_profiles (f : gmap (bytes * Z) profile_row → gmap (bytes * Z) profile_row) (s : inv_db) : inv_db :=
  InvDb (db_resources s) (db_aliases s) (db_identifiers s) (f (db_profiles s)) (db_observed s) (db_relations s) (db_audits s)
    (db_next_resource s) (db_next_relation s) (db_scans s) (db_ci_states s) (db_next_scan s) (db_overrides s) (db_health s).
Definition set_observed (f : list observed_row → list observed_row) (s : inv_db) : inv_db :=
  InvDb (db_resources s) (db_aliases s) (db_identifiers s) (db_profiles s) (f (db_observed s)) (db_relations s) (db_audits s)
    (db_next_resource s) (db_next_relation s) (db_scans s) (db_ci_states s) (db_next_scan s) (db_overrides s) (db_health s).
Definition set_relations (f : gmap Z ResourceRelation → gmap Z ResourceRelation) (s : inv_db) : inv_db :=
  InvDb (db_resources s) (db_aliases s) (db_identifiers s) (db_profiles s) (db_observed s) (f (db_relations s)) (db_audits s)
    (db_next_resource s) (db_next_relation s) (db_scans s) (db_ci_states s) (db_next_scan s) (db_overrides s) (db_health s).
Definition add_audit (a : audit_event) (s : inv_db) : inv_db :=
  InvDb (db_resources s) (db_aliases s) (db_identifiers s) (db_profiles s) (db_observed s) (db_relations s) (db_audits s ++ [a])
    (db_next_resource s) (db_next_relation s) (db_scans s) (db_ci_states s) (db_next_scan s) (db_overrides s) (db_health s).
Definition take_resource_id (s : inv_db) : inv_db :=
  InvDb (db_resources s) (db_aliases s) (db_identifiers s) (db_profiles s) (db_observed s) (db_relations s) (db_audits s)
    (db_next_resource s + 1) (db_next_relation s) (db_scans s) (db_ci_states s) (db_next_scan s) (db_overrides s) (db_health s).
Definition take_relation_id (s : inv_db) : inv_db :=
  InvDb (db_resources s) (db_aliases s) (db_identifiers s) (db_profiles s) (db_observed s) (db_relations s) (db_audits s)
    (db_next_resource s) (db_next_relation s + 1) (db_scans s) (db_ci_states s) (db_next_scan s) (db_overrides s) (db_health s).

Definition set_scans (f : gmap (Z * bytes) scan_ledger_row → gmap (Z * bytes) scan_ledger_row) (s : inv_db) : inv_db :=
  InvDb (db_resources s) (db_aliases s) (db_identifiers s) (db_profiles s) (db_observed s) (db_relations s) (db_audits s)
    (db_next_resource s) (db_next_relation s) (f (db_scans s)) (db_ci_states s) (db_next_scan s) (db_overrides s) (db_health s).
Definition set_ci_states (f : gmap (Z * Z) ci_state_row → gmap (Z * Z) ci_state_row) (s : inv_db) : inv_db :=
  InvDb (db_resources s) (db_aliases s) (db_identifiers s) (db_profiles s) (db_observed s) (db_relations s) (db_audits s)
    (db_next_resource s) (db_next_relation s) (db_scans s) (f (db_ci_states s)) (db_next_scan s) (db_overrides s) (db_health s).
Definition take_scan_id (s : inv_db) : inv_db :=
  InvDb (db_resources s) (db_aliases s) (db_identifiers s) (db_profiles s) (db_observed s) (db_relations s) (db_audits s)
    (db_next_resource s) (db_next_relation s) (db_scans s) (db_ci_states s) (db_next_scan s + 1) (db_overrides s) (db_health s).
Definition set_overrides (f : gmap (Z * bytes) override_row → gmap (Z * bytes) override_row) (s : inv_db) : inv_db :=
  InvDb (db_resources s) (db_aliases s) (db_identifiers s) (db_profiles s) (db_observed s) (db_relations s) (db_audits s)
    (db_next_resource s) (db_next_relation s) (db_scans s) (db_ci_states s) (db_next_scan s) (f (db_overrides s)) (db_health s).
Definition set_health (f : list health_row → list health_row) (s : inv_db) : inv_db :=
  InvDb (db_resources s) (db_aliases s) (db_identifiers s) (db_profiles s) (db_observed s) (db_relations s) (db_audits s)
    (db_next_resource s) (db_next_relation s) (db_scans s) (db_ci_states s) (db_next_scan s) (db_overrides s) (f (db_health s)).

(** ** Transactions *)

(** The calls still to come: [true] makes the next one fail, and none fail past
    the end of the list. *)
Record tx_state : Type := TxState { ts_db : inv_db; ts_faults : list bool }.
Definition tx (A : Type) : Type := tx_state → result inventory_error A * tx_state.

#[export] Instance tx_ret : MRet tx := λ A a s, (Ok a, s).
#[export] Instance tx_bind : MBind tx := λ A B f m s,
  match m s with (Ok a, s) => f a s | (Err e, s) => (Err e, s) end.
Definition tx_fail {A} (e : inventory_error) : tx A := λ s, (Err e, s).
Definition tx_lift {A} (r : result inventory_error A) : tx A := λ s, (r, s).
Definition tx_map_err {A} (f : inventory_error → inventory_error) (m : tx A) : tx A := λ s, let '(r, s) := m s in (map_err f r, s).
Definition tx_guard (bad : bool) (e : inventory_error) : tx () := tx_lift (guard_err bad e).
Definition tx_get : tx inv_db := λ s, (Ok (ts_db s), s).
Definition tx_put (f : inv_db → inv_db) : tx () := λ s, (Ok tt, TxState (f (ts_db s)) (ts_faults s)).

(** A call to the server, which may fail. *)
Definition call : tx () := λ s,
  match ts_faults s with
  | [] => (Ok tt, s)
  | true :: rest => (Err ErrStore, TxState (ts_db s) rest)
  | false :: rest => (Ok tt, TxState (ts_db s) rest)
  end.
Definition read_call {A} (f : inv_db → A) : tx A := _ ← call; s ← tx_get; mret (f s).
Definition write_call (f : inv_db → inv_db) : tx () := _ ← call; tx_put f.

Fixpoint tx_for_each {A} (f : A → tx ()) (l : list A) : tx () :=
  match l with
  | [] => mret tt
  | x :: l => _ ← f x; tx_for_each f l
  end.

Inductive commit_result : Type :=
  | Committed
  | CommitNotDone      (** an error, nothing committed *)
  | CommitDoneUnseen.  (** an error, yet the server committed *)

(** InnoDB's counters are not rolled back. *)
Definition rolled_back (before after : inv_db) : inv_db :=
  InvDb (db_resources before) (db_aliases before) (db_identifiers before) (db_profiles before) (db_observed before)
    (db_relations before) (db_audits before) (db_next_resource after) (db_next_relation after)
    (db_scans before) (db_ci_states before) (db_next_scan after) (db_overrides before) (db_health before).

(** [BeginTx], the body with its deferred rollback, [Commit]. *)
Definition in_tx {A} (body : tx A) (faults : list bool) (end_ : commit_result) (s : inv_db) : result inventory_error A * inv_db :=
  match (_ ← call; body) (TxState s faults) with
  | (Err e, st) => (Err e, rolled_back s (ts_db st))
  | (Ok a, st) =>
      match end_ with
      | Committed => (Ok a, ts_db st)
      | CommitNotDone => (Err ErrStore, rolled_back s (ts_db st))
      | CommitDoneUnseen => (Err ErrStore, ts_db st)
      end
  end.

(** The same for a body that may return before the commit: [false] in its
    result leaves the transaction to the deferred rollback. *)
Definition in_tx_early {A} (body : tx (A * bool)) (faults : list bool) (end_ : commit_result) (s : inv_db) :
    result inventory_error A * inv_db :=
  match (_ ← call; body) (TxState s faults) with
  | (Err e, st) => (Err e, rolled_back s (ts_db st))
  | (Ok (a, false), st) => (Ok a, rolled_back s (ts_db st))
  | (Ok (a, true), st) =>
      match end_ with
      | Committed => (Ok a, ts_db st)
      | CommitNotDone => (Err ErrStore, rolled_back s (ts_db st))
      | CommitDoneUnseen => (Err ErrStore, ts_db st)
      end
  end.

(** ** Reasoning about transactions *)

Definition counters_grow (s s' : inv_db) : Prop :=
  (db_next_resource s ≤ db_next_resource s' ∧ db_next_relation s ≤ db_next_relation s')%Z.

(** From a state in [P] the program only moves the counters up, and what it
    returns satisfies [Q]; a failure says nothing of the rows, which are rolled back. *)
Definition htriple {A} (P : inv_db → Prop) (m : tx A) (Q : A → inv_db → Prop) : Prop :=
  ∀ st, P (ts_db st) →
    let '(r, st') := m st in
    counters_grow (ts_db st) (ts_db st') ∧ match r with Ok a => Q a (ts_db st') | Err _ => True end.

#[export] Instance counters_grow_preorder : PreOrder counters_grow.
Proof. split; [intros s; split; lia|intros s t u [? ?] [? ?]; split; lia]. Qed.

Lemma tx_triple_ret {A} (a : A) (Q : A → inv_db → Prop) : htriple (Q a) (mret a) Q.
Proof. intros st H. cbn. by split. Qed.
Lemma triple_fail {A} e P (Q : A → inv_db → Prop) : htriple P (tx_fail e) Q.
Proof. intros st H. cbn. by split. Qed.
Lemma tx_triple_bind {A B} P (R : A → inv_db → Prop) (Q : B → inv_db → Prop) (m : tx A) (f : A → tx B) :
  htriple P m R → (∀ a, htriple (R a) (f a) Q) → htriple P (mbind f m) Q.
Proof.
  intros Hm Hf st H. specialize (Hm st H). unfold mbind, tx_bind. destruct (m st) as [[a|e] st'].
  - destruct Hm as [Hc Hr]. specialize (Hf a st' Hr). destruct (f a st') as [[b|e] st''], Hf as [Hc' ?];
      (split; [by etrans|done]).
  - by destruct Hm.
Qed.
Lemma triple_conseq {A} (P P' : inv_db → Prop) (Q Q' : A → inv_db → Prop) (m : tx A) :
  htriple P' m Q' → (∀ s, P s → P' s) → (∀ a s, Q' a s → Q a s) → htriple P m Q.
Proof.
  intros Hm HP HQ st H. specialize (Hm st (HP _ H)). destruct (m st) as [[a|e] st'], Hm; split; auto.
Qed.
Lemma triple_get P : htriple P tx_get (λ s s', s = s' ∧ P s').
Proof. intros st H. cbn. by split. Qed.
Lemma triple_put (P Q : inv_db → Prop) f :
  (∀ s, P s → Q (f s) ∧ counters_grow s (f s)) → htriple P (tx_put f) (λ _, Q).
Proof. intros Hf st H. cbn. by destruct (Hf _ H). Qed.
Lemma triple_lift {A} P (r : result inventory_error A) : htriple P (tx_lift r) (λ a s, r = Ok a ∧ P s).
Proof. intros st H. cbn. split; [done|]. by destruct r. Qed.
Lemma triple_map_err {A} P g (m : tx A) Q : htriple P m Q → htriple P (tx_map_err g m) Q.
Proof. intros Hm st H. specialize (Hm st H). unfold tx_map_err. destruct (m st) as [[a|e] st']; done. Qed.
Lemma triple_guard P bad e : htriple P (tx_guard bad e) (λ _ s, bad = false ∧ P s).
Proof. intros st H. destruct bad; cbn; by split. Qed.
Lemma triple_call P : htriple P call (λ _, P).
Proof. intros [s [|[] l]] H; cbn in *; by split. Qed.
Lemma triple_read {A} P (f : inv_db → A) : htriple P (read_call f) (λ a s, a = f s ∧ P s).
Proof.
  eapply tx_triple_bind; [apply triple_call|]. intros ?. eapply tx_triple_bind; [apply triple_get|]. intros s.
  apply (triple_conseq _ (λ s', f s = f s' ∧ P s') _ (λ a s', a = f s' ∧ P s') _ (tx_triple_ret _ _)); [|done].
  intros s' [E ?]. by subst.
Qed.
Lemma triple_write (P Q : inv_db → Prop) f : (∀ s, P s → Q (f s) ∧ counters_grow s (f s)) → htriple P (write_call f) (λ _, Q).
Proof. intros H. eapply tx_triple_bind; [apply triple_call|]. intros ?. by apply triple_put. Qed.
Lemma triple_for_each {A} (P : inv_db → Prop) (f : A → tx ()) l :
  (∀ x, x ∈ l → htriple P (f x) (λ _, P)) → htriple P (tx_for_each f l) (λ _, P).
Proof.
  induction l as [|x l IH]; intros H; cbn; [apply (tx_triple_ret tt (λ _, P))|].
  eapply tx_triple_bind; [apply H; by left|]. intros ?. apply IH. intros y Hy. apply H. by right.
Qed.

(** A transaction either commits what its body did, or leaves the rows alone. *)
Lemma in_tx_outcome {A} P (Q : A → inv_db → Prop) (body : tx A) faults end_ s r s' :
  htriple P body Q → P s → in_tx body faults end_ s = (r, s') →
  (∃ a, Q a s' ∧ counters_grow s s' ∧ (r = Ok a ∨ r = Err ErrStore ∧ end_ = CommitDoneUnseen))
  ∨ (∃ e s2, r = Err e ∧ s' = rolled_back s s2 ∧ counters_grow s s2).
Proof.
  intros Hb H Hin. unfold in_tx in Hin.
  pose proof (tx_triple_bind _ _ _ _ _ (triple_call P) (λ _, Hb) (TxState s faults) H) as Ht.
  destruct ((_ ← call; body) (TxState s faults)) as [[a|e] st']; destruct Ht as [Hc HQ]; cbn in Hc.
  - destruct end_; injection Hin as <- <-; [left|right|left]; eauto 10.
  - injection Hin as <- <-. right. eauto 10.
Qed.

Lemma in_tx_early_outcome {A} P (Q : A * bool → inv_db → Prop) (body : tx (A * bool)) faults end_ s r s' :
  htriple P body Q → P s → in_tx_early body faults end_ s = (r, s') →
  (∃ a, Q (a, true) s' ∧ counters_grow s s' ∧ (r = Ok a ∨ r = Err ErrStore ∧ end_ = CommitDoneUnseen))
  ∨ (∃ s2, s' = rolled_back s s2 ∧ counters_grow s s2 ∧ ((∃ e, r = Err e) ∨ ∃ a, r = Ok a ∧ Q (a, false) s2)).
Proof.
  intros Hb H Hin. unfold in_tx_early in Hin.
  pose proof (tx_triple_bind _ _ _ _ _ (triple_call P) (λ _, Hb) (TxState s faults) H) as Ht.
  destruct ((_ ← call; body) (TxState s faults)) as [[[a []]|e] st']; destruct Ht as [Hc HQ]; cbn in Hc.
  - destruct end_; injection Hin as <- <-; [left|right|left]; eauto 10.
  - injection Hin as <- <-. right. eauto 10.
  - injection Hin as <- <-. right. eauto 10.
Qed.

(** ** What a program leaves alone *)

(** The program keeps what [view] sees of the tables. *)
Definition keeps_view {B A} (view : inv_db → B) (m : tx A) : Prop := ∀ b, htriple (λ s, view s = b) m (λ _ s, view s = b).

Section views.
Context {B : Type} (view : inv_db → B).
Lemma kept_ret {A} (a : A) : keeps_view view (mret a).
Proof. intros b. apply (tx_triple_ret a (λ _ s, view s = b)). Qed.
Lemma kept_fail {A} e : keeps_view view (tx_fail (A:=A) e).
Proof. intros b. apply triple_fail. Qed.
Lemma kept_bind {A C} (m : tx A) (f : A → tx C) : keeps_view view m → (∀ a, keeps_view view (f a)) → keeps_view view (mbind f m).
Proof. intros Hm Hf b. eapply tx_triple_bind; [apply Hm|]. intros a. apply Hf. Qed.
Lemma kept_lift {A} (r : result inventory_error A) : keeps_view view (tx_lift r).
Proof. intros b. apply (triple_conseq _ _ _ _ _ (triple_lift (λ s, view s = b) r)); [done|]. by intros a s [_ ?]. Qed.
Lemma kept_map_err {A} g (m : tx A) : keeps_view view m → keeps_view view (tx_map_err g m).
Proof. intros Hm b. apply triple_map_err, Hm. Qed.
Lemma kept_guard bad e : keeps_view view (tx_guard bad e).
Proof. apply kept_lift. Qed.
Lemma kept_call : keeps_view view call.
Proof. intros b. apply triple_call. Qed.
Lemma kept_get : keeps_view view tx_get.
Proof. intros b. apply (triple_conseq _ _ _ _ _ (triple_get (λ s, view s = b))); [done|]. by intros a s [_ ?]. Qed.
Lemma kept_read {A} (f : inv_db → A) : keeps_view view (read_call f).
Proof. apply kept_bind; [apply kept_call|]. intros ?. apply kept_bind; [apply kept_get|]. intros ?. apply kept_ret. Qed.
Lemma kept_put f : (∀ s, view (f s) = view s ∧ counters_grow s (f s)) → keeps_view view (tx_put f).
Proof. intros Hf b. apply triple_put. intros s <-. apply Hf. Qed.
Lemma kept_each {A} (f : A → tx ()) l : (∀ x, keeps_view view (f x)) → keeps_view view (tx_for_each f l).
Proof. intros Hf b. apply triple_for_each. intros x _. apply Hf. Qed.
End views.

Create HintDb frames.
#[export] Hint Resolve kept_map_err kept_ret kept_fail kept_lift kept_guard kept_call kept_get kept_read kept_each : frames.
#[export] Hint Extern 1 (keeps_view _ (tx_put _)) => apply kept_put; intros ?; split; [reflexivity|split; cbn; lia] : frames.
#[export] Hint Extern 2 (keeps_view _ (mbind _ _)) => apply kept_bind; [|intros ?] : frames.
#[export] Hint Extern 3 (keeps_view _ (match ?x with _ => _ end)) => destruct x : frames.
Ltac frames := intros; cbv beta zeta; eauto 40 with frames.
