(* ===== verification/ResourceStore.v ===== *)
(** * Writing the inventory

    The operations of [repository/mysql/resource_repository.go] and
    [relation_repository.go] that change the tables of InventoryDb: resources
    with their aliases and external identifiers, typed profiles and relations,
    each with its audit rows in the same transaction. Text columns compare
    under the collation, a parameter. *)
From S2P Require Import Prelude GoText GoAny Inventory Profiles InventoryDb.

(** MySQL's side of the text columns: the weight string of the collation
    [utf8mb4_0900_ai_ci], and the check constraints of the identity tables. *)
Class MySQLText : Type := {
  weight : bytes → bytes;
  alias_check : bytes → bool;
  identifier_check : bytes → bytes → bool;
}.

Section store.
Context `{MySQLText, UnicodeLower, FloatConversion} (sprint : gvalue → bytes).

Definition same_text (s t : bytes) : bool := weight s =?b weight t.

(** ** Reading *)

Definition aliases_of (id : Z) (s : inv_db) : list bytes :=
  sort_slice (λ a b, bytes_less (weight a) (weight b))
    (al_Alias <$> filter (λ a, al_ResourceID a = id) (db_aliases s)).
Definition identifier_less (a b : ResourceExternalIdentifier) : bool :=
  bytes_less (weight (xi_System a)) (weight (xi_System b))
  || ((weight (xi_System a) =?b weight (xi_System b)) && bytes_less (xi_Value a) (xi_Value b)).
Definition identifiers_of (id : Z) (s : inv_db) : list ResourceExternalIdentifier :=
  sort_slice identifier_less
    ((λ x, ExternalIdentifier (xr_System x) (xr_Value x)) <$> filter (λ x, xr_ResourceID x = id) (db_identifiers s)).

(** [scanResource] and [loadResourceIdentity]. *)
Definition scan_resource (id : Z) (r : resource_row) (s : inv_db) : Resource :=
  MkResource id (rw_ResourceType r) (rw_ResourceSubtype r) (rw_Name r) (rw_DisplayName r) (rw_EnvironmentID r) (rw_OwnerID r)
    (rw_LifecycleStatus r) [] (rw_HealthStatus r) (rw_Origin r) (aliases_of id s) (identifiers_of id s) (rw_Labels r) None
    (rw_ArchivedAt r).
Definition read_resource (id : Z) (s : inv_db) : option Resource := (λ r, scan_resource id r s) <$> db_resources s !! id.

(** Three queries: the row, locked, its aliases, its identifiers. *)
Definition getResourceForUpdate (id : Z) : tx Resource :=
  row ← read_call (λ s, db_resources s !! id);
  match row with
  | None => tx_fail ErrResourceNotFound
  | Some r => _ ← call; _ ← call; s ← tx_get; mret (scan_resource id r s)
  end.

(** The rows are locked in ascending order, a repeated id once. *)
Fixpoint lock_rows (last : Z) (ids : list Z) : tx () :=
  match ids with
  | [] => mret tt
  | id :: ids =>
      if (id =? last)%Z then lock_rows last ids
      else row ← read_call (λ s, db_resources s !! id);
           match row with None => tx_fail ErrResourceNotFound | Some _ => lock_rows id ids end
  end.
Definition lockResourceRows (ids : list Z) : tx () := lock_rows 0 (sort_slice Z.ltb ids).

(** ** Audit rows *)

Definition insertInventoryAuditTx (actorUserID targetResourceID : Z) (eventType : bytes) (changes : list AuditChange) : tx () :=
  write_call (add_audit (AuditEvent (Some actorUserID) None targetResourceID eventType changes)).

Definition sorted_keys (m m' : gfields) : list bytes := sort_slice bytes_less (elements (dom m ∪ dom m')).
Definition map_change (prefix : bytes) (before after : gfields) (key : bytes) : option AuditChange :=
  match before !! key, after !! key with
  | None, Some next => Some (Change (prefix ++ key) AuditChangeAdd GNull next)
  | Some old, None => Some (Change (prefix ++ key) AuditChangeRemove old GNull)
  | Some old, Some next =>
      if deep_equal old next then None else Some (Change (prefix ++ key) AuditChangeUpdate old next)
  | None, None => None
  end.
Definition auditMapChanges (prefix : bytes) (before after : gfields) : list AuditChange :=
  omap (map_change prefix before after) (sorted_keys before after).

(** ** Profiles *)

Definition fetch_profile (id : Z) (resourceType : bytes) (s : inv_db) : gfields :=
  match db_profiles s !! (resourceType, id) with Some row => profile_fields row | None => ∅ end.
(** A type without a table is not queried. *)
Definition fetchProfile (id : Z) (resourceType : bytes) : tx gfields :=
  if bool_decide (is_Some (profileFieldSchemas !! resourceType)) then read_call (fetch_profile id resourceType) else mret ∅.

Definition write_row (resourceType : bytes) (id : Z) (row : option profile_row) : tx () :=
  match row with
  | None => tx_fail ErrProfileNotSupported
  | Some row => _ ← call; _ ← tx_guard (negb (row_fits row)) ErrStore; tx_put (set_profiles <[(resourceType, id) := row]>)
  end.
Definition upsert_profile (id : Z) (resourceType : bytes) (fields : gfields) : tx () :=
  write_row resourceType id (upsertProfileTx sprint resourceType fields).
Definition patch_profile (id : Z) (resourceType : bytes) (fields : gfields) : tx () :=
  s ← tx_get; write_row resourceType id (patchProfile sprint resourceType fields (db_profiles s !! (resourceType, id))).
Definition deleteProfile (id : Z) (resourceType : bytes) : tx () :=
  if bool_decide (is_Some (profileFieldSchemas !! resourceType))
  then write_call (set_profiles (delete (resourceType, id))) else mret tt.

Inductive profile_mutation : Type := MutationPut | MutationPatch | MutationDelete.
Definition mutateProfileWithAudit (id : Z) (resourceType : bytes) (fields : gfields) (actorUserID : Z) (eventType : bytes)
    (mutation : profile_mutation) : tx () :=
  _ ← getResourceForUpdate id;
  before ← fetchProfile id resourceType;
  _ ← match mutation with
      | MutationPut => upsert_profile id resourceType fields
      | MutationPatch => patch_profile id resourceType fields
      | MutationDelete => deleteProfile id resourceType
      end;
  after ← fetchProfile id resourceType;
  insertInventoryAuditTx actorUserID id eventType (auditMapChanges (gs "profile.") before after).

(** ** Aliases and external identifiers *)

Definition alias_conflicts (id environmentID : Z) (alias : bytes) (s : inv_db) : bool :=
  existsb (λ a, ((al_EnvironmentID a =? environmentID)%Z || (al_ResourceID a =? id)%Z) && same_text (al_Alias a) alias) (db_aliases s).
Definition insert_alias (id environmentID : Z) (alias : bytes) : tx () :=
  _ ← call;
  s ← tx_get;
  _ ← tx_guard (negb (alias_check alias) || (255 <? rune_count alias)%nat) ErrStore;
  _ ← tx_guard (alias_conflicts id environmentID alias s) ErrResourceAliasConflict;
  tx_put (set_aliases (λ l, l ++ [AliasRow id environmentID alias])).

Definition identifier_conflicts (x : ResourceExternalIdentifier) (s : inv_db) : bool :=
  existsb (λ y, same_text (xr_System y) (xi_System x) && (xr_Value y =?b xi_Value x)) (db_identifiers s).
Definition insert_identifier (id : Z) (x : ResourceExternalIdentifier) : tx () :=
  _ ← call;
  s ← tx_get;
  _ ← tx_guard (negb (identifier_check (xi_System x) (xi_Value x)) || (128 <? rune_count (xi_System x))%nat
                || (255 <? rune_count (xi_Value x))%nat) ErrStore;
  _ ← tx_guard (identifier_conflicts x s) ErrResourceExternalIdentifierConflict;
  tx_put (set_identifiers (λ l, l ++ [IdentifierRow id (xi_System x) (xi_Value x)])).

Definition normal_alias (alias : bytes) : bytes := unicode_lower (trim_space alias).
Definition normal_identifier (x : ResourceExternalIdentifier) : ResourceExternalIdentifier :=
  ExternalIdentifier (unicode_lower (trim_space (xi_System x))) (trim_space (xi_Value x)).
(** [system + "\x00" + value] *)
Definition identifier_key (x : ResourceExternalIdentifier) : bytes := xi_System x ++ nul :: xi_Value x.

Fixpoint insert_aliases (id environmentID : Z) (seen : list bytes) (aliases : list bytes) : tx () :=
  match aliases with
  | [] => mret tt
  | raw :: rest =>
      let alias := normal_alias raw in
      if bool_decide (alias ∈ seen) then insert_aliases id environmentID seen rest
      else _ ← insert_alias id environmentID alias; insert_aliases id environmentID (alias :: seen) rest
  end.
Fixpoint insert_identifiers (id : Z) (seen : list bytes) (identifiers : list ResourceExternalIdentifier) : tx () :=
  match identifiers with
  | [] => mret tt
  | raw :: rest =>
      let x := normal_identifier raw in
      if bool_decide (identifier_key x ∈ seen) then insert_identifiers id seen rest
      else _ ← insert_identifier id x; insert_identifiers id (identifier_key x :: seen) rest
  end.
Definition insertResourceIdentityTx (id environmentID : Z) (aliases : list bytes) (identifiers : list ResourceExternalIdentifier) : tx () :=
  _ ← insert_aliases id environmentID [] aliases;
  insert_identifiers id [] identifiers.

(** ** Resources *)

Record ResourceCreateInput : Type := CreateInput {
  cr_ResourceType : bytes;
  cr_ResourceSubtype : bytes;
  cr_Name : bytes;
  cr_DisplayName : bytes;
  cr_EnvironmentID : Z;
  cr_OwnerID : Z;
  cr_LifecycleStatus : bytes;
  cr_HealthStatus : bytes;
  cr_Origin : bytes;
  cr_Aliases : list bytes;
  cr_ExternalIdentifiers : list ResourceExternalIdentifier;
  cr_Source : bytes;
  cr_ExternalID : bytes;
  cr_Labels : gmap bytes bytes;
  cr_Profile : option gfields;           (** nil or a map, possibly empty *)
}.

Definition ApplyLegacyCreateFields (i : ResourceCreateInput) : ResourceCreateInput :=
  let origin := if cr_Origin i =?b [] then default [] (OriginFromSource (cr_Source i)) else cr_Origin i in
  let identifiers :=
    match cr_ExternalIdentifiers i with
    | [] => if trim_space (cr_ExternalID i) =?b [] then [] else [ExternalIdentifier (gs "legacy") (trim_space (cr_ExternalID i))]
    | l => l
    end in
  CreateInput (cr_ResourceType i) (cr_ResourceSubtype i) (cr_Name i) (cr_DisplayName i) (cr_EnvironmentID i) (cr_OwnerID i)
    (cr_LifecycleStatus i) (cr_HealthStatus i) origin (cr_Aliases i) identifiers (cr_Source i) (cr_ExternalID i) (cr_Labels i)
    (cr_Profile i).

Definition name_conflicts (id : Z) (r : resource_row) (s : inv_db) : bool :=
  bool_decide (map_Exists (λ id' r', id' ≠ id ∧ same_text (rw_Name r') (rw_Name r) = true
                                     ∧ rw_EnvironmentID r' = rw_EnvironmentID r
                                     ∧ same_text (rw_ResourceType r') (rw_ResourceType r) = true) (db_resources s)).
Definition resource_fits (r : resource_row) : bool :=
  columns_fit [(rw_ResourceType r, 64); (rw_ResourceSubtype r, 64); (rw_Name r, 255); (rw_DisplayName r, 255);
               (rw_LifecycleStatus r, 64); (rw_Origin r, 64)]
  && match rw_HealthStatus r with Some h => columns_fit [(h, 64)] | None => true end
  && ResourceType_Validate (rw_ResourceType r) && Origin_Validate (rw_Origin r).

Definition createResourceTx (input : ResourceCreateInput) (profile : option gfields) : tx Z :=
  let input := ApplyLegacyCreateFields input in
  let row := ResourceRow (cr_ResourceType input) (cr_ResourceSubtype input) (cr_Name input) (cr_DisplayName input)
               (cr_EnvironmentID input) (cr_OwnerID input) (cr_LifecycleStatus input) (Some (cr_HealthStatus input))
               (cr_Origin input) (cr_Labels input) None in
  _ ← call;
  s ← tx_get;
  let id := db_next_resource s in
  _ ← tx_put take_resource_id;
  _ ← tx_guard (negb (resource_fits row)) ErrStore;
  _ ← tx_guard (name_conflicts id row s) ErrResourceNameConflict;
  _ ← tx_put (put_resources <[id := row]>);
  _ ← insertResourceIdentityTx id (cr_EnvironmentID input) (cr_Aliases input) (cr_ExternalIdentifiers input);
  _ ← match profile with Some fields => upsert_profile id (cr_ResourceType input) fields | None => mret tt end;
  mret id.

Record ResourceUpdateInput : Type := UpdateInput {
  up_Name : option bytes;
  up_ResourceSubtype : option bytes;
  up_DisplayName : option bytes;
  up_EnvironmentID : option Z;
  up_OwnerID : option Z;
  up_LifecycleStatus : option bytes;
  up_HealthStatus : option bytes;
  up_ClearHealthStatus : bool;
  up_Aliases : option (list bytes);
  up_ExternalIdentifiers : option (list ResourceExternalIdentifier);
  up_Labels : option (gmap bytes bytes);
}.

(** The statement writes nothing when no column is set and no identity is replaced. *)
Definition updates_columns (i : ResourceUpdateInput) : bool :=
  bool_decide (is_Some (up_Name i)) || bool_decide (is_Some (up_ResourceSubtype i)) || bool_decide (is_Some (up_DisplayName i))
  || bool_decide (is_Some (up_EnvironmentID i)) || bool_decide (is_Some (up_OwnerID i))
  || bool_decide (is_Some (up_LifecycleStatus i)) || up_ClearHealthStatus i || bool_decide (is_Some (up_HealthStatus i))
  || bool_decide (is_Some (up_Labels i)).
Definition resourceUpdateStatement (i : ResourceUpdateInput) : option (resource_row → resource_row) :=
  if negb (updates_columns i) && bool_decide (up_Aliases i = None) && bool_decide (up_ExternalIdentifiers i = None) then None
  else Some (λ r,
    ResourceRow (rw_ResourceType r) (default (rw_ResourceSubtype r) (up_ResourceSubtype i)) (default (rw_Name r) (up_Name i))
      (default (rw_DisplayName r) (up_DisplayName i)) (default (rw_EnvironmentID r) (up_EnvironmentID i))
      (default (rw_OwnerID r) (up_OwnerID i)) (default (rw_LifecycleStatus r) (up_LifecycleStatus i))
      (if up_ClearHealthStatus i then None else match up_HealthStatus i with Some h => Some h | None => rw_HealthStatus r end)
      (rw_Origin r) (default (rw_Labels r) (up_Labels i)) (rw_ArchivedAt r)).
Definition write_resource (id : Z) (f : resource_row → resource_row) : tx () :=
  _ ← call;
  s ← tx_get;
  match db_resources s !! id with
  | None => mret tt
  | Some r =>
      _ ← tx_guard (negb (resource_fits (f r))) ErrStore;
      _ ← tx_guard (name_conflicts id (f r) s) ErrResourceNameConflict;
      tx_put (put_resources <[id := f r]>)
  end.

(** [update resource_aliases set environment_id = ?], row by row. *)
Definition move_conflicts (id environmentID : Z) (s : inv_db) : bool :=
  existsb (λ a, (al_ResourceID a =? id)%Z
                && existsb (λ b, negb (al_ResourceID b =? id)%Z && (al_EnvironmentID b =? environmentID)%Z
                                 && same_text (al_Alias b) (al_Alias a)) (db_aliases s)) (db_aliases s).
Definition move_aliases (id environmentID : Z) : tx () :=
  _ ← call;
  s ← tx_get;
  _ ← tx_guard (move_conflicts id environmentID s) ErrResourceAliasConflict;
  tx_put (set_aliases (fmap (λ a, if (al_ResourceID a =? id)%Z then AliasRow id environmentID (al_Alias a) else a))).
Definition replaceResourceIdentityTx (id environmentID : Z) (input : ResourceUpdateInput) : tx () :=
  _ ← match up_Aliases input, up_EnvironmentID input with
      | Some aliases, _ =>
          _ ← write_call (set_aliases (filter (λ a, al_ResourceID a ≠ id)));
          insertResourceIdentityTx id environmentID aliases []
      | None, Some _ => move_aliases id environmentID
      | None, None => mret tt
      end;
  match up_ExternalIdentifiers input with
  | Some identifiers =>
      _ ← write_call (set_identifiers (filter (λ x, xr_ResourceID x ≠ id)));
      insertResourceIdentityTx id environmentID [] identifiers
  | None => mret tt
  end.
Definition updateResourceTx (id : Z) (input : ResourceUpdateInput) : tx Resource :=
  existing ← getResourceForUpdate id;
  _ ← match resourceUpdateStatement input with Some f => write_resource id f | None => mret tt end;
  _ ← replaceResourceIdentityTx id (default (rs_EnvironmentID existing) (up_EnvironmentID input)) input;
  mret existing.

Definition text_change (field : string) (old : bytes) (next : option bytes) : list AuditChange :=
  match next with
  | Some next => if old =?b next then [] else [Change (gs field) AuditChangeUpdate (GString old) (GString next)]
  | None => []
  end.
Definition id_change (field : string) (old : Z) (next : option Z) : list AuditChange :=
  match next with
  | Some next => if (old =? next)%Z then [] else [Change (gs field) AuditChangeUpdate (GInt old) (GInt next)]
  | None => []
  end.
Definition health_change (before : option bytes) (i : ResourceUpdateInput) : list AuditChange :=
  let field := gs "manualHealthOverride" in
  if up_ClearHealthStatus i then
    match before with Some h => [Change field AuditChangeRemove (GString h) GNull] | None => [] end
  else match up_HealthStatus i, before with
       | Some h, None => [Change field AuditChangeAdd GNull (GString h)]
       | Some h, Some old => if old =?b h then [] else [Change field AuditChangeUpdate (GString old) (GString h)]
       | None, _ => []
       end.
Definition identifier_value (x : ResourceExternalIdentifier) : gvalue :=
  GObject (list_to_map [(gs "system", GString (xi_System x)); (gs "value", GString (xi_Value x))]).
Definition list_change {A} `{EqDecision A} (field : string) (value : A → gvalue) (old : list A) (next : option (list A)) : list AuditChange :=
  match next with
  | Some next => if bool_decide (old = next) then [] else [Change (gs field) AuditChangeUpdate (GArray (value <$> old)) (GArray (value <$> next))]
  | None => []
  end.
Definition label_keys (m : gmap bytes bytes) : list bytes := sort_slice bytes_less (elements (dom m)).
Definition label_changes (before after : gmap bytes bytes) : list AuditChange :=
  omap (λ key,
    match before !! key, after !! key with
    | Some old, None => Some (Change (gs "labels." ++ key) AuditChangeRemove (GString old) GNull)
    | Some old, Some next => if old =?b next then None else Some (Change (gs "labels." ++ key) AuditChangeUpdate (GString old) (GString next))
    | None, _ => None
    end) (label_keys before)
  ++ omap (λ key,
    match before !! key, after !! key with
    | None, Some next => Some (Change (gs "labels." ++ key) AuditChangeAdd GNull (GString next))
    | _, _ => None
    end) (label_keys after).
Definition resourceAuditChanges (before : Resource) (i : ResourceUpdateInput) : list AuditChange :=
  text_change "identity.name" (rs_Name before) (up_Name i)
  ++ text_change "identity.resourceSubtype" (rs_ResourceSubtype before) (up_ResourceSubtype i)
  ++ text_change "identity.displayName" (rs_DisplayName before) (up_DisplayName i)
  ++ id_change "environmentId" (rs_EnvironmentID before) (up_EnvironmentID i)
  ++ id_change "ownerId" (rs_OwnerID before) (up_OwnerID i)
  ++ text_change "lifecycleStatus" (rs_LifecycleStatus before) (up_LifecycleStatus i)
  ++ health_change (rs_ManualHealthOverride before) i
  ++ list_change "identity.aliases" GString (rs_Aliases before) (up_Aliases i)
  ++ list_change "identity.externalIdentifiers" identifier_value (rs_ExternalIdentifiers before) (up_ExternalIdentifiers i)
  ++ match up_Labels i with Some labels => label_changes (rs_Labels before) labels | None => [] end.

Definition update_with_audit (id : Z) (input : ResourceUpdateInput) (actorUserID : Z) (eventType : bytes) : tx () :=
  existing ← updateResourceTx id input;
  insertInventoryAuditTx actorUserID id eventType (resourceAuditChanges existing input).
End store.

(** ** What the identity and profile writes leave alone *)

Section frames.
Context `{MySQLText, UnicodeLower, FloatConversion} (sprint : gvalue → bytes) {B : Type} (view : inv_db → B)
        (view_aliases : ∀ f s, view (set_aliases f s) = view s) (view_identifiers : ∀ f s, view (set_identifiers f s) = view s)
        (view_profiles : ∀ f s, view (set_profiles f s) = view s).

#[local] Hint Extern 1 (keeps_view _ (tx_put _)) => apply kept_put; intros ?; split; [auto|split; cbn; lia] : frames.
Lemma kept_lookup id : keeps_view view (getResourceForUpdate id).
Proof. unfold getResourceForUpdate. frames. Qed.
Lemma kept_write_row ty id row : keeps_view view (write_row ty id row).
Proof. unfold write_row. frames. Qed.
Lemma kept_delete_profile id ty : keeps_view view (deleteProfile id ty).
Proof. unfold deleteProfile, write_call. frames. Qed.
Lemma kept_aliases id env seen l : keeps_view view (insert_aliases id env seen l).
Proof. revert seen. induction l as [|a l IH]; intros seen; cbn [insert_aliases]; unfold insert_alias; frames. Qed.
Lemma kept_identifiers id seen l : keeps_view view (insert_identifiers id seen l).
Proof. revert seen. induction l as [|a l IH]; intros seen; cbn [insert_identifiers]; unfold insert_identifier; frames. Qed.
Lemma kept_identity id env l l' : keeps_view view (insertResourceIdentityTx id env l l').
Proof. apply kept_bind; [apply kept_aliases|]. intros ?. apply kept_identifiers. Qed.
#[local] Hint Resolve kept_identity : frames.
Lemma kept_replace id env input : keeps_view view (replaceResourceIdentityTx id env input).
Proof. unfold replaceResourceIdentityTx, move_aliases, write_call. frames. Qed.
End frames.
#[export] Hint Resolve kept_lookup kept_write_row kept_delete_profile kept_identity kept_replace : frames.
