(* ===== verification/CollectorScan.v ===== *)
(** * Collector scans

    [model/collector_scan.go] and [repository/mysql/collector_scan_repository.go]:
    what a completed scan makes of a collector's view of one resource, the
    ledger that makes a scan count once, and the rows of the two tables. Times
    are nanoseconds; [CompletedAt.UTC()] names the same instant. *)
From S2P Require Import Prelude GoText GoAny Inventory Profiles InventoryDb ResourceStore.

(** ** The transitions of one resource *)

Definition CollectorScanResultComplete : bytes := gs "complete".
Definition CollectorScanResultIncomplete : bytes := gs "incomplete".
Definition CollectorScanResultFailed : bytes := gs "failed".
Definition scan_results : list bytes := [CollectorScanResultComplete; CollectorScanResultIncomplete; CollectorScanResultFailed].
Definition MaxCompleteScanOmissions : Z := 3.

Record CollectorScan : Type := Scan { cn_ID : bytes; cn_Result : bytes; cn_CompletedAt : Z }.
Record CollectorScanLedgerEntry : Type := LedgerEntry {
  le_MachinePrincipalID : Z;
  le_CollectorScanID : bytes;
  le_PayloadHash : bytes;                  (** 32 bytes *)
  le_Result : bytes;
  le_CompletedAt : Z;
}.
Definition MatchesRetry (e : CollectorScanLedgerEntry) (payloadHash result : bytes) : bool :=
  (le_PayloadHash e =?b payloadHash) && (le_Result e =?b result).

Record CollectorCIState : Type := CIState {
  cc_MachinePrincipalID : Z;
  cc_ResourceID : Z;
  cc_ConsecutiveCompleteScanOmissions : Z;  (** a uint8, at most 3 *)
  cc_LastSeenScanID : bytes;
  cc_LastCompletedScanID : bytes;
  cc_MissingSince : option Z;
}.
#[export] Instance ci_state_eq_dec : EqDecision CollectorCIState.
Proof. solve_decision. Defined.

Definition ApplyCollectorScan (state : CollectorCIState) (scan : CollectorScan) (seen : bool) : result bytes CollectorCIState :=
  let 'CIState principal resource omissions lastSeen lastCompleted missingSince := state in
  let complete := cn_Result scan =?b CollectorScanResultComplete in
  if (cn_ID scan =?b []) || (cn_CompletedAt scan =? zero_time)%Z then Err (gs "collector scan ID and completion time are required")
  else if negb (bool_decide (cn_Result scan ∈ scan_results)) then Err (gs "collector scan result is not supported")
  else if (MaxCompleteScanOmissions <? omissions)%Z then Err (gs "complete-scan omissions exceed the durable cap")
  else if complete && (lastCompleted =?b cn_ID scan) then Ok state
  else if seen then Ok (CIState principal resource 0 (cn_ID scan) (if complete then cn_ID scan else lastCompleted) None)
  else if negb complete || (lastSeen =?b []) then Ok state
  else
    let omissions := if (omissions <? MaxCompleteScanOmissions)%Z then (omissions + 1)%Z else omissions in
    let missingSince :=
      if (omissions =? MaxCompleteScanOmissions)%Z && bool_decide (missingSince = None) then Some (cn_CompletedAt scan) else missingSince in
    Ok (CIState principal resource omissions lastSeen (cn_ID scan) missingSince).

(** ** The ledger *)

Definition maxCollectorStateEntries : nat := 500.

(** [ascii_bin] pads: trailing spaces do not count in comparisons. *)
Definition pad_key (id : bytes) : bytes := reverse (trim_from [[bz 32]] 0 (reverse id)).
(** A [varchar(255)] of ASCII characters. *)
Definition scan_id_storable (id : bytes) : bool := forallb (λ c, (bv c <? 128)%Z) id && (length id <=? 255)%nat.
(** The columns' types and the table's checks. *)
Definition entry_storable (e : CollectorScanLedgerEntry) : bool :=
  scan_id_storable (le_CollectorScanID e) && negb (pad_key (le_CollectorScanID e) =?b [])
  && bool_decide (le_Result e ∈ scan_results).
(** The unique key. *)
Definition ledger_key (e : CollectorScanLedgerEntry) : Z * bytes := (le_MachinePrincipalID e, pad_key (le_CollectorScanID e)).

Section collector.
Context `{DbTime}.

Definition ledger_row (id : Z) (e : CollectorScanLedgerEntry) : scan_ledger_row :=
  ScanRow id (le_PayloadHash e) (le_Result e) (store_time (le_CompletedAt e)).

Definition findCollectorScanRetry (e : CollectorScanLedgerEntry) : tx (option Z) :=
  row ← read_call (λ s, db_scans s !! ledger_key e);
  match row with
  | None => mret None
  | Some row =>
      _ ← tx_guard (negb (length (sl_PayloadHash row) =? 32)%nat) (ErrCollectorScan (gs "payload hash length"));
      _ ← tx_guard (negb (MatchesRetry e (sl_PayloadHash row) (sl_Result row)))
            (CollectorScanConflictError (le_MachinePrincipalID e) (le_CollectorScanID e));
      mret (Some (sl_ID row))
  end.
Definition compareCollectorScanRetry (e : CollectorScanLedgerEntry) : tx Z :=
  found ← findCollectorScanRetry e;
  match found with
  | None => tx_fail (ErrCollectorScan (gs "collector scan ledger entry disappeared during retry"))
  | Some id => mret id
  end.
(** A refused duplicate has used a number of the counter up. *)
Definition insertCollectorScanLedger (e : CollectorScanLedgerEntry) : tx (Z * bool) :=
  _ ← call;
  _ ← tx_guard (negb (entry_storable e)) ErrStore;
  s ← tx_get;
  let id := db_next_scan s in
  _ ← tx_put take_scan_id;
  if bool_decide (is_Some (db_scans s !! ledger_key e))
  then id ← compareCollectorScanRetry e; mret (id, false)
  else _ ← tx_put (set_scans <[ledger_key e := ledger_row id e]>); mret (id, true).
Definition ClaimCollectorScan (e : CollectorScanLedgerEntry) : tx (Z * bool) := insertCollectorScanLedger e.

(** ** The states *)

(** A NULL column reads as the empty string. *)
Definition state_of (principal resource : Z) (row : ci_state_row) : CollectorCIState :=
  CIState principal resource (st_Omissions row) (st_LastSeen row) (default [] (st_LastCompleted row)) (st_MissingSince row).
Definition stored_row (state : CollectorCIState) : ci_state_row :=
  CIStateRow (cc_ConsecutiveCompleteScanOmissions state) (cc_LastSeenScanID state)
    (if cc_LastCompletedScanID state =?b [] then None else Some (cc_LastCompletedScanID state))
    (store_time <$> cc_MissingSince state).
Definition state_key (state : CollectorCIState) : Z * Z := (cc_MachinePrincipalID state, cc_ResourceID state).
(** The columns' types and the table's checks. *)
Definition state_storable (row : ci_state_row) : bool :=
  scan_id_storable (st_LastSeen row) && negb (pad_key (st_LastSeen row) =?b [])
  && scan_id_storable (default [] (st_LastCompleted row)) && (st_Omissions row <=? 3)%Z
  && Bool.eqb (st_Omissions row =? 3)%Z (bool_decide (is_Some (st_MissingSince row))).

Definition locked_states (principal : Z) (s : inv_db) : list CollectorCIState :=
  take (maxCollectorStateEntries + 1)
    (sort_slice (λ a b, (cc_ResourceID a <? cc_ResourceID b)%Z)
      ((λ '((_, resource), row), state_of principal resource row)
         <$> filter (λ '((p, _), _), p = principal) (map_to_list (db_ci_states s)))).

Definition apply_scan (state : CollectorCIState) (scan : CollectorScan) (seen : bool) : tx CollectorCIState :=
  tx_lift (map_err ErrCollectorScan (ApplyCollectorScan state scan seen)).
(** An update or an insert of the state's row, which the table may refuse. *)
Definition write_state (state : CollectorCIState) : tx () :=
  _ ← call;
  _ ← tx_guard (negb (state_storable (stored_row state))) ErrStore;
  tx_put (set_ci_states <[state_key state := stored_row state]>).
Definition update_state (scan : CollectorScan) (seen : gset Z) (state : CollectorCIState) : tx () :=
  next ← apply_scan state scan (bool_decide (cc_ResourceID state ∈ seen));
  if bool_decide (next = state) then mret tt else write_state next.
Definition insert_state (principal : Z) (scan : CollectorScan) (resourceID : Z) : tx () :=
  state ← apply_scan (CIState principal resourceID 0 [] [] None) scan true;
  write_state state.

(** [slices.Compact] *)
Fixpoint compact (l : list Z) : list Z :=
  match l with
  | x :: (y :: _) as t => if (x =? y)%Z then compact t else x :: compact t
  | _ => l
  end.

Definition applyCollectorScanStates (principal : Z) (scan : CollectorScan) (seenResourceIDs : list Z) : tx () :=
  _ ← tx_guard (principal =? 0)%Z (ErrCollectorScan (gs "machine principal ID is required"));
  _ ← apply_scan (CIState 0 0 0 [] [] None) scan false;
  _ ← tx_guard (existsb (Z.eqb 0) seenResourceIDs) (ErrCollectorScan (gs "seen resource IDs must be positive"));
  let seenResourceIDs := compact (sort_slice Z.ltb seenResourceIDs) in
  states ← read_call (locked_states principal);
  _ ← tx_guard (maxCollectorStateEntries <? length states)%nat (CollectorStateLimitError principal);
  let existing : gset Z := list_to_set (cc_ResourceID <$> states) in
  let unknown := filter (λ id, id ∉ existing) seenResourceIDs in
  _ ← tx_guard (maxCollectorStateEntries <? size existing + length unknown)%nat (CollectorStateLimitError principal);
  _ ← tx_for_each (update_state scan (list_to_set seenResourceIDs)) states;
  tx_for_each (insert_state principal scan) unknown.

Definition ApplyCollectorScanStates (e : CollectorScanLedgerEntry) (seenResourceIDs : list Z) : tx () :=
  applyCollectorScanStates (le_MachinePrincipalID e) (Scan (le_CollectorScanID e) (le_Result e) (le_CompletedAt e)) seenResourceIDs.

(** The repository's function of the same name as the model's. *)
Definition repository_ApplyCollectorScan (e : CollectorScanLedgerEntry) (seenResourceIDs : list Z) : tx Z :=
  '(id, claimed) ← ClaimCollectorScan e;
  if negb claimed then mret id else _ ← ApplyCollectorScanStates e seenResourceIDs; mret id.

Definition mapCollectorScanError (e : inventory_error) : inventory_error :=
  match e with
  | CollectorScanConflictError _ _ => ErrCollectorScanConflict
  | CollectorStateLimitError _ => ErrCollectorStateLimit
  | _ => e
  end.

(** What a resource's reader is told, by collector; [names] are the principals'. *)
Record CollectorPresence : Type := Presence {
  cp_Missing : bool; cp_MachinePrincipalID : Z; cp_MachinePrincipalName : bytes; cp_MissingSince : option Z;
}.
Definition attachCollectorPresence (names : gmap Z bytes) (resource : Z) (s : inv_db) : list CollectorPresence * bool :=
  let rows := take (maxCollectorStateEntries + 1)
    (sort_slice (λ a b, (cp_MachinePrincipalID a <? cp_MachinePrincipalID b)%Z)
      ((λ '((p, _), row), Presence (bool_decide (is_Some (st_MissingSince row))) p (default [] (names !! p)) (st_MissingSince row))
         <$> filter (λ '((_, r), _), r = resource) (map_to_list (db_ci_states s)))) in
  (take maxCollectorStateEntries rows, (maxCollectorStateEntries <? length rows)%nat).
End collector.

(** ** What a history of scans comes to *)

(** The completed scans of a collector in order, with whether each saw the resource. *)
Definition supported (scan : CollectorScan) : Prop :=
  cn_ID scan ≠ [] ∧ cn_CompletedAt scan ≠ zero_time ∧ cn_Result scan ∈ scan_results.
Definition is_complete (scan : CollectorScan) : Prop := cn_Result scan = CollectorScanResultComplete.
#[export] Instance is_complete_dec scan : Decision (is_complete scan).
Proof. unfold is_complete. apply _. Defined.

Definition unseen_state (principal resource : Z) : CollectorCIState := CIState principal resource 0 [] [] None.
Fixpoint apply_scans (state : CollectorCIState) (l : list (CollectorScan * bool)) : result bytes CollectorCIState :=
  match l with
  | [] => Ok state
  | (scan, seen) :: l => state ← ApplyCollectorScan state scan seen; apply_scans state l
  end.
(** From the first scan that saw the resource on. *)
Fixpoint observed (l : list (CollectorScan * bool)) : list (CollectorScan * bool) :=
  match l with
  | [] => []
  | (_, true) :: _ => l
  | (_, false) :: l => observed l
  end.
Definition complete_scans (l : list (CollectorScan * bool)) : list CollectorScan := filter is_complete l.*1.
Definition last_complete (l : list (CollectorScan * bool)) : bytes := from_option cn_ID [] (last (complete_scans (observed l))).

Lemma observed_nil l : observed l = [] ↔ Forall (λ e, e.2 = false) l.
Proof.
  induction l as [|[scan []] l IH]; cbn; [by split|split; [done|by intros [? _]%Forall_cons]|].
  rewrite IH, Forall_cons. naive_solver.
Qed.
Lemma observed_snoc l e :
  observed (l ++ [e]) = if bool_decide (observed l = []) then (if e.2 then [e] else []) else observed l ++ [e].
Proof. induction l as [|[scan []] l IH]; cbn; [by destruct e as [? []]|done|done]. Qed.
Lemma complete_snoc l scan seen :
  complete_scans (l ++ [(scan, seen)]) = if decide (is_complete scan) then complete_scans l ++ [scan] else complete_scans l.
Proof.
  unfold complete_scans. rewrite fmap_app, filter_app. change ([(scan, seen)].*1) with [scan]. rewrite filter_cons, filter_nil. case_decide; [done|apply app_nil_r].
Qed.
Lemma last_complete_snoc l scan seen :
  last_complete (l ++ [(scan, seen)])
  = if decide (is_complete scan ∧ (observed l ≠ [] ∨ seen = true)) then cn_ID scan else last_complete l.
Proof.
  unfold last_complete. rewrite observed_snoc. case_bool_decide as Ho.
  - rewrite Ho. destruct seen; cbn; [|rewrite decide_False by naive_solver; done].
    destruct (decide (is_complete scan)).
    + rewrite decide_True by auto. done.
    + rewrite decide_False by naive_solver. done.
  - rewrite complete_snoc. destruct (decide (is_complete scan)).
    + rewrite last_snoc, decide_True by auto. done.
    + rewrite decide_False by naive_solver. done.
Qed.
Lemma last_complete_in l : last_complete l = [] ∨ last_complete l ∈ cn_ID <$> l.*1.
Proof.
  unfold last_complete. destruct (last _) as [scan|] eqn:E; [right|by left]. apply last_Some_elem_of in E.
  apply list_elem_of_filter in E as [_ E]. cbn. apply list_elem_of_fmap_2. revert E.
  induction l as [|[? []] l IH]; cbn; [done|done|]. intros ?%IH. by right.
Qed.

Lemma apply_scans_snoc state l e :
  apply_scans state (l ++ [e]) = (state ← apply_scans state l; ApplyCollectorScan state e.1 e.2).
Proof.
  revert state. induction l as [|[scan seen] l IH]; intros state; cbn.
  - destruct e as [scan seen]. cbn. by destruct (ApplyCollectorScan _ _ _).
  - destruct (ApplyCollectorScan state scan seen); [apply IH|done].
Qed.

(** One step, for a supported scan that is not the last completed one. *)
Lemma apply_step p r n seen_id completed missing scan seen :
  supported scan → (n ≤ 3)%Z → completed ≠ cn_ID scan →
  ApplyCollectorScan (CIState p r n seen_id completed missing) scan seen
  = Ok (if seen then CIState p r 0 (cn_ID scan) (if decide (is_complete scan) then cn_ID scan else completed) None
        else if decide (is_complete scan ∧ seen_id ≠ [])
        then CIState p r (Z.min 3 (n + 1)) seen_id (cn_ID scan)
               (if decide ((2 ≤ n)%Z ∧ missing = None) then Some (cn_CompletedAt scan) else missing)
        else CIState p r n seen_id completed missing).
Proof.
  intros (Hid & Ht & Hres) Hn Hc. unfold ApplyCollectorScan. unfold is_complete.
  rewrite (bool_decide_eq_false_2 _ Hid), (bool_decide_eq_true_2 _ Hres). apply Z.eqb_neq in Ht. rewrite Ht. cbn [orb negb].
  destruct (Z.ltb_spec MaxCompleteScanOmissions n) as [Hlt|_]; [unfold MaxCompleteScanOmissions in Hlt; lia|].
  rewrite (bool_decide_eq_false_2 _ Hc), andb_false_r.
  destruct seen; [by repeat case_decide; case_bool_decide|].
  destruct (decide (cn_Result scan = CollectorScanResultComplete)) as [E|E].
  2: { rewrite (bool_decide_eq_false_2 _ E), decide_False by tauto. done. }
  rewrite (bool_decide_eq_true_2 _ E). cbn [negb orb]. case_bool_decide as Hs; [by rewrite decide_False by tauto|].
  rewrite decide_True by tauto. unfold MaxCompleteScanOmissions. f_equal.
  destruct (Z.ltb_spec n 3).
  - rewrite Z.min_r by lia. f_equal. destruct (Z.eqb_spec (n + 1) 3); cbn; [|by rewrite decide_False by lia].
    case_bool_decide; [by rewrite decide_True by (split; [lia|done])|by rewrite decide_False by tauto].
  - assert (n = 3%Z) as -> by lia. cbn. f_equal. case_bool_decide; [by rewrite decide_True by (split; [lia|done])|by rewrite decide_False by tauto].
Qed.

(** Different scans, each supported. *)
Definition scan_history (l : list (CollectorScan * bool)) : Prop := Forall supported l.*1 ∧ NoDup (cn_ID <$> l.*1).
Lemma scan_history_snoc l scan seen :
  scan_history (l ++ [(scan, seen)]) → scan_history l ∧ supported scan ∧ last_complete l ≠ cn_ID scan.
Proof.
  unfold scan_history. rewrite !fmap_app, NoDup_app, Forall_app. intros [[Hl Hs] (Hn & Hd & _)]. cbn in *.
  apply Forall_cons in Hs as [Hs _]. split; [done|]. split; [done|]. intros E.
  destruct (last_complete_in l) as [H|H]; [rewrite H in E; by destruct Hs as [[] _]|].
  rewrite E in H. apply (Hd _ H). by apply list_elem_of_singleton.
Qed.
Lemma apply_scans_prefix p r l :
  scan_history l → ∃ n seen_id missing,
    apply_scans (unseen_state p r) l = Ok (CIState p r n seen_id (last_complete l) missing)
    ∧ (n ≤ 3)%Z ∧ (seen_id = [] ↔ observed l = []) ∧ (observed l = [] → n = 0%Z ∧ missing = None).
Proof.
  induction l as [|[scan seen] l IH] using rev_ind; intros Hh.
  { exists 0%Z, [], None. split; [done|]. split; [lia|done]. }
  apply scan_history_snoc in Hh as (Hh & Hs & Hne). destruct (IH Hh) as (n & sid & m & Hl & Hn & Hsid & Hm).
  rewrite apply_scans_snoc, Hl. cbn [mbind result_bind fst snd]. rewrite apply_step by done.
  assert (∀ (k : list (CollectorScan * bool)) e, k ++ [e] ≠ []) as Hsn by (by intros []).
  rewrite last_complete_snoc, observed_snoc. destruct Hs as [Hid _]. destruct seen.
  - exists 0%Z, (cn_ID scan), None. split; [|split; [lia|]].
    + destruct (decide (is_complete scan)); [by rewrite decide_True by auto|by rewrite decide_False by tauto].
    + case_bool_decide; cbn; (split; [|done]); (split; [done|]); [done|by intros ?%Hsn].
  - destruct (decide (is_complete scan ∧ sid ≠ [])) as [[Hc H1]|H1].
    + assert (observed l ≠ []) as Ho by tauto. eexists _, sid, _. rewrite (decide_True _ _ (conj Hc (or_introl Ho))).
      split; [reflexivity|]. split; [lia|]. rewrite bool_decide_eq_false_2 by tauto. split; [split; [done|by intros ?%Hsn]|by intros ?%Hsn].
    + exists n, sid, m. rewrite decide_False by (destruct (decide (sid = [])); [|tauto]; intros [? [?|?]]; [tauto|done]).
      split; [done|]. split; [done|]. case_bool_decide as Ho; [tauto|].
      split; [split; [by intros ?%Hsid|by intros ?%Hsn]|by intros ?%Hsn].
Qed.

(** What a collector holds of a resource is exactly what its completed scans
    say. For pairwise different scans of which [scan] is the last that saw the
    resource, the state counts the complete scans since — incomplete and failed
    ones say nothing — up to three; the resource is missing from the third of
    them, at the time that scan completed; and the state names the last scan
    that saw the resource and the last complete one. *)
Lemma presence_exact p r l1 scan l2 :
  scan_history (l1 ++ (scan, true) :: l2) → Forall (λ e, e.2 = false) l2 →
  let omissions := complete_scans l2 in
  apply_scans (unseen_state p r) (l1 ++ (scan, true) :: l2)
  = Ok (CIState p r (Z.of_nat (min 3 (length omissions))) (cn_ID scan) (last_complete (l1 ++ (scan, true) :: l2))
          (cn_CompletedAt <$> omissions !! 2)).
Proof.
  intros Hh Hf. cbn zeta. induction l2 as [|[next seen] l2 IH] using rev_ind.
  - apply scan_history_snoc in Hh as (Hh & Hs & Hne).
    destruct (apply_scans_prefix p r l1 Hh) as (n & sid & m & Hl & Hn & _).
    rewrite apply_scans_snoc, Hl. cbn [mbind result_bind fst snd]. rewrite apply_step, last_complete_snoc by done.
    destruct (decide (is_complete scan)); [by rewrite decide_True by auto|by rewrite decide_False by tauto].
  - apply Forall_app in Hf as [Hf [Hseen _]%Forall_cons]. cbn in Hseen. subst seen.
    change ((scan, true) :: l2 ++ [(next, false)]) with (((scan, true) :: l2) ++ [(next, false)]) in *.
    rewrite app_assoc in *. set (l := l1 ++ (scan, true) :: l2) in *.
    assert (observed l ≠ []) as Ho. { intros Ho%observed_nil. apply Forall_app in Ho as [_ [? _]%Forall_cons]. done. }
    apply scan_history_snoc in Hh as (Hh & Hs & Hne).
    assert (cn_ID scan ≠ []) as Hid.
    { destruct Hh as [Hh _]. unfold l in Hh. rewrite fmap_app in Hh. apply Forall_app in Hh as [_ [[? _] _]%Forall_cons]. done. }
    rewrite apply_scans_snoc, (IH Hh Hf). cbn [mbind result_bind fst snd]. rewrite apply_step by (done || lia).
    rewrite last_complete_snoc, complete_snoc.
    destruct (decide (is_complete next)) as [Hc|Hc]; [|by rewrite !decide_False by tauto].
    rewrite (decide_True _ _ (conj Hc (or_introl Ho))), (decide_True _ _ (conj Hc Hid)), length_app. cbn [length].
    f_equal. f_equal; [lia|].
    set (om := complete_scans l2). destruct om as [|a [|b [|c om]]]; done.
Qed.
