(* ===== verification/Relations.v ===== *)
(** * Relations between resources

    [service/relation_service.go] and the writes of
    [repository/mysql/relation_repository.go]. The service reads the resources
    before the transaction, so its reads and the write may see different
    states of the tables. *)
From S2P Require Import Prelude GoText GoAny Inventory Profiles InventoryDb ResourceStore.

Section relations.
Context `{MySQLText} (now : Z).

(** ** The repository *)

(** The unique key and the check constraint of [resource_relations]. *)
Definition relation_conflicts (i : RelationCreateInput) (s : inv_db) : bool :=
  bool_decide (map_Exists (λ _ r, rr_FromResourceID r = ri_FromResourceID i ∧ rr_ToResourceID r = ri_ToResourceID i
                                  ∧ same_text (rr_RelationType r) (ri_RelationType i) = true) (db_relations s)).
Definition insertRelation (i : RelationCreateInput) : tx ResourceRelation :=
  _ ← call;
  s ← tx_get;
  let id := db_next_relation s in
  let r := Relation id (ri_FromResourceID i) (ri_ToResourceID i) (ri_RelationType i) now in
  _ ← tx_put take_relation_id;
  _ ← tx_guard (ri_FromResourceID i =? ri_ToResourceID i)%Z ErrStore;
  _ ← tx_guard (relation_conflicts i s) ErrRelationConflict;
  _ ← tx_put (set_relations <[id := r]>);
  mret r.

Definition relation_field (relationType : bytes) : bytes := gs "relationships." ++ relationType.
Definition related_value (relatedID : Z) (direction : string) : gvalue :=
  GObject (list_to_map [(gs "relatedResourceId", GInt relatedID); (gs "direction", GString (gs direction))]).
(** The change a relation makes to the resource at one of its ends. *)
Definition relationAuditChange (relationType : bytes) (op : AuditChangeOperation) (relatedID : Z) (direction : string) : AuditChange :=
  match op with
  | AuditChangeRemove => Change (relation_field relationType) op (related_value relatedID direction) GNull
  | _ => Change (relation_field relationType) op GNull (related_value relatedID direction)
  end.
Definition audit_both_ends (actorUserID fromID toID : Z) (relationType : bytes) (op : AuditChangeOperation) (eventType : bytes) : tx () :=
  _ ← insertInventoryAuditTx actorUserID fromID eventType [relationAuditChange relationType op toID "outgoing"];
  insertInventoryAuditTx actorUserID toID eventType [relationAuditChange relationType op fromID "incoming"].

Definition create_body (i : RelationCreateInput) : tx ResourceRelation :=
  _ ← lockResourceRows [ri_FromResourceID i; ri_ToResourceID i];
  insertRelation i.
Definition create_audited_body (i : RelationCreateInput) (actorUserID : Z) (eventType : bytes) : tx ResourceRelation :=
  created ← create_body i;
  _ ← audit_both_ends actorUserID (ri_FromResourceID i) (ri_ToResourceID i) (ri_RelationType i) AuditChangeAdd eventType;
  mret created.

Definition delete_row (id : Z) : tx () :=
  _ ← call;
  s ← tx_get;
  _ ← tx_guard (bool_decide (db_relations s !! id = None)) ErrRelationNotFound;
  tx_put (set_relations (delete id)).
Definition delete_body (relationID : Z) (r : ResourceRelation) : tx () :=
  _ ← lockResourceRows [rr_FromResourceID r; rr_ToResourceID r];
  delete_row relationID.
Definition delete_audited_body (relationID : Z) (r : ResourceRelation) (actorUserID : Z) (eventType : bytes) : tx () :=
  _ ← delete_body relationID r;
  audit_both_ends actorUserID (rr_FromResourceID r) (rr_ToResourceID r) (rr_RelationType r) AuditChangeRemove eventType.

(** A read outside a transaction, of the tables as they are then. *)
Inductive read (A : Type) : Type := ReadFailed | ReadFound (a : option A).
Arguments ReadFailed {_}.
Arguments ReadFound {_} _.
Definition read_or {A} (missing : inventory_error) (r : read A) : result inventory_error A :=
  match r with ReadFailed => Err ErrStore | ReadFound None => Err missing | ReadFound (Some a) => Ok a end.
Definition fetch {A} (fails : bool) (a : option A) : read A := if fails then ReadFailed else ReadFound a.

(** ** The service *)

(** Which reads fail, the calls of the transaction that fail, and how it ends. *)
Record relation_faults : Type := RelationFaults {
  rf_from : bool; rf_to : bool; rf_relation : bool; rf_calls : list bool; rf_commit : commit_result;
}.

(** The checks of [create], on the resources read before the transaction. *)
Definition check_create (from_read to_read : read Resource) (fromResourceID : Z) (input : RelationCreateInput) :
    result inventory_error RelationCreateInput :=
  _ ← guard_err (fromResourceID =? 0)%Z (ErrValidationFailed (gs "from resource id is required"));
  _ ← guard_err (ri_ToResourceID input =? 0)%Z (ErrValidationFailed (gs "toResourceId is required"));
  _ ← guard_err (negb (RelationType_Validate (ri_RelationType input))) (ErrValidationFailed (gs "relationType is not supported"));
  fromResource ← read_or ErrResourceNotFound from_read;
  _ ← guard_err (IsArchived fromResource) ErrResourceArchived;
  toResource ← read_or ErrResourceNotFound to_read;
  _ ← guard_err (IsArchived toResource) ErrResourceArchived;
  _ ← validateRelationshipRule fromResource toResource (ri_RelationType input);
  Ok (RelationInput fromResourceID (ri_ToResourceID input) (ri_RelationType input)).

Definition create (snap_from snap_to : inv_db) (f : relation_faults) (actorUserID fromResourceID : Z) (input : RelationCreateInput)
    (s : inv_db) : result inventory_error ResourceRelation * inv_db :=
  match check_create (fetch (rf_from f) (read_resource fromResourceID snap_from))
          (fetch (rf_to f) (read_resource (ri_ToResourceID input) snap_to)) fromResourceID input with
  | Err e => (Err e, s)
  | Ok input =>
      if (actorUserID =? 0)%Z then in_tx (create_body input) (rf_calls f) (rf_commit f) s
      else in_tx (create_audited_body input actorUserID (gs "inventory.relationship.created")) (rf_calls f) (rf_commit f) s
  end.
Definition RelationService_Create (snap_from snap_to : inv_db) (f : relation_faults) (fromResourceID : Z) (input : RelationCreateInput) (s : inv_db) :
    result inventory_error ResourceRelation * inv_db :=
  create snap_from snap_to f 0 fromResourceID input s.
Definition CreateInventory := create.

Definition RelationService_Delete (snap : inv_db) (f : relation_faults) (relationID : Z) (s : inv_db) : result inventory_error () * inv_db :=
  if (relationID =? 0)%Z then (Err (ErrValidationFailed (gs "relation id is required")), s)
  else match read_or ErrRelationNotFound (fetch (rf_relation f) (db_relations snap !! relationID)) with
       | Err e => (Err e, s)
       | Ok r => in_tx (delete_body relationID r) (rf_calls f) (rf_commit f) s
       end.
Definition DeleteInventory (snap : inv_db) (f : relation_faults) (actorUserID relationID : Z) (s : inv_db) :
    result inventory_error () * inv_db :=
  if (relationID =? 0)%Z then (Err (ErrValidationFailed (gs "relation id is required")), s)
  else if (actorUserID =? 0)%Z then (Err ErrNoAuditActor, s)
  else match read_or ErrRelationNotFound (fetch (rf_relation f) (db_relations snap !! relationID)) with
       | Err e => (Err e, s)
       | Ok r => in_tx (delete_audited_body relationID r actorUserID (gs "inventory.relationship.deleted")) (rf_calls f) (rf_commit f) s
       end.
End relations.
