(* ===== verification/InventoryInvariant.v ===== *)
(** * The inventory invariant

    What the tables of InventoryDb satisfy in every state the operations reach:
    identities are unambiguous, aliases live in their resource's environment,
    profiles have their resource's type, and relations join existing resources
    of types the rules allow. *)
From S2P Require Import Prelude GoText GoAny Inventory Profiles InventoryDb ResourceStore Relations.

(** ** The invariant *)

(** The rules allow the relation between resources of these types. *)
Definition pair_allowed (relationType from to : bytes) : Prop :=
  ∃ rule, relationshipRules !! relationType = Some rule
    ∧ containsRelationshipResourceType (ru_sources rule) from = true
    ∧ containsRelationshipResourceType (ru_targets rule) to = true.

Section invariant.
Context `{MySQLText}.

Definition name_key (r : resource_row) : bytes * Z * bytes := (weight (rw_Name r), rw_EnvironmentID r, weight (rw_ResourceType r)).
Definition alias_key (a : alias_row) : Z * bytes := (al_EnvironmentID a, weight (al_Alias a)).
Definition system_key (x : identifier_row) : bytes * bytes := (weight (xr_System x), xr_Value x).
Definition relation_key (r : ResourceRelation) : Z * Z * bytes :=
  (rr_FromResourceID r, rr_ToResourceID r, weight (rr_RelationType r)).

(** [moving] names the resource whose environment the running transaction may
    have changed ahead of its aliases, and the environment these are still in. *)
Definition alias_environment (moving : option (Z * Z)) (id : Z) (r : resource_row) : Z :=
  match moving with Some (id', e) => if (id =? id')%Z then e else rw_EnvironmentID r | None => rw_EnvironmentID r end.
Record inv_ok (moving : option (Z * Z)) (s : inv_db) : Prop := InvOk {
  ok_next : (0 < db_next_resource s)%Z;
  ok_ids id r : db_resources s !! id = Some r → (0 < id < db_next_resource s)%Z;
  ok_names id id' r r' : db_resources s !! id = Some r → db_resources s !! id' = Some r' → name_key r = name_key r' → id = id';
  ok_alias_owner a : a ∈ db_aliases s → ∃ r, db_resources s !! al_ResourceID a = Some r
    ∧ al_EnvironmentID a = alias_environment moving (al_ResourceID a) r;
  ok_alias_unique : NoDup (alias_key <$> db_aliases s);
  ok_identifier_owner x : x ∈ db_identifiers s → is_Some (db_resources s !! xr_ResourceID x);
  ok_identifier_unique : NoDup (system_key <$> db_identifiers s);
  ok_profiles t id row : db_profiles s !! (t, id) = Some row →
    ∃ r, db_resources s !! id = Some r ∧ rw_ResourceType r = t ∧ row_type row = t;
  ok_relation_ids id r : db_relations s !! id = Some r → rr_ID r = id ∧ (id < db_next_relation s)%Z;
  ok_relation_ends id r : db_relations s !! id = Some r → ∃ a b,
    db_resources s !! rr_FromResourceID r = Some a ∧ db_resources s !! rr_ToResourceID r = Some b
    ∧ rr_FromResourceID r ≠ rr_ToResourceID r ∧ pair_allowed (rr_RelationType r) (rw_ResourceType a) (rw_ResourceType b);
  ok_relation_unique id id' r r' :
    db_relations s !! id = Some r → db_relations s !! id' = Some r' → relation_key r = relation_key r' → id = id';
}.
Definition inv_wf : inv_db → Prop := inv_ok None.

(** Resources are never removed and keep their type. *)
Definition types_kept (s s' : inv_db) : Prop :=
  ∀ id r, db_resources s !! id = Some r → ∃ r', db_resources s' !! id = Some r' ∧ rw_ResourceType r' = rw_ResourceType r.

#[export] Instance types_kept_preorder : PreOrder types_kept.
Proof.
  split; [intros s id r Hr; eauto|]. intros s t u H1 H2 id r Hr. apply H1 in Hr as (r' & Hr' & E).
  apply H2 in Hr' as (r'' & ? & ?). exists r''. split; [done|congruence].
Qed.

Lemma empty_inventory_wf : inv_wf empty_inventory.
Proof. split; cbn; try (intros; by simplify_map_eq); try (intros; by set_solver); try lia; constructor. Qed.

(** Rolling back keeps the rows and may only move the counters. *)
Lemma rolled_back_ok s s2 : inv_wf s → counters_grow s s2 → inv_wf (rolled_back s s2) ∧ types_kept s (rolled_back s s2).
Proof.
  intros [] [Hr Hl]. split; [|intros id r; cbn; eauto]. split; cbn; eauto.
  - lia.
  - intros id r Hid. specialize (ok_ids0 id r Hid). lia.
  - intros id r Hid. destruct (ok_relation_ids0 id r Hid). split; [done|lia].
Qed.

(** The tables the invariant is about. *)
Definition core (s : inv_db) :=
  (db_resources s, db_aliases s, db_identifiers s, db_profiles s, db_relations s, db_next_resource s, db_next_relation s).
Lemma core_ok m s s' : core s = core s' → inv_ok m s → inv_ok m s'.
Proof. destruct s, s'. intros [= -> -> -> -> -> -> ->] []. by split. Qed.

(** A change to one table leaves what the others say. *)
Lemma audit_row_ok m a s : inv_ok m s → inv_ok m (add_audit a s).
Proof. by intros []; split. Qed.
Lemma observed_ok m f s : inv_ok m s → inv_ok m (set_observed f s).
Proof. by intros []; split. Qed.
Lemma take_resource_ok m s : inv_ok m s → inv_ok m (take_resource_id s).
Proof. intros []; split; cbn; eauto; [lia|]. intros id r Hid. specialize (ok_ids0 id r Hid). lia. Qed.
Lemma take_relation_ok m s : inv_ok m s → inv_ok m (take_relation_id s).
Proof. intros []; split; cbn; eauto. intros id r Hid. destruct (ok_relation_ids0 id r Hid). split; [done|lia]. Qed.

Lemma same_text_weight s t : same_text s t = true ↔ weight s = weight t.
Proof. unfold same_text. by rewrite bool_decide_eq_true. Qed.
Lemma existsb_false {A} (f : A → bool) l x : existsb f l = false → x ∈ l → f x = false.
Proof.
  intros Hf Hx. destruct (f x) eqn:E; [|done]. rewrite <- Hf. symmetry. apply existsb_exists. exists x.
  split; [by apply list_elem_of_In|done].
Qed.

Lemma insert_alias_ok m id env alias s r :
  inv_ok m s → db_resources s !! id = Some r → env = alias_environment m id r →
  alias_conflicts id env alias s = false → inv_ok m (set_aliases (λ l, l ++ [AliasRow id env alias]) s).
Proof.
  intros [] Hr He Hc. split; cbn; eauto.
  - intros a [?|Ha%list_elem_of_singleton]%elem_of_app; [eauto|]. subst a. cbn. eauto.
  - rewrite fmap_app. apply NoDup_app. split; [done|]. split; [|apply NoDup_singleton].
    intros k (a & -> & Ha)%list_elem_of_fmap Hin. apply list_elem_of_singleton in Hin. unfold alias_key in Hin. cbn in Hin.
    pose proof (existsb_false _ _ _ Hc Ha) as Hf. cbn in Hf. injection Hin as E1 E2. 
    rewrite E1, Z.eqb_refl in Hf. cbn in Hf. by rewrite (proj2 (same_text_weight _ _) E2) in Hf.
Qed.

Lemma insert_identifier_ok m id x s :
  inv_ok m s → is_Some (db_resources s !! id) → identifier_conflicts x s = false →
  inv_ok m (set_identifiers (λ l, l ++ [IdentifierRow id (xi_System x) (xi_Value x)]) s).
Proof.
  intros [] Hr Hc. split; cbn; eauto.
  - intros a [?|Ha%list_elem_of_singleton]%elem_of_app; [eauto|]. by subst a.
  - rewrite fmap_app. apply NoDup_app. split; [done|]. split; [|apply NoDup_singleton].
    intros k (a & -> & Ha)%list_elem_of_fmap Hin. apply list_elem_of_singleton in Hin. unfold system_key in Hin. cbn in Hin.
    pose proof (existsb_false _ _ _ Hc Ha) as Hf. cbn in Hf. injection Hin as E1 E2.
    by rewrite (proj2 (same_text_weight _ _) E1), (bool_decide_eq_true_2 _ E2) in Hf.
Qed.

Lemma settle m id e r s :
  m = Some (id, e) → inv_ok m s → db_resources s !! id = Some r → rw_EnvironmentID r = e → inv_wf s.
Proof.
  intros -> [] Hr He. split; eauto. intros a Ha. destruct (ok_alias_owner0 a Ha) as (r' & Hr' & Hen). exists r'. split; [done|].
  rewrite Hen. cbn. destruct (Z.eqb_spec (al_ResourceID a) id); [|done]. congruence.
Qed.

Lemma unsettle id r s : inv_wf s → db_resources s !! id = Some r → inv_ok (Some (id, rw_EnvironmentID r)) s.
Proof.
  intros [] Hr. split; eauto. intros a Ha. destruct (ok_alias_owner0 a Ha) as (r' & Hr' & Hen). exists r'. split; [done|].
  rewrite Hen. cbn. destruct (Z.eqb_spec (al_ResourceID a) id); [|done]. congruence.
Qed.

Lemma clear_aliases_ok m id e s :
  m = Some (id, e) → inv_ok m s → inv_wf (set_aliases (filter (λ a, al_ResourceID a ≠ id)) s).
Proof.
  intros -> []. split; cbn; eauto.
  - intros a [Hne Ha]%list_elem_of_filter. destruct (ok_alias_owner0 a Ha) as (r & Hr & He). exists r. split; [done|].
    rewrite He. cbn. by destruct (Z.eqb_spec (al_ResourceID a) id).
  - eapply sublist_NoDup; [exact ok_alias_unique0|apply fmap_sublist, sublist_filter].
Qed.

Lemma clear_identifiers_ok m id s : inv_ok m s → inv_ok m (set_identifiers (filter (λ x, xr_ResourceID x ≠ id)) s).
Proof.
  intros []. split; cbn; eauto.
  - intros a [Hne Ha]%list_elem_of_filter. eauto.
  - eapply sublist_NoDup; [exact ok_identifier_unique0|apply fmap_sublist, sublist_filter].
Qed.

Definition moved (id env : Z) (a : alias_row) : alias_row :=
  if (al_ResourceID a =? id)%Z then AliasRow id env (al_Alias a) else a.

Lemma moved_unique id e env l :
  NoDup (alias_key <$> l) → (∀ a, a ∈ l → al_ResourceID a = id → al_EnvironmentID a = e) →
  (∀ a b, a ∈ l → b ∈ l → al_ResourceID a = id → al_ResourceID b ≠ id → al_EnvironmentID b = env →
          weight (al_Alias b) ≠ weight (al_Alias a)) →
  NoDup (alias_key <$> (moved id env <$> l)).
Proof.
  intros Hnd He Hc. rewrite <- list_fmap_compose. apply NoDup_fmap_2_strong; [|by eapply NoDup_fmap_1].
  intros a b Ha Hb Heq. cbn in Heq. 
  pose proof (nodup_fmap_inj alias_key l a b Hnd Ha Hb) as Hinj.
  unfold moved in Heq. destruct (Z.eqb_spec (al_ResourceID a) id) as [Ea|Ea], (Z.eqb_spec (al_ResourceID b) id) as [Eb|Eb].
  - apply Hinj. unfold alias_key in *. cbn in Heq. injection Heq as Hw. by rewrite (He a), (He b), Hw.
  - exfalso. unfold alias_key in Heq. cbn in Heq. injection Heq as E1 E2. by apply (Hc a b).
  - exfalso. unfold alias_key in Heq. cbn in Heq. injection Heq as E1 E2. by apply (Hc b a).
  - by apply Hinj.
Qed.

Lemma move_aliases_ok m id e env r s :
  m = Some (id, e) → inv_ok m s → db_resources s !! id = Some r → rw_EnvironmentID r = env →
  move_conflicts id env s = false →
  inv_wf (set_aliases (fmap (λ a, if (al_ResourceID a =? id)%Z then AliasRow id env (al_Alias a) else a)) s).
Proof.
  intros -> [] Hr Henv Hc. change (λ a, if (al_ResourceID a =? id)%Z then _ else a) with (moved id env).
  split; cbn; eauto.
  - intros a (b & -> & Hb)%list_elem_of_fmap. destruct (ok_alias_owner0 b Hb) as (r' & Hr' & He). unfold moved.
    cbn in He. destruct (Z.eqb_spec (al_ResourceID b) id) as [E|E]; cbn; [by exists r|by exists r'].
  - apply (moved_unique id e); [done| |].
    + intros a Ha E. destruct (ok_alias_owner0 a Ha) as (r' & Hr' & He). cbn in He. by rewrite E, Z.eqb_refl in He.
    + intros a b Ha Hb Ea Eb E2 Hw. unfold move_conflicts in Hc. pose proof (existsb_false _ _ _ Hc Ha) as Hf. cbn in Hf.
      rewrite Ea, Z.eqb_refl in Hf. cbn in Hf. pose proof (existsb_false _ _ _ Hf Hb) as Hg. cbn in Hg.
      rewrite (proj2 (Z.eqb_neq _ _) Eb), (proj2 (Z.eqb_eq _ _) E2), (proj2 (same_text_weight _ _) Hw) in Hg. done.
Qed.

(** ** Resources *)

Lemma name_conflicts_false id r s :
  name_conflicts id r s = false →
  ∀ id' r', db_resources s !! id' = Some r' → name_key r' = name_key r → id' = id.
Proof.
  unfold name_conflicts. rewrite bool_decide_eq_false. intros Hn id' r' Hr' Hk. destruct (decide (id' = id)) as [|Hne]; [done|].
  destruct Hn. exists id', r'. split; [done|]. unfold name_key in Hk. injection Hk as E1 E2 E3.
  by rewrite !same_text_weight.
Qed.

Lemma insert_kept id r r' (m : gmap Z resource_row) :
  m !! id = Some r → rw_ResourceType r' = rw_ResourceType r →
  ∀ i x, m !! i = Some x → ∃ x', <[id := r']> m !! i = Some x' ∧ rw_ResourceType x' = rw_ResourceType x.
Proof.
  intros Hr Ht i x Hx. destruct (decide (id = i)) as [<-|Hne]; [|exists x; by rewrite lookup_insert_ne].
  exists r'. rewrite lookup_insert_eq. split; [done|congruence].
Qed.

Lemma relation_ends_kept id r r' (m : gmap Z resource_row) (rel : ResourceRelation) :
  m !! id = Some r → rw_ResourceType r' = rw_ResourceType r →
  (∃ a b, m !! rr_FromResourceID rel = Some a ∧ m !! rr_ToResourceID rel = Some b
     ∧ rr_FromResourceID rel ≠ rr_ToResourceID rel ∧ pair_allowed (rr_RelationType rel) (rw_ResourceType a) (rw_ResourceType b)) →
  ∃ a b, <[id := r']> m !! rr_FromResourceID rel = Some a ∧ <[id := r']> m !! rr_ToResourceID rel = Some b
     ∧ rr_FromResourceID rel ≠ rr_ToResourceID rel ∧ pair_allowed (rr_RelationType rel) (rw_ResourceType a) (rw_ResourceType b).
Proof.
  intros Hr Ht (a & b & Ha & Hb & Hne & Hp).
  destruct (insert_kept _ _ _ _ Hr Ht _ _ Ha) as (a' & Ha' & Ea), (insert_kept _ _ _ _ Hr Ht _ _ Hb) as (b' & Hb' & Eb).
  exists a', b'. by rewrite Ea, Eb.
Qed.

Lemma update_resource_ok id r r' s :
  inv_wf s → db_resources s !! id = Some r → rw_ResourceType r' = rw_ResourceType r → name_conflicts id r' s = false →
  inv_ok (Some (id, rw_EnvironmentID r)) (put_resources <[id := r']> s).
Proof.
  intros [] Hr Ht Hn. pose proof (name_conflicts_false _ _ _ Hn) as Hu. split; cbn; eauto.
  - intros i x [[<- <-]|[_ Hi]]%lookup_insert_Some; eauto.
  - intros i j x y [[<- <-]|[Hi Hx]]%lookup_insert_Some [[<- <-]|[Hj Hy]]%lookup_insert_Some Hk; eauto.
    by symmetry; apply (Hu j y).
  - intros a Ha. destruct (ok_alias_owner0 a Ha) as (x & Hx & He). cbn in He.
    destruct (Z.eqb_spec (al_ResourceID a) id) as [E|E].
    + rewrite E in *. simplify_map_eq. eauto.
    + exists x. by rewrite lookup_insert_ne.
  - intros x Hx. apply ok_identifier_owner0 in Hx as [y Hy]. by destruct (decide (id = xr_ResourceID x)) as [<-|]; simplify_map_eq; eauto.
  - intros t i row Hrow. apply ok_profiles0 in Hrow as (x & Hx & E1 & E2).
    destruct (decide (id = i)) as [<-|]; simplify_map_eq; [exists r'; by rewrite Ht|eauto].
  - intros i rel Hrel. by eapply relation_ends_kept; eauto.
Qed.

Lemma create_resource_ok row s :
  inv_wf s → name_conflicts (db_next_resource s) row s = false →
  inv_wf (put_resources <[db_next_resource s := row]> (take_resource_id s)).
Proof.
  intros [] Hn. pose proof (name_conflicts_false _ _ _ Hn) as Hu.
  assert (Hfresh : db_resources s !! db_next_resource s = None).
  { destruct (db_resources s !! db_next_resource s) as [r|] eqn:E; [|done]. specialize (ok_ids0 _ _ E). lia. }
  assert (Hkeep : ∀ i x, db_resources s !! i = Some x → <[db_next_resource s := row]> (db_resources s) !! i = Some x)
    by (intros i x Hi; rewrite lookup_insert_ne; congruence).
  split; cbn; eauto.
  - lia.
  - intros i x [[<- <-]|[_ Hi]]%lookup_insert_Some; [lia|]. specialize (ok_ids0 _ _ Hi). lia.
  - intros i j x y [[<- <-]|[Hi Hx]]%lookup_insert_Some [[<- <-]|[Hj Hy]]%lookup_insert_Some Hk; eauto.
    by symmetry; apply (Hu j y).
  - intros a Ha. destruct (ok_alias_owner0 a Ha) as (x & Hx & He). eauto.
  - intros x Hx. destruct (ok_identifier_owner0 x Hx) as [y Hy]. eauto.
  - intros t i r' Hr'. destruct (ok_profiles0 _ _ _ Hr') as (x & Hx & ?). eauto.
  - intros i rel Hrel. destruct (ok_relation_ends0 i rel Hrel) as (a & b & Ha & Hb & ?). eauto 10.
Qed.

Lemma write_profile_ok m id r row s :
  inv_ok m s → db_resources s !! id = Some r → row_type row = rw_ResourceType r →
  inv_ok m (set_profiles <[(rw_ResourceType r, id) := row]> s).
Proof.
  intros [] Hr Ht. split; cbn; eauto. intros t i row' [[[= <- <-] <-]|[_ Hrow]]%lookup_insert_Some; eauto.
Qed.
Lemma delete_profile_ok m k s : inv_ok m s → inv_ok m (set_profiles (delete k) s).
Proof. intros []. split; cbn; eauto. intros t i row' [_ Hrow]%lookup_delete_Some; eauto. Qed.

(** ** Relations *)

Lemma insert_relation_ok m i now a b s :
  inv_ok m s → ri_FromResourceID i ≠ ri_ToResourceID i →
  db_resources s !! ri_FromResourceID i = Some a → db_resources s !! ri_ToResourceID i = Some b →
  pair_allowed (ri_RelationType i) (rw_ResourceType a) (rw_ResourceType b) → relation_conflicts i s = false →
  inv_ok m (set_relations <[db_next_relation s := Relation (db_next_relation s) (ri_FromResourceID i) (ri_ToResourceID i)
                              (ri_RelationType i) now]> (take_relation_id s)).
Proof.
  intros [] Hne Ha Hb Hp Hc. unfold relation_conflicts in Hc. rewrite bool_decide_eq_false in Hc.
  assert (Hnew : ∀ j r, db_relations s !! j = Some r →
            relation_key r ≠ (ri_FromResourceID i, ri_ToResourceID i, weight (ri_RelationType i))).
  { intros j r Hj [= E1 E2 E3]. destruct Hc. exists j, r. by rewrite same_text_weight. }
  split; cbn; eauto.
  - intros j r [[<- <-]|[_ Hj]]%lookup_insert_Some; cbn; [split; [done|lia]|].
    destruct (ok_relation_ids0 _ _ Hj). split; [done|lia].
  - intros j r [[<- <-]|[_ Hj]]%lookup_insert_Some; cbn; eauto 10.
  - intros j k x y [[<- <-]|[Hj Hx]]%lookup_insert_Some [[<- <-]|[Hk Hy]]%lookup_insert_Some E; eauto.
    + by destruct (Hnew k y).
    + by destruct (Hnew j x).
Qed.
Lemma delete_relation_ok m id s : inv_ok m s → inv_ok m (set_relations (delete id) s).
Proof.
  intros []. split; cbn; eauto.
  - intros j r [_ Hj]%lookup_delete_Some; eauto.
  - intros j r [_ Hj]%lookup_delete_Some; eauto.
  - intros j k x y [_ Hj]%lookup_delete_Some [_ Hk]%lookup_delete_Some; eauto.
Qed.
End invariant.
