(* ===== verification/InventoryOps.v ===== *)
(** * Every write keeps the inventory invariant

    The triples of the operations of ResourceStore and Relations: started in a
    state of InventoryInvariant, each ends in one. *)
From S2P Require Import Prelude GoText GoAny Inventory Profiles InventoryDb ResourceStore Relations InventoryInvariant.

Section ops.
Context `{MySQLText, UnicodeLower, FloatConversion} (sprint : gvalue → bytes).

(** The invariant, with a fact [K] about the resources that the operation has to keep. *)
Definition good (m : option (Z * Z)) (K : gmap Z resource_row → Prop) (s : inv_db) : Prop := inv_ok m s ∧ K (db_resources s).

(** Facts about the resources that creations and updates keep. *)
Record stable (K : gmap Z resource_row → Prop) : Prop := Stable {
  stable_create m id r : K m → m !! id = None → K (<[id := r]> m);
  stable_update m id r r' : K m → m !! id = Some r → rw_ResourceType r' = rw_ResourceType r → K (<[id := r']> m);
}.

Lemma triple_guard_bind {A} (P : inv_db → Prop) bad e (f : () → tx A) (Q : A → inv_db → Prop) :
  (bad = false → htriple P (f tt) Q) → htriple P (mbind f (tx_guard bad e)) Q.
Proof.
  intros Hf. destruct bad; [|by apply Hf].
  intros st Hst. cbn. by split.
Qed.
Lemma triple_call_bind {A} (P : inv_db → Prop) (f : () → tx A) (Q : A → inv_db → Prop) :
  htriple P (f tt) Q → htriple P (mbind f call) Q.
Proof. intros Hf. eapply tx_triple_bind; [apply triple_call|]. by intros []. Qed.
Lemma triple_get_bind {A} (P : inv_db → Prop) (f : inv_db → tx A) (Q : A → inv_db → Prop) :
  (∀ s0, htriple (λ s, s = s0 ∧ P s) (f s0) Q) → htriple P (mbind f tx_get) Q.
Proof.
  intros Hf. eapply tx_triple_bind; [apply triple_get|]. intros s0. eapply triple_conseq; [apply Hf| |done].
  by intros s [-> ?].
Qed.
Lemma triple_read_bind {A B} (P : inv_db → Prop) (g : inv_db → A) (f : A → tx B) (Q : B → inv_db → Prop) :
  (∀ a, htriple (λ s, a = g s ∧ P s) (f a) Q) → htriple P (mbind f (read_call g)) Q.
Proof. intros Hf. eapply tx_triple_bind; [apply triple_read|]. intros a. apply Hf. Qed.
Lemma triple_weaken {A} (P P' : inv_db → Prop) (m : tx A) (Q : A → inv_db → Prop) :
  htriple P' m Q → (∀ s, P s → P' s) → htriple P m Q.
Proof. intros. eapply triple_conseq; eauto. Qed.

Lemma triple_exists {A X} (P : X → inv_db → Prop) (m : tx A) (Q : A → inv_db → Prop) :
  (∀ x, htriple (P x) m Q) → htriple (λ s, ∃ x, P x s) m Q.
Proof. intros Hm st [x Hx]. by apply (Hm x). Qed.
Lemma triple_pure {A} (phi : Prop) (P : inv_db → Prop) (m : tx A) (Q : A → inv_db → Prop) :
  (phi → htriple P m Q) → htriple (λ s, phi ∧ P s) m Q.
Proof. intros Hm st [Hphi HP]. by apply Hm. Qed.

(** What only writes other tables keeps the invariant. *)
Lemma core_triple {A} mo K (m : tx A) : keeps_view core m → htriple (good mo K) m (λ _, good mo K).
Proof.
  intros Hm st [Hi HK]. specialize (Hm (core (ts_db st)) st eq_refl). destruct (m st) as [[a|e] st']; destruct Hm as [Hc Hv];
    (split; [done|]); [|done]. split; [by apply (core_ok mo (ts_db st))|]. injection Hv as Hr _. by rewrite Hr.
Qed.

(** ** Reads and locks *)

Lemma getResourceForUpdate_ok P id :
  htriple P (getResourceForUpdate id) (λ x s, P s ∧ read_resource id s = Some x).
Proof.
  unfold getResourceForUpdate. apply triple_read_bind. intros [r|]; [|apply triple_fail].
  apply triple_call_bind, triple_call_bind, triple_get_bind. intros s0.
  eapply triple_conseq; [apply (tx_triple_ret _ (λ x s, P s ∧ read_resource id s = Some x))| |done].
  intros s (-> & Hr & HP). split; [done|]. unfold read_resource. by rewrite <- Hr.
Qed.

Lemma lock_rows_ok P ids last :
  htriple P (lock_rows last ids) (λ _ s, P s ∧ ∀ id, id ∈ ids → id = last ∨ is_Some (db_resources s !! id)).
Proof.
  revert P last. induction ids as [|id ids IH]; intros P last; cbn.
  - eapply triple_weaken; [apply (tx_triple_ret tt (λ _ s, P s ∧ _))|]. intros s HP. split; [done|set_solver].
  - destruct (Z.eqb_spec id last) as [->|Hne].
    + eapply triple_conseq; [apply (IH P last)|done|]. intros _ s [HP Hl]. split; [done|].
      intros i [->|Hi]%elem_of_cons; [by left|by apply Hl].
    + apply triple_read_bind. intros [r|]; [|apply triple_fail].
      eapply triple_conseq; [apply (IH (λ s, Some r = db_resources s !! id ∧ P s) id)|done|].
      intros _ s [[Hr HP] Hl]. split; [done|]. intros i [->|Hi]%elem_of_cons; [right; by rewrite <- Hr|].
      destruct (Hl i Hi) as [->|?]; right; [by rewrite <- Hr|done].
Qed.
Lemma lockResourceRows_ok P ids :
  htriple P (lockResourceRows ids) (λ _ s, P s ∧ ∀ id, id ∈ ids → id = 0%Z ∨ is_Some (db_resources s !! id)).
Proof.
  eapply triple_conseq; [apply lock_rows_ok|done|]. intros _ s [HP Hl]. split; [done|]. intros id Hid. apply Hl.
  by rewrite (sort_slice_perm Z.ltb).
Qed.

(** ** Audit rows and profiles *)

Lemma audit_triple m K actor target ty changes :
  htriple (good m K) (insertInventoryAuditTx actor target ty changes) (λ _, good m K).
Proof. apply triple_write. intros s [Hi HK]. split; [by split; [apply audit_row_ok|]|split; cbn; lia]. Qed.

Lemma upsert_row_type ty fields row : upsertProfileTx sprint ty fields = Some row → row_type row = ty.
Proof. unfold upsertProfileTx. repeat (case_bool_decide; [by intros [= <-]|]). done. Qed.
Lemma patch_row_type ty fields old row : patchProfile sprint ty fields old = Some row → row_type row = ty.
Proof.
  unfold patchProfile. repeat (case_bool_decide; [repeat case_match; by intros [= <-]|]). done.
Qed.

Definition typed (id : Z) (ty : bytes) (m : gmap Z resource_row) : Prop := ∃ r, m !! id = Some r ∧ rw_ResourceType r = ty.

Lemma write_row_triple m K id ty row :
  (∀ rs, K rs → typed id ty rs) → (∀ r, row = Some r → row_type r = ty) →
  htriple (good m K) (write_row ty id row) (λ _, good m K).
Proof.
  intros HK Ht. unfold write_row. destruct row as [row|]; [|apply triple_fail].
  apply triple_call_bind, triple_guard_bind. intros _. apply triple_put. intros s [Hi Hs].
  split; [|split; cbn; lia]. split; [|done]. destruct (HK _ Hs) as (r & Hr & <-). apply write_profile_ok; [done|done|].
  by apply Ht.
Qed.
Lemma upsert_profile_triple m K id ty fields :
  (∀ rs, K rs → typed id ty rs) → htriple (good m K) (upsert_profile sprint id ty fields) (λ _, good m K).
Proof. intros HK. apply write_row_triple; [done|]. intros r. apply upsert_row_type. Qed.
Lemma patch_profile_triple m K id ty fields :
  (∀ rs, K rs → typed id ty rs) → htriple (good m K) (patch_profile sprint id ty fields) (λ _, good m K).
Proof.
  intros HK. apply triple_get_bind. intros s0. eapply triple_weaken; [apply write_row_triple; [done|]|by intros s [_ ?]].
  intros r. apply patch_row_type.
Qed.
Lemma delete_profile_triple m K id ty : htriple (good m K) (deleteProfile id ty) (λ _, good m K).
Proof.
  unfold deleteProfile. case_bool_decide; [|apply (tx_triple_ret tt (λ _, good m K))].
  apply triple_write. intros s [Hi HK]. split; [by split; [apply delete_profile_ok|]|split; cbn; lia].
Qed.
Lemma fetchProfile_triple P id ty : htriple P (fetchProfile id ty) (λ _, P).
Proof.
  unfold fetchProfile. case_bool_decide; [|apply (tx_triple_ret _ (λ _, P))].
  eapply triple_conseq; [apply triple_read|done|]. by intros a s [_ ?].
Qed.

(** ** Identities *)

Lemma insert_alias_triple m K id env alias :
  (∀ rs, K rs → ∃ r, rs !! id = Some r ∧ env = alias_environment m id r) →
  htriple (good m K) (insert_alias id env alias) (λ _, good m K).
Proof.
  intros HK. unfold insert_alias. apply triple_call_bind, triple_get_bind. intros s0.
  do 2 (apply triple_guard_bind; intros ?). apply triple_put. intros s (-> & Hi & Hs). split; [|split; cbn; lia].
  split; [|done]. destruct (HK _ Hs) as (r & Hr & He). by eapply insert_alias_ok.
Qed.
Lemma insert_identifier_triple m K id x :
  (∀ rs, K rs → is_Some (rs !! id)) → htriple (good m K) (insert_identifier id x) (λ _, good m K).
Proof.
  intros HK. unfold insert_identifier. apply triple_call_bind, triple_get_bind. intros s0.
  do 2 (apply triple_guard_bind; intros ?). apply triple_put. intros s (-> & Hi & Hs). split; [|split; cbn; lia].
  split; [|done]. apply insert_identifier_ok; auto.
Qed.
Lemma insert_aliases_triple m K id env seen l :
  (∀ rs, K rs → ∃ r, rs !! id = Some r ∧ env = alias_environment m id r) →
  htriple (good m K) (insert_aliases id env seen l) (λ _, good m K).
Proof.
  intros HK. revert seen. induction l as [|a l IH]; intros seen; cbn; [apply (tx_triple_ret tt (λ _, good m K))|].
  case_bool_decide; [apply IH|]. eapply tx_triple_bind; [by apply insert_alias_triple|]. intros ?. apply IH.
Qed.
Lemma insert_identifiers_triple m K id seen l :
  (∀ rs, K rs → is_Some (rs !! id)) → htriple (good m K) (insert_identifiers id seen l) (λ _, good m K).
Proof.
  intros HK. revert seen. induction l as [|a l IH]; intros seen; cbn; [apply (tx_triple_ret tt (λ _, good m K))|].
  case_bool_decide; [apply IH|]. eapply tx_triple_bind; [by apply insert_identifier_triple|]. intros ?. apply IH.
Qed.
Lemma insert_identity_triple m K id env aliases identifiers :
  (∀ rs, K rs → ∃ r, rs !! id = Some r ∧ env = alias_environment m id r) →
  htriple (good m K) (insertResourceIdentityTx id env aliases identifiers) (λ _, good m K).
Proof.
  intros HK. eapply tx_triple_bind; [by apply insert_aliases_triple|]. intros ?. apply insert_identifiers_triple.
  intros rs Hs. destruct (HK rs Hs) as (r & Hr & _). by rewrite Hr.
Qed.

(** ** Resources *)

(** A created resource is there, of the type asked for. *)
Lemma create_resource_triple K input profile :
  stable K →
  htriple (good None K) (createResourceTx sprint input profile)
    (λ id s, good None K s ∧ typed id (cr_ResourceType input) (db_resources s)).
Proof.
  intros HK. unfold createResourceTx. apply triple_call_bind, triple_get_bind. intros s0.
  eapply tx_triple_bind;
    [apply (triple_put _ (λ s, s = take_resource_id s0 ∧ good None K s0)); intros s [-> ?]; split; [by split|split; cbn; lia]|].
  intros ?. apply triple_guard_bind. intros Hfit. apply triple_guard_bind. intros Hn.
  set (row := ResourceRow _ _ _ _ _ _ _ _ _ _ _) in *. set (id := db_next_resource s0) in *.
  set (K' := λ rs : gmap Z resource_row, K rs ∧ rs !! id = Some row).
  eapply tx_triple_bind; [apply (triple_put _ (good None K'))|].
  { intros s (-> & Hi & Hs). split; [|split; cbn; lia]. split; [by apply create_resource_ok|].
    split; cbn; [|by rewrite lookup_insert_eq]. apply (stable_create _ HK); [done|].
    destruct (db_resources s0 !! id) eqn:E; [|done]. pose proof (ok_ids _ _ Hi _ _ E). lia. }
  intros ?. eapply tx_triple_bind; [apply insert_identity_triple; intros rs [_ Hr]; by exists row|]. intros ?.
  eapply tx_triple_bind.
  { destruct profile as [fields|]; [|apply (tx_triple_ret tt (λ _, good None K'))].
    apply upsert_profile_triple. intros rs [_ Hr]. by exists row. }
  intros ?. eapply triple_weaken; [apply (tx_triple_ret _ (λ id s, good None K s ∧ typed id _ (db_resources s)))|].
  intros s [Hi [Hs Hr]]. split; [by split|]. by exists row.
Qed.

Lemma resource_update_env input f r :
  resourceUpdateStatement input = Some f →
  rw_EnvironmentID (f r) = default (rw_EnvironmentID r) (up_EnvironmentID input) ∧ rw_ResourceType (f r) = rw_ResourceType r.
Proof. unfold resourceUpdateStatement. case_match; [done|]. by intros [= <-]. Qed.
Lemma no_statement_no_env input : resourceUpdateStatement input = None → up_EnvironmentID input = None ∧ up_Aliases input = None.
Proof.
  unfold resourceUpdateStatement, updates_columns. case_match eqn:E; [|done]. intros _. bool_inv.
  split; [|done]. destruct (up_EnvironmentID input); [|done].
  match goal with H : ¬ is_Some (Some _) |- _ => by destruct H end.
Qed.

(** The aliases are brought to the resource's new environment. *)
Definition updated (K : gmap Z resource_row → Prop) (id : Z) (env : Z) (rs : gmap Z resource_row) : Prop :=
  K rs ∧ ∃ r, rs !! id = Some r ∧ rw_EnvironmentID r = env.

Lemma replace_identity_triple m K id e env input :
  m = Some (id, e) → (up_EnvironmentID input = None → e = env) →
  htriple (good m (updated K id env)) (replaceResourceIdentityTx id env input) (λ _, good None (updated K id env)).
Proof.
  intros Hm Hkeep. unfold replaceResourceIdentityTx. eapply tx_triple_bind with (R := λ _, good None (updated K id env)).
  - destruct (up_Aliases input) as [aliases|].
    + eapply tx_triple_bind; [apply (triple_write _ (good None (updated K id env)))|].
      { intros s [Hi Hs]. split; [|split; cbn; lia]. split; [by eapply clear_aliases_ok|done]. }
      intros ?. apply insert_identity_triple. intros rs (_ & r & Hr & <-). by exists r.
    + destruct (up_EnvironmentID input) as [env'|].
      * unfold move_aliases. apply triple_call_bind, triple_get_bind. intros s0. apply triple_guard_bind. intros Hc.
        apply triple_put. intros s (-> & Hi & Hs). split; [|split; cbn; lia]. split; [|done].
        destruct Hs as (_ & r & Hr & He). by eapply move_aliases_ok.
      * eapply triple_weaken; [apply (tx_triple_ret tt (λ _, good None (updated K id env)))|].
        intros s [Hi (HK & r & Hr & He)]. split; [|split; eauto]. eapply settle; eauto. rewrite He. symmetry. by apply Hkeep.
  - intros ?. destruct (up_ExternalIdentifiers input) as [l|]; [|apply (tx_triple_ret tt (λ _, good None _))].
    eapply tx_triple_bind; [apply (triple_write _ (good None (updated K id env)))|].
    { intros s [Hi Hs]. split; [|split; cbn; lia]. split; [by apply clear_identifiers_ok|done]. }
    intros ?. apply insert_identity_triple. intros rs (_ & r & Hr & <-). by exists r.
Qed.

Lemma write_resource_triple K id r f :
  stable K → rw_ResourceType (f r) = rw_ResourceType r →
  htriple (λ s, good None K s ∧ db_resources s !! id = Some r) (write_resource id f)
    (λ _, good (Some (id, rw_EnvironmentID r)) (updated K id (rw_EnvironmentID (f r)))).
Proof.
  intros HK Ht. unfold write_resource. apply triple_call_bind, triple_get_bind. intros s0.
  destruct (db_resources s0 !! id) as [r'|] eqn:Er.
  2: { intros st (Hs & _ & Hr). rewrite Hs, Er in Hr. discriminate Hr. }
  apply triple_guard_bind. intros _. apply triple_guard_bind. intros Hn. apply triple_put.
  intros s (-> & [Hi Hs] & Hr). rewrite Er in Hr. injection Hr as ->. split; [|split; cbn; lia].
  split; [by apply update_resource_ok|]. split; [by apply (stable_update _ HK) with r|]. cbn. rewrite lookup_insert_eq. by exists (f r).
Qed.

Lemma update_resource_triple K id input :
  stable K → htriple (good None K) (updateResourceTx id input) (λ x s, good None K s ∧ rs_ID x = id).
Proof.
  intros HK. unfold updateResourceTx. eapply tx_triple_bind; [apply getResourceForUpdate_ok|]. intros x.
  eapply triple_weaken;
    [apply (triple_exists (λ r s, (rs_ID x = id ∧ rs_EnvironmentID x = rw_EnvironmentID r)
                                  ∧ good None K s ∧ db_resources s !! id = Some r))|].
  2: { intros s [Hg Hx]. unfold read_resource in Hx. destruct (db_resources s !! id) as [r|]; [|done].
       injection Hx as <-. by exists r. }
  intros r. apply triple_pure. intros [Hid Henv].
  set (env := default (rs_EnvironmentID x) (up_EnvironmentID input)).
  eapply tx_triple_bind with (R := λ _, good (Some (id, rw_EnvironmentID r)) (updated K id env)).
  - destruct (resourceUpdateStatement input) as [f|] eqn:Ef.
    + destruct (resource_update_env _ _ r Ef) as [Ee Et]. unfold env. rewrite Henv, <- Ee. by apply write_resource_triple.
    + eapply triple_weaken; [apply (tx_triple_ret tt (λ _, good (Some (id, rw_EnvironmentID r)) (updated K id env)))|].
      apply no_statement_no_env in Ef as [Ee _]. unfold env. rewrite Ee, Henv.
      intros s [[Hi Hs] Hr]. split; [|split; [done|by exists r]]. by eapply unsettle.
  - intros ?. eapply tx_triple_bind.
    { apply replace_identity_triple with (e := rw_EnvironmentID r); [done|]. intros Hn. unfold env. by rewrite Hn, Henv. }
    intros ?. eapply triple_weaken; [apply (tx_triple_ret x (λ x s, good None K s ∧ rs_ID x = id))|].
    intros s (Hi & Hs & _). by split; [split|].
Qed.

(** ** Relations *)

Definition ends_allowed (i : RelationCreateInput) (rs : gmap Z resource_row) : Prop := ∃ a b,
  rs !! ri_FromResourceID i = Some a ∧ rs !! ri_ToResourceID i = Some b
  ∧ pair_allowed (ri_RelationType i) (rw_ResourceType a) (rw_ResourceType b).

Lemma insert_relation_triple now m K i :
  (∀ rs, K rs → ends_allowed i rs) →
  htriple (good m K) (insertRelation now i) (λ _, good m K).
Proof.
  intros HK. unfold insertRelation. apply triple_call_bind, triple_get_bind. intros s0.
  eapply tx_triple_bind;
    [apply (triple_put _ (λ s, s = take_relation_id s0 ∧ good m K s0)); intros s [-> ?]; split; [by split|split; cbn; lia]|].
  intros ?. apply triple_guard_bind. intros Hne. apply triple_guard_bind. intros Hc.
  eapply tx_triple_bind; [apply (triple_put _ (good m K))|intros ?; apply (tx_triple_ret _ (λ _, good m K))].
  intros s (-> & Hi & Hs). split; [|split; cbn; lia]. split; [|done]. destruct (HK _ Hs) as (ra & rb & Ha & Hb & Hp).
  apply Z.eqb_neq in Hne. by eapply insert_relation_ok.
Qed.
Lemma delete_row_triple m K id : htriple (good m K) (delete_row id) (λ _, good m K).
Proof.
  unfold delete_row. apply triple_call_bind, triple_get_bind. intros s0. apply triple_guard_bind. intros _.
  apply triple_put. intros s (-> & Hi & Hs). split; [by split; [apply delete_relation_ok|]|split; cbn; lia].
Qed.
Lemma audit_both_triple m K actor from to ty op event :
  htriple (good m K) (audit_both_ends actor from to ty op event) (λ _, good m K).
Proof. eapply tx_triple_bind; [apply audit_triple|]. intros ?. apply audit_triple. Qed.
Lemma lock_triple m K ids : htriple (good m K) (lockResourceRows ids) (λ _, good m K).
Proof. eapply triple_conseq; [apply lockResourceRows_ok|done|]. by intros ? s [? _]. Qed.
End ops.
