(* ===== verification/Resources.v ===== *)
(** * The resource and profile services

    [service/resource_service.go], the write half of
    [service/profile_service.go], [service/completeness.go] and the request types
    of [model/resource_write.go]: what a write must satisfy before it reaches
    the transactions of ResourceStore. The text of a label complaint, which
    depends on Go's map order, is a parameter. *)
From S2P Require Import Prelude GoText GoAny Inventory Profiles InventoryDb ResourceStore Relations InventoryInvariant InventoryOps.

(** ** Names *)

(** [^[a-z0-9][a-z0-9._-]*$] *)
Definition name_start (c : byte) : bool := in_range 97 122 c || in_range 48 57 c.
Definition name_char (c : byte) : bool := name_start c || bool_decide (c ∈ ["."; "_"; "-"]%char).
Definition resourceNamePattern (s : bytes) : bool :=
  match s with c :: t => name_start c && forallb name_char t | [] => false end.

(** [unicode.IsControl] of some rune: the ASCII controls, and U+0080 to U+009F. *)
Fixpoint containsControlChars (s : bytes) : bool :=
  match s with
  | [] => false
  | c :: t =>
      in_range 0 31 c || (c =?b bz 127)
      || match t with d :: _ => (c =?b bz 194) && in_range 128 159 d | [] => false end
      || containsControlChars t
  end.

Definition reserved_words : list bytes := gs <$> ["credential"; "password"; "token"; "dsn"; "secret"]%string.
Definition contains_text (word s : bytes) : bool := match index_of word s with Some _ => true | None => false end.

Definition alias_message : bytes := gs "aliases must be non-empty operations-friendly names of at most 255 characters".
Definition identifier_message : bytes := gs "external identifiers require an operations-friendly system and non-empty value".

Section services.
Context `{MySQLText, UnicodeLower, FloatConversion} (sprint : gvalue → bytes) (label_message : gmap bytes bytes → bytes) (now : Z).

Fixpoint normalize_aliases (seen result : list bytes) (aliases : list bytes) : option (list bytes) :=
  match aliases with
  | [] => Some result
  | raw :: rest =>
      let alias := normal_alias raw in
      if (alias =?b []) || (255 <? length alias)%nat || negb (resourceNamePattern alias) then None
      else if bool_decide (alias ∈ seen) then normalize_aliases seen result rest
      else normalize_aliases (alias :: seen) (result ++ [alias]) rest
  end.
(** [None] stands for a nil slice and the error [alias_message]. *)
Definition normalizeAliases : list bytes → option (list bytes) := normalize_aliases [] [].

Fixpoint normalize_identifiers (seen : list bytes) (result identifiers : list ResourceExternalIdentifier) :
    option (list ResourceExternalIdentifier) :=
  match identifiers with
  | [] => Some result
  | raw :: rest =>
      let x := normal_identifier raw in
      if (xi_System x =?b []) || (xi_Value x =?b []) || (128 <? length (xi_System x))%nat || (255 <? length (xi_Value x))%nat
         || negb (resourceNamePattern (xi_System x)) then None
      else if bool_decide (identifier_key x ∈ seen) then normalize_identifiers seen result rest
      else normalize_identifiers (identifier_key x :: seen) (result ++ [x]) rest
  end.
Definition normalizeExternalIdentifiers : list ResourceExternalIdentifier → option (list ResourceExternalIdentifier) :=
  normalize_identifiers [] [].

Definition label_ok (key value : bytes) : bool :=
  negb (containsControlChars key) && negb (containsControlChars value)
  && forallb (λ word, negb (contains_text word (unicode_lower key))) reserved_words.
Definition validateResourceLabels (labels : gmap bytes bytes) : bool :=
  bool_decide (map_Forall (λ key value, label_ok key value = true) labels).

Definition subtype_message (resourceType subtype : bytes) (e : subtype_error) : bytes :=
  match e with
  | SubtypeRequired => gs "resourceSubtype is required for " ++ resourceType
  | SubtypeInvalid => gs "invalid resourceSubtype " ++ sprint (GString subtype) ++ gs " for type " ++ resourceType
  end.

(** ** Creating a resource *)

Definition with_identity (i : ResourceCreateInput) (source : bytes) (aliases : list bytes)
    (identifiers : list ResourceExternalIdentifier) : ResourceCreateInput :=
  CreateInput (cr_ResourceType i) (cr_ResourceSubtype i) (cr_Name i) (cr_DisplayName i) (cr_EnvironmentID i) (cr_OwnerID i)
    (cr_LifecycleStatus i) (cr_HealthStatus i) (cr_Origin i) aliases identifiers source (cr_ExternalID i) (cr_Labels i)
    (cr_Profile i).
(** The errors of the two normalizations are dropped, with the nil slice that comes with them. *)
Definition normalizeResourceCreateInput (input : ResourceCreateInput) : ResourceCreateInput :=
  let input := ApplyLegacyCreateFields input in
  with_identity input (cr_Origin input) (default [] (normalizeAliases (cr_Aliases input)))
    (default [] (normalizeExternalIdentifiers (cr_ExternalIdentifiers input))).

Definition profileRequiresIdentity (resourceType : bytes) : bool :=
  match profileFieldSchemas !! resourceType with Some specs => existsb fs_required specs | None => false end.

(** [ve.WithField], the error being allocated by the first complaint. *)
Definition with_field (bad : bool) (field : string) (message : bytes) (ve : gmap bytes bytes) : gmap bytes bytes :=
  if bad then <[gs field := message]> ve else ve.

Definition input_complaints (i : ResourceCreateInput) : gmap bytes bytes :=
  let ve := with_field (negb (ResourceType_Validate (cr_ResourceType i))) "resourceType" (gs "Resource type is not supported") ∅ in
  let ve := if cr_Name i =?b [] then <[gs "name" := gs "Name is required"]> ve
            else with_field (negb (resourceNamePattern (cr_Name i))) "name"
                   (gs "Must match pattern: lowercase letters, numbers, dots, hyphens, underscores") ve in
  let ve := with_field (cr_DisplayName i =?b []) "displayName" (gs "Display name is required") ve in
  let ve := with_field (cr_EnvironmentID i =? 0)%Z "environmentId" (gs "Environment is required") ve in
  let ve := with_field (cr_OwnerID i =? 0)%Z "ownerId" (gs "Owner is required") ve in
  let ve := with_field (negb (LifecycleStatus_Validate (cr_LifecycleStatus i))) "lifecycleStatus" (gs "Lifecycle status is not supported") ve in
  let ve := with_field (negb (HealthStatus_Validate (cr_HealthStatus i))) "healthStatus" (gs "Health status is not supported") ve in
  let ve := with_field (negb (Origin_Validate (cr_Origin i))) "origin" (gs "Origin must be manual, imported, or discovered") ve in
  let ve := with_field (bool_decide (normalizeAliases (cr_Aliases i) = None)) "aliases" alias_message ve in
  let ve := with_field (bool_decide (normalizeExternalIdentifiers (cr_ExternalIdentifiers i) = None)) "externalIdentifiers" identifier_message ve in
  let ve := match ValidateResourceSubtype (cr_ResourceType i) (cr_ResourceSubtype i) with
            | Err e => <[gs "resourceSubtype" := subtype_message (cr_ResourceType i) (cr_ResourceSubtype i) e]> ve
            | Ok _ => ve
            end in
  with_field (negb (validateResourceLabels (cr_Labels i))) "labels" (label_message (cr_Labels i)) ve.

(** The profile comes back as the validation leaves the caller's map. *)
Definition validateResourceCreateInput (i : ResourceCreateInput) : result inventory_error (option gfields) :=
  let ve := input_complaints i in
  let finish ve profile := if ve =?b ∅ then Ok profile else Err (ErrFields ve) in
  if ResourceType_Validate (cr_ResourceType i) then
    let fields := match cr_Profile i with
                  | Some fields => Some fields
                  | None => if profileRequiresIdentity (cr_ResourceType i) then Some ∅ else None
                  end in
    match (match fields with Some fields => Some <$> validateProfileFields (cr_ResourceType i) fields true | None => Ok None end) with
    | Err (ErrFields pe) =>
        let ve := pe ∪ ve in
        let identity := validateMinimumManualIdentity (cr_ResourceType i) (default ∅ (cr_Profile i)) in
        Err (ErrFields (match identity with Err (ErrFields me) => ve ∪ me | _ => ve end))
    | Err e => Err e
    | Ok checked =>
        let profile := match cr_Profile i with Some _ => checked | None => None end in
        match validateMinimumManualIdentity (cr_ResourceType i) (default ∅ profile) with
        | Err (ErrFields me) => Err (ErrFields (ve ∪ me))
        | Err e => Err e
        | Ok _ => finish ve profile
        end
    end
  else finish ve (cr_Profile i).

Definition validateReferenceIDs (environmentID ownerID : Z) : result inventory_error () :=
  _ ← guard_err (negb (bool_decide (environmentID ∈ [1; 2; 3]%Z))) ErrEnvironmentNotFound;
  guard_err (negb (bool_decide (ownerID ∈ [1; 2; 3; 4; 5]%Z))) ErrOwnerNotFound.

(** The read back after the commit, which may fail on its own. *)
Definition read_back (fails : bool) (r : result inventory_error Z * inv_db) : result inventory_error Resource * inv_db :=
  match r with
  | (Err e, s) => (Err e, s)
  | (Ok id, s) => (read_or ErrResourceNotFound (fetch fails (read_resource id s)), s)
  end.

Record write_faults : Type := WriteFaults { wf_calls : list bool; wf_commit : commit_result; wf_read_back : bool }.
Definition no_faults : write_faults := WriteFaults [] Committed false.

Definition ResourceService_Create (f : write_faults) (input : ResourceCreateInput) (s : inv_db) : result inventory_error Resource * inv_db :=
  let input := normalizeResourceCreateInput input in
  match validateResourceCreateInput input with
  | Err e => (Err e, s)
  | Ok profile =>
      match validateReferenceIDs (cr_EnvironmentID input) (cr_OwnerID input) with
      | Err e => (Err e, s)
      | Ok _ => read_back (wf_read_back f) (in_tx (createResourceTx sprint input profile) (wf_calls f) (wf_commit f) s)
      end
  end.

(** ** Updating a resource *)

(** [pt_immutable] stands for the request naming a field nobody may change
    ([id], [resourceType], [createdAt], [origin], [source]). *)
Record ResourcePatchRequest : Type := PatchRequest {
  pt_immutable : bool;
  pt_Name : option bytes;
  pt_ResourceSubtype : option bytes;
  pt_DisplayName : option bytes;
  pt_EnvironmentID : option Z;
  pt_OwnerID : option Z;
  pt_LifecycleStatus : option bytes;
  pt_HealthStatus : option bytes;
  pt_ClearHealthStatus : bool;
  pt_Aliases : option (list bytes);
  pt_ExternalIdentifiers : option (list ResourceExternalIdentifier);
  pt_ExternalID : option bytes;
  pt_Labels : option (gmap bytes bytes);
}.
Definition HasImmutableFields (r : ResourcePatchRequest) : bool := pt_immutable r.
Definition set_ {A} (o : option A) : bool := match o with Some _ => true | None => false end.
Definition HasMutableFields (r : ResourcePatchRequest) : bool :=
  set_ (pt_Name r) || set_ (pt_ResourceSubtype r) || set_ (pt_DisplayName r) || set_ (pt_EnvironmentID r) || set_ (pt_OwnerID r)
  || set_ (pt_LifecycleStatus r) || set_ (pt_HealthStatus r) || pt_ClearHealthStatus r || set_ (pt_Aliases r)
  || set_ (pt_ExternalIdentifiers r) || set_ (pt_ExternalID r) || set_ (pt_Labels r).

(** [if p != nil { if bad(p) return err }] *)
Definition check_set {A} (o : option A) (bad : A → bool) (message : bytes) : result inventory_error () :=
  match o with Some a => guard_err (bad a) (ErrValidationFailed message) | None => Ok () end.
Definition normalize_set {A} (o : option A) (normalize : A → option A) (message : bytes) : result inventory_error (option A) :=
  match o with
  | None => Ok None
  | Some a => match normalize a with Some a => Ok (Some a) | None => Err (ErrValidationFailed message) end
  end.

(** The legacy id replaces the identifier of that system, among those the resource has. *)
Definition replace_legacy (existing : list ResourceExternalIdentifier) (externalID : bytes) : list ResourceExternalIdentifier :=
  filter (λ x, xi_System x ≠ gs "legacy") existing
  ++ (if trim_space externalID =?b [] then [] else [ExternalIdentifier (gs "legacy") (trim_space externalID)]).

Definition ValidateResourceUpdate (existing : Resource) (patch : ResourcePatchRequest) : result inventory_error ResourceUpdateInput :=
  _ ← guard_err (IsArchived existing) ErrResourceArchived;
  _ ← guard_err (HasImmutableFields patch) (ErrValidationFailed (gs "immutable resource fields cannot be updated"));
  _ ← guard_err (negb (HasMutableFields patch)) (ErrValidationFailed (gs "at least one mutable field is required"));
  _ ← check_set (pt_Name patch) (λ n, n =?b []) (gs "name is required");
  _ ← check_set (pt_Name patch) (λ n, negb (resourceNamePattern n)) (gs "name must be operations-friendly");
  _ ← match pt_ResourceSubtype patch with
      | Some subtype =>
          match ValidateResourceSubtype (rs_ResourceType existing) subtype with
          | Err e => Err (ErrValidationFailed (subtype_message (rs_ResourceType existing) subtype e))
          | Ok _ => Ok ()
          end
      | None => Ok ()
      end;
  _ ← check_set (pt_DisplayName patch) (λ n, n =?b []) (gs "displayName is required");
  _ ← check_set (pt_EnvironmentID patch) (λ e, (e =? 0)%Z) (gs "environmentId is required");
  _ ← check_set (pt_OwnerID patch) (λ o, (o =? 0)%Z) (gs "ownerId is required");
  _ ← check_set (pt_LifecycleStatus patch) (λ l, negb (LifecycleStatus_Validate l)) (gs "lifecycleStatus is not supported");
  _ ← check_set (pt_HealthStatus patch) (λ h, negb (HealthStatus_Validate h)) (gs "healthStatus is not supported");
  _ ← guard_err (pt_ClearHealthStatus patch && set_ (pt_HealthStatus patch))
        (ErrValidationFailed (gs "healthStatus cannot be set and cleared together"));
  _ ← match pt_Labels patch with
      | Some labels => guard_err (negb (validateResourceLabels labels)) (ErrValidationFailed (label_message labels))
      | None => Ok ()
      end;
  aliases ← normalize_set (pt_Aliases patch) normalizeAliases alias_message;
  identifiers ← normalize_set (pt_ExternalIdentifiers patch) normalizeExternalIdentifiers identifier_message;
  let identifiers := match pt_ExternalID patch with
                     | Some externalID => Some (replace_legacy (rs_ExternalIdentifiers existing) externalID)
                     | None => identifiers
                     end in
  _ ← (if set_ (pt_EnvironmentID patch) || set_ (pt_OwnerID patch)
       then validateReferenceIDs (default (rs_EnvironmentID existing) (pt_EnvironmentID patch))
              (default (rs_OwnerID existing) (pt_OwnerID patch))
       else Ok ());
  Ok (UpdateInput (pt_Name patch) (pt_ResourceSubtype patch) (pt_DisplayName patch) (pt_EnvironmentID patch) (pt_OwnerID patch)
        (pt_LifecycleStatus patch) (pt_HealthStatus patch) (pt_ClearHealthStatus patch) aliases identifiers (pt_Labels patch)).

(** The resource is read, with its completeness, before the transaction. *)
Definition validateUpdate (snap : inv_db) (read_fails : bool) (id : Z) (patch : ResourcePatchRequest) :
    result inventory_error ResourceUpdateInput :=
  _ ← guard_err (id =? 0)%Z (ErrValidationFailed (gs "resource id is required"));
  existing ← read_or ErrResourceNotFound (fetch read_fails (read_resource id snap));
  ValidateResourceUpdate existing patch.

Definition as_id (id : Z) (r : result inventory_error () * inv_db) : result inventory_error Z * inv_db :=
  match r with (Ok _, s) => (Ok id, s) | (Err e, s) => (Err e, s) end.
Definition ResourceService_Update (snap : inv_db) (read_fails : bool) (f : write_faults) (id : Z) (patch : ResourcePatchRequest) (s : inv_db) :
    result inventory_error Resource * inv_db :=
  match validateUpdate snap read_fails id patch with
  | Err e => (Err e, s)
  | Ok input => read_back (wf_read_back f) (as_id id (in_tx (_ ← updateResourceTx id input; mret tt) (wf_calls f) (wf_commit f) s))
  end.
Definition UpdateInventory (snap : inv_db) (read_fails : bool) (f : write_faults) (actorUserID id : Z) (patch : ResourcePatchRequest)
    (s : inv_db) : result inventory_error Resource * inv_db :=
  if (actorUserID =? 0)%Z then (Err ErrNoAuditActor, s)
  else match validateUpdate snap read_fails id patch with
  | Err e => (Err e, s)
  | Ok input =>
      read_back (wf_read_back f)
        (as_id id (in_tx (update_with_audit id input actorUserID (gs "inventory.resource.updated")) (wf_calls f) (wf_commit f) s))
  end.

(** ** Archiving *)

Definition MaxArchiveReasonLength : nat := 512.
Definition set_archived (id : Z) (at_ : option Z) (s : inv_db) : inv_db :=
  match db_resources s !! id with
  | Some r =>
      if Bool.eqb (set_ (rw_ArchivedAt r)) (set_ at_) then s
      else put_resources <[id := ResourceRow (rw_ResourceType r) (rw_ResourceSubtype r) (rw_Name r) (rw_DisplayName r)
             (rw_EnvironmentID r) (rw_OwnerID r) (rw_LifecycleStatus r) (rw_HealthStatus r) (rw_Origin r) (rw_Labels r) at_]> s
  | None => s
  end.
(** One statement, outside a transaction: it may fail before or after it took effect. *)
Definition run_update (end_ : commit_result) (f : inv_db → inv_db) (s : inv_db) : result inventory_error () * inv_db :=
  match end_ with Committed => (Ok (), f s) | CommitNotDone => (Err ErrStore, s) | CommitDoneUnseen => (Err ErrStore, f s) end.

Definition check_reason (reason : option bytes) : result inventory_error () :=
  match reason with
  | None => Ok ()
  | Some reason =>
      _ ← guard_err (trim_space reason =?b []) (ErrValidationFailed (gs "reason must be non-empty"));
      guard_err (MaxArchiveReasonLength <? length (trim_space reason))%nat
        (ErrValidationFailed (gs "reason must be at most 512 characters"))
  end.
Definition change_archived (want : bool) (snap : inv_db) (read_fails : bool) (f : write_faults) (id : Z) (s : inv_db) :
    result inventory_error Resource * inv_db :=
  match read_or ErrResourceNotFound (fetch read_fails (read_resource id snap)) with
  | Err e => (Err e, s)
  | Ok existing =>
      if Bool.eqb (IsArchived existing) want then (Ok existing, s)
      else read_back (wf_read_back f)
             (as_id id (run_update (wf_commit f) (set_archived id (if want then Some now else None)) s))
  end.
Definition Archive (snap : inv_db) (read_fails : bool) (f : write_faults) (id : Z) (reason : option bytes) (s : inv_db) :
    result inventory_error Resource * inv_db :=
  match (_ ← guard_err (id =? 0)%Z (ErrValidationFailed (gs "resource id is required")); check_reason reason) with
  | Err e => (Err e, s)
  | Ok _ => change_archived true snap read_fails f id s
  end.
Definition Unarchive (snap : inv_db) (read_fails : bool) (f : write_faults) (id : Z) (s : inv_db) :
    result inventory_error Resource * inv_db :=
  if (id =? 0)%Z then (Err (ErrValidationFailed (gs "resource id is required")), s)
  else change_archived false snap read_fails f id s.

(** ** Profiles *)

Definition inventoryProfileTarget (snap : inv_db) (read_fails : bool) (id : Z) (fields : gfields) (full : bool) :
    result inventory_error (Resource * gfields) :=
  res ← read_or ErrResourceNotFound (fetch read_fails (read_resource id snap));
  _ ← guard_err (IsArchived res) ErrResourceArchived;
  fields ← validateProfileFields (rs_ResourceType res) fields full;
  Ok (res, fields).
Definition PutProfileInventory (snap : inv_db) (read_fails : bool) (f : write_faults) (actorUserID id : Z) (fields : gfields) (s : inv_db) :
    result inventory_error () * inv_db :=
  match inventoryProfileTarget snap read_fails id fields true with
  | Err e => (Err e, s)
  | Ok (res, fields) =>
      in_tx (mutateProfileWithAudit sprint id (rs_ResourceType res) fields actorUserID (gs "inventory.profile.updated") MutationPut)
        (wf_calls f) (wf_commit f) s
  end.
Definition PatchProfileInventory (snap : inv_db) (read_fails : bool) (f : write_faults) (actorUserID id : Z) (fields : gfields) (s : inv_db) :
    result inventory_error () * inv_db :=
  match inventoryProfileTarget snap read_fails id fields false with
  | Err e => (Err e, s)
  | Ok (res, checked) =>
      if (size fields =? 0)%nat then (Ok (), s)
      else in_tx (mutateProfileWithAudit sprint id (rs_ResourceType res) checked actorUserID (gs "inventory.profile.updated") MutationPatch)
             (wf_calls f) (wf_commit f) s
  end.
Definition DeleteProfileInventory (snap : inv_db) (read_fails : bool) (f : write_faults) (actorUserID id : Z) (s : inv_db) :
    result inventory_error () * inv_db :=
  match (res ← read_or ErrResourceNotFound (fetch read_fails (read_resource id snap));
         _ ← guard_err (IsArchived res) ErrResourceArchived; Ok res) with
  | Err e => (Err e, s)
  | Ok res =>
      in_tx (mutateProfileWithAudit sprint id (rs_ResourceType res) ∅ actorUserID (gs "inventory.profile.deleted") MutationDelete)
        (wf_calls f) (wf_commit f) s
  end.

(** ** Completeness *)

Record Completeness : Type := MkCompleteness { cp_Score : Z; cp_Status : bytes; cp_MissingRequirements : list bytes }.

Definition hasMinimumIdentity (resourceType : bytes) (profile : gfields) : bool :=
  forallb (λ spec, negb ((fs_identity spec || fs_required spec) && negb (identityValuePresent spec profile)))
    (default [] (profileFieldSchemas !! resourceType)).
Definition hasAliasOrExternalIdentifier (r : Resource) : bool :=
  existsb (λ a, negb (trim_space a =?b [])) (rs_Aliases r)
  || existsb (λ x, negb (trim_space (xi_System x) =?b []) && negb (trim_space (xi_Value x) =?b [])) (rs_ExternalIdentifiers r).
Definition structural_types : list bytes := [RelationTypeMemberOf; RelationTypeRunsOn; RelationTypeFronts; RelationTypeReplicatesTo].
Definition hasStructuralRelation (r : Resource) (relations : list ResourceRelation) : bool :=
  (rs_ResourceType r =?b ResourceTypeDomainName)
  || existsb (λ rel,
       match relationshipRules !! rr_RelationType rel with
       | None => false
       | Some rule =>
           bool_decide (rr_RelationType rel ∈ structural_types)
           && (((rr_FromResourceID rel =? rs_ID r)%Z && containsRelationshipResourceType (ru_sources rule) (rs_ResourceType r))
               || ((rr_ToResourceID rel =? rs_ID r)%Z && containsRelationshipResourceType (ru_targets rule) (rs_ResourceType r)))
       end) relations.
Definition requirement (bad : bool) (name : string) : list bytes := if bad then [gs name] else [].
Definition DeriveCompleteness (r : Resource) (profile : gfields) (relations : list ResourceRelation) : Completeness :=
  let missing :=
    requirement (trim_space (rs_Name r) =?b []) "name"
    ++ requirement (trim_space (rs_DisplayName r) =?b []) "displayName"
    ++ requirement (rs_EnvironmentID r =? 0)%Z "environment"
    ++ requirement (rs_OwnerID r =? 0)%Z "owner"
    ++ requirement (negb (hasMinimumIdentity (rs_ResourceType r) profile)) "minimumIdentity"
    ++ requirement (negb (hasAliasOrExternalIdentifier r)) "aliasOrExternalCIIdentifier"
    ++ requirement (negb (hasStructuralRelation r relations)) "structuralRelationship" in
  match missing with
  | [] => MkCompleteness 100 (gs "complete") []
  | _ => MkCompleteness ((7 - Z.of_nat (length missing)) * 100 ÷ 7) (gs "partial") missing
  end.

(** ** What a registration guarantees *)

Lemma with_field_empty bad field message ve : with_field bad field message ve = ∅ → bad = false ∧ ve = ∅.
Proof. unfold with_field. destruct bad; [|done]. intros E. by apply insert_non_empty in E. Qed.
Lemma insert_complaint (ve : gmap bytes bytes) field message : <[field := message]> ve = ∅ → False.
Proof. apply insert_non_empty. Qed.

(** The resource is what a registration may hold. *)
Definition well_registered (r : Resource) : Prop :=
  ResourceType_Validate (rs_ResourceType r) = true ∧ ValidateResourceSubtype (rs_ResourceType r) (rs_ResourceSubtype r) = Ok ()
  ∧ resourceNamePattern (rs_Name r) = true ∧ rs_DisplayName r ≠ [] ∧ LifecycleStatus_Validate (rs_LifecycleStatus r) = true
  ∧ Origin_Validate (rs_Origin r) = true ∧ validateResourceLabels (rs_Labels r) = true
  ∧ rs_EnvironmentID r ∈ [1; 2; 3]%Z ∧ rs_OwnerID r ∈ [1; 2; 3; 4; 5]%Z.
(** The columns of [r] are those of the input. *)
Definition row_of_input (i : ResourceCreateInput) (id : Z) (s : inv_db) : Prop :=
  db_resources s !! id = Some (ResourceRow (cr_ResourceType i) (cr_ResourceSubtype i) (cr_Name i) (cr_DisplayName i)
    (cr_EnvironmentID i) (cr_OwnerID i) (cr_LifecycleStatus i) (Some (cr_HealthStatus i)) (cr_Origin i) (cr_Labels i) None).

Lemma no_complaints i :
  input_complaints i = ∅ →
  ResourceType_Validate (cr_ResourceType i) = true ∧ ValidateResourceSubtype (cr_ResourceType i) (cr_ResourceSubtype i) = Ok ()
  ∧ resourceNamePattern (cr_Name i) = true ∧ cr_DisplayName i ≠ [] ∧ LifecycleStatus_Validate (cr_LifecycleStatus i) = true
  ∧ Origin_Validate (cr_Origin i) = true ∧ validateResourceLabels (cr_Labels i) = true.
Proof.
  unfold input_complaints. intros Hc. apply with_field_empty in Hc as [Hlabels Hc].
  destruct (ValidateResourceSubtype _ _) as [[]|e]; [|by apply insert_complaint in Hc].
  apply with_field_empty in Hc as [_ Hc]. apply with_field_empty in Hc as [_ Hc].
  apply with_field_empty in Hc as [Ho Hc]. apply with_field_empty in Hc as [_ Hc]. apply with_field_empty in Hc as [Hl Hc].
  apply with_field_empty in Hc as [_ Hc]. apply with_field_empty in Hc as [_ Hc]. apply with_field_empty in Hc as [Hd Hc].
  case_bool_decide; [by apply insert_complaint in Hc|]. apply with_field_empty in Hc as [Hn Hc].
  apply with_field_empty in Hc as [Ht _]. apply bool_decide_eq_false in Hd. 
  repeat match goal with H : negb _ = false |- _ => apply negb_false_iff in H end. done.
Qed.
Lemma valid_input i profile : validateResourceCreateInput i = Ok profile → input_complaints i = ∅.
Proof.
  unfold validateResourceCreateInput. destruct (decide (input_complaints i = ∅)) as [->|Hne]; [done|].
  rewrite (bool_decide_eq_false_2 _ Hne). repeat case_match; done.
Qed.
Lemma reference_ids env owner : validateReferenceIDs env owner = Ok () → env ∈ [1; 2; 3]%Z ∧ owner ∈ [1; 2; 3; 4; 5]%Z.
Proof. unfold validateReferenceIDs. do 2 case_bool_decide; done. Qed.

Lemma create_stores input profile :
  htriple (λ _, True) (createResourceTx sprint input profile) (λ id s, row_of_input (ApplyLegacyCreateFields input) id s).
Proof.
  unfold createResourceTx. apply triple_call_bind, triple_get_bind. intros s0.
  eapply (tx_triple_bind _ (λ _ _, True)); [apply (triple_put _ (λ _, True)); intros s _; split; [done|split; cbn; lia]|]. intros ?.
  do 2 (apply triple_guard_bind; intros _).
  set (i := ApplyLegacyCreateFields input). set (id := db_next_resource s0).
  eapply (tx_triple_bind _ (λ _, row_of_input i id)).
  { apply triple_put. intros s _. split; [|split; cbn; lia]. unfold row_of_input. cbn. by rewrite lookup_insert_eq. }
  intros ?. eapply (tx_triple_bind _ (λ _, row_of_input i id)).
  { apply (kept_identity (λ s, db_resources s !! id)); done. }
  intros ?. eapply (tx_triple_bind _ (λ _, row_of_input i id)).
  { destruct profile; [|apply (tx_triple_ret tt (λ _, row_of_input i id))]. unfold upsert_profile.
    apply (kept_write_row (λ s, db_resources s !! id)); done. }
  intros ?. apply (tx_triple_ret id (λ id s, row_of_input i id s)).
Qed.

(** A registration that succeeds returns the resource as stored, with the
    submitted columns, and what is stored is well registered: a known type with
    one of its subtypes, an operations-friendly name, a display name, known
    lifecycle status and origin, labels free of control characters and of
    reserved words, and a known environment and owner. *)
Theorem registered_well f input s r s' :
  ResourceService_Create f input s = (Ok r, s') →
  read_resource (rs_ID r) s' = Some r ∧ well_registered r ∧ row_of_input (normalizeResourceCreateInput input) (rs_ID r) s'.
Proof.
  unfold ResourceService_Create. set (i := normalizeResourceCreateInput input).
  destruct (validateResourceCreateInput i) as [profile|] eqn:Ev; [|done]. apply valid_input, no_complaints in Ev.
  destruct (validateReferenceIDs _ _) as [[]|] eqn:Er; [|done]. apply reference_ids in Er as [Henv Howner].
  destruct (in_tx _ _ _ _) as [[id|e] s2] eqn:Et; [|done]. cbn.
  assert (row_of_input i id s2) as Hrow.
  { destruct (in_tx_outcome _ _ _ _ _ _ _ _ (create_stores i profile) Logic.I Et) as [(id' & Hid & _ & [[= <-]|[? _]])|(e & s3 & ? & _)]; try done.
    assert (cr_Origin i ≠ []) as Hne by (intros E; destruct Ev as (_ & _ & _ & _ & _ & Ho & _); rewrite E in Ho; discriminate Ho).
    unfold row_of_input in *. cbn [ApplyLegacyCreateFields] in Hid. unfold ApplyLegacyCreateFields in Hid.
    by rewrite (bool_decide_eq_false_2 _ Hne) in Hid. }
  destruct (wf_read_back f); [done|]. unfold read_resource. pose proof Hrow as Hl. unfold row_of_input in Hl. rewrite Hl. cbn.
  intros [= <- <-]. cbn. split; [by rewrite Hl|]. split; [|done]. unfold well_registered. cbn. tauto.
Qed.

Definition with_aliases (aliases : list bytes) (i : ResourceCreateInput) : ResourceCreateInput :=
  with_identity i (cr_Source i) aliases (cr_ExternalIdentifiers i).
Lemma update_refuses_aliases existing patch l :
  pt_Aliases patch = Some l → normalizeAliases l = None → is_ok (ValidateResourceUpdate existing patch) = false.
Proof.
  intros Hp Hn. destruct (ValidateResourceUpdate existing patch) as [input|] eqn:E; [|done]. exfalso. revert E.
  unfold ValidateResourceUpdate. rewrite Hp.
  assert (normalize_set (Some l) normalizeAliases alias_message = Err (ErrValidationFailed alias_message)) as -> by (cbn; by rewrite Hn).
  repeat match goal with |- (_ ← ?m; _) = _ → False => destruct m; [cbn [mbind result_bind]|done] end. done.
Qed.

(** An alias list that is not acceptable — an empty, over-long or unfriendly
    alias in it — is refused by an update, but at registration it is dropped
    without a word: the resource is registered exactly as if the list had been
    empty, and the valid aliases beside the offending one are lost with it. *)
Theorem registration_drops_aliases l :
  normalizeAliases l = None →
  (∀ f input s, cr_Aliases input = l → ResourceService_Create f input s = ResourceService_Create f (with_aliases [] input) s)
  ∧ (∀ existing patch, pt_Aliases patch = Some l → is_ok (ValidateResourceUpdate existing patch) = false).
Proof.
  intros Hn. split; [|intros existing patch Hp; by eapply update_refuses_aliases].
  intros f input s Ha. unfold ResourceService_Create.
  assert (normalizeResourceCreateInput input = normalizeResourceCreateInput (with_aliases [] input)) as ->; [|done].
  unfold normalizeResourceCreateInput. cbn. by rewrite Ha, Hn.
Qed.
End services.
