(* ===== verification/Ingestion.v ===== *)
(** * Ingestion: parsing and preview

    [service/ingestion_preview.go]: the rows of an ingestion batch, their
    canonical form and validation, and the preview that classifies them against
    snapshots of the inventory. The CSV reader, the decoding of JSON texts into
    rows and the JSON text a fingerprint hashes are parameters; when
    [json.Marshal] fails is modelled. *)
From S2P Require Import Prelude GoText GoAny Sha256 Inventory Profiles InventoryDb ResourceStore Relations Resources.

(** ** Rows, snapshots, previews *)

Definition MaxIngestionRows : nat := 500.
Definition MaxIngestionRowBytes : Z := 65536.
Definition MaxIngestionBytes : Z := 32768000.

Record ObservedValueInput : Type := Observed { ov_Source : bytes; ov_Value : gvalue }.
Record IngestionRelation : Type := IngestRelation { ig_Type : bytes; ig_TargetID : Z }.
#[export] Instance ingestion_relation_eq_dec : EqDecision IngestionRelation.
Proof. solve_decision. Defined.

Record IngestionRow : Type := Row {
  iw_EnvironmentID : Z;
  iw_CIType : bytes;
  iw_Name : bytes;
  iw_DisplayName : bytes;
  iw_Aliases : list bytes;
  iw_ExternalIdentifiers : list ResourceExternalIdentifier;
  iw_Profile : option gfields;             (** nil or a map *)
  iw_ObservedValues : gmap bytes ObservedValueInput;
  iw_Relations : list IngestionRelation;
}.
Record IngestionSnapshot : Type := Snapshot {
  sn_ID : Z;
  sn_EnvironmentID : Z;
  sn_CIType : bytes;
  sn_Name : bytes;
  sn_DisplayName : bytes;
  sn_Aliases : list bytes;
  sn_ExternalIdentifiers : list ResourceExternalIdentifier;
  sn_Profile : gfields;
  sn_ObservedValues : gmap bytes ObservedValueInput;
  sn_Relations : list IngestionRelation;
}.
Definition empty_snapshot : IngestionSnapshot := Snapshot 0 0 [] [] [] [] [] ∅ ∅ [].

(** [PreviewUnset] is the zero value of the string type. *)
Inductive PreviewAction : Type := PreviewUnset | PreviewCreate | PreviewUpdate | PreviewConflict.
#[export] Instance preview_action_eq_dec : EqDecision PreviewAction.
Proof. solve_decision. Defined.
Record ValueDiff : Type := VDiff { vd_Before : gvalue; vd_After : gvalue }.
Record RelationDiff : Type := RDiff { rd_Added : list IngestionRelation; rd_Removed : list IngestionRelation }.
Record IngestionDiff : Type := Diff {
  df_Fields : gmap bytes ValueDiff;
  df_Profile : gmap bytes ValueDiff;
  df_Observed : gmap bytes ValueDiff;
  df_Relations : RelationDiff;
}.
Record IngestionPreviewRow : Type := PreviewRow {
  pr_Row : Z;
  pr_Action : PreviewAction;
  pr_MatchedID : Z;
  pr_Conflict : bytes;
  pr_Diff : IngestionDiff;
}.
Record IngestionPreview : Type := Preview { pv_Confirmable : bool; pv_Fingerprint : bytes; pv_Rows : list IngestionPreviewRow }.

Section ingestion.
Context `{UnicodeLower, FloatConversion}.

(** ** Canonical forms *)

Fixpoint dedup_texts (seen l : list bytes) : list bytes :=
  match l with
  | [] => []
  | v :: l =>
      let v := normal_alias v in
      if negb (v =?b []) && negb (bool_decide (v ∈ seen)) then v :: dedup_texts (v :: seen) l else dedup_texts seen l
  end.
Definition canonicalAliases (l : list bytes) : list bytes := sort_slice bytes_less (dedup_texts [] l).

Fixpoint dedup_identifiers (seen : list bytes) (l : list ResourceExternalIdentifier) : list ResourceExternalIdentifier :=
  match l with
  | [] => []
  | v :: l =>
      let v := normal_identifier v in
      if bool_decide (identifier_key v ∈ seen) then dedup_identifiers seen l
      else v :: dedup_identifiers (identifier_key v :: seen) l
  end.
Definition external_less (a b : ResourceExternalIdentifier) : bool :=
  bytes_less (xi_System a) (xi_System b) || ((xi_System a =?b xi_System b) && bytes_less (xi_Value a) (xi_Value b)).
Definition canonicalExternalIdentifiers (l : list ResourceExternalIdentifier) : list ResourceExternalIdentifier :=
  sort_slice external_less (dedup_identifiers [] l).

Definition ingestion_relation_less (a b : IngestionRelation) : bool :=
  bytes_less (ig_Type a) (ig_Type b) || ((ig_Type a =?b ig_Type b) && (ig_TargetID a <? ig_TargetID b)%Z).
(** Equal neighbours are dropped after the sort. *)
Fixpoint drop_repeats (l : list IngestionRelation) : list IngestionRelation :=
  match l with
  | [] => []
  | v :: t =>
      match t with
      | [] => [v]
      | w :: _ => if v =?b w then drop_repeats t else v :: drop_repeats t
      end
  end.
Definition canonicalRelations (l : list IngestionRelation) : list IngestionRelation :=
  drop_repeats (sort_slice ingestion_relation_less l).

Definition normalize_fields (m : gfields) : gfields := normalizeJSONNumbers <$> m.
Definition canonicalizeRow (row : IngestionRow) : IngestionRow :=
  Row (iw_EnvironmentID row) (iw_CIType row) (trim_space (iw_Name row)) (trim_space (iw_DisplayName row))
    (canonicalAliases (iw_Aliases row)) (canonicalExternalIdentifiers (iw_ExternalIdentifiers row))
    (normalize_fields <$> iw_Profile row)
    ((λ v, Observed (trim_space (ov_Source v)) (normalizeJSONNumbers (ov_Value v))) <$> iw_ObservedValues row)
    (canonicalRelations (iw_Relations row)).

(** ** Validation *)

Definition observed_value (v : ObservedValueInput) : gvalue :=
  GObject (list_to_map [(gs "source", GString (ov_Source v)); (gs "value", ov_Value v)]).

Definition secret_keys : list bytes :=
  gs <$> ["password"; "secret"; "token"; "credential"; "dsn"; "apikey"; "privatekey"]%string.
(** [strings.NewReplacer] with the three separators removed, on the lower-cased key. *)
Definition plain_key (k : bytes) : bytes := filter (λ c, c ∉ ["_"; "-"; "."]%char) (unicode_lower k).
Fixpoint secret_walk (v : gvalue) : bool :=
  match v with
  | GObject m => map_fold (λ k v acc, acc || bool_decide (plain_key k ∈ secret_keys) || secret_walk v) false m
  | GArray l => existsb secret_walk l
  | _ => false
  end.
(** The value is marshalled first; the error is dropped, and nothing is walked then. *)
Definition containsSecret (v : gvalue) : bool := if marshal_ok v then secret_walk v else false.

Definition profile_value (p : option gfields) : gvalue := match p with Some m => GObject m | None => GNull end.
Definition observed_values (m : gmap bytes ObservedValueInput) : gvalue := GObject (observed_value <$> m).

Definition validateIngestionRow (row : IngestionRow) : bool :=
  negb ((iw_EnvironmentID row =? 0)%Z || (iw_Name row =?b []))
  && ResourceType_Validate (iw_CIType row)
  && forallb (λ x, negb ((xi_System x =?b []) || (xi_Value x =?b []))) (iw_ExternalIdentifiers row)
  && forallb (λ x, negb (ig_TargetID x =? 0)%Z && RelationType_Validate (ig_Type x)) (iw_Relations row)
  && bool_decide (map_Forall (λ _ v, ov_Source v ≠ []) (iw_ObservedValues row))
  && negb (containsSecret (profile_value (iw_Profile row)) || containsSecret (observed_values (iw_ObservedValues row))).

Definition row_profile_ok (row : IngestionRow) : bool :=
  match iw_Profile row with Some fields => is_ok (validateProfileFields (iw_CIType row) fields true) | None => true end.
Definition ValidateIngestionRows (rows : list IngestionRow) : bool :=
  negb ((length rows =? 0)%nat || (MaxIngestionRows <? length rows)%nat)
  && forallb (λ row, validateIngestionRow row && row_profile_ok row) rows.
Definition ValidateCollectorIngestionRows (rows : list IngestionRow) : bool :=
  match rows with [] => true | _ => ValidateIngestionRows rows end.

(** ** Parsing *)

(** [fmt.Sprintf("n:%d:%s:%s", ...)] and its siblings. *)
Definition rowIdentityKeys (row : IngestionRow) : list bytes :=
  (gs "n:" ++ format_int (iw_EnvironmentID row) ++ gs ":" ++ iw_CIType row ++ gs ":" ++ iw_Name row)
  :: ((λ a, gs "a:" ++ format_int (iw_EnvironmentID row) ++ gs ":" ++ a) <$> iw_Aliases row)
  ++ ((λ x, gs "x:" ++ xi_System x ++ gs ":" ++ xi_Value x) <$> iw_ExternalIdentifiers row).

Definition csv_fields : list bytes :=
  gs <$> ["environmentId"; "ciType"; "name"; "displayName"; "aliases"; "externalIdentifiers"; "profile"; "observedValues";
          "relations"]%string.

Section parse.
(** The records of a CSV text, and whether reading ended in an error; the raw
    rows of a JSON array; strict decoders of JSON texts; the JSON text of a row. *)
Context (csv_records : bytes → list (list bytes) * bool) (json_rows : bytes → option (list bytes))
        (decode_row : bytes → option IngestionRow) (decode_aliases : bytes → option (list bytes))
        (decode_identifiers : bytes → option (list ResourceExternalIdentifier)) (decode_profile : bytes → option (option gfields))
        (decode_observed : bytes → option (gmap bytes ObservedValueInput)) (decode_relations : bytes → option (list IngestionRelation))
        (encode_row : IngestionRow → bytes).

Definition size_of {A} (l : list A) : Z := Z.of_nat (length l).

Definition parseIngestionJSON (payload : bytes) : option (list IngestionRow) :=
  raw_rows ← json_rows payload;
  if (MaxIngestionRows <? length raw_rows)%nat then None
  else mapM (λ raw, if (MaxIngestionRowBytes <? size_of raw)%Z then None else decode_row raw) raw_rows.

(** [get(name)]: the cell under the header, or the empty text. *)
Definition csv_get (header record : list bytes) (name : string) : bytes :=
  match list_find (λ h, h = gs name) header with Some (i, _) => default [] (record !! i) | None => [] end.
Definition decode_cell {A} (empty : A) (decode : bytes → option A) (cell : bytes) : option A :=
  if trim_space cell =?b [] then Some empty else decode (trim_space cell).
Definition csv_row (header record : list bytes) : option IngestionRow :=
  if negb (length record =? length header)%nat then None
  else if (MaxIngestionRowBytes <? size_of (mjoin record))%Z then None
  else
    let get := csv_get header record in
    env ← parse_uint (trim_space (get "environmentId"%string));
    aliases ← decode_cell [] decode_aliases (get "aliases"%string);
    identifiers ← decode_cell [] decode_identifiers (get "externalIdentifiers"%string);
    profile ← decode_cell None decode_profile (get "profile"%string);
    observed ← decode_cell ∅ decode_observed (get "observedValues"%string);
    relations ← decode_cell [] decode_relations (get "relations"%string);
    Some (Row env (get "ciType"%string) (get "name"%string) (get "displayName"%string) aliases identifiers profile observed relations).
Definition header_ok (header : list bytes) : bool :=
  forallb (λ h, bool_decide (h ∈ csv_fields)) header && bool_decide (NoDup header)
  && forallb (λ name, bool_decide (gs name ∈ header)) ["environmentId"; "ciType"; "name"]%string.
(** An error of the reader comes after the records read before it. *)
Definition parseIngestionCSV (payload : bytes) : option (list IngestionRow) :=
  match csv_records payload with
  | ([], _) => None
  | (header :: records, failed) =>
      if negb (header_ok header) then None
      else if (MaxIngestionRows <? length records)%nat then None
      else rows ← mapM (csv_row header) records;
           if failed then None else Some rows
  end.

Fixpoint check_rows (seen : list bytes) (rows : list IngestionRow) : option (list IngestionRow) :=
  match rows with
  | [] => Some []
  | row :: rows =>
      let row := canonicalizeRow row in
      if negb (validateIngestionRow row) then None
      else if (MaxIngestionRowBytes <? size_of (encode_row row))%Z then None
      else if bool_decide (NoDup (rowIdentityKeys row)) && forallb (λ key, negb (bool_decide (key ∈ seen))) (rowIdentityKeys row)
      then rest ← check_rows (rowIdentityKeys row ++ seen) rows; Some (row :: rest)
      else None
  end.
Inductive ingestion_format : Type := FormatJSON | FormatCSV.
Definition format_of (format : bytes) : option ingestion_format :=
  let f := unicode_lower (trim_space format) in
  if f =?b gs "json" then Some FormatJSON else if f =?b gs "csv" then Some FormatCSV else None.
Definition ParseIngestion (format payload : bytes) : option (list IngestionRow) :=
  if (size_of payload =? 0)%Z || (MaxIngestionBytes <? size_of payload)%Z then None
  else
    f ← format_of format;
    rows ← match f with FormatJSON => parseIngestionJSON payload | FormatCSV => parseIngestionCSV payload end;
    if (MaxIngestionRows <? length rows)%nat then None else check_rows [] rows.
End parse.

(** ** Matching *)

Definition intersectsStrings (a b : list bytes) : bool := existsb (λ v, bool_decide (v ∈ a)) b.
Definition intersectsExternal (a b : list ResourceExternalIdentifier) : bool :=
  existsb (λ v, bool_decide (identifier_key v ∈ identifier_key <$> a)) b.

Definition by_identifier (row : IngestionRow) (s : IngestionSnapshot) : bool :=
  intersectsExternal (canonicalExternalIdentifiers (iw_ExternalIdentifiers row))
    (canonicalExternalIdentifiers (sn_ExternalIdentifiers s)).
Definition by_alias (row : IngestionRow) (s : IngestionSnapshot) : bool :=
  (iw_EnvironmentID row =? sn_EnvironmentID s)%Z
  && intersectsStrings (canonicalAliases (iw_Aliases row)) (canonicalAliases (sn_Aliases s)).
Definition by_name (row : IngestionRow) (s : IngestionSnapshot) : bool :=
  (iw_EnvironmentID row =? sn_EnvironmentID s)%Z && (iw_CIType row =?b sn_CIType s) && (iw_Name row =?b sn_Name s).

Definition matching_ids (test : IngestionSnapshot → bool) (current : list IngestionSnapshot) : gset Z :=
  list_to_set (sn_ID <$> filter (λ s, test s = true) current).
Definition matchSnapshots (row : IngestionRow) (current : list IngestionSnapshot) : list (gset Z) :=
  [matching_ids (by_identifier row) current; matching_ids (by_alias row) current; matching_ids (by_name row) current].
Definition unionIDs (sets : list (gset Z)) : gset Z := ⋃ sets.

Definition conflict_many : bytes := gs "identity matches multiple CIs".
Definition conflict_disagree : bytes := gs "identity methods disagree".
Definition conflict_type : bytes := gs "ciType differs from matched CI".

Fixpoint choose_match (chosen : Z) (stages : list (gset Z)) : Z * bytes :=
  match stages with
  | [] => (chosen, [])
  | stage :: stages =>
      match elements stage with
      | [] => choose_match chosen stages
      | [id] => if (chosen =? 0)%Z then choose_match id stages
                else if negb (chosen =? id)%Z then (0%Z, conflict_disagree)
                else choose_match chosen stages
      | _ => (0%Z, conflict_many)
      end
  end.
Definition chooseMatch : list (gset Z) → Z * bytes := choose_match 0.

(** ** Differences *)

Definition texts_value (l : list bytes) : gvalue := GArray (GString <$> l).
Definition identifiers_value (l : list ResourceExternalIdentifier) : gvalue := GArray (identifier_value <$> l).

Definition addDiff (key : bytes) (before after : gvalue) (dst : gmap bytes ValueDiff) : gmap bytes ValueDiff :=
  if deep_equal before after then dst else <[key := VDiff before after]> dst.
(** An absent key reads as nil. *)
Definition diffMaps (before after : gfields) : gmap bytes ValueDiff :=
  set_fold (λ key dst, addDiff key (value_at before key) (value_at after key) dst) ∅ (dom before ∪ dom after).
Definition diff_observed (before after : gmap bytes ObservedValueInput) : gmap bytes ValueDiff :=
  map_fold (λ field v dst,
    addDiff field (match before !! field with Some p => observed_value p | None => GNull end) (observed_value v) dst) ∅ after.
Definition diff_relations (before after : list IngestionRelation) : RelationDiff :=
  let oldRelations := canonicalRelations before in
  let newRelations := canonicalRelations after in
  RDiff (filter (λ r, r ∉ oldRelations) newRelations) (filter (λ r, r ∉ newRelations) oldRelations).
Definition diff_fields (row : IngestionRow) (before : IngestionSnapshot) : gmap bytes ValueDiff :=
  let d := addDiff (gs "environmentId") (GInt (sn_EnvironmentID before)) (GInt (iw_EnvironmentID row)) ∅ in
  let d := addDiff (gs "ciType") (GString (sn_CIType before)) (GString (iw_CIType row)) d in
  let d := addDiff (gs "name") (GString (sn_Name before)) (GString (iw_Name row)) d in
  let d := addDiff (gs "displayName") (GString (sn_DisplayName before)) (GString (iw_DisplayName row)) d in
  let d := addDiff (gs "aliases") (texts_value (canonicalAliases (sn_Aliases before))) (texts_value (canonicalAliases (iw_Aliases row))) d in
  addDiff (gs "externalIdentifiers") (identifiers_value (canonicalExternalIdentifiers (sn_ExternalIdentifiers before)))
    (identifiers_value (canonicalExternalIdentifiers (iw_ExternalIdentifiers row))) d.
Definition emptyIngestionDiff : IngestionDiff := Diff ∅ ∅ ∅ (RDiff [] []).
Definition diffIngestion (row : IngestionRow) (before : IngestionSnapshot) : IngestionDiff :=
  Diff (diff_fields row before) (diffMaps (sn_Profile before) (default ∅ (iw_Profile row)))
    (diff_observed (sn_ObservedValues before) (iw_ObservedValues row)) (diff_relations (sn_Relations before) (iw_Relations row)).

(** ** The preview *)

Definition find_snapshot (id : Z) (current : list IngestionSnapshot) : option IngestionSnapshot :=
  find (λ s, (sn_ID s =? id)%Z) current.
Definition preview_row (current : list IngestionSnapshot) (index : nat) (row : IngestionRow) : IngestionPreviewRow :=
  let '(chosen, conflict) := chooseMatch (matchSnapshots row current) in
  let n := (Z.of_nat index + 1)%Z in
  if negb (conflict =?b []) then PreviewRow n PreviewConflict 0 conflict emptyIngestionDiff
  else if (chosen =? 0)%Z then PreviewRow n PreviewCreate 0 [] (diffIngestion row empty_snapshot)
  else match find_snapshot chosen current with
       | Some s => if negb (sn_CIType s =?b iw_CIType row) then PreviewRow n PreviewConflict chosen conflict_type emptyIngestionDiff
                   else PreviewRow n PreviewUpdate chosen [] (diffIngestion row s)
       | None => PreviewRow n PreviewUnset chosen [] emptyIngestionDiff
       end.

(** The snapshots some row matched, in id order, with canonical identities. *)
Definition clean_snapshot (s : IngestionSnapshot) : IngestionSnapshot :=
  Snapshot (sn_ID s) (sn_EnvironmentID s) (sn_CIType s) (sn_Name s) (sn_DisplayName s) (canonicalAliases (sn_Aliases s))
    (canonicalExternalIdentifiers (sn_ExternalIdentifiers s)) (sn_Profile s) (sn_ObservedValues s) (canonicalRelations (sn_Relations s)).
Definition matched_ids (rows : list IngestionRow) (current : list IngestionSnapshot) : gset Z :=
  ⋃ ((λ row, unionIDs (matchSnapshots row current)) <$> rows).
Definition fingerprint_snapshots (rows : list IngestionRow) (current : list IngestionSnapshot) : list IngestionSnapshot :=
  clean_snapshot <$> omap (λ id, find_snapshot id current) (sort_slice Z.ltb (elements (matched_ids rows current))).

(** Everything dynamic in the fingerprint's input marshals. *)
Definition row_marshals (row : IngestionRow) : bool :=
  marshal_ok (profile_value (iw_Profile row)) && marshal_ok (observed_values (iw_ObservedValues row)).
Definition snapshot_marshals (s : IngestionSnapshot) : bool :=
  marshal_ok (GObject (sn_Profile s)) && marshal_ok (observed_values (sn_ObservedValues s)).

Section fingerprint.
(** The JSON text of the rows and the snapshots. *)
Context (fingerprint_text : list IngestionRow → list IngestionSnapshot → bytes).

(** A failed marshal leaves the text empty: its error is dropped. *)
Definition ingestionFingerprint (rows : list IngestionRow) (snapshots : list IngestionSnapshot) : bytes :=
  sha256_hex (if forallb row_marshals rows && forallb snapshot_marshals snapshots
                      then fingerprint_text rows snapshots else []).

Definition PreviewIngestion (rows : list IngestionRow) (current : list IngestionSnapshot) : IngestionPreview :=
  let previews := imap (preview_row current) rows in
  Preview (forallb (λ p, negb (bool_decide (pr_Action p = PreviewConflict))) previews)
    (ingestionFingerprint rows (fingerprint_snapshots rows current)) previews.
End fingerprint.

(** ** Classification *)

(** One candidate, none, or at least two different ones. *)
Definition singleton_or_none (id : Z) : gset Z := if (id =? 0)%Z then ∅ else {[id]}.
Definition classified (ids : gset Z) (r : Z * bytes) : Prop :=
  match r with
  | (id, []) => ids = singleton_or_none id
  | (_, _ :: _) => ∃ a b, a ∈ ids ∧ b ∈ ids ∧ a ≠ b
  end.
Lemma classified_conflict ids id message :
  message ≠ [] → (∃ a b, a ∈ ids ∧ b ∈ ids ∧ a ≠ b) → classified ids (id, message).
Proof. by destruct message. Qed.
Lemma singleton_of id : id ≠ 0%Z → singleton_or_none id = {[id]}.
Proof. intros Hne. unfold singleton_or_none. by rewrite (proj2 (Z.eqb_neq _ _) Hne). Qed.

Lemma elements_one (X : gset Z) a : elements X = [a] → X = {[a]}.
Proof. intros He. apply set_eq. intros x. rewrite <- elem_of_elements, He. set_solver. Qed.

Lemma choose_match_spec chosen stages :
  (∀ stage, stage ∈ stages → 0%Z ∉ stage) →
  classified (singleton_or_none chosen ∪ ⋃ stages) (choose_match chosen stages).
Proof.
  revert chosen. induction stages as [|stage stages IH]; intros chosen Hz; cbn; [set_solver|].
  assert (Hz' : ∀ st, st ∈ stages → 0%Z ∉ st) by (intros st Hst; apply Hz; by right).
  pose proof (Hz stage (list_elem_of_here _ _)) as H0s.
  destruct (elements stage) as [|a [|b l]] eqn:El.
  - apply elements_empty_inv, leibniz_equiv in El as ->. rewrite union_empty_l_L. by apply IH.
  - apply elements_one in El as ->. assert (a ≠ 0%Z) as Ha by set_solver.
    destruct (Z.eqb_spec chosen 0) as [->|Hc].
    + specialize (IH a Hz'). rewrite (singleton_of a Ha) in IH. unfold singleton_or_none at 1. cbn. by rewrite union_empty_l_L.
    + destruct (Z.eqb_spec chosen a) as [->|Hne]; cbn.
      * specialize (IH a Hz'). rewrite (singleton_of a Ha) in *. by rewrite (assoc_L (∪)), union_idemp_L.
      * rewrite (singleton_of chosen Hc). exists chosen, a. set_solver.
  - apply classified_conflict; [done|]. assert (a ∈ stage ∧ b ∈ stage) as [Ha Hb] by (rewrite <- !elem_of_elements, El; set_solver).
    pose proof (NoDup_elements stage) as Hnd. rewrite El in Hnd. apply NoDup_cons in Hnd as [Hnd _]. exists a, b. set_solver.
Qed.

Lemma elem_of_matching test current id :
  id ∈ matching_ids test current ↔ ∃ s, s ∈ current ∧ test s = true ∧ sn_ID s = id.
Proof.
  unfold matching_ids. rewrite elem_of_list_to_set, list_elem_of_fmap. setoid_rewrite list_elem_of_filter. naive_solver.
Qed.

(** [row] and [s] denote the same item, by identifier, alias or name. *)
Definition matches (row : IngestionRow) (s : IngestionSnapshot) : bool := by_identifier row s || by_alias row s || by_name row s.

Lemma elem_of_matched row current id :
  id ∈ unionIDs (matchSnapshots row current) ↔ ∃ s, s ∈ current ∧ matches row s = true ∧ sn_ID s = id.
Proof.
  unfold unionIDs, matchSnapshots, matches. cbn. rewrite !elem_of_union, !elem_of_matching, elem_of_empty.
  setoid_rewrite orb_true_iff. setoid_rewrite orb_true_iff. naive_solver.
Qed.

Lemma chosen_classified row current :
  (∀ s, s ∈ current → sn_ID s ≠ 0%Z) →
  classified (unionIDs (matchSnapshots row current)) (chooseMatch (matchSnapshots row current)).
Proof.
  intros Hz. pose proof (choose_match_spec 0 (matchSnapshots row current)) as Hs.
  unfold singleton_or_none at 1 in Hs. cbn [Z.eqb] in Hs. rewrite union_empty_l_L in Hs. apply Hs.
  assert (∀ test, 0%Z ∉ matching_ids test current).
  { intros test (s & Hs' & _ & E)%elem_of_matching. by apply (Hz s). }
  intros stage. unfold matchSnapshots. rewrite !elem_of_cons. naive_solver by set_solver.
Qed.

(** A chosen id is one of the snapshots'. *)
Lemma chosen_found row current id :
  (∀ s, s ∈ current → sn_ID s ≠ 0%Z) → chooseMatch (matchSnapshots row current) = (id, []) → id ≠ 0%Z →
  ∃ s, find_snapshot id current = Some s ∧ s ∈ current ∧ sn_ID s = id.
Proof.
  intros Hz Hc Hid. pose proof (chosen_classified row current Hz) as Hcl. rewrite Hc in Hcl. cbn in Hcl.
  rewrite (singleton_of id Hid) in Hcl.
  assert (id ∈ unionIDs (matchSnapshots row current)) as (s & Hs & _ & Es)%elem_of_matched by set_solver.
  unfold find_snapshot. destruct (find _ current) as [s'|] eqn:Ef.
  - apply find_some in Ef as [Hin E]. apply Z.eqb_eq in E. exists s'. by rewrite <- list_elem_of_In in Hin.
  - exfalso. pose proof (find_none _ _ Ef s) as Hn. rewrite <- list_elem_of_In in Hn. specialize (Hn Hs). cbn in Hn. lia.
Qed.
(** Some snapshot of that id denotes the row's item. *)
Definition hit (row : IngestionRow) (current : list IngestionSnapshot) (id : Z) : Prop :=
  ∃ s, s ∈ current ∧ matches row s = true ∧ sn_ID s = id.

(** What the preview must say of a row. *)
Definition classified_row (current : list IngestionSnapshot) (row : IngestionRow) (p : IngestionPreviewRow) : Prop :=
  match pr_Action p with
  | PreviewCreate => (∀ id, ¬ hit row current id) ∧ pr_Diff p = diffIngestion row empty_snapshot
  | PreviewUpdate => ∃ s, find_snapshot (pr_MatchedID p) current = Some s ∧ (∀ id, hit row current id ↔ id = pr_MatchedID p)
      ∧ sn_CIType s = iw_CIType row ∧ pr_Diff p = diffIngestion row s
  | PreviewConflict => (∃ a b, hit row current a ∧ hit row current b ∧ a ≠ b)
      ∨ (∃ s, find_snapshot (pr_MatchedID p) current = Some s ∧ (∀ id, hit row current id ↔ id = pr_MatchedID p)
          ∧ sn_CIType s ≠ iw_CIType row)
  | PreviewUnset => False
  end.

Lemma preview_row_classified current index row :
  (∀ s, s ∈ current → sn_ID s ≠ 0%Z) → classified_row current row (preview_row current index row).
Proof.
  intros Hz. pose proof (chosen_classified row current Hz) as Hc. unfold preview_row.
  pose proof (λ id, elem_of_matched row current id) as Hm. fold (hit row current) in Hm.
  destruct (chooseMatch (matchSnapshots row current)) as [chosen [|c conflict]] eqn:E.
  - rewrite (bool_decide_eq_true_2 (_ = _) (eq_refl (@nil byte))). cbn [negb classified] in *.
    destruct (Z.eqb_spec chosen 0) as [->|Hne].
    + cbn. split; [|done]. intros id Hid%Hm. rewrite Hc in Hid. by apply not_elem_of_empty in Hid.
    + destruct (chosen_found row current chosen Hz E Hne) as (s & Hf & _). rewrite Hf.
      rewrite (singleton_of chosen Hne) in Hc.
      assert (∀ id, hit row current id ↔ id = chosen) as Hh by (intros id; rewrite <- (Hm id), Hc; apply elem_of_singleton).
      unfold classified_row. destruct (decide (sn_CIType s = iw_CIType row)) as [Et|Et].
      * rewrite (bool_decide_eq_true_2 _ Et). cbn. eauto.
      * rewrite (bool_decide_eq_false_2 _ Et). cbn. eauto 10.
  - rewrite (bool_decide_eq_false_2 (c :: conflict = [])) by done. cbn. left. destruct Hc as (a & b & Ha & Hb & Hab).
    apply Hm in Ha, Hb. eauto.
Qed.

(** C28: The preview decides each row by the identities of the snapshots alone:
    it creates exactly when no snapshot shares an identifier, an alias or a name
    with the row; it updates exactly when those that do are one resource of the
    row's type, and then shows the difference with it; and it reports a conflict
    when they are several resources or one of another type. A batch is
    confirmable exactly when no row conflicts. *)
Theorem preview_exact fingerprint_text rows current :
  (∀ s, s ∈ current → sn_ID s ≠ 0%Z) →
  let preview := PreviewIngestion fingerprint_text rows current in
  length (pv_Rows preview) = length rows
  ∧ (∀ i row p, rows !! i = Some row → pv_Rows preview !! i = Some p →
       pr_Row p = (Z.of_nat i + 1)%Z ∧ classified_row current row p)
  ∧ (pv_Confirmable preview = true ↔ ∀ i p, pv_Rows preview !! i = Some p → pr_Action p ≠ PreviewConflict).
Proof.
  intros Hz preview. unfold preview, PreviewIngestion. cbn. split; [apply length_imap|]. split.
  - intros i row p Hr. rewrite list_lookup_imap, Hr. intros [= <-]. split; [|by apply preview_row_classified].
    unfold preview_row. destruct (chooseMatch _) as [chosen conflict]. repeat case_match; done.
  - rewrite forallb_forall. setoid_rewrite <- list_elem_of_In. setoid_rewrite list_elem_of_lookup. setoid_rewrite negb_true_iff.
    setoid_rewrite bool_decide_eq_false. naive_solver.
Qed.

(** ** Parsed batches *)

Lemma check_rows_spec encode_row seen raw rows :
  check_rows encode_row seen raw = Some rows →
  rows = canonicalizeRow <$> raw
  ∧ Forall (λ row, validateIngestionRow row = true ∧ (size_of (encode_row row) ≤ MaxIngestionRowBytes)%Z) rows
  ∧ NoDup (rows ≫= rowIdentityKeys) ∧ ∀ key, key ∈ rows ≫= rowIdentityKeys → key ∉ seen.
Proof.
  revert seen rows. induction raw as [|row raw IH]; intros seen rows; cbn [check_rows].
  - intros [= <-]. split; [done|]. split; [constructor|]. split; [apply NoDup_nil_2|]. intros key Hk. by apply not_elem_of_nil in Hk.
  - destruct (validateIngestionRow _) eqn:Ev; [|done]. cbn [negb]. destruct (_ <? _)%Z eqn:El; [done|].
    destruct (bool_decide _ && _) eqn:Ek; [|done]. apply andb_true_iff in Ek as [Hnd Hs]. apply bool_decide_eq_true in Hnd.
    intros (rest & Hr & [= <-])%bind_Some. apply IH in Hr as (-> & Hv & Hd & Hk). rewrite bind_cons. split; [done|]. split; [|split].
    + constructor; [|done]. split; [done|]. by apply Z.ltb_ge.
    + apply NoDup_app. split; [done|]. split; [|done]. intros key Hin Hin'. apply (Hk _ Hin'), elem_of_app. by left.
    + intros key Hin. apply elem_of_app in Hin as [Hin|Hin].
      * rewrite forallb_forall in Hs. apply list_elem_of_In, Hs in Hin. by apply negb_true_iff, bool_decide_eq_false in Hin.
      * apply Hk in Hin. apply not_elem_of_app in Hin. tauto.
Qed.

(** A batch that parses is within its bounds — at most 500 rows, each valid
    and at most 64 KiB once canonical — and no identity key (name in its
    environment and type, alias in its environment, external identifier)
    occurs twice in it, in one row or in two. *)
Theorem parse_bounded csv json d1 d2 d3 d4 d5 d6 encode format payload rows :
  ParseIngestion csv json d1 d2 d3 d4 d5 d6 encode format payload = Some rows →
  length rows ≤ MaxIngestionRows
  ∧ Forall (λ row, validateIngestionRow row = true ∧ (size_of (encode row) ≤ MaxIngestionRowBytes)%Z) rows
  ∧ NoDup (rows ≫= rowIdentityKeys).
Proof.
  unfold ParseIngestion. case_match; [done|]. intros (f & _ & (raw & _ & Hc)%bind_Some)%bind_Some.
  destruct (_ <? _) eqn:El; [done|]. apply Nat.ltb_ge in El. apply check_rows_spec in Hc as (-> & Hv & Hd & _).
  by rewrite length_fmap.
Qed.
End ingestion.
