(* ===== verification/IngestionStore.v ===== *)
(** * Ingestion: confirming a reviewed batch

    The ingestion half of [repository/mysql/resource_repository.go]: the
    candidates of a batch, the snapshots the preview is made of, and the one
    transaction that locks them, previews again, compares with the reviewed
    fingerprint and applies the differences with their audit rows, on behalf of
    a user or of a collector, whose scan is claimed first and applied last. The
    clock is read once per confirmation. *)
From S2P Require Import Prelude GoText GoAny Inventory Profiles InventoryDb ResourceStore CollectorScan Relations Resources Sha256 Ingestion.
From Stdlib Require Import SpecFloat.

(** ** Observed values as MySQL hands them back *)

(** [json.Unmarshal] without [UseNumber]: every number is a float64. *)
Definition int_to_float (z : Z) : spec_float := binary_normalize 53 1024 z 0 false.
Fixpoint reload (v : gvalue) : gvalue :=
  match v with
  | GInt z | GInt64 z => GFloat (int_to_float z)
  | GNumber text => GFloat (parse_float text)
  | GArray l => GArray (reload <$> l)
  | GObject m => GObject (reload <$> m)
  | _ => v
  end.

Definition effectiveValueFields : list bytes := gs <$> ["displayName"; "lifecycleStatus"; "healthStatus"]%string.
Definition why_field : bytes := gs "field cannot be observed or overridden".
Definition validateEffectiveValueField (field : bytes) : result inventory_error () :=
  guard_err (negb (bool_decide (field ∈ effectiveValueFields))) (ErrValidationFailed why_field).

Section confirm.
Context `{MySQLText, UnicodeLower, FloatConversion, DbTime} (sprint : gvalue → bytes) (now : Z)
        (fingerprint_text : list IngestionRow → list IngestionSnapshot → bytes) (rows_text : list IngestionRow → bytes).

(** An insert, or an update of the row with that key. *)
Definition write_observed (id : Z) (source field : bytes) (value : gvalue) : tx () :=
  _ ← call;
  _ ← tx_guard (128 <? rune_count source)%nat ErrStore;
  let same := λ o, (ob_ResourceID o =? id)%Z && same_text (ob_Source o) source && (ob_Field o =?b field) in
  tx_put (set_observed (λ l,
    if existsb same l then (λ o, if same o then ObservedRow id (ob_Source o) field value now else o) <$> l
    else l ++ [ObservedRow id source field value now])).
Definition putObservedValueTx (id : Z) (field : bytes) (observed : ObservedValueInput) : tx () :=
  _ ← tx_lift (validateEffectiveValueField field);
  let source := trim_space (ov_Source observed) in
  _ ← tx_guard (source =?b []) (ErrValidationFailed (gs "observation source is required"));
  _ ← tx_guard (negb (marshal_ok (ov_Value observed))) ErrStore;
  write_observed id source field (ov_Value observed).

(** The row of a field with the latest time, the greatest source among equals. *)
Definition later_observation (o p : observed_row) : bool :=
  (ob_At p <? ob_At o)%Z || ((ob_At o =? ob_At p)%Z && bytes_less (weight (ob_Source p)) (weight (ob_Source o))).
Definition latest_observation (m : gmap bytes observed_row) (o : observed_row) : gmap bytes observed_row :=
  match m !! ob_Field o with
  | Some p => if later_observation o p then <[ob_Field o := o]> m else m
  | None => <[ob_Field o := o]> m
  end.
Definition loadLatestObservedValues (id : Z) (s : inv_db) : gmap bytes ObservedValueInput :=
  (λ o, Observed (ob_Source o) (reload (ob_Value o)))
    <$> foldl latest_observation ∅ (filter (λ o, ob_ResourceID o = id) (db_observed s)).

Definition stored_relation_less (a b : IngestionRelation) : bool :=
  bytes_less (weight (ig_Type a)) (weight (ig_Type b))
  || ((weight (ig_Type a) =?b weight (ig_Type b)) && (ig_TargetID a <? ig_TargetID b)%Z).
Definition loadOutgoingIngestionRelations (id : Z) (s : inv_db) : list IngestionRelation :=
  sort_slice stored_relation_less
    ((λ '(_, r), IngestRelation (rr_RelationType r) (rr_ToResourceID r))
       <$> filter (λ '(_, r), rr_FromResourceID r = id) (map_to_list (db_relations s))).

(** ** Candidates and snapshots *)

Definition candidates_by_name (row : IngestionRow) (s : inv_db) : list Z :=
  (λ '(id, _), id) <$> filter (λ '(_, r), rw_EnvironmentID r = iw_EnvironmentID row
    ∧ same_text (rw_ResourceType r) (iw_CIType row) = true ∧ same_text (rw_Name r) (iw_Name row) = true) (map_to_list (db_resources s)).
Definition candidates_by_alias (row : IngestionRow) (s : inv_db) (alias : bytes) : list Z :=
  let alias := normal_alias alias in
  if alias =?b [] then []
  else al_ResourceID <$> filter (λ a, al_EnvironmentID a = iw_EnvironmentID row ∧ same_text (al_Alias a) alias = true) (db_aliases s).
Definition candidates_by_identifier (s : inv_db) (x : ResourceExternalIdentifier) : list Z :=
  let x := normal_identifier x in
  if (xi_System x =?b []) || (xi_Value x =?b []) then []
  else xr_ResourceID <$> filter (λ y, same_text (xr_System y) (xi_System x) = true ∧ xr_Value y = xi_Value x) (db_identifiers s).
Definition row_candidates (s : inv_db) (row : IngestionRow) : list Z :=
  candidates_by_name row s ++ (iw_Aliases row ≫= candidates_by_alias row s)
  ++ (iw_ExternalIdentifiers row ≫= candidates_by_identifier s).
Definition findIngestionCandidateIDs (rows : list IngestionRow) (s : inv_db) : gset Z :=
  list_to_set (rows ≫= row_candidates s).
Definition sortedIDSet (ids : gset Z) : list Z := sort_slice Z.ltb (elements ids).

Definition snapshot_of (s : inv_db) (r : Resource) (profile : gfields) : IngestionSnapshot :=
  Snapshot (rs_ID r) (rs_EnvironmentID r) (rs_ResourceType r) (rs_Name r) (rs_DisplayName r) (rs_Aliases r)
    (rs_ExternalIdentifiers r) profile (loadLatestObservedValues (rs_ID r) s) (loadOutgoingIngestionRelations (rs_ID r) s).
Definition loadIngestionSnapshot (id : Z) : tx IngestionSnapshot :=
  r ← getResourceForUpdate id;      (** the same three queries, without [for update] *)
  profile ← fetchProfile id (rs_ResourceType r);
  _ ← call;
  _ ← call;
  s ← tx_get;
  mret (snapshot_of s r profile).
Fixpoint loadIngestionSnapshots (ids : list Z) : tx (list IngestionSnapshot) :=
  match ids with
  | [] => mret []
  | id :: ids => s ← loadIngestionSnapshot id; l ← loadIngestionSnapshots ids; mret (s :: l)
  end.

(** ** Applying one row *)

Definition ingestionCreateInput (row : IngestionRow) (actorUserID : Z) : ResourceCreateInput :=
  CreateInput (iw_CIType row) [] (iw_Name row) (iw_DisplayName row) (iw_EnvironmentID row) actorUserID
    LifecycleStatusRunning HealthStatusUnknown ResourceOriginImported (iw_Aliases row) (iw_ExternalIdentifiers row)
    ResourceOriginImported [] ∅ None.

Definition collectorIngestionCreateInput (row : IngestionRow) : ResourceCreateInput :=
  CreateInput (iw_CIType row) [] (iw_Name row) (iw_DisplayName row) (iw_EnvironmentID row) 0
    LifecycleStatusRunning HealthStatusUnknown ResourceOriginDiscovered (iw_Aliases row) (iw_ExternalIdentifiers row)
    ResourceOriginDiscovered [] ∅ None.

Definition field_changed (diff : IngestionDiff) (field : string) : bool := bool_decide (is_Some (df_Fields diff !! gs field)).
Definition hasResourceFieldChanges (diff : IngestionDiff) : bool :=
  existsb (field_changed diff) ["ciType"; "environmentId"; "name"; "displayName"; "aliases"; "externalIdentifiers"]%string.
Definition update_input (row : IngestionRow) (diff : IngestionDiff) : ResourceUpdateInput :=
  let changed {A} (field : string) (v : A) := if field_changed diff field then Some v else None in
  UpdateInput (changed "name"%string (iw_Name row)) None (changed "displayName"%string (iw_DisplayName row))
    (changed "environmentId"%string (iw_EnvironmentID row)) None None None false
    (changed "aliases"%string (iw_Aliases row)) (changed "externalIdentifiers"%string (iw_ExternalIdentifiers row)) None.
Definition applyIngestionResourceUpdate (id : Z) (row : IngestionRow) (diff : IngestionDiff) : tx () :=
  _ ← tx_guard (field_changed diff "ciType") (ErrValidationFailed (gs "ciType cannot be changed by ingestion"));
  _ ← updateResourceTx id (update_input row diff);
  mret tt.
Definition applyIngestionProfile (id : Z) (row : IngestionRow) (diff : IngestionDiff) : tx () :=
  if (size (df_Profile diff) =? 0)%nat then mret tt
  else match iw_Profile row with
       | None => deleteProfile id (iw_CIType row)
       | Some fields => upsert_profile sprint id (iw_CIType row) fields
       end.
Definition diff_keys (d : gmap bytes ValueDiff) : list bytes := sort_slice bytes_less (elements (dom d)).
Definition applyIngestionObserved (id : Z) (row : IngestionRow) (diff : IngestionDiff) : tx () :=
  tx_for_each (λ field,
    putObservedValueTx id field (default (Observed [] GNull) (iw_ObservedValues row !! field))) (diff_keys (df_Observed diff)).

Definition deleteRelationByTripleTx (fromID toID : Z) (relationType : bytes) : tx () :=
  _ ← call;
  s ← tx_get;
  let here := λ r, rr_FromResourceID r = fromID ∧ rr_ToResourceID r = toID ∧ same_text (rr_RelationType r) relationType = true in
  _ ← tx_guard (negb (bool_decide (map_Exists (λ _ r, here r) (db_relations s)))) ErrRelationNotFound;
  tx_put (set_relations (filter (λ '(_, r), ¬ here r))).

(** [changes[id] = append(changes[id], ...)] *)
Definition audit_log : Type := gmap Z (list AuditChange).
Definition log_changes (id : Z) (l : list AuditChange) (changes : audit_log) : audit_log :=
  <[id := default [] (changes !! id) ++ l]> changes.
Definition addRelationAuditChanges (fromID toID : Z) (relationType : bytes) (op : AuditChangeOperation) (changes : audit_log) : audit_log :=
  log_changes toID [relationAuditChange relationType op fromID "incoming"]
    (log_changes fromID [relationAuditChange relationType op toID "outgoing"] changes).

Fixpoint remove_relations (id : Z) (l : list IngestionRelation) (changes : audit_log) : tx audit_log :=
  match l with
  | [] => mret changes
  | r :: l =>
      _ ← deleteRelationByTripleTx id (ig_TargetID r) (ig_Type r);
      remove_relations id l (addRelationAuditChanges id (ig_TargetID r) (ig_Type r) AuditChangeRemove changes)
  end.
Fixpoint add_relations (from : Resource) (l : list IngestionRelation) (changes : audit_log) : tx audit_log :=
  match l with
  | [] => mret changes
  | r :: l =>
      to ← getResourceForUpdate (ig_TargetID r);
      _ ← tx_guard (IsArchived from || IsArchived to) ErrResourceArchived;
      _ ← tx_lift (validateRelationshipRule from to (ig_Type r));
      _ ← insertRelation now (RelationInput (rs_ID from) (ig_TargetID r) (ig_Type r));
      add_relations from l (addRelationAuditChanges (rs_ID from) (ig_TargetID r) (ig_Type r) AuditChangeAdd changes)
  end.
Definition applyIngestionRelations (id : Z) (diff : IngestionDiff) (changes : audit_log) : tx audit_log :=
  from ← getResourceForUpdate id;
  changes ← remove_relations id (rd_Removed (df_Relations diff)) changes;
  add_relations from (rd_Added (df_Relations diff)) changes.

Definition ingestionAuditField (field : bytes) : bytes :=
  if field =?b gs "ciType" then gs "identity.resourceType"
  else if field =?b gs "name" then gs "identity.name"
  else if field =?b gs "displayName" then gs "identity.displayName"
  else if field =?b gs "aliases" then gs "identity.aliases"
  else if field =?b gs "externalIdentifiers" then gs "identity.externalIdentifiers"
  else field.
Definition is_nil (v : gvalue) : bool := match v with GNull => true | _ => false end.
Definition ingestionAuditChange (field : bytes) (action : PreviewAction) (d : ValueDiff) : AuditChange :=
  match action with
  | PreviewCreate => Change field AuditChangeAdd GNull (vd_After d)
  | _ => Change field (if is_nil (vd_Before d) then AuditChangeAdd else if is_nil (vd_After d) then AuditChangeRemove else AuditChangeUpdate)
           (vd_Before d) (vd_After d)
  end.
Definition map_audit_changes (prefix : bytes) (action : PreviewAction) (d : gmap bytes ValueDiff) : list AuditChange :=
  omap (λ key, ingestionAuditChange (prefix ++ ingestionAuditField key) action <$> d !! key) (diff_keys d).
Definition sourceIngestionAuditChanges (action : PreviewAction) (diff : IngestionDiff) : list AuditChange :=
  map_audit_changes [] action (df_Fields diff) ++ map_audit_changes (gs "profile.") action (df_Profile diff)
  ++ map_audit_changes (gs "observed.") action (df_Observed diff).

(** One turn of the loop over the rows: the resource of the row and the log. *)
Definition apply_row (actorUserID : Z) (collector : bool) (row : IngestionRow) (p : IngestionPreviewRow) (changes : audit_log) : tx (Z * audit_log) :=
  id ← match pr_Action p with
       | PreviewCreate => createResourceTx sprint
           (if collector then collectorIngestionCreateInput row else ingestionCreateInput row actorUserID) (iw_Profile row)
       | _ => _ ← (if hasResourceFieldChanges (pr_Diff p) then applyIngestionResourceUpdate (pr_MatchedID p) row (pr_Diff p) else mret tt);
              mret (pr_MatchedID p)
       end;
  _ ← applyIngestionProfile id row (pr_Diff p);
  _ ← applyIngestionObserved id row (pr_Diff p);
  changes ← applyIngestionRelations id (pr_Diff p) (log_changes id (sourceIngestionAuditChanges (pr_Action p) (pr_Diff p)) changes);
  mret (id, changes).
Fixpoint apply_rows (actorUserID : Z) (collector : bool) (rows : list IngestionRow) (previews : list IngestionPreviewRow) (changes : audit_log) :
    tx (list IngestionPreviewRow * audit_log) :=
  match rows, previews with
  | row :: rows, p :: previews =>
      '(id, changes) ← apply_row actorUserID collector row p changes;
      '(done, changes) ← apply_rows actorUserID collector rows previews changes;
      mret (PreviewRow (pr_Row p) (pr_Action p) id (pr_Conflict p) (pr_Diff p) :: done, changes)
  | _, _ => mret ([], changes)
  end.

Definition insertIngestionAudits (actorUserID : Z) (changes : audit_log) : tx () :=
  tx_for_each (λ id,
    match changes !! id with
    | Some (c :: l) => insertInventoryAuditTx actorUserID id (gs "inventory.ingestion.confirmed") (c :: l)
    | _ => mret tt
    end) (sort_slice Z.ltb (elements (dom changes))).

Definition insertCollectorIngestionAudits (principal : Z) (changes : audit_log) : tx () :=
  tx_for_each (λ id,
    match changes !! id with
    | Some (c :: l) => write_call (add_audit (AuditEvent None (Some principal) id (gs "inventory.ingestion.confirmed") (c :: l)))
    | _ => mret tt
    end) (sort_slice Z.ltb (elements (dom changes))).

(** ** The confirmation *)

Definition relation_targets (rows : list IngestionRow) : list Z := rows ≫= (λ row, ig_TargetID <$> iw_Relations row).
(** The transaction of a claimed confirmation, to its commit. *)
Definition confirm_rows (candidateIDs : list Z) (rows : list IngestionRow) (reviewedFingerprint : bytes) (actorUserID actorMachinePrincipalID : Z)
    (collectorEntry : option CollectorScanLedgerEntry) : tx IngestionPreview :=
  _ ← lockResourceRows (candidateIDs ++ relation_targets rows);
  snapshots ← loadIngestionSnapshots candidateIDs;
  let preview := PreviewIngestion fingerprint_text rows snapshots in
  _ ← tx_guard (negb (pv_Confirmable preview)) ErrIngestionConflict;
  _ ← tx_guard (negb (pv_Fingerprint preview =?b reviewedFingerprint)) ErrIngestionFingerprintMismatch;
  '(applied, changes) ← apply_rows actorUserID (bool_decide (is_Some collectorEntry)) rows (pv_Rows preview) ∅;
  _ ← match collectorEntry with
      | None => insertIngestionAudits actorUserID changes
      | Some e =>
          _ ← insertCollectorIngestionAudits actorMachinePrincipalID changes;
          tx_map_err mapCollectorScanError (ApplyCollectorScanStates e (pr_MatchedID <$> applied))
      end;
  mret (Preview (pv_Confirmable preview) (pv_Fingerprint preview) applied).
(** A scan that was completed before is answered with the preview as it is now, and not committed. *)
Definition confirm_body (candidateIDs : list Z) (rows : list IngestionRow) (reviewedFingerprint : bytes) (actorUserID actorMachinePrincipalID : Z)
    (collectorEntry : option CollectorScanLedgerEntry) : tx (IngestionPreview * bool) :=
  claimed ← match collectorEntry with
            | None => mret true
            | Some e => '(_, claimed) ← tx_map_err mapCollectorScanError (ClaimCollectorScan e); mret claimed
            end;
  if negb claimed then
    snapshots ← loadIngestionSnapshots candidateIDs;
    let preview := PreviewIngestion fingerprint_text rows snapshots in
    mret (Preview (pv_Confirmable preview) reviewedFingerprint (pv_Rows preview), false)
  else
    preview ← confirm_rows candidateIDs rows reviewedFingerprint actorUserID actorMachinePrincipalID collectorEntry;
    mret (preview, true).

Record confirm_faults : Type := ConfirmFaults { cf_candidates : bool; cf_calls : list bool; cf_commit : commit_result }.

(** The candidates are looked up before the transaction, in the state [snap]. *)
Definition confirmIngestion (snap : inv_db) (f : confirm_faults) (rows : list IngestionRow) (reviewedFingerprint : bytes)
    (actorUserID actorMachinePrincipalID : Z) (collectorEntry : option CollectorScanLedgerEntry) (s : inv_db) :
    result inventory_error IngestionPreview * inv_db :=
  if cf_candidates f then (Err ErrStore, s)
  else in_tx_early (confirm_body (sortedIDSet (findIngestionCandidateIDs rows snap)) rows reviewedFingerprint actorUserID
                      actorMachinePrincipalID collectorEntry)
         (cf_calls f) (cf_commit f) s.

Definition ConfirmIngestion (snap : inv_db) (f : confirm_faults) (actorUserID : Z) (rows : list IngestionRow) (reviewedFingerprint : bytes)
    (s : inv_db) : result inventory_error IngestionPreview * inv_db :=
  if (actorUserID =? 0)%Z then (Err ErrNoAuditActor, s)
  else if trim_space reviewedFingerprint =?b [] then (Err (ErrValidationFailed (gs "reviewed fingerprint is required")), s)
  else if negb (ValidateIngestionRows rows) then (Err (ErrValidationFailed (gs "rows")), s)
  else confirmIngestion snap f rows reviewedFingerprint actorUserID 0 None s.

(** ** Confirmations of collectors *)

Record CollectorIngestionMetadata : Type := Metadata { cm_ScanID : bytes; cm_ScanResult : bytes }.
Definition MaxCollectorScanIDBytes : nat := 255.
Definition ValidateCollectorIngestionMetadata (m : CollectorIngestionMetadata) : bool :=
  negb ((trim_space (cm_ScanID m) =?b []) || (MaxCollectorScanIDBytes <? length (cm_ScanID m))%nat)
  && bool_decide (cm_ScanResult m ∈ scan_results).

(** The payload hash: [None] when the rows do not marshal. *)
Definition collectorIngestionPayloadHash (rows : list IngestionRow) (reviewedFingerprint : bytes) : option bytes :=
  if forallb row_marshals rows then Some (sha256 (reviewedFingerprint ++ nul :: rows_text rows)) else None.

(** The repository's function: [completedAt] is the clock's reading. *)
Definition repository_ConfirmCollectorIngestion (completedAt : Z) (snap : inv_db) (f : confirm_faults) (principal : Z) (rows : list IngestionRow)
    (reviewedFingerprint : bytes) (metadata : CollectorIngestionMetadata) (s : inv_db) : result inventory_error IngestionPreview * inv_db :=
  if (principal =? 0)%Z then (Err (ErrCollectorScan (gs "collector principal is required")), s)
  else if trim_space reviewedFingerprint =?b [] then (Err (ErrValidationFailed (gs "reviewed fingerprint is required")), s)
  else if negb (ValidateCollectorIngestionMetadata metadata) then (Err ErrCollectorIngestionMetadataInvalid, s)
  else if negb (ValidateCollectorIngestionRows rows) then (Err (ErrValidationFailed (gs "rows")), s)
  else match collectorIngestionPayloadHash rows reviewedFingerprint with
  | None => (Err ErrStore, s)
  | Some hash =>
      confirmIngestion snap f rows reviewedFingerprint 0 principal
        (Some (LedgerEntry principal (cm_ScanID metadata) hash (cm_ScanResult metadata) completedAt)) s
  end.

(** The service trims the metadata first. *)
Definition ConfirmCollectorIngestion (completedAt : Z) (snap : inv_db) (f : confirm_faults) (principal : Z) (rows : list IngestionRow)
    (reviewedFingerprint : bytes) (metadata : CollectorIngestionMetadata) (s : inv_db) : result inventory_error IngestionPreview * inv_db :=
  let metadata := Metadata (trim_space (cm_ScanID metadata)) (trim_space (cm_ScanResult metadata)) in
  if (principal =? 0)%Z then (Err (ErrCollectorScan (gs "collector principal is required")), s)
  else if negb (ValidateCollectorIngestionMetadata metadata) then (Err (ErrValidationFailed (gs "collector ingestion metadata is invalid")), s)
  else if trim_space reviewedFingerprint =?b [] then (Err (ErrValidationFailed (gs "reviewed fingerprint is required")), s)
  else if negb (ValidateCollectorIngestionRows rows) then (Err (ErrValidationFailed (gs "rows")), s)
  else repository_ConfirmCollectorIngestion completedAt snap f principal rows reviewedFingerprint metadata s.

(** The preview of the repository: every read may fail. *)
Definition repository_preview (faults : list bool) (rows : list IngestionRow) (s : inv_db) : result inventory_error IngestionPreview :=
  if negb (ValidateIngestionRows rows) then Err (ErrValidationFailed (gs "rows"))
  else (λ snapshots, PreviewIngestion fingerprint_text rows snapshots)
         <$> ((_ ← call; loadIngestionSnapshots (sortedIDSet (findIngestionCandidateIDs rows s))) (TxState s faults)).1.
(** A collector may preview nothing. *)
Definition PreviewCollectorIngestion (faults : list bool) (rows : list IngestionRow) (s : inv_db) : result inventory_error IngestionPreview :=
  if negb (ValidateCollectorIngestionRows rows) then Err (ErrValidationFailed (gs "rows"))
  else match rows with [] => Ok (PreviewIngestion fingerprint_text [] []) | _ => repository_preview faults rows s end.
End confirm.

(** ** Imports and registrations *)

Section imports.
Context `{MySQLText, UnicodeLower, FloatConversion} (sprint : gvalue → bytes) (label_message : gmap bytes bytes → bytes).

Lemma subtypes_required t : ResourceType_Validate t = true → ValidateResourceSubtype t [] = Err SubtypeRequired.
Proof.
  unfold ResourceType_Validate. intros Ht. apply existsb_exists in Ht as (item & Hin & Ht).
  apply bool_decide_eq_true in Ht. subst t. cbn in Hin.
  repeat (destruct Hin as [<-|Hin]; [vm_compute; reflexivity|]). done.
Qed.

(** An import registers what no registration accepts. The resource a
    confirmation creates for a row belongs to the owner with the number of the
    acting user — users and owners are numbered apart — and has no subtype;
    [ResourceService.Create] refuses the same input whatever the row. *)
Theorem imports_bypass_registration row actor :
  ResourceType_Validate (iw_CIType row) = true →
  (∀ f s, is_ok (ResourceService_Create sprint label_message f (ingestionCreateInput row actor) s).1 = false)
  ∧ (∀ profile faults s id s',
       in_tx (createResourceTx sprint (ingestionCreateInput row actor) profile) faults Committed s = (Ok id, s') →
       ∃ r, db_resources s' !! id = Some r ∧ rw_OwnerID r = actor ∧ rw_ResourceSubtype r = []).
Proof.
  intros Ht. split.
  - intros f s. unfold ResourceService_Create. set (i := normalizeResourceCreateInput _).
    destruct (validateResourceCreateInput sprint label_message i) as [p|] eqn:Ev; [|done]. exfalso.
    apply valid_input, no_complaints in Ev as (_ & Hs & _). change (ValidateResourceSubtype (iw_CIType row) [] = Ok ()) in Hs.
    by rewrite subtypes_required in Hs.
  - intros profile faults s id s' Hin.
    destruct (in_tx_outcome _ _ _ _ _ _ _ _ (create_stores sprint _ profile) Logic.I Hin) as [(id' & Hid & _ & [[= <-]|[? _]])|(e & s2 & ? & _)];
      [|done|done]. eexists. split; [exact Hid|]. done.
Qed.
End imports.
