(* ===== verification/IngestionConfirm.v ===== *)
(** * What a confirmation does

    The contract of the confirmations of IngestionStore, a user's or a
    collector's: what is applied is what was reviewed, or nothing is; and what
    is applied is what is audited. *)
From S2P Require Import Prelude GoText GoAny Inventory Profiles InventoryDb ResourceStore CollectorScan Relations InventoryInvariant InventoryOps Resources Ingestion IngestionStore.

Section contract.
Context `{MySQLText, UnicodeLower, FloatConversion, DbTime} (sprint : gvalue → bytes) (now : Z)
        (fingerprint_text : list IngestionRow → list IngestionSnapshot → bytes).

(** The snapshot of a resource as the tables hold it. *)
Definition snapshot_at (s : inv_db) (id : Z) : option IngestionSnapshot :=
  (λ r, snapshot_of s r (if bool_decide (is_Some (profileFieldSchemas !! rs_ResourceType r))
                         then fetch_profile id (rs_ResourceType r) s else ∅)) <$> read_resource id s.

(** Same rows: only the counters may differ. *)
Definition same_rows (s s' : inv_db) : Prop :=
  s' = rolled_back s s'.

Lemma fetchProfile_ok P id ty :
  htriple P (fetchProfile id ty)
    (λ p s, P s ∧ p = if bool_decide (is_Some (profileFieldSchemas !! ty)) then fetch_profile id ty s else ∅).
Proof.
  unfold fetchProfile. case_bool_decide.
  - eapply triple_conseq; [apply triple_read|done|]. intros a s [-> ?]. done.
  - eapply triple_weaken; [apply (tx_triple_ret _ (λ p s, P s ∧ p = ∅))|done].
Qed.
Lemma load_snapshot_ok P id :
  htriple P (loadIngestionSnapshot id) (λ x s, P s ∧ snapshot_at s id = Some x).
Proof.
  unfold loadIngestionSnapshot. eapply tx_triple_bind; [apply getResourceForUpdate_ok|]. intros r.
  eapply tx_triple_bind; [apply fetchProfile_ok|]. intros p. do 2 apply triple_call_bind. apply triple_get_bind. intros s0.
  eapply triple_weaken; [apply (tx_triple_ret _ (λ x s, P s ∧ snapshot_at s id = Some x))|].
  intros s (-> & [HP Hr] & ->). split; [done|]. unfold snapshot_at. by rewrite Hr.
Qed.
Lemma load_snapshots_ok s0 ids :
  htriple (λ s, s = s0) (loadIngestionSnapshots ids) (λ l s, s = s0 ∧ mapM (snapshot_at s0) ids = Some l).
Proof.
  induction ids as [|id ids IH]; cbn.
  - eapply triple_weaken; [apply (tx_triple_ret _ (λ l s, s = s0 ∧ Some [] = Some l))|done].
  - eapply tx_triple_bind; [apply load_snapshot_ok|]. intros x.
    apply (triple_weaken _ (λ s, snapshot_at s0 id = Some x ∧ s = s0)); [|by intros s [-> ?]].
    apply triple_pure. intros ->. cbn. eapply tx_triple_bind; [apply IH|]. intros l.
    eapply triple_weaken; [apply (tx_triple_ret _ (λ l s, s = s0 ∧ _ = Some l))|]. intros s [-> ->]. done.
Qed.

(** ** Nothing but the audit inserts writes the audit table *)

#[local] Notation audits_kept := (keeps_view db_audits).
Lemma kept_create input profile : audits_kept (createResourceTx sprint input profile).
Proof. unfold createResourceTx, upsert_profile. frames. Qed.
#[local] Hint Resolve kept_create : frames.
Lemma kept_update id input : audits_kept (updateResourceTx id input).
Proof. unfold updateResourceTx, write_resource. frames. Qed.
#[local] Hint Resolve kept_update : frames.
Lemma kept_observed id field v : audits_kept (putObservedValueTx now id field v).
Proof. unfold putObservedValueTx, write_observed. frames. Qed.
Lemma kept_delete_triple from to ty : audits_kept (deleteRelationByTripleTx from to ty).
Proof. unfold deleteRelationByTripleTx. frames. Qed.
Lemma kept_insert_relation i : audits_kept (insertRelation now i).
Proof. unfold insertRelation. frames. Qed.
#[local] Hint Resolve kept_observed kept_delete_triple kept_insert_relation : frames.
Lemma kept_fields id row diff :
  audits_kept (applyIngestionResourceUpdate id row diff) ∧ audits_kept (applyIngestionProfile sprint id row diff)
  ∧ audits_kept (applyIngestionObserved now id row diff).
Proof.
  unfold applyIngestionResourceUpdate, applyIngestionProfile, applyIngestionObserved, upsert_profile.
  split; [frames|]. split; frames.
Qed.

(** ** The log of the changes *)

Definition logged (c : audit_log) (t : Z) (x : AuditChange) : Prop := x ∈ default [] (c !! t).
Lemma logged_log id l c t x : logged (log_changes id l c) t x ↔ logged c t x ∨ (t, x) ∈ ((λ x, (id, x)) <$> l).
Proof.
  unfold logged, log_changes, audit_log in *. destruct (decide (t = id)) as [->|Hne].
  - rewrite lookup_insert_eq. cbn. rewrite elem_of_app, list_elem_of_fmap. naive_solver.
  - rewrite lookup_insert_ne by done. rewrite list_elem_of_fmap. naive_solver.
Qed.

(** The changes a relation makes, with the resources they are made to. *)
Definition relation_changes (id : Z) (op : AuditChangeOperation) (r : IngestionRelation) : list (Z * AuditChange) :=
  [(id, relationAuditChange (ig_Type r) op (ig_TargetID r) "outgoing"); (ig_TargetID r, relationAuditChange (ig_Type r) op id "incoming")].
Lemma logged_relation id r op c t x :
  logged (addRelationAuditChanges id (ig_TargetID r) (ig_Type r) op c) t x ↔ logged c t x ∨ (t, x) ∈ relation_changes id op r.
Proof.
  unfold addRelationAuditChanges. rewrite !logged_log. unfold relation_changes. cbn. rewrite !elem_of_cons, !elem_of_nil.
  tauto.
Qed.

(** All the changes of an applied row. *)
Definition row_changes (p : IngestionPreviewRow) : list (Z * AuditChange) :=
  ((λ x, (pr_MatchedID p, x)) <$> sourceIngestionAuditChanges (pr_Action p) (pr_Diff p))
  ++ (rd_Removed (df_Relations (pr_Diff p)) ≫= relation_changes (pr_MatchedID p) AuditChangeRemove)
  ++ (rd_Added (df_Relations (pr_Diff p)) ≫= relation_changes (pr_MatchedID p) AuditChangeAdd).

(** [c'] is [c] with the changes [l]. *)
Definition log_grows (c : audit_log) (l : list (Z * AuditChange)) (c' : audit_log) : Prop :=
  ∀ t x, logged c' t x ↔ logged c t x ∨ (t, x) ∈ l.
Lemma log_grows_nil c : log_grows c [] c.
Proof. intros t x. rewrite elem_of_nil. tauto. Qed.
Lemma log_grows_trans c c' c'' l l' : log_grows c l c' → log_grows c' l' c'' → log_grows c (l ++ l') c''.
Proof. intros Hc Hc' t x. rewrite (Hc' t x), (Hc t x), elem_of_app. tauto. Qed.
Lemma log_grows_relation id r op c : log_grows c (relation_changes id op r) (addRelationAuditChanges id (ig_TargetID r) (ig_Type r) op c).
Proof. intros t x. apply logged_relation. Qed.

(** The program leaves the audit table alone and logs the changes [l] of its result. *)
Definition logs {A} (m : tx A) (phi : A → Prop) : Prop := ∀ a0, htriple (λ s, db_audits s = a0) m (λ a s, db_audits s = a0 ∧ phi a).
Lemma logs_bind {A B} (m : tx A) (f : A → tx B) (phi : A → Prop) (psi : B → Prop) :
  logs m phi → (∀ a, phi a → logs (f a) psi) → logs (mbind f m) psi.
Proof.
  intros Hm Hf a0. eapply tx_triple_bind; [apply Hm|]. intros a. apply (triple_weaken _ (λ s, phi a ∧ db_audits s = a0)); [|tauto].
  apply triple_pure. intros Ha. by apply Hf.
Qed.
Lemma logs_kept {A} (m : tx A) : audits_kept m → logs m (λ _, True).
Proof. intros Hm a0. apply (triple_conseq _ _ _ _ _ (Hm a0)); [done|]. by intros a s ?. Qed.
Lemma logs_skip {A B} (m : tx A) (f : A → tx B) psi : audits_kept m → (∀ a, logs (f a) psi) → logs (mbind f m) psi.
Proof. intros Hm Hf. eapply logs_bind; [by apply logs_kept|]. intros a _. apply Hf. Qed.
Lemma logs_ret {A} (a : A) (phi : A → Prop) : phi a → logs (mret a) phi.
Proof. intros Ha a0. eapply triple_weaken; [apply (tx_triple_ret a (λ a s, db_audits s = a0 ∧ phi a))|done]. Qed.
Lemma logs_weaken {A} (m : tx A) (phi psi : A → Prop) : logs m phi → (∀ a, phi a → psi a) → logs m psi.
Proof. intros Hm Hw a0. apply (triple_conseq _ _ _ _ _ (Hm a0)); [done|]. intros a s [? ?]. auto. Qed.

Lemma remove_logs id l c : logs (remove_relations id l c) (log_grows c (l ≫= relation_changes id AuditChangeRemove)).
Proof.
  revert c. induction l as [|r l IH]; intros c; cbn [remove_relations].
  - apply logs_ret, log_grows_nil.
  - apply logs_skip; [apply kept_delete_triple|]. intros ?. eapply logs_weaken; [apply IH|]. intros c' Hc'.
    rewrite bind_cons. eapply log_grows_trans; [apply log_grows_relation|done].
Qed.
Lemma add_logs from l c : logs (add_relations now from l c) (log_grows c (l ≫= relation_changes (rs_ID from) AuditChangeAdd)).
Proof.
  revert c. induction l as [|r l IH]; intros c; cbn [add_relations].
  - apply logs_ret, log_grows_nil.
  - apply logs_skip; [apply kept_lookup|]. intros to. apply logs_skip; [apply kept_guard|]. intros ?.
    apply logs_skip; [apply kept_lift|]. intros ?. apply logs_skip; [apply kept_insert_relation|]. intros ?.
    eapply logs_weaken; [apply IH|]. intros c' Hc'. rewrite bind_cons. eapply log_grows_trans; [apply log_grows_relation|done].
Qed.
Lemma lookup_logs id : logs (getResourceForUpdate id) (λ x, rs_ID x = id).
Proof.
  intros a0. apply (triple_conseq _ _ _ _ _ (getResourceForUpdate_ok (λ s, db_audits s = a0) id)); [done|]. intros x s [Ha Hx]. split; [done|].
  unfold read_resource in Hx. apply fmap_Some in Hx as (r & _ & ->). done.
Qed.

Lemma apply_row_logs actor collector row p c :
  logs (apply_row sprint now actor collector row p c)
    (λ r, log_grows c (row_changes (PreviewRow (pr_Row p) (pr_Action p) r.1 (pr_Conflict p) (pr_Diff p))) r.2).
Proof.
  unfold apply_row. apply logs_skip; [destruct (pr_Action p); try apply kept_create;
    (apply kept_bind; [destruct (hasResourceFieldChanges _); [apply kept_fields; exact row|apply kept_ret]|intros ?; apply kept_ret])|].
  intros id. apply logs_skip; [apply kept_fields|]. intros ?. apply logs_skip; [apply kept_fields|]. intros ?.
  unfold applyIngestionRelations. eapply logs_bind; [|intros c' Hc'; apply logs_ret; exact Hc'].
  eapply logs_bind; [apply lookup_logs|]. intros from <-. eapply logs_bind; [apply remove_logs|]. intros c1 Hc1.
  eapply logs_weaken; [apply add_logs|]. intros c2 Hc2. cbn.
  eapply log_grows_trans; [|by eapply log_grows_trans]. intros t x. apply logged_log.
Qed.
(** What a preview row plans, whatever resource it turns out to be about. *)
Definition plan (p : IngestionPreviewRow) : Z * PreviewAction * IngestionDiff := (pr_Row p, pr_Action p, pr_Diff p).
Lemma apply_rows_logs actor collector rows previews c :
  length previews = length rows →
  logs (apply_rows sprint now actor collector rows previews c) (λ r, plan <$> r.1 = plan <$> previews ∧ log_grows c (r.1 ≫= row_changes) r.2).
Proof.
  revert previews c. induction rows as [|row rows IH]; intros [|p previews] c; cbn [apply_rows length]; try done.
  { intros _. apply logs_ret. split; [done|apply log_grows_nil]. }
  intros [= Hl]. eapply logs_bind; [apply apply_row_logs|]. intros [id c1] Hc1. eapply logs_bind; [by apply IH|]. intros [l c2] [Hp Hc2].
  apply logs_ret. cbn [fst snd] in *. rewrite bind_cons, !fmap_cons, Hp. split; [done|]. by eapply log_grows_trans.
Qed.

(** A user acted, or a machine principal did. *)
Definition ingestion_event (user machine : option Z) (id : Z) (l : list AuditChange) : audit_event :=
  AuditEvent user machine id (gs "inventory.ingestion.confirmed") l.
Definition audit_events (user machine : option Z) (changes : audit_log) : list audit_event :=
  omap (λ id, match changes !! id with Some (c :: l) => Some (ingestion_event user machine id (c :: l)) | _ => None end)
    (sort_slice Z.ltb (elements (dom changes))).
Lemma audits_inserted user machine changes a0 :
  htriple (λ s, db_audits s = a0)
    (tx_for_each (λ id, match changes !! id with
                        | Some (c :: l) => write_call (add_audit (ingestion_event user machine id (c :: l)))
                        | _ => mret tt
                        end) (sort_slice Z.ltb (elements (dom changes))))
    (λ _ s, db_audits s = a0 ++ audit_events user machine changes).
Proof.
  unfold audit_events. generalize (sort_slice Z.ltb (elements (dom changes))). intros l. revert a0.
  induction l as [|id l IH]; intros a0; cbn [tx_for_each omap list_omap].
  - rewrite app_nil_r. apply (tx_triple_ret tt (λ _ s, db_audits s = a0)).
  - destruct (changes !! id) as [[|x xs]|].
    1,3: eapply tx_triple_bind; [apply (tx_triple_ret tt (λ _ s, db_audits s = a0))|]; intros ?; apply IH.
    rewrite cons_middle, (assoc_L (++)). eapply tx_triple_bind; [|intros ?; apply IH].
    apply (triple_write _ (λ s, db_audits s = a0 ++ [_])). intros s <-. split; [done|]. split; cbn; lia.
Qed.
(** One event per changed resource, with exactly its changes. *)
Lemma audit_events_spec user machine changes t x :
  logged changes t x ↔ ∃ e, e ∈ audit_events user machine changes ∧ au_TargetResourceID e = t ∧ x ∈ au_Changes e.
Proof.
  unfold audit_events, logged. setoid_rewrite list_elem_of_omap. setoid_rewrite (sort_slice_perm Z.ltb).
  setoid_rewrite elem_of_elements. setoid_rewrite elem_of_dom. split.
  - destruct (changes !! t) as [l|] eqn:E; cbn; [|by intros ?%elem_of_nil]. intros Hx.
    exists (ingestion_event user machine t l). split; [|done]. exists t. split; [by exists l|]. rewrite E.
    destruct l; [by apply elem_of_nil in Hx|done].
  - intros (e & (id & _ & He) & <- & Hx). destruct (changes !! id) as [[|y l]|] eqn:E; [done| |done]. injection He as <-. cbn in *.
    by rewrite E.
Qed.
Lemma audit_events_targets user machine changes :
  NoDup (au_TargetResourceID <$> audit_events user machine changes)
  ∧ ∀ e, e ∈ audit_events user machine changes → au_ActorUserID e = user ∧ au_ActorMachinePrincipalID e = machine ∧ au_EventType e = gs "inventory.ingestion.confirmed".
Proof.
  unfold audit_events. split.
  - assert (NoDup (sort_slice Z.ltb (elements (dom changes)))) as Hnd by (rewrite (sort_slice_perm Z.ltb); apply NoDup_elements).
    induction Hnd as [|id l Hid _ IH]; cbn; [constructor|]. destruct (changes !! id) as [[|y ys]|]; [done| |done].
    cbn. constructor; [|done]. intros (e & He & Hin)%list_elem_of_fmap. apply list_elem_of_omap in Hin as (id' & Hid' & Hm).
    destruct (changes !! id') as [[|z zs]|]; [done| |done]. injection Hm as <-. cbn in He. by subst.
  - intros e (id & _ & He)%list_elem_of_omap. destruct (changes !! id) as [[|y l]|]; [done| |done]. by injection He as <-.
Qed.

(** ** The contract *)

(** [p] is the preview of the tables [s0], applied: the preview is confirmable
    and has the reviewed fingerprint. *)
Definition applied_as_reviewed (s0 : inv_db) (ids : list Z) (rows : list IngestionRow) (reviewed : bytes) (p : IngestionPreview) : Prop :=
  ∃ snapshots, mapM (snapshot_at s0) ids = Some snapshots
    ∧ let preview := PreviewIngestion fingerprint_text rows snapshots in
      pv_Confirmable preview = true ∧ pv_Fingerprint preview = reviewed ∧ plan <$> pv_Rows p = plan <$> pv_Rows preview.
(** The audit rows [s'] adds to [s0] are one per changed resource, by the user or the machine principal, with exactly the changes of the rows. *)
Definition fully_audited (s0 : inv_db) (user machine : option Z) (p : IngestionPreview) (s' : inv_db) : Prop :=
  ∃ events, db_audits s' = db_audits s0 ++ events ∧ NoDup (au_TargetResourceID <$> events)
    ∧ (∀ e, e ∈ events → au_ActorUserID e = user ∧ au_ActorMachinePrincipalID e = machine ∧ au_EventType e = gs "inventory.ingestion.confirmed")
    ∧ ∀ t x, (t, x) ∈ (pv_Rows p ≫= row_changes) ↔ ∃ e, e ∈ events ∧ au_TargetResourceID e = t ∧ x ∈ au_Changes e.

(** On whose behalf: the columns of the audit rows. *)
Definition acting_user (actor : Z) (entry : option CollectorScanLedgerEntry) : option Z := match entry with None => Some actor | Some _ => None end.
Definition acting_machine (machine : Z) (entry : option CollectorScanLedgerEntry) : option Z :=
  match entry with None => None | Some _ => Some machine end.

Lemma states_keep_audits e ids : audits_kept (ApplyCollectorScanStates e ids).
Proof. unfold ApplyCollectorScanStates, applyCollectorScanStates, update_state, insert_state, apply_scan, write_state. frames. Qed.
Lemma confirm_audits actor machine entry changes (applied : list IngestionPreviewRow) a0 :
  htriple (λ s, db_audits s = a0)
    (match entry with
     | None => insertIngestionAudits actor changes
     | Some e => _ ← insertCollectorIngestionAudits machine changes;
                 tx_map_err mapCollectorScanError (ApplyCollectorScanStates e (pr_MatchedID <$> applied))
     end)
    (λ _ s, db_audits s = a0 ++ audit_events (acting_user actor entry) (acting_machine machine entry) changes).
Proof.
  destruct entry as [e|]; [|apply (audits_inserted (Some actor) None)].
  eapply tx_triple_bind; [apply (audits_inserted None (Some machine))|]. intros ?. apply kept_map_err, states_keep_audits.
Qed.

Lemma confirm_rows_ok s0 ids rows reviewed actor machine entry :
  htriple (λ s, s = s0) (confirm_rows sprint now fingerprint_text ids rows reviewed actor machine entry)
    (λ p s', applied_as_reviewed s0 ids rows reviewed p
             ∧ fully_audited s0 (acting_user actor entry) (acting_machine machine entry) p s').
Proof.
  unfold confirm_rows. eapply tx_triple_bind; [apply lockResourceRows_ok|]. intros ?.
  apply (triple_weaken _ (λ s, s = s0)); [|by intros s [? _]]. eapply tx_triple_bind; [apply load_snapshots_ok|]. intros snapshots.
  apply (triple_weaken _ (λ s, mapM (snapshot_at s0) ids = Some snapshots ∧ s = s0)); [|by intros s [? ?]].
  apply triple_pure. intros Hsnap. apply triple_guard_bind. intros Hconf. apply triple_guard_bind. intros Hfp.
  apply negb_false_iff in Hconf, Hfp. apply bool_decide_eq_true in Hfp. set (preview := PreviewIngestion _ _ _) in *.
  apply (triple_weaken _ (λ s, db_audits s = db_audits s0)); [|by intros s ->].
  eapply tx_triple_bind; [apply apply_rows_logs; apply length_imap|]. intros [l changes]. cbn [fst snd].
  apply (triple_weaken _ (λ s, (plan <$> l = plan <$> pv_Rows preview ∧ log_grows ∅ (l ≫= row_changes) changes)
    ∧ db_audits s = db_audits s0)); [|tauto]. apply triple_pure. intros [Hp Hg].
  eapply tx_triple_bind; [apply confirm_audits|]. intros ?.
  eapply triple_weaken; [apply (tx_triple_ret _ (λ p s', applied_as_reviewed s0 ids rows reviewed p ∧ fully_audited s0 _ _ p s'))|].
  intros s Hs. split; [by exists snapshots|]. exists (audit_events (acting_user actor entry) (acting_machine machine entry) changes). split; [done|].
  destruct (audit_events_targets (acting_user actor entry) (acting_machine machine entry) changes) as [Hnd Hev]. split; [done|]. split; [done|].
  intros t x. rewrite <- audit_events_spec, (Hg t x). unfold logged, audit_log. rewrite lookup_empty. cbn. rewrite elem_of_nil. tauto.
Qed.
Lemma confirm_body_ok s0 ids rows reviewed actor :
  htriple (λ s, s = s0) (confirm_body sprint now fingerprint_text ids rows reviewed actor 0 None)
    (λ r s', r.2 = true ∧ applied_as_reviewed s0 ids rows reviewed r.1 ∧ fully_audited s0 (Some actor) None r.1 s').
Proof.
  unfold confirm_body. eapply tx_triple_bind; [eapply triple_weaken; [apply (tx_triple_ret true (λ b s, b = true ∧ s = s0))|done]|]. intros b.
  apply (triple_weaken _ (λ s, b = true ∧ s = s0)); [|done]. apply triple_pure. intros ->. cbn [negb].
  eapply tx_triple_bind; [apply confirm_rows_ok|]. intros p. eapply triple_weaken;
    [apply (tx_triple_ret (p, true) (λ r s', r.2 = true ∧ applied_as_reviewed s0 ids rows reviewed r.1 ∧ fully_audited s0 _ _ r.1 s'))|done].
Qed.


End contract.
