(* ===== verification/EffectiveValues.v ===== *)
(** * Overrides, observations and health

    The rest of what [repository/mysql/resource_repository.go] and
    [service/resource_service.go] write about a resource: values observed by a
    source, manual overrides with their versions, health evidence; and what is
    read back as the effective values and the effective health. Instants count
    from Go's zero time, as in Inventory. *)
From S2P Require Import Prelude GoText GoAny Inventory Profiles InventoryDb ResourceStore Relations InventoryInvariant InventoryOps Resources Ingestion IngestionStore IngestionConfirm.

Definition two64 : Z := (2 ^ 64)%Z.
Record EffectiveValue : Type := MkEffective { ev_Value : gvalue; ev_Kind : bytes; ev_Source : bytes; ev_Version : Z }.

Section values.
Context `{MySQLText, UnicodeLower, DbTime} (now : Z).

(** ** Observed values *)

Definition put_observed_body (id : Z) (source : bytes) (values : gfields) : tx () :=
  _ ← getResourceForUpdate id;
  tx_for_each (λ field,
    _ ← tx_lift (validateEffectiveValueField field);
    let value := default GNull (values !! field) in
    _ ← tx_guard (negb (marshal_ok value)) ErrStore;
    write_observed now id source field value) (sort_slice bytes_less (elements (dom values))).
Definition PutObservedValues (f : write_faults) (id : Z) (source : bytes) (values : gfields) (s : inv_db) : result inventory_error () * inv_db :=
  if trim_space source =?b [] then (Err (ErrValidationFailed (gs "observation source is required")), s)
  else in_tx (put_observed_body id source values) (wf_calls f) (wf_commit f) s.

(** One query: the observations ranked by field, and the overrides after them. *)
Definition GetEffectiveValues (id : Z) (s : inv_db) : gmap bytes EffectiveValue :=
  ((λ o, MkEffective (reload (or_Value o)) (gs "manual_override") [] (or_Version o)) <$> default ∅ (map_curry (M1:=gmap Z) (M2:=gmap bytes) (db_overrides s) !! id))
  ∪ ((λ o, MkEffective (ov_Value o) (gs "observed") (ov_Source o) 0) <$> loadLatestObservedValues id s).
(** The service reads the resource first. *)
Definition ResourceService_GetEffectiveValues (snap : inv_db) (get_fails values_fail : bool) (id : Z) (s : inv_db) :
    result inventory_error (gmap bytes EffectiveValue) :=
  _ ← read_or ErrResourceNotFound (fetch get_fails (read_resource id snap));
  if values_fail then Err ErrStore else Ok (GetEffectiveValues id s).

(** ** Overrides *)

Definition override_field (field : bytes) : bytes := gs "override." ++ field.
Definition version_of (o : option override_row) : Z := match o with Some o => or_Version o | None => 0 end.
Definition override_change (field : bytes) (before : option override_row) (value : gvalue) : AuditChange :=
  if (version_of before =? 0)%Z then Change (override_field field) AuditChangeAdd GNull value
  else Change (override_field field) AuditChangeUpdate (from_option (reload ∘ or_Value) GNull before) value.
Definition set_override_body (id : Z) (field : bytes) (value : gvalue) (expectedVersion actorUserID : Z) : tx Z :=
  _ ← getResourceForUpdate id;
  before ← read_call (λ s, db_overrides s !! (id, field));
  _ ← tx_guard (negb (version_of before =? expectedVersion)%Z) ErrResourceConflict;
  let next := ((version_of before + 1) `mod` two64)%Z in
  _ ← write_call (set_overrides <[(id, field) := OverrideRow value next actorUserID]>);
  _ ← insertInventoryAuditTx actorUserID id (gs "inventory.override.updated") [override_change field before value];
  mret next.
Definition SetManualOverrideWithAudit (f : write_faults) (id : Z) (field : bytes) (value : gvalue) (expectedVersion actorUserID : Z) (s : inv_db) :
    result inventory_error Z * inv_db :=
  match (_ ← validateEffectiveValueField field; guard_err (negb (marshal_ok value)) ErrStore) with
  | Err e => (Err e, s)
  | Ok _ => in_tx (set_override_body id field value expectedVersion actorUserID) (wf_calls f) (wf_commit f) s
  end.

Definition clear_override_body (id : Z) (field : bytes) (expectedVersion actorUserID : Z) : tx () :=
  _ ← getResourceForUpdate id;
  before ← read_call (λ s, db_overrides s !! (id, field));
  match before with
  | None => tx_fail ErrResourceNotFound
  | Some o =>
      _ ← tx_guard (negb (or_Version o =? expectedVersion)%Z) ErrResourceConflict;
      _ ← write_call (set_overrides (delete (id, field)));
      insertInventoryAuditTx actorUserID id (gs "inventory.override.cleared")
        [Change (override_field field) AuditChangeRemove (reload (or_Value o)) GNull]
  end.
Definition ClearManualOverrideWithAudit (f : write_faults) (id : Z) (field : bytes) (expectedVersion actorUserID : Z) (s : inv_db) :
    result inventory_error () * inv_db :=
  match validateEffectiveValueField field with
  | Err e => (Err e, s)
  | Ok _ => in_tx (clear_override_body id field expectedVersion actorUserID) (wf_calls f) (wf_commit f) s
  end.

Definition SetManualOverride (f : write_faults) (actorUserID id : Z) (field : bytes) (value : gvalue) (expectedVersion : Z) (s : inv_db) :
    result inventory_error Z * inv_db :=
  if (actorUserID =? 0)%Z then (Err ErrNoAuditActor, s) else SetManualOverrideWithAudit f id field value expectedVersion actorUserID s.
Definition ClearManualOverride (f : write_faults) (actorUserID id : Z) (field : bytes) (expectedVersion : Z) (s : inv_db) :
    result inventory_error () * inv_db :=
  if (actorUserID =? 0)%Z then (Err ErrNoAuditActor, s) else ClearManualOverrideWithAudit f id field expectedVersion actorUserID s.

(** ** Health *)

(** One statement: an insert, or an update of the row with that key, whose
    status is replaced before its time is. *)
Definition upsert_health (id : Z) (o : HealthObservation) (s : inv_db) : inv_db :=
  let t := store_time (ho_ObservedAt o) in
  let same := λ h, (hr_ResourceID h =? id)%Z && same_text (hr_Observer h) (ho_Observer o) in
  set_health (λ l,
    if existsb same l
    then (λ h, if same h then HealthRow id (hr_Observer h) (if (hr_At h <=? t)%Z then ho_Status o else hr_Status h) (Z.max (hr_At h) t) else h) <$> l
    else l ++ [HealthRow id (ho_Observer o) (ho_Status o) t]) s.
(** The checks of both layers; [refuse] is the error of a complaint. *)
Definition check_observation (refuse : bytes → inventory_error) (o : HealthObservation) : result inventory_error HealthObservation :=
  _ ← guard_err (negb (HealthStatus_Validate (ho_Status o))) (refuse (gs "health status is not supported"));
  let observer := trim_space (ho_Observer o) in
  _ ← guard_err ((observer =?b []) || (191 <? length observer)%nat) (refuse (gs "observer must be between 1 and 191 characters"));
  _ ← guard_err (ho_ObservedAt o =? 0)%Z (refuse (gs "observedAt is required"));
  Ok (Observation (ho_Status o) (ho_ObservedAt o) observer).
Definition UpsertHealthObservation (end_ : commit_result) (id : Z) (o : HealthObservation) (s : inv_db) : result inventory_error () * inv_db :=
  match (_ ← guard_err (id =? 0)%Z ErrStore; check_observation (λ _, ErrStore) o) with
  | Err e => (Err e, s)
  | Ok o => run_update end_ (upsert_health id o) s
  end.
Definition ObserveHealth (snap : inv_db) (read_fails : bool) (end_ : commit_result) (id : Z) (o : HealthObservation) (s : inv_db) :
    result inventory_error () * inv_db :=
  match (_ ← guard_err (id =? 0)%Z (ErrValidationFailed (gs "resource id is required"));
         existing ← read_or ErrResourceNotFound (fetch read_fails (read_resource id snap));
         _ ← guard_err (IsArchived existing) ErrResourceArchived;
         check_observation ErrValidationFailed o) with
  | Err e => (Err e, s)
  | Ok o => UpsertHealthObservation end_ id o s
  end.

Definition health_of (id : Z) (s : inv_db) : list HealthObservation :=
  (λ h, Observation (hr_Status h) (hr_At h) (hr_Observer h)) <$> filter (λ h, hr_ResourceID h = id) (db_health s).
(** The effective status, its freshness and its evidence, of each resource, at [now]. *)
Definition attachHealthObservations (thresholds : gmap bytes Z) (list_fails : bool) (s : inv_db) (resources : list Resource) :
    result inventory_error (list (bytes * HealthFreshness * option (Z * bytes))) :=
  if bool_decide (resources = []) then Ok []
  else if list_fails then Err ErrStore
  else Ok ((λ r, ResolveHealth now (threshold_For thresholds (rs_ResourceType r)) (rs_ManualHealthOverride r) (health_of (rs_ID r) s)) <$> resources).
End values.

(** ** What is read back *)

Section contract.
Context `{MySQLText, UnicodeLower, DbTime}.

Definition overridden (o : override_row) : EffectiveValue := MkEffective (reload (or_Value o)) (gs "manual_override") [] (or_Version o).
Definition observed_value (o : ObservedValueInput) : EffectiveValue := MkEffective (ov_Value o) (gs "observed") (ov_Source o) 0.
(** An override wins, and without one the latest observation counts. *)
Lemma lookup_effective id s field :
  GetEffectiveValues id s !! field
  = match db_overrides s !! (id, field) with
    | Some o => Some (overridden o)
    | None => observed_value <$> loadLatestObservedValues id s !! field
    end.
Proof.
  unfold GetEffectiveValues. rewrite lookup_union, !lookup_fmap.
  rewrite <- (lookup_map_curry (M1:=gmap Z) (M2:=gmap bytes) (db_overrides s) id field).
  destruct (map_curry _ !! id) as [m|]; cbn.
  - by destruct (m !! field); destruct (loadLatestObservedValues id s !! field).
  - rewrite lookup_empty. by destruct (loadLatestObservedValues id s !! field).
Qed.

(** ** Overrides *)

Definition next_version (v : Z) : Z := ((v + 1) `mod` two64)%Z.
Definition override_event (actor id : Z) (event : bytes) (change : AuditChange) : audit_event := AuditEvent (Some actor) None id event [change].
(** The tables after an override is set, or cleared. *)
Definition after_set (actor id : Z) (field : bytes) (value : gvalue) (s : inv_db) : inv_db :=
  let before := db_overrides s !! (id, field) in
  add_audit (override_event actor id (gs "inventory.override.updated") (override_change field before value))
    (set_overrides <[(id, field) := OverrideRow value (next_version (version_of before)) actor]> s).
Definition after_clear (actor id : Z) (field : bytes) (o : override_row) (s : inv_db) : inv_db :=
  add_audit (override_event actor id (gs "inventory.override.cleared") (Change (override_field field) AuditChangeRemove (reload (or_Value o)) GNull))
    (set_overrides (delete (id, field)) s).

Lemma locked_ok s0 id : htriple (λ s, s = s0) (getResourceForUpdate id) (λ _ s, db_resources s0 !! id ≠ None ∧ s = s0).
Proof.
  eapply triple_conseq; [apply (getResourceForUpdate_ok (λ s, s = s0))|done|]. intros r s [-> Hr]. split; [|done].
  intros E. unfold read_resource in Hr. by rewrite E in Hr.
Qed.
Lemma read_override_ok s0 id field :
  htriple (λ s, s = s0) (read_call (λ s, db_overrides s !! (id, field))) (λ a s, a = db_overrides s0 !! (id, field) ∧ s = s0).
Proof. eapply triple_conseq; [apply (triple_read (λ s, s = s0))|done|by intros a s [-> ->]]. Qed.
Lemma write_ok s0 (f : inv_db → inv_db) :
  counters_grow s0 (f s0) → htriple (λ s, s = s0) (write_call f) (λ _ s, s = f s0).
Proof. intros Hc. apply triple_write. intros s ->. by split. Qed.

Lemma set_override_ok s0 id field value expected actor :
  htriple (λ s, s = s0) (set_override_body id field value expected actor)
    (λ v s, (db_resources s0 !! id ≠ None ∧ version_of (db_overrides s0 !! (id, field)) = expected)
            ∧ v = next_version expected ∧ s = after_set actor id field value s0).
Proof.
  unfold set_override_body. eapply tx_triple_bind; [apply locked_ok|]. intros r. apply triple_pure. intros Hr.
  eapply tx_triple_bind; [apply read_override_ok|]. intros before. apply triple_pure. intros ->.
  apply triple_guard_bind. intros Hv%negb_false_iff%Z.eqb_eq.
  eapply tx_triple_bind; [apply write_ok; by split|]. intros ?. eapply tx_triple_bind; [apply write_ok; by split|]. intros ?.
  set (Q := λ (v : Z) s, _). eapply triple_weaken; [apply (tx_triple_ret _ Q)|]. intros s ->. unfold Q, next_version. by rewrite <- Hv.
Qed.
Lemma clear_override_ok s0 id field expected actor :
  htriple (λ s, s = s0) (clear_override_body id field expected actor)
    (λ _ s, ∃ o, (db_resources s0 !! id ≠ None ∧ or_Version o = expected)
            ∧ db_overrides s0 !! (id, field) = Some o ∧ s = after_clear actor id field o s0).
Proof.
  unfold clear_override_body. eapply tx_triple_bind; [apply locked_ok|]. intros r. apply triple_pure. intros Hr.
  eapply tx_triple_bind; [apply read_override_ok|]. intros before. apply triple_pure. intros E.
  destruct before as [o|]; [|apply triple_fail]. apply triple_guard_bind. intros Hv%negb_false_iff%Z.eqb_eq.
  eapply tx_triple_bind; [apply write_ok; by split|]. intros ?.
  eapply triple_conseq; [apply (write_ok (set_overrides (delete (id, field)) s0)); by split| |]; [done|].
  intros ? s ->. by exists o.
Qed.

(** What a change of an override is, to a reader. *)
Lemma effective_after_set actor id field value s id' :
  GetEffectiveValues id' (after_set actor id field value s)
  = if decide (id' = id)
    then <[field := MkEffective (reload value) (gs "manual_override") [] (next_version (version_of (db_overrides s !! (id, field))))]>
           (GetEffectiveValues id s)
    else GetEffectiveValues id' s.
Proof.
  apply map_eq. intros g. rewrite lookup_effective. cbn [db_overrides after_set add_audit set_overrides].
  destruct (decide (id' = id)) as [->|Hne].
  - destruct (decide (g = field)) as [->|Hg]; [by rewrite !lookup_insert_eq|].
    rewrite !lookup_insert_ne, lookup_effective by congruence. done.
  - rewrite lookup_insert_ne, lookup_effective by congruence. done.
Qed.
Lemma effective_after_clear actor id field o s id' g :
  GetEffectiveValues id' (after_clear actor id field o s) !! g
  = if decide (id' = id ∧ g = field) then observed_value <$> loadLatestObservedValues id s !! field else GetEffectiveValues id' s !! g.
Proof.
  rewrite !lookup_effective. cbn [db_overrides after_clear add_audit set_overrides].
  destruct (decide (id' = id ∧ g = field)) as [[-> ->]|Hne]; [by rewrite lookup_delete_eq|].
  rewrite lookup_delete_ne; [done|]. intros [= -> ->]. by apply Hne.
Qed.

(** A request to replace the override of a field, or to clear it. *)
Definition request_override (f : write_faults) (actor id : Z) (field : bytes) (change : option gvalue) (expected : Z) (s : inv_db) :
    result inventory_error Z * inv_db :=
  match change with
  | Some value => SetManualOverride f actor id field value expected s
  | None => let '(r, s') := ClearManualOverride f actor id field expected s in ((λ _, 0%Z) <$> r, s')
  end.
Definition stored_version (id : Z) (field : bytes) (s : inv_db) : Z := version_of (db_overrides s !! (id, field)).

(** What a request is refused for, in this order. *)
Definition refusal (actor id : Z) (field : bytes) (change : option gvalue) (expected : Z) (s : inv_db) : result inventory_error () :=
  _ ← guard_err (actor =? 0)%Z ErrNoAuditActor;
  _ ← validateEffectiveValueField field;
  _ ← guard_err (negb (from_option marshal_ok true change)) ErrStore;
  _ ← guard_err (bool_decide (db_resources s !! id = None)) ErrResourceNotFound;
  _ ← guard_err (bool_decide (change = None ∧ db_overrides s !! (id, field) = None)) ErrResourceNotFound;
  guard_err (negb (stored_version id field s =? expected)%Z) ErrResourceConflict.

Definition after_change (actor id : Z) (field : bytes) (change : option gvalue) (s : inv_db) : inv_db :=
  match change, db_overrides s !! (id, field) with
  | Some value, _ => after_set actor id field value s
  | None, Some o => after_clear actor id field o s
  | None, None => s
  end.
Definition new_version (change : option gvalue) (expected : Z) : Z := match change with Some _ => next_version expected | None => 0 end.
(** The request took effect: it met its conditions; the field of that resource
    reads as the new override or else as the latest observation, every other
    field of every resource as before; and besides the override, the tables
    gain one audit row, of the actor. *)
Definition override_done (actor id : Z) (field : bytes) (change : option gvalue) (expected : Z) (s s' : inv_db) : Prop :=
  refusal actor id field change expected s = Ok ()
  ∧ s' = after_change actor id field change s
  ∧ (∀ id' g, GetEffectiveValues id' s' !! g
       = if decide (id' = id ∧ g = field)
         then match change with
              | Some value => Some (MkEffective (reload value) (gs "manual_override") [] (next_version expected))
              | None => observed_value <$> loadLatestObservedValues id s !! field
              end
         else GetEffectiveValues id' s !! g)
  ∧ stored_version id field s' = new_version change expected
  ∧ ∃ event, db_audits s' = db_audits s ++ [event] ∧ au_ActorUserID event = Some actor ∧ au_TargetResourceID event = id.

Lemma refusal_ok actor id field change expected s :
  refusal actor id field change expected s = Ok () ↔
  actor ≠ 0%Z ∧ validateEffectiveValueField field = Ok () ∧ from_option marshal_ok true change = true
  ∧ db_resources s !! id ≠ None ∧ (change = None → db_overrides s !! (id, field) ≠ None) ∧ stored_version id field s = expected.
Proof.
  split.
  - unfold refusal. intros Hr. res_inv. bool_inv. unit_inv. split_and!; try done. intros Hc E. exact (E5 (conj Hc E)).
  - intros (Ha & Hf & Hm & Hr & Ho & Hv). unfold refusal. apply Z.eqb_neq in Ha as ->. rewrite Hf, Hm. cbn.
    rewrite (bool_decide_eq_false_2 _ Hr). cbn. rewrite bool_decide_eq_false_2; [|intros [-> ?]; by apply Ho]. cbn.
    by apply Z.eqb_eq in Hv as ->.
Qed.

(** What the two services do, told once. *)
Lemma change_done actor id field change expected s s' :
  refusal actor id field change expected s = Ok () → s' = after_change actor id field change s →
  override_done actor id field change expected s s'.
Proof.
  intros Hr ->. pose proof Hr as (_ & _ & _ & _ & Ho & Hv)%refusal_ok. split; [done|]. split; [done|].
  unfold after_change, stored_version in *. destruct change as [value|].
  - split; [|split; [|eexists; split; [reflexivity|done]]].
    + intros id' g. rewrite effective_after_set, Hv. destruct (decide (id' = id)) as [->|Hne].
      * destruct (decide (g = field)) as [->|Hg]; [by rewrite lookup_insert_eq, decide_True|].
        rewrite lookup_insert_ne by done. rewrite decide_False; [done|]. by intros [_ ?].
      * rewrite decide_False; [done|]. by intros [? _].
    + cbn. by rewrite lookup_insert_eq, Hv.
  - destruct (db_overrides s !! (id, field)) as [o|]; [|by destruct Ho].
    split; [intros; apply effective_after_clear|]. split; [|eexists; split; [reflexivity|done]].
    cbn. by rewrite lookup_delete_eq.
Qed.

Lemma set_done f actor id field value expected s :
  let '(r, s') := SetManualOverride f actor id field value expected s in
  override_done actor id field (Some value) expected s s' ∧ (r = Ok (next_version expected) ∨ r = Err ErrStore ∧ wf_commit f = CommitDoneUnseen)
  ∨ (∃ e, r = Err e) ∧ same_rows s s'.
Proof.
  unfold SetManualOverride, SetManualOverrideWithAudit. destruct (Z.eqb_spec actor 0) as [|Ha]; [by right; split; [eexists|destruct s]|].
  destruct (validateEffectiveValueField field) as [[]|] eqn:Hf; cbn; [|by right; split; [eexists|destruct s]].
  destruct (marshal_ok value) eqn:Hm; cbn; [|by right; split; [eexists|destruct s]].
  destruct (in_tx _ _ _ s) as [r s'] eqn:E.
  destruct (in_tx_outcome _ _ _ _ _ _ _ _ (set_override_ok s id field value expected actor) eq_refl E)
    as [(v & ([Hr Hv] & -> & ->) & _ & Ho)|(e & s2 & -> & -> & _)].
  - left. split; [|done]. apply change_done; [|done]. by apply refusal_ok.
  - right. split; [by eexists|]. done.
Qed.
Lemma clear_done f actor id field expected s :
  let '(r, s') := ClearManualOverride f actor id field expected s in
  override_done actor id field None expected s s' ∧ (r = Ok () ∨ r = Err ErrStore ∧ wf_commit f = CommitDoneUnseen)
  ∨ (∃ e, r = Err e) ∧ same_rows s s'.
Proof.
  unfold ClearManualOverride, ClearManualOverrideWithAudit. destruct (Z.eqb_spec actor 0) as [|Ha]; [by right; split; [eexists|destruct s]|].
  destruct (validateEffectiveValueField field) as [[]|] eqn:Hf; cbn; [|by right; split; [eexists|destruct s]].
  destruct (in_tx _ _ _ s) as [r s'] eqn:E.
  destruct (in_tx_outcome _ _ _ _ _ _ _ _ (clear_override_ok s id field expected actor) eq_refl E)
    as [([] & (o & [Hr Hv] & Hl & ->) & _ & Ho)|(e & s2 & -> & -> & _)].
  - left. split; [|done]. apply change_done; [|unfold after_change; by rewrite Hl].
    apply refusal_ok. unfold stored_version. rewrite Hl. done.
  - right. split; [by eexists|]. done.
Qed.
Lemma set_undisturbed f actor id field value expected s :
  wf_calls f = [] → wf_commit f = Committed →
  (SetManualOverride f actor id field value expected s).1 = (λ _, next_version expected) <$> refusal actor id field (Some value) expected s.
Proof.
  intros Hc Hw. unfold SetManualOverride, SetManualOverrideWithAudit, refusal, stored_version. destruct (actor =? 0)%Z; [done|]. cbn.
  destruct (validateEffectiveValueField field) as [[]|]; cbn; [|done]. destruct (marshal_ok value); cbn; [|done].
  unfold in_tx. rewrite Hc, Hw. unfold set_override_body, getResourceForUpdate, read_call, call, mbind, tx_bind. cbn.
  destruct (db_resources s !! id); cbn; [|done].
  destruct (Z.eqb_spec (version_of (db_overrides s !! (id, field))) expected) as [<-|]; done.
Qed.
Lemma clear_undisturbed f actor id field expected s :
  wf_calls f = [] → wf_commit f = Committed →
  (ClearManualOverride f actor id field expected s).1 = refusal actor id field None expected s.
Proof.
  intros Hc Hw. unfold ClearManualOverride, ClearManualOverrideWithAudit, refusal, stored_version. destruct (actor =? 0)%Z; [done|]. cbn.
  destruct (validateEffectiveValueField field) as [[]|]; cbn; [|done].
  unfold in_tx. rewrite Hc, Hw. unfold clear_override_body, getResourceForUpdate, read_call, call, mbind, tx_bind. cbn.
  destruct (db_resources s !! id); cbn; [|done]. destruct (db_overrides s !! (id, field)) as [o|]; cbn; [|done].
  by destruct (or_Version o =? expected)%Z.
Qed.

(** C39: Overrides are changed optimistically, exactly and on the record. Whatever
    fails, a request to set or to clear the override of a field either takes
    effect — its actor is known, the field may be overridden, the resource and,
    to clear it, the override exist, and the version is the one the caller
    expects; then the field of that resource reads as the new value under the
    next version, or as the latest observation, every other field of every
    resource reads as before, and one audit row by the actor is added — or it
    answers an error and no row changes. An error after it took effect is a lost
    commit acknowledgement. Undisturbed, it is refused exactly for its reasons. *)
Theorem override_exact f actor id field change expected s :
  let '(r, s') := request_override f actor id field change expected s in
  (override_done actor id field change expected s s'
     ∧ (r = Ok (new_version change expected) ∨ r = Err ErrStore ∧ wf_commit f = CommitDoneUnseen)
   ∨ (∃ e, r = Err e) ∧ same_rows s s')
  ∧ (wf_calls f = [] → wf_commit f = Committed →
     r = (λ _, new_version change expected) <$> refusal actor id field change expected s).
Proof.
  destruct change as [value|]; cbn [request_override].
  - pose proof (set_done f actor id field value expected s) as Hd. pose proof (set_undisturbed f actor id field value expected s) as Hu.
    by destruct (SetManualOverride _ _ _ _ _ _ _) as [r s'].
  - pose proof (clear_done f actor id field expected s) as Hd. pose proof (clear_undisturbed f actor id field expected s) as Hu.
    destruct (ClearManualOverride _ _ _ _ _ _) as [r s']. split.
    + destruct Hd as [[Hd [->|[-> ?]]]|[[e ->] Hs]]; [by left; split; [|left]|by left; split; [|right]|right; split; [by exists e|done]].
    + intros Hc Hw. specialize (Hu Hc Hw). cbn in Hu. by rewrite <- Hu; destruct r.
Qed.

(** ** Health evidence *)

Definition health_key (id : Z) (observer : bytes) (h : health_row) : Prop := hr_ResourceID h = id ∧ weight (hr_Observer h) = weight observer.
#[export] Instance health_key_dec id observer h : Decision (health_key id observer h).
Proof. unfold health_key. apply _. Defined.
(** The evidence of an observer on a resource: its status and its time. *)
Definition evidence (id : Z) (observer : bytes) (s : inv_db) : option (bytes * Z) :=
  (λ h, (hr_Status h, hr_At h)) <$> head (filter (health_key id observer) (db_health s)).
Definition newer (e : option (bytes * Z)) (o : HealthObservation) : option (bytes * Z) :=
  let t := store_time (ho_ObservedAt o) in
  match e with
  | Some (status, at_) => Some (if (at_ <=? t)%Z then ho_Status o else status, Z.max at_ t)
  | None => Some (ho_Status o, t)
  end.

Lemma same_health id observer h : (hr_ResourceID h =? id)%Z && same_text (hr_Observer h) observer = bool_decide (health_key id observer h).
Proof.
  apply eq_bool_prop_intro. rewrite bool_decide_spec. unfold health_key. rewrite <- Z.eqb_eq, <- same_text_weight.
  destruct (_ =? _)%Z, (same_text _ _); cbn; naive_solver.
Qed.
Lemma head_filter_fmap (P : health_row → Prop) `{∀ h, Decision (P h)} f l :
  (∀ h, P (f h) ↔ P h) → head (filter P (f <$> l)) = f <$> head (filter P l).
Proof.
  intros Hf. induction l as [|h l IH]; [done|]. rewrite fmap_cons, !filter_cons. destruct (decide (P h)) as [Hh|Hh].
  - by rewrite decide_True by by apply Hf.
  - rewrite decide_False; [done|]. by rewrite Hf.
Qed.
Lemma head_filter_in (P : health_row → Prop) `{∀ h, Decision (P h)} l h : head (filter P l) = Some h → P h.
Proof. intros Hh%head_Some_elem_of. by apply list_elem_of_filter in Hh as [? _]. Qed.

(** A row after an observation under the key [(id, observer)]. *)
Definition refreshed (id : Z) (o : HealthObservation) (h : health_row) : health_row :=
  let t := store_time (ho_ObservedAt o) in
  if bool_decide (health_key id (ho_Observer o) h)
  then HealthRow id (hr_Observer h) (if (hr_At h <=? t)%Z then ho_Status o else hr_Status h) (Z.max (hr_At h) t) else h.
Lemma refreshed_key id o id' observer h : health_key id' observer (refreshed id o h) ↔ health_key id' observer h.
Proof. unfold refreshed. case_bool_decide as Hk; [|done]. destruct Hk as [<- _]. done. Qed.
Lemma upsert_rows id o s :
  db_health (upsert_health id o s)
  = if bool_decide (filter (health_key id (ho_Observer o)) (db_health s) = [])
    then db_health s ++ [HealthRow id (ho_Observer o) (ho_Status o) (store_time (ho_ObservedAt o))]
    else refreshed id o <$> db_health s.
Proof.
  unfold upsert_health. cbn [set_health db_health].
  destruct (existsb _ (db_health s)) eqn:E.
  - apply existsb_exists in E as (h & Hin%list_elem_of_In & Hh). rewrite same_health, bool_decide_eq_true in Hh.
    rewrite bool_decide_eq_false_2.
    + apply list_fmap_ext. intros i x _. unfold refreshed. by rewrite same_health.
    + intros Hn. by apply (filter_nil_not_elem_of _ _ h Hn).
  - rewrite bool_decide_eq_true_2; [done|]. destruct (filter _ _) as [|h l] eqn:Ef; [done|].
    assert (h ∈ filter (health_key id (ho_Observer o)) (db_health s)) as [Hk Hin]%list_elem_of_filter by (rewrite Ef; by left).
    apply not_true_iff_false in E. destruct E. apply existsb_exists. exists h. split; [by apply list_elem_of_In|].
    by rewrite same_health, bool_decide_eq_true.
Qed.

(** An observation refreshes the evidence of its own observer only. *)
Lemma upsert_evidence id o s id' observer :
  evidence id' observer (upsert_health id o s)
  = if decide (id' = id ∧ weight observer = weight (ho_Observer o)) then newer (evidence id' observer s) o else evidence id' observer s.
Proof.
  unfold evidence. rewrite upsert_rows. case_decide as Hk.
  - destruct Hk as [-> Hw].
    assert (filter (health_key id observer) (db_health s) = filter (health_key id (ho_Observer o)) (db_health s)) as Hf
      by (apply list_filter_iff; intros h; unfold health_key; by rewrite Hw).
    case_bool_decide as Hn.
    + rewrite filter_app, Hf, Hn, filter_cons_True; [done|by split].
    + rewrite (head_filter_fmap _ _ _ (refreshed_key id o id observer)), Hf.
      destruct (head (filter (health_key id (ho_Observer o)) _)) as [h|] eqn:E.
      * apply head_filter_in in E. cbn. unfold refreshed. by rewrite bool_decide_eq_true_2.
      * by destruct (filter (health_key id (ho_Observer o)) _).
  - case_bool_decide as Hn.
    + rewrite filter_app, filter_cons_False, app_nil_r; [done|]. intros [? ?]. by apply Hk.
    + rewrite (head_filter_fmap _ _ _ (refreshed_key id o id' observer)).
      destruct (head _) as [h|] eqn:E; [|done]. apply head_filter_in in E. cbn. unfold refreshed. rewrite bool_decide_eq_false_2; [done|].
      intros [? ?]. apply Hk. destruct E as [<- <-]. done.
Qed.

(** An observation [o] on [id] counts for the evidence under a key. *)
Definition concerns (id : Z) (observer : bytes) (x : Z * HealthObservation) : Prop := x.1 = id ∧ weight (ho_Observer x.2) = weight observer.
Definition observe_all (l : list (Z * HealthObservation)) (s : inv_db) : inv_db := foldl (λ s x, upsert_health x.1 x.2 s) s l.
Definition observed_time (x : Z * HealthObservation) : Z := store_time (ho_ObservedAt x.2).

(** [status] and [at_] are of the newest of [l] under a key, the last of those. *)
Definition newest_of (id : Z) (observer : bytes) (l : list (Z * HealthObservation)) (e : option (bytes * Z)) : Prop :=
  match e with
  | None => ∀ x, x ∈ l → ¬ concerns id observer x
  | Some (status, at_) => ∃ l1 x l2, l = l1 ++ x :: l2 ∧ concerns id observer x ∧ status = ho_Status x.2 ∧ at_ = observed_time x
      ∧ (∀ y, y ∈ l1 → concerns id observer y → (observed_time y ≤ at_)%Z)
      ∧ (∀ y, y ∈ l2 → concerns id observer y → (observed_time y < at_)%Z)
  end.
Lemma evidence_newest l id observer : newest_of id observer l (evidence id observer (observe_all l empty_inventory)).
Proof.
  unfold observe_all, newest_of. induction l as [|x l IH] using rev_ind; [cbn; intros x Hx; by apply not_elem_of_nil in Hx|].
  rewrite foldl_app. cbn [foldl]. rewrite upsert_evidence. set (e := evidence id observer _) in *.
  case_decide as Hk.
  - assert (concerns id observer x) as Hx by (destruct Hk; by split). destruct e as [[status at_]|]; cbn.
    + destruct IH as (l1 & y & l2 & -> & Hy & -> & -> & H1' & H2'). change (store_time (ho_ObservedAt x.2)) with (observed_time x).
      destruct (Z.leb_spec (observed_time y) (observed_time x)).
      * exists (l1 ++ y :: l2), x, []. rewrite Z.max_r by done. do 4 (split; [done|]). split; [|by intros z Hz%not_elem_of_nil].
        intros z [Hz|[->|Hz]%elem_of_cons]%elem_of_app Hc; [specialize (H1' z Hz Hc)|done|specialize (H2' z Hz Hc)]; lia.
      * exists l1, y, (l2 ++ [x]). rewrite Z.max_l by lia. rewrite <- app_assoc. do 4 (split; [done|]). split; [done|].
        intros z [Hz| ->%list_elem_of_singleton]%elem_of_app Hc; [by apply H2'|done].
    + exists l, x, []. do 4 (split; [done|]). split; [|by intros z Hz%not_elem_of_nil]. intros y Hy Hc. by destruct (IH y Hy).
  - assert (¬ concerns id observer x) as Hx by (intros [? ?]; by apply Hk).
    destruct e as [[status at_]|].
    + destruct IH as (l1 & y & l2 & -> & Hy & -> & -> & H1' & H2'). exists l1, y, (l2 ++ [x]).
      rewrite <- app_assoc. do 4 (split; [done|]). split; [done|].
      intros z [Hz| ->%list_elem_of_singleton]%elem_of_app Hc; [by apply H2'|done].
    + intros y [Hy| ->%list_elem_of_singleton]%elem_of_app; [by apply IH|done].
Qed.

(** What the repository is asked to store, with the end of the statement; and what it then stores, if anything. *)
Definition health_request : Type := commit_result * Z * HealthObservation.
Definition store_request (s : inv_db) (x : health_request) : inv_db := let '(end_, id, o) := x in (UpsertHealthObservation end_ id o s).2.
Definition takes_effect (end_ : commit_result) : bool := match end_ with CommitNotDone => false | _ => true end.
Definition accepted (x : health_request) : option (Z * HealthObservation) :=
  let '(end_, id, o) := x in
  let observer := trim_space (ho_Observer o) in
  if decide (id ≠ 0 ∧ HealthStatus_Validate (ho_Status o) = true ∧ observer ≠ [] ∧ (length observer ≤ 191)%nat ∧ ho_ObservedAt o ≠ 0 ∧ takes_effect end_ = true)%Z
  then Some (id, Observation (ho_Status o) (ho_ObservedAt o) observer) else None.
Lemma store_accepted s x : store_request s x = match accepted x with Some y => upsert_health y.1 y.2 s | None => s end.
Proof.
  destruct x as [[end_ id] o]. unfold store_request, UpsertHealthObservation, check_observation, accepted. case_decide as Hd.
  - destruct Hd as (Hi & -> & Hne & Hl & Ht & He). apply Z.eqb_neq in Hi as ->, Ht as ->.
    rewrite (bool_decide_eq_false_2 _ Hne). apply Nat.ltb_ge in Hl as ->. by destruct end_.
  - destruct (Z.eqb_spec id 0) as [|Hi]; [done|]. destruct (HealthStatus_Validate _) eqn:Hs; [|done]. cbn -[Nat.ltb].
    case_bool_decide as Hne; [done|]. cbn -[Nat.ltb]. destruct (Nat.ltb_spec 191 (length (trim_space (ho_Observer o)))) as [|Hl]; [done|]. cbn.
    destruct (Z.eqb_spec (ho_ObservedAt o) 0) as [|Ht]; [done|]. destruct end_; [|done|]; by destruct Hd.
Qed.

(** C40: The evidence kept of an observer is its newest, in whatever order it
    arrives. After any requests to store observations, valid or not, committed or
    not, the row of an observer on a resource holds the status and the time of an
    accepted observation of that observer on that resource, such that no accepted
    one of theirs is later and, among those of the same time, none arrived later;
    there is no row only if none was accepted. *)
Theorem health_newest requests id observer :
  newest_of id observer (omap accepted requests) (evidence id observer (foldl store_request empty_inventory requests)).
Proof.
  assert (foldl store_request empty_inventory requests = observe_all (omap accepted requests) empty_inventory) as ->; [|apply evidence_newest].
  unfold observe_all. generalize empty_inventory. induction requests as [|x l IH]; intros s; [done|]. cbn.
  rewrite store_accepted. by destruct (accepted x); rewrite IH.
Qed.
End contract.

(** ** A history of one override, and of one observer *)

Module OverrideSample.
#[local] Instance sample_text : MySQLText := {| weight := ascii_lower; alias_check := λ _, true; identifier_check := λ _ _, true |}.
#[local] Instance sample_lower : UnicodeLower := ascii_lower.
#[local] Instance sample_times : DbTime := λ t, t.

Definition one_host : inv_db :=
  put_resources <[1%Z := ResourceRow ResourceTypeHost (gs "vm") (gs "db-1") (gs "db-1") 1 1 LifecycleStatusRunning None (gs "manual") ∅ None]> empty_inventory.
Definition name_field : bytes := gs "displayName".
Definition text (t : string) : gvalue := GString (gs t).
Definition set_name (actor : Z) (name : string) (expected : Z) (s : inv_db) : result inventory_error Z * inv_db :=
  request_override no_faults actor 1 name_field (Some (text name)) expected s.
Definition clear_name (actor expected : Z) (s : inv_db) : result inventory_error Z * inv_db :=
  request_override no_faults actor 1 name_field None expected s.

Lemma override_exact_witness :
  let s := (set_name 7 "Primary" 0 one_host).2 in
  (set_name 8 "Other" 0 s).1 = Err ErrResourceConflict
  ∧ let '(r, s') := clear_name 8 1 s in
    r = Ok 0%Z ∧ GetEffectiveValues 1 s !! name_field = Some (MkEffective (text "Primary") (gs "manual_override") [] 1)
    ∧ (override_done 8 1 name_field None 1 s s' ∧ (r = Ok (new_version None 1) ∨ r = Err ErrStore ∧ Committed = CommitDoneUnseen)
       ∨ (∃ e, r = Err e) ∧ same_rows s s').
Proof.
  intros s. split; [vm_compute; reflexivity|].
  pose proof (override_exact no_faults 8 1 name_field None 1 s) as Hx. unfold clear_name.
  destruct (request_override no_faults 8 1 name_field None 1 s) as [r s']. destruct Hx as [Hd Hu].
  split; [rewrite Hu by done; vm_compute; reflexivity|]. split; [vm_compute; reflexivity|]. exact Hd.
Defined.

(** A cleared override begins again with the first version: what user 7 last
    saw, version 1, is by then another user's value, and is overwritten. *)
Example override_version_reused :
  let seen := set_name 7 "Primary" 0 one_host in
  let cleared := clear_name 8 1 seen.2 in
  let replaced := set_name 8 "Standby" 0 cleared.2 in
  seen.1 = Ok 1%Z ∧ replaced.1 = Ok 1%Z ∧ (set_name 7 "Primary (old)" 1 replaced.2).1 = Ok 2%Z.
Proof. vm_compute. repeat split. Qed.

Definition probe (status : bytes) (at_ : Z) (observer : string) : health_request := (Committed, 1, Observation status at_ (gs observer))%Z.
Definition probes : list health_request :=
  [ probe HealthStatusCritical 9 "probe"; probe HealthStatusHealthy 5 " Probe "; probe HealthStatusWarning 7 "agent";
    probe HealthStatusHealthy 9 "PROBE"; probe (gs "fine") 20 "probe" ].
Lemma health_newest_witness :
  evidence 1 (gs "probe") (foldl store_request empty_inventory probes) = Some (HealthStatusHealthy, 9%Z)
  ∧ length (db_health (foldl store_request empty_inventory probes)) = 2
  ∧ newest_of 1 (gs "probe") (omap accepted probes) (Some (HealthStatusHealthy, 9%Z)).
Proof.
  split; [vm_compute; reflexivity|]. split; [vm_compute; reflexivity|].
  exact (health_newest probes 1 (gs "probe")).
Defined.
End OverrideSample.
