(* ===== verification/InventoryRuns.v ===== *)
(** * The inventory over time

    The operations of the services as steps on a growing history of states,
    each reading, before its transaction, states that may be older than the
    one it writes; every state of every history satisfies the invariant. *)
From S2P Require Import Prelude GoText GoAny Inventory Profiles InventoryDb ResourceStore CollectorScan Relations InventoryInvariant InventoryOps Resources Ingestion IngestionStore IngestionConfirm EffectiveValues.

Section runs.
Context `{MySQLText, UnicodeLower, FloatConversion, DbTime} (sprint : gvalue → bytes) (label_message : gmap bytes bytes → bytes)
        (fingerprint_text : list IngestionRow → list IngestionSnapshot → bytes) (rows_text : list IngestionRow → bytes).

(** ** Ingestion keeps the invariant *)

Lemma observed_triple m K now id field v :
  htriple (good m K) (putObservedValueTx now id field v) (λ _, good m K).
Proof.
  unfold putObservedValueTx, write_observed. eapply tx_triple_bind; [apply triple_lift|]. intros ?. apply triple_pure. intros _.
  do 2 (apply triple_guard_bind; intros _). apply triple_call_bind, triple_guard_bind. intros _.
  apply triple_put. intros s [Hi HK]. split; [by split; [apply observed_ok|]|split; cbn; lia].
Qed.

Lemma delete_relation_triple_ok m (P : Z * ResourceRelation → Prop) `{∀ x, Decision (P x)} s :
  inv_ok m s → inv_ok m (set_relations (filter P) s).
Proof.
  intros []. split; cbn; eauto.
  - intros i r [Hr _]%map_lookup_filter_Some. eauto.
  - intros i r [Hr _]%map_lookup_filter_Some. eauto.
  - intros i j r r' [Hr _]%map_lookup_filter_Some [Hr' _]%map_lookup_filter_Some. eauto.
Qed.
Lemma delete_by_triple_triple m K from to ty : htriple (good m K) (deleteRelationByTripleTx from to ty) (λ _, good m K).
Proof.
  unfold deleteRelationByTripleTx. apply triple_call_bind, triple_get_bind. intros s0. apply triple_guard_bind. intros _.
  apply triple_put. intros s (_ & Hi & HK). split; [by split; [apply delete_relation_triple_ok|]|split; cbn; lia].
Qed.

Lemma rule_allows from to ty :
  validateRelationshipRule from to ty = Ok () → pair_allowed ty (rs_ResourceType from) (rs_ResourceType to).
Proof.
  unfold validateRelationshipRule. destruct (relationshipRules !! ty) as [rule|] eqn:Er; [|done]. intros Hv. res_inv.
  bool_inv. exists rule. split; [done|]. 
  repeat match goal with H : _ || _ = false |- _ => apply orb_false_elim in H as [? ?] end. by bool_inv.
Qed.

Lemma remove_relations_triple m K id l changes : htriple (good m K) (remove_relations id l changes) (λ _, good m K).
Proof.
  revert changes. induction l as [|r l IH]; intros changes; cbn; [apply (tx_triple_ret _ (λ _, good m K))|].
  eapply tx_triple_bind; [apply delete_by_triple_triple|]. intros ?. apply IH.
Qed.
Lemma read_typed id x s : read_resource id s = Some x → rs_ID x = id ∧ typed id (rs_ResourceType x) (db_resources s).
Proof.
  unfold read_resource. destruct (db_resources s !! id) as [r|] eqn:E; [|done]. intros [= <-]. cbn. split; [done|]. by exists r.
Qed.
Lemma add_relations_triple m K now from l changes :
  (∀ rs, K rs → typed (rs_ID from) (rs_ResourceType from) rs) →
  htriple (good m K) (add_relations now from l changes) (λ _, good m K).
Proof.
  intros HK. revert changes. induction l as [|r l IH]; intros changes; cbn; [apply (tx_triple_ret _ (λ _, good m K))|].
  eapply tx_triple_bind; [apply getResourceForUpdate_ok|]. intros to. apply triple_guard_bind. intros _.
  eapply tx_triple_bind; [apply triple_lift|]. intros []. apply triple_pure. intros Hrule. apply rule_allows in Hrule.
  set (K' := λ rs, K rs ∧ typed (ig_TargetID r) (rs_ResourceType to) rs).
  eapply tx_triple_bind.
  - eapply (triple_weaken _ (good m K')); [apply insert_relation_triple|].
    + intros rs [Hs (b & Hb & Etb)]. destruct (HK _ Hs) as (a' & Ha & Eta). exists a', b. cbn. by rewrite Eta, Etb.
    + intros s [[Hi Hs] Hto]. split; [done|]. split; [done|]. by apply read_typed in Hto as [_ ?].
  - intros ?. eapply triple_weaken; [apply IH|]. by intros s [Hi [Hs _]].
Qed.
Lemma ingestion_relations_triple K now id diff changes :
  htriple (good None K) (applyIngestionRelations now id diff changes) (λ _, good None K).
Proof.
  unfold applyIngestionRelations. eapply tx_triple_bind; [apply getResourceForUpdate_ok|]. intros from.
  set (K' := λ rs, K rs ∧ typed (rs_ID from) (rs_ResourceType from) rs).
  eapply (triple_conseq _ (good None K') _ (λ _, good None K')).
  - eapply tx_triple_bind; [apply remove_relations_triple|]. intros c. apply add_relations_triple. by intros rs [_ ?].
  - intros s [[Hi Hs] Hf]. apply read_typed in Hf as [E ?]. subst id. split; [done|]. by split.
  - by intros c s [Hi [Hs _]].
Qed.
Lemma ingestion_profile_triple m K id row diff :
  (∀ rs, K rs → typed id (iw_CIType row) rs) → htriple (good m K) (applyIngestionProfile sprint id row diff) (λ _, good m K).
Proof.
  intros HK. unfold applyIngestionProfile. case_match; [apply (tx_triple_ret tt (λ _, good m K))|].
  destruct (iw_Profile row); [by apply upsert_profile_triple|apply delete_profile_triple].
Qed.
Lemma ingestion_observed_triple m K now id row diff :
  htriple (good m K) (applyIngestionObserved now id row diff) (λ _, good m K).
Proof. apply triple_for_each. intros ? _. apply observed_triple. Qed.

Lemma stable_typed K id ty : stable K → stable (λ rs, K rs ∧ typed id ty rs).
Proof.
  intros [Hc Hu]. split.
  - intros m i r [HK (x & Hx & Ex)] Hn. split; [by apply Hc|]. exists x. split; [|done]. rewrite lookup_insert_ne; congruence.
  - intros m i r r' [HK (x & Hx & Ex)] Hr Ht. split; [by apply (Hu _ _ r)|].
    destruct (insert_kept _ _ _ _ Hr Ht _ _ Hx) as (x' & Hx' & Et). exists x'. by rewrite Et.
Qed.

Lemma stable_snapshots K (l : list IngestionSnapshot) :
  stable K → stable (λ rs, K rs ∧ ∀ x, x ∈ l → typed (sn_ID x) (sn_CIType x) rs).
Proof.
  intros [Hc Hu]. split.
  - intros m i r [HK Ht] Hn. split; [by apply Hc|]. intros y (x & Hx & Ex)%Ht. exists x. split; [|done].
    rewrite lookup_insert_ne; congruence.
  - intros m i r r' [HK Ht] Hr Hty. split; [by apply (Hu _ _ r)|]. intros y (x & Hx & Ex)%Ht.
    destruct (insert_kept _ _ _ _ Hr Hty _ _ Hx) as (x' & Hx' & Et). exists x'. by rewrite Et.
Qed.

(** The loop over the rows: the previews name resources of their rows' types. *)
Definition previews_typed (row : IngestionRow) (p : IngestionPreviewRow) (rs : gmap Z resource_row) : Prop :=
  pr_Action p = PreviewCreate ∨ typed (pr_MatchedID p) (iw_CIType row) rs.

Lemma apply_row_triple K now actor collector row p changes :
  stable K → (∀ rs, K rs → previews_typed row p rs) →
  htriple (good None K) (apply_row sprint now actor collector row p changes) (λ _, good None K).
Proof.
  intros HK Hp. unfold apply_row.
  eapply tx_triple_bind with (R := λ id, good None (λ rs, K rs ∧ typed id (iw_CIType row) rs)).
  - destruct (decide (pr_Action p = PreviewCreate)) as [->|Hne].
    + eapply triple_conseq; [apply (create_resource_triple _ _ _ _ HK)|done|]. intros id s [[Hi Hs] Ht]. by destruct collector.
    + set (m := _ ← (if hasResourceFieldChanges _ then _ else _); _).
      assert (htriple (good None K) m (λ id, good None (λ rs, K rs ∧ typed id (iw_CIType row) rs))) as Hm;
        [|by destruct (pr_Action p)].
      unfold m. eapply tx_triple_bind with (R := λ _, good None K).
      * case_match; [|apply (tx_triple_ret tt (λ _, good None K))]. unfold applyIngestionResourceUpdate.
        apply triple_guard_bind. intros _. eapply tx_triple_bind; [by apply update_resource_triple|]. intros x.
        eapply triple_weaken; [apply (tx_triple_ret tt (λ _, good None K))|]. by intros s [? _].
      * intros ?. eapply triple_weaken; [apply (tx_triple_ret _ (λ id, good None (λ rs, K rs ∧ typed id _ rs)))|].
        intros s [Hi Hs]. split; [done|]. split; [done|]. by destruct (Hp _ Hs).
  - intros id. set (K' := λ rs, K rs ∧ typed id (iw_CIType row) rs).
    eapply tx_triple_bind; [apply (ingestion_profile_triple None K'); by intros rs [_ ?]|]. intros ?.
    eapply tx_triple_bind; [apply ingestion_observed_triple|]. intros ?.
    eapply tx_triple_bind; [apply ingestion_relations_triple|]. intros c.
    eapply triple_weaken; [apply (tx_triple_ret (id, c) (λ _, good None K))|]. by intros s [Hi [Hs _]].
Qed.

Lemma apply_rows_triple K now actor collector rows previews changes :
  stable K → (∀ rs i row p, K rs → rows !! i = Some row → previews !! i = Some p → previews_typed row p rs) →
  htriple (good None K) (apply_rows sprint now actor collector rows previews changes) (λ _, good None K).
Proof.
  intros HK. revert previews changes. induction rows as [|row rows IH]; intros [|p previews] changes Hp; cbn;
    try apply (tx_triple_ret _ (λ _, good None K)).
  eapply tx_triple_bind; [apply apply_row_triple; [done|]; intros rs Hs; by apply (Hp rs 0)|]. intros [id c].
  eapply tx_triple_bind; [apply IH; intros rs i; apply (Hp rs (S i))|]. intros [l c']. apply (tx_triple_ret _ (λ _, good None K)).
Qed.

Lemma ingestion_audits_triple m K actor changes : htriple (good m K) (insertIngestionAudits actor changes) (λ _, good m K).
Proof.
  apply triple_for_each. intros id _. destruct (changes !! id) as [[|c l]|];
    [apply (tx_triple_ret tt (λ _, good m K))|apply audit_triple|apply (tx_triple_ret tt (λ _, good m K))].
Qed.

Definition snapshots_typed (l : list IngestionSnapshot) (rs : gmap Z resource_row) : Prop :=
  ∀ x, x ∈ l → typed (sn_ID x) (sn_CIType x) rs.
Lemma load_snapshots_triple m K ids :
  htriple (good m K) (loadIngestionSnapshots ids) (λ l, good m (λ rs, K rs ∧ snapshots_typed l rs)).
Proof.
  revert K. induction ids as [|id ids IH]; intros K; cbn.
  - eapply triple_weaken; [apply (tx_triple_ret _ (λ l, good m (λ rs, K rs ∧ snapshots_typed l rs)))|].
    intros s [Hi Hs]. split; [done|]. split; [done|]. intros x Hx. by apply not_elem_of_nil in Hx.
  - eapply tx_triple_bind with (R := λ x, good m (λ rs, K rs ∧ typed (sn_ID x) (sn_CIType x) rs)).
    + unfold loadIngestionSnapshot. eapply tx_triple_bind; [apply getResourceForUpdate_ok|]. intros r.
      eapply tx_triple_bind; [apply fetchProfile_triple|]. intros profile. do 2 apply triple_call_bind. apply triple_get_bind. intros s0.
      eapply triple_weaken; [apply (tx_triple_ret _ (λ x, good m (λ rs, K rs ∧ typed (sn_ID x) (sn_CIType x) rs)))|].
      intros s (-> & [Hi Hs] & Hr). apply read_typed in Hr as [E Ht]. subst id. by split; [|split].
    + intros x. eapply tx_triple_bind; [apply IH|]. intros l.
      eapply triple_weaken; [apply (tx_triple_ret _ (λ l, good m (λ rs, K rs ∧ snapshots_typed l rs)))|].
      intros s [Hi [[Hs Hx] Hl]]. split; [done|]. split; [done|]. intros y [->|Hy]%elem_of_cons; auto.
Qed.

Lemma preview_row_typed current i row rs :
  (∀ x, x ∈ current → sn_ID x ≠ 0%Z) → snapshots_typed current rs →
  pr_Action (preview_row current i row) ≠ PreviewConflict → previews_typed row (preview_row current i row) rs.
Proof.
  intros Hz Hs. unfold preview_row, previews_typed. destruct (chooseMatch _) as [chosen [|c l]] eqn:Ec; [|done]. cbn.
  destruct (Z.eqb_spec chosen 0) as [|Hne]; [by left|].
  destruct (chosen_found row current chosen Hz Ec Hne) as (x & Hf & Hx & <-). rewrite Hf.
  destruct (decide (sn_CIType x = iw_CIType row)) as [Ety|Ety].
  - rewrite (bool_decide_eq_true_2 _ Ety). intros _. right. cbn. rewrite <- Ety. by apply Hs.
  - by rewrite (bool_decide_eq_false_2 _ Ety).
Qed.
Lemma confirmable_rows rows current i row p :
  pv_Confirmable (PreviewIngestion fingerprint_text rows current) = true → rows !! i = Some row →
  pv_Rows (PreviewIngestion fingerprint_text rows current) !! i = Some p →
  p = preview_row current i row ∧ pr_Action p ≠ PreviewConflict.
Proof.
  cbn. intros Hc Hrow Hp. rewrite list_lookup_imap, Hrow in Hp. injection Hp as <-. split; [done|].
  rewrite forallb_forall in Hc. specialize (Hc (preview_row current i row)). intros E. 
  rewrite E in Hc. cbn in Hc. discriminate Hc. apply list_elem_of_In, list_elem_of_lookup. exists i.
  by rewrite list_lookup_imap, Hrow.
Qed.

Lemma collector_triple m K e : htriple (good m K) (ClaimCollectorScan e) (λ _, good m K).
Proof. apply core_triple. unfold ClaimCollectorScan, insertCollectorScanLedger, compareCollectorScanRetry, findCollectorScanRetry. frames. Qed.
Lemma confirm_end_triple m K actor machine entry changes (applied : list IngestionPreviewRow) :
  htriple (good m K)
    (match entry with
     | None => insertIngestionAudits actor changes
     | Some e => _ ← insertCollectorIngestionAudits machine changes;
                 tx_map_err mapCollectorScanError (ApplyCollectorScanStates e (pr_MatchedID <$> applied))
     end) (λ _, good m K).
Proof.
  destruct entry as [e|]; [|apply ingestion_audits_triple]. apply core_triple.
  unfold insertCollectorIngestionAudits, write_call, ApplyCollectorScanStates, applyCollectorScanStates, update_state, insert_state,
    apply_scan, write_state. frames.
Qed.

Lemma confirm_rows_triple K now ids rows reviewed actor machine entry :
  stable K → htriple (good None K) (confirm_rows sprint now fingerprint_text ids rows reviewed actor machine entry) (λ _, good None K).
Proof.
  intros HK. unfold confirm_rows. eapply tx_triple_bind; [apply lock_triple|]. intros ?.
  eapply tx_triple_bind; [apply load_snapshots_triple|]. intros current.
  apply triple_guard_bind. intros Hconf. apply triple_guard_bind. intros _. apply negb_false_iff in Hconf.
  set (K' := λ rs, K rs ∧ snapshots_typed current rs).
  eapply (triple_weaken _ (λ s, (∀ x, x ∈ current → sn_ID x ≠ 0%Z) ∧ good None K' s)).
  2: { intros s [Hi Hs]. split; [|done]. intros x Hx. destruct Hs as [_ Ht]. destruct (Ht x Hx) as (r & Hr & _).
       pose proof (ok_ids _ _ Hi _ _ Hr). lia. }
  apply triple_pure. intros Hz. eapply tx_triple_bind.
  { apply (apply_rows_triple K'); [by apply stable_snapshots|].
    intros rs i row p [_ Ht] Hrow Hp. destruct (confirmable_rows _ _ _ _ _ Hconf Hrow Hp) as [-> Hne].
    by apply preview_row_typed. }
  intros [l c]. eapply tx_triple_bind; [apply confirm_end_triple|]. intros ?.
  eapply triple_weaken; [apply (tx_triple_ret _ (λ _, good None K))|]. by intros s [Hi [Hs _]].
Qed.
Lemma confirm_triple K now ids rows reviewed actor machine entry :
  stable K → htriple (good None K) (confirm_body sprint now fingerprint_text ids rows reviewed actor machine entry) (λ _, good None K).
Proof.
  intros HK. unfold confirm_body. eapply tx_triple_bind.
  { destruct entry as [e|]; [|apply (tx_triple_ret true (λ _, good None K))].
    eapply tx_triple_bind; [apply triple_map_err, collector_triple|]. intros [i b]. apply (tx_triple_ret b (λ _, good None K)). }
  intros [].
  - eapply tx_triple_bind; [by apply confirm_rows_triple|]. intros p. apply (tx_triple_ret _ (λ _, good None K)).
  - eapply tx_triple_bind; [apply load_snapshots_triple|]. intros l.
    eapply triple_weaken; [apply (tx_triple_ret _ (λ _, good None K))|]. by intros s [Hi [Hs _]].
Qed.

(** ** The services keep the invariant *)

(** What a state says of the resources stays true of later ones. *)
Definition kept_from (s : inv_db) (rs : gmap Z resource_row) : Prop :=
  ∀ id r, db_resources s !! id = Some r → ∃ r', rs !! id = Some r' ∧ rw_ResourceType r' = rw_ResourceType r.
Lemma stable_kept s : stable (kept_from s).
Proof.
  split.
  - intros m i r HK Hn j x (x' & Hx & Ex)%HK. exists x'. split; [|done]. rewrite lookup_insert_ne; congruence.
  - intros m i r r' HK Hr Ht j x (x' & Hx & Ex)%HK. destruct (insert_kept _ _ _ _ Hr Ht _ _ Hx) as (y & Hy & Ey).
    exists y. split; [done|congruence].
Qed.
Definition keeps (s s' : inv_db) : Prop := inv_wf s' ∧ types_kept s s'.
Lemma keeps_refl s : inv_wf s → keeps s s.
Proof. by split. Qed.

Lemma tx_keeps {A} (body : tx A) faults end_ s K :
  inv_wf s → K (db_resources s) → (∀ rs, K rs → kept_from s rs) →
  htriple (good None K) body (λ _, good None K) → keeps s (in_tx body faults end_ s).2.
Proof.
  intros Hi HK Hks Ht. destruct (in_tx body faults end_ s) as [r s'] eqn:E.
  destruct (in_tx_outcome _ _ _ _ _ _ _ _ Ht (conj Hi HK) E) as [(a & [Hi' HK'] & _)|(e & s2 & -> & -> & Hc)].
  - split; [done|]. by apply Hks.
  - by apply rolled_back_ok.
Qed.
Lemma tx_keeps_stable {A} (body : tx A) faults end_ s :
  inv_wf s → (∀ K, stable K → htriple (good None K) body (λ _, good None K)) → keeps s (in_tx body faults end_ s).2.
Proof. intros Hi Ht. apply (tx_keeps _ _ _ _ (kept_from s)); [done|by apply types_kept_preorder|done|]. apply Ht, stable_kept. Qed.
Lemma tx_early_keeps {A} (body : tx (A * bool)) faults end_ s :
  inv_wf s → (∀ K, stable K → htriple (good None K) body (λ _, good None K)) → keeps s (in_tx_early body faults end_ s).2.
Proof.
  intros Hi Ht. destruct (in_tx_early body faults end_ s) as [r s'] eqn:E.
  destruct (in_tx_early_outcome _ _ _ _ _ _ _ _ (Ht _ (stable_kept s)) (conj Hi (reflexivity s : types_kept s s)) E)
    as [(a & [Hi' HK'] & _)|(s2 & -> & Hc & _)]; [by split|by apply rolled_back_ok].
Qed.
(** With a resource whose type was read from an earlier state. *)
Lemma tx_keeps_typed {A} (body : tx A) faults end_ snap s id ty :
  inv_wf s → types_kept snap s → typed id ty (db_resources snap) →
  (∀ K, stable K → (∀ rs, K rs → typed id ty rs) → htriple (good None K) body (λ _, good None K)) →
  keeps s (in_tx body faults end_ s).2.
Proof.
  intros Hi Hk (r & Hr & Et) Ht. apply (tx_keeps _ _ _ _ (λ rs, kept_from s rs ∧ typed id ty rs)); [done| |by intros rs [? _]|].
  - split; [by apply types_kept_preorder|]. destruct (Hk _ _ Hr) as (r' & Hr' & Et'). exists r'. split; [done|congruence].
  - apply Ht; [apply stable_typed, stable_kept|by intros rs [_ ?]].
Qed.

Lemma read_back_state fails r : (read_back fails r).2 = r.2.
Proof. by destruct r as [[?|?] ?]. Qed.
Lemma as_id_state id r : (as_id id r).2 = r.2.
Proof. by destruct r as [[?|?] ?]. Qed.

Lemma create_keeps f input s : inv_wf s → keeps s (ResourceService_Create sprint label_message f input s).2.
Proof.
  intros Hi. unfold ResourceService_Create. destruct (validateResourceCreateInput _ _ _); [|by apply keeps_refl].
  destruct (validateReferenceIDs _ _); [|by apply keeps_refl]. rewrite read_back_state. apply tx_keeps_stable; [done|].
  intros K HK. eapply triple_conseq; [by apply create_resource_triple|done|]. by intros id s' [? _].
Qed.
Lemma update_keeps snap rf f id patch s : inv_wf s → keeps s (ResourceService_Update sprint label_message snap rf f id patch s).2.
Proof.
  intros Hi. unfold ResourceService_Update. destruct (validateUpdate _ _ _ _ _ _); [|by apply keeps_refl].
  rewrite read_back_state, as_id_state. apply tx_keeps_stable; [done|]. intros K HK.
  eapply tx_triple_bind; [by apply update_resource_triple|]. intros x.
  eapply triple_weaken; [apply (tx_triple_ret tt (λ _, good None K))|]. by intros s' [? _].
Qed.
Lemma update_inventory_keeps snap rf f actor id patch s :
  inv_wf s → keeps s (UpdateInventory sprint label_message snap rf f actor id patch s).2.
Proof.
  intros Hi. unfold UpdateInventory. case_match; [by apply keeps_refl|].
  destruct (validateUpdate _ _ _ _ _ _); [|by apply keeps_refl].
  rewrite read_back_state, as_id_state. apply tx_keeps_stable; [done|]. intros K HK.
  eapply tx_triple_bind; [by apply update_resource_triple|]. intros x.
  eapply triple_weaken; [apply audit_triple|]. by intros s' [? _].
Qed.

Lemma set_archived_keeps id at_ s : inv_wf s → keeps s (set_archived id at_ s).
Proof.
  intros Hi. unfold set_archived. destruct (db_resources s !! id) as [r|] eqn:Er; [|by apply keeps_refl].
  case_match; [by apply keeps_refl|]. set (r' := ResourceRow _ _ _ _ _ _ _ _ _ _ _).
  split; [|intros j x Hx; by apply (insert_kept _ _ r' _ Er)].
  eapply (settle _ id (rw_EnvironmentID r) r'); [done| | |done]; [|by cbn; rewrite lookup_insert_eq].
  apply update_resource_ok; [done|done|done|]. unfold name_conflicts. apply bool_decide_eq_false.
  intros (j & x & Hx & Hne & Hn & He & Hty). apply Hne. eapply (ok_names _ _ Hi j id x r); [done|done|].
  unfold name_key. rewrite same_text_weight in Hn, Hty. unfold r' in *. cbn in *. congruence.
Qed.
Lemma run_update_keeps end_ f s : inv_wf s → keeps s (f s) → keeps s (run_update end_ f s).2.
Proof. intros Hi Hf. destruct end_; cbn; [done|by apply keeps_refl|done]. Qed.
Lemma change_archived_keeps now want snap rf f id s : inv_wf s → keeps s (change_archived now want snap rf f id s).2.
Proof.
  intros Hi. unfold change_archived. destruct (read_or _ _); [|by apply keeps_refl]. case_match; [by apply keeps_refl|].
  rewrite read_back_state, as_id_state. by apply run_update_keeps, set_archived_keeps.
Qed.

Lemma mutate_profile_triple K id ty fields actor event mutation :
  (∀ rs, K rs → typed id ty rs) →
  htriple (good None K) (mutateProfileWithAudit sprint id ty fields actor event mutation) (λ _, good None K).
Proof.
  intros HK. unfold mutateProfileWithAudit.
  eapply tx_triple_bind; [eapply triple_conseq; [apply getResourceForUpdate_ok|done|]; intros x s [Hg _]; exact Hg|]. intros x.
  eapply tx_triple_bind; [apply fetchProfile_triple|]. intros before. eapply tx_triple_bind.
  { destruct mutation; [by apply upsert_profile_triple|by apply patch_profile_triple|apply delete_profile_triple]. }
  intros ?. eapply tx_triple_bind; [apply fetchProfile_triple|]. intros after. apply audit_triple.
Qed.
Lemma read_or_typed snap rf id x :
  read_or ErrResourceNotFound (fetch rf (read_resource id snap)) = Ok x → rs_ID x = id ∧ typed id (rs_ResourceType x) (db_resources snap).
Proof. destruct rf; [done|]. cbn. destruct (read_resource id snap) as [y|] eqn:E; [|done]. intros [= <-]. by apply read_typed. Qed.
Lemma target_typed snap rf id fields full x fields' :
  inventoryProfileTarget snap rf id fields full = Ok (x, fields') → typed id (rs_ResourceType x) (db_resources snap).
Proof.
  unfold inventoryProfileTarget. intros Hx. res_inv. 
  match goal with E : read_or _ _ = Ok _ |- _ => by apply read_or_typed in E as [_ ?] end.
Qed.
Lemma put_profile_keeps snap rf f actor id fields s :
  inv_wf s → types_kept snap s → keeps s (PutProfileInventory sprint snap rf f actor id fields s).2.
Proof.
  intros Hi Hk. unfold PutProfileInventory. destruct (inventoryProfileTarget _ _ _ _ _) as [[x fs]|] eqn:E; [|by apply keeps_refl].
  apply target_typed in E. eapply tx_keeps_typed; [done|done|done|]. intros K _ HK. by apply mutate_profile_triple.
Qed.
Lemma patch_profile_keeps snap rf f actor id fields s :
  inv_wf s → types_kept snap s → keeps s (PatchProfileInventory sprint snap rf f actor id fields s).2.
Proof.
  intros Hi Hk. unfold PatchProfileInventory. destruct (inventoryProfileTarget _ _ _ _ _) as [[x fs]|] eqn:E; [|by apply keeps_refl].
  case_match; [by apply keeps_refl|]. apply target_typed in E. eapply tx_keeps_typed; [done|done|done|].
  intros K _ HK. by apply mutate_profile_triple.
Qed.
Lemma delete_profile_keeps snap rf f actor id s :
  inv_wf s → types_kept snap s → keeps s (DeleteProfileInventory sprint snap rf f actor id s).2.
Proof.
  intros Hi Hk. unfold DeleteProfileInventory. case_match eqn:E; [|by apply keeps_refl]. res_inv.
  match goal with E : read_or _ _ = Ok _ |- _ => apply read_or_typed in E as [_ Ht] end.
  eapply tx_keeps_typed; [done|done|done|]. intros K _ HK. by apply mutate_profile_triple.
Qed.

(** The checks of a relation's creation, on resources of two earlier states. *)
Lemma check_create_allows snap_from snap_to f1 f2 from input input' :
  check_create (fetch f1 (read_resource from snap_from)) (fetch f2 (read_resource (ri_ToResourceID input) snap_to)) from input = Ok input' →
  ∃ a b, typed (ri_FromResourceID input') a (db_resources snap_from) ∧ typed (ri_ToResourceID input') b (db_resources snap_to)
    ∧ pair_allowed (ri_RelationType input') a b.
Proof.
  unfold check_create. intros Hc. res_inv. unit_inv. cbn.
  repeat match goal with E : read_or _ _ = Ok _ |- _ => apply read_or_typed in E as [? ?] end.
  match goal with E : validateRelationshipRule _ _ _ = Ok _ |- _ => apply rule_allows in E end. eauto.
Qed.

Lemma relation_body_keeps {A} snap_from snap_to i a b (body : tx A) faults end_ s :
  inv_wf s → types_kept snap_from s → types_kept snap_to s →
  typed (ri_FromResourceID i) a (db_resources snap_from) → typed (ri_ToResourceID i) b (db_resources snap_to) →
  pair_allowed (ri_RelationType i) a b →
  (∀ K, (∀ rs, K rs → ends_allowed i rs) → htriple (good None K) body (λ _, good None K)) →
  keeps s (in_tx body faults end_ s).2.
Proof.
  intros Hi Hkf Hkt (ra & Ha & Ea) (rb & Hb & Eb) Hp Ht.
  apply (tx_keeps _ _ _ _ (λ rs, kept_from s rs ∧ ends_allowed i rs)); [done| |by intros rs [? _]|apply Ht; by intros rs [_ ?]].
  split; [by apply types_kept_preorder|]. destruct (Hkf _ _ Ha) as (ra' & Ha' & Ea'), (Hkt _ _ Hb) as (rb' & Hb' & Eb').
  exists ra', rb'. split; [done|]. split; [done|]. by rewrite Ea', Eb', Ea, Eb.
Qed.
Lemma relation_create_keeps now snap_from snap_to f actor from input s :
  inv_wf s → types_kept snap_from s → types_kept snap_to s → keeps s (create now snap_from snap_to f actor from input s).2.
Proof.
  intros Hi Hkf Hkt. unfold create. destruct (check_create _ _ _ _) as [i|] eqn:E; [|by apply keeps_refl].
  apply check_create_allows in E as (a & b & Ha & Hb & Hp).
  case_match; (eapply relation_body_keeps; [exact Hi|exact Hkf|exact Hkt|exact Ha|exact Hb|exact Hp|]; intros K HK).
  - eapply tx_triple_bind; [apply lock_triple|]. intros ?. by apply insert_relation_triple.
  - eapply tx_triple_bind; [eapply tx_triple_bind; [apply lock_triple|]; intros ?; by apply insert_relation_triple|]. intros r.
    eapply tx_triple_bind; [apply audit_both_triple|]. intros ?. apply (tx_triple_ret _ (λ _, good None K)).
Qed.
Lemma delete_body_triple K id r : htriple (good None K) (delete_body id r) (λ _, good None K).
Proof. eapply tx_triple_bind; [apply lock_triple|]. intros ?. apply delete_row_triple. Qed.
Lemma relation_delete_keeps snap f id s : inv_wf s → keeps s (RelationService_Delete snap f id s).2.
Proof.
  intros Hi. unfold RelationService_Delete. case_match; [by apply keeps_refl|]. destruct (read_or _ _); [|by apply keeps_refl].
  apply tx_keeps_stable; [done|]. intros K _. apply delete_body_triple.
Qed.
Lemma relation_delete_inventory_keeps snap f actor id s : inv_wf s → keeps s (DeleteInventory snap f actor id s).2.
Proof.
  intros Hi. unfold DeleteInventory. do 2 (match goal with |- keeps _ (if ?b then _ else _).2 => destruct b; [by apply keeps_refl|] end). destruct (read_or _ _); [|by apply keeps_refl].
  apply tx_keeps_stable; [done|]. intros K _. eapply tx_triple_bind; [apply delete_body_triple|]. intros ?. apply audit_both_triple.
Qed.
Lemma confirm_ingestion_keeps now snap f rows reviewed actor machine entry s :
  inv_wf s → keeps s (confirmIngestion sprint now fingerprint_text snap f rows reviewed actor machine entry s).2.
Proof.
  intros Hi. unfold confirmIngestion. case_match; [by apply keeps_refl|]. apply tx_early_keeps; [done|]. intros K HK. by apply confirm_triple.
Qed.
Ltac early_returns := repeat match goal with |- keeps _ (if ?b then _ else _).2 => destruct b; [by apply keeps_refl|] end.
Lemma confirm_keeps now snap f actor rows reviewed s :
  inv_wf s → keeps s (ConfirmIngestion sprint now fingerprint_text snap f actor rows reviewed s).2.
Proof. intros Hi. unfold ConfirmIngestion. early_returns. by apply confirm_ingestion_keeps. Qed.
Lemma confirm_collector_keeps now completed snap f principal rows reviewed metadata s :
  inv_wf s → keeps s (ConfirmCollectorIngestion sprint now fingerprint_text rows_text completed snap f principal rows reviewed metadata s).2.
Proof.
  intros Hi. unfold ConfirmCollectorIngestion, repository_ConfirmCollectorIngestion. early_returns.
  destruct (collectorIngestionPayloadHash _ _ _); [by apply confirm_ingestion_keeps|by apply keeps_refl].
Qed.

(** What is observed of a resource, and its overrides, are tables of their own. *)
Lemma core_tx_keeps {A} (body : tx A) faults end_ s : keeps_view core body → inv_wf s → keeps s (in_tx body faults end_ s).2.
Proof. intros Hb Hi. apply tx_keeps_stable; [done|]. intros K _. by apply core_triple. Qed.
Lemma set_override_keeps f actor id field value expected s : inv_wf s → keeps s (SetManualOverride f actor id field value expected s).2.
Proof.
  intros Hi. unfold SetManualOverride, SetManualOverrideWithAudit. early_returns. case_match; [|by apply keeps_refl].
  apply core_tx_keeps; [|done]. unfold set_override_body, insertInventoryAuditTx, getResourceForUpdate, write_call. frames.
Qed.
Lemma clear_override_keeps f actor id field expected s : inv_wf s → keeps s (ClearManualOverride f actor id field expected s).2.
Proof.
  intros Hi. unfold ClearManualOverride, ClearManualOverrideWithAudit. early_returns. case_match; [|by apply keeps_refl].
  apply core_tx_keeps; [|done]. unfold clear_override_body, insertInventoryAuditTx, getResourceForUpdate, write_call. frames.
Qed.
Lemma observe_values_keeps now f id source values s : inv_wf s → keeps s (PutObservedValues now f id source values s).2.
Proof.
  intros Hi. unfold PutObservedValues. early_returns. apply core_tx_keeps; [|done].
  unfold put_observed_body, write_observed, getResourceForUpdate. frames.
Qed.
Lemma observe_health_keeps snap rf end_ id o s : inv_wf s → keeps s (ObserveHealth snap rf end_ id o s).2.
Proof.
  intros Hi. unfold ObserveHealth, UpsertHealthObservation. do 2 (case_match; [|by apply keeps_refl]).
  apply run_update_keeps; [done|]. split; [by apply (core_ok None s)|]. by intros j r Hr; exists r.
Qed.

(** ** Histories *)

(** One operation of a service. [past] holds every state so far, the current one
    included: what is read before a transaction may come from any of them. *)
Inductive inventory_step (past : list inv_db) (s : inv_db) : inv_db → Prop :=
  | step_create f input : inventory_step past s (ResourceService_Create sprint label_message f input s).2
  | step_update snap rf f id patch : snap ∈ past →
      inventory_step past s (ResourceService_Update sprint label_message snap rf f id patch s).2
  | step_update_inventory snap rf f actor id patch : snap ∈ past →
      inventory_step past s (UpdateInventory sprint label_message snap rf f actor id patch s).2
  | step_archive now snap rf f id reason : snap ∈ past → inventory_step past s (Archive now snap rf f id reason s).2
  | step_unarchive now snap rf f id : snap ∈ past → inventory_step past s (Unarchive now snap rf f id s).2
  | step_put_profile snap rf f actor id fields : snap ∈ past →
      inventory_step past s (PutProfileInventory sprint snap rf f actor id fields s).2
  | step_patch_profile snap rf f actor id fields : snap ∈ past →
      inventory_step past s (PatchProfileInventory sprint snap rf f actor id fields s).2
  | step_delete_profile snap rf f actor id : snap ∈ past →
      inventory_step past s (DeleteProfileInventory sprint snap rf f actor id s).2
  | step_relate now snap_from snap_to f actor from input : snap_from ∈ past → snap_to ∈ past →
      inventory_step past s (CreateInventory now snap_from snap_to f actor from input s).2
  | step_unrelate snap f id : snap ∈ past → inventory_step past s (RelationService_Delete snap f id s).2
  | step_unrelate_inventory snap f actor id : snap ∈ past → inventory_step past s (DeleteInventory snap f actor id s).2
  | step_ingest now snap f actor rows reviewed : snap ∈ past →
      inventory_step past s (ConfirmIngestion sprint now fingerprint_text snap f actor rows reviewed s).2
  | step_collect now completed snap f principal rows reviewed metadata : snap ∈ past →
      inventory_step past s
        (ConfirmCollectorIngestion sprint now fingerprint_text rows_text completed snap f principal rows reviewed metadata s).2
  | step_set_override f actor id field value expected : inventory_step past s (SetManualOverride f actor id field value expected s).2
  | step_clear_override f actor id field expected : inventory_step past s (ClearManualOverride f actor id field expected s).2
  | step_observe_values now f id source values : inventory_step past s (PutObservedValues now f id source values s).2
  | step_observe_health snap rf end_ id o : snap ∈ past → inventory_step past s (ObserveHealth snap rf end_ id o s).2.

(** The states of a history, the latest first. *)
Inductive history : list inv_db → Prop :=
  | history_start : history [empty_inventory]
  | history_step s past s' : history (s :: past) → inventory_step (s :: past) s s' → history (s' :: s :: past).

Lemma step_keeps past s s' :
  inventory_step past s s' → inv_wf s → (∀ snap, snap ∈ past → types_kept snap s) → keeps s s'.
Proof.
  intros Hstep Hi Hp. destruct Hstep.
  - by apply create_keeps.
  - by apply update_keeps.
  - by apply update_inventory_keeps.
  - unfold Archive. case_match; [by apply change_archived_keeps|by apply keeps_refl].
  - unfold Unarchive. case_match; [by apply keeps_refl|by apply change_archived_keeps].
  - apply put_profile_keeps; auto.
  - apply patch_profile_keeps; auto.
  - apply delete_profile_keeps; auto.
  - apply relation_create_keeps; auto.
  - by apply relation_delete_keeps.
  - by apply relation_delete_inventory_keeps.
  - by apply confirm_keeps.
  - by apply confirm_collector_keeps.
  - by apply set_override_keeps.
  - by apply clear_override_keeps.
  - by apply observe_values_keeps.
  - by apply observe_health_keeps.
Qed.

Lemma history_keeps l : history l → ∀ s past, l = s :: past → inv_wf s ∧ ∀ snap, snap ∈ l → types_kept snap s.
Proof.
  induction 1 as [|s past s' Hh IH Hstep]; intros t q [= <- <-].
  - split; [apply empty_inventory_wf|]. intros snap ->%list_elem_of_singleton. done.
  - destruct (IH s past eq_refl) as [Hi Hk]. destruct (step_keeps _ _ _ Hstep Hi Hk) as [Hi' Hk'].
    split; [done|]. intros snap [->|Hin]%elem_of_cons; [done|]. etrans; [by apply Hk|done].
Qed.

End runs.

(** ** A history *)

#[local] Instance sample_text : MySQLText := {| weight := ascii_lower; alias_check := λ _, true; identifier_check := λ _ _, true |}.
#[local] Instance sample_lower : UnicodeLower := ascii_lower.
#[local] Instance sample_conversion : FloatConversion := λ _, 0%Z.
#[local] Instance sample_times : DbTime := λ t, t.

Definition sample_input (resourceType subtype name : bytes) (aliases : list bytes) (profile : gfields) : ResourceCreateInput :=
  CreateInput resourceType subtype name name 1 1 LifecycleStatusRunning HealthStatusUnknown (gs "manual") aliases [] [] [] ∅ (Some profile).
Definition sample_host : ResourceCreateInput :=
  sample_input ResourceTypeHost (gs "vm") (gs "db-1") [gs "Primary"] (fields_of [("hostname", GString (gs "db-1")); ("ipAddress", GString (gs "10.0.0.1"))]%string).
Definition sample_instance : ResourceCreateInput :=
  sample_input ResourceTypeDatabaseInstance (gs "mysql") (gs "mysql-1") [gs "orders"]
    (fields_of [("engine", GString (gs "mysql")); ("host", GString (gs "10.0.0.1")); ("port", GInt 3306)]%string).
Definition sample_relation : RelationCreateInput := RelationInput 2 1 RelationTypeRunsOn.
(** A host, an instance, and the relation between them. *)
Definition after_host : inv_db := (ResourceService_Create (λ _, []) (λ _, []) no_faults sample_host empty_inventory).2.
Definition after_instance : inv_db := (ResourceService_Create (λ _, []) (λ _, []) no_faults sample_instance after_host).2.
Definition after_relation : inv_db :=
  (CreateInventory 7 after_instance after_instance (RelationFaults false false false [] Committed) 1 2 sample_relation after_instance).2.


(** ** A confirmation *)

Definition sample_row : IngestionRow :=
  Row 1 ResourceTypeService (gs "billing") (gs "Billing") [gs "pay"] [] (Some (fields_of [("systemName", GString (gs "billing"))]%string))
    {[gs "displayName" := Observed (gs "cmdb") (GString (gs "Billing"))]} [IngestRelation RelationTypeRunsOn 1].
Definition sample_preview : IngestionPreview := PreviewIngestion (λ _ _, []) [sample_row] [].
(** The service joins the inventory of the host, and runs on it. *)
Definition ingested : result inventory_error IngestionPreview * inv_db :=
  ConfirmIngestion (λ _, []) 9 (λ _ _, []) after_host (ConfirmFaults false [] Committed) 7 [sample_row] (pv_Fingerprint sample_preview) after_host.
Definition ingested_preview : IngestionPreview := match ingested.1 with Ok p => p | Err _ => Preview false [] [] end.



(** ** A preview, a batch *)

(** One snapshot matches the row by its alias, the other by its name: a conflict. *)
Definition sample_snapshots : list IngestionSnapshot :=
  [ Snapshot 4 1 ResourceTypeService (gs "payments") (gs "Payments") [gs "pay"] [] ∅ ∅ [];
    Snapshot 5 1 ResourceTypeService (gs "billing") (gs "Billing") [] [] ∅ ∅ [] ].
Lemma preview_exact_witness :
  pr_Action <$> pv_Rows (PreviewIngestion (λ _ _, []) [sample_row] sample_snapshots) = [PreviewConflict]
  ∧ classified_row sample_snapshots sample_row (preview_row sample_snapshots 0 sample_row).
Proof.
  split; [vm_compute; reflexivity|].
  destruct (preview_exact (λ _ _, []) [sample_row] sample_snapshots) as (_ & Hrow & _).
  - intros s [->|[->|Hs]%elem_of_cons]%elem_of_cons; [done|done|]. by apply elem_of_nil in Hs.
  - by apply (Hrow 0).
Defined.

Lemma parse_bounded_witness :
  let csv := λ _, ([], true) in
  let one (payload : bytes) := Some [payload] in
  ParseIngestion csv one (λ _, Some sample_row) (λ _, None) (λ _, None) (λ _, None) (λ _, None) (λ _, None) (λ _, []) (gs "JSON ") (gs "{}")
    = Some [sample_row]
  ∧ length [sample_row] ≤ MaxIngestionRows ∧ NoDup ([sample_row] ≫= rowIdentityKeys).
Proof.
  intros csv one. match goal with |- ?H ∧ _ => assert H as Hp by (vm_compute; reflexivity) end.
  split; [exact Hp|]. destruct (parse_bounded _ _ _ _ _ _ _ _ _ _ _ _ Hp) as (Hl & _ & Hd). by split.
Defined.

(** ** Registrations, profiles *)

Definition registered_host : result inventory_error Resource * inv_db :=
  ResourceService_Create (λ _, []) (λ _, []) no_faults sample_host empty_inventory.
Lemma registered_well_witness : ∃ r, registered_host.1 = Ok r ∧ rs_Aliases r = [gs "primary"] ∧ well_registered r.
Proof.
  destruct registered_host as [[r|e] s'] eqn:E; [|vm_compute in E; discriminate E]. exists r. split; [done|]. split.
  - vm_compute in E. injection E as <- <-. reflexivity.
  - eapply (registered_well (λ _, []) (λ _, [])). exact E.
Defined.

Definition bad_aliases : list bytes := [gs "primary"; gs "Not Friendly!"].
Lemma registration_drops_aliases_witness :
  normalizeAliases bad_aliases = None
  ∧ rs_Aliases <$> (ResourceService_Create (λ _, []) (λ _, []) no_faults (with_aliases bad_aliases sample_host) empty_inventory).1 = Ok []
  ∧ ResourceService_Create (λ _, []) (λ _, []) no_faults (with_aliases bad_aliases sample_host) empty_inventory
    = ResourceService_Create (λ _, []) (λ _, []) no_faults (with_aliases [] (with_aliases bad_aliases sample_host)) empty_inventory.
Proof.
  assert (normalizeAliases bad_aliases = None) as Hn by (vm_compute; reflexivity).
  split; [exact Hn|]. split; [vm_compute; reflexivity|].
  apply (proj1 (registration_drops_aliases (λ _, []) (λ _, []) bad_aliases Hn)). reflexivity.
Defined.

Lemma imports_bypass_registration_witness :
  ResourceType_Validate (iw_CIType sample_row) = true
  ∧ is_ok (ResourceService_Create (λ _, []) (λ _, []) no_faults (ingestionCreateInput sample_row 7) after_host).1 = false
  ∧ (λ r, (rw_OwnerID r, rw_ResourceSubtype r)) <$> db_resources ingested.2 !! 2%Z = Some (7%Z, []).
Proof.
  split; [vm_compute; reflexivity|]. split; [|vm_compute; reflexivity].
  apply (imports_bypass_registration (λ _, []) (λ _, []) sample_row 7). vm_compute. reflexivity.
Defined.

Definition sample_fields : gfields := fields_of [("engine", GString (gs "mysql")); ("port", GNumber (gs "3306"))]%string.
Definition sample_profile : profile_row := InstanceProfile (gs "pg") (gs "16") (gs "h") 5432 [].
Lemma profile_round_trip_witness :
  upsertProfileTx (λ _, []) ResourceTypeDatabaseInstance sample_fields = Some (InstanceProfile (gs "mysql") [] [] 3306 [])
  ∧ patchProfile (λ _, []) ResourceTypeDatabaseInstance sample_fields (Some sample_profile)
    = Some (InstanceProfile (gs "mysql") (gs "16") (gs "h") 3306 [])
  ∧ ∃ specs put patched, row_written specs sample_fields None put ∧ row_written specs sample_fields (Some sample_profile) patched.
Proof.
  split; [vm_compute; reflexivity|]. split; [vm_compute; reflexivity|].
  destruct (profile_round_trip (λ _, []) ResourceTypeDatabaseInstance sample_fields false sample_fields (Some sample_profile))
    as (specs & put & patched & _ & _ & _ & Hp & _ & Hq); [vm_compute; reflexivity|by intros r [= <-]|]. by exists specs, put, patched.
Defined.
