(* ===== verification/CollectorRuns.v ===== *)
(** * Collectors over time

    What the tables of collector scans hold after any history of the services:
    a scan counts once, in the order of the ledger, and each collector's row of a
    resource is what its scans say (CollectorScan). *)
From S2P Require Import Prelude GoText GoAny Sha256 Inventory Profiles InventoryDb ResourceStore CollectorScan Relations InventoryInvariant InventoryOps Resources Ingestion IngestionStore IngestionConfirm EffectiveValues InventoryRuns.

Lemma triple_for_each_prefix {A} (I : list A → inv_db → Prop) (f : A → tx ()) l :
  (∀ l1 x l2, l = l1 ++ x :: l2 → htriple (I l1) (f x) (λ _, I (l1 ++ [x]))) → htriple (I []) (tx_for_each f l) (λ _, I l).
Proof.
  intros Hf. change (htriple (I []) (tx_for_each f l) (λ _, I ([] ++ l))). 
  cut (∀ l2 l1, l = l1 ++ l2 → htriple (I l1) (tx_for_each f l2) (λ _, I (l1 ++ l2))); [intros H; by apply H|].
  induction l2 as [|x l2 IH]; intros l1 E; cbn [tx_for_each].
  - rewrite app_nil_r. apply (tx_triple_ret tt (λ _, I l1)).
  - eapply tx_triple_bind; [by apply (Hf l1 x l2)|]. intros ?. specialize (IH (l1 ++ [x])).
    rewrite <- app_assoc in IH. by apply IH.
Qed.

Lemma compact_elem x l : x ∈ compact l ↔ x ∈ l.
Proof.
  induction l as [|y [|z l] IH]; [done|done|]. cbn [compact]. destruct (Z.eqb_spec y z) as [->|]; rewrite ?IH; set_solver.
Qed.

Section rows.
Context `{DbTime} (store_time_idem : ∀ t, store_time (store_time t) = store_time t).

(** ** One scan on the rows *)

(** A row as the program writes it. *)
Definition row_clean (p r : Z) (row : ci_state_row) : Prop := stored_row (state_of p r row) = row.
Definition rows_clean (m : gmap (Z * Z) ci_state_row) : Prop := ∀ p r row, m !! (p, r) = Some row → row_clean p r row.
Lemma stored_row_clean st : row_clean (cc_MachinePrincipalID st) (cc_ResourceID st) (stored_row st).
Proof using store_time_idem.
  unfold row_clean, stored_row, state_of. cbn. f_equal.
  - destruct (decide (cc_LastCompletedScanID st = [])) as [E|E]; [by rewrite E|].
    rewrite (bool_decide_eq_false_2 _ E). cbn. by rewrite (bool_decide_eq_false_2 _ E).
  - destruct (cc_MissingSince st); cbn; [|done]. by rewrite store_time_idem.
Qed.

Definition next_row (p r : Z) (scan : CollectorScan) (seen : bool) (row : option ci_state_row) : option ci_state_row :=
  match row with
  | Some row => match ApplyCollectorScan (state_of p r row) scan seen with Ok st => Some (stored_row st) | Err _ => Some row end
  | None => if seen then match ApplyCollectorScan (unseen_state p r) scan true with Ok st => Some (stored_row st) | Err _ => None end
            else None
  end.
(** The rows of [p] have taken the scan, the others are as they were. *)
Definition scanned (p : Z) (scan : CollectorScan) (seen : list Z) (m m' : gmap (Z * Z) ci_state_row) : Prop :=
  ∀ q r, m' !! (q, r) = if decide (q = p) then next_row p r scan (bool_decide (r ∈ seen)) (m !! (p, r)) else m !! (q, r).

Lemma apply_keys st scan seen st' :
  ApplyCollectorScan st scan seen = Ok st' → cc_MachinePrincipalID st' = cc_MachinePrincipalID st ∧ cc_ResourceID st' = cc_ResourceID st.
Proof. destruct st. unfold ApplyCollectorScan. intros E. by repeat (case_match; try discriminate E; try injection E as <-). Qed.
Lemma first_check_supported scan st : ApplyCollectorScan (CIState 0 0 0 [] [] None) scan false = Ok st → supported scan.
Proof.
  unfold ApplyCollectorScan. destruct (_ || _) eqn:E1; [done|]. apply orb_false_elim in E1 as [E1 E2].
  apply bool_decide_eq_false in E1. apply Z.eqb_neq in E2. case_bool_decide; [|done]. by intros _.
Qed.

Lemma locked_states_elem p s st :
  length (locked_states p s) ≤ maxCollectorStateEntries →
  st ∈ locked_states p s ↔ ∃ row, db_ci_states s !! (p, cc_ResourceID st) = Some row ∧ st = state_of p (cc_ResourceID st) row.
Proof.
  unfold locked_states. intros Hl. rewrite length_take in Hl. rewrite take_ge by lia. rewrite sort_slice_perm, list_elem_of_fmap. split.
  - intros ([[q r] row] & -> & [Hq Hin]%list_elem_of_filter). cbn in Hq. subst q. apply elem_of_map_to_list in Hin.
    exists row. by split.
  - intros (row & Hrow & E). exists ((p, cc_ResourceID st), row). split; [done|]. apply list_elem_of_filter. split; [done|].
    by apply elem_of_map_to_list.
Qed.

(** Rows already taken over, the others still as they were. *)
Definition partly (p : Z) (scan : CollectorScan) (seen : list Z) (m0 : gmap (Z * Z) ci_state_row) (done_ : list Z) (s : inv_db) : Prop :=
  ∀ q r, db_ci_states s !! (q, r)
         = if decide (q = p ∧ r ∈ done_) then next_row p r scan (bool_decide (r ∈ seen)) (m0 !! (p, r)) else m0 !! (q, r).
Lemma write_partly p scan seen m0 l1 st :
  cc_MachinePrincipalID st = p → next_row p (cc_ResourceID st) scan (bool_decide (cc_ResourceID st ∈ seen)) (m0 !! (p, cc_ResourceID st)) = Some (stored_row st) →
  htriple (partly p scan seen m0 l1) (write_state st) (λ _, partly p scan seen m0 (l1 ++ [cc_ResourceID st])).
Proof.
  intros Hp Hn. unfold write_state. apply triple_call_bind, triple_guard_bind. intros _. apply triple_put.
  intros s Hs. split; [|by split]. intros q r. cbn. unfold state_key. rewrite Hp.
  destruct (decide ((q, r) = (p, cc_ResourceID st))) as [[= -> ->]|Hne].
  - rewrite lookup_insert_eq, decide_True by (split; [done|set_solver]). done.
  - rewrite lookup_insert_ne, (Hs q r) by congruence. apply decide_ext. rewrite elem_of_app, list_elem_of_singleton. 
    split; [tauto|]. intros [-> [?| ->]]; [done|congruence].
Qed.
Lemma skip_partly p scan seen m0 l1 r :
  next_row p r scan (bool_decide (r ∈ seen)) (m0 !! (p, r)) = m0 !! (p, r) →
  htriple (partly p scan seen m0 l1) (mret tt) (λ _, partly p scan seen m0 (l1 ++ [r])).
Proof.
  intros Hn. eapply triple_weaken; [apply (tx_triple_ret tt (λ _, partly p scan seen m0 (l1 ++ [r])))|]. intros s Hs q r'.
  rewrite (Hs q r'). destruct (decide (q = p ∧ r' = r)) as [[-> ->]|Hne].
  - rewrite (decide_True (P := p = p ∧ r ∈ l1 ++ [r])) by (split; [done|set_solver]).
    destruct (decide (p = p ∧ r ∈ l1)); [done|by rewrite Hn].
  - apply decide_ext. rewrite elem_of_app, list_elem_of_singleton. tauto.
Qed.

Lemma update_partly p scan seen m0 l1 r row :
  m0 !! (p, r) = Some row → row_clean p r row →
  htriple (partly p scan seen m0 l1) (update_state scan (list_to_set seen) (state_of p r row)) (λ _, partly p scan seen m0 (l1 ++ [r])).
Proof.
  intros Hrow Hc. unfold update_state. cbn [cc_ResourceID state_of]. rewrite (bool_decide_ext _ (r ∈ seen)) by apply elem_of_list_to_set.
  eapply tx_triple_bind; [apply triple_lift|]. intros next. apply triple_pure. intros E.
  destruct (ApplyCollectorScan _ _ _) as [st|] eqn:Ea; [|done]. injection E as ->.
  assert (next_row p r scan (bool_decide (r ∈ seen)) (m0 !! (p, r)) = Some (stored_row next)) as Hn by (unfold next_row; by rewrite Hrow, Ea).
  destruct (decide (next = state_of p r row)) as [Es|Es];
    [rewrite (bool_decide_eq_true_2 _ Es)|rewrite (bool_decide_eq_false_2 _ Es)].
  - apply skip_partly. rewrite Hn, Hrow, Es. f_equal. exact Hc.
  - destruct (apply_keys _ _ _ _ Ea) as [Ep Er]. cbn in Ep, Er. rewrite <- Er in *. by apply write_partly.
Qed.
Lemma insert_partly p scan seen m0 l1 r :
  m0 !! (p, r) = None → r ∈ seen →
  htriple (partly p scan seen m0 l1) (insert_state p scan r) (λ _, partly p scan seen m0 (l1 ++ [r])).
Proof.
  intros Hrow Hin. unfold insert_state. eapply tx_triple_bind; [apply triple_lift|]. intros st. apply triple_pure. intros E.
  change (CIState p r 0 [] [] None) with (unseen_state p r) in E. destruct (ApplyCollectorScan _ _ _) as [st'|] eqn:Ea; [|done].
  injection E as ->. destruct (apply_keys _ _ _ _ Ea) as [Ep Er]. cbn in Ep, Er. rewrite <- Er in *. apply write_partly; [done|].
  unfold next_row. rewrite Hrow, (bool_decide_eq_true_2 _ Hin). cbn in *. by rewrite Er in *; rewrite Ea.
Qed.

Lemma states_scanned p scan seen s0 :
  rows_clean (db_ci_states s0) →
  htriple (λ s, s = s0) (applyCollectorScanStates p scan seen)
    (λ _ s, supported scan ∧ scanned p scan seen (db_ci_states s0) (db_ci_states s)).
Proof.
  intros Hc. unfold applyCollectorScanStates. apply triple_guard_bind. intros _.
  eapply tx_triple_bind; [apply triple_lift|]. intros st. apply triple_pure. intros Hs.
  destruct (ApplyCollectorScan _ _ _) as [st'|] eqn:Ea; [|done]. apply first_check_supported in Ea as Hsup. clear Hs.
  apply triple_guard_bind. intros _. set (seen' := compact (sort_slice Z.ltb seen)).
  assert (∀ r, r ∈ seen' ↔ r ∈ seen) as Hseen by (intros r; unfold seen'; by rewrite compact_elem, sort_slice_perm).
  apply triple_read_bind. intros states. apply (triple_weaken _ (λ s, states = locked_states p s0 ∧ s = s0)); [|by intros s [-> ->]].
  apply triple_pure. intros ->. apply triple_guard_bind. intros Hl. apply Nat.ltb_ge in Hl.
  apply triple_guard_bind. intros _. set (m0 := db_ci_states s0).
  set (old := cc_ResourceID <$> locked_states p s0). set (new := filter _ seen').
  assert (∀ r, bool_decide (r ∈ seen') = bool_decide (r ∈ seen)) as Hb by (intros r; apply bool_decide_ext, Hseen).
  apply (triple_conseq _ (partly p scan seen' m0 []) _ (λ _, partly p scan seen' m0 (old ++ new))).
  - apply (tx_triple_bind _ (λ _, partly p scan seen' m0 old)); [refine (triple_for_each_prefix (λ l, partly p scan seen' m0 (cc_ResourceID <$> l)) _ _ _)|].
    + intros l1 x l2 El. rewrite fmap_app.
      assert (x ∈ locked_states p s0) as Hx by (rewrite El; set_solver). apply locked_states_elem in Hx as (row & Hrow & E); [|done].
      rewrite E at 1. apply update_partly; [done|by apply Hc].
    + intros ?. apply (triple_weaken _ (partly p scan seen' m0 (old ++ []))); [|by rewrite app_nil_r].
      apply (triple_for_each_prefix (λ l, partly p scan seen' m0 (old ++ l))).
      intros l1 r l2 El. rewrite app_assoc. assert (r ∈ new) as Hr by (rewrite El; set_solver).
      apply list_elem_of_filter in Hr as [Hex Hin].
      apply insert_partly; [|done]. destruct (m0 !! (p, r)) as [row|] eqn:Er; [|done]. destruct Hex. 
      apply elem_of_list_to_set, list_elem_of_fmap. exists (state_of p r row). split; [done|]. apply locked_states_elem; [done|]. by exists row.
  - intros s ->. intros q r. by rewrite decide_False by (intros [_ []%elem_of_nil]).
  - intros _ s Hp. split; [done|]. intros q r. rewrite (Hp q r), Hb. destruct (decide (q = p)) as [->|Hq]; [|by rewrite decide_False by tauto].
    destruct (decide (r ∈ old ++ new)) as [|Hr]; [by rewrite decide_True by tauto|]. rewrite decide_False by tauto.
    fold m0. destruct (m0 !! (p, r)) as [row|] eqn:Er.
    + destruct Hr. apply elem_of_app. left. apply list_elem_of_fmap. exists (state_of p r row). split; [done|].
      apply locked_states_elem; [done|]. by exists row.
    + unfold next_row. rewrite bool_decide_eq_false_2; [done|]. intros Hin. destruct Hr. apply elem_of_app. right.
      apply list_elem_of_filter. split; [|by apply Hseen]. unfold old; rewrite elem_of_list_to_set, list_elem_of_fmap.
      intros (st0 & -> & (row & Hrow & _)%locked_states_elem); [|done]. fold m0 in Hrow. congruence.
Qed.

(** ** The scans that counted *)

Definition scan_of (e : CollectorScanLedgerEntry) : CollectorScan := Scan (le_CollectorScanID e) (le_Result e) (le_CompletedAt e).
(** The scans that counted, in their order, with the resources each saw. *)
#[local] Notation counted := (list (CollectorScanLedgerEntry * list Z)).
Definition scans_of (p r : Z) (l : counted) : list (CollectorScan * bool) :=
  (λ '(e, seen), (scan_of e, bool_decide (r ∈ seen))) <$> filter (λ x, le_MachinePrincipalID x.1 = p) l.
Definition row_for (p r : Z) (h : list (CollectorScan * bool)) : option ci_state_row :=
  if bool_decide (observed h = []) then None
  else match apply_scans (unseen_state p r) h with Ok st => Some (stored_row st) | Err _ => None end.

(** The tables hold these scans, and nothing else. *)
Record recorded (l : counted) (s : inv_db) : Prop := Recorded {
  rec_keys : NoDup (ledger_key <$> l.*1);
  rec_supported : Forall (λ x, supported (scan_of x.1)) l;
  rec_storable : Forall (λ x, entry_storable x.1 = true ∧ length (le_PayloadHash x.1) = 32) l;
  rec_ledger k : is_Some (db_scans s !! k) ↔ k ∈ ledger_key <$> l.*1;
  rec_entry e seen : (e, seen) ∈ l → ∃ id, db_scans s !! ledger_key e = Some (ledger_row id e);
  rec_rows p r : db_ci_states s !! (p, r) = row_for p r (scans_of p r l);
}.

Lemma scans_of_history p r l :
  NoDup (ledger_key <$> l.*1) → Forall (λ x, supported (scan_of x.1)) l → scan_history (scans_of p r l).
Proof.
  intros Hk Hs. unfold scans_of. split.
  - rewrite <- list_fmap_compose, Forall_fmap. apply Forall_forall. intros [e seen] [_ Hin]%list_elem_of_filter.
    rewrite Forall_forall in Hs. by apply (Hs (e, seen)).
  - rewrite <- !list_fmap_compose. apply (NoDup_fmap_1 (λ id, (p, pad_key id))). rewrite <- list_fmap_compose.
    assert (NoDup (ledger_key ∘ fst <$> filter (λ x, le_MachinePrincipalID x.1 = p) l)) as Hf.
    { rewrite <- list_fmap_compose in Hk. eapply sublist_NoDup; [exact Hk|]. apply fmap_sublist, sublist_filter. }
    erewrite list_fmap_ext; [exact Hf|]. intros i [e seen] Hi%list_elem_of_lookup_2. apply list_elem_of_filter in Hi as [E _].
    cbn in *. unfold ledger_key. by rewrite E.
Qed.

Lemma scans_of_snoc p r l e seen :
  scans_of p r (l ++ [(e, seen)])
  = scans_of p r l ++ (if decide (le_MachinePrincipalID e = p) then [(scan_of e, bool_decide (r ∈ seen))] else []).
Proof. unfold scans_of. rewrite filter_app, fmap_app, filter_cons, filter_nil. cbn [fst]. by case_decide. Qed.

(** Stored times are rounded; the transitions do not look at them. *)
Lemma stored_row_apply p r n sid completed missing scan seen :
  supported scan → (n ≤ 3)%Z → completed ≠ cn_ID scan →
  ∃ st st', ApplyCollectorScan (state_of p r (stored_row (CIState p r n sid completed missing))) scan seen = Ok st
    ∧ ApplyCollectorScan (CIState p r n sid completed missing) scan seen = Ok st' ∧ stored_row st = stored_row st'.
Proof using store_time_idem.
  intros Hs Hn Hc.
  assert (state_of p r (stored_row (CIState p r n sid completed missing)) = CIState p r n sid completed (store_time <$> missing)) as ->.
  { unfold state_of, stored_row. cbn. by destruct (decide (completed = [])) as [->|E]; [|rewrite (bool_decide_eq_false_2 _ E)]. }
  do 2 eexists. split; [by apply apply_step|]. split; [by apply apply_step|]. destruct seen; [done|].
  destruct (decide (is_complete scan ∧ sid ≠ [])) as [_|_]; unfold stored_row; cbn; f_equal.
  - destruct missing as [t|]; cbn; [|done]. rewrite !decide_False by (by intros [_ ?]). cbn. by rewrite store_time_idem.
  - destruct missing; cbn; [by rewrite store_time_idem|done].
Qed.
Lemma next_row_for p r h scan seen :
  scan_history (h ++ [(scan, seen)]) → next_row p r scan seen (row_for p r h) = row_for p r (h ++ [(scan, seen)]).
Proof using store_time_idem.
  intros Hh. pose proof Hh as (Hl & Hs & Hne)%scan_history_snoc. destruct (apply_scans_prefix p r h Hl) as (n & sid & m & E & Hn & Hsid & Hm).
  unfold row_for. rewrite observed_snoc, apply_scans_snoc, E. cbn [mbind result_bind fst snd]. case_bool_decide as Ho.
  - destruct (Hm Ho) as [-> ->]. apply Hsid in Ho as ->. assert (last_complete h = []) as ->.
    { unfold last_complete. assert (observed h = []) as -> by (by apply Hsid). done. }
    destruct seen; cbn [next_row snd]; [by rewrite bool_decide_eq_false_2|by rewrite bool_decide_eq_true_2].
  - rewrite bool_decide_eq_false_2 by (by destruct (observed h)). cbn [next_row].
    destruct (stored_row_apply p r n sid (last_complete h) m scan seen Hs Hn Hne) as (st & st' & -> & -> & ->). done.
Qed.

Lemma recorded_empty : recorded [] empty_inventory.
Proof.
  split; [by apply NoDup_nil|by apply Forall_nil|by apply Forall_nil| |by intros e seen []%elem_of_nil|done].
  intros k. cbn. rewrite lookup_empty. split; [by intros []|by intros []%elem_of_nil].
Qed.
Lemma recorded_rolled_back l s s2 : recorded l s → recorded l (rolled_back s s2).
Proof. by intros []. Qed.
Lemma recorded_same l s s' : db_scans s' = db_scans s → db_ci_states s' = db_ci_states s → recorded l s → recorded l s'.
Proof. intros E1 E2 []. split; try done; by setoid_rewrite E1 || by setoid_rewrite E2. Qed.
Lemma recorded_clean l s : recorded l s → rows_clean (db_ci_states s).
Proof using store_time_idem.
  intros [Hk Hs _ _ _ Hr] p r row. rewrite Hr. unfold row_for. case_bool_decide; [done|].
  destruct (apply_scans_prefix p r _ (scans_of_history p r l Hk Hs)) as (n & sid & m & -> & _). intros [= <-].
  apply (stored_row_clean (CIState p r _ _ _ _)).
Qed.
Lemma recorded_step l s s' e seen id :
  recorded l s → db_scans s !! ledger_key e = None → supported (scan_of e) →
  entry_storable e = true → length (le_PayloadHash e) = 32 →
  db_scans s' = <[ledger_key e := ledger_row id e]> (db_scans s) →
  scanned (le_MachinePrincipalID e) (scan_of e) seen (db_ci_states s) (db_ci_states s') →
  recorded (l ++ [(e, seen)]) s'.
Proof using store_time_idem.
  intros [Hk Hs Hst Hl He Hr] Hn Hsup Hste Hlen Hsc Hrow.
  assert ((ledger_key <$> (l ++ [(e, seen)]).*1) = (ledger_key <$> l.*1) ++ [ledger_key e]) as Ek by (by rewrite !fmap_app).
  assert (NoDup (ledger_key <$> (l ++ [(e, seen)]).*1)) as Hk'.
  { rewrite Ek. apply NoDup_app. split; [done|]. split; [|apply NoDup_singleton].
    intros k Hin ->%list_elem_of_singleton. apply Hl in Hin as [row Hin]. congruence. }
  assert (Forall (λ x, supported (scan_of x.1)) (l ++ [(e, seen)])) as Hs' by (apply Forall_app; split; [done|by constructor]).
  split; [done|done|apply Forall_app; split; [done|by constructor]| | |].
  - intros k. rewrite Hsc, Ek, elem_of_app, list_elem_of_singleton. destruct (decide (k = ledger_key e)) as [->|Hne].
    + rewrite lookup_insert_eq. split; [by right|by eexists].
    + rewrite lookup_insert_ne, Hl by done. tauto.
  - intros e' seen' [Hin|[= -> ->]%list_elem_of_singleton]%elem_of_app; rewrite Hsc; [|exists id; by rewrite lookup_insert_eq].
    destruct (He _ _ Hin) as [id' Hid]. exists id'. rewrite lookup_insert_ne; [done|congruence].
  - intros q r. pose proof (scans_of_history q r _ Hk' Hs') as Hh. rewrite (Hrow q r). rewrite scans_of_snoc in Hh |- *.
    destruct (decide (q = le_MachinePrincipalID e)) as [->|Hne].
    + rewrite decide_True in Hh |- * by done. rewrite Hr. by apply next_row_for.
    + rewrite decide_False by congruence. rewrite app_nil_r. apply Hr.
Qed.

(** ** Claiming a scan *)

(** The state of a claimed scan, before anything else of its confirmation. *)
Definition claimed_state (e : CollectorScanLedgerEntry) (s : inv_db) : inv_db :=
  set_scans <[ledger_key e := ledger_row (db_next_scan s) e]> (take_scan_id s).
(** The ledger has the scan, with the same content. *)
Definition same_scan (e : CollectorScanLedgerEntry) (s : inv_db) : Prop :=
  ∃ row, db_scans s !! ledger_key e = Some row ∧ MatchesRetry e (sl_PayloadHash row) (sl_Result row) = true.

Lemma find_retry_ok e s0 :
  htriple (λ s, s = s0) (findCollectorScanRetry e) (λ found s, s = s0 ∧ (is_Some found → same_scan e s0)).
Proof.
  unfold findCollectorScanRetry. apply triple_read_bind. intros [row|].
  - apply (triple_weaken _ (λ s, db_scans s0 !! ledger_key e = Some row ∧ s = s0)); [|by intros s [E ->]]. apply triple_pure. intros Hrow.
    apply triple_guard_bind. intros _. apply triple_guard_bind. intros Hm%negb_false_iff.
    eapply triple_weaken; [apply (tx_triple_ret _ (λ found s, s = s0 ∧ (is_Some found → same_scan e s0)))|]. intros s ->.
    split; [done|]. intros _. by exists row.
  - eapply triple_weaken; [apply (tx_triple_ret None (λ found s, s = s0 ∧ (is_Some found → same_scan e s0)))|].
    intros s [_ ->]. split; [done|by intros []].
Qed.
Lemma claim_ok e s0 :
  htriple (λ s, s = s0) (ClaimCollectorScan e)
    (λ r s, entry_storable e = true
       ∧ if r.2 then db_scans s0 !! ledger_key e = None ∧ s = claimed_state e s0 else s = take_scan_id s0 ∧ same_scan e s0).
Proof.
  unfold ClaimCollectorScan, insertCollectorScanLedger. set (Q := λ (r : Z * bool) s, _).
  apply triple_call_bind, triple_guard_bind. intros Hst%negb_false_iff. apply triple_get_bind. intros s1.
  apply (triple_weaken _ (λ s, s1 = s0 ∧ s = s0)); [|by intros s [-> ->]]. apply triple_pure. intros ->.
  eapply tx_triple_bind; [apply (triple_put _ (λ s, s = take_scan_id s0)); by intros s ->|]. intros ?.
  case_bool_decide as Hk.
  - apply (tx_triple_bind _ (λ _ s, s = take_scan_id s0 ∧ same_scan e (take_scan_id s0))).
    + unfold compareCollectorScanRetry. eapply tx_triple_bind; [apply find_retry_ok|]. intros [id|]; [|apply triple_fail].
      eapply triple_weaken; [apply (tx_triple_ret id (λ _ s, s = take_scan_id s0 ∧ same_scan e (take_scan_id s0)))|].
      intros s [-> Hs]. split; [done|by apply Hs].
    + intros id. eapply triple_weaken; [apply (tx_triple_ret (id, false) Q)|]. intros s [-> Hs]. done.
  - eapply tx_triple_bind; [apply (triple_put _ (λ s, s = claimed_state e s0)); by intros s ->|]. intros ?.
    eapply triple_weaken; [apply (tx_triple_ret (_, true) Q)|]. intros s ->. split; [done|]. split; [|done].
    destruct (db_scans s0 !! ledger_key e); [destruct Hk; by eexists|done].
Qed.
End rows.

(** ** The confirmation of a collector *)

Section confirm.
Context `{MySQLText, UnicodeLower, FloatConversion, DbTime} (store_time_idem : ∀ t, store_time (store_time t) = store_time t).
Context (sprint : gvalue → bytes) (label_message : gmap bytes bytes → bytes)
        (fingerprint_text : list IngestionRow → list IngestionSnapshot → bytes) (rows_text : list IngestionRow → bytes).

#[local] Notation counted := (list (CollectorScanLedgerEntry * list Z)).
(** The two tables of collector scans. *)
Definition scans_view (s : inv_db) := (db_scans s, db_ci_states s).
#[local] Notation scans_kept := (keeps_view scans_view).

Lemma scans_create input profile : scans_kept (createResourceTx sprint input profile).
Proof. unfold createResourceTx, upsert_profile. frames. Qed.
#[local] Hint Resolve scans_create : frames.
Lemma scans_update id input : scans_kept (updateResourceTx id input).
Proof. unfold updateResourceTx, write_resource. frames. Qed.
#[local] Hint Resolve scans_update : frames.
Lemma scans_audits user machine (changes : audit_log) ids :
  scans_kept (tx_for_each (λ id, match changes !! id with
                                 | Some (c :: l) => write_call (add_audit (ingestion_event user machine id (c :: l)))
                                 | _ => mret tt
                                 end : tx ()) ids).
Proof. unfold write_call. frames. Qed.
Lemma scans_lock ids : scans_kept (lockResourceRows ids).
Proof. intros v. eapply triple_conseq; [apply (lockResourceRows_ok (λ s, scans_view s = v))|done|by intros ? s [? _]]. Qed.
Lemma scans_load ids : scans_kept (loadIngestionSnapshots ids).
Proof.
  induction ids as [|id ids IH]; cbn [loadIngestionSnapshots]; [apply kept_ret|].
  apply kept_bind; [|intros x; apply kept_bind; [apply IH|intros l; apply kept_ret]].
  intros v. eapply triple_conseq; [apply (load_snapshot_ok (λ s, scans_view s = v))|done|by intros ? s [? _]].
Qed.
#[local] Hint Resolve scans_lock scans_load : frames.
Lemma scans_remove id l c : scans_kept (remove_relations id l c).
Proof.
  revert c. induction l as [|r l IH]; intros c; cbn [remove_relations]; [apply kept_ret|].
  apply kept_bind; [unfold deleteRelationByTripleTx; frames|]. intros ?. apply IH.
Qed.
Lemma scans_insert_relation now i : scans_kept (insertRelation now i).
Proof. unfold insertRelation. frames. Qed.
#[local] Hint Resolve scans_remove scans_insert_relation : frames.
Lemma scans_add now from l c : scans_kept (add_relations now from l c).
Proof.
  revert c. induction l as [|r l IH]; intros c; cbn [add_relations]; [apply kept_ret|].
  apply kept_bind; [apply kept_lookup|]. intros to. do 2 (apply kept_bind; [frames|]; intros ?).
  apply kept_bind; [frames|]. intros ?. apply IH.
Qed.
#[local] Hint Resolve scans_add : frames.
Lemma scans_rows now actor collector rows previews c : scans_kept (apply_rows sprint now actor collector rows previews c).
Proof.
  revert previews c. induction rows as [|row rows IH]; intros [|p previews] c; cbn [apply_rows]; try apply kept_ret.
  apply kept_bind; [|intros [id c']; apply kept_bind; [apply IH|intros [l c'']; apply kept_ret]].
  unfold apply_row, applyIngestionResourceUpdate, applyIngestionProfile, applyIngestionObserved, putObservedValueTx, write_observed, upsert_profile,
    applyIngestionRelations. frames.
Qed.

Lemma triple_and {A} P (m : tx A) (Q Q' : A → inv_db → Prop) : htriple P m Q → htriple P m Q' → htriple P m (λ a s, Q a s ∧ Q' a s).
Proof.
  intros Hq Hq' st HP. specialize (Hq st HP). specialize (Hq' st HP). destruct (m st) as [[a|er] st'], Hq, Hq'; by split.
Qed.

(** The scan was not in the ledger and is now, and the rows of its principal have taken it. *)
Definition scan_counted (e : CollectorScanLedgerEntry) (seen : list Z) (s s' : inv_db) : Prop :=
  db_scans s !! ledger_key e = None ∧ supported (scan_of e) ∧ entry_storable e = true
  ∧ db_scans s' = <[ledger_key e := ledger_row (db_next_scan s) e]> (db_scans s)
  ∧ scanned (le_MachinePrincipalID e) (scan_of e) seen (db_ci_states s) (db_ci_states s').

Lemma states_counted e seen v :
  rows_clean v.2 →
  htriple (λ s, scans_view s = v) (ApplyCollectorScanStates e seen)
    (λ _ s, supported (scan_of e) ∧ db_scans s = v.1 ∧ scanned (le_MachinePrincipalID e) (scan_of e) seen v.2 (db_ci_states s)).
Proof.
  intros Hc. apply (triple_conseq _ (λ s, scans_view s = v) _
    (λ _ s, db_scans s = v.1 ∧ (supported (scan_of e) ∧ scanned (le_MachinePrincipalID e) (scan_of e) seen v.2 (db_ci_states s)))); [|done|tauto].
  apply triple_and.
  - assert (keeps_view db_scans (ApplyCollectorScanStates e seen)) as Hk.
    { unfold ApplyCollectorScanStates, applyCollectorScanStates, update_state, insert_state, apply_scan, write_state. frames. }
    eapply triple_weaken; [apply Hk|]. by intros s <-.
  - intros st <-. by apply (states_scanned store_time_idem (le_MachinePrincipalID e) (scan_of e) seen (ts_db st)).
Qed.
Lemma confirm_rows_counted now ids rows reviewed actor machine e s1 :
  rows_clean (db_ci_states s1) →
  htriple (λ s, s = s1) (confirm_rows sprint now fingerprint_text ids rows reviewed actor machine (Some e))
    (λ p s', supported (scan_of e) ∧ db_scans s' = db_scans s1
       ∧ scanned (le_MachinePrincipalID e) (scan_of e) (pr_MatchedID <$> pv_Rows p) (db_ci_states s1) (db_ci_states s')).
Proof.
  intros Hc. apply (triple_weaken _ (λ s, scans_view s = scans_view s1)); [|by intros s ->]. unfold confirm_rows. set (Q := λ (p : IngestionPreview) s', _).
  eapply tx_triple_bind; [apply scans_lock|]. intros ?. eapply tx_triple_bind; [apply scans_load|].
  intros snapshots. apply triple_guard_bind. intros _. apply triple_guard_bind. intros _.
  eapply tx_triple_bind; [apply scans_rows|]. intros [l changes].
  eapply tx_triple_bind; [eapply tx_triple_bind; [apply (scans_audits None (Some machine))|]; intros ?; by apply triple_map_err, states_counted|].
  intros ?. eapply triple_weaken; [apply (tx_triple_ret _ Q)|]. intros s Hs. exact Hs.
Qed.

Lemma confirm_body_counted now ids rows reviewed actor machine e s0 :
  rows_clean (db_ci_states s0) →
  htriple (λ s, s = s0) (confirm_body sprint now fingerprint_text ids rows reviewed actor machine (Some e))
    (λ r s', entry_storable e = true
       ∧ if r.2 then applied_as_reviewed fingerprint_text s0 ids rows reviewed r.1 ∧ fully_audited s0 None (Some machine) r.1 s'
                     ∧ scan_counted e (pr_MatchedID <$> pv_Rows r.1) s0 s'
         else same_scan e s0 ∧ pv_Fingerprint r.1 = reviewed).
Proof.
  intros Hc. unfold confirm_body. set (Q := λ (r : IngestionPreview * bool) s', _).
  eapply (tx_triple_bind _ (λ b s, entry_storable e = true
    ∧ if b : bool then db_scans s0 !! ledger_key e = None ∧ s = claimed_state e s0 else s = take_scan_id s0 ∧ same_scan e s0)).
  { eapply tx_triple_bind; [apply triple_map_err, claim_ok|]. intros [id b]. eapply triple_weaken; [apply (tx_triple_ret b)|]. by intros s. }
  intros b. apply triple_pure. intros Hst. destruct b; cbn [negb].
  - apply triple_pure. intros Hn. eapply tx_triple_bind; [apply triple_and; [apply confirm_rows_ok|by apply confirm_rows_counted]|].
    intros p. eapply triple_weaken; [apply (tx_triple_ret (p, true) Q)|]. intros s [[Ha Hau] (Hsup & Hsc & Hrow)].
    split; [done|]. split; [exact Ha|]. split; [exact Hau|]. by split.
  - apply (triple_weaken _ (λ s, same_scan e s0 ∧ s = take_scan_id s0)); [|tauto]. apply triple_pure. intros Hs.
    eapply tx_triple_bind; [apply load_snapshots_ok|]. intros l. eapply triple_weaken; [apply (tx_triple_ret (_, false) Q)|]. done.
Qed.

(** The ledger entry of a request, unless its rows do not marshal. *)
Definition collector_entry (completedAt principal : Z) (rows : list IngestionRow) (reviewed : bytes) (metadata : CollectorIngestionMetadata) :
    option CollectorScanLedgerEntry :=
  (λ hash, LedgerEntry principal (trim_space (cm_ScanID metadata)) hash (trim_space (cm_ScanResult metadata)) completedAt)
    <$> collectorIngestionPayloadHash rows_text rows reviewed.

#[local] Notation confirm_collector now completed snap f principal rows reviewed metadata s :=
  (ConfirmCollectorIngestion sprint now fingerprint_text rows_text completed snap f principal rows reviewed metadata s).

Lemma same_rows_refl s : same_rows s s.
Proof. by destruct s. Qed.
Lemma collector_outcome now completed snap f principal rows reviewed metadata s r s' :
  rows_clean (db_ci_states s) →
  confirm_collector now completed snap f principal rows reviewed metadata s = (r, s') →
  (∃ e p, collector_entry completed principal rows reviewed metadata = Some e
     ∧ applied_as_reviewed fingerprint_text s (sortedIDSet (findIngestionCandidateIDs rows snap)) rows reviewed p
     ∧ fully_audited s None (Some principal) p s' ∧ scan_counted e (pr_MatchedID <$> pv_Rows p) s s'
     ∧ (r = Ok p ∨ r = Err ErrStore ∧ cf_commit f = CommitDoneUnseen))
  ∨ same_rows s s' ∧ ((∃ er, r = Err er)
     ∨ ∃ e p, collector_entry completed principal rows reviewed metadata = Some e ∧ same_scan e s ∧ r = Ok p ∧ pv_Fingerprint p = reviewed).
Proof using store_time_idem.
  intros Hc. unfold ConfirmCollectorIngestion, repository_ConfirmCollectorIngestion, confirmIngestion, collector_entry. cbn [cm_ScanID cm_ScanResult].
  pose proof (same_rows_refl s) as Hsr.
  repeat (match goal with |- (if ?b then (Err _, _) else _) = _ → _ => destruct b; [intros [= <- <-]; right; eauto|] end).
  destruct (collectorIngestionPayloadHash _ _ _) as [hash|]; [|intros [= <- <-]; right; eauto]. cbn [fmap option_fmap option_map].
  destruct (cf_candidates f); [intros [= <- <-]; right; eauto|]. intros Ht.
  destruct (in_tx_early_outcome _ _ _ _ _ _ _ _ (confirm_body_counted now _ rows reviewed 0 principal _ s Hc) eq_refl Ht)
    as [(p & (_ & Ha & Hau & Hsc) & _ & Hr)|(s2 & -> & _ & [[er ->]|(p & -> & _ & Hs & Hf)])].
  - left. eexists _, p. done.
  - right. split; [done|]. left. by exists er.
  - right. split; [done|]. right. eexists _, p. done.
Qed.

(** ** Histories *)

(** The other operations leave the tables of collector scans alone. *)
Lemma in_tx_scans {A} (body : tx A) faults end_ s : scans_kept body → scans_view (in_tx body faults end_ s).2 = scans_view s.
Proof.
  intros Hk. destruct (in_tx body faults end_ s) as [r s'] eqn:E.
  by destruct (in_tx_outcome _ _ _ _ _ _ _ _ (Hk (scans_view s)) eq_refl E) as [(a & Hv & _)|(e & s2 & _ & -> & _)].
Qed.

Lemma set_archived_scans id at_ s : scans_view (set_archived id at_ s) = scans_view s.
Proof. unfold set_archived. by repeat case_match. Qed.
Lemma change_archived_scans now want snap rf f id s : scans_view (change_archived now want snap rf f id s).2 = scans_view s.
Proof.
  unfold change_archived. destruct (read_or _ _); [|done]. case_match; [done|]. rewrite read_back_state, as_id_state.
  unfold run_update. destruct (wf_commit f); [apply set_archived_scans|done|apply set_archived_scans].
Qed.
Lemma mutate_profile_scans id ty fields actor event mutation : scans_kept (mutateProfileWithAudit sprint id ty fields actor event mutation).
Proof.
  unfold mutateProfileWithAudit, upsert_profile, patch_profile, fetchProfile, insertInventoryAuditTx, write_call. destruct mutation; frames.
Qed.
Lemma scans_user_audits actor changes : scans_kept (insertIngestionAudits actor changes).
Proof. apply (scans_audits (Some actor) None). Qed.
#[local] Hint Resolve scans_rows scans_user_audits : frames.
Lemma user_confirm_scans now snap f actor rows reviewed s :
  scans_view (ConfirmIngestion sprint now fingerprint_text snap f actor rows reviewed s).2 = scans_view s.
Proof.
  unfold ConfirmIngestion, confirmIngestion. repeat (case_match; [done|]).
  assert (scans_kept (confirm_body sprint now fingerprint_text (sortedIDSet (findIngestionCandidateIDs rows snap)) rows reviewed actor 0 None)) as Hk.
  { unfold confirm_body, confirm_rows. frames. }
  destruct (in_tx_early _ _ _ s) as [r s'] eqn:E.
  by destruct (in_tx_early_outcome _ _ _ _ _ _ _ _ (Hk (scans_view s)) eq_refl E) as [(a & Hv & _)|(s2 & -> & _)].
Qed.
Lemma scans_relation now i : scans_kept (create_body now i).
Proof. unfold create_body. frames. Qed.
Lemma scans_both_ends actor from to ty op event : scans_kept (audit_both_ends actor from to ty op event).
Proof. unfold audit_both_ends, insertInventoryAuditTx, write_call. frames. Qed.
Lemma scans_unrelate id r : scans_kept (delete_body id r).
Proof. unfold delete_body, delete_row. frames. Qed.
#[local] Hint Resolve scans_relation scans_both_ends scans_unrelate : frames.
Lemma step_scans past s s' :
  inventory_step sprint label_message fingerprint_text rows_text past s s' →
  scans_view s' = scans_view s
  ∨ ∃ now completed snap f principal rows reviewed metadata,
      s' = (confirm_collector now completed snap f principal rows reviewed metadata s).2.
Proof.
  intros Hs. destruct Hs; try (right; by eauto 10); left.
  - unfold ResourceService_Create. destruct (validateResourceCreateInput _ _ _); [|done]. destruct (validateReferenceIDs _ _); [|done].
    rewrite read_back_state. apply in_tx_scans. frames.
  - unfold ResourceService_Update. destruct (validateUpdate _ _ _ _ _ _); [|done]. rewrite read_back_state, as_id_state. apply in_tx_scans. frames.
  - unfold UpdateInventory. case_match; [done|]. destruct (validateUpdate _ _ _ _ _ _); [|done]. rewrite read_back_state, as_id_state.
    apply in_tx_scans. unfold update_with_audit, insertInventoryAuditTx, write_call. frames.
  - unfold Archive. case_match; [apply change_archived_scans|done].
  - unfold Unarchive. case_match; [done|apply change_archived_scans].
  - unfold PutProfileInventory. destruct (inventoryProfileTarget _ _ _ _ _) as [[x fs]|]; [|done]. apply in_tx_scans, mutate_profile_scans.
  - unfold PatchProfileInventory. destruct (inventoryProfileTarget _ _ _ _ _) as [[x fs]|]; [|done]. case_match; [done|].
    apply in_tx_scans, mutate_profile_scans.
  - unfold DeleteProfileInventory. case_match; [|done]. apply in_tx_scans, mutate_profile_scans.
  - unfold CreateInventory, create. destruct (check_create _ _ _ _); [|done].
    case_match; apply in_tx_scans; unfold create_audited_body; frames.
  - unfold RelationService_Delete. case_match; [done|]. destruct (read_or _ _); [|done]. apply in_tx_scans. frames.
  - unfold DeleteInventory. repeat (case_match; [done|]). destruct (read_or _ _); [|done]. apply in_tx_scans.
    unfold delete_audited_body. frames.
  - apply user_confirm_scans.
  - unfold SetManualOverride, SetManualOverrideWithAudit. repeat (case_match; [done|]). case_match; [|done].
    apply in_tx_scans. unfold set_override_body, insertInventoryAuditTx, getResourceForUpdate, write_call. frames.
  - unfold ClearManualOverride, ClearManualOverrideWithAudit. case_match; [done|]. case_match; [|done].
    apply in_tx_scans. unfold clear_override_body, insertInventoryAuditTx, getResourceForUpdate, write_call. frames.
  - unfold PutObservedValues. case_match; [done|]. apply in_tx_scans. unfold put_observed_body, write_observed, getResourceForUpdate. frames.
  - unfold ObserveHealth, UpsertHealthObservation. do 2 (case_match; [|done]). by destruct end_.
Qed.

#[local] Notation inv_history := (history sprint label_message fingerprint_text rows_text).

(** A collector's confirmation on tables that hold the scans [l]. *)
Lemma collector_records l now completed snap f principal rows reviewed metadata s :
  recorded l s →
  let '(r, s') := confirm_collector now completed snap f principal rows reviewed metadata s in
  (∃ e seen, collector_entry completed principal rows reviewed metadata = Some e ∧ recorded (l ++ [(e, seen)]) s'
     ∧ ∀ p, r = Ok p → seen = pr_MatchedID <$> pv_Rows p)
  ∨ same_rows s s' ∧ ∀ p, r = Ok p → ∃ e, collector_entry completed principal rows reviewed metadata = Some e ∧ same_scan e s.
Proof using store_time_idem.
  intros Hl. destruct (confirm_collector _ _ _ _ _ _ _ _ _) as [r s'] eqn:E.
  destruct (collector_outcome _ _ _ _ _ _ _ _ _ _ _ (recorded_clean store_time_idem _ _ Hl) E)
    as [(e & p & He & _ & _ & (Hn & Hsup & Hst & Hsc & Hrow) & Hr)|[Hsame Hr]].
  - left. exists e, (pr_MatchedID <$> pv_Rows p). split; [done|]. split.
    + eapply (recorded_step store_time_idem _ s); try done. unfold collector_entry, collectorIngestionPayloadHash in He.
      destruct (forallb _ _); [|done]. injection He as <-. apply length_sha256.
    + intros q ->. destruct Hr as [[= ->]|[? _]]; done.
  - right. split; [done|]. intros p ->. destruct Hr as [[er ?]|(e & q & He & Hs & _)]; [done|by exists e].
Qed.

Lemma history_recorded l : inv_history l → ∀ s past, l = s :: past →
  ∃ k, recorded k s ∧ ∀ snap key row, snap ∈ past → db_scans snap !! key = Some row → db_scans s !! key = Some row.
Proof using store_time_idem.
  induction 1 as [|s past s' Hh IH Hstep]; intros t q [= <- <-].
  { exists []. split; [apply recorded_empty|by intros ? ? ? []%elem_of_nil]. }
  destruct (IH s past eq_refl) as (k & Hk & Hp).
  assert (∃ k', recorded k' s' ∧ ∀ key row, db_scans s !! key = Some row → db_scans s' !! key = Some row) as (k' & Hk' & Hkeep).
  { destruct (step_scans _ _ _ Hstep) as [Hv|(now & completed & snap & f & principal & rows & reviewed & metadata & ->)].
    { injection Hv as E1 E2. exists k. split; [by apply (recorded_same k s)|by rewrite E1]. }
    destruct (confirm_collector _ _ _ _ _ _ _ _ _) as [r t] eqn:E.
    destruct (collector_outcome _ _ _ _ _ _ _ _ _ _ _ (recorded_clean store_time_idem _ _ Hk) E)
      as [(e & p & _ & _ & _ & (Hn & _ & _ & Hsc & _) & _)|[Hsame _]].
    - pose proof (collector_records k now completed snap f principal rows reviewed metadata s Hk) as Hr. rewrite E in Hr.
      destruct Hr as [(e' & seen & _ & Hr & _)|[Hsame _]].
      + exists (k ++ [(e', seen)]). split; [exact Hr|]. cbn. intros key row Hrow. rewrite Hsc, lookup_insert_ne by congruence. done.
      + exists k. cbn. rewrite Hsame. split; [by apply recorded_rolled_back|done].
    - exists k. cbn. rewrite Hsame. split; [by apply recorded_rolled_back|done]. }
  exists k'. split; [done|]. intros snap key row [->|Hin]%elem_of_cons Hrow; [by apply Hkeep|]. by apply Hkeep, (Hp snap).
Qed.

(** ** What the rows say *)

(** The last scan that saw the resource splits the history. *)
Lemma split_last_seen (h : list (CollectorScan * bool)) :
  observed h ≠ [] → ∃ h1 scan h2, h = h1 ++ (scan, true) :: h2 ∧ Forall (λ x, x.2 = false) h2.
Proof.
  induction h as [|[scan seen] h IH] using rev_ind; [done|]. rewrite observed_snoc. destruct seen.
  - intros _. by exists h, scan, [].
  - case_bool_decide as Ho; [done|]. intros _. destruct (IH Ho) as (h1 & sc & h2 & -> & Hf). exists h1, sc, (h2 ++ [(scan, false)]).
    split; [by rewrite <- app_assoc|]. apply Forall_app. split; [done|by constructor].
Qed.
Definition row_exact (h : list (CollectorScan * bool)) (row : option ci_state_row) : Prop :=
  match row with
  | None => Forall (λ x, x.2 = false) h
  | Some row => ∃ h1 scan h2, h = h1 ++ (scan, true) :: h2 ∧ Forall (λ x, x.2 = false) h2
      ∧ let omissions := complete_scans h2 in
        st_Omissions row = Z.of_nat (min 3 (length omissions)) ∧ st_LastSeen row = cn_ID scan
        ∧ default [] (st_LastCompleted row) = last_complete h
        ∧ st_MissingSince row = store_time ∘ cn_CompletedAt <$> omissions !! 2
  end.
Lemma row_for_exact p r h : scan_history h → row_exact h (row_for p r h).
Proof.
  intros Hh. unfold row_for. case_bool_decide as Ho; [by apply observed_nil|].
  destruct (split_last_seen h Ho) as (h1 & scan & h2 & -> & Hf). rewrite (presence_exact p r h1 scan h2 Hh Hf).
  exists h1, scan, h2. split; [done|]. split; [done|]. cbn. split; [done|]. split; [done|]. split.
  - destruct (decide (last_complete (h1 ++ (scan, true) :: h2) = [])) as [->|E]; [done|by rewrite (bool_decide_eq_false_2 _ E)].
  - by destruct (complete_scans h2 !! 2).
Qed.

(** ** Answering a scan again *)

Lemma load_found id s row : db_resources s !! id = Some row → ∃ x, loadIngestionSnapshot id (TxState s []) = (Ok x, TxState s []).
Proof.
  intros Hrow. unfold loadIngestionSnapshot, getResourceForUpdate, read_call, mbind, tx_bind, call, tx_get, mret, tx_ret. cbn.
  rewrite Hrow. unfold fetchProfile, read_call, mbind, tx_bind, call, tx_get, mret, tx_ret. cbn.
  destruct (bool_decide _); cbn; by eexists.
Qed.
Lemma loads_found ids s :
  (∀ id, id ∈ ids → is_Some (db_resources s !! id)) → ∃ l, loadIngestionSnapshots ids (TxState s []) = (Ok l, TxState s []).
Proof.
  induction ids as [|id ids IH]; intros Hin; [by exists []|]. destruct (Hin id) as [row Hrow]; [by left|].
  destruct (load_found id s row Hrow) as [x Hx]. destruct IH as [l Hl]; [intros i Hi; apply Hin; by right|].
  exists (x :: l). cbn [loadIngestionSnapshots]. unfold mbind, tx_bind in *. by rewrite Hx, Hl.
Qed.

Lemma answer_again now ids rows reviewed principal e s row :
  entry_storable e = true → db_scans s !! ledger_key e = Some row → length (sl_PayloadHash row) = 32 →
  (∀ id, id ∈ ids → is_Some (db_resources s !! id)) →
  (confirm_body sprint now fingerprint_text ids rows reviewed 0 principal (Some e) (TxState s [])).2 = TxState (take_scan_id s) []
  ∧ if MatchesRetry e (sl_PayloadHash row) (sl_Result row)
    then ∃ p, (confirm_body sprint now fingerprint_text ids rows reviewed 0 principal (Some e) (TxState s [])).1 = Ok (p, false)
    else (confirm_body sprint now fingerprint_text ids rows reviewed 0 principal (Some e) (TxState s [])).1 = Err ErrCollectorScanConflict.
Proof.
  intros Hst Hrow Hlen Hids. destruct (loads_found ids (take_scan_id s) Hids) as [l Hl].
  unfold confirm_body, ClaimCollectorScan, insertCollectorScanLedger, compareCollectorScanRetry, findCollectorScanRetry, read_call,
    tx_guard, tx_lift, tx_map_err, mbind, tx_bind, call, tx_get, tx_put, mret, tx_ret in *. cbn in *.
  rewrite Hst. cbn. rewrite bool_decide_eq_true_2 by (rewrite Hrow; by eexists). cbn. rewrite Hrow. cbn. rewrite Hlen. cbn.
  destruct (MatchesRetry e _ _); cbn; [|done]. rewrite Hl. cbn. split; [done|by eexists].
Qed.

(** The candidates of a batch are resources of the tables they were looked up in. *)
Lemma candidates_exist rows s id : inv_wf s → id ∈ findIngestionCandidateIDs rows s → is_Some (db_resources s !! id).
Proof.
  intros Hi Hin. unfold findIngestionCandidateIDs in Hin. apply elem_of_list_to_set, list_elem_of_bind in Hin as (row & Hin & _).
  unfold row_candidates in Hin. rewrite !elem_of_app, !list_elem_of_bind in Hin. destruct Hin as [Hin|[(a & Hin & _)|(x & Hin & _)]].
  - apply list_elem_of_fmap in Hin as ([i r] & -> & [_ Hin]%list_elem_of_filter). apply elem_of_map_to_list in Hin. by exists r.
  - unfold candidates_by_alias in Hin. case_match; [by apply elem_of_nil in Hin|].
    apply list_elem_of_fmap in Hin as (y & -> & [_ Hin]%list_elem_of_filter). destruct (ok_alias_owner _ _ Hi y Hin) as (r & Hr & _). by exists r.
  - unfold candidates_by_identifier in Hin. case_match; [by apply elem_of_nil in Hin|].
    apply list_elem_of_fmap in Hin as (y & -> & [_ Hin]%list_elem_of_filter). exact (ok_identifier_owner _ _ Hi y Hin).
Qed.
Lemma history_wf l : inv_history l → ∀ snap, snap ∈ l → inv_wf snap.
Proof.
  induction 1 as [|s past s' Hh IH Hstep]; intros snap Hin.
  - apply list_elem_of_singleton in Hin as ->. apply empty_inventory_wf.
  - apply elem_of_cons in Hin as [->|Hin]; [|by apply IH].
    by destruct (history_keeps _ _ _ _ _ (history_step _ _ _ _ _ _ _ Hh Hstep) _ _ eq_refl).
Qed.

Lemma pad_key_elem c id : c ∈ pad_key id → c ∈ id.
Proof.
  unfold pad_key. rewrite elem_of_reverse, <- (elem_of_reverse _ id). generalize (reverse id). clear. intros l.
  induction l as [|d l IH]; [done|]. cbn [trim_from]. destruct (list_find _ _) as [[i q]|] eqn:E; [|done].
  apply list_find_Some in E as (Hi & _ & _). destruct i; cbn in Hi; [|done]. injection Hi as <-. cbn [length Nat.sub].
  intros ?%IH. by right.
Qed.
Lemma trimmed_ascii id : forallb (λ c, (bv c <? 128)%Z) (pad_key id) = true → forallb (λ c, (bv c <? 128)%Z) id = true.
Proof.
  rewrite !forallb_forall. intros Hp c Hc. apply list_elem_of_In in Hc.
  assert (∀ l, c ∈ l → c ∈ trim_from [[bz 32]] 0 l ∨ c = bz 32) as Ht.
  { clear. induction l as [|d l IH]; [by intros []%elem_of_nil|]. intros Hin. cbn [trim_from].
    destruct (list_find _ _) as [[i q]|] eqn:E; [|by left]. apply list_find_Some in E as (Hi & Hpre & _).
    destruct i; cbn in Hi; [|done]. injection Hi as <-. cbn in Hpre. cbn [length Nat.sub].
    apply elem_of_cons in Hin as [->|Hin]; [right|by apply IH]. 
      unfold is_prefix in Hpre. apply bool_decide_eq_true in Hpre. by injection Hpre. }
  apply elem_of_reverse in Hc. destruct (Ht _ Hc) as [Hin| ->]; [|done]. apply Hp, list_elem_of_In. unfold pad_key. by apply elem_of_reverse.
Qed.

(** What the service asks of a request. *)
Definition request_valid (principal : Z) (rows : list IngestionRow) (reviewed : bytes) (metadata : CollectorIngestionMetadata) : Prop :=
  principal ≠ 0%Z ∧ trim_space reviewed ≠ [] ∧ ValidateCollectorIngestionRows rows = true
  ∧ ValidateCollectorIngestionMetadata (Metadata (trim_space (cm_ScanID metadata)) (trim_space (cm_ScanResult metadata))) = true.

Lemma known_entry l s e row :
  recorded l s → db_scans s !! ledger_key e = Some row → length (le_CollectorScanID e) ≤ 255 → le_Result e ∈ scan_results →
  entry_storable e = true ∧ length (sl_PayloadHash row) = 32.
Proof.
  intros Hl Hrow Hlen Hres. assert (ledger_key e ∈ ledger_key <$> l.*1) as (e0 & Hk & ([e1 seen] & -> & Hin)%list_elem_of_fmap)%list_elem_of_fmap
    by (apply (rec_ledger _ _ Hl); by eexists).
  destruct (rec_entry _ _ Hl _ _ Hin) as [id Hid]. cbn [fst] in Hk. rewrite <- Hk, Hrow in Hid. injection Hid as ->.
  pose proof (rec_storable _ _ Hl) as Hst. rewrite Forall_forall in Hst. destruct (Hst _ Hin) as [Hst1 Hlen1]. cbn in *. split; [|done].
  unfold ledger_key in Hk. injection Hk as _ Hk. unfold entry_storable in *. apply andb_true_iff in Hst1 as [[Hid Hne]%andb_true_iff _].
  rewrite Hk, Hne, (bool_decide_eq_true_2 _ Hres), andb_true_r, andb_true_r. unfold scan_id_storable in *.
  apply andb_true_iff in Hid as [Hascii _]. apply andb_true_iff. split; [|by apply Nat.leb_le].
  apply trimmed_ascii. rewrite Hk. apply forallb_forall. intros c Hc. rewrite forallb_forall in Hascii. apply Hascii.
  apply list_elem_of_In, pad_key_elem, list_elem_of_In, Hc.
Qed.

(** ** The theorems *)

(** C36: The tables of collector scans are, at any time, the record of the scans
    that counted. Whatever the history of the services, there is one sequence of
    scans, each under a key of its own, that the ledger lists and that every
    (collector, resource) row is exact about: there is no row when none of the
    collector's scans saw the resource, and otherwise the row names the last one
    that did, counts the complete scans since up to three, and calls the resource
    missing from the third of them, at the time it completed. And a collector's
    confirmation, whatever fails in it, extends this sequence by its own scan —
    with the resources its rows became — or changes no row. *)
Theorem collector_rows_exact past s :
  inv_history (s :: past) →
  ∃ l, recorded l s ∧ (∀ p r, row_exact (scans_of p r l) (db_ci_states s !! (p, r)))
    ∧ ∀ now completed snap f principal rows reviewed metadata,
        let '(r, s') := confirm_collector now completed snap f principal rows reviewed metadata s in
        (∃ e seen, collector_entry completed principal rows reviewed metadata = Some e ∧ recorded (l ++ [(e, seen)]) s'
           ∧ ∀ p, r = Ok p → seen = pr_MatchedID <$> pv_Rows p)
        ∨ same_rows s s' ∧ ∀ p, r = Ok p → ∃ e, collector_entry completed principal rows reviewed metadata = Some e ∧ same_scan e s.
Proof using store_time_idem.
  intros Hh. destruct (history_recorded _ Hh _ _ eq_refl) as (l & Hl & _). exists l. split; [done|]. split.
  - intros p r. rewrite (rec_rows _ _ Hl). by apply row_for_exact, scans_of_history; [apply Hl|apply Hl].
  - intros *. by apply collector_records.
Qed.


(** C37: A scan counts once. A ledger entry is never changed or removed; and a
    confirmation under a scan identifier that its collector has used — whatever
    it carries, whatever fails — changes no row of the database. Undisturbed, a
    valid request with the rows, the fingerprint and the result of the first is
    answered as a success, with the reviewed fingerprint, and any other is
    refused as a conflict. *)
Theorem scan_counts_once past s now completed snap f principal rows reviewed metadata e :
  inv_history (s :: past) → snap ∈ s :: past →
  collector_entry completed principal rows reviewed metadata = Some e → is_Some (db_scans s !! ledger_key e) →
  (∀ old key row, old ∈ past → db_scans old !! key = Some row → db_scans s !! key = Some row)
  ∧ let '(r, s') := confirm_collector now completed snap f principal rows reviewed metadata s in
    same_rows s s' ∧ (∀ p, r = Ok p → same_scan e s)
    ∧ (request_valid principal rows reviewed metadata → cf_candidates f = false → cf_calls f = [] →
       (same_scan e s → ∃ p, r = Ok p ∧ pv_Fingerprint p = reviewed) ∧ (¬ same_scan e s → r = Err ErrCollectorScanConflict)).
Proof using store_time_idem.
  intros Hh Hsnap He [row Hrow]. destruct (history_recorded _ Hh _ _ eq_refl) as (l & Hl & Hkeep). split; [done|].
  destruct (confirm_collector _ _ _ _ _ _ _ _ _) as [r s'] eqn:E.
  destruct (collector_outcome _ _ _ _ _ _ _ _ _ _ _ (recorded_clean store_time_idem _ _ Hl) E)
    as [(e' & p & He' & _ & _ & (Hn & _) & _)|[Hsame Hr]]; [congruence|]. split; [done|]. split.
  { intros p ->. destruct Hr as [[er ?]|(e' & q & He' & Hs & _)]; [done|congruence]. }
  intros (Hp & Hrev & Hrows & Hmeta) Hcand Hcalls. pose proof E as E'. revert E'.
  unfold ConfirmCollectorIngestion, repository_ConfirmCollectorIngestion, confirmIngestion, in_tx_early. cbn [cm_ScanID cm_ScanResult].
  apply Z.eqb_neq in Hp as ->. rewrite Hmeta, (bool_decide_eq_false_2 _ Hrev), Hrows, Hcand, Hcalls. cbn [negb].
  unfold collector_entry in He. destruct (collectorIngestionPayloadHash _ _ _) as [hash|]; [|done]. injection He as <-.
  set (e := LedgerEntry _ _ _ _ _) in *. unfold ValidateCollectorIngestionMetadata in Hmeta. cbn [cm_ScanID cm_ScanResult] in Hmeta.
  apply andb_true_iff in Hmeta as [[_ Hlen]%negb_true_iff%orb_false_iff Hres]. apply bool_decide_eq_true in Hres. apply Nat.ltb_ge in Hlen.
  destruct (known_entry l s e row Hl Hrow Hlen Hres) as [Hst Hh32].
  assert (∀ id, id ∈ sortedIDSet (findIngestionCandidateIDs rows snap) → is_Some (db_resources s !! id)) as Hids.
  { intros id Hid. unfold sortedIDSet in Hid. rewrite sort_slice_perm, elem_of_elements in Hid.
    apply candidates_exist in Hid as [x Hx]; [|by apply (history_wf _ Hh)]. 
    destruct (history_keeps _ _ _ _ _ Hh _ _ eq_refl) as [_ Hk]. destruct (Hk _ Hsnap _ _ Hx) as (y & Hy & _). by exists y. }
  destruct (answer_again now _ rows reviewed principal e s row Hst Hrow Hh32 Hids) as [_ Ha].
  change ((_ ← call; ?m) (TxState s [])) with (m (TxState s [])).
  assert (same_scan e s ↔ MatchesRetry e (sl_PayloadHash row) (sl_Result row) = true) as Hss.
  { split; [intros (row' & Hrow' & Hm); congruence|by exists row]. }
  rewrite Hss. destruct (MatchesRetry e _ _).
  - destruct Ha as [p Ha]. intros E'. split; [|done]. intros _.
    destruct (confirm_body _ _ _ _ _ _ _ _ _ _) as [x st]. cbn in Ha. subst x. injection E' as <- _. exists p. split; [done|].
    destruct Hr as [[er ?]|(e' & q & _ & _ & [= ->] & Hq)]; done.
  - intros E'. split; [done|]. intros _. destruct (confirm_body _ _ _ _ _ _ _ _ _ _) as [x st]. cbn in Ha. subst x. by injection E' as <- _.
Qed.
End confirm.

(** ** A collector at work *)

Module CollectorSample.
#[local] Existing Instances sample_text sample_lower sample_conversion sample_times.

Definition text : list IngestionRow → list IngestionSnapshot → bytes := λ _ _, [].
Definition rows_json : list IngestionRow → bytes := λ rows, format_int (Z.of_nat (length rows)).
Definition reviewed : bytes := pv_Fingerprint sample_preview.
Definition fine : confirm_faults := ConfirmFaults false [] Committed.
(** Collector 4 confirms the service of [sample_row], then complete scans without it. *)
Definition confirm (completed : Z) (rows : list IngestionRow) (fingerprint id : bytes) (s : inv_db) : result inventory_error IngestionPreview * inv_db :=
  ConfirmCollectorIngestion (λ _, []) 9 text rows_json completed s fine 4 rows fingerprint (Metadata id (gs "complete")) s.
Definition empty_fingerprint : bytes := pv_Fingerprint (PreviewIngestion text [] []).
Definition seen_once : inv_db := (confirm 100 [sample_row] reviewed (gs " scan-1") after_host).2.
Definition omitted_once : inv_db := (confirm 200 [] empty_fingerprint (gs "scan-2") seen_once).2.
Definition omitted_twice : inv_db := (confirm 300 [] empty_fingerprint (gs "scan-3") omitted_once).2.
Definition omitted_thrice : inv_db := (confirm 400 [] empty_fingerprint (gs "scan-4") omitted_twice).2.

#[local] Notation sample_run := (history (λ _, []) (λ _, []) text rows_json).
Lemma collect_step completed rows fingerprint id s past :
  sample_run (s :: past) → sample_run ((confirm completed rows fingerprint id s).2 :: s :: past).
Proof. intros Hh. apply history_step; [exact Hh|]. apply step_collect. apply list_elem_of_here. Qed.
Lemma collector_sample_history : sample_run [omitted_thrice; omitted_twice; omitted_once; seen_once; after_host; empty_inventory].
Proof.
  apply (collect_step 400 [] empty_fingerprint (gs "scan-4")), (collect_step 300 [] empty_fingerprint (gs "scan-3")),
    (collect_step 200 [] empty_fingerprint (gs "scan-2")), (collect_step 100 [sample_row] reviewed (gs " scan-1")).
  apply history_step; [apply history_start|]. apply step_create.
Qed.

(** Missing since the third complete scan that did not see it. *)
Lemma collector_rows_exact_witness :
  db_ci_states omitted_twice !! (4, 2)%Z = Some (CIStateRow 2 (gs "scan-1") (Some (gs "scan-3")) None)
  ∧ db_ci_states omitted_thrice !! (4, 2)%Z = Some (CIStateRow 3 (gs "scan-1") (Some (gs "scan-4")) (Some 400%Z))
  ∧ ∃ l, recorded l omitted_thrice ∧ ∀ p r, row_exact (scans_of p r l) (db_ci_states omitted_thrice !! (p, r)).
Proof.
  split; [vm_compute; reflexivity|]. split; [vm_compute; reflexivity|].
  destruct (collector_rows_exact (λ _, eq_refl) (λ _, []) (λ _, []) text rows_json _ _ collector_sample_history) as (l & Hl & He & _).
  exists l. split; [exact Hl|exact He].
Defined.


Definition entry_1 : CollectorScanLedgerEntry :=
  default (LedgerEntry 0 [] [] [] 0) (collector_entry rows_json 500 4 [sample_row] reviewed (Metadata (gs "scan-1") (gs "complete"))).
(** The first scan, sent again: answered, and nothing changes. *)
Lemma scan_counts_once_witness :
  let '(r, s') := confirm 500 [sample_row] reviewed (gs "scan-1") omitted_thrice in
  same_rows omitted_thrice s' ∧ ∃ p, r = Ok p ∧ pv_Fingerprint p = reviewed.
Proof.
  destruct (scan_counts_once (λ _, eq_refl) (λ _, []) (λ _, []) text rows_json _ _ 9 500 omitted_thrice fine 4 [sample_row]
    reviewed (Metadata (gs "scan-1") (gs "complete")) entry_1 collector_sample_history) as [_ Hs].
  - by left.
  - vm_compute. reflexivity.
  - exists (default (ScanRow 0 [] [] 0) (db_scans omitted_thrice !! ledger_key entry_1)). vm_compute. reflexivity.
  - unfold confirm. destruct (ConfirmCollectorIngestion _ _ _ _ _ _ _ _ _ _ _ _) as [r s']. destruct Hs as (Hsame & _ & Hs).
    split; [done|]. apply Hs; [|done|done|].
    + split; [done|]. split; [vm_compute; discriminate|]. split; vm_compute; reflexivity.
    + exists (default (ScanRow 0 [] [] 0) (db_scans omitted_thrice !! ledger_key entry_1)). split; vm_compute; reflexivity.
Defined.
End CollectorSample.
