(* ===== verification/Encoding.v ===== *)
(** * Encodings of credentials

    The standard library's code behind tokens and stored hashes: unpadded
    base64, HMAC-SHA-256, and the splitting of a text at a byte. *)
From S2P Require Import Prelude GoText Sha256.

(** ** Splitting *)

(** [strings.Split(s, sep)] and [strings.Cut(s, sep)] for a separator of one byte. *)
Fixpoint split_on (sep : byte) (s : bytes) : list bytes :=
  match s with
  | [] => [[]]
  | c :: t =>
      if c =?b sep then [] :: split_on sep t
      else match split_on sep t with [] => [[c]] | p :: ps => (c :: p) :: ps end
  end.
Fixpoint cut_on (sep : byte) (s : bytes) : option (bytes * bytes) :=
  match s with
  | [] => None
  | c :: t => if c =?b sep then Some ([], t) else prod_map (cons c) id <$> cut_on sep t
  end.

(** The texts before and after [s[strings.LastIndex(s, sep)]]. *)
Fixpoint cut_last (sep : byte) (s : bytes) : option (bytes * bytes) :=
  match s with
  | [] => None
  | c :: t =>
      match cut_last sep t with
      | Some (a, b) => Some (c :: a, b)
      | None => if c =?b sep then Some ([], t) else None
      end
  end.

Definition free_of (sep : byte) (s : bytes) : Prop := Forall (λ c, c ≠ sep) s.

Lemma split_on_free sep s : free_of sep s → split_on sep s = [s].
Proof.
  induction 1 as [|c s Hc _ IH]; [done|]. cbn. by rewrite bool_decide_eq_false_2, IH by done.
Qed.

Lemma split_on_app sep s t : free_of sep s → split_on sep (s ++ sep :: t) = s :: split_on sep t.
Proof.
  induction 1 as [|c s Hc _ IH]; cbn; [by rewrite bool_decide_eq_true_2|].
  by rewrite bool_decide_eq_false_2, IH by done.
Qed.

Lemma cut_on_app sep s t : free_of sep s → cut_on sep (s ++ sep :: t) = Some (s, t).
Proof.
  induction 1 as [|c s Hc _ IH]; cbn; [by rewrite bool_decide_eq_true_2|].
  by rewrite bool_decide_eq_false_2, IH by done.
Qed.

Lemma cut_on_Some sep s a b : cut_on sep s = Some (a, b) → s = a ++ sep :: b ∧ free_of sep a.
Proof.
  revert a. induction s as [|c s IH]; intros a; [done|]. cbn. case_bool_decide as Ec.
  - intros ?. simplify_eq. split; [done|apply Forall_nil_2].
  - intros ([a' b'] & E & ?)%fmap_Some. cbn in *. simplify_eq. destruct (IH a' E) as [-> Hf]. split; [done|]. by constructor.
Qed.

Lemma cut_last_free sep s : free_of sep s → cut_last sep s = None.
Proof. induction 1 as [|c s Hc _ IH]; [done|]. cbn. by rewrite IH, bool_decide_eq_false_2. Qed.

Lemma cut_last_app sep s t : free_of sep t → cut_last sep (s ++ sep :: t) = Some (s, t).
Proof.
  intros Ht. induction s as [|c s IH]; cbn; [|by rewrite IH].
  by rewrite (cut_last_free _ _ Ht), bool_decide_eq_true_2.
Qed.

Lemma cut_last_None sep s : cut_last sep s = None → free_of sep s.
Proof.
  induction s as [|c s IH]; [intros ?; apply Forall_nil_2|]. cbn. destruct (cut_last sep s) as [[]|]; [done|].
  case_bool_decide; [done|]. intros ?. constructor; [done|by apply IH].
Qed.

Lemma cut_last_Some sep s a b : cut_last sep s = Some (a, b) → s = a ++ sep :: b ∧ free_of sep b.
Proof.
  revert a. induction s as [|c s IH]; intros a; [done|]. cbn. destruct (cut_last sep s) as [[a' b']|] eqn:E.
  - intros ?. simplify_eq. destruct (IH a' eq_refl) as [-> Hf]. done.
  - case_bool_decide; [|done]. intros ?. simplify_eq. split; [done|]. by apply cut_last_None.
Qed.

(** ** Numbers *)

Lemma format_uint_digits n : forallb is_digit (format_uint n) = true.
Proof. by apply digits_all_digits. Qed.

Lemma format_uint_free sep n : is_digit sep = false → free_of sep (format_uint n).
Proof.
  intros Hs. apply Forall_forall. intros c Hc ->.
  pose proof (proj1 (forallb_forall _ _) (format_uint_digits n) sep (proj1 (list_elem_of_In _ _) Hc)). congruence.
Qed.

Lemma format_int_free sep n : is_digit sep = false → sep ≠ "-"%char → free_of sep (format_int n).
Proof.
  intros Hs Hm. unfold format_int. case_match; [|by apply format_uint_free].
  apply Forall_app. split; [by constructor|by apply format_uint_free].
Qed.

(** [ParseInt] reads back what [FormatInt] wrote. *)
Lemma parse_format_int n : int64_ok n = true → parse_int (format_int n) = Some n.
Proof.
  intros Hn. pose proof Hn as Hb. unfold int64_ok, min_int64, max_int64 in Hb. bool_inv. unfold format_int.
  destruct (n <? 0)%Z eqn:En; bool_inv.
  - change (gs "-" ++ format_uint (- n)) with ("-"%char :: format_uint (- n)). unfold parse_int.
    rewrite (bool_decide_eq_true_2 ("-"%char = "-"%char)) by done. cbn -[format_uint digits_value int64_ok].
    rewrite (bool_decide_eq_false_2 (format_uint (- n) = [])) by (apply digits_nonempty; lia).
    rewrite format_uint_digits, digits_value_format by (unfold max_uint64; lia). cbn [orb negb].
    by rewrite Z.opp_involutive, Hn.
  - pose proof (format_uint_digits n) as Hd. pose proof (digits_value_format n ltac:(unfold max_uint64; lia)) as Hv.
    assert (format_uint n ≠ []) as Hne by (apply digits_nonempty; lia). revert Hd Hv Hne.
    generalize (format_uint n). intros [|c t]; [done|]. intros Hd Hv _. unfold parse_int.
    assert (is_digit c = true) as Hc by (cbn in Hd; by bool_inv).
    rewrite (bool_decide_eq_false_2 (c = "-"%char)), (bool_decide_eq_false_2 (c = "+"%char)) by (intros ->; done).
    rewrite bool_decide_eq_false_2, Hd, Hv by done. cbn [orb negb]. by rewrite Hn.
Qed.

(** ** Trimming *)

(** A printable ASCII character other than the space begins and ends no space. *)
Definition plain (c : byte) : bool := in_range 33 126 c.
Definition unlike_plain (p : bytes) : bool := match p with x :: _ => negb (plain x) | [] => false end.

Lemma trim_from_plain pats s :
  forallb unlike_plain pats = true → Forall (λ c, plain c = true) s → trim_from pats 0 s = s.
Proof.
  rewrite forallb_forall. intros Hp Hs. destruct s as [|c s]; [done|]. apply Forall_cons in Hs as [Hc _]. cbn [trim_from].
  destruct (list_find _ pats) as [[i p]|] eqn:E; [|done].
  apply list_find_Some in E as (Hi & Hpre & _). apply list_elem_of_lookup_2, list_elem_of_In, Hp in Hi.
  destruct p as [|x p]; [done|]. unfold is_prefix in Hpre. bool_inv. injection Hpre as -> _. cbn in Hi. bool_inv. congruence.
Qed.

Lemma trim_space_plain s : Forall (λ c, plain c = true) s → trim_space s = s.
Proof.
  intros Hs. unfold trim_space, trim_left, trim_right. rewrite (trim_from_plain spaces) by (done || by vm_compute).
  rewrite trim_from_plain; [apply reverse_involutive|by vm_compute|by apply Forall_reverse].
Qed.

(** ** Base64 without padding *)

(** The alphabets of [base64.RawStdEncoding] and [base64.RawURLEncoding]. *)
Class Base64 : Type := alphabet : bytes.
Definition base64_common : bytes := gs "ABCDEFGHIJKLMNOPQRSTUVWXYZabcdefghijklmnopqrstuvwxyz0123456789".
Definition RawStdEncoding : Base64 := base64_common ++ gs "+/".
Definition RawURLEncoding : Base64 := base64_common ++ gs "-_".

Definition sextet_char `{Base64} (v : Z) : byte := nth (Z.to_nat v) alphabet nul.
Definition sextet_of `{Base64} (c : byte) : option Z := (λ p, Z.of_nat p.1) <$> list_find (λ d, d = c) alphabet.

(** [EncodeToString]: the sextets of each three bytes, of two or one at the end. *)
Fixpoint sextets (s : bytes) : list Z :=
  match s with
  | x :: y :: z :: s =>
      (bv x / 4 :: bv x mod 4 * 16 + bv y / 16 :: bv y mod 16 * 4 + bv z / 64 :: bv z mod 64 :: sextets s)%Z
  | [x; y] => [bv x / 4; bv x mod 4 * 16 + bv y / 16; bv y mod 16 * 4]%Z
  | [x] => [bv x / 4; bv x mod 4 * 16]%Z
  | [] => []
  end.
Definition EncodeToString `{Base64} (s : bytes) : bytes := sextet_char <$> sextets s.

(** [DecodeString]: line breaks are skipped, any other character outside the
    alphabet is an error, and so is a single sextet at the end; bits left over
    at the end are dropped. *)
Fixpoint unsextets (l : list Z) : option bytes :=
  match l with
  | a :: b :: c :: d :: l =>
      s ← unsextets l;
      Some (bz (a * 4 + b / 16) :: bz (b mod 16 * 16 + c / 4) :: bz (c mod 4 * 64 + d) :: s)
  | [a; b; c] => Some [bz (a * 4 + b / 16); bz (b mod 16 * 16 + c / 4)]
  | [a; b] => Some [bz (a * 4 + b / 16)]
  | [_] => None
  | [] => Some []
  end%Z.
Definition is_line_break (c : byte) : bool := (bv c =? 10)%Z || (bv c =? 13)%Z.
Definition DecodeString `{Base64} (s : bytes) : option bytes :=
  l ← mapM sextet_of (filter (λ c, is_line_break c = false) s);
  unsextets l.

(** What the round trip needs of an alphabet. *)
Class Base64Laws (A : Base64) : Prop := {
  sextet_round v : (0 ≤ v < 64)%Z → sextet_of (sextet_char v) = Some v;
  sextet_plain v : (0 ≤ v < 64)%Z → is_line_break (sextet_char v) = false;
}.

(** A statement about all sextets is checked on each. *)
Lemma all_sextets (P : Z → bool) :
  forallb P (Z.of_nat <$> seq 0 64) = true → ∀ v, (0 ≤ v < 64)%Z → P v = true.
Proof.
  rewrite forallb_forall. intros H v Hv. apply H. apply list_elem_of_In, list_elem_of_fmap.
  exists (Z.to_nat v). split; [lia|]. apply elem_of_seq. lia.
Qed.

Definition sextet_check (A : Base64) (v : Z) : bool :=
  bool_decide (sextet_of (sextet_char v) = Some v) && negb (is_line_break (sextet_char v)).
Lemma base64_laws (A : Base64) : forallb (sextet_check A) (Z.of_nat <$> seq 0 64) = true → Base64Laws A.
Proof. intros H. split; intros v Hv; pose proof (all_sextets _ H v Hv) as E; unfold sextet_check in E; by bool_inv. Qed.
#[export] Instance std_laws : Base64Laws RawStdEncoding.
Proof. apply base64_laws. by vm_compute. Qed.
#[export] Instance url_laws : Base64Laws RawURLEncoding.
Proof. apply base64_laws. by vm_compute. Qed.

Definition is_sextet (v : Z) : Prop := (0 ≤ v < 64)%Z.

(** Three bytes at a time. *)
Lemma three_ind (P : bytes → Prop) :
  P [] → (∀ x, P [x]) → (∀ x y, P [x; y]) → (∀ x y z s, P s → P (x :: y :: z :: s)) → ∀ s, P s.
Proof.
  intros H0 H1 H2 H3. assert (∀ n s, length s ≤ n → P s) as H; [|intros s; by apply (H (length s))].
  induction n as [|n IH]; intros [|x [|y [|z s]]] Hl; cbn in Hl; auto; try lia. apply H3, IH. lia.
Qed.

Ltac byte_bounds := repeat match goal with c : byte |- _ => lazymatch goal with
  | _ : (0 ≤ bv c < 256)%Z |- _ => fail | _ => pose proof (bv_range c) end end.

Lemma sextets_range s : Forall is_sextet (sextets s).
Proof.
  unfold is_sextet. induction s using three_ind; cbn [sextets]; byte_bounds;
    repeat (apply Forall_cons_2; [Z.to_euclidean_division_equations; lia|]); [apply Forall_nil_2..|done].
Qed.

Lemma bz_is c z : bv c = z → bz z = c.
Proof. intros <-. apply bz_bv. Qed.

Lemma unsextets_sextets s : unsextets (sextets s) = Some s.
Proof.
  induction s using three_ind; cbn [sextets unsextets]; [done|..|rewrite IHs; cbn [mbind option_bind]];
    byte_bounds; repeat f_equal; apply bz_is; Z.to_euclidean_division_equations; lia.
Qed.

Lemma decode_encode `{Base64Laws} s : DecodeString (EncodeToString s) = Some s.
Proof.
  unfold DecodeString, EncodeToString. pose proof (sextets_range s) as Hr.
  assert (∀ l, Forall is_sextet l → mapM sextet_of (filter (λ c, is_line_break c = false) (sextet_char <$> l)) = Some l)
    as ->; [|apply unsextets_sextets|done].
  clear s Hr. induction 1 as [|v l Hv _ IH]; [done|]. cbn [fmap list_fmap].
  rewrite filter_cons_True by (by apply sextet_plain). cbn [mapM]. rewrite sextet_round by done. cbn. by rewrite IH.
Qed.

(** Every character of an encoding is in the alphabet. *)
Lemma encode_chars `{Base64} (P : byte → Prop) s :
  (∀ v, (0 ≤ v < 64)%Z → P (sextet_char v)) → Forall P (EncodeToString s).
Proof. intros HP. apply Forall_fmap. eapply Forall_impl; [apply sextets_range|]. exact HP. Qed.

Lemma encode_free (A : Base64) sep s :
  forallb (λ v, negb (sextet_char v =?b sep)) (Z.of_nat <$> seq 0 64) = true → free_of sep (EncodeToString s).
Proof.
  intros H. apply encode_chars. intros v Hv. pose proof (all_sextets _ H v Hv) as E. cbn beta in E. by bool_inv.
Qed.

Lemma encode_nonempty `{Base64} s : s ≠ [] → EncodeToString s ≠ [].
Proof. by destruct s as [|x [|y [|z s]]]. Qed.

Example base64_std : @EncodeToString RawStdEncoding (gs "light work.") = gs "bGlnaHQgd29yay4".
Proof. by vm_compute. Qed.
Example base64_trailing : @DecodeString RawURLEncoding (gs "QR") = @DecodeString RawURLEncoding (gs "QQ").
Proof. by vm_compute. Qed.

(** ** HMAC *)

(** [hmac.New(sha256.New, key)] over a message: a long key is hashed, a short one padded to the block. *)
Definition hmac_key (key : bytes) : bytes :=
  let k := if (64 <? length key)%nat then sha256 key else key in
  k ++ repeat nul (64 - length k).
Definition xor_byte (z : Z) (c : byte) : byte := bz (Z.lxor (bv c) z).
Definition hmac_sha256 (key msg : bytes) : bytes :=
  let k := hmac_key key in
  sha256 ((xor_byte 92 <$> k) ++ sha256 ((xor_byte 54 <$> k) ++ msg)).

(** RFC 4231, test cases 2 and 6. *)
Example hmac_short_key :
  hex_of (hmac_sha256 (gs "Jefe") (gs "what do ya want for nothing?"))
  = gs "5bdcc146bf60754e6a042426089575c75a003f089d2739839dec58b964ec3843".
Proof. by vm_compute. Qed.
Example hmac_long_key :
  hex_of (hmac_sha256 (repeat (bz 170) 131) (gs "Test Using Larger Than Block-Size Key - Hash Key First"))
  = gs "60e431591ee0b67f0d8a26aacbf5b77f8e0bc6213728c5140546040f0ee37f54".
Proof. by vm_compute. Qed.
