(* ===== verification/Auth.v ===== *)
(** * Users, passwords and bearer tokens

    [service/password_hasher.go], [service/auth_service.go],
    [store/user_repository.go] and the upsert of [cmd/bootstrap-admin]: what a
    password and a token are checked against, and every write that revokes. *)
From S2P Require Import Prelude GoText GoAny Sha256 Encoding.

(** ** Password hashes *)

(** [golang.org/x/crypto/argon2]: the key derivation, of a password and a salt
    with time, memory, threads and length, and the version it implements. *)
Class Argon2 : Type := {
  IDKey : bytes → bytes → Z → Z → Z → Z → bytes;
  argon2_Version : Z;
}.
Class Argon2Laws (A : Argon2) : Prop := {
  length_IDKey password salt time memory threads n :
    (0 ≤ n)%Z → length (IDKey password salt time memory threads n) = Z.to_nat n;
  argon2_is_v13 : argon2_Version = 19%Z;
}.

Definition argon2Memory : Z := (64 * 1024)%Z.
Definition argon2Time : Z := 3.
Definition argon2Threads : Z := 1.
Definition argon2SaltLen : nat := 16.
Definition argon2KeyLen : nat := 32.

Definition legacySHA256HexLen : nat := 64.
Definition hexDigits : bytes := gs "0123456789abcdef".
Definition canonicalVersion : bytes := gs "v=19".
Definition canonicalParams : bytes := gs "m=65536,t=3,p=1".

Definition IsLegacyHash (storedHash : bytes) : bool :=
  (length storedHash =? legacySHA256HexLen)%nat && forallb (λ c, contains_byte c hexDigits) storedHash.
Definition IsArgon2idHash (storedHash : bytes) : bool := is_prefix (gs "$argon2id$") storedHash.

Inductive hash_error : Type := BadHashFormat | BadHashVersion | BadHashParams | BadSalt | BadKey.

(** The salt and the key of an encoded hash. *)
Definition decodeArgon2id (encodedHash : bytes) : result hash_error (bytes * bytes) :=
  match split_on "$"%char encodedHash with
  | [_; _; version; params; salt64; key64] =>
      _ ← guard_err (negb (version =?b canonicalVersion)) BadHashVersion;
      _ ← guard_err (negb (params =?b canonicalParams)) BadHashParams;
      match @DecodeString RawStdEncoding salt64 with
      | None => Err BadSalt
      | Some salt =>
          _ ← guard_err (negb (length salt =? argon2SaltLen)%nat) BadSalt;
          match @DecodeString RawStdEncoding key64 with
          | None => Err BadKey
          | Some key => _ ← guard_err (negb (length key =? argon2KeyLen)%nat) BadKey; Ok (salt, key)
          end
      end
  | _ => Err BadHashFormat
  end.

Section passwords.
Context `{Argon2}.

(** [salt] is what [rand.Read] filled the sixteen bytes with. *)
Definition HashPasswordArgon2id (salt password : bytes) : bytes :=
  let key := IDKey password salt argon2Time argon2Memory argon2Threads (Z.of_nat argon2KeyLen) in
  gs "$argon2id$v=" ++ format_int argon2_Version ++ gs "$m=" ++ format_int argon2Memory
  ++ gs ",t=" ++ format_int argon2Time ++ gs ",p=" ++ format_int argon2Threads
  ++ gs "$" ++ @EncodeToString RawStdEncoding salt ++ gs "$" ++ @EncodeToString RawStdEncoding key.

Definition verifyArgon2id (password encodedHash : bytes) : bool :=
  match decodeArgon2id encodedHash with
  | Err _ => false
  | Ok (salt, key) =>
      key =?b IDKey password salt argon2Time argon2Memory argon2Threads (Z.of_nat (length key))
  end.
Definition verifyLegacySHA256 (password hexHash : bytes) : bool := hexHash =?b hex_of (sha256 password).

Definition VerifyPassword (password storedHash : bytes) : bool :=
  if IsArgon2idHash storedHash then verifyArgon2id password storedHash
  else if IsLegacyHash storedHash then verifyLegacySHA256 password storedHash
  else false.
End passwords.

(** ** The users table *)

Record user_row : Type := UserRow {
  ur_Email : bytes;
  ur_PasswordHash : bytes;
  ur_DisplayName : bytes;
  ur_RoleID : Z;
  ur_IsActive : Z;                  (** a tinyint *)
  ur_Version : Z;                   (** authorization_version, unsigned 64 bits *)
}.
Record users_db : Type := UsersDb {
  ud_users : gmap Z user_row;
  ud_roles : gmap Z bytes;          (** role names by id *)
  ud_next : Z;                      (** the next auto-increment id *)
}.
Record UserCredential : Type := MkUserCredential {
  uc_ID : Z; uc_Email : bytes; uc_RoleName : bytes; uc_PasswordHash : bytes; uc_IsActive : bool;
  uc_AuthorizationVersion : Z;
}.

(** MySQL's side: the weight string of the columns' collation and [lower]. *)
Class UserText : Type := { text_weight : bytes → bytes; sql_lower : bytes → bytes }.
(** The collation ignores case and tells all other ASCII texts apart; [lower]
    changes nothing the collation sees. *)
Class UserTextLaws (T : UserText) : Prop := {
  weight_ascii s t : Forall (λ c, (bv c < 128)%Z) s → Forall (λ c, (bv c < 128)%Z) t →
    text_weight s = text_weight t → ascii_lower s = ascii_lower t;
  weight_lower s : text_weight (sql_lower s) = text_weight s;
}.

Inductive auth_error : Type :=
  | ErrInvalidCredentials
  | ErrInvalidToken
  | ErrInvalidAuthorizationMutation
  | ErrNoSuchUserOrRole             (** no row affected *)
  | ErrHashChanged                  (** the compare-and-swap matched no row *)
  | ErrAdminRoleMissing
  | ErrUserStore.                   (** a failed statement *)
#[export] Instance auth_error_eq_dec : EqDecision auth_error.
Proof. solve_decision. Defined.

(** A statement commits by itself; its answer may be lost. *)
Inductive write_outcome : Type := WriteDone | WriteFailed | WriteUnseen.
Definition exec_write {A} (o : write_outcome) (stmt : users_db → result auth_error (A * users_db)) (s : users_db) :
    result auth_error A * users_db :=
  match o, stmt s with
  | WriteFailed, _ => (Err ErrUserStore, s)
  | WriteDone, Ok (a, s') => (Ok a, s')
  | WriteDone, Err e => (Err e, s)
  | WriteUnseen, Ok (_, s') => (Err ErrUserStore, s')
  | WriteUnseen, Err _ => (Err ErrUserStore, s)
  end.

Section users.
Context `{UserText}.

Definition same_user_text (s t : bytes) : bool := text_weight s =?b text_weight t.

(** The join with roles: a user without a role row is not found. *)
Definition credential (s : users_db) (id : Z) : option UserCredential :=
  r ← ud_users s !! id;
  name ← ud_roles s !! ur_RoleID r;
  Some (MkUserCredential id (ur_Email r) name (ur_PasswordHash r) (negb (ur_IsActive r =? 0)%Z) (ur_Version r)).

Definition FindByID (fails : bool) (id : Z) (s : users_db) : result auth_error (option UserCredential) :=
  if fails then Err ErrUserStore else Ok (credential s id).
Definition FindByEmail (fails : bool) (email : bytes) (s : users_db) : result auth_error (option UserCredential) :=
  if fails then Err ErrUserStore
  else Ok (head (omap (λ p : Z * user_row,
             if same_user_text (sql_lower (ur_Email p.2)) (sql_lower email) then credential s p.1 else None)
             (map_to_list (ud_users s)))).

(** [authorization_version + 1]: out of range is an error of the statement. *)
Definition bump (v : Z) : result auth_error Z := if (v =? max_uint64)%Z then Err ErrUserStore else Ok (v + 1)%Z.
Definition put_user (id : Z) (r : user_row) (s : users_db) : users_db :=
  UsersDb (<[id := r]> (ud_users s)) (ud_roles s) (ud_next s).

(** [select id from roles where name = ? limit 1]. *)
Definition role_named (name : bytes) (s : users_db) : option Z :=
  fst <$> head (filter (λ p : Z * bytes, same_user_text p.2 name = true) (map_to_list (ud_roles s))).

(** An update of one row by id. *)
Definition update_user (id : Z) (f : user_row → result auth_error user_row) (s : users_db) :
    result auth_error (() * users_db) :=
  match ud_users s !! id with
  | None => Err ErrNoSuchUserOrRole
  | Some r => r' ← f r; Ok (tt, put_user id r' s)
  end.

Definition ChangeRole (o : write_outcome) (userID : Z) (roleName : bytes) : users_db → result auth_error () * users_db :=
  exec_write o (λ s,
    match role_named (trim_space roleName) s with
    | None => Err ErrNoSuchUserOrRole
    | Some role => update_user userID (λ r, v ← bump (ur_Version r);
        Ok (UserRow (ur_Email r) (ur_PasswordHash r) (ur_DisplayName r) role (ur_IsActive r) v)) s
    end).
Definition SetActive (o : write_outcome) (userID : Z) (active : bool) : users_db → result auth_error () * users_db :=
  exec_write o (update_user userID (λ r, v ← bump (ur_Version r);
    Ok (UserRow (ur_Email r) (ur_PasswordHash r) (ur_DisplayName r) (ur_RoleID r) (if active then 1 else 0) v))).
Definition UpdatePasswordHash (o : write_outcome) (userID : Z) (passwordHash : bytes) :
    users_db → result auth_error () * users_db :=
  exec_write o (update_user userID (λ r, v ← bump (ur_Version r);
    Ok (UserRow (ur_Email r) passwordHash (ur_DisplayName r) (ur_RoleID r) (ur_IsActive r) v))).

(** The driver counts changed rows, so that writing the stored text again is a miss, too. *)
Definition UpgradePasswordHash (o : write_outcome) (userID : Z) (expectedOldHash newPasswordHash : bytes) :
    users_db → result auth_error () * users_db :=
  exec_write o (λ s,
    match ud_users s !! userID with
    | Some r =>
        if same_user_text (ur_PasswordHash r) expectedOldHash && negb (ur_PasswordHash r =?b newPasswordHash)
        then Ok (tt, put_user userID (UserRow (ur_Email r) newPasswordHash (ur_DisplayName r) (ur_RoleID r) (ur_IsActive r) (ur_Version r)) s)
        else Err ErrHashChanged
    | None => Err ErrHashChanged
    end).

(** ** The service *)

Context `{UnicodeLower, Argon2} (signingKey : bytes).

Record LoginResponse : Type := MkLoginResponse { lr_Token : bytes; lr_Role : bytes; lr_UserID : Z }.
(** [IssuedAt] in Unix seconds. *)
Record AuthenticatedUser : Type := MkAuthenticatedUser { au_ID : Z; au_Role : bytes; au_IssuedAt : Z }.

Definition colon : byte := ":"%char.
Definition token_payload (id version issuedAt : Z) : bytes :=
  format_uint id ++ colon :: format_uint version ++ colon :: format_int issuedAt.
Definition token_signature (payload : bytes) : bytes := hex_of (hmac_sha256 signingKey payload).
Definition issueToken (now : Z) (user : UserCredential) : bytes :=
  let payload := token_payload (uc_ID user) (uc_AuthorizationVersion user) now in
  @EncodeToString RawURLEncoding (payload ++ colon :: token_signature payload).

(** [snap] is the database when the user was read, [s] when the hash is upgraded. *)
Definition Login (snap : users_db) (read_fails : bool) (o : write_outcome) (now : Z) (salt email password : bytes)
    (s : users_db) : result auth_error LoginResponse * users_db :=
  match FindByEmail read_fails (trim_space (unicode_lower email)) snap with
  | Err e => (Err e, s)
  | Ok None => (Err ErrInvalidCredentials, s)
  | Ok (Some user) =>
      if negb (uc_IsActive user) then (Err ErrInvalidCredentials, s)
      else if negb (VerifyPassword password (uc_PasswordHash user)) then (Err ErrInvalidCredentials, s)
      else
        let response := MkLoginResponse (issueToken now user) (uc_RoleName user) (uc_ID user) in
        if IsLegacyHash (uc_PasswordHash user) then
          match UpgradePasswordHash o (uc_ID user) (uc_PasswordHash user) (HashPasswordArgon2id salt password) s with
          | (Err _, s') => (Err ErrInvalidCredentials, s')
          | (Ok _, s') => (Ok response, s')
          end
        else (Ok response, s)
  end.

(** The claims of a well-signed token: user, version, time of issue. *)
Definition token_claims (token : bytes) : option (Z * Z * Z) :=
  decoded ← @DecodeString RawURLEncoding token;
  '(payload, signature) ← cut_last colon decoded;
  if (payload =?b []) || negb (signature =?b token_signature payload) then None
  else match split_on colon payload with
       | [p0; p1; p2] =>
           id ← parse_uint p0;
           if (id =? 0)%Z then None
           else version ← parse_uint p1; issuedAt ← parse_int p2; Some (id, version, issuedAt)
       | _ => None
       end.

Definition VerifyToken (read_fails : bool) (s : users_db) (token : bytes) : result auth_error AuthenticatedUser :=
  match token_claims token with
  | None => Err ErrInvalidToken
  | Some (id, version, issuedAt) =>
      match FindByID read_fails id s with
      | Err e => Err e
      | Ok (Some current) =>
          if uc_IsActive current && (uc_AuthorizationVersion current =? version)%Z
          then Ok (MkAuthenticatedUser id (uc_RoleName current) issuedAt)
          else Err ErrInvalidToken
      | Ok None => Err ErrInvalidToken
      end
  end.

Definition ChangeUserRole (o : write_outcome) (userID : Z) (roleName : bytes) (s : users_db) : result auth_error () * users_db :=
  let roleName := trim_space roleName in
  if (userID =? 0)%Z || (roleName =?b []) then (Err ErrInvalidAuthorizationMutation, s) else ChangeRole o userID roleName s.
Definition SetUserActive (o : write_outcome) (userID : Z) (active : bool) (s : users_db) : result auth_error () * users_db :=
  if (userID =? 0)%Z then (Err ErrInvalidAuthorizationMutation, s) else SetActive o userID active s.
Definition ResetUserPassword (o : write_outcome) (salt : bytes) (userID : Z) (newPassword : bytes) (s : users_db) :
    result auth_error () * users_db :=
  if (userID =? 0)%Z || (newPassword =?b []) then (Err ErrInvalidAuthorizationMutation, s)
  else UpdatePasswordHash o userID (HashPasswordArgon2id salt newPassword) s.

(** ** The administrator's bootstrap *)

Inductive bootstrapOutcome : Type := OutcomeCreated | OutcomeReactivated.

(** The upsert against the unique key of [users.email]. *)
Definition upsert_admin (email hash : bytes) (role : Z) (s : users_db) : result auth_error (bootstrapOutcome * users_db) :=
  match head (filter (λ p : Z * user_row, same_user_text (ur_Email p.2) email = true) (map_to_list (ud_users s))) with
  | Some (id, r) =>
      v ← bump (ur_Version r);
      Ok (OutcomeReactivated, put_user id (UserRow (ur_Email r) hash (gs "ControlHub Admin") role 1 v) s)
  | None =>
      if (max_uint64 <? ud_next s)%Z then Err ErrUserStore
      else Ok (OutcomeCreated, UsersDb (<[ud_next s := UserRow email hash (gs "ControlHub Admin") role 1 1]> (ud_users s))
                 (ud_roles s) (ud_next s + 1))
  end.
Definition runBootstrap (read_fails : bool) (o : write_outcome) (salt email password : bytes) (s : users_db) :
    result auth_error bootstrapOutcome * users_db :=
  if read_fails then (Err ErrUserStore, s)
  else match role_named (gs "admin") s with
       | None => (Err ErrAdminRoleMissing, s)
       | Some role => exec_write o (upsert_admin email (HashPasswordArgon2id salt password) role) s
       end.
(** The credentials come from the environment; the email is stored in lower case. *)
Definition resolveBootstrapConfig (email password : bytes) : option (bytes * bytes) :=
  let email := trim_space email in
  if (email =?b []) || (trim_space password =?b []) then None else Some (unicode_lower email, password).
End users.

(** ** Passwords *)

Section password_facts.
Context `{A : Argon2, !Argon2Laws A}.

Definition derived_key (salt password : bytes) : bytes :=
  IDKey password salt argon2Time argon2Memory argon2Threads (Z.of_nat argon2KeyLen).

Lemma length_derived salt password : length (derived_key salt password) = argon2KeyLen.
Proof. unfold derived_key. rewrite length_IDKey; [apply Nat2Z.id|lia]. Qed.

Lemma hash_text salt password :
  HashPasswordArgon2id salt password
  = [] ++ "$"%char :: gs "argon2id" ++ "$"%char :: canonicalVersion ++ "$"%char :: canonicalParams ++ "$"%char ::
      @EncodeToString RawStdEncoding salt ++ "$"%char :: @EncodeToString RawStdEncoding (derived_key salt password).
Proof. unfold HashPasswordArgon2id. rewrite argon2_is_v13. reflexivity. Qed.

Lemma std_free s : free_of "$"%char (@EncodeToString RawStdEncoding s).
Proof. apply encode_free. by vm_compute. Qed.

Lemma free_check sep s : forallb (λ c, negb (c =?b sep)) s = true → free_of sep s.
Proof.
  rewrite forallb_forall. intros Hs. apply Forall_forall. intros c Hc%list_elem_of_In%Hs. by bool_inv.
Qed.

Lemma decode_hash salt password :
  length salt = argon2SaltLen → decodeArgon2id (HashPasswordArgon2id salt password) = Ok (salt, derived_key salt password).
Proof.
  intros Hs. rewrite hash_text. unfold decodeArgon2id.
  rewrite !split_on_app, split_on_free by (apply std_free || (by apply free_check)).
  rewrite !bool_decide_eq_true_2 by done. cbn [negb guard_err mbind result_bind].
  rewrite !decode_encode, Hs, length_derived. by rewrite !Nat.eqb_refl.
Qed.

Lemma decode_lengths h salt key :
  decodeArgon2id h = Ok (salt, key) → length salt = argon2SaltLen ∧ length key = argon2KeyLen.
Proof.
  unfold decodeArgon2id. destruct (split_on _ h) as [|? [|? [|? [|? [|e [|f [|]]]]]]]; try done. intros Hd.
  do 2 res_step. destruct (@DecodeString _ e); [|done]. res_step. destruct (@DecodeString _ f); [|done].
  res_inv. by bool_inv.
Qed.

Lemma hash_is_argon2id salt password : IsArgon2idHash (HashPasswordArgon2id salt password) = true.
Proof. rewrite hash_text. unfold IsArgon2idHash, is_prefix. by apply bool_decide_eq_true_2. Qed.

Lemma argon2id_not_legacy h : IsArgon2idHash h = true → IsLegacyHash h = false.
Proof.
  unfold IsArgon2idHash, is_prefix. intros Hp. bool_inv. unfold IsLegacyHash. apply andb_false_iff. right.
  by destruct h as [|c h]; [|injection Hp as -> _].
Qed.

Lemma verify_hash salt p q :
  length salt = argon2SaltLen →
  VerifyPassword q (HashPasswordArgon2id salt p) = true ↔ derived_key salt q = derived_key salt p.
Proof.
  intros Hs. unfold VerifyPassword, verifyArgon2id. rewrite hash_is_argon2id, decode_hash by done.
  rewrite length_derived. fold (derived_key salt q). rewrite bool_decide_eq_true. by split.
Qed.

Lemma hex_digit_listed c : is_lower_hex c = contains_byte c hexDigits.
Proof. destruct c as [[] [] [] [] [] [] [] []]; by vm_compute. Qed.

Lemma sha256_is_legacy p : IsLegacyHash (hex_of (sha256 p)) = true.
Proof.
  unfold IsLegacyHash. rewrite length_hex_of, length_sha256. cbn [Nat.mul Nat.add legacySHA256HexLen Nat.eqb andb].
  pose proof (hex_of_lower (sha256 p)) as Hl. rewrite forallb_forall in Hl. apply forallb_forall.
  intros c Hc. rewrite <- hex_digit_listed. by apply Hl.
Qed.

Lemma legacy_not_argon2id h : IsLegacyHash h = true → IsArgon2idHash h = false.
Proof.
  intros Hl. destruct (IsArgon2idHash h) eqn:E; [|done]. apply argon2id_not_legacy in E. congruence.
Qed.

Lemma verify_legacy p q : VerifyPassword q (hex_of (sha256 p)) = true ↔ hex_of (sha256 p) = hex_of (sha256 q).
Proof.
  unfold VerifyPassword. rewrite (legacy_not_argon2id _ (sha256_is_legacy p)), sha256_is_legacy.
  unfold verifyLegacySHA256. apply bool_decide_eq_true.
Qed.

(** A stored hash accepts a password exactly when it is one of the two
    representations and the password derives it: the 64 lower-case hexadecimal
    digits of its SHA-256 sum, or an encoded Argon2id hash with version 19, 64
    MiB, three passes, one thread, a salt of 16 bytes and a key of 32 that the
    password and that salt derive. What the code stores for a new password is
    such a hash of it, never a legacy one. *)
Theorem password_accepted_exact password h :
  (VerifyPassword password h = true ↔
     h = hex_of (sha256 password)
     ∨ (IsArgon2idHash h = true ∧ ∃ salt, length salt = argon2SaltLen ∧ decodeArgon2id h = Ok (salt, derived_key salt password)))
  ∧ ∀ salt, length salt = argon2SaltLen →
      let new := HashPasswordArgon2id salt password in
      VerifyPassword password new = true ∧ IsLegacyHash new = false ∧ decodeArgon2id new = Ok (salt, derived_key salt password).
Proof.
  split; [split|].
  - unfold VerifyPassword. destruct (IsArgon2idHash h) eqn:Ea.
    + unfold verifyArgon2id. destruct (decodeArgon2id h) as [[salt key]|] eqn:Ed; [|done]. intros Hk. bool_inv.
      destruct (decode_lengths _ _ _ Ed) as [Hs Hl].
      right. split; [done|]. exists salt. split; [done|]. rewrite Hl in Hk. by rewrite Hk.
    + destruct (IsLegacyHash h); [|done]. unfold verifyLegacySHA256. intros Hk. bool_inv. by left.
  - intros [->|(Ha & salt & Hs & Hd)]; [by apply verify_legacy|]. unfold VerifyPassword, verifyArgon2id.
    rewrite Ha, Hd, length_derived. by apply bool_decide_eq_true_2.
  - intros salt Hs new. split; [by apply verify_hash|]. split; [|by apply decode_hash].
    apply argon2id_not_legacy, hash_is_argon2id.
Qed.
End password_facts.

(** ** Tokens *)

Section auth_facts.
Context `{T : UserText, !UserTextLaws T, L : UnicodeLower, A : Argon2, !Argon2Laws A} (signingKey : bytes).

(** Versions are unsigned 64-bit columns, ids come from the counter, and the
    unique key of [users.email] holds. *)
Record users_wf (s : users_db) : Prop := {
  uw_ids id r : ud_users s !! id = Some r → (0 < id < ud_next s)%Z ∧ (0 ≤ ur_Version r ≤ max_uint64)%Z;
  uw_next : (0 < ud_next s ≤ max_uint64 + 1)%Z;
  uw_emails i j r q : ud_users s !! i = Some r → ud_users s !! j = Some q →
    text_weight (ur_Email r) = text_weight (ur_Email q) → i = j;
}.

Lemma hex_free s : free_of colon (hex_of s).
Proof.
  pose proof (hex_of_lower s) as Hl. rewrite forallb_forall in Hl. apply Forall_forall. intros c Hc%list_elem_of_In%Hl ->. done.
Qed.

Lemma token_claims_issued now u :
  (0 < uc_ID u ≤ max_uint64)%Z → (0 ≤ uc_AuthorizationVersion u ≤ max_uint64)%Z → int64_ok now = true →
  token_claims signingKey (issueToken signingKey now u) = Some (uc_ID u, uc_AuthorizationVersion u, now).
Proof.
  intros Hid Hv Hn. unfold token_claims, issueToken. rewrite decode_encode. cbn [mbind option_bind].
  rewrite cut_last_app by apply hex_free. cbn [mbind option_bind].
  rewrite (bool_decide_eq_false_2 (token_payload _ _ _ = [])) by (unfold token_payload; by destruct (format_uint (uc_ID u))).
  rewrite bool_decide_eq_true_2 by done. cbn [orb negb]. unfold token_payload.
  rewrite !split_on_app by (by apply format_uint_free). rewrite split_on_free by (by apply format_int_free).
  rewrite !parse_format_uint, parse_format_int by (done || lia). cbn [mbind option_bind].
  by rewrite (proj2 (Z.eqb_neq (uc_ID u) 0)) by lia.
Qed.

Lemma credential_Some s id u :
  credential s id = Some u →
  ∃ r, ud_users s !! id = Some r ∧ ud_roles s !! ur_RoleID r = Some (uc_RoleName u) ∧ uc_ID u = id
    ∧ uc_Email u = ur_Email r ∧ uc_PasswordHash u = ur_PasswordHash r
    ∧ uc_IsActive u = negb (ur_IsActive r =? 0)%Z ∧ uc_AuthorizationVersion u = ur_Version r.
Proof.
  unfold credential. destruct (ud_users s !! id) as [r|] eqn:Er; [|done]. cbn.
  destruct (ud_roles s !! ur_RoleID r) as [name|] eqn:En; [|done]. cbn. intros [= <-]. by exists r.
Qed.

Lemma find_by_email_Some s email u :
  FindByEmail false email s = Ok (Some u) → credential s (uc_ID u) = Some u ∧ text_weight (uc_Email u) = text_weight email.
Proof.
  unfold FindByEmail. intros [= Hh]. apply head_Some_elem_of in Hh.
  apply list_elem_of_omap in Hh as ([id r] & Hin & Hu). cbn in Hu. case_match eqn:Em; [|done].
  destruct (credential_Some _ _ _ Hu) as (r' & Hr & _ & Hid & He & _). subst id.
  apply elem_of_map_to_list in Hin. simplify_eq. split; [done|]. unfold same_user_text in Em. bool_inv.
  rewrite !weight_lower in Em. by rewrite He.
Qed.

Definition accepts (s : users_db) (token : bytes) (u : AuthenticatedUser) : Prop :=
  VerifyToken signingKey false s token = Ok u.

(** The row an accepted token stands for. *)
Lemma accepts_row s token u :
  accepts s token u ↔
  ∃ version r, token_claims signingKey token = Some (au_ID u, version, au_IssuedAt u)
    ∧ ud_users s !! au_ID u = Some r ∧ ud_roles s !! ur_RoleID r = Some (au_Role u)
    ∧ ur_IsActive r ≠ 0%Z ∧ ur_Version r = version.
Proof.
  unfold accepts, VerifyToken. destruct (token_claims signingKey token) as [[[id version] issuedAt]|]; cycle 1.
  { split; [done|]. by intros (? & ? & ? & _). }
  cbn. unfold credential. split.
  - destruct (ud_users s !! id) as [r|] eqn:Er; [|done]. cbn.
    destruct (ud_roles s !! ur_RoleID r) as [name|] eqn:En; [|done]. cbn. intros Hv. case_match eqn:E; [|done].
    bool_inv. injection Hv as <-. cbn. by exists version, r.
  - intros (v & r & [= -> -> ->] & Hr & Hn & Ha & <-). rewrite Hr. cbn. rewrite Hn. cbn.
    rewrite (proj2 (Z.eqb_neq _ _) Ha), Z.eqb_refl. cbn. by destruct u.
Qed.

Lemma user_in_range s id u :
  users_wf s → credential s id = Some u → (0 < uc_ID u ≤ max_uint64)%Z ∧ (0 ≤ uc_AuthorizationVersion u ≤ max_uint64)%Z.
Proof.
  intros Hw (r & Hr & _ & -> & _ & _ & _ & ->)%credential_Some. destruct (uw_ids _ Hw _ _ Hr) as [Hi Hv].
  pose proof (uw_next _ Hw). lia.
Qed.

(** C32: A login that succeeds is of an active user with that email whose stored
    hash the password matched when the user was read, answers with that user's
    role, and issues a token that is accepted — by any later or earlier state of
    the database — exactly while that user exists with a role, is active and has
    the version of that read; the role it then carries is the current one, never
    the one of the login. *)
Theorem login_token snap rf o now salt email password s resp s' :
  users_wf snap → int64_ok now = true →
  Login signingKey snap rf o now salt email password s = (Ok resp, s') →
  ∃ user, credential snap (lr_UserID resp) = Some user
    ∧ text_weight (uc_Email user) = text_weight (trim_space (unicode_lower email))
    ∧ uc_IsActive user = true ∧ VerifyPassword password (uc_PasswordHash user) = true
    ∧ lr_Role resp = uc_RoleName user
    ∧ ∀ s2, VerifyToken signingKey false s2 (lr_Token resp) =
        match credential s2 (lr_UserID resp) with
        | Some current =>
            if uc_IsActive current && (uc_AuthorizationVersion current =? uc_AuthorizationVersion user)%Z
            then Ok (MkAuthenticatedUser (lr_UserID resp) (uc_RoleName current) now)
            else Err ErrInvalidToken
        | None => Err ErrInvalidToken
        end.
Proof.
  intros Hw Hn Hl. unfold Login in Hl. destruct rf; [done|].
  destruct (FindByEmail false _ snap) as [[user|]|] eqn:Ef; [|done..].
  destruct (find_by_email_Some _ _ _ Ef) as [Hc Hm]. destruct (user_in_range _ _ _ Hw Hc) as [Hid Hv].
  destruct (uc_IsActive user) eqn:Ea; [|done]. cbn [negb] in Hl.
  destruct (VerifyPassword password (uc_PasswordHash user)) eqn:Ep; [|done]. cbn [negb] in Hl.
  assert (resp = MkLoginResponse (issueToken signingKey now user) (uc_RoleName user) (uc_ID user)) as ->.
  { repeat (case_match; try discriminate); by injection Hl as <- _. }
  exists user. cbn [lr_UserID lr_Role lr_Token]. repeat (split; [done|]). intros s2.
  unfold VerifyToken. by rewrite token_claims_issued.
Qed.

(** ** Histories *)

(** An Argon2id hash as the code writes it. *)
Definition written_hash (h : bytes) : Prop :=
  ∃ salt password, length salt = argon2SaltLen ∧ h = HashPasswordArgon2id salt password.
(** What a login may turn a hash into: the same, or the Argon2id hash of a password the legacy hash accepted. *)
Definition migrated (h h' : bytes) : Prop :=
  h' = h ∨ (IsLegacyHash h = true ∧ ∃ salt password, length salt = argon2SaltLen
              ∧ VerifyPassword password h = true ∧ h' = HashPasswordArgon2id salt password).

Record evolves (r r' : user_row) : Prop := {
  ev_email : ur_Email r' = ur_Email r;
  ev_version : (ur_Version r ≤ ur_Version r')%Z;
  ev_hash : ur_PasswordHash r' = ur_PasswordHash r ∨ written_hash (ur_PasswordHash r');
  ev_same : ur_Version r' = ur_Version r →
    ur_RoleID r' = ur_RoleID r ∧ ur_IsActive r' = ur_IsActive r ∧ migrated (ur_PasswordHash r) (ur_PasswordHash r');
}.
Record rows_evolve (s s' : users_db) : Prop := {
  re_roles : ud_roles s' = ud_roles s;
  re_rows id r : ud_users s !! id = Some r → ∃ r', ud_users s' !! id = Some r' ∧ evolves r r';
}.

Lemma written_not_legacy h : written_hash h → IsLegacyHash h = false.
Proof. intros (salt & p & _ & ->). apply argon2id_not_legacy, hash_is_argon2id. Qed.

Lemma ascii_encode s : Forall (λ c, (bv c < 128)%Z) (@EncodeToString RawStdEncoding s).
Proof.
  apply encode_chars. intros v Hv. apply Z.ltb_lt. revert v Hv. apply all_sextets. by vm_compute.
Qed.

(** The collation tells a legacy hash from a written one. *)
Lemma legacy_unlike_written h h' : IsLegacyHash h = true → written_hash h' → text_weight h' ≠ text_weight h.
Proof.
  intros Hl (salt & p & _ & ->) Heq. apply andb_prop in Hl as [Hlen Hl]. rewrite forallb_forall in Hl.
  apply weight_ascii in Heq.
  - rewrite hash_text in Heq. destruct h as [|c h]; [done|]. cbn in Heq. injection Heq as Hc _.
    assert (is_lower_hex c = true) as Hx by (rewrite hex_digit_listed; apply Hl; by left).
    revert Hc Hx. clear. by destruct c as [[] [] [] [] [] [] [] []].
  - rewrite hash_text. cbn [app].
    repeat first [apply Forall_cons; split; [done|] | apply Forall_app; split; [by repeat constructor || apply ascii_encode|]].
    apply ascii_encode.
  - apply Forall_forall. intros c Hc%list_elem_of_In%Hl. rewrite <- hex_digit_listed in Hc. revert Hc. clear.
    by destruct c as [[] [] [] [] [] [] [] []].
Qed.

#[local] Instance migrated_preorder : PreOrder migrated.
Proof.
  split; [by left|]. intros h1 h2 h3 [->|(Hl & salt & p & Hs & Hv & ->)]; [done|]. intros [->|(Hl' & _)].
  - right. eauto 6.
  - rewrite written_not_legacy in Hl'; [done|]. by exists salt, p.
Qed.

#[local] Instance evolves_preorder : PreOrder evolves.
Proof.
  split; [intros r; split; [done|lia|by left|intros ?; split_and!; reflexivity]|]. intros r1 r2 r3 [He Hv Hh Hs] [He' Hv' Hh' Hs']. split; [congruence|lia|..].
  - destruct Hh' as [->|]; auto.
  - intros Heq. destruct Hs as (? & ? & ?); [lia|]. destruct Hs' as (? & ? & ?); [lia|].
    split; [congruence|]. split; [congruence|]. by etrans.
Qed.

#[local] Instance rows_evolve_preorder : PreOrder rows_evolve.
Proof.
  split; [intros s; split; eauto; by intros id r Hr; exists r; split|].
  intros s1 s2 s3 [Hr Hm] [Hr' Hm']. split; [congruence|]. intros id r (r2 & Hl & He)%Hm.
  apply Hm' in Hl as (r3 & Hl & He'). exists r3. split; [done|]. by etrans.
Qed.

(** What a write may do to a well-formed table. *)
Definition safe_write (s s' : users_db) : Prop := users_wf s' ∧ rows_evolve s s'.

Lemma exec_write_safe {B} o (stmt : users_db → result auth_error (B * users_db)) s :
  users_wf s → (∀ a s', stmt s = Ok (a, s') → safe_write s s') → safe_write s (exec_write o stmt s).2.
Proof.
  intros Hw Hs. unfold exec_write. destruct o, (stmt s) as [[a s']|] eqn:E; cbn [snd]; eauto; by split.
Qed.

Lemma put_user_safe s id r r' :
  users_wf s → ud_users s !! id = Some r → evolves r r' → (0 ≤ ur_Version r' ≤ max_uint64)%Z → safe_write s (put_user id r' s).
Proof.
  intros Hw Hr He Hv. split; [split|split; [done|]]; cbn [ud_users ud_next put_user].
  - intros i q Hq. destruct (decide (i = id)) as [->|Hne].
    + rewrite lookup_insert_eq in Hq. injection Hq as <-. split; [|done]. by eapply uw_ids.
    + rewrite lookup_insert_ne in Hq by done. by eapply uw_ids.
  - by apply uw_next.
  - intros i j q1 q2 H1 H2 Heq. apply lookup_insert_Some in H1, H2. pose proof (uw_emails _ Hw) as Hu.
    destruct H1 as [[<- <-]|[? H1]], H2 as [[<- <-]|[? H2]]; [done|..|by eapply Hu];
      rewrite (ev_email _ _ He) in Heq; [by eapply (Hu id j)|by eapply (Hu i id)].
  - intros i q Hq. destruct (decide (i = id)) as [->|Hne].
    + simplify_eq. exists r'. by rewrite lookup_insert_eq.
    + exists q. rewrite lookup_insert_ne by done. by split.
Qed.

Lemma bump_Ok v v' : bump v = Ok v' → v' = (v + 1)%Z ∧ v ≠ max_uint64.
Proof. unfold bump. intros Hb. res_inv. by bool_inv. Qed.

(** A change of a row with the version raised by one. *)
Lemma bumped_safe s id r r' v :
  users_wf s → ud_users s !! id = Some r → bump (ur_Version r) = Ok v → ur_Version r' = v →
  ur_Email r' = ur_Email r → (ur_PasswordHash r' = ur_PasswordHash r ∨ written_hash (ur_PasswordHash r')) →
  safe_write s (put_user id r' s).
Proof.
  intros Hw Hr [-> Hne]%bump_Ok Hv He Hh. destruct (uw_ids _ Hw _ _ Hr) as [_ Hb].
  apply put_user_safe with r; [done..|split; [done|lia|done|intros; lia]|lia].
Qed.

Lemma update_user_Ok id f s a s' :
  update_user id f s = Ok (a, s') → ∃ r r', ud_users s !! id = Some r ∧ f r = Ok r' ∧ s' = put_user id r' s.
Proof.
  unfold update_user. destruct (ud_users s !! id) as [r|]; [|done]. intros Hu. res_inv. eauto.
Qed.

Lemma change_role_safe o id name s : users_wf s → safe_write s (ChangeRole o id name s).2.
Proof.
  intros Hw. apply exec_write_safe; [done|]. intros a s'. case_match; [|done].
  intros (r & r' & Hr & Hf & ->)%update_user_Ok. res_inv. eapply bumped_safe; eauto.
Qed.

Lemma set_active_safe o id active s : users_wf s → safe_write s (SetActive o id active s).2.
Proof.
  intros Hw. apply exec_write_safe; [done|]. intros a s' (r & r' & Hr & Hf & ->)%update_user_Ok. res_inv.
  eapply bumped_safe; eauto.
Qed.

Lemma update_hash_safe o id h s : users_wf s → written_hash h → safe_write s (UpdatePasswordHash o id h s).2.
Proof.
  intros Hw Hh. apply exec_write_safe; [done|]. intros a s' (r & r' & Hr & Hf & ->)%update_user_Ok. res_inv.
  eapply bumped_safe; eauto.
Qed.

Lemma upsert_safe o email h role s : users_wf s → written_hash h → safe_write s (exec_write o (upsert_admin email h role) s).2.
Proof.
  intros Hw Hh. apply exec_write_safe; [done|]. intros a s'. unfold upsert_admin. destruct (head _) as [[id r]|] eqn:Eh.
  - apply head_Some_elem_of in Eh. apply list_elem_of_filter in Eh as [_ Hin%elem_of_map_to_list]. intros Hu. res_inv.
    eapply bumped_safe; eauto.
  - apply head_None in Eh. intros Hu. res_inv. bool_inv. pose proof (uw_next _ Hw) as Hn.
    assert (ud_users s !! ud_next s = None) as Hnew.
    { destruct (ud_users s !! ud_next s) as [r|] eqn:Er; [|done]. apply (uw_ids _ Hw) in Er. lia. }
    assert (∀ i q, ud_users s !! i = Some q → text_weight (ur_Email q) ≠ text_weight email) as Hfree.
    { intros i q Hq Heq. apply elem_of_map_to_list in Hq.
      assert ((i, q) ∈ ([] : list (Z * user_row))) as []%not_elem_of_nil. rewrite <- Eh. apply list_elem_of_filter.
      split; [|done]. by apply bool_decide_eq_true. }
    split; [split|split; [done|]]; cbn [ud_users ud_next].
    + intros i q [[<- <-]|[? Hq]]%lookup_insert_Some; [split; [lia|cbn; unfold max_uint64; lia]|].
      apply (uw_ids _ Hw) in Hq. lia.
    + lia.
    + intros i j q1 q2 H1 H2 Heq. apply lookup_insert_Some in H1, H2.
      destruct H1 as [[<- <-]|[? H1]], H2 as [[<- <-]|[? H2]]; [done|..|by eapply (uw_emails _ Hw)]; cbn in Heq;
        exfalso; [by eapply (Hfree j)|by eapply (Hfree i)].
    + intros i q Hq. exists q. split; [|done]. rewrite lookup_insert_ne; [done|]. intros <-. congruence.
Qed.

(** The upgrade of a login that read [snap], a state the current one evolved from. *)
Lemma upgrade_safe o snap id u salt password s :
  users_wf s → rows_evolve snap s → credential snap id = Some u → IsLegacyHash (uc_PasswordHash u) = true →
  VerifyPassword password (uc_PasswordHash u) = true → length salt = argon2SaltLen →
  safe_write s (UpgradePasswordHash o id (uc_PasswordHash u) (HashPasswordArgon2id salt password) s).2.
Proof.
  intros Hw Hev (q & Hq & _ & _ & _ & -> & _)%credential_Some Hl Hv Hs. apply exec_write_safe; [done|]. intros a s'.
  destruct (ud_users s !! id) as [r|] eqn:Er; [|done]. case_match eqn:Em; [|done]. intros [= <- <-].
  apply andb_prop in Em as [Em _]. unfold same_user_text in Em. bool_inv.
  destruct (re_rows _ _ Hev _ _ Hq) as (r' & Hr' & He). simplify_eq.
  assert (ur_PasswordHash r = ur_PasswordHash q) as Hsame.
  { destruct (ev_hash _ _ He) as [|Hwr]; [done|]. exfalso. by eapply (legacy_unlike_written (ur_PasswordHash q)). }
  destruct (uw_ids _ Hw _ _ Er) as [_ Hb]. apply put_user_safe with r; [done..| |done].
  split; cbn; [done|lia|right; by exists salt, password|]. intros _. split; [done|]. split; [done|].
  right. rewrite Hsame. split; [done|]. by exists salt, password.
Qed.

Lemma login_safe snap rf o now salt email password s :
  users_wf s → rows_evolve snap s → length salt = argon2SaltLen →
  safe_write s (Login signingKey snap rf o now salt email password s).2.
Proof.
  intros Hw Hev Hs. assert (safe_write s s) as Hid by by split. unfold Login. destruct rf; [done|].
  destruct (FindByEmail false _ snap) as [[u|]|] eqn:Ef; [|done..]. destruct (find_by_email_Some _ _ _ Ef) as [Hc _].
  destruct (uc_IsActive u); [|done]. destruct (VerifyPassword password _) eqn:Ev; [|done]. cbn [negb].
  destruct (IsLegacyHash (uc_PasswordHash u)) eqn:El; [|done].
  pose proof (upgrade_safe o snap (uc_ID u) u salt password s Hw Hev Hc El Ev Hs) as Hu.
  by destruct (UpgradePasswordHash _ _ _ _ s) as [[] s'].
Qed.

(** One call of the service or the bootstrap command. [past] holds every state
    so far: a login may act on an old read. *)
Inductive auth_step (past : list users_db) (s : users_db) : users_db → Prop :=
  | auth_login snap rf o now salt email password : snap ∈ past → length salt = argon2SaltLen →
      auth_step past s (Login signingKey snap rf o now salt email password s).2
  | auth_role o id name : auth_step past s (ChangeUserRole o id name s).2
  | auth_active o id active : auth_step past s (SetUserActive o id active s).2
  | auth_reset o salt id password : length salt = argon2SaltLen →
      auth_step past s (ResetUserPassword o salt id password s).2
  | auth_bootstrap rf o salt email password : length salt = argon2SaltLen →
      auth_step past s (runBootstrap rf o salt email password s).2.

(** The states of a history, the latest first, from any well-formed table. *)
Inductive auth_history : list users_db → Prop :=
  | auth_start s : users_wf s → auth_history [s]
  | auth_next s past s' : auth_history (s :: past) → auth_step (s :: past) s s' → auth_history (s' :: s :: past).

Lemma auth_step_safe past s s' :
  auth_step past s s' → users_wf s → (∀ snap, snap ∈ past → rows_evolve snap s) → safe_write s s'.
Proof.
  intros Hstep Hw Hp. assert (safe_write s s) as Hid by by split. destruct Hstep.
  - by apply login_safe; auto.
  - unfold ChangeUserRole. case_match; [done|by apply change_role_safe].
  - unfold SetUserActive. case_match; [done|by apply set_active_safe].
  - unfold ResetUserPassword. case_match; [done|]. apply update_hash_safe; [done|]. by exists salt, password.
  - unfold runBootstrap. destruct rf; [done|]. case_match; [|done]. apply upsert_safe; [done|]. by exists salt, password.
Qed.

(** Every state of a history is well formed and evolved from each earlier one. *)
Lemma auth_history_evolves l : auth_history l → StronglySorted (λ s' s, rows_evolve s s') l ∧ Forall users_wf l.
Proof.
  induction 1 as [s Hw|s past s' _ [Hs Hw] Hstep].
  { split; [apply SSorted_cons; [apply SSorted_nil|by apply Forall_nil]|by apply Forall_singleton]. }
  apply StronglySorted_inv in Hs as Hsp. destruct Hsp as [_ Hp]. rewrite Forall_forall in Hp.
  apply Forall_cons in Hw as Hw'. destruct Hw' as [Hws _].
  assert (∀ snap, snap ∈ s :: past → rows_evolve snap s) as Hall.
  { intros snap [->|Hin]%elem_of_cons; [done|by apply Hp]. }
  destruct (auth_step_safe _ _ _ Hstep Hws Hall) as [Hw1 He]. split; [|by constructor].
  constructor; [done|]. apply Forall_forall. intros snap Hin. etrans; [by apply Hall|done].
Qed.

(** The writes that revoke, when they answer success. *)
Inductive revokes (id : Z) (s s' : users_db) : Prop :=
  | revoke_role o name : ChangeUserRole o id name s = (Ok tt, s') → revokes id s s'
  | revoke_active o active : SetUserActive o id active s = (Ok tt, s') → revokes id s s'
  | revoke_reset o salt password : ResetUserPassword o salt id password s = (Ok tt, s') → revokes id s s'
  | revoke_bootstrap rf o salt email password r :
      runBootstrap rf o salt email password s = (Ok OutcomeReactivated, s') →
      ud_users s !! id = Some r → text_weight (ur_Email r) = text_weight email → revokes id s s'.

Lemma exec_write_Ok {B} o (stmt : users_db → result auth_error (B * users_db)) s a s' :
  exec_write o stmt s = (Ok a, s') → stmt s = Ok (a, s').
Proof. unfold exec_write. destruct o, (stmt s) as [[b t]|]; by intros [= <- <-]. Qed.

Ltac use_bump := cbn beta in *; res_inv; match goal with Hb : bump _ = Ok _ |- _ => apply bump_Ok in Hb as [-> _] end; cbn; lia.

Definition bumped (id : Z) (s s' : users_db) : Prop :=
  ∃ r r', ud_users s !! id = Some r ∧ ud_users s' !! id = Some r' ∧ (ur_Version r < ur_Version r')%Z.

Lemma update_user_bumps id f s a s' :
  (∀ r r', f r = Ok r' → (ur_Version r < ur_Version r')%Z) → update_user id f s = Ok (a, s') → bumped id s s'.
Proof.
  intros Hf (r & r' & Hr & Hr' & ->)%update_user_Ok. exists r, r'. cbn. rewrite lookup_insert_eq. auto.
Qed.

Lemma revokes_bumps id s s' : users_wf s → revokes id s s' → bumped id s s'.
Proof.
  intros Hw [o name Hr|o active Hr|o salt pw Hr|rf o salt email pw r Hr Hi He].
  - unfold ChangeUserRole in Hr. case_match; [done|]. apply exec_write_Ok in Hr. case_match; [|done].
    eapply update_user_bumps, Hr. intros q q' Hq. by use_bump.
  - unfold SetUserActive in Hr. case_match; [done|]. apply exec_write_Ok in Hr.
    eapply update_user_bumps, Hr. intros q q' Hq. by use_bump.
  - unfold ResetUserPassword in Hr. case_match; [done|]. apply exec_write_Ok in Hr.
    eapply update_user_bumps, Hr. intros q q' Hq. by use_bump.
  - unfold runBootstrap in Hr. destruct rf; [done|]. case_match; [|done]. apply exec_write_Ok in Hr.
    unfold upsert_admin in Hr. destruct (head _) as [[i q]|] eqn:Eh; [|by res_inv].
    apply head_Some_elem_of, list_elem_of_filter in Eh as [Hm Hin%elem_of_map_to_list].
    unfold same_user_text in Hm. bool_inv.
    assert (i = id) as -> by (eapply (uw_emails _ Hw); [done..|]; by rewrite He).
    simplify_eq. res_inv. eexists _, _. split; [done|]. cbn. rewrite lookup_insert_eq.
    split; [done|]. by use_bump.
Qed.

(** The versions behind one token text are the same. *)
Lemma accepts_same s0 s1 token u0 u1 :
  accepts s0 token u0 → accepts s1 token u1 →
  au_ID u1 = au_ID u0 ∧ au_IssuedAt u1 = au_IssuedAt u0
  ∧ ∃ r0 r1, ud_users s0 !! au_ID u0 = Some r0 ∧ ud_users s1 !! au_ID u0 = Some r1 ∧ ur_Version r1 = ur_Version r0.
Proof.
  rewrite !accepts_row. intros (v0 & r0 & Ht0 & Hr0 & _ & _ & Hv0) (v1 & r1 & Ht1 & Hr1 & _ & _ & Hv1).
  rewrite Ht0 in Ht1. injection Ht1 as Hid -> Hat. rewrite <- Hid in Hr1. do 2 (split; [done|]). exists r0, r1. by subst.
Qed.

(** C31: Revocation is immediate and for good: once a role change, an enabling or
    disabling, a password reset or a bootstrap of a user has answered success, no
    text that was ever accepted as a token of that user is accepted in the state
    it left or in any later one, whatever else happens in between — further
    changes, logins acting on old reads, writes that fail or whose answer is
    lost. *)
Theorem revocation_forever recent s' s old token u s0 s1 rf :
  auth_history (recent ++ s' :: s :: old) → revokes (au_ID u) s s' →
  s0 ∈ s :: old → accepts s0 token u →
  s1 ∈ recent ++ [s'] → is_ok (VerifyToken signingKey rf s1 token) = false.
Proof.
  intros [Hs Hw]%auth_history_evolves Hr Hs0 Ha Hs1. destruct (VerifyToken signingKey rf s1 token) as [u1|] eqn:E; [|done].
  assert (accepts s1 token u1) as Ha1.
  { unfold accepts. destruct rf; [|done]. unfold VerifyToken in E |- *. by destruct (token_claims signingKey token) as [[[]]|]. }
  apply Forall_app in Hw as [_ [_ [Hws _]%Forall_cons]%Forall_cons].
  destruct (revokes_bumps _ _ _ Hws Hr) as (r & r' & Hrow & Hrow' & Hlt).
  destruct (accepts_same _ _ _ _ _ Ha Ha1) as (_ & _ & q0 & q1 & Hq0 & Hq1 & Hv).
  assert (rows_evolve s0 s) as Hev0.
  { apply StronglySorted_app_1_r in Hs. apply StronglySorted_inv in Hs as [Hs _]. apply StronglySorted_inv in Hs as [_ Hf].
    apply elem_of_cons in Hs0 as [->|Hin]; [done|]. rewrite Forall_forall in Hf. by apply Hf. }
  assert (rows_evolve s' s1) as Hev1.
  { apply elem_of_app in Hs1 as [Hin| ->%list_elem_of_singleton]; [|done].
    eapply (StronglySorted_app_1_elem_of (λ s' s, rows_evolve s s') _ _ s1 s' Hs); [done|by left]. }
  destruct (re_rows _ _ Hev0 _ _ Hq0) as (? & ? & [_ Hle _ _]), (re_rows _ _ Hev1 _ _ Hrow') as (? & ? & [_ Hle' _ _]).
  simplify_eq. lia.
Qed.

(** A text that is accepted in two states of a history is accepted in every
    state between them, as the same user with the same role, and nothing about
    that user changed meanwhile but possibly the password's representation, from
    a legacy hash to the Argon2id hash of a password that legacy hash accepted. *)
Theorem acceptance_continuous recent s old token s0 s1 u0 u1 :
  auth_history (recent ++ s :: old) → s1 ∈ recent → s0 ∈ old →
  accepts s0 token u0 → accepts s1 token u1 →
  accepts s token u0 ∧ u1 = u0
  ∧ ∃ r0 r1, ud_users s0 !! au_ID u0 = Some r0 ∧ ud_users s1 !! au_ID u0 = Some r1
      ∧ ur_Email r1 = ur_Email r0 ∧ ur_RoleID r1 = ur_RoleID r0 ∧ ur_IsActive r1 = ur_IsActive r0
      ∧ migrated (ur_PasswordHash r0) (ur_PasswordHash r1).
Proof.
  intros [Hs _]%auth_history_evolves H1 H0 Ha0 Ha1.
  destruct (accepts_same _ _ _ _ _ Ha0 Ha1) as (Hid & Hat & r0 & r1 & Hr0 & Hr1 & Hv).
  assert (rows_evolve s s1) as Hev1.
  { eapply (StronglySorted_app_1_elem_of (λ s' s, rows_evolve s s') _ _ s1 s Hs); [done|by left]. }
  assert (rows_evolve s0 s) as Hev0.
  { apply StronglySorted_app_1_r in Hs. apply StronglySorted_inv in Hs as [_ Hf]. rewrite Forall_forall in Hf. by apply Hf. }
  destruct (re_rows _ _ Hev0 _ _ Hr0) as (r & Hr & He0), (re_rows _ _ Hev1 _ _ Hr) as (r1' & Hr1' & He1).
  rewrite Hr1 in Hr1'. injection Hr1' as <-.
  pose proof (ev_version _ _ He0). pose proof (ev_version _ _ He1).
  destruct (ev_same _ _ He0) as (Hrole & Hact & Hm); [lia|]. destruct (ev_same _ _ He1) as (Hrole1 & Hact1 & Hm1); [lia|].
  apply accepts_row in Ha0 as (v & q & Ht & Hq & Hn & Hne & Hve), Ha1 as (v1 & q1 & Ht1 & Hq1 & Hn1 & _).
  rewrite Hid in Hq1. assert (q = r0) as -> by congruence. assert (q1 = r1) as -> by congruence. subst v. rewrite (re_roles _ _ Hev1), (re_roles _ _ Hev0) in Hn1. rewrite Hrole1, Hrole, Hn in Hn1.
  split; [|split].
  - apply accepts_row. exists (ur_Version r0), r. rewrite Ht, Hr, Hrole, Hact, (re_roles _ _ Hev0). repeat (split; [done|]). lia.
  - destruct u0, u1; cbn in *; congruence.
  - exists r0, r1. split; [done|]. split; [done|]. rewrite (ev_email _ _ He1), (ev_email _ _ He0).
    split; [done|]. split; [congruence|]. split; [congruence|]. by etrans.
Qed.
End auth_facts.

(** ** A concrete system *)

Module AuthSample.
(** A key of the wanted length from a hash, and the ASCII part of the collation. *)
#[export] Instance derivation : Argon2 := {
  IDKey p salt time memory threads n := take (Z.to_nat n) (sha256 (salt ++ p) ++ repeat nul (Z.to_nat n));
  argon2_Version := 19;
}.
#[export] Instance derivation_laws : Argon2Laws derivation.
Proof. split; [|done]. intros. cbn [IDKey derivation]. rewrite length_take, length_app, repeat_length. lia. Qed.

#[export] Instance collation : UserText := { text_weight := ascii_lower; sql_lower := ascii_lower }.
#[export] Instance collation_laws : UserTextLaws collation.
Proof.
  split; [done|]. intros s. cbn. unfold ascii_lower. rewrite <- list_fmap_compose. apply list_fmap_ext.
  intros _ c _. by destruct c as [[] [] [] [] [] [] [] []].
Qed.
#[export] Instance lower : UnicodeLower := ascii_lower.

Definition key : bytes := gs "signing secret".
Definition salt : bytes := gs "sixteen bytes ok".
Definition start : users_db := UsersDb
  {[1%Z := UserRow (gs "Ada@example.com") (hex_of (sha256 (gs "old secret"))) (gs "Ada") 1 1 1]}
  {[1%Z := gs "admin"; 2%Z := gs "viewer"]} 2.

Lemma start_wf : users_wf start.
Proof.
  split; cbn [ud_users ud_next start].
  - intros id r [<- <-]%lookup_singleton_Some. cbn. unfold max_uint64. lia.
  - unfold max_uint64. lia.
  - by intros i j r q [<- <-]%lookup_singleton_Some [<- <-]%lookup_singleton_Some.
Qed.

(** A login in 2023 that migrates the hash, then a change of role. *)
Definition logged_in : result auth_error LoginResponse * users_db :=
  Login key start false WriteDone 1700000000 salt (gs " ADA@example.com ") (gs "old secret") start.
Definition token : bytes := match logged_in.1 with Ok r => lr_Token r | Err _ => [] end.
Definition demoted : result auth_error () * users_db := ChangeUserRole WriteDone 1 (gs "Viewer") logged_in.2.
Definition ada : AuthenticatedUser := MkAuthenticatedUser 1 (gs "admin") 1700000000.

Lemma token_accepted : accepts key start token ada ∧ accepts key logged_in.2 token ada.
Proof. split; by vm_compute. Qed.

Lemma sample_history : auth_history key [demoted.2; logged_in.2; start].
Proof.
  apply auth_next; [apply auth_next; [apply auth_start, start_wf|]|].
  - apply auth_login; [by left|done].
  - apply auth_role.
Qed.
End AuthSample.
Import AuthSample.

Lemma password_accepted_exact_witness :
  VerifyPassword (gs "new") (HashPasswordArgon2id salt (gs "new")) = true
  ∧ VerifyPassword (gs "old") (HashPasswordArgon2id salt (gs "new")) = false.
Proof.
  split; [|by vm_compute]. exact (proj1 (proj2 (password_accepted_exact (gs "new") []) salt eq_refl)).
Defined.

Lemma login_token_witness :
  ∃ resp user, logged_in.1 = Ok resp ∧ credential start (lr_UserID resp) = Some user ∧ uc_IsActive user = true.
Proof.
  destruct (login_token key start false WriteDone 1700000000 salt (gs " ADA@example.com ") (gs "old secret") start
    (MkLoginResponse token (gs "admin") 1) logged_in.2) as (user & Hc & _ & Ha & _);
    [apply start_wf|done|by vm_compute|].
  exists (MkLoginResponse token (gs "admin") 1), user. split; [by vm_compute|]. by split.
Defined.

Lemma revocation_forever_witness :
  accepts key logged_in.2 token ada ∧ is_ok (VerifyToken key false demoted.2 token) = false.
Proof.
  split; [exact (proj2 token_accepted)|].
  apply (revocation_forever key [] demoted.2 logged_in.2 [start] token ada logged_in.2); [apply sample_history|..].
  - apply revoke_role with WriteDone (gs "Viewer"). by vm_compute.
  - by left.
  - exact (proj2 token_accepted).
  - by left.
Defined.

(** The same with a disabling that fails instead. *)
Lemma acceptance_continuous_witness :
  let failed := (SetUserActive WriteFailed 1 false logged_in.2).2 in
  accepts key start token ada ∧ accepts key failed token ada
  ∧ ∃ r0 r1, ud_users start !! 1%Z = Some r0 ∧ ud_users failed !! 1%Z = Some r1
      ∧ migrated (ur_PasswordHash r0) (ur_PasswordHash r1).
Proof.
  intros failed. assert (failed = logged_in.2) as Hsame by reflexivity.
  assert (accepts key failed token ada) as Hf by (rewrite Hsame; exact (proj2 token_accepted)). clear Hsame.
  split; [exact (proj1 token_accepted)|]. split; [exact Hf|].
  destruct (acceptance_continuous key [failed] logged_in.2 [start] token start failed ada ada)
    as (_ & _ & r0 & r1 & H0 & H1 & _ & _ & _ & Hm);
    [|by left|by left|exact (proj1 token_accepted)|exact Hf|exists r0, r1; exact (conj H0 (conj H1 Hm))].
  apply auth_next; [|apply auth_active]. apply auth_next; [apply auth_start, start_wf|].
  apply auth_login; [by left|done].
Defined.
