(* ===== verification/MachineAuth.v ===== *)
(** * Machine principals and their credentials

    [model/machine_principal.go], [service/machine_credential.go],
    [service/machine_principal_service.go] and
    [store/machine_principal_repository.go]: scoped, expiring, revocable
    credentials of which only a hash is stored, and the audited transactions
    that issue and revoke them. *)
From S2P Require Import Prelude GoText Sha256 Encoding GoAny Inventory Profiles InventoryDb Auth.

(** ** The model's rules *)

Definition MachineScopeInventoryRead : bytes := gs "inventory:read".
Definition MachineScopeRelationsRead : bytes := gs "relations:read".
Definition MachineScopeGovernedSelect : bytes := gs "governed-select".
Definition MachineScopeAuditRead : bytes := gs "audit:read".
Definition MachineScopeNamedViewsRead : bytes := gs "named-views:read".
Definition MachineScopeInventoryIngest : bytes := gs "inventory:ingest".
Definition MachineScopeHealthWrite : bytes := gs "health:write".
Definition machineScopes : list bytes :=
  [MachineScopeInventoryRead; MachineScopeRelationsRead; MachineScopeGovernedSelect; MachineScopeAuditRead;
   MachineScopeNamedViewsRead; MachineScopeInventoryIngest; MachineScopeHealthWrite].

(** Times are nanoseconds. *)
Definition day : Z := (24 * 3600 * 1000000000)%Z.
Definition DefaultMachineCredentialLifetime : Z := (30 * day)%Z.
Definition MaxMachineCredentialLifetime : Z := (90 * day)%Z.

Inductive machine_error : Type :=
  | ErrMachinePrincipalForbidden
  | ErrMachinePrincipalValidation
  | ErrMachineCredentialNotFound
  | ErrMachineCredentialInvalid
  | ErrMachineCredentialExpired
  | ErrMachineCredentialRevoked
  | ErrMachineScopeDenied
  | ErrNoRows                      (** [sql.ErrNoRows] *)
  | ErrStoredCredential            (** a stored hash or scope list that does not decode *)
  | ErrEntropy                     (** [rand.Read] failed *)
  | ErrMachineStore.               (** a failed call, a violated constraint, a lost answer *)
#[export] Instance machine_error_eq_dec : EqDecision machine_error.
Proof. solve_decision. Defined.

(** The scopes as a set, then those known in the declared order; what is left over is unknown. *)
Fixpoint scope_set (scopes : list bytes) (requested : gset bytes) : result machine_error (gset bytes) :=
  match scopes with
  | [] => Ok requested
  | scope :: scopes =>
      if bool_decide (scope ∈ requested) then Err ErrMachinePrincipalValidation else scope_set scopes ({[scope]} ∪ requested)
  end.
Fixpoint known_scopes (known : list bytes) (requested : gset bytes) : list bytes * gset bytes :=
  match known with
  | [] => ([], requested)
  | scope :: known =>
      if bool_decide (scope ∈ requested)
      then let '(normalized, rest) := known_scopes known (requested ∖ {[scope]}) in (scope :: normalized, rest)
      else known_scopes known requested
  end.
Definition NormalizeMachineScopes (scopes : list bytes) : result machine_error (list bytes) :=
  if scopes =?b [] then Err ErrMachinePrincipalValidation
  else requested ← scope_set scopes ∅;
       let '(normalized, rest) := known_scopes machineScopes requested in
       if negb (bool_decide (rest = ∅)) then Err ErrMachinePrincipalValidation else Ok normalized.

Definition ResolveMachineCredentialExpiry (now : Z) (requested : option Z) : result machine_error Z :=
  match requested with
  | None => Ok (now + DefaultMachineCredentialLifetime)%Z
  | Some expiresAt =>
      if negb (now <? expiresAt)%Z || (now + MaxMachineCredentialLifetime <? expiresAt)%Z
      then Err ErrMachinePrincipalValidation else Ok expiresAt
  end.

(** ** Secrets *)

Definition machineCredentialPrefix : bytes := gs "chmp_".
Record machineCredentialMaterial : Type := Material { mm_Token : bytes; mm_LookupID : bytes; mm_Hash : bytes }.

(** The twelve and the thirty-two bytes of [rand.Read], [None] when it fails. *)
Definition generateMachineCredential (lookup secret : option bytes) : result machine_error machineCredentialMaterial :=
  match lookup, secret with
  | Some lookup, Some secret =>
      let lookupID := @EncodeToString RawURLEncoding lookup in
      let token := machineCredentialPrefix ++ lookupID ++ "."%char :: @EncodeToString RawURLEncoding secret in
      Ok (Material token lookupID (sha256 token))
  | _, _ => Err ErrEntropy
  end.

Definition parseMachineCredential (token : bytes) : option (bytes * bytes) :=
  if negb (token =?b trim_space token) || negb (is_prefix machineCredentialPrefix token) then None
  else match cut_on "."%char (drop (length machineCredentialPrefix) token) with
       | None => None
       | Some (lookupID, secret) =>
           match @DecodeString RawURLEncoding lookupID, @DecodeString RawURLEncoding secret with
           | Some lookup, Some secretBytes =>
               if (length lookup =? 12)%nat && (length secretBytes =? 32)%nat then Some (lookupID, sha256 token) else None
           | _, _ => None
           end
       end.

(** ** The tables *)

Record principal_row : Type := PrincipalRow { mp_Name : bytes; mp_CreatedBy : Z; mp_CreatedAt : Z }.
Record credential_row : Type := CredentialRow {
  mc_Principal : Z;
  mc_LookupID : bytes;                  (** unique *)
  mc_SecretHash : bytes;
  mc_Scopes : list bytes;               (** a JSON array *)
  mc_ExpiresAt : Z;
  mc_LastUsedAt : option Z;
  mc_RevokedAt : option Z;
  mc_CreatedBy : Z;
  mc_RotatedFrom : option Z;
  mc_CreatedAt : Z;
}.
Inductive machine_audit_value : Type := AuditId (id : Z) | AuditScopes (l : list bytes) | AuditTime (t : Z).
Record machine_change : Type := MachineChange {
  mg_Field : bytes; mg_Operation : AuditChangeOperation;
  mg_Before : option machine_audit_value; mg_After : option machine_audit_value;
}.
Record machine_audit : Type := MachineAudit { ma_Actor : Z; ma_EventType : bytes; ma_Changes : list machine_change }.
Record machine_db : Type := MachineDb {
  md_principals : gmap Z principal_row;
  md_credentials : gmap Z credential_row;
  md_audits : list machine_audit;
  md_next_principal : Z;
  md_next_credential : Z;
}.

Definition set_credentials (f : gmap Z credential_row → gmap Z credential_row) (s : machine_db) : machine_db :=
  MachineDb (md_principals s) (f (md_credentials s)) (md_audits s) (md_next_principal s) (md_next_credential s).

Record MachinePrincipal : Type := MkPrincipal { pr_ID : Z; pr_Name : bytes; pr_CreatedByUserID : Z; pr_CreatedAt : Z }.
Record MachineCredential : Type := MkCredential {
  cd_ID : Z; cd_MachinePrincipalID : Z; cd_LookupID : bytes; cd_Scopes : list bytes; cd_ExpiresAt : Z;
  cd_LastUsedAt : option Z; cd_RevokedAt : option Z; cd_RotatedFromCredentialID : option Z; cd_CreatedAt : Z;
}.
Record MachineCredentialInsert : Type := CredentialInsert {
  ci_LookupID : bytes; ci_SecretHash : bytes; ci_Scopes : list bytes; ci_ExpiresAt : Z; ci_CreatedAt : Z;
  ci_RotatedFrom : option Z;
}.
Record MachineCredentialAuthentication : Type := Authentication {
  an_Principal : MachinePrincipal; an_Credential : MachineCredential; an_SecretHash : bytes;
}.

Section store.
Context `{DbTime}.

Definition read_principal (id : Z) (p : principal_row) : MachinePrincipal :=
  MkPrincipal id (mp_Name p) (mp_CreatedBy p) (mp_CreatedAt p).
Definition read_credential (id : Z) (c : credential_row) (scopes : list bytes) : MachineCredential :=
  MkCredential id (mc_Principal c) (mc_LookupID c) scopes (mc_ExpiresAt c) (mc_LastUsedAt c) (mc_RevokedAt c)
    (mc_RotatedFrom c) (mc_CreatedAt c).

(** The calls of a transaction, each of which may fail, and its end. *)
Record machine_faults : Type := MachineFaults {
  mf_begin : bool; mf_first : bool; mf_credential : bool; mf_audit : bool; mf_commit : commit_result;
}.
Definition no_machine_faults : machine_faults := MachineFaults false false false false Committed.

Definition rows_of_before (before after : machine_db) : machine_db :=
  MachineDb (md_principals before) (md_credentials before) (md_audits before) (md_next_principal after) (md_next_credential after).
(** [BeginTx], the body on a copy, the deferred rollback or the commit; counters are not rolled back. *)
Definition in_machine_tx {A} (f : machine_faults) (body : machine_db → result machine_error A * machine_db) (s : machine_db) :
    result machine_error A * machine_db :=
  if mf_begin f then (Err ErrMachineStore, s)
  else match body s with
       | (Err e, s') => (Err e, rows_of_before s s')
       | (Ok a, s') =>
           match mf_commit f with
           | Committed => (Ok a, s')
           | CommitNotDone => (Err ErrMachineStore, rows_of_before s s')
           | CommitDoneUnseen => (Err ErrMachineStore, s')
           end
       end.

(** The table's check constraints and its unique key. *)
Definition credential_allowed (c : credential_row) (s : machine_db) : bool :=
  (mc_CreatedAt c <? mc_ExpiresAt c)%Z && (mc_ExpiresAt c <=? mc_CreatedAt c + 90 * day)%Z
  && (1 <=? length (mc_Scopes c))%nat && (length (mc_Scopes c) <=? 7)%nat
  && forallb (λ p : Z * credential_row, negb (mc_LookupID p.2 =?b mc_LookupID c)) (map_to_list (md_credentials s)).

Definition insertMachineCredential (fails : bool) (principalID actorID : Z) (c : MachineCredentialInsert) (s : machine_db) :
    result machine_error MachineCredential * machine_db :=
  let row := CredentialRow principalID (ci_LookupID c) (ci_SecretHash c) (ci_Scopes c) (store_time (ci_ExpiresAt c)) None None
               actorID (ci_RotatedFrom c) (store_time (ci_CreatedAt c)) in
  if fails || negb (credential_allowed row s) then (Err ErrMachineStore, s)
  else let id := md_next_credential s in
       (Ok (MkCredential id principalID (ci_LookupID c) (ci_Scopes c) (ci_ExpiresAt c) None None (ci_RotatedFrom c) (ci_CreatedAt c)),
        MachineDb (md_principals s) (<[id := row]> (md_credentials s)) (md_audits s) (md_next_principal s) (id + 1)).

Definition insertMachinePrincipalAudit (fails : bool) (actorID : Z) (eventType : bytes) (changes : list machine_change)
    (s : machine_db) : result machine_error () * machine_db :=
  if fails then (Err ErrMachineStore, s)
  else (Ok tt, MachineDb (md_principals s) (md_credentials s) (md_audits s ++ [MachineAudit actorID eventType changes])
                 (md_next_principal s) (md_next_credential s)).

Definition added (field : bytes) (v : machine_audit_value) : machine_change := MachineChange field AuditChangeAdd None (Some v).
Definition unchanged (field : bytes) (v : machine_audit_value) : machine_change :=
  MachineChange field AuditChangeUpdate (Some v) (Some v).
Definition event_created : bytes := gs "machine_principal.created".
Definition event_rotated : bytes := gs "machine_credential.rotated".
Definition event_revoked : bytes := gs "machine_credential.revoked".

(** The credential, then its audit row. *)
Definition insert_audited {A} (f : machine_faults) (principalID actorID : Z) (c : MachineCredentialInsert) (eventType : bytes)
    (changes : MachineCredential → list machine_change) (answer : MachineCredential → A) (s : machine_db) :
    result machine_error A * machine_db :=
  match insertMachineCredential (mf_credential f) principalID actorID c s with
  | (Err e, s) => (Err e, s)
  | (Ok stored, s) =>
      match insertMachinePrincipalAudit (mf_audit f) actorID eventType (changes stored) s with
      | (Err e, s) => (Err e, s)
      | (Ok _, s) => (Ok (answer stored), s)
      end
  end.

Definition MachinePrincipalRepository_Create (f : machine_faults) (actorID : Z) (name : bytes) (c : MachineCredentialInsert) :
    machine_db → result machine_error (MachinePrincipal * MachineCredential) * machine_db :=
  in_machine_tx f (λ s,
    if mf_first f then (Err ErrMachineStore, s)
    else
      let id := md_next_principal s in
      insert_audited f id actorID c event_created
        (λ stored,
           [added (gs "machine_principal_id") (AuditId id); added (gs "credential_id") (AuditId (cd_ID stored));
            added (gs "scopes") (AuditScopes (cd_Scopes stored)); added (gs "expires_at") (AuditTime (cd_ExpiresAt stored))])
        (λ stored, (MkPrincipal id name actorID (ci_CreatedAt c), stored))
        (MachineDb (<[id := PrincipalRow name actorID (store_time (ci_CreatedAt c))]> (md_principals s)) (md_credentials s)
           (md_audits s) (id + 1) (md_next_credential s))).

(** The old credential is locked and stays as it is. *)
Definition MachinePrincipalRepository_Rotate (f : machine_faults) (actorID oldCredentialID : Z) (c : MachineCredentialInsert) :
    machine_db → result machine_error (MachinePrincipal * MachineCredential) * machine_db :=
  in_machine_tx f (λ s,
    if mf_first f then (Err ErrMachineStore, s)
    else match (old ← md_credentials s !! oldCredentialID; p ← md_principals s !! mc_Principal old; Some (mc_Principal old, p)) with
    | None => (Err ErrNoRows, s)
    | Some (id, p) =>
      insert_audited f id actorID c event_rotated
        (λ stored,
           [unchanged (gs "machine_principal_id") (AuditId id); added (gs "credential_id") (AuditId (cd_ID stored));
            added (gs "rotated_from_credential_id") (AuditId oldCredentialID);
            added (gs "scopes") (AuditScopes (cd_Scopes stored)); added (gs "expires_at") (AuditTime (cd_ExpiresAt stored))])
        (λ stored, (read_principal id p, stored)) s
    end).

Definition with_revoked (t : Z) (c : credential_row) : credential_row :=
  CredentialRow (mc_Principal c) (mc_LookupID c) (mc_SecretHash c) (mc_Scopes c) (mc_ExpiresAt c) (mc_LastUsedAt c) (Some t)
    (mc_CreatedBy c) (mc_RotatedFrom c) (mc_CreatedAt c).
Definition with_used (t : Z) (c : credential_row) : credential_row :=
  CredentialRow (mc_Principal c) (mc_LookupID c) (mc_SecretHash c) (mc_Scopes c) (mc_ExpiresAt c) (Some t) (mc_RevokedAt c)
    (mc_CreatedBy c) (mc_RotatedFrom c) (mc_CreatedAt c).

(** A revocation before the creation violates the table's check. *)
Definition MachinePrincipalRepository_Revoke (f : machine_faults) (actorID credentialID revokedAt : Z) : machine_db → result machine_error () * machine_db :=
  in_machine_tx f (λ s,
    if mf_first f then (Err ErrMachineStore, s)
    else match md_credentials s !! credentialID with
    | None => (Err ErrNoRows, s)
    | Some c =>
      if bool_decide (is_Some (mc_RevokedAt c)) then (Err ErrNoRows, s)
      else if (store_time revokedAt <? mc_CreatedAt c)%Z then (Err ErrMachineStore, s)
      else insertMachinePrincipalAudit (mf_audit f) actorID event_revoked
             [unchanged (gs "credential_id") (AuditId credentialID); added (gs "revoked_at") (AuditTime revokedAt)]
             (set_credentials (insert credentialID (with_revoked (store_time revokedAt) c)) s)
    end).

(** The join on the unique lookup id; the hash and the scopes are checked again as stored. *)
Definition FindCredential (fails : bool) (lookupID : bytes) (s : machine_db) : result machine_error MachineCredentialAuthentication :=
  if fails then Err ErrMachineStore
  else match head (omap (λ q : Z * credential_row,
           if mc_LookupID q.2 =?b lookupID then p ← md_principals s !! mc_Principal q.2; Some (q, p) else None)
         (map_to_list (md_credentials s))) with
  | None => Err ErrNoRows
  | Some ((id, c), p) =>
      if negb (length (mc_SecretHash c) =? 32)%nat then Err ErrStoredCredential
      else match NormalizeMachineScopes (mc_Scopes c) with
           | Err _ => Err ErrStoredCredential
           | Ok scopes => Ok (Authentication (read_principal (mc_Principal c) p) (read_credential id c scopes) (mc_SecretHash c))
           end
  end.

(** The credential is neither revoked nor expired at [t]. *)
Definition active_at (t : Z) (c : credential_row) : bool := bool_decide (mc_RevokedAt c = None) && (t <? mc_ExpiresAt c)%Z.
Definition active_credential (id t : Z) (s : machine_db) : bool :=
  match md_credentials s !! id with Some c => active_at t c | None => false end.

(** The update counts changed rows: when it counts none, a second query, on a
    state [again] as it is by then, tells whether the row is active. *)
Definition MarkUsed (o : write_outcome) (again_fails : bool) (again : machine_db) (id usedAt : Z) (s : machine_db) :
    result machine_error () * machine_db :=
  let t := store_time usedAt in
  let exists_now := if again_fails then Err ErrMachineStore else if active_credential id t again then Ok tt else Err ErrNoRows in
  match md_credentials s !! id with
  | Some c =>
      if negb (active_at t c) || bool_decide (mc_LastUsedAt c = Some t)
      then (match o with WriteDone => exists_now | _ => Err ErrMachineStore end, s)
      else if (t <? mc_CreatedAt c)%Z then (Err ErrMachineStore, s)
      else match o with
           | WriteDone => (Ok tt, set_credentials (insert id (with_used t c)) s)
           | WriteFailed => (Err ErrMachineStore, s)
           | WriteUnseen => (Err ErrMachineStore, set_credentials (insert id (with_used t c)) s)
           end
  | None => (match o with WriteDone => exists_now | _ => Err ErrMachineStore end, s)
  end.
End store.

(** ** The administrator's list *)

Record MachineCredentialLifecycle : Type := Lifecycle {
  ml_ID : Z; ml_CreatedAt : Z; ml_ExpiresAt : Z; ml_LastUsedAt : option Z; ml_RevokedAt : option Z;
}.
Record MachinePrincipalListItem : Type := ListItem {
  li_ID : Z; li_Name : bytes; li_CreatedByUserID : Z; li_CreatedAt : Z; li_Credentials : list MachineCredentialLifecycle;
}.

(** The left join ordered by principal and credential. *)
Definition sorted_rows {A} (m : gmap Z A) : list (Z * A) := sort_slice (λ p q, (p.1 <? q.1)%Z) (map_to_list m).
Definition joined_rows (s : machine_db) : list ((Z * principal_row) * option (Z * credential_row)) :=
  p ← sorted_rows (md_principals s);
  match filter (λ c : Z * credential_row, mc_Principal c.2 = p.1) (sorted_rows (md_credentials s)) with
  | [] => [(p, None)]
  | cs => (λ c, (p, Some c)) <$> cs
  end.
Definition lifecycle_of (c : Z * credential_row) : MachineCredentialLifecycle :=
  Lifecycle c.1 (mc_CreatedAt c.2) (mc_ExpiresAt c.2) (mc_LastUsedAt c.2) (mc_RevokedAt c.2).
(** One row of the result: a new item when the principal is another than the last one's. *)
Definition scan_row (items : list MachinePrincipalListItem) (row : (Z * principal_row) * option (Z * credential_row)) :
    list MachinePrincipalListItem :=
  let '((id, p), c) := row in
  let cs := match c with Some c => [lifecycle_of c] | None => [] end in
  match last items with
  | Some item =>
      if (li_ID item =? id)%Z
      then removelast items ++ [ListItem (li_ID item) (li_Name item) (li_CreatedByUserID item) (li_CreatedAt item) (li_Credentials item ++ cs)]
      else items ++ [ListItem id (mp_Name p) (mp_CreatedBy p) (mp_CreatedAt p) cs]
  | None => items ++ [ListItem id (mp_Name p) (mp_CreatedBy p) (mp_CreatedAt p) cs]
  end.
Definition MachinePrincipalRepository_List (fails : bool) (s : machine_db) : result machine_error (list MachinePrincipalListItem) :=
  if fails then Err ErrMachineStore else Ok (foldl scan_row [] (joined_rows s)).

(** ** The service *)

Section service.
Context `{DbTime}.

Record MachineCredentialIssue : Type := Issue { is_Principal : MachinePrincipal; is_Credential : MachineCredential; is_Secret : bytes }.
Record MachinePrincipalIdentity : Type := Identity { id_ID : Z; id_Name : bytes; id_CredentialID : Z; id_Scopes : list bytes }.

Definition requireMachinePrincipalAdmin (actor : AuthenticatedUser) : result machine_error () :=
  guard_err ((au_ID actor =? 0)%Z || negb (au_Role actor =?b gs "admin")) ErrMachinePrincipalForbidden.

Definition normalizeMachinePrincipalName (name : bytes) : result machine_error bytes :=
  let name := trim_space name in
  if (name =?b []) || (120 <? rune_count name)%nat then Err ErrMachinePrincipalValidation
  else if existsb (λ c, (bv c <? 32)%Z) name then Err ErrMachinePrincipalValidation
  else Ok name.

Definition MachinePrincipalService_List (fails : bool) (actor : AuthenticatedUser) (s : machine_db) :
    result machine_error (list MachinePrincipalListItem) :=
  _ ← requireMachinePrincipalAdmin actor; MachinePrincipalRepository_List fails s.

(** What the service inserts for a request, with the secret it will answer. *)
Definition credential_request (now : Z) (lookup secret : option bytes) (scopes : list bytes) (expiresAt : option Z) (from : option Z) :
    result machine_error (MachineCredentialInsert * bytes) :=
  scopes ← NormalizeMachineScopes scopes;
  expiresAt ← ResolveMachineCredentialExpiry now expiresAt;
  material ← generateMachineCredential lookup secret;
  Ok (CredentialInsert (mm_LookupID material) (mm_Hash material) scopes expiresAt now from, mm_Token material).

Definition issue_of (secret : bytes) (r : result machine_error (MachinePrincipal * MachineCredential)) : result machine_error MachineCredentialIssue :=
  '(p, c) ← r; Ok (Issue p c secret).

Definition MachinePrincipalService_Create (f : machine_faults) (now : Z) (lookup secret : option bytes) (actor : AuthenticatedUser)
    (name : bytes) (scopes : list bytes) (expiresAt : option Z) (s : machine_db) : result machine_error MachineCredentialIssue * machine_db :=
  match (_ ← requireMachinePrincipalAdmin actor; name ← normalizeMachinePrincipalName name;
         c ← credential_request now lookup secret scopes expiresAt None; Ok (name, c)) with
  | Err e => (Err e, s)
  | Ok (name, (c, token)) => let '(r, s') := MachinePrincipalRepository_Create f (au_ID actor) name c s in (issue_of token r, s')
  end.

Definition not_found_of {A} (r : result machine_error A) : result machine_error A :=
  match r with Err ErrNoRows => Err ErrMachineCredentialNotFound | _ => r end.

Definition MachinePrincipalService_Rotate (f : machine_faults) (now : Z) (lookup secret : option bytes) (actor : AuthenticatedUser)
    (oldCredentialID : Z) (scopes : list bytes) (expiresAt : option Z) (s : machine_db) :
    result machine_error MachineCredentialIssue * machine_db :=
  match (_ ← requireMachinePrincipalAdmin actor; _ ← guard_err (oldCredentialID =? 0)%Z ErrMachinePrincipalValidation;
         credential_request now lookup secret scopes expiresAt (Some oldCredentialID)) with
  | Err e => (Err e, s)
  | Ok (c, token) => let '(r, s') := MachinePrincipalRepository_Rotate f (au_ID actor) oldCredentialID c s in (issue_of token (not_found_of r), s')
  end.

Definition MachinePrincipalService_Revoke (f : machine_faults) (now : Z) (actor : AuthenticatedUser) (credentialID : Z) (s : machine_db) :
    result machine_error () * machine_db :=
  match (_ ← requireMachinePrincipalAdmin actor; guard_err (credentialID =? 0)%Z ErrMachinePrincipalValidation) with
  | Err e => (Err e, s)
  | Ok _ => let '(r, s') := MachinePrincipalRepository_Revoke f (au_ID actor) credentialID now s in (not_found_of r, s')
  end.

Definition machineCredentialHasScope (scopes : list bytes) (required : bytes) : bool := existsb (λ scope, scope =?b required) scopes.

(** The checks on what was read under the token's lookup id. *)
Definition check_credential (now : Z) (hash requiredScope : bytes) (auth : MachineCredentialAuthentication) : result machine_error () :=
  _ ← guard_err (negb (an_SecretHash auth =?b hash)) ErrMachineCredentialInvalid;
  _ ← guard_err (bool_decide (is_Some (cd_RevokedAt (an_Credential auth)))) ErrMachineCredentialRevoked;
  _ ← guard_err (negb (now <? cd_ExpiresAt (an_Credential auth))%Z) ErrMachineCredentialExpired;
  guard_err (negb (machineCredentialHasScope (cd_Scopes (an_Credential auth)) requiredScope)) ErrMachineScopeDenied.

(** The calls of an authentication: the read, on [ac_snap], the update with its
    answer, and the second query, on [ac_again]. *)
Record authentication_calls : Type := AuthCalls {
  ac_read_fails : bool; ac_snap : machine_db; ac_update : write_outcome; ac_again_fails : bool; ac_again : machine_db;
}.

Definition Authenticate (k : authentication_calls) (now : Z) (token requiredScope : bytes) (s : machine_db) :
    result machine_error MachinePrincipalIdentity * machine_db :=
  match NormalizeMachineScopes [requiredScope] with
  | Err _ => (Err ErrMachineScopeDenied, s)
  | Ok _ =>
  match parseMachineCredential token with
  | None => (Err ErrMachineCredentialInvalid, s)
  | Some (lookupID, hash) =>
  match FindCredential (ac_read_fails k) lookupID (ac_snap k) with
  | Err ErrNoRows => (Err ErrMachineCredentialInvalid, s)
  | Err e => (Err e, s)
  | Ok auth =>
  match check_credential now hash requiredScope auth with
  | Err e => (Err e, s)
  | Ok _ =>
  match MarkUsed (ac_update k) (ac_again_fails k) (ac_again k) (cd_ID (an_Credential auth)) now s with
  | (Err ErrNoRows, s') => (Err ErrMachineCredentialInvalid, s')
  | (Err e, s') => (Err e, s')
  | (Ok _, s') =>
      (Ok (Identity (pr_ID (an_Principal auth)) (pr_Name (an_Principal auth)) (cd_ID (an_Credential auth)) (cd_Scopes (an_Credential auth))), s')
  end end end end end.
End service.

(** ** Scopes *)

Lemma filter_agree {A} (P Q : A → Prop) `{∀ x, Decision (P x), ∀ x, Decision (Q x)} (l : list A) :
  (∀ x, x ∈ l → P x ↔ Q x) → filter P l = filter Q l.
Proof.
  induction l as [|x l IH]; intros Heq; [done|]. rewrite !filter_cons, IH by (intros y Hy; apply Heq; by right).
  destruct (Heq x (list_elem_of_here _ _)). repeat case_decide; tauto.
Qed.

Lemma scope_set_Ok scopes R R' :
  scope_set scopes R = Ok R' ↔ NoDup scopes ∧ (∀ x, x ∈ scopes → x ∉ R) ∧ R' = list_to_set scopes ∪ R.
Proof.
  revert R. induction scopes as [|x l IH]; intros R; cbn [scope_set].
  - split; [intros [= <-]|intros (_ & _ & ->); f_equal]; [|set_solver]. split; [constructor|]. set_solver.
  - case_bool_decide as Hx; [split; [done|]; intros (_ & Hn & _); exfalso; apply (Hn x); set_solver|].
    rewrite IH, NoDup_cons. cbn [list_to_set]. split.
    + intros (Hd & Hn & ->). split; [split; [|done]; intros Hin; apply (Hn x); set_solver|]. split; [set_solver|].
      set_solver.
    + intros ((Hx' & Hd) & Hn & ->). split; [done|]. split; set_solver.
Qed.

Lemma known_scopes_eq known R :
  NoDup known → known_scopes known R = (filter (λ x, x ∈ R) known, R ∖ list_to_set known).
Proof.
  revert R. induction known as [|x l IH]; intros R Hd; cbn [known_scopes list_to_set]; [f_equal; set_solver|].
  apply NoDup_cons in Hd as [Hx Hd]. case_bool_decide as Hin.
  - rewrite filter_cons_True, IH by done. f_equal; [|set_solver]. f_equal. apply filter_agree. intros y Hy. set_solver.
  - rewrite filter_cons_False, IH by done. f_equal. set_solver.
Qed.

Lemma scopes_distinct : NoDup machineScopes.
Proof. apply (bool_decide_unpack (NoDup machineScopes)). by vm_compute. Qed.

(** The accepted scope lists: distinct known scopes; the result is them in the declared order. *)
Lemma normalize_exact scopes l :
  NormalizeMachineScopes scopes = Ok l
  ↔ scopes ≠ [] ∧ NoDup scopes ∧ scopes ⊆ machineScopes ∧ l = filter (λ x, x ∈ scopes) machineScopes.
Proof.
  unfold NormalizeMachineScopes. case_bool_decide as He; [split; [done|]; by intros [? _]|]. cbn [mbind result_bind].
  assert (∀ R : gset bytes, R = list_to_set scopes ∪ ∅ → (R ∖ list_to_set machineScopes = ∅ ↔ scopes ⊆ machineScopes)
      ∧ filter (λ x, x ∈ R) machineScopes = filter (λ x, x ∈ scopes) machineScopes) as Hset.
  { intros R ->. generalize machineScopes as known. intros known. split; [|apply list_filter_iff; set_solver].
    split; [|set_solver]. intros Hd x Hx. destruct (decide (x ∈ known)) as [|Hn]; [done|]. set_solver. }
  destruct (scope_set scopes ∅) as [R|] eqn:E; cbn [mbind result_bind].
  - apply scope_set_Ok in E as (Hd & _ & ->). rewrite known_scopes_eq by apply scopes_distinct.
    destruct (Hset _ eq_refl) as [H1 H2]. rewrite H2. case_bool_decide as Hb; cbn [negb].
    + apply H1 in Hb. split; [by intros [= <-]|]. by intros (_ & _ & _ & ->).
    + split; [done|]. intros (_ & _ & Hs & _). by apply H1 in Hs.
  - split; [done|]. intros (_ & Hd & _). assert (scope_set scopes ∅ = Ok (list_to_set scopes ∪ ∅)) as Hok; [|congruence].
    apply scope_set_Ok. split; [done|]. split; [set_solver|done].
Qed.

Lemma normalize_stable scopes l : NormalizeMachineScopes scopes = Ok l → NormalizeMachineScopes l = Ok l.
Proof.
  intros (Hne & Hd & Hs & ->)%normalize_exact. apply normalize_exact. split.
  { destruct scopes as [|x t]; [done|]. intros He. assert (x ∈ ([] : list bytes)); [|set_solver]. rewrite <- He.
    apply list_elem_of_filter. split; [by left|apply Hs; by left]. }
  split; [apply NoDup_filter, scopes_distinct|]. split; [intros x [_ Hx]%list_elem_of_filter; done|].
  apply filter_agree. intros x Hx. rewrite list_elem_of_filter. tauto.
Qed.

(** ** The invariant *)

(** What never changes of a credential, and what its revocation keeps. *)
Record credential_evolves (c c' : credential_row) : Prop := {
  ce_fixed : mc_Principal c' = mc_Principal c ∧ mc_LookupID c' = mc_LookupID c ∧ mc_SecretHash c' = mc_SecretHash c
    ∧ mc_Scopes c' = mc_Scopes c ∧ mc_ExpiresAt c' = mc_ExpiresAt c ∧ mc_CreatedBy c' = mc_CreatedBy c
    ∧ mc_RotatedFrom c' = mc_RotatedFrom c ∧ mc_CreatedAt c' = mc_CreatedAt c;
  ce_revoked t : mc_RevokedAt c = Some t → mc_RevokedAt c' = Some t;
}.
Record machine_evolves (s s' : machine_db) : Prop := {
  me_principals : md_principals s ⊆ md_principals s';
  me_credentials id c : md_credentials s !! id = Some c → ∃ c', md_credentials s' !! id = Some c' ∧ credential_evolves c c';
  me_audits : md_audits s `prefix_of` md_audits s';
}.

Definition audited (event : bytes) (changes : list machine_change → Prop) (s : machine_db) : Prop :=
  ∃ a, a ∈ md_audits s ∧ ma_EventType a = event ∧ changes (ma_Changes a).
(** A row of the audit that records the issue of a credential by its creator. *)
Definition issue_audited (id : Z) (c : credential_row) (s : machine_db) : Prop :=
  ∃ a, a ∈ md_audits s ∧ ma_Actor a = mc_CreatedBy c
    ∧ ma_EventType a = match mc_RotatedFrom c with None => event_created | Some _ => event_rotated end
    ∧ added (gs "credential_id") (AuditId id) ∈ ma_Changes a
    ∧ added (gs "scopes") (AuditScopes (mc_Scopes c)) ∈ ma_Changes a.
Definition revocation_audited (id : Z) (s : machine_db) : Prop :=
  ∃ a, a ∈ md_audits s ∧ ma_EventType a = event_revoked ∧ unchanged (gs "credential_id") (AuditId id) ∈ ma_Changes a.

Record credential_ok (id : Z) (c : credential_row) (s : machine_db) : Prop := {
  co_id : (0 < id < md_next_credential s)%Z;
  co_principal : is_Some (md_principals s !! mc_Principal c);
  co_scopes : NormalizeMachineScopes (mc_Scopes c) = Ok (mc_Scopes c);
  co_hash : length (mc_SecretHash c) = 32;
  co_lifetime : (mc_CreatedAt c < mc_ExpiresAt c ≤ mc_CreatedAt c + MaxMachineCredentialLifetime)%Z;
  co_rotated old : mc_RotatedFrom c = Some old →
    ∃ c0, md_credentials s !! old = Some c0 ∧ mc_Principal c0 = mc_Principal c ∧ (old < id)%Z;
  co_issued : issue_audited id c s;
  co_revoked : is_Some (mc_RevokedAt c) → revocation_audited id s;
}.
Record machine_wf (s : machine_db) : Prop := {
  mw_principals id p : md_principals s !! id = Some p → (0 < id < md_next_principal s)%Z;
  mw_next : (0 < md_next_principal s)%Z ∧ (0 < md_next_credential s)%Z;
  mw_credentials id c : md_credentials s !! id = Some c → credential_ok id c s;
  mw_lookups i j c d : md_credentials s !! i = Some c → md_credentials s !! j = Some d → mc_LookupID c = mc_LookupID d → i = j;
}.

#[export] Instance credential_evolves_preorder : PreOrder credential_evolves.
Proof.
  split; [intros c; by split|]. intros c1 c2 c3 [Hf Hr] [Hf' Hr']. split; [|auto].
  destruct Hf as (?&?&?&?&?&?&?&?), Hf' as (?&?&?&?&?&?&?&?). split_and!; congruence.
Qed.
#[export] Instance machine_evolves_preorder : PreOrder machine_evolves.
Proof.
  split.
  - intros s. split; [done| |done]. intros id c Hc. exists c. by split.
  - intros s1 s2 s3 [Hp Hc Ha] [Hp' Hc' Ha']. split; [by etrans| |by etrans].
    intros id c (c2 & (c3 & Hl & He)%Hc' & He')%Hc. exists c3. split; [done|]. by etrans.
Qed.

(** A credential stays in order while the other tables grow. *)
Lemma credential_ok_grows id c c' s s' :
  credential_ok id c s → machine_evolves s s' → credential_evolves c c' → (md_next_credential s ≤ md_next_credential s')%Z →
  (is_Some (mc_RevokedAt c') → is_Some (mc_RevokedAt c) ∨ revocation_audited id s') → credential_ok id c' s'.
Proof.
  intros [Hid Hp Hs Hh Hl Hr Hi Hv] [Hep Hec Hea] [(E1 & _ & E2 & E3 & E4 & E5 & E6 & E7) _] Hn Hrev.
  assert (∀ a, a ∈ md_audits s → a ∈ md_audits s') as Hin by (destruct Hea as [l ->]; set_solver).
  split; rewrite ?E1, ?E2, ?E3, ?E4, ?E7; auto; [lia|..].
  - destruct Hp as [p Hp]. exists p. by eapply lookup_weaken.
  - rewrite E6. intros old (c0 & Hc0 & Hp0 & Hlt)%Hr. destruct (Hec _ _ Hc0) as (c0' & Hc0' & [(E & _) _]).
    exists c0'. rewrite E. auto.
  - destruct Hi as (a & Ha & Ha1 & Ha2 & Ha3 & Ha4). exists a. rewrite E5, E6, E3. auto.
  - intros [Hold|Hnew]%Hrev; [|done]. destruct (Hv Hold) as (a & Ha & Ha1 & Ha2). exists a. auto.
Qed.

Definition machine_safe (s s' : machine_db) : Prop := machine_wf s' ∧ machine_evolves s s'.

Lemma rolled_back_safe s s' :
  machine_wf s → (md_next_principal s ≤ md_next_principal s')%Z → (md_next_credential s ≤ md_next_credential s')%Z →
  machine_safe s (rows_of_before s s').
Proof.
  intros [Hp Hn Hc Hl] Hn1 Hn2. assert (machine_evolves s (rows_of_before s s')) as He.
  { split; [done| |done]. intros id c Hid. exists c. by split. }
  split; [|done]. split; cbn; [intros id p Hid%Hp; lia|lia| |by apply Hl].
  intros id c Hid. eapply (credential_ok_grows id c c s); [by apply Hc|done|done|done|by left].
Qed.

Section runs.
Context `{DbTime}.

(** A body leaves counters that did not go back, and on success a safe state. *)
Lemma machine_tx_safe {A} f (body : machine_db → result machine_error A * machine_db) s :
  machine_wf s →
  (let s' := (body s).2 in (md_next_principal s ≤ md_next_principal s')%Z ∧ (md_next_credential s ≤ md_next_credential s')%Z
     ∧ (is_ok (body s).1 = true → machine_safe s s')) →
  machine_safe s (in_machine_tx f body s).2.
Proof.
  intros Hw. unfold in_machine_tx. destruct (mf_begin f); [by split|].
  destruct (body s) as [[a|e] s']; cbn; intros (Hn1 & Hn2 & Hs).
  - destruct (mf_commit f); cbn; [by apply Hs|by apply rolled_back_safe|by apply Hs].
  - by apply rolled_back_safe.
Qed.

(** What the service guarantees of an insert. *)
Record insert_ok (pid : Z) (c : MachineCredentialInsert) (s : machine_db) : Prop := {
  io_principal : is_Some (md_principals s !! pid);
  io_scopes : NormalizeMachineScopes (ci_Scopes c) = Ok (ci_Scopes c);
  io_hash : length (ci_SecretHash c) = 32;
  io_from old : ci_RotatedFrom c = Some old → ∃ c0, md_credentials s !! old = Some c0 ∧ mc_Principal c0 = pid;
}.

Lemma credential_allowed_spec c s :
  credential_allowed c s = true →
  (mc_CreatedAt c < mc_ExpiresAt c ≤ mc_CreatedAt c + MaxMachineCredentialLifetime)%Z
  ∧ ∀ j d, md_credentials s !! j = Some d → mc_LookupID d ≠ mc_LookupID c.
Proof.
  unfold credential_allowed. intros Ha. bool_inv. split; [unfold MaxMachineCredentialLifetime; lia|].
  intros j d Hd%elem_of_map_to_list%list_elem_of_In. rewrite forallb_forall in *.
  match goal with Hf : ∀ x, _ → negb _ = true |- _ => apply Hf in Hd end. cbn in Hd. by bool_inv.
Qed.

Lemma insert_audited_safe {A} f pid actor c event changes (answer : MachineCredential → A) s :
  machine_wf s → insert_ok pid c s →
  event = match ci_RotatedFrom c with None => event_created | Some _ => event_rotated end →
  (∀ stored, added (gs "credential_id") (AuditId (cd_ID stored)) ∈ changes stored
     ∧ added (gs "scopes") (AuditScopes (cd_Scopes stored)) ∈ changes stored) →
  let r := insert_audited f pid actor c event changes answer s in
  md_next_principal r.2 = md_next_principal s ∧ (md_next_credential s ≤ md_next_credential r.2)%Z
  ∧ (is_ok r.1 = true → machine_safe s r.2).
Proof.
  intros Hw [Hp Hs Hh Hr] -> Hch. unfold insert_audited, insertMachineCredential.
  destruct (mf_credential f || _) eqn:Eg; [cbn; split; [done|]; split; done|].
  apply orb_false_elim in Eg as [_ Ea]. bool_inv. apply credential_allowed_spec in Ea as [Hl Hfree]. unfold insertMachinePrincipalAudit.
  set (row := CredentialRow _ _ _ _ _ _ _ _ _ _) in *. set (stored := MkCredential _ _ _ _ _ _ _ _ _).
  destruct (mf_audit f); cbn; [split; [done|]; split; [lia|done]|]. split; [done|]. split; [lia|]. intros _.
  assert (md_credentials s !! md_next_credential s = None) as Hnew.
  { destruct (md_credentials s !! _) as [d|] eqn:Ed; [|done]. apply (mw_credentials _ Hw) in Ed as [Hd _]. lia. }
  match goal with |- machine_safe s ?t => assert (machine_evolves s t) as He end.
  { split; cbn; [done| |by eexists]. intros id d Hd. exists d. split; [|done]. by rewrite lookup_insert_ne by congruence. }
  pose proof (mw_next _ Hw) as Hn. split; [split; cbn|done].
  - apply (mw_principals _ Hw).
  - lia.
  - intros id d [[<- <-]|[_ Hd]]%lookup_insert_Some.
    + split; cbn; [lia|done|done|done|done| | |by intros []].
      * intros old (c0 & Hc0 & Hp0)%Hr. exists c0. rewrite lookup_insert_ne by congruence.
        split; [done|]. split; [done|]. by apply (mw_credentials _ Hw) in Hc0 as [[_ ?] _].
      * eexists. split; [apply elem_of_app; right; by left|]. split; [done|]. split; [done|]. apply (Hch stored).
    + eapply (credential_ok_grows id d d s); [by apply (mw_credentials _ Hw)|done|done|cbn; lia|by left].
  - intros i j d1 d2 H1 H2 Heq. apply lookup_insert_Some in H1, H2.
    destruct H1 as [[<- <-]|[_ H1]], H2 as [[<- <-]|[_ H2]]; [done|..|by eapply (mw_lookups _ Hw)]; exfalso.
    + by apply (Hfree _ _ H2).
    + by apply (Hfree _ _ H1).
Qed.

Tactic Notation "audited_insert" "as" simple_intropattern(pat) :=
  lazymatch goal with |- context [insert_audited ?f ?pid ?a ?c ?ev ?ch ?an ?st] =>
    destruct (insert_audited_safe f pid a c ev ch an st) as pat end.

Lemma create_safe f actor name c s :
  machine_wf s → NormalizeMachineScopes (ci_Scopes c) = Ok (ci_Scopes c) → length (ci_SecretHash c) = 32 → ci_RotatedFrom c = None →
  machine_safe s (MachinePrincipalRepository_Create f actor name c s).2.
Proof.
  intros Hw Hs Hh Hf. apply machine_tx_safe; [done|]. destruct (mf_first f); [cbn; split; [done|]; split; done|].
  set (s1 := MachineDb (<[md_next_principal s := PrincipalRow name actor (store_time (ci_CreatedAt c))]> (md_principals s))
               (md_credentials s) (md_audits s) (md_next_principal s + 1) (md_next_credential s)). assert (machine_safe s s1) as [Hw1 He1].
  { assert (md_principals s !! md_next_principal s = None) as Hnew.
    { destruct (md_principals s !! _) as [d|] eqn:Ed; [|done]. apply (mw_principals _ Hw) in Ed. lia. }
    assert (machine_evolves s s1) as He.
    { split; cbn; [by apply insert_subseteq| |done]. intros id d Hd. by exists d. }
    split; [|done]. pose proof (mw_next _ Hw). split; cbn; [|lia| |apply (mw_lookups _ Hw)].
    - intros id p [[<- <-]|[_ Hp]]%lookup_insert_Some; [lia|]. apply (mw_principals _ Hw) in Hp. lia.
    - intros id d Hd. eapply (credential_ok_grows id d d s); [by apply (mw_credentials _ Hw)|done|done|done|by left]. }
  cbn beta zeta. audited_insert as (Hn1 & Hn2 & Hsafe); [exact Hw1|..].
  { split; [cbn; rewrite lookup_insert_eq; eauto|done|done|by rewrite Hf]. }
  { by rewrite Hf. }
  { intros stored. split; cbn; set_solver. }
  rewrite Hn1. split; [cbn; lia|]. split; [exact Hn2|]. intros Hok. destruct (Hsafe Hok) as [Hw2 He2].
  split; [done|]. by etrans.
Qed.

Lemma rotate_safe f actor old c s :
  machine_wf s → NormalizeMachineScopes (ci_Scopes c) = Ok (ci_Scopes c) → length (ci_SecretHash c) = 32 → ci_RotatedFrom c = Some old →
  machine_safe s (MachinePrincipalRepository_Rotate f actor old c s).2.
Proof.
  intros Hw Hs Hh Hf. apply machine_tx_safe; [done|]. destruct (mf_first f); [cbn; split; [done|]; split; done|].
  destruct (md_credentials s !! old) as [c0|] eqn:Ec; cbn [mbind option_bind]; [|cbn; split; [done|]; split; done].
  destruct (md_principals s !! mc_Principal c0) as [p|] eqn:Ep; cbn [mbind option_bind]; [|cbn; split; [done|]; split; done].
  cbn beta zeta. audited_insert as (Hn1 & Hn2 & Hsafe); [exact Hw|..].
  { split; [by eexists|done|done|]. rewrite Hf. intros ? [= <-]. eauto. }
  { by rewrite Hf. }
  { intros stored. split; cbn; set_solver. }
  rewrite Hn1. split; [done|]. split; [exact Hn2|exact Hsafe].
Qed.

(** A change of one credential that evolves it. *)
Lemma set_credential_safe s s' id c c' :
  machine_wf s → md_credentials s !! id = Some c → credential_evolves c c' →
  md_principals s' = md_principals s → md_credentials s' = <[id := c']> (md_credentials s) →
  md_audits s `prefix_of` md_audits s' →
  md_next_principal s' = md_next_principal s → md_next_credential s' = md_next_credential s →
  (is_Some (mc_RevokedAt c') → is_Some (mc_RevokedAt c) ∨ revocation_audited id s') → machine_safe s s'.
Proof.
  intros Hw Hc Hce Hp Hcs Ha Hn1 Hn2 Hrev. assert (machine_evolves s s') as He.
  { split; [by rewrite Hp| |done]. intros i d Hd. rewrite Hcs. destruct (decide (i = id)) as [->|Hne].
    - exists c'. rewrite lookup_insert_eq. by simplify_eq.
    - exists d. by rewrite lookup_insert_ne. }
  split; [|done]. split.
  - rewrite Hp, Hn1. apply (mw_principals _ Hw).
  - rewrite Hn1, Hn2. apply (mw_next _ Hw).
  - intros i d. rewrite Hcs. intros [[<- <-]|[_ Hd]]%lookup_insert_Some.
    + eapply (credential_ok_grows id c c' s); [by apply (mw_credentials _ Hw)|done|done|by rewrite Hn2|done].
    + eapply (credential_ok_grows i d d s); [by apply (mw_credentials _ Hw)|done|done|by rewrite Hn2|by left].
  - intros i j d1 d2. rewrite Hcs. intros H1 H2 Heq. apply lookup_insert_Some in H1, H2. destruct Hce as [(_ & El & _) _].
    destruct H1 as [[<- <-]|[_ H1]], H2 as [[<- <-]|[_ H2]]; [done|..|by eapply (mw_lookups _ Hw)];
      rewrite El in Heq; [by eapply (mw_lookups _ Hw id j)|by eapply (mw_lookups _ Hw i id)].
Qed.

Lemma revoke_safe f actor id t s : machine_wf s → machine_safe s (MachinePrincipalRepository_Revoke f actor id t s).2.
Proof.
  intros Hw. apply machine_tx_safe; [done|]. destruct (mf_first f); [cbn; split; [done|]; split; done|].
  destruct (md_credentials s !! id) as [c|] eqn:Ec; [|cbn; split; [done|]; split; done].
  case_bool_decide as Hr; [cbn; split; [done|]; split; done|]. case_match; [cbn; split; [done|]; split; done|].
  unfold insertMachinePrincipalAudit. destruct (mf_audit f); cbn; [split; [done|]; split; done|]. split; [done|]. split; [done|].
  intros _. eapply (set_credential_safe s _ id c (with_revoked (store_time t) c)); try done.
  - split; [done|]. intros t' Ht'. destruct Hr. by eexists.
  - by eexists.
  - intros _. right. eexists. split; [apply elem_of_app; right; by left|]. split; [done|by left].
Qed.

Lemma mark_used_safe o af again id t s : machine_wf s → machine_safe s (MarkUsed o af again id t s).2.
Proof.
  intros Hw. assert (machine_safe s s) as Hid by by split. unfold MarkUsed.
  destruct (md_credentials s !! id) as [c|] eqn:Ec; [|done]. case_match; [done|]. case_match; [done|].
  assert (machine_safe s (set_credentials (insert id (with_used (store_time t) c)) s)) as Hs; [|by destruct o].
  eapply (set_credential_safe s _ id c (with_used (store_time t) c)); try done. by left.
Qed.

Lemma credential_request_ok now lookup secret scopes expires from c token :
  credential_request now lookup secret scopes expires from = Ok (c, token) →
  NormalizeMachineScopes (ci_Scopes c) = Ok (ci_Scopes c) ∧ length (ci_SecretHash c) = 32 ∧ ci_RotatedFrom c = from.
Proof.
  unfold credential_request. intros Hr. res_step. res_step. res_step. injection Hr as <- _. cbn.
  split; [by eapply normalize_stable|]. split; [|done]. unfold generateMachineCredential in *. by repeat case_match; simplify_eq.
Qed.

(** ** Histories *)

(** One call of the service. [past] holds every state so far: an authentication
    may act on an old read, and its second query see any state. *)
Inductive machine_step (past : list machine_db) (s : machine_db) : machine_db → Prop :=
  | step_issue f now lookup secret actor name scopes expires :
      machine_step past s (MachinePrincipalService_Create f now lookup secret actor name scopes expires s).2
  | step_rotate f now lookup secret actor old scopes expires :
      machine_step past s (MachinePrincipalService_Rotate f now lookup secret actor old scopes expires s).2
  | step_revoke f now actor id : machine_step past s (MachinePrincipalService_Revoke f now actor id s).2
  | step_authenticate k now token scope : ac_snap k ∈ past → machine_step past s (Authenticate k now token scope s).2.

Definition empty_machines : machine_db := MachineDb ∅ ∅ [] 1 1.
Inductive machine_history : list machine_db → Prop :=
  | machine_start : machine_history [empty_machines]
  | machine_next s past s' : machine_history (s :: past) → machine_step (s :: past) s s' → machine_history (s' :: s :: past).

Lemma machine_step_safe past s s' : machine_step past s s' → machine_wf s → machine_safe s s'.
Proof.
  intros Hstep Hw. assert (machine_safe s s) as Hid by by split. destruct Hstep as [f now l x actor name sc ex|f now l x actor old sc ex|f now actor id|k now token scope _].
  - unfold MachinePrincipalService_Create. destruct (_ ← requireMachinePrincipalAdmin actor; _) as [[n [c tok]]|] eqn:E; [|done].
    res_inv. match goal with Hr : credential_request _ _ _ _ _ _ = Ok _ |- _ => destruct (credential_request_ok _ _ _ _ _ _ _ _ Hr) as (H1 & H2 & H3) end.
    pose proof (create_safe f (au_ID actor) n c s Hw H1 H2 H3) as Hs. by destruct (MachinePrincipalRepository_Create f (au_ID actor) n c s).
  - unfold MachinePrincipalService_Rotate. destruct (_ ← requireMachinePrincipalAdmin actor; _) as [[c tok]|] eqn:E; [|done].
    res_inv. match goal with Hr : credential_request _ _ _ _ _ _ = Ok _ |- _ => destruct (credential_request_ok _ _ _ _ _ _ _ _ Hr) as (H1 & H2 & H3) end.
    pose proof (rotate_safe f (au_ID actor) old c s Hw H1 H2 H3) as Hs. by destruct (MachinePrincipalRepository_Rotate f (au_ID actor) old c s).
  - unfold MachinePrincipalService_Revoke. destruct (_ ← requireMachinePrincipalAdmin actor; _); [|done].
    pose proof (revoke_safe f (au_ID actor) id now s Hw) as Hs. by destruct (MachinePrincipalRepository_Revoke f (au_ID actor) id now s).
  - unfold Authenticate. destruct (NormalizeMachineScopes [scope]); [|done]. destruct (parseMachineCredential token) as [[lookupID hash]|]; [|done].
    destruct (FindCredential _ lookupID _) as [auth|[]]; try done. destruct (check_credential now hash scope auth); [|done].
    pose proof (mark_used_safe (ac_update k) (ac_again_fails k) (ac_again k) (cd_ID (an_Credential auth)) now s Hw) as Hs.
    by destruct (MarkUsed _ _ _ _ _ s) as [[|[]] s'].
Qed.

Lemma machine_history_evolves l : machine_history l → StronglySorted (λ s' s, machine_evolves s s') l ∧ Forall machine_wf l.
Proof.
  induction 1 as [|s past s' _ [Hs Hw] Hstep].
  { split; [apply SSorted_cons; [apply SSorted_nil|by apply Forall_nil]|]. apply Forall_singleton. split; cbn; try done; lia. }
  apply StronglySorted_inv in Hs as Hsp. destruct Hsp as [_ Hp]. rewrite Forall_forall in Hp.
  apply Forall_cons in Hw as Hw'. destruct Hw' as [Hws _]. destruct (machine_step_safe _ _ _ Hstep Hws) as [Hw1 He].
  split; [|by constructor]. constructor; [done|]. apply Forall_forall. intros snap [->|Hin]%elem_of_cons; [done|].
  etrans; [by apply Hp|done].
Qed.

(** C33: Whatever administrators and machines do — issues, rotations,
    revocations and authentications, with any call failing, commits lost or
    unseen, and reads of any age — every stored credential belongs to a stored
    principal, has a lookup id of its own, a 32-byte hash, a non-empty normalized
    scope list and a lifetime of at most ninety days; a rotated credential names
    an older one of the same principal; its issue is on record under its creator
    with its scopes, and so is its revocation if it is revoked. No audit row,
    principal or credential ever disappears, nothing of a credential changes but
    its last use and its revocation, and a revocation is final. *)
Theorem machine_invariant s past :
  machine_history (s :: past) → machine_wf s ∧ ∀ snap, snap ∈ past → machine_evolves snap s.
Proof.
  intros [Hs Hw]%machine_history_evolves. apply StronglySorted_inv in Hs as [_ Hf]. apply Forall_cons in Hw as [Hw _].
  rewrite Forall_forall in Hf. by split.
Qed.

(** ** Authentication *)

Lemma find_credential_Ok fails lookupID s auth :
  FindCredential fails lookupID s = Ok auth →
  ∃ id c p scopes, md_credentials s !! id = Some c ∧ md_principals s !! mc_Principal c = Some p ∧ mc_LookupID c = lookupID
    ∧ NormalizeMachineScopes (mc_Scopes c) = Ok scopes
    ∧ auth = Authentication (read_principal (mc_Principal c) p) (read_credential id c scopes) (mc_SecretHash c).
Proof.
  unfold FindCredential. destruct fails; [done|]. destruct (head _) as [[[id c] p]|] eqn:Eh; [|done].
  apply head_Some_elem_of, list_elem_of_omap in Eh as ([i d] & Hin%elem_of_map_to_list & Hd). cbn in Hd.
  case_bool_decide as Hl; [|done]. destruct (md_principals s !! mc_Principal d) as [q|] eqn:Eq; [|done]. injection Hd as -> -> ->.
  case_match; [done|]. destruct (NormalizeMachineScopes (mc_Scopes c)) as [scopes|] eqn:En; [|done]. intros [= <-].
  by exists id, c, p, scopes.
Qed.

Lemma mark_used_Ok o af again id t s s' :
  MarkUsed o af again id t s = (Ok tt, s') →
  active_credential id (store_time t) s = true ∨ active_credential id (store_time t) again = true.
Proof.
  intros Hm. unfold MarkUsed in Hm. destruct (md_credentials s !! id) as [c|] eqn:Ec.
  - destruct (active_at (store_time t) c) eqn:Ea; [left; unfold active_credential; by rewrite Ec|]. right. cbn in Hm.
    destruct o; [|done..]. destruct af; [done|]. by destruct (active_credential id (store_time t) again).
  - right. destruct o; [|done..]. destruct af; [done|]. by destruct (active_credential id (store_time t) again).
Qed.

Lemma has_scope scopes scope : machineCredentialHasScope scopes scope = bool_decide (scope ∈ scopes).
Proof.
  unfold machineCredentialHasScope. apply eq_true_iff_eq. rewrite bool_decide_eq_true, existsb_exists. split.
  - intros (x & Hx & ->%bool_decide_eq_true). by apply list_elem_of_In.
  - intros Hx. exists scope. split; [by apply list_elem_of_In|by apply bool_decide_eq_true].
Qed.

(** Where nothing but the scope is left to check. *)
Lemma check_credential_scope now hash scope auth :
  an_SecretHash auth = hash → cd_RevokedAt (an_Credential auth) = None → (now < cd_ExpiresAt (an_Credential auth))%Z →
  check_credential now hash scope auth
  = if bool_decide (scope ∈ cd_Scopes (an_Credential auth)) then Ok tt else Err ErrMachineScopeDenied.
Proof.
  intros <- Hr Hn. unfold check_credential. rewrite Hr, has_scope, (proj2 (Z.ltb_lt _ _) Hn).
  rewrite (bool_decide_eq_true_2 (_ = _)), (bool_decide_eq_false_2 (is_Some _)) by (done || by intros []).
  cbn. by case_bool_decide.
Qed.

Lemma check_credential_Ok now hash scope auth :
  check_credential now hash scope auth = Ok tt →
  an_SecretHash auth = hash ∧ cd_RevokedAt (an_Credential auth) = None ∧ (now < cd_ExpiresAt (an_Credential auth))%Z
  ∧ scope ∈ cd_Scopes (an_Credential auth).
Proof.
  unfold check_credential. rewrite has_scope. intros Hc. res_inv. bool_inv.
  match goal with Hn : ¬ is_Some _ |- _ => by apply eq_None_not_Some in Hn end.
Qed.

Lemma authenticated_row s past k now token scope identity s' :
  machine_history (s :: past) → ac_snap k ∈ s :: past →
  Authenticate k now token scope s = (Ok identity, s') →
  let id := id_CredentialID identity in
  ∃ c p, md_credentials (ac_snap k) !! id = Some c ∧ md_principals (ac_snap k) !! mc_Principal c = Some p
    ∧ identity = Identity (mc_Principal c) (mp_Name p) id (mc_Scopes c)
    ∧ parseMachineCredential token = Some (mc_LookupID c, mc_SecretHash c) ∧ mc_SecretHash c = sha256 token
    ∧ scope ∈ mc_Scopes c ∧ scope ∈ machineScopes ∧ mc_RevokedAt c = None ∧ (now < mc_ExpiresAt c)%Z
    ∧ (active_credential id (store_time now) s = true ∨ active_credential id (store_time now) (ac_again k) = true).
Proof.
  intros [_ Hw]%machine_history_evolves Hsnap. unfold Authenticate.
  destruct (NormalizeMachineScopes [scope]) as [l|] eqn:En; [|done].
  destruct (parseMachineCredential token) as [[lookupID hash]|] eqn:Ep; [|done].
  destruct (FindCredential _ lookupID _) as [auth|[]] eqn:Ef; try done.
  destruct (check_credential now hash scope auth) as [[]|] eqn:Ec; [|done].
  destruct (MarkUsed _ _ _ _ _ s) as [[[]|[]] s2] eqn:Em; try done. intros [= <- <-].
  apply find_credential_Ok in Ef as (id & c & p & scopes & Hc & Hp & Hl & Hn & ->).
  apply check_credential_Ok in Ec as (Hh & Hr & Hx & Hs). apply mark_used_Ok in Em.
  cbn [an_SecretHash an_Credential an_Principal cd_RevokedAt cd_ExpiresAt cd_Scopes cd_ID read_credential read_principal pr_ID pr_Name id_CredentialID] in *.
  rewrite Forall_forall in Hw. pose proof (co_scopes _ _ _ (mw_credentials _ (Hw _ Hsnap) _ _ Hc)) as Hsame.
  rewrite Hsame in Hn. injection Hn as <-. apply normalize_exact in En as (_ & _ & Hk & _).
  exists c, p. split; [done|]. split; [done|]. split; [done|].
  assert (hash = sha256 token) as ->.
  { unfold parseMachineCredential in Ep. by repeat case_match; simplify_eq. }
  rewrite Hl, Hh. repeat (split; [done|]). split; [apply Hk; by left|]. done.
Qed.

(** An authentication that succeeds presented the secret of a stored
    credential whose hash is the token's, found under the token's own lookup id;
    the identity is that credential's principal with its scopes, the required one
    among them; when it was read the credential was neither revoked nor expired,
    and it was still active when its use was recorded or when that was checked
    again. *)
Theorem machine_authenticated s past k now token scope identity s' :
  machine_history (s :: past) → ac_snap k ∈ s :: past →
  Authenticate k now token scope s = (Ok identity, s') →
  let id := id_CredentialID identity in
  ∃ c p, md_credentials (ac_snap k) !! id = Some c ∧ md_principals (ac_snap k) !! mc_Principal c = Some p
    ∧ identity = Identity (mc_Principal c) (mp_Name p) id (mc_Scopes c)
    ∧ parseMachineCredential token = Some (mc_LookupID c, mc_SecretHash c) ∧ mc_SecretHash c = sha256 token
    ∧ scope ∈ mc_Scopes c ∧ scope ∈ machineScopes ∧ mc_RevokedAt c = None ∧ (now < mc_ExpiresAt c)%Z
    ∧ (active_credential id (store_time now) s = true ∨ active_credential id (store_time now) (ac_again k) = true).
Proof. apply authenticated_row. Qed.

(** Revocation of a machine credential is immediate and for good: once it
    has answered success, no authentication whose use is recorded from then on
    succeeds with that credential, even when it read the credential before. *)
Theorem machine_revoked_forever recent s' s old f t actor id s1 k now token scope identity s2 :
  machine_history (recent ++ s' :: s :: old) →
  MachinePrincipalService_Revoke f t actor id s = (Ok tt, s') →
  s1 ∈ recent ++ [s'] → ac_again k ∈ recent ++ [s'] →
  Authenticate k now token scope s1 = (Ok identity, s2) → id_CredentialID identity ≠ id.
Proof.
  intros [Hs _]%machine_history_evolves Hr H1 H2 Ha <-. set (id := id_CredentialID identity) in *.
  assert (∃ c t', md_credentials s' !! id = Some c ∧ mc_RevokedAt c = Some t') as (c & t' & Hc & Ht).
  { unfold MachinePrincipalService_Revoke in Hr. destruct (_ ← requireMachinePrincipalAdmin actor; _); [|done].
    unfold MachinePrincipalRepository_Revoke, in_machine_tx in Hr. destruct (mf_begin f); [done|]. destruct (mf_first f); [done|].
    destruct (md_credentials s !! id) as [c|]; [|done]. destruct (bool_decide (is_Some (mc_RevokedAt c))); [done|].
    destruct (store_time t <? mc_CreatedAt c)%Z; [done|]. unfold insertMachinePrincipalAudit in Hr. destruct (mf_audit f); [done|]. destruct (mf_commit f); [|done..].
    injection Hr as <-. cbn. exists (with_revoked (store_time t) c), (store_time t). by rewrite lookup_insert_eq. }
  assert (∀ x, x ∈ recent ++ [s'] → active_credential id (store_time now) x = false) as Hdead.
  { intros x Hx. assert (machine_evolves s' x) as He.
    { apply elem_of_app in Hx as [Hin| ->%list_elem_of_singleton]; [|done].
      eapply (StronglySorted_app_1_elem_of (λ s' s, machine_evolves s s') _ _ x s' Hs); [done|by left]. }
    destruct (me_credentials _ _ He _ _ Hc) as (c' & Hc' & [_ Hrev]). unfold active_credential, active_at.
    by rewrite Hc', (Hrev _ Ht). }
  unfold Authenticate in Ha. destruct (NormalizeMachineScopes [scope]); [|done].
  destruct (parseMachineCredential token) as [[lookupID hash]|]; [|done].
  destruct (FindCredential _ lookupID _) as [auth|[]]; try done. destruct (check_credential now hash scope auth); [|done].
  destruct (MarkUsed _ _ _ _ _ s1) as [[[]|[]] s3] eqn:Em; try done.
  assert (id = cd_ID (an_Credential auth)) as Hid by by injection Ha as <- _.
  apply mark_used_Ok in Em. rewrite <- Hid, !Hdead in Em by done. by destruct Em.
Qed.

(** ** What is issued authenticates *)

Lemma head_is {A} (l : list A) x : x ∈ l → (∀ y, y ∈ l → y = x) → head l = Some x.
Proof. destruct l as [|y l]; [by intros ?%elem_of_nil|]. intros _ Hy. cbn. f_equal. apply Hy. by left. Qed.

Lemma find_credential_stored s id c p :
  machine_wf s → md_credentials s !! id = Some c → md_principals s !! mc_Principal c = Some p →
  FindCredential false (mc_LookupID c) s
  = Ok (Authentication (read_principal (mc_Principal c) p) (read_credential id c (mc_Scopes c)) (mc_SecretHash c)).
Proof.
  intros Hw Hc Hp. unfold FindCredential. rewrite (head_is _ ((id, c), p)).
  - destruct (mw_credentials _ Hw _ _ Hc) as [_ _ Hs Hh _ _ _ _]. by rewrite Hh, Hs.
  - apply list_elem_of_omap. exists (id, c). split; [by apply elem_of_map_to_list|]. cbn. by rewrite bool_decide_eq_true_2, Hp.
  - intros y ([i d] & Hd%elem_of_map_to_list & Hy)%list_elem_of_omap. cbn in Hy. case_bool_decide as Hl; [|done].
    assert (i = id) as -> by (by eapply (mw_lookups _ Hw)). simplify_eq. rewrite Hp in Hy. by injection Hy as <-.
Qed.

Lemma url_plain x : Forall (λ c, plain c = true) (@EncodeToString RawURLEncoding x).
Proof. apply encode_chars. apply all_sextets. by vm_compute. Qed.

Lemma parse_generated lookup secret m :
  length lookup = 12 → length secret = 32 → generateMachineCredential (Some lookup) (Some secret) = Ok m →
  parseMachineCredential (mm_Token m) = Some (mm_LookupID m, mm_Hash m) ∧ mm_Hash m = sha256 (mm_Token m).
Proof.
  intros Hl Hs Hm. unfold generateMachineCredential in Hm. cbn zeta in Hm. apply (inj Ok) in Hm as <-. split; [|done].
  cbn [mm_Token mm_LookupID mm_Hash]. unfold parseMachineCredential.
  rewrite trim_space_plain.
  2:{ apply Forall_app. split; [apply (bool_decide_unpack (Forall _ _)); by vm_compute|].
      apply Forall_app. split; [apply url_plain|]. constructor; [done|apply url_plain]. }
  unfold is_prefix. rewrite take_app_length, !bool_decide_eq_true_2 by done. cbn [negb orb].
  rewrite drop_app_length, cut_on_app by (apply encode_free; by vm_compute). rewrite !decode_encode, Hl, Hs. done.
Qed.

(** A credential issued by a creation or a rotation, with its secret. *)
Inductive issues (s : machine_db) : MachineCredentialIssue → machine_db → Prop :=
  | issues_create f now lookup secret actor name scopes expires i s' : length lookup = 12 → length secret = 32 →
      MachinePrincipalService_Create f now (Some lookup) (Some secret) actor name scopes expires s = (Ok i, s') → issues s i s'
  | issues_rotate f now lookup secret actor old scopes expires i s' : length lookup = 12 → length secret = 32 →
      MachinePrincipalService_Rotate f now (Some lookup) (Some secret) actor old scopes expires s = (Ok i, s') → issues s i s'.

(** The stored row behind an issue. *)
Record issued_row (i : MachineCredentialIssue) (s : machine_db) (c : credential_row) : Prop := {
  ir_row : md_credentials s !! cd_ID (is_Credential i) = Some c;
  ir_principal : mc_Principal c = pr_ID (is_Principal i)
    ∧ ∃ p, md_principals s !! pr_ID (is_Principal i) = Some p ∧ mp_Name p = pr_Name (is_Principal i);
  ir_secret : parseMachineCredential (is_Secret i) = Some (mc_LookupID c, mc_SecretHash c);
  ir_fields : mc_Scopes c = cd_Scopes (is_Credential i) ∧ mc_ExpiresAt c = store_time (cd_ExpiresAt (is_Credential i))
    ∧ mc_CreatedAt c = store_time (cd_CreatedAt (is_Credential i)) ∧ mc_RevokedAt c = None ∧ mc_LastUsedAt c = None;
}.

Lemma insert_audited_Ok {A} f pid actor c event changes (answer : MachineCredential → A) s a s' :
  insert_audited f pid actor c event changes answer s = (Ok a, s') →
  ∃ stored row, a = answer stored ∧ md_principals s' = md_principals s ∧ md_credentials s' !! cd_ID stored = Some row
    ∧ row = CredentialRow pid (ci_LookupID c) (ci_SecretHash c) (ci_Scopes c) (store_time (ci_ExpiresAt c)) None None actor
              (ci_RotatedFrom c) (store_time (ci_CreatedAt c))
    ∧ cd_Scopes stored = ci_Scopes c ∧ cd_ExpiresAt stored = ci_ExpiresAt c ∧ cd_CreatedAt stored = ci_CreatedAt c.
Proof.
  unfold insert_audited, insertMachineCredential, insertMachinePrincipalAudit. destruct (mf_credential f || _); [done|].
  destruct (mf_audit f); [done|]. intros [= <- <-]. eexists _, _. split; [done|]. cbn. rewrite lookup_insert_eq. done.
Qed.

Lemma in_machine_tx_Ok {A} f (body : machine_db → result machine_error A * machine_db) s a s' :
  in_machine_tx f body s = (Ok a, s') → body s = (Ok a, s').
Proof.
  unfold in_machine_tx. destruct (mf_begin f); [done|]. destruct (body s) as [[b|] t]; [|done].
  by destruct (mf_commit f); intros [= <- <-].
Qed.

Lemma credential_request_secret now lookup secret scopes expires from c token :
  length lookup = 12 → length secret = 32 →
  credential_request now (Some lookup) (Some secret) scopes expires from = Ok (c, token) →
  parseMachineCredential token = Some (ci_LookupID c, ci_SecretHash c).
Proof.
  intros Hl Hs Hr. unfold credential_request in Hr. do 2 res_step.
  destruct (generateMachineCredential (Some lookup) (Some secret)) as [m|] eqn:Em; [|done].
  injection Hr as <- <-. by destruct (parse_generated _ _ _ Hl Hs Em).
Qed.

Lemma issues_row s i s' : issues s i s' → ∃ c, issued_row i s' c.
Proof.
  intros [f now lookup secret actor name scopes expires i' s'' Hl Hs Hi|f now lookup secret actor old scopes expires i' s'' Hl Hs Hi].
  - unfold MachinePrincipalService_Create in Hi. destruct (_ ← requireMachinePrincipalAdmin actor; _) as [[n [c tok]]|] eqn:E; [|done].
    res_inv. destruct (MachinePrincipalRepository_Create f (au_ID actor) n c s) as [[[p cd]|] t] eqn:Ec; [|done]. injection Hi as <- <-.
    apply in_machine_tx_Ok in Ec. destruct (mf_first f); [done|].
    apply insert_audited_Ok in Ec as (stored & row & [= -> ->] & Hp & Hr & -> & H1 & H2 & H3). eexists. split; cbn.
    + exact Hr.
    + split; [done|]. rewrite Hp. cbn. rewrite lookup_insert_eq. by eexists.
    + by eapply credential_request_secret.
    + by rewrite H1, H2, H3.
  - unfold MachinePrincipalService_Rotate in Hi. destruct (_ ← requireMachinePrincipalAdmin actor; _) as [[c tok]|] eqn:E; [|done].
    res_inv. destruct (MachinePrincipalRepository_Rotate f (au_ID actor) old c s) as [[[p cd]|[]] t] eqn:Ec; try done. injection Hi as <- <-.
    apply in_machine_tx_Ok in Ec. destruct (mf_first f); [done|].
    destruct (md_credentials s !! old) as [c0|]; [|done]. cbn [mbind option_bind] in Ec.
    destruct (md_principals s !! mc_Principal c0) as [q|] eqn:Eq; [|done]. cbn [mbind option_bind] in Ec.
    apply insert_audited_Ok in Ec as (stored & row & [= -> ->] & Hp & Hr & -> & H1 & H2 & H3). eexists. split; cbn.
    + exact Hr.
    + split; [done|]. rewrite Hp, Eq. by eexists.
    + by eapply credential_request_secret.
    + by rewrite H1, H2, H3.
Qed.

Lemma issues_safe s i s' : machine_wf s → issues s i s' → machine_safe s s'.
Proof.
  intros Hw [f now lookup secret actor name scopes expires i' s'' _ _ Hi|f now lookup secret actor old scopes expires i' s'' _ _ Hi].
  - pose proof (step_issue [] s f now (Some lookup) (Some secret) actor name scopes expires) as Hs. rewrite Hi in Hs.
    by eapply machine_step_safe.
  - pose proof (step_rotate [] s f now (Some lookup) (Some secret) actor old scopes expires) as Hs. rewrite Hi in Hs.
    by eapply machine_step_safe.
Qed.

(** The secret a creation or a rotation answers authenticates at once, and
    until the stored expiry, as the answered principal and credential, for every
    scope answered with it and for no other; nothing else of the tables is
    touched, so that a rotated credential goes on working beside the new one. *)
Theorem issued_secret_authenticates s i s' now scope :
  machine_wf s → issues s i s' → scope ∈ machineScopes →
  let c := is_Credential i in
  (store_time (cd_CreatedAt c) ≤ store_time now < store_time (cd_ExpiresAt c))%Z → (now < store_time (cd_ExpiresAt c))%Z →
  (Authenticate (AuthCalls false s' WriteDone false s') now (is_Secret i) scope s').1
  = (if bool_decide (scope ∈ cd_Scopes c)
     then Ok (Identity (pr_ID (is_Principal i)) (pr_Name (is_Principal i)) (cd_ID c) (cd_Scopes c))
     else Err ErrMachineScopeDenied)
  ∧ machine_evolves s s'.
Proof.
  intros Hw Hi Hk c Ht Hn. destruct (issues_safe _ _ _ Hw Hi) as [Hw' He]. split; [|done].
  destruct (issues_row _ _ _ Hi) as (r & [Hrow (Hp & p & Hpr & Hname) Hs (Hsc & Hex & Hcr & Hrev & Hused)]). subst c.
  unfold Authenticate. cbn [ac_read_fails ac_snap ac_update ac_again_fails ac_again].
  rewrite (proj2 (normalize_exact [scope] (filter (λ x, x ∈ [scope]) machineScopes))).
  2:{ split; [done|]. split; [apply NoDup_singleton|]. split; [|done]. by intros x ->%list_elem_of_singleton. }
  rewrite Hs, (find_credential_stored s' _ r p Hw' Hrow) by by rewrite Hp.
  rewrite check_credential_scope by (cbn; rewrite ?Hrev, ?Hex; done). cbn [an_Credential cd_Scopes cd_ID read_credential].
  rewrite Hsc. case_bool_decide; [|done]. unfold MarkUsed. rewrite Hrow. unfold active_at. rewrite Hrev, Hex, Hused, Hcr.
  rewrite (proj2 (Z.ltb_lt _ _)), (proj2 (Z.ltb_ge _ _)) by lia. cbn. by rewrite Hp, Hname.
Qed.
End runs.

(** ** A concrete history *)

Module MachineSample.
(** A column that keeps microseconds. *)
#[export] Instance micros : DbTime := λ t, (t / 1000 * 1000)%Z.

Definition admin : AuthenticatedUser := MkAuthenticatedUser 7 (gs "admin") 0.
Definition noon : Z := (1700000000 * 1000000000)%Z.
Definition created : result machine_error MachineCredentialIssue * machine_db :=
  MachinePrincipalService_Create no_machine_faults noon (Some (gs "lookup bytes")) (Some (gs "thirty-two bytes of true entropy"))
    admin (gs " collector ") [MachineScopeHealthWrite; MachineScopeInventoryRead] None empty_machines.
Definition issue : MachineCredentialIssue :=
  match created.1 with Ok i => i | Err _ => Issue (MkPrincipal 0 [] 0 0) (MkCredential 0 0 [] [] 0 None None None 0) [] end.
Definition calls (read again : machine_db) : authentication_calls := AuthCalls false read WriteDone false again.
Definition used : result machine_error MachinePrincipalIdentity * machine_db :=
  Authenticate (calls created.2 created.2) (noon + day) (is_Secret issue) MachineScopeInventoryRead created.2.
Definition identity : MachinePrincipalIdentity := Identity 1 (gs "collector") 1 [MachineScopeInventoryRead; MachineScopeHealthWrite].
(** The credential is rotated and the old one revoked; the new one goes on. *)
Definition rotated : result machine_error MachineCredentialIssue * machine_db :=
  MachinePrincipalService_Rotate no_machine_faults (noon + day) (Some (gs "second bytes")) (Some (gs "another thirty-two byte entropy."))
    admin 1 [MachineScopeInventoryRead] None used.2.
Definition second : MachineCredentialIssue := match rotated.1 with Ok i => i | Err _ => issue end.
Definition revoked : result machine_error () * machine_db :=
  MachinePrincipalService_Revoke no_machine_faults (noon + 2 * day) admin 1 rotated.2.
Definition used_again : result machine_error MachinePrincipalIdentity * machine_db :=
  Authenticate (calls rotated.2 revoked.2) (noon + 3 * day) (is_Secret second) MachineScopeInventoryRead revoked.2.
Definition identity_again : MachinePrincipalIdentity := Identity 1 (gs "collector") 2 [MachineScopeInventoryRead].

Lemma created_ok : created.1 = Ok issue.
Proof. by vm_compute. Qed.
Lemma used_ok : used.1 = Ok identity.
Proof. by vm_compute. Qed.
Lemma used_again_ok : used_again.1 = Ok identity_again.
Proof. by vm_compute. Qed.
Lemma revoked_ok : revoked.1 = Ok tt.
Proof. by vm_compute. Qed.

Lemma to_used : machine_history [used.2; created.2; empty_machines].
Proof.
  apply machine_next; [apply machine_next; [apply machine_start|apply step_issue]|]. apply step_authenticate. by left.
Qed.
Lemma to_revoked : machine_history [revoked.2; rotated.2; used.2; created.2; empty_machines].
Proof. apply machine_next; [apply machine_next; [exact to_used|apply step_rotate]|apply step_revoke]. Qed.
Lemma answered {A B} (p : A * B) a : p.1 = a → p = (a, p.2).
Proof. by destruct p; cbn; intros ->. Qed.
Lemma created_issues : issues empty_machines issue created.2.
Proof.
  exact (issues_create empty_machines no_machine_faults noon (gs "lookup bytes") (gs "thirty-two bytes of true entropy") admin (gs " collector ")
    [MachineScopeHealthWrite; MachineScopeInventoryRead] None issue created.2 eq_refl eq_refl (answered created _ created_ok)).
Qed.
Lemma created_wf : machine_wf empty_machines ∧ machine_wf created.2.
Proof.
  pose proof (proj2 (machine_history_evolves _ to_used)) as Hw. apply Forall_cons in Hw as [_ Hw].
  apply Forall_cons in Hw as [H1 Hw]. by apply Forall_cons in Hw as [H2 _].
Qed.
End MachineSample.
Import MachineSample.

Lemma machine_invariant_witness : machine_wf revoked.2 ∧ machine_evolves created.2 revoked.2.
Proof.
  destruct (machine_invariant revoked.2 _ to_revoked) as [Hw He]. split; [exact Hw|]. apply He. right. right. by left.
Defined.

Lemma machine_authenticated_witness :
  used.1 = Ok identity ∧ ∃ c, md_credentials created.2 !! 1%Z = Some c ∧ mc_SecretHash c = sha256 (is_Secret issue).
Proof.
  split; [exact used_ok|].
  destruct (machine_authenticated created.2 [empty_machines] (calls created.2 created.2) (noon + day) (is_Secret issue)
    MachineScopeInventoryRead identity used.2) as (c & p & Hc & _ & _ & _ & Hs & _).
  - apply machine_next; [apply machine_start|apply step_issue].
  - by left.
  - exact (answered used _ used_ok).
  - exists c. exact (conj Hc Hs).
Defined.

(** The first credential is revoked; the second, read before that, still works. *)
Lemma machine_revoked_forever_witness : used_again.1 = Ok identity_again ∧ id_CredentialID identity_again ≠ 1%Z.
Proof.
  split; [exact used_again_ok|].
  apply (machine_revoked_forever [] revoked.2 rotated.2 [used.2; created.2; empty_machines] no_machine_faults (noon + 2 * day) admin 1
    revoked.2 (calls rotated.2 revoked.2) (noon + 3 * day) (is_Secret second) MachineScopeInventoryRead identity_again used_again.2).
  - exact to_revoked.
  - exact (answered revoked _ revoked_ok).
  - by left.
  - by left.
  - exact (answered used_again _ used_again_ok).
Defined.

Lemma issued_secret_authenticates_witness :
  (Authenticate (calls created.2 created.2) (noon + day) (is_Secret issue) MachineScopeHealthWrite created.2).1
  = (if bool_decide (MachineScopeHealthWrite ∈ cd_Scopes (is_Credential issue))
     then Ok (Identity (pr_ID (is_Principal issue)) (pr_Name (is_Principal issue)) (cd_ID (is_Credential issue)) (cd_Scopes (is_Credential issue)))
     else Err ErrMachineScopeDenied).
Proof.
  refine (proj1 (issued_secret_authenticates empty_machines issue created.2 (noon + day) MachineScopeHealthWrite
    (proj1 created_wf) created_issues _ _ _)).
  - apply (bool_decide_unpack (_ ∈ _)). by vm_compute.
  - vm_compute. by split.
  - by vm_compute.
Defined.
