(* ===== verification/AccessGate.v ===== *)
(** * Who reaches which handler

    The bearer gates of [internal/api/auth_middleware.go] and
    [machine_credential_middleware.go], the route table of
    [internal/api/router.go], and the bounded audit of rejections of
    [service/auth_audit_emitter.go]. Tokens and machine credentials are verified
    by Auth and MachineAuth. *)
From S2P Require Import Prelude GoText GoAny Sha256 Encoding Auth MachineAuth.

(** ** The bounded audit of rejections *)

Record auth_event : Type := AuthEvent {
  ae_Type : bytes; ae_Result : bytes; ae_Actor : option Z; ae_Target : option Z;
}.
Definition bearer_rejected (actor : option Z) : auth_event := AuthEvent (gs "auth.bearer") (gs "rejected") actor None.
Definition role_denied (actor target : option Z) : auth_event := AuthEvent (gs "auth.authorization") (gs "denied") actor target.

(** A rejection with no verified actor, which anyone can cause. *)
Definition untrusted (e : auth_event) : bool :=
  (ae_Type e =?b gs "auth.bearer") && (ae_Result e =?b gs "rejected") && bool_decide (ae_Actor e = None).

Definition BoundedBearerRejectedLimit : Z := 60.
Definition minute : Z := (60 * 1000000000)%Z.

Record BearerRejectBudget : Type := Budget { bb_limit : Z; bb_window : Z; bb_windowStart : Z; bb_count : Z }.
Definition NewBearerRejectBudget (limit window : Z) : BearerRejectBudget := Budget limit window zero_time 0.
Definition allow (now : Z) (b : BearerRejectBudget) : bool * BearerRejectBudget :=
  let b := if (bb_window b <=? time_sub now (bb_windowStart b))%Z then Budget (bb_limit b) (bb_window b) now 0 else b in
  if (bb_limit b <=? bb_count b)%Z then (false, b)
  else (true, Budget (bb_limit b) (bb_window b) (bb_windowStart b) (bb_count b + 1)).

(** What has been passed on, with its time, and the counter of suppressed events. *)
Record emitter : Type := Emitter { em_budget : BearerRejectBudget; em_suppressed : Z; em_passed : list (Z * auth_event) }.
Definition EmitAuthAudit (now : Z) (e : auth_event) (s : emitter) : emitter :=
  if untrusted e then
    match allow now (em_budget s) with
    | (true, b) => Emitter b (em_suppressed s) (em_passed s ++ [(now, e)])
    | (false, b) => Emitter b (em_suppressed s + 1) (em_passed s)
    end
  else Emitter (em_budget s) (em_suppressed s) (em_passed s ++ [(now, e)]).
Definition emit_all (l : list (Z * auth_event)) (s : emitter) : emitter := foldl (λ s p, EmitAuthAudit p.1 p.2 s) s l.
Definition new_emitter (limit window : Z) : emitter := Emitter (NewBearerRejectBudget limit window) 0 [].

(** ** The user gates *)

Record http_error : Type := HttpError { he_Status : Z; he_Code : bytes; he_Message : bytes }.
Definition controlledUnauthorizedMessage : bytes := gs "unauthorized".
Definition unauthorized : http_error := HttpError 401 (gs "unauthorized") controlledUnauthorizedMessage.
Definition forbidden : http_error := HttpError 403 (gs "forbidden") (gs "admin role is required").

(** The events a gate emits, and the error it writes or the actor it hands on. *)
Abbreviation gated A := (list auth_event * result http_error A)%type.

Definition writeMachineCredentialError (e : machine_error) : http_error :=
  match e with
  | ErrMachineScopeDenied => HttpError 403 (gs "machine_scope_denied") (gs "machine credential scope is not permitted")
  | ErrMachineCredentialExpired => HttpError 401 (gs "machine_credential_expired") (gs "machine credential is not active")
  | ErrMachineCredentialRevoked => HttpError 401 (gs "machine_credential_revoked") (gs "machine credential is not active")
  | _ => HttpError 401 (gs "machine_credential_invalid") (gs "machine credential is not valid")
  end.

Definition bearer_prefix : bytes := gs "Bearer ".

(** [MaxQueryTokenAge], and the instant of a Unix second, whose addition wraps. *)
Definition MaxQueryTokenAge : Z := (8 * 3600 * 1000000000)%Z.
Definition unix_instant (sec : Z) : Z := ((to_int64 (sec + 62135596800) - 62135596800) * 1000000000)%Z.

(** The decimal number after [/resources/]. *)
Definition extractResourceIDFromPath (path : bytes) : option Z :=
  if negb (is_prefix (gs "/resources/") path) then None
  else let rest := drop 11 path in
       let part := match cut_on "/"%char rest with Some (a, _) => a | None => rest end in
       if part =?b [] then None
       else id ← parse_uint part; if (id =? 0)%Z then None else Some id.

Section gates.
Context (verify : bytes → result auth_error AuthenticatedUser).
Context (authenticate : bytes → bytes → result machine_error MachinePrincipalIdentity).

(** The prefix is compared by [strings.EqualFold]: none of its letters folds to
    anything but its other case. *)
Definition verifyBearer (header : bytes) : gated AuthenticatedUser :=
  if is_prefix (bearer_prefix ++ machineCredentialPrefix) header then ([], Err (writeMachineCredentialError ErrMachineScopeDenied))
  else if header =?b [] then ([], Err unauthorized)
  else if (length header <? 7)%nat || negb (ascii_lower (take 7 header) =?b ascii_lower bearer_prefix)
  then ([bearer_rejected None], Err unauthorized)
  else let token := trim_space (drop 7 header) in
       if token =?b [] then ([bearer_rejected None], Err unauthorized)
       else match verify token with
            | Err _ => ([bearer_rejected None], Err unauthorized)
            | Ok user => ([], Ok user)
            end.

Definition requireAuthenticatedActor (now : Z) (header : bytes) : gated AuthenticatedUser :=
  match verifyBearer header with
  | (events, Err e) => (events, Err e)
  | (events, Ok user) =>
      if (MaxQueryTokenAge <=? time_sub now (unix_instant (au_IssuedAt user)))%Z
      then (events ++ [bearer_rejected (Some (au_ID user))], Err unauthorized)
      else (events, Ok user)
  end.
(** The same steps again, for the governed-query routes. *)
Definition requireFreshQueryActor (now : Z) (header : bytes) : gated AuthenticatedUser :=
  match verifyBearer header with
  | (events, Err e) => (events, Err e)
  | (events, Ok user) =>
      if (MaxQueryTokenAge <=? time_sub now (unix_instant (au_IssuedAt user)))%Z
      then (events ++ [bearer_rejected (Some (au_ID user))], Err unauthorized)
      else (events, Ok user)
  end.
(** Behind one of the two above. *)
Definition requireAdminActor (path : bytes) (r : gated AuthenticatedUser) : gated AuthenticatedUser :=
  match r with
  | (events, Ok user) =>
      if negb (au_Role user =?b gs "admin")
      then (events ++ [role_denied (Some (au_ID user)) (extractResourceIDFromPath path)], Err forbidden)
      else (events, Ok user)
  | (events, Err e) => (events, Err e)
  end.

Definition requireMachineCredential (scope header : bytes) : gated MachinePrincipalIdentity :=
  if negb (is_prefix bearer_prefix header)
  then ([], Err (HttpError 401 (gs "machine_credential_invalid") (gs "machine credential is required")))
  else match authenticate (drop 7 header) scope with
       | Err e => ([], Err (writeMachineCredentialError e))
       | Ok identity => ([], Ok identity)
       end.

(** ** Routes *)

Inductive user_guard : Type :=
  | RequireUser                 (** [requireAuthenticatedActor] *)
  | RequireAdmin                (** and [requireAdminActor] behind it *)
  | RequireFresh                (** [requireFreshQueryActor] *)
  | RequireFreshAdmin.
Inductive route_guard : Type :=
  | Public
  | UserOnly (g : user_guard)
  | UserOrMachine (g : user_guard) (scope : bytes).
Inductive http_method : Type := GET | POST | PUT | PATCH | DELETE | OPTIONS | OtherMethod (name : bytes).
Record route : Type := Route { rt_Method : http_method; rt_Pattern : bytes; rt_Guard : route_guard }.

Inductive request_actor : Type :=
  | NoActor
  | UserActor (u : AuthenticatedUser)
  | MachineActor (m : MachinePrincipalIdentity).

Definition user_gate (g : user_guard) (now : Z) (path header : bytes) : gated AuthenticatedUser :=
  match g with
  | RequireUser => requireAuthenticatedActor now header
  | RequireAdmin => requireAdminActor path (requireAuthenticatedActor now header)
  | RequireFresh => requireFreshQueryActor now header
  | RequireFreshAdmin => requireAdminActor path (requireFreshQueryActor now header)
  end.
Definition handed_on {A} (f : A → request_actor) (r : gated A) : gated request_actor :=
  (r.1, match r.2 with Ok a => Ok (f a) | Err e => Err e end).
Definition requireUserOrMachineCredential (g : user_guard) (scope : bytes) (now : Z) (path header : bytes) : gated request_actor :=
  if is_prefix (gs "Bearer chmp_") header then handed_on MachineActor (requireMachineCredential scope header)
  else handed_on UserActor (user_gate g now path header).
Definition route_gate (g : route_guard) (now : Z) (path header : bytes) : gated request_actor :=
  match g with
  | Public => ([], Ok NoActor)
  | UserOnly g => handed_on UserActor (user_gate g now path header)
  | UserOrMachine g scope => requireUserOrMachineCredential g scope now path header
  end.
End gates.

(** The services a process is built with; the others are always there. *)
Record Dependencies : Type := MkDependencies {
  dp_NamedInventoryViewService : bool; dp_QueryWorkspaceService : bool; dp_MachinePrincipalService : bool;
  dp_QueryExecutionService : bool; dp_QueryExecutionStatementService : bool; dp_QueryExplainService : bool;
  dp_QueryCredentialService : bool; dp_QuerySchemaService : bool; dp_QueryDisclosureService : bool;
  dp_QuerySavedStatementService : bool;
}.

Definition under (g : route_guard) (l : list (http_method * string)) : list route := (λ p, Route p.1 (gs p.2) g) <$> l.
Definition when (b : bool) (l : list route) : list route := if b then l else [].

Definition public_routes : list route :=
  under Public [(GET, "/health"); (POST, "/auth/login"); (GET, "/openapi.yaml"); (GET, "/docs")]%string.
Definition read_routes : list route :=
  under (UserOrMachine RequireUser MachineScopeInventoryRead)
    [(GET, "/resources"); (GET, "/resources/{id}"); (GET, "/resources/{id}/profile"); (GET, "/resources/{id}/effective-values");
     (GET, "/environments"); (GET, "/owners"); (GET, "/roles"); (GET, "/resource-types"); (GET, "/relation-types");
     (GET, "/lifecycle-statuses"); (GET, "/health-statuses"); (GET, "/resource-subtypes")]%string
  ++ under (UserOrMachine RequireUser MachineScopeRelationsRead)
    [(GET, "/resources/{id}/relations"); (GET, "/resources/{id}/relation-rules"); (GET, "/resources/{id}/members");
     (GET, "/resources/{id}/topology"); (GET, "/environments/{id}/topology")]%string
  ++ under (UserOrMachine RequireUser MachineScopeGovernedSelect) [(GET, "/query-targets")]%string.
Definition view_routes : list route :=
  under (UserOrMachine RequireUser MachineScopeNamedViewsRead) [(GET, "/inventory/views")]%string
  ++ under (UserOnly RequireUser)
       [(POST, "/inventory/views"); (PUT, "/inventory/views/{viewId}"); (DELETE, "/inventory/views/{viewId}")]%string.
Definition machine_admin_routes : list route :=
  under (UserOrMachine RequireAdmin MachineScopeAuditRead) [(GET, "/resources/{id}/audit-events"); (GET, "/audit-events")]%string
  ++ under (UserOrMachine RequireAdmin MachineScopeInventoryIngest)
       [(POST, "/admin/ingestions/preview"); (POST, "/admin/ingestions/confirm")]%string
  ++ under (UserOrMachine RequireAdmin MachineScopeHealthWrite) [(POST, "/resources/{id}/health-observations")]%string.
Definition workspace_routes : list route :=
  under (UserOnly RequireUser) [(GET, "/query-workspace"); (PUT, "/query-workspace")]%string.
Definition admin_routes : list route :=
  under (UserOnly RequireAdmin)
    [(POST, "/resources"); (PATCH, "/resources/{id}"); (PUT, "/resources/{id}/overrides/{field}");
     (DELETE, "/resources/{id}/overrides/{field}"); (POST, "/resources/bulk-mutations/preview");
     (POST, "/resources/bulk-mutations/confirm"); (POST, "/resources/{id}/archive"); (POST, "/resources/{id}/unarchive");
     (PUT, "/resources/{id}/profile"); (PATCH, "/resources/{id}/profile"); (DELETE, "/resources/{id}/profile");
     (POST, "/resources/{id}/relations"); (DELETE, "/resource-relations/{id}"); (GET, "/admin/legacy-hash-count");
     (GET, "/ops/auth-audit-metrics"); (GET, "/ops/query-evidence-metrics")]%string.
Definition machine_principal_routes : list route :=
  under (UserOnly RequireAdmin)
    [(GET, "/admin/machine-principals"); (POST, "/admin/machine-principals");
     (POST, "/admin/machine-credentials/{credentialId}/rotate"); (POST, "/admin/machine-credentials/{credentialId}/revoke")]%string.
Definition execute_routes : list route :=
  under (UserOrMachine RequireFresh MachineScopeGovernedSelect) [(POST, "/query-targets/{id}/execute")]%string.
Definition fresh (l : list (http_method * string)) : list route := under (UserOnly RequireFresh) l.

Definition NewRouter (d : Dependencies) : list route :=
  public_routes ++ read_routes ++ when (dp_NamedInventoryViewService d) view_routes ++ machine_admin_routes
  ++ when (dp_QueryWorkspaceService d) workspace_routes ++ admin_routes
  ++ when (dp_MachinePrincipalService d) machine_principal_routes
  ++ when (dp_QueryExecutionService d)
       (execute_routes
        ++ fresh [(GET, "/query-targets/{id}/executions"); (POST, "/query-targets/{id}/related-records")]%string)
  ++ when (dp_QueryExecutionStatementService d)
       (fresh [(GET, "/query-targets/{id}/executions/{executionId}/statement")]%string)
  ++ when (dp_QueryExplainService d) (fresh [(POST, "/query-targets/{id}/explain")]%string)
  ++ when (dp_QueryCredentialService d)
       (fresh [(GET, "/query-targets/{id}/credential")]%string
        ++ under (UserOnly RequireFreshAdmin) [(PUT, "/query-targets/{id}/credential"); (DELETE, "/query-targets/{id}/credential")]%string)
  ++ when (dp_QuerySchemaService d)
       (fresh [(GET, "/query-targets/{id}/schema/databases"); (GET, "/query-targets/{id}/schema/schemas");
               (GET, "/query-targets/{id}/schema/objects"); (GET, "/query-targets/{id}/schema/object-details");
               (GET, "/query-targets/{id}/schema/table-definition"); (GET, "/query-targets/{id}/schema/relationship-map")]%string)
  ++ when (dp_QueryDisclosureService d)
       (fresh [(GET, "/query-disclosure-policies"); (POST, "/query-disclosure-policies");
               (PUT, "/query-disclosure-policies"); (DELETE, "/query-disclosure-policies")]%string)
  ++ when (dp_QuerySavedStatementService d)
       (fresh [(GET, "/query-targets/{id}/saved-statements"); (POST, "/query-targets/{id}/saved-statements");
               (PUT, "/query-targets/{id}/saved-statements/{statementId}");
               (DELETE, "/query-targets/{id}/saved-statements/{statementId}")]%string
        ++ when (dp_QueryExecutionService d)
             (fresh [(POST, "/query-targets/{id}/saved-statements/{statementId}/execute")]%string)).

(** ** Requests *)

Record request : Type := Request { rq_Method : http_method; rq_Path : bytes; rq_Authorization : bytes }.
Inductive served : Type :=
  | Preflight                            (** 204 of [corsLocalDev] *)
  | NotRouted                            (** 404 or 405 of the router *)
  | Refused (e : http_error)
  | Reached (r : route) (actor : request_actor).

(** The third-party router picks one of the registered routes. *)
Class Dispatch : Type := dispatch : list route → http_method → bytes → option route.
Class DispatchLaws (D : Dispatch) : Prop := {
  dispatch_registered l m path r : dispatch l m path = Some r → r ∈ l ∧ rt_Method r = m;
}.

Definition serve `{Dispatch} (verify : bytes → result auth_error AuthenticatedUser)
    (authenticate : bytes → bytes → result machine_error MachinePrincipalIdentity)
    (d : Dependencies) (now : Z) (rq : request) : list auth_event * served :=
  match rq_Method rq with
  | OPTIONS => ([], Preflight)
  | m =>
      match dispatch (NewRouter d) m (rq_Path rq) with
      | None => ([], NotRouted)
      | Some r =>
          match route_gate verify authenticate (rt_Guard r) now (rq_Path rq) (rq_Authorization rq) with
          | (events, Err e) => (events, Refused e)
          | (events, Ok actor) => (events, Reached r actor)
          end
      end
  end.

(** ** Who is admitted *)

(** The token of a bearer header: the scheme in any case, then a text that is not blank. *)
Definition bearer_token (header : bytes) : option bytes :=
  if (7 <=? length header)%nat && (ascii_lower (take 7 header) =?b gs "bearer ")
  then let token := trim_space (drop 7 header) in if token =?b [] then None else Some token
  else None.
Definition wants_admin (g : user_guard) : bool := match g with RequireAdmin | RequireFreshAdmin => true | _ => false end.
(** The guard of users on a route, if they can pass at all. *)
Definition user_side (g : route_guard) : option user_guard :=
  match g with Public => None | UserOnly g => Some g | UserOrMachine g _ => Some g end.
Definition machine_header : bytes := gs "Bearer chmp_".

Section admission.
Context (verify : bytes → result auth_error AuthenticatedUser).
Context (authenticate : bytes → bytes → result machine_error MachinePrincipalIdentity).

Record user_admitted (g : user_guard) (now : Z) (header : bytes) (u : AuthenticatedUser) : Prop := {
  ua_token : ∃ token, bearer_token header = Some token ∧ verify token = Ok u;
  ua_user : is_prefix machine_header header = false;
  ua_fresh : (time_sub now (unix_instant (au_IssuedAt u)) < MaxQueryTokenAge)%Z;
  ua_role : wants_admin g = true → au_Role u = gs "admin";
}.
Definition machine_admitted (scope header : bytes) (m : MachinePrincipalIdentity) : Prop :=
  ∃ token, header = bearer_prefix ++ token ∧ is_prefix machineCredentialPrefix token = true ∧ authenticate token scope = Ok m.
Definition admitted (g : route_guard) (now : Z) (header : bytes) (actor : request_actor) : Prop :=
  match actor with
  | NoActor => g = Public
  | UserActor u => ∃ ug, user_side g = Some ug ∧ user_admitted ug now header u
  | MachineActor m => ∃ ug scope, g = UserOrMachine ug scope ∧ machine_admitted scope header m
  end.

Lemma bearer_folds header : ascii_lower (take 7 header) = ascii_lower bearer_prefix ↔ ascii_lower (take 7 header) = gs "bearer ".
Proof. done. Qed.

(** No token: the gate refuses and the right-hand side has none either. *)
Ltac no_token := split; [discriminate|by intros (? & ? & ? & ? & ?)].

Lemma verifyBearer_Ok header events u :
  verifyBearer verify header = (events, Ok u) ↔
  events = [] ∧ is_prefix machine_header header = false ∧ ∃ token, bearer_token header = Some token ∧ verify token = Ok u.
Proof.
  unfold verifyBearer, bearer_token. change (bearer_prefix ++ machineCredentialPrefix) with machine_header.
  change (ascii_lower bearer_prefix) with (gs "bearer "). destruct (is_prefix machine_header header); [no_token|].
  case_bool_decide as E0; [subst; no_token|]. clear E0. destruct (length header <? 7)%nat eqn:E1; cbn [orb].
  { bool_inv. rewrite (proj2 (Nat.leb_gt _ _)) by done. no_token. }
  bool_inv. rewrite (proj2 (Nat.leb_le _ _)) by done. cbn [andb]. case_bool_decide; cbn [negb]; [|no_token].
  case_nil; [no_token|]. destruct (verify (trim_space (drop 7 header))) as [v|] eqn:Ev; split.
  - intros [= <- <-]. eauto.
  - intros (-> & _ & token & [= <-] & Hv). congruence.
  - done.
  - intros (_ & _ & token & [= <-] & Hv). congruence.
Qed.

Lemma actor_gate_Ok now header events u :
  requireAuthenticatedActor verify now header = (events, Ok u) ↔ events = [] ∧ user_admitted RequireUser now header u.
Proof.
  unfold requireAuthenticatedActor. destruct (verifyBearer verify header) as [ev [v|e]] eqn:Eb.
  - apply verifyBearer_Ok in Eb as (-> & Hp & token & Ht & Hv).
    assert (∀ g, user_admitted g now header u → v = u) as Hsame by (intros g [(t & Ht' & Hv') _ _ _]; congruence).
    destruct (MaxQueryTokenAge <=? _)%Z eqn:Ea; bool_inv.
    + split; [done|]. intros (_ & Hu). rewrite (Hsame _ Hu) in Ea. destruct Hu. lia.
    + split; [intros [= <- <-]; split; [done|]; by split; eauto|]. intros (-> & Hu). by rewrite (Hsame _ Hu).
  - split; [done|]. intros (-> & [Ht Hp _ _]). assert (verifyBearer verify header = ([], Ok u)) as Hv by by apply verifyBearer_Ok.
    by rewrite Eb in Hv.
Qed.

Lemma fresh_gate_same now header : requireFreshQueryActor verify now header = requireAuthenticatedActor verify now header.
Proof. reflexivity. Qed.

Lemma admin_gate_Ok path r events u :
  requireAdminActor path r = (events, Ok u) ↔ r = (events, Ok u) ∧ au_Role u = gs "admin".
Proof.
  unfold requireAdminActor. destruct r as [ev [v|e]]; [|by split; [|intros [? _]]]. case_bool_decide; cbn [negb].
  - split; [intros He; injection He as <- <-; by split|]. intros [He _]. by injection He as <- <-.
  - split; [done|]. intros [He Hr]. injection He as _ <-. done.
Qed.

Lemma user_gate_Ok g now path header events u :
  user_gate verify g now path header = (events, Ok u) ↔ events = [] ∧ user_admitted g now header u.
Proof.
  assert (∀ g', wants_admin g' = false → user_admitted g' now header u ↔ user_admitted RequireUser now header u) as Hplain.
  { intros g' Hg. split; intros [? ? ? _]; split; auto; cbn; try done. by rewrite Hg. }
  assert (∀ g', wants_admin g' = true →
    user_admitted g' now header u ↔ user_admitted RequireUser now header u ∧ au_Role u = gs "admin") as Hadmin.
  { intros g' Hg. split; [intros [? ? ? Hr]; split; [split; auto; done|by apply Hr]|intros [[? ? ? _] Hr]; by split]. }
  destruct g; cbn [user_gate]; rewrite ?admin_gate_Ok, ?fresh_gate_same, ?actor_gate_Ok;
    [done|rewrite (Hadmin RequireAdmin) by done; tauto|by rewrite (Hplain RequireFresh)|rewrite (Hadmin RequireFreshAdmin) by done; tauto].
Qed.

Lemma machine_gate_Ok scope header events m :
  is_prefix machine_header header = true →
  requireMachineCredential authenticate scope header = (events, Ok m) ↔ events = [] ∧ machine_admitted scope header m.
Proof.
  intros Hp. unfold is_prefix in Hp. bool_inv. rewrite <- (take_drop (length machine_header) header), Hp. clear Hp.
  generalize (drop (length machine_header) header). intros rest. unfold requireMachineCredential.
  change (machine_header ++ rest) with (bearer_prefix ++ machineCredentialPrefix ++ rest).
  assert (is_prefix bearer_prefix (bearer_prefix ++ machineCredentialPrefix ++ rest) = true) as -> by by apply bool_decide_eq_true_2.
  cbn [negb]. change (drop 7 (bearer_prefix ++ machineCredentialPrefix ++ rest)) with (machineCredentialPrefix ++ rest).
  unfold machine_admitted. split.
  - destruct (authenticate _ scope) as [m'|] eqn:Em; [|done]. intros [= <- <-]. split; [done|].
    exists (machineCredentialPrefix ++ rest). split; [done|]. split; [by apply bool_decide_eq_true_2|done].
  - intros (-> & token & Ht & _ & Hm). apply app_inv_head in Ht as ->. by rewrite Hm.
Qed.

(** What the gate of a route lets through is what the declaration admits. *)
Lemma route_gate_Ok g now path header events actor :
  route_gate verify authenticate g now path header = (events, Ok actor) ↔ events = [] ∧ admitted g now header actor.
Proof.
  assert (∀ ug, handed_on UserActor (user_gate verify ug now path header) = (events, Ok actor)
    ↔ events = [] ∧ ∃ u, actor = UserActor u ∧ user_admitted ug now header u) as Huser.
  { intros ug. unfold handed_on. destruct (user_gate verify ug now path header) as [ev [u|e]] eqn:E; cbn.
    - apply user_gate_Ok in E as [-> Hu]. split; [intros [= <- <-]; eauto|]. intros (-> & u' & -> & Hu').
      assert (user_gate verify ug now path header = ([], Ok u')) as E' by by apply user_gate_Ok.
      assert (user_gate verify ug now path header = ([], Ok u)) as E by by apply user_gate_Ok. congruence.
    - split; [done|]. intros (-> & u & -> & Hu).
      assert (user_gate verify ug now path header = ([], Ok u)) as E' by by apply user_gate_Ok. congruence. }
  destruct g as [|ug|ug scope]; cbn [route_gate].
  - split; [by intros [= <- <-]|]. intros (-> & Ha). by destruct actor; [|destruct Ha as (? & ? & _)|destruct Ha as (? & ? & ? & _)].
  - rewrite Huser. split; intros [-> Ha]; (split; [done|]).
    + destruct Ha as (u & -> & Hu). cbn. eauto.
    + destruct actor as [|u|m]; [done| |by destruct Ha as (? & ? & ? & _)]. destruct Ha as (? & [= <-] & Hu). eauto.
  - unfold requireUserOrMachineCredential. change (gs "Bearer chmp_") with machine_header.
    destruct (is_prefix machine_header header) eqn:Ep.
    + unfold handed_on. destruct (requireMachineCredential authenticate scope header) as [ev [m|e]] eqn:E; cbn.
      * apply machine_gate_Ok in E as [-> Hm]; [|done]. split.
        { intros [= <- <-]. split; [done|]. cbn. eauto. }
        intros [-> Ha]. destruct actor as [|u|m']; [done|by destruct Ha as (? & _ & [_ Hf _ _]); rewrite Ep in Hf|].
        destruct Ha as (? & ? & [= <- <-] & Hm'). apply (machine_gate_Ok scope header [] m) in Ep as Hi.
        destruct Hm as (t & -> & _ & Hm), Hm' as (t' & Ht' & _ & Hm'). apply app_inv_head in Ht' as ->. congruence.
      * split; [done|]. intros [-> Ha]. destruct actor as [|u|m']; [done|by destruct Ha as (? & _ & [_ Hf _ _]); rewrite Ep in Hf|].
        destruct Ha as (? & ? & [= <- <-] & Hm').
        assert (requireMachineCredential authenticate scope header = ([], Ok m')) as E' by by apply machine_gate_Ok. congruence.
    + rewrite Huser. split; intros [-> Ha]; (split; [done|]).
      * destruct Ha as (u & -> & Hu). cbn. eauto.
      * destruct actor as [|u|m]; [done| |].
        { destruct Ha as (? & [= <-] & Hu). eauto. }
        destruct Ha as (? & ? & [= <- <-] & t & -> & Ht & _). exfalso. revert Ep. unfold is_prefix in Ht. bool_inv.
        rewrite <- (take_drop (length machineCredentialPrefix) t), Ht. unfold is_prefix.
        intros Ep. bool_inv. apply Ep. reflexivity.
Qed.
End admission.

(** ** The service as a whole *)

Section service.
Context `{Dispatch, !DispatchLaws _}.

Lemma serve_reached verify authenticate d now rq events r actor :
  serve verify authenticate d now rq = (events, Reached r actor) ↔
  rq_Method rq ≠ OPTIONS ∧ dispatch (NewRouter d) (rq_Method rq) (rq_Path rq) = Some r ∧ events = []
  ∧ admitted verify authenticate (rt_Guard r) now (rq_Authorization rq) actor.
Proof.
  assert (rq_Method rq ≠ OPTIONS → serve verify authenticate d now rq
    = match dispatch (NewRouter d) (rq_Method rq) (rq_Path rq) with
      | None => ([], NotRouted)
      | Some r => match route_gate verify authenticate (rt_Guard r) now (rq_Path rq) (rq_Authorization rq) with
                  | (events, Err e) => (events, Refused e)
                  | (events, Ok actor) => (events, Reached r actor)
                  end
      end) as Hserve by (unfold serve; by destruct (rq_Method rq)).
  assert (rq_Method rq = OPTIONS ∨ rq_Method rq ≠ OPTIONS) as [Ho|Ho] by (destruct (rq_Method rq); auto).
  { unfold serve. rewrite Ho. split; [done|]. by intros []. }
  rewrite (Hserve Ho). clear Hserve. destruct (dispatch _ _ _) as [q|]; [|split; [done|]; by intros (_ & ? & _)].
  destruct (route_gate verify authenticate (rt_Guard q) now (rq_Path rq) (rq_Authorization rq)) as [ev [a|e]] eqn:Eg.
  - apply route_gate_Ok in Eg as [-> Ha]. split; [by intros [= <- <- <-]|]. intros (_ & [= ->] & -> & Ha').
    assert (∀ a', admitted verify authenticate (rt_Guard r) now (rq_Authorization rq) a' →
      route_gate verify authenticate (rt_Guard r) now (rq_Path rq) (rq_Authorization rq) = ([], Ok a')) as Hback.
    { intros a' Ha2. by apply route_gate_Ok. }
    apply Hback in Ha, Ha'. congruence.
  - split; [done|]. intros (_ & [= ->] & -> & Ha).
    assert (route_gate verify authenticate (rt_Guard r) now (rq_Path rq) (rq_Authorization rq) = ([], Ok actor)) as E
      by by apply route_gate_Ok. congruence.
Qed.

(** A request reaches a handler exactly when it is not a preflight, the
    router picked that handler's route, and the route's gate admits its
    Authorization header: no credential on a public route; else a bearer token
    that verifies as a user, whose time of issue is less than eight hours ago and
    who is an administrator where the route asks for one; or, on a route open to
    machines, a machine credential that authenticates with the route's scope. A
    machine credential never passes as a user, and a request that gets through
    leaves no rejection behind. *)
Theorem access_exact verify authenticate d now rq events r actor :
  serve verify authenticate d now rq = (events, Reached r actor) ↔
  rq_Method rq ≠ OPTIONS ∧ dispatch (NewRouter d) (rq_Method rq) (rq_Path rq) = Some r ∧ events = []
  ∧ admitted verify authenticate (rt_Guard r) now (rq_Authorization rq) actor.
Proof. apply serve_reached. Qed.

Context `{UserText, DbTime} (signingKey : bytes).

(** C34: Over the stored users and machine credentials: whoever reaches a handler
    that is not public is either a user whose row is active, whose token carries
    the row's current version and was issued less than eight hours ago, and who
    acts with the role the row has now — admin, on an administrator's route — or
    a machine principal whose stored credential has the hash of the token, the
    scope of the route, is not revoked and has not expired. *)
Theorem access_control d rq r actor events users rf machines past k now machine_now :
  machine_history (machines :: past) → ac_snap k ∈ machines :: past →
  serve (VerifyToken signingKey rf users) (λ token scope, (Authenticate k machine_now token scope machines).1) d now rq
    = (events, Reached r actor) →
  r ∈ NewRouter d ∧ rt_Method r = rq_Method rq ∧
  match actor with
  | NoActor => rt_Guard r = Public
  | UserActor u => ∃ g token row,
      user_side (rt_Guard r) = Some g ∧ bearer_token (rq_Authorization rq) = Some token
      ∧ ud_users users !! au_ID u = Some row ∧ ur_IsActive row ≠ 0%Z
      ∧ token_claims signingKey token = Some (au_ID u, ur_Version row, au_IssuedAt u)
      ∧ ud_roles users !! ur_RoleID row = Some (au_Role u)
      ∧ (time_sub now (unix_instant (au_IssuedAt u)) < MaxQueryTokenAge)%Z
      ∧ (wants_admin g = true → au_Role u = gs "admin")
  | MachineActor m => ∃ g scope token c,
      rt_Guard r = UserOrMachine g scope ∧ rq_Authorization rq = bearer_prefix ++ token
      ∧ md_credentials (ac_snap k) !! id_CredentialID m = Some c ∧ id_ID m = mc_Principal c
      ∧ mc_SecretHash c = sha256 token ∧ scope ∈ mc_Scopes c ∧ mc_RevokedAt c = None ∧ (machine_now < mc_ExpiresAt c)%Z
  end.
Proof.
  intros Hh Hk (_ & Hd & _ & Ha)%serve_reached. apply dispatch_registered in Hd as [Hin Hm].
  split; [done|]. split; [done|]. destruct actor as [|u|m]; [done| |].
  - destruct Ha as (g & Hg & [(token & Ht & Hv) _ Hf Hr]).
    assert (accepts signingKey users token u) as Hacc.
    { unfold accepts. destruct rf; [|done]. unfold VerifyToken in Hv |- *. by destruct (token_claims signingKey token) as [[[]]|]. }
    apply accepts_row in Hacc as (v & row & Hc & Hrow & Hrole & Hact & <-). exists g, token, row. done.
  - destruct Ha as (g & scope & Hg & token & Hhd & _ & Hau).
    destruct (Authenticate k machine_now token scope machines) as [[m'|] s'] eqn:E; [|done]. cbn in Hau. injection Hau as ->.
    destruct (authenticated_row _ _ _ _ _ _ _ _ Hh Hk E) as (c & p & Hc & _ & Hid & _ & Hs & Hsc & _ & Hrev & Hexp & _).
    exists g, scope, token, c. do 3 (split; [done|]). split; [by rewrite Hid|]. done.
Qed.
End service.

(** ** The rules of the route table *)

#[export] Instance http_method_eq_dec : EqDecision http_method.
Proof. solve_decision. Defined.
#[export] Instance user_guard_eq_dec : EqDecision user_guard.
Proof. solve_decision. Defined.
#[export] Instance route_guard_eq_dec : EqDecision route_guard.
Proof. solve_decision. Defined.
#[export] Instance route_eq_dec : EqDecision route.
Proof. solve_decision. Defined.

Definition is_read (m : http_method) : bool := match m with GET => true | _ => false end.
Definition begins (s : string) (r : route) : bool := is_prefix (gs s) (rt_Pattern r).
(** The writes of the inventory, the administration and the audit log. *)
Definition administrative (r : route) : bool :=
  negb (is_read (rt_Method r)) && (begins "/resources" r || begins "/resource-relations" r)
  || begins "/admin/" r || begins "/ops/" r
  || bool_decide (rt_Pattern r ∈ [gs "/audit-events"; gs "/resources/{id}/audit-events"]).
(** The writes open to machines, each with its scope. *)
Definition machine_writes : list (http_method * bytes * bytes) :=
  [(POST, gs "/admin/ingestions/preview", MachineScopeInventoryIngest); (POST, gs "/admin/ingestions/confirm", MachineScopeInventoryIngest);
   (POST, gs "/resources/{id}/health-observations", MachineScopeHealthWrite);
   (POST, gs "/query-targets/{id}/execute", MachineScopeGovernedSelect)].
Definition route_rules (r : route) : Prop :=
  match rt_Guard r with
  | Public => (rt_Method r, rt_Pattern r) ∈ [(GET, gs "/health"); (POST, gs "/auth/login"); (GET, gs "/openapi.yaml"); (GET, gs "/docs")]
  | UserOnly g => administrative r = true → wants_admin g = true
  | UserOrMachine g scope =>
      (is_read (rt_Method r) = true ∨ (rt_Method r, rt_Pattern r, scope) ∈ machine_writes)
      ∧ (administrative r = true → wants_admin g = true)
  end.
#[export] Instance route_rules_dec r : Decision (route_rules r).
Proof. unfold route_rules. destruct (rt_Guard r); apply _. Defined.

Definition all_services : Dependencies := MkDependencies true true true true true true true true true true.
Lemma when_subset b l : when b l ⊆ l.
Proof. destruct b; [done|]. intros x []%elem_of_nil. Qed.
Lemma app_subset {A} (k l k' l' : list A) : k ⊆ k' → l ⊆ l' → k ++ l ⊆ k' ++ l'.
Proof. intros Hk Hl x [Hx|Hx]%elem_of_app; apply elem_of_app; [left; by apply Hk|right; by apply Hl]. Qed.
Lemma router_subset d : NewRouter d ⊆ NewRouter all_services.
Proof.
  unfold NewRouter. cbn [all_services when dp_NamedInventoryViewService dp_QueryWorkspaceService dp_MachinePrincipalService
    dp_QueryExecutionService dp_QueryExecutionStatementService dp_QueryExplainService dp_QueryCredentialService dp_QuerySchemaService
    dp_QueryDisclosureService dp_QuerySavedStatementService].
  repeat first [apply app_subset | apply when_subset | done].
  destruct (dp_QuerySavedStatementService d); [|by intros x []%elem_of_nil]. cbn [when].
  apply app_subset; [done|apply when_subset].
Qed.

(** The route table keeps the rules of the service, whatever optional
    services a process has: four routes are public; a machine credential reaches
    reads and, of the writes, only the ingestion endpoints, the health
    observations and the governed statement, each with its own scope; and every
    route that writes the inventory, belongs to the administration or reads the
    audit log asks users to be administrators. *)
Theorem route_policy d : Forall route_rules (NewRouter d).
Proof.
  assert (Forall route_rules (NewRouter all_services)) as Hall.
  { apply (bool_decide_unpack (Forall route_rules (NewRouter all_services))). by vm_compute. }
  rewrite Forall_forall in Hall. apply Forall_forall. intros r Hr. by apply Hall, (router_subset d).
Qed.

(** ** The bound on rejections *)

Lemma time_sub_window now start window :
  (0 < window ≤ max_int64)%Z → (window <=? time_sub now start)%Z = (window <=? now - start)%Z.
Proof. intros Hw. apply eq_true_iff_eq. rewrite !Z.leb_le. unfold time_sub, min_int64, max_int64 in *. lia. Qed.

Section bound.
Context (limit window : Z) (Hlimit : (0 < limit)%Z) (Hwindow : (0 < window ≤ max_int64)%Z).

(** How many of some times lie in [[t, t + window)]. *)
Definition within (t : Z) (l : list Z) : Z := Z.of_nat (length (filter (λ x, t ≤ x < t + window)%Z l)).

Lemma within_app t l k : within t (l ++ k) = (within t l + within t k)%Z.
Proof. unfold within. rewrite filter_app, length_app. lia. Qed.
Lemma within_le t l : (0 ≤ within t l ≤ Z.of_nat (length l))%Z.
Proof. unfold within. pose proof (length_filter (λ x, t ≤ x < t + window)%Z l). lia. Qed.
Lemma within_none t l : Forall (λ x, x < t)%Z l → within t l = 0%Z.
Proof.
  intros Hl. unfold within. induction Hl as [|x l Hx _ IH]; [done|]. rewrite filter_cons_False by lia. done.
Qed.

(** The times passed so far: those before the previous window, of the previous
    one, and of the current one. *)
Record windows (latest : Z) (b : BearerRejectBudget) (times : list Z) : Prop := {
  ws_budget : bb_limit b = limit ∧ bb_window b = window ∧ (0 ≤ bb_count b ≤ limit)%Z;
  ws_latest : (bb_windowStart b ≤ latest)%Z;
  ws_split : ∃ old prev cur start, times = old ++ prev ++ cur ∧ Z.of_nat (length cur) = bb_count b
    ∧ (Z.of_nat (length prev) ≤ limit)%Z ∧ (start + window ≤ bb_windowStart b ∨ prev = [] ∧ old = [])%Z
    ∧ Forall (λ x, x < start)%Z old ∧ Forall (λ x, x < start + window)%Z prev ∧ Forall (λ x, bb_windowStart b ≤ x ≤ latest ∧ x < bb_windowStart b + window)%Z cur;
  ws_bound t : (within t times ≤ 2 * limit)%Z;
}.

Lemma allow_windows latest now b times :
  windows latest b times → (latest ≤ now)%Z →
  let '(passed, b') := allow now b in windows now b' (times ++ if passed then [now] else []).
Proof.
  intros [(Hl & Hw & Hc) Hlat (old & prev & cur & start & -> & Hlen & Hprev & Hstart & Hold & Hp & Hcur) Hb] Hnow.
  unfold allow. rewrite Hw, time_sub_window by done.
  destruct (window <=? now - bb_windowStart b)%Z eqn:Er; bool_inv; cbn [bb_limit bb_count bb_windowStart bb_window]; rewrite Hl.
  - rewrite (proj2 (Z.leb_gt limit 0)) by lia. split; cbn; [split_and!; [done|done|lia|lia]|lia| |].
    + exists (old ++ prev), cur, [now], (bb_windowStart b). rewrite <- !app_assoc. split; [done|]. split; [done|]. split; [lia|].
      split; [left; lia|]. split; [|split; [eapply Forall_impl; [exact Hcur|cbn; lia]|]; apply Forall_singleton; lia]. destruct Hstart as [Hs|[-> ->]]; [|by apply Forall_nil].
      apply Forall_app. split; eapply Forall_impl; [exact Hold|cbn; lia|exact Hp|cbn; lia].
    + intros t. rewrite !within_app. pose proof (within_le t [now]) as H1. cbn in H1.
      destruct (decide (t + window ≤ now)%Z) as [Hout|Hin].
      { assert (within t [now] = 0%Z) as ->. { unfold within. by rewrite filter_cons_False by lia. }
        specialize (Hb t). rewrite !within_app in Hb. lia. }
      assert (within t old = 0%Z ∧ within t prev = 0%Z) as [-> ->].
      { destruct Hstart as [Hs|[-> ->]]; [|done]. split; apply within_none; eapply Forall_impl; [exact Hold|cbn; lia|exact Hp|cbn; lia]. }
      pose proof (within_le t cur). lia.
  - destruct (limit <=? bb_count b)%Z eqn:Ef; bool_inv.
    { rewrite app_nil_r. split; [done|lia| |done]. exists old, prev, cur, start. do 6 (split; [done|]).
      eapply Forall_impl; [exact Hcur|cbn; lia]. }
    split; cbn; [split_and!; [done|done|lia|lia]|lia| |].
    + exists old, prev, (cur ++ [now]), start. rewrite <- !app_assoc, length_app. cbn. split; [done|]. split; [lia|].
      do 4 (split; [done|]). apply Forall_app. split; [eapply Forall_impl; [exact Hcur|cbn; lia]|]. apply Forall_singleton. lia.
    + intros t. rewrite !within_app. pose proof (within_le t [now]) as H1. cbn in H1.
      destruct (decide (t + window ≤ now)%Z) as [Hout|Hin].
      { assert (within t [now] = 0%Z) as ->. { unfold within. by rewrite filter_cons_False by lia. }
        specialize (Hb t). rewrite !within_app in Hb. lia. }
      pose proof (within_le t prev). pose proof (within_le t cur).
      destruct Hstart as [Hs|[-> ->]]; [|change (within t []) with 0%Z; lia].
      assert (within t old = 0%Z) as ->; [|lia]. apply within_none. eapply Forall_impl; [exact Hold|cbn; lia].
Qed.

Definition untrusted_in (l : list (Z * auth_event)) : list (Z * auth_event) := filter (λ p, untrusted p.2 = true) l.
Definition trusted_in (l : list (Z * auth_event)) : list (Z * auth_event) := filter (λ p, untrusted p.2 = false) l.

Lemma untrusted_in_app l k : untrusted_in (l ++ k) = untrusted_in l ++ untrusted_in k.
Proof. apply filter_app. Qed.
Lemma trusted_in_app l k : trusted_in (l ++ k) = trusted_in l ++ trusted_in k.
Proof. apply filter_app. Qed.

Lemma one_event p :
  (untrusted_in [p], trusted_in [p]) = if untrusted p.2 then ([p], []) else ([], [p]).
Proof. unfold untrusted_in, trusted_in. rewrite !filter_cons. by destruct (untrusted p.2). Qed.

(** What one event does to the emitter. *)
Lemma emit_step latest p s :
  windows latest (em_budget s) (untrusted_in (em_passed s)).*1 → (latest ≤ p.1)%Z →
  let s' := EmitAuthAudit p.1 p.2 s in
  windows p.1 (em_budget s') (untrusted_in (em_passed s')).*1
  ∧ trusted_in (em_passed s') = trusted_in (em_passed s) ++ trusted_in [p]
  ∧ (em_suppressed s' + Z.of_nat (length (untrusted_in (em_passed s')))
     = em_suppressed s + Z.of_nat (length (untrusted_in (em_passed s))) + Z.of_nat (length (untrusted_in [p])))%Z.
Proof.
  intros Hw Hp s'. destruct p as [now e]. cbn [fst snd] in *. pose proof (one_event (now, e)) as Ho. cbn [snd] in Ho.
  subst s'. unfold EmitAuthAudit. destruct (untrusted e); injection Ho as Ho1 Ho2.
  - pose proof (allow_windows _ _ _ _ Hw Hp) as Ha. rewrite Ho1, Ho2, app_nil_r.
    destruct (allow now (em_budget s)) as [[] b]; cbn [em_budget em_passed em_suppressed];
      rewrite ?untrusted_in_app, ?trusted_in_app, ?Ho1, ?Ho2, ?fmap_app, ?app_nil_r, ?length_app in *; cbn in *;
      (split; [exact Ha|]); (split; [done|]); lia.
  - cbn [em_budget em_passed em_suppressed]. rewrite untrusted_in_app, trusted_in_app, Ho1, Ho2, app_nil_r. cbn.
    split; [|split; [done|lia]]. destruct Hw as [Hb Hl (old & prev & cur & start & Hs & Hn & Hpr & Hst & Ho & Hpv & Hc) Hbd].
    split; [done|lia| |done]. exists old, prev, cur, start. do 6 (split; [done|]). eapply Forall_impl; [exact Hc|cbn; lia].
Qed.

Lemma within_all t l : Forall (λ x, t ≤ x < t + window)%Z l → within t l = Z.of_nat (length l).
Proof.
  intros Hl. unfold within. f_equal. induction Hl as [|x l Hx _ IH]; [done|]. rewrite filter_cons_True by done. cbn. by rewrite IH.
Qed.

(** An event is held back only when the window it falls into is full. *)
Lemma held_back latest p s :
  windows latest (em_budget s) (untrusted_in (em_passed s)).*1 → (latest ≤ p.1)%Z →
  em_suppressed (EmitAuthAudit p.1 p.2 s) ≠ em_suppressed s →
  (limit ≤ within (p.1 - window + 1) (untrusted_in (em_passed s)).*1)%Z.
Proof.
  intros [(Hl & Hw & Hc) Hlat (old & prev & cur & start & -> & Hn & _ & _ & _ & _ & Hcur) _] Hp. unfold EmitAuthAudit.
  destruct (untrusted p.2); [|done]. unfold allow. rewrite Hw, time_sub_window by done.
  destruct (window <=? p.1 - bb_windowStart (em_budget s))%Z eqn:Er; bool_inv; cbn [bb_limit bb_count]; rewrite ?Hl.
  { by rewrite (proj2 (Z.leb_gt limit 0)) by lia. }
  destruct (limit <=? bb_count (em_budget s))%Z eqn:Ef; bool_inv; [|done]. intros _. rewrite !within_app.
  rewrite (within_all _ cur) by (eapply Forall_impl; [exact Hcur|cbn; lia]).
  pose proof (within_le (p.1 - window + 1) old). pose proof (within_le (p.1 - window + 1) prev). lia.
Qed.

Lemma emit_all_bound events latest s :
  windows latest (em_budget s) (untrusted_in (em_passed s)).*1 → StronglySorted Z.le (latest :: events.*1) →
  let s' := emit_all events s in
  (∀ pre p post, events = pre ++ p :: post → let now := emit_all pre s in
     em_suppressed (EmitAuthAudit p.1 p.2 now) ≠ em_suppressed now →
     (limit ≤ within (p.1 - window + 1) (untrusted_in (em_passed now)).*1)%Z) ∧
  (∀ t, within t (untrusted_in (em_passed s')).*1 ≤ 2 * limit)%Z
  ∧ trusted_in (em_passed s') = trusted_in (em_passed s) ++ trusted_in events
  ∧ (em_suppressed s' + Z.of_nat (length (untrusted_in (em_passed s')))
     = em_suppressed s + Z.of_nat (length (untrusted_in (em_passed s))) + Z.of_nat (length (untrusted_in events)))%Z.
Proof.
  revert latest s. induction events as [|p events IH]; intros latest s Hw Hs; cbn zeta.
  { cbn. rewrite app_nil_r. split; [by intros [] ? ? ?|]. split; [apply Hw|]. split; [done|lia]. }
  apply StronglySorted_inv in Hs as [Hs Hle]. apply Forall_cons in Hle as [Hle _].
  destruct (emit_step _ p s Hw Hle) as (Hw' & Ht & Hn). destruct (IH _ _ Hw' Hs) as (H0 & H1 & H2 & H3).
  change (emit_all (p :: events) s) with (emit_all events (EmitAuthAudit p.1 p.2 s)).
  change (p :: events) with ([p] ++ events). rewrite trusted_in_app, untrusted_in_app, length_app.
  split; [|split; [done|]; split; [by rewrite H2, Ht, app_assoc|lia]].
  intros [|q pre] r post He; injection He as -> He; [intros now; by eapply held_back|]. by apply (H0 pre r post).
Qed.

Lemma new_windows : windows zero_time (NewBearerRejectBudget limit window) [].
Proof.
  split; cbn; [split_and!; [done|done|lia|lia]|done| |intros t; change (within t []) with 0%Z; lia].
  exists [], [], [], 0%Z. split; [done|]. split; [done|]. split; [cbn; lia|]. split; [by right|].
  repeat split; apply Forall_nil_2.
Qed.
End bound.

(** C35: However many requests without a verified actor are rejected, the log
    takes at most twice sixty of them within any minute — sixty per window of the
    budget — and holds one back only when sixty were taken in the minute that
    ends with it; every other event passes, in order; and what is held back is
    counted exactly. Times are those at which the budget reads its clock, in
    order. *)
Theorem rejections_bounded events t :
  StronglySorted Z.le (zero_time :: events.*1) →
  let s := emit_all events (new_emitter BoundedBearerRejectedLimit minute) in
  (within minute t (untrusted_in (em_passed s)).*1 ≤ 2 * BoundedBearerRejectedLimit)%Z
  ∧ (∀ pre p post, events = pre ++ p :: post →
       let now := emit_all pre (new_emitter BoundedBearerRejectedLimit minute) in
       em_suppressed (EmitAuthAudit p.1 p.2 now) ≠ em_suppressed now →
       BoundedBearerRejectedLimit ≤ within minute (p.1 - minute + 1) (untrusted_in (em_passed now)).*1)%Z
  ∧ trusted_in (em_passed s) = trusted_in events
  ∧ (em_suppressed s + Z.of_nat (length (untrusted_in (em_passed s))) = Z.of_nat (length (untrusted_in events)))%Z.
Proof.
  intros Hs. destruct (emit_all_bound BoundedBearerRejectedLimit minute ltac:(done) ltac:(done) events zero_time
    (new_emitter BoundedBearerRejectedLimit minute)) as (H0 & H1 & H2 & H3); [by apply new_windows|done|].
  cbn zeta. split; [apply H1|]. split; [exact H0|]. split; [exact H2|]. rewrite H3. cbn. lia.
Qed.

(** ** Concrete requests *)

Module AccessSample.
Import AuthSample MachineSample.
(** A router that compares whole patterns. *)
#[export] Instance whole : Dispatch := λ l m path,
  snd <$> list_find (λ r, rt_Method r = m ∧ rt_Pattern r = path) l.
#[export] Instance whole_laws : DispatchLaws whole.
Proof.
  split. intros l m path r ([i q] & (Hq & [Hm _] & _)%list_find_Some & ->)%fmap_Some. split; [|done].
  by eapply list_elem_of_lookup_2.
Qed.

(** Ada creates a resource an hour after her login. *)
Definition one_hour_later : Z := ((1700000000 + 3600) * 1000000000)%Z.
Definition by_ada : request := Request POST (gs "/resources") (gs "BEARER " ++ AuthSample.token).
Definition create_route : route := Route POST (gs "/resources") (UserOnly RequireAdmin).
Definition serve_sample (rq : request) : list auth_event * served :=
  serve (VerifyToken AuthSample.key false AuthSample.start)
    (λ token scope, (Authenticate (calls created.2 created.2) one_hour_later token scope created.2).1)
    all_services one_hour_later rq.
Lemma by_ada_reaches : serve_sample by_ada = ([], Reached create_route (UserActor ada)).
Proof. by vm_compute. Qed.
(** A machine reads the inventory; the same credential does not pass as a user. *)
Definition by_machine (m : http_method) (path : string) : request := Request m (gs path) (gs "Bearer " ++ is_Secret issue).
Example machine_reads :
  (serve_sample (by_machine GET "/resources")).2
  = Reached (Route GET (gs "/resources") (UserOrMachine RequireUser MachineScopeInventoryRead)) (MachineActor identity).
Proof. by vm_compute. Qed.
Example machine_writes_nothing :
  (serve_sample (by_machine POST "/resources")).2 = Refused (writeMachineCredentialError ErrMachineScopeDenied).
Proof. by vm_compute. Qed.

Definition flood : list (Z * auth_event) := repeat (0%Z, bearer_rejected None) 61.
End AccessSample.
Import AuthSample MachineSample AccessSample.

Lemma access_control_witness :
  serve_sample by_ada = ([], Reached create_route (UserActor AuthSample.ada))
  ∧ ∃ row, ud_users AuthSample.start !! au_ID AuthSample.ada = Some row ∧ ur_IsActive row ≠ 0%Z.
Proof.
  split; [exact by_ada_reaches|].
  assert (machine_history [MachineSample.created.2; empty_machines]) as Hh by (apply machine_next; [apply machine_start|apply step_issue]).
  destruct (access_control AuthSample.key all_services by_ada create_route (UserActor AuthSample.ada) [] AuthSample.start false
    MachineSample.created.2 [empty_machines] (MachineSample.calls MachineSample.created.2 MachineSample.created.2)
    one_hour_later one_hour_later Hh (list_elem_of_here _ _) by_ada_reaches)
    as (_ & _ & g & token & row & _ & _ & Hrow & Hact & _).
  exists row. exact (conj Hrow Hact).
Defined.

Lemma rejections_bounded_witness :
  let s := emit_all flood (new_emitter BoundedBearerRejectedLimit minute) in
  em_suppressed s = 1%Z ∧ (within minute 0 (untrusted_in (em_passed s)).*1 ≤ 2 * BoundedBearerRejectedLimit)%Z.
Proof.
  split; [by vm_compute|]. refine (proj1 (rejections_bounded flood 0 _)).
  change flood.*1 with (repeat 0%Z 61). repeat (apply SSorted_cons; [|repeat (apply Forall_cons; split; [by vm_compute|]); apply Forall_nil_2]).
  apply SSorted_nil.
Defined.
